(* ===== verification/_CoqProject ===== *)
-Q . S2P
Prelude.v
JsObject.v
Types.v
Graph.v
Rename.v
Walk.v
Expr.v
Peg.v
PegFuel.v
Lint.v
PegError.v
Duration.v
Validate.v
WellFormed.v
ValidateProps.v
RenameValid.v
Schema.v
ImportExport.v
Store.v
StoreProps.v
StoreInv.v
Engine.v
Drafts.v
GoDefinition.v
Utc.v
Backoff.v
Callback.v
Lease.v
Runner.v
Kafka.v
KafkaProps.v
Cursor.v
Paging.v
Conditions.v
Instances.v
InstancesProps.v
Context.v
Executions.v
Incidents.v
IncidentsProps.v
Overview.v
OverviewProps.v
Variables.v
UrlParams.v
ListFilters.v
SavedFilters.v
SavedFiltersProps.v
Routes.v
RoutesProps.v
InstancePage.v
InstancePageProps.v
Comparison.v
Diagram.v
Timeline.v
DeleteDialog.v
StepEdits.v
Layout.v
Canvas.v
Dialogs.v
Forms.v
TableForm.v
JsonEditor.v
EngineBrowser.v
DraftsDialog.v
History.v
Persist.v
Panels.v
Platform.v
Toolbar.v
App.v
ValidationPanel.v
Inspector.v
Transport.v
Report.v
LoadTest.v
ListViews.v
MonitorApi.v
InstancePanels.v
InstanceView.v
Drift.v
