(* ===== verification/Prelude.v ===== *)
(** * Rochallor: a verification library for the TypeScript packages

    Rochallor is a workflow engine with a visual modeller, worker SDKs and a
    monitor.  This library covers the packages written in TypeScript:
    workflow-modeller (the editor of workflow definitions), workflow-sdk-node
    (the library a worker runs jobs with), workflow-monitor-bff (the API
    behind the monitor), workflow-monitor (its pages) and the load tests of
    perf, and of the engine, which is written in Go, the code that decides whether
    an uploaded definition is accepted.  Definitions carry the names of the functions and types they model;
    paths below are relative to src/.

    ** How the parts interact

    The modeller keeps one workflow definition in a store.  Its actions edit
    it (store/workflowStore.ts over domain/*.ts), import and export it as JSON
    (io/), keep drafts in local storage, validate it (domain/validate.ts, with
    the expression language of domain/expression/) and upload it to the engine
    (engine/client.ts).  A worker polls the engine for jobs, or takes them
    from Kafka, keeps the lease of a polled job alive, runs the handler of the
    job's type and delivers its outcome with retries.  The monitor API reads
    the tables the engine writes; the pages of the monitor call it, keep their
    filters in the location and link to each other.

    ** The files

    - [Prelude]: notation, tactics, hint databases, lemmas on texts and lists.
    - [JsObject]: JavaScript objects as ordered association lists with the key
      order and the prototype key of the language; JSON values; numbers.
    - [Types]: steps, definitions, diagnostics (domain/types.ts,
      domain/schema.ts); two definitions used as concrete inputs.
    - [Graph], [Rename], [RenameValid]: domain/graph.ts, domain/rename.ts.
    - [Walk]: the worklist walk and the coloured depth-first search the
      validator uses, with their specifications (what is reached, what is on a
      cycle); [Expr], [Peg], [PegFuel], [Lint],
      [Duration]: the expression language (parser.ts,
      parser.generated.ts, lint.ts) and the id and duration patterns;
      [PegError]: the generated parser with the state it keeps for its errors,
      their text and location.
    - [Validate]: every check of domain/validate.ts; [WellFormed]: what a valid
      definition is, stated without the checks; [ValidateProps]: they agree.
    - [Schema]: the zod schemas as decoders of JSON values, with the encoders
      that are their inverses; [ImportExport]: io/import.ts, io/export.ts.
    - [Store], [StoreProps], [StoreInv]: the state, its actions and what they
      keep of the steps; [History]: the store inside the middleware that keeps
      its undo history, with the shortcuts of Toolbar.tsx; its last part puts
      the stored drafts and the answers of the engine beside it (the workspace)
      and has the reachable states of the whole; [Persist]: what the persistence
      middleware keeps of the store over a restart.
    - [Engine], [Drafts]: engine/client.ts with the actions that await it;
      io/drafts.ts.
    - [Layout], [Canvas]: canvas/layout.ts and canvas/Canvas.tsx, the graph
      given to the layout engine, the layout effect, whose dependencies are
      compared by the identity of the objects, and the handlers of the canvas; [DeleteDialog], [StepEdits], [Forms], [TableForm], [Inspector]:
      deleting a step, the forms of panels/property-forms/, the property panel
      and the palette; [Dialogs]: panels/useDialogs.tsx.
    - [JsonEditor], [EngineBrowser], [DraftsDialog], [Panels] (import, export
      and settings), [Toolbar], [ValidationPanel], [App]: the other panels and
      the shell, each a record of the component's state with a step function
      over its events; effects that follow a render are part of the step;
      [Platform]: platform/contracts.ts as a class, with platform/web.ts and
      platform/desktop.ts as its instances.
    - [GoDefinition]: the engine's decoding and validation of a
      definition (workflow-engine/internal/definition/), numbers read from the
      text JSON.stringify writes; [Drift]: the script
      scripts/drift-check.ts that compares it with the editor's validator, and
      the handler of an upload.
    - [Utc]: the calendar of [Date], timestamps (common/utils/utc-timestamp.ts).
    - [Backoff], [Callback]: retry/backoff.ts with
      runner/deduplication_cache.ts, handler/registry.ts and runner/callback.ts.
    - [Lease]: runner/heartbeat.ts as a state machine over timed events;
      [Runner]: runner/runner.ts, a dispatch with what happens to the lease or
      the signal while the handler runs and around every attempt; [Kafka], [KafkaProps]: runner/kafka_runner.ts
      as a machine over the callbacks of the client and the continuations of
      its works, with the trace that broker and engine see; [Transport]:
      client/rest.ts, client/grpc.ts and the gauges of metrics/metrics.ts.
    - [Cursor], [Paging], [Conditions]: cursors, keyset pagination over an
      ordered table, and the numbered conditions of a query, shared by all
      lists of the API; [Instances], [InstancesProps], [Executions]: the lists
      of process instances and of the step executions of one; [Context]: the
      detail of an instance and what it waits for (modules/process-instances/).
    - [Incidents], [IncidentsProps]: modules/incidents/; [Overview],
      [OverviewProps]: modules/overview/; [Variables]: modules/process-variables/,
      modules/workflow-definitions/, the configuration and readiness of
      app.ts and common/database/monitor-database.ts.
    - [UrlParams]: URLSearchParams and encodeURIComponent; [ListFilters]:
      routes/listFilters.ts; [SavedFilters], [SavedFiltersProps]:
      saved-filter-storage.ts and SavedFilters.tsx with the storage other tabs
      share; [Routes], [RoutesProps]: App.tsx and the list pages, from the
      location a page pushes to the filters the API reads from it; [ListViews]:
      what those pages show of their queries; [MonitorApi]: the controllers and
      the status codes between a query of the API and the screen of a page.
    - [InstancePage], [InstancePageProps]: routes/ProcessInstanceRoute.tsx, its
      pages of executions, links and refresh; [InstanceView]: what it shows of
      its state and queries; [Diagram]: the edges and labels of
      ExecutionDiagram.tsx, its layout effect and what it draws; [Comparison]:
      process-variables/SnapshotComparison.tsx; [Timeline]: times on the pages;
      [InstancePanels]: ExecutionContextPanel.tsx and the inspector of recorded
      variables.
    - [Report]: perf/lib/report.js, from the evidence to the verdict;
      [LoadTest]: the scenarios of perf/scenarios/ at both wires.

    ** What the theorems show

    - Validation: no error is reported exactly for well-formed definitions; a
      cycle warning exactly for a cycle; rename keeps valid definitions valid,
      reaches every reference and can be undone.  The drift guard reports a
      drift exactly for the definitions the editor accepts and the engine does
      not, which are characterised; there are some.
    - Editing: in every reachable state, drafts and accepted engine answers
      included, deletes and renames succeed; a delete changes exactly the
      references to the deleted step, a new step always gets a free id, the dirty
      flag follows edits; the undo history refines a
      timeline of at most a hundred other definitions, a run of edits is undone
      and redone exactly, and a restart restores what is kept.
    - Texts: export and import, embedded layouts and drafts round trip; what an
      import accepts satisfies the schema; the expression parser terminates, and its
      errors say what is true of the text: nothing that is expected stands at
      their offset.
    - Workers: a lease once lost is never revived, and every attempt of a
      callback finds the owning signal alive; Kafka offsets are committed only for handled records by
      the current owner, and redelivered records are silent; polling is bounded
      and an abort is final; delivery returns exactly when acknowledged.
    - Monitor API: following cursors covers exactly the matching instances,
      executions, incidents, definition versions and steps, when their times
      are whole milliseconds; what the pages of instances leave out otherwise is
      characterised; the reason shown for a step is exactly the evidence in the
      tables.
    - Monitor pages (over tables with times of whole milliseconds where lists
      are followed): every number of the overview page is the number of instances
      its link opens; no list page is silent, and what it shows is the answer of
      the last fetch that succeeded; a saved filter is accepted by the API and opens what its
      location asked for; saving keeps what other tabs saved; filters and links
      survive the location; a link to an incident is shown exactly when the
      incident exists; the history of executions shows the pages of the API; a
      refresh after the first load ends with the final history; every link on the page of an instance
      opens; the breadcrumb and the sections fit the page at every location; a
      placement that comes late is dropped; the diagram has the edges of the
      modeller's graph, but calls the ones into a join by a name of their own; a comparison lists exactly the differences and its
      limits are exact.
    - Editor: connecting and deleting on the canvas change exactly what they
      show, the layout engine gets a connected graph and never overwrites a
      stored position, the layout settles exactly when there are steps; the forms commit exactly what they display; every prompt
      is resolved once, at most one upload runs, an engine that answers in
      order is listed faithfully; a text in the JSON editor is applied whole or
      not at all; the drafts on display are the stored ones.
    - Transports: a unary call settles with the first thing that happens to it
      and leaves no listener behind, and when it is cancelled is characterised; the gauges count the pending callbacks.
    - Load tests: a run passes only on clean evidence and, with a baseline, only
      without a regression; an iteration of thousand-concurrent loses a workflow
      only by a body that cannot be read; the teardown drains what waits and counts what is open.
    - Some theorems state defects of the code: a rename in a definition with a
      step of unknown type, an edit made or a workflow started during an
      upload, instances skipped between pages when start times have
      microseconds, a comparison that cannot be rendered for a variable named
      like an inherited method, a page that is left empty by a malformed address,
      definitions the editor accepts and the engine refuses, cells of a decision
      table that overwrite the rules moved under them, a history the first load of a page can leave
      behind, an empty canvas that never settles, transformations that cannot be
      added, branches lost by an edit, a search that shows the wrong page, and
      pages skipped while their tasks are completed.

    ** Interfaces

    What is outside the packages is a class, with the documented behaviour the
    theorems rely on, if any, as a second class of laws and an instance that
    satisfies them: [JsonText]
    (JSON.parse, JSON.stringify, safeParse), [Utf8Text], [DateText],
    [Postgres] (collation and reading of timestamps), [SqlText] (lower),
    [Sha256], [TemporalLibrary] and [PersistLibrary] (the middlewares of the
    store), [Tauri] (files and dialogs of the desktop), [DriftEnv] (the files and
    processes of the drift guard), [Coordinates] and [ElkLibrary] (the layout
    library of the monitor), [InputLibrary] (uncontrolled text fields), [NestErrors] (the body of an exception), [QueryLibrary] (what is
    kept of a query) and [FetchLibrary] (its fetches over time: a refetch
    replaces the one that runs, unless there is no data yet), [Wire] (a response of the load tests); fetch,
    the gRPC stub, the Kafka client and the generated decoder are arguments.

    ** Bounds

    Strings have units below 256.  The expression parser runs with fuel
    [length + 1], which [PegFuel] proves is never exhausted; the worklist walk
    with one more than the ids it starts from and all targets of all steps
    ([walk_fuel]), the depth-first search with one more than the number of
    steps; the search for a free suffix with one more
    than the number of steps; the year of a day with 40 steps, enough for the
    years 0 to 9999; pages with one more than the number of rows; the check of
    the limits of a comparison with two more than the values it may visit.
    Each has the theorem that it suffices.  Loops that wait for the outside (delivery,
    heartbeat, polling) consume a list of answers or events instead.

    ** Not modelled

    React markup and styles beyond what the theorems are about; the drag state of
    the canvas library and the placement of nodes, which the layout library
    computes; the wiring of the frameworks and the code generated for the wire
    formats; the printing of a syntax error over its source, which nothing calls;
    the cache of the query library beyond the data, error and running fetch of a
    query; overflow and underflow in the figures of a load test, and the request
    texts of the load tests; of the engine everything but
    the path of an upload, and the SDKs in other languages.  These are other
    languages, third-party code or presentation without state of its own. *)

From stdpp Require Export base tactics strings list gmap pretty option.
From Stdlib Require Export ZArith Ascii String.
From stdpp Require Export strings.


(** ** Notation scope of the development *)

Declare Scope rochallor_scope.
Delimit Scope rochallor_scope with roch.
Notation "s ⊕ t" := (String.append s t) (at level 60, right associativity) : rochallor_scope.
Open Scope rochallor_scope.

(** ** JavaScript strings

    A JS string is a sequence of UTF-16 code units; the model keeps the ones
    whose units are below 256, as [String.string].  [length], [===], [trim],
    [charAt], [slice], [startsWith], [split] and [join] act unit by unit, so
    the restriction only bounds the alphabet. *)

Definition chr (n : nat) : ascii := Ascii.ascii_of_nat n.

(** WhiteSpace and LineTerminator units below 256: TAB, LF, VT, FF, CR, SP, NBSP. *)
Definition is_js_space (c : ascii) : bool :=
  let n := Ascii.nat_of_ascii c in
  (Nat.leb 9 n && Nat.leb n 13) || Nat.eqb n 32 || Nat.eqb n 160.

Fixpoint trim_start (s : string) : string :=
  match s with
  | EmptyString => EmptyString
  | String c s' => if is_js_space c then trim_start s' else s
  end.

Fixpoint trim_end (s : string) : string :=
  match s with
  | EmptyString => EmptyString
  | String c s' =>
      match trim_end s' with
      | EmptyString => if is_js_space c then EmptyString else String c EmptyString
      | t => String c t
      end
  end.

(** [String.prototype.trim]. *)
Definition js_trim (s : string) : string := trim_end (trim_start s).

(** Truthiness of a string. *)
Definition truthy_str (s : string) : bool := negb (String.eqb s EmptyString).

(** The guard [!s || s.trim() === ''] the sources use for a missing text. *)
Definition blank (s : string) : bool :=
  negb (truthy_str s) || String.eqb (js_trim s) EmptyString.

(** Truthiness of an optional string: [undefined] and [''] are falsy. *)
Definition truthy_ostr (o : option string) : bool :=
  match o with Some s => truthy_str s | None => false end.

(** [String(n)] of a natural number, in decimal. *)
Definition str_of_nat (n : nat) : string := pretty n.

(** A text between double quotes, as the templates of the messages write it. *)
Definition dq : string := String (chr 34) EmptyString.
Definition quoted (s : string) : string := dq ⊕ s ⊕ dq.

(** [Array.prototype.join]. *)
Definition js_join (sep : string) (l : list string) : string := String.concat sep l.

(** [Array.prototype.includes] and [Set.prototype.has] on a list of strings. *)
Definition includes (l : list string) (x : string) : bool := bool_decide (x ∈ l).

(** [arr.forEach((x, i) => ...)] and friends: pair each element with its index. *)
Definition indexed {A} (l : list A) : list (nat * A) := imap pair l.

(** Every unit of [s] is in a character class. *)
Fixpoint all_chars (f : ascii → bool) (s : string) : bool :=
  match s with EmptyString => true | String c s => (f c && all_chars f s)%bool end.

(** ** Tactics *)

(** Split boolean connectives in hypotheses and turn [bool_decide] and string
    tests into propositions. *)
Ltac bool_hyps :=
  repeat match goal with
  | H : andb _ _ = true |- _ => apply andb_true_iff in H as [? ?]
  | H : orb _ _ = false |- _ => apply orb_false_iff in H as [? ?]
  | H : negb _ = true |- _ => apply negb_true_iff in H
  | H : negb _ = false |- _ => apply negb_false_iff in H
  | H : String.eqb _ _ = true |- _ => apply String.eqb_eq in H
  | H : String.eqb _ _ = false |- _ => apply String.eqb_neq in H
  | H : bool_decide _ = true |- _ => apply bool_decide_eq_true in H
  | H : bool_decide _ = false |- _ => apply bool_decide_eq_false in H
  end.

(** Case analysis on the scrutinee of the first match or test of the goal. *)
Ltac case_goal :=
  match goal with
  | |- context [match ?x with _ => _ end] => destruct x eqn:?
  | |- context [if ?b then _ else _] => destruct b eqn:?
  end.

(** ** Hints *)

Create HintDb roch.
Create Rewrite HintDb roch.

(** ** Generic lemmas *)

#[local] Arguments String.append !_ _ / : simpl nomatch.

Lemma truthy_str_true s : truthy_str s = true ↔ s ≠ EmptyString.
Proof. unfold truthy_str. rewrite negb_true_iff. apply String.eqb_neq. Qed.

Lemma truthy_str_false s : truthy_str s = false ↔ s = EmptyString.
Proof. unfold truthy_str. rewrite negb_false_iff. apply String.eqb_eq. Qed.

Fixpoint all_space (s : string) : bool :=
  match s with EmptyString => true | String c s' => is_js_space c && all_space s' end.

Lemma trim_end_nil s : trim_end s = EmptyString ↔ all_space s = true.
Proof.
  induction s as [|c s IH]; simpl; [done|].
  destruct (trim_end s) eqn:E, (is_js_space c); simpl; naive_solver.
Qed.

Lemma trim_start_nil s : trim_start s = EmptyString ↔ all_space s = true.
Proof. induction s as [|c s IH]; simpl; [done|]. destruct (is_js_space c); simpl; naive_solver. Qed.

Lemma trim_start_all_space s : all_space (trim_start s) = all_space s.
Proof. induction s as [|c s IH]; simpl; [done|]. destruct (is_js_space c) eqn:E; simpl; [done|]. by rewrite E. Qed.

(** A text is blank exactly when it consists of white space only. *)
Lemma blank_all_space s : blank s = all_space s.
Proof.
  unfold blank, truthy_str, js_trim. apply eq_true_iff_eq.
  rewrite negb_involutive, orb_true_iff, !String.eqb_eq, trim_end_nil, trim_start_all_space.
  destruct s; simpl; naive_solver.
Qed.

Lemma blank_nil : blank EmptyString = true.
Proof. done. Qed.

Lemma includes_true l x : includes l x = true ↔ x ∈ l.
Proof. apply bool_decide_eq_true. Qed.

Lemma includes_false l x : includes l x = false ↔ x ∉ l.
Proof. apply bool_decide_eq_false. Qed.

Lemma str_of_nat_inj n m : str_of_nat n = str_of_nat m → n = m.
Proof. apply (inj pretty). Qed.

(** A property of the ten digits holds of every unit of a printed number. *)
Lemma str_of_nat_chars (f : ascii → bool) n :
  forallb f (list_ascii_of_string "0123456789") = true → all_chars f (str_of_nat n) = true.
Proof.
  intros Hf. simpl in Hf. rewrite !andb_true_iff in Hf.
  unfold str_of_nat, pretty, pretty_nat, pretty, pretty_N. destruct (decide _); [simpl; by rewrite (proj1 Hf)|].
  assert (∀ x s, all_chars f s = true → all_chars f (pretty_N_go x s) = true) as H; [|by apply H].
  intros x. induction (N.lt_wf_0 x) as [x _ IH]. intros s Hs.
  destruct (decide (x = 0)%N) as [->|Hx]; [by rewrite pretty_N_go_0|].
  rewrite pretty_N_go_step by lia. apply IH; [apply N.div_lt; lia|]. simpl. rewrite Hs, andb_true_r.
  unfold pretty_N_char. repeat case_match; tauto.
Qed.

(** Two texts split at the last of a separator they have in their tails split
    alike. *)
Lemma tail_inj (sep : ascii) x y a b :
  all_chars (λ c, negb (Ascii.eqb c sep)) a = true → all_chars (λ c, negb (Ascii.eqb c sep)) b = true →
  x ⊕ String sep a = y ⊕ String sep b → x = y ∧ a = b.
Proof.
  assert (∀ x a, all_chars (λ c, negb (Ascii.eqb c sep)) (x ⊕ String sep a) = false) as Hno.
  { clear. intros x a. induction x as [|c x IH]; cbn; [by rewrite Ascii.eqb_refl|]. by rewrite IH, andb_false_r. }
  intros Ha Hb. revert y. induction x as [|c x IH]; intros [|d y] H; cbn [String.append] in H.
  - by injection H.
  - injection H as _ H. rewrite H, Hno in Ha. done.
  - injection H as _ H. rewrite <- H, Hno in Hb. done.
  - injection H as -> H. by destruct (IH _ H) as [-> ->].
Qed.

Lemma append_inj_r (s t u : string) : s ⊕ t = s ⊕ u → t = u.
Proof. induction s as [|c s IH]; simpl; [done|]. intros [= H]. by apply IH. Qed.

Lemma str_app_assoc (s t u : string) : (s ⊕ t) ⊕ u = s ⊕ t ⊕ u.
Proof. induction s as [|c s IH]; simpl; [done|]. by rewrite IH. Qed.

Lemma str_app_nil_r (s : string) : s ⊕ EmptyString = s.
Proof. induction s as [|c s IH]; simpl; [done|]. by rewrite IH. Qed.

Lemma str_app_nil (s t : string) : s ⊕ t = EmptyString ↔ s = EmptyString ∧ t = EmptyString.
Proof. destruct s, t; naive_solver. Qed.

Lemma length_str_app (s t : string) : String.length (s ⊕ t) = String.length s + String.length t.
Proof. induction s as [|c s IH]; simpl; [done|]. by rewrite IH. Qed.

Lemma leb_cons x a y b : String.leb (String x a) (String y b) =
  match N.compare (Ascii.N_of_ascii x) (Ascii.N_of_ascii y) with Lt => true | Eq => String.leb a b | Gt => false end.
Proof. unfold String.leb. cbn [String.compare]. unfold Ascii.compare. by destruct (N.compare _ _). Qed.

Lemma leb_trans a b c : String.leb a b = true → String.leb b c = true → String.leb a c = true.
Proof.
  revert b c. induction a as [|x a IH]; intros b c Hab Hbc; [by destruct c|].
  destruct b as [|y b]; [done|]. destruct c as [|z c]; [done|]. rewrite leb_cons in *.
  destruct (N.compare_spec (Ascii.N_of_ascii x) (Ascii.N_of_ascii y)), (N.compare_spec (Ascii.N_of_ascii y) (Ascii.N_of_ascii z)),
    (N.compare_spec (Ascii.N_of_ascii x) (Ascii.N_of_ascii z)); try done; try lia. by apply (IH b).
Qed.

Lemma elem_of_indexed {A} (l : list A) i x : (i, x) ∈ indexed l ↔ l !! i = Some x.
Proof.
  unfold indexed. rewrite list_elem_of_lookup. setoid_rewrite list_lookup_imap.
  split.
  - intros [j Hj]. destruct (l !! j) eqn:E; simplify_eq/=. done.
  - intros H. exists i. by rewrite H.
Qed.

Lemma indexed_snd {A} (l : list A) : (indexed l).*2 = l.
Proof.
  unfold indexed. apply list_eq. intros i. rewrite list_lookup_fmap, list_lookup_imap.
  by destruct (l !! i).
Qed.

Lemma filter_nil_Forall {A} (f : A → bool) (l : list A) :
  List.filter f l = [] ↔ Forall (λ x, f x = false) l.
Proof.
  induction l as [|x l IH]; simpl; [done|].
  rewrite Forall_cons. destruct (f x) eqn:E; naive_solver.
Qed.

Lemma filter_sublist {A} (f : A → bool) l : List.filter f l `sublist_of` l.
Proof. induction l as [|x l IH]; simpl; [constructor|]. destruct (f x); by constructor. Qed.

Lemma existsb_none {A} (f : A → bool) (l : list A) : (∀ x, x ∈ l → f x = false) → existsb f l = false.
Proof.
  intros Hf. apply not_true_iff_false. intros (x & Hx%list_elem_of_In & Hb)%List.existsb_exists. by rewrite Hf in Hb.
Qed.

#[export] Hint Rewrite includes_true includes_false truthy_str_true truthy_str_false : roch.
