(* ===== verification/JsObject.v ===== *)
(** * JavaScript objects used as dictionaries, and JSON values

    An object is the list of its own enumerable properties in the order
    [Object.keys] gives: array-index keys ascending first, then the other
    keys in insertion order.  [obj_set] is what a spread with a computed key
    and [Object.fromEntries] do (CreateDataProperty); [obj_assign] is
    [o[k] = v], which leaves the own properties alone for the key
    [__proto__]. *)

From S2P Require Import Prelude.

Abbreviation obj V := (list (string * V)).

(** ** Array-index keys: canonical decimals below 2^32 - 1 *)

Definition digit_val (c : ascii) : option N :=
  let n := Ascii.N_of_ascii c in
  if (N.leb 48 n && N.leb n 57)%bool then Some (n - 48)%N else None.

Fixpoint digits_val (acc : N) (s : string) : option N :=
  match s with
  | EmptyString => Some acc
  | String c s' => match digit_val c with
                   | Some d => digits_val (acc * 10 + d)%N s'
                   | None => None
                   end
  end.

Definition array_index (k : string) : option N :=
  match k with
  | EmptyString => None
  | String c s' =>
      if Ascii.eqb c (chr 48) then (if String.eqb s' EmptyString then Some 0%N else None)
      else match digits_val 0 k with
           | Some n => if N.ltb n 4294967295 then Some n else None
           | None => None
           end
  end.

(** [key_before k k']: a new key [k] is placed in front of the existing [k']. *)
Definition key_before (k k' : string) : bool :=
  match array_index k, array_index k' with
  | Some n, Some m => N.ltb n m
  | Some _, None => true
  | None, _ => false
  end.

(** ** Operations *)

Section objects.
Context {V : Type}.
Implicit Types (o : obj V) (k : string) (v : V).

Definition obj_keys o : list string := o.*1.
Definition obj_values o : list V := o.*2.

Fixpoint obj_get o k : option V :=
  match o with
  | [] => None
  | (k', v) :: o' => if String.eqb k k' then Some v else obj_get o' k
  end.

Definition obj_has o k : bool := match obj_get o k with Some _ => true | None => false end.

Fixpoint obj_insert_new k v o : obj V :=
  match o with
  | [] => [(k, v)]
  | (k', v') :: o' => if key_before k k' then (k, v) :: o else (k', v') :: obj_insert_new k v o'
  end.

Fixpoint obj_replace k v o : obj V :=
  match o with
  | [] => []
  | (k', v') :: o' => if String.eqb k k' then (k', v) :: o' else (k', v') :: obj_replace k v o'
  end.

(** [{ ...o, [k]: v }] *)
Definition obj_set k v o : obj V := if obj_has o k then obj_replace k v o else obj_insert_new k v o.

(** [o[k] = v] *)
Definition obj_assign k v o : obj V := if String.eqb k "__proto__" then o else obj_set k v o.

(** [delete o[k]], and the rest pattern [{ k, ...rest } = o]. *)
Definition obj_delete k o : obj V := List.filter (λ p, negb (String.eqb k p.1)) o.

(** [Object.fromEntries(entries)] *)
Definition obj_from_entries (l : list (string * V)) : obj V :=
  fold_left (λ o p, obj_set p.1 p.2 o) l [].

(** [{ ...a, ...b }] *)
Definition obj_spread (a b : obj V) : obj V := fold_left (λ o p, obj_set p.1 p.2 o) b a.

(** The order invariant of [Object.keys]: no key twice, and no key placed
    after one it would have been inserted in front of. *)
Fixpoint keys_ok (ks : list string) : bool :=
  match ks with
  | [] => true
  | k :: ks' => negb (includes ks' k) && forallb (λ k', negb (key_before k' k)) ks' && keys_ok ks'
  end.

Definition obj_wf o : bool := keys_ok (obj_keys o).

End objects.

(** The members every object inherits: functions, and the prototype itself. *)
Definition PROTOTYPE_METHODS : list string :=
  ["constructor"; "__defineGetter__"; "__defineSetter__"; "hasOwnProperty"; "__lookupGetter__"; "__lookupSetter__";
   "isPrototypeOf"; "propertyIsEnumerable"; "toString"; "valueOf"; "toLocaleString"].

Definition inherited (k : string) : bool := includes PROTOTYPE_METHODS k || String.eqb k "__proto__".

(** [k in o] *)
Definition obj_in {V} (k : string) (o : obj V) : bool := obj_has o k || inherited k.

(** ** JSON values *)

(** A finite JS number: the value [mant * 2^expo].  Every double that is not
    NaN or infinite is one of these. *)
Record jsnum := JsNum { mant : Z; expo : Z }.

Definition num_is_int (n : jsnum) : bool :=
  if (0 <=? expo n)%Z then true else (mant n mod 2 ^ (- expo n) =? 0)%Z.

Definition num_of_Z (z : Z) : jsnum := JsNum z 0.

#[global] Unset Elimination Schemes.
Inductive json :=
| JNull
| JBool (b : bool)
| JNum (n : jsnum)
| JStr (s : string)
| JArr (l : list json)
| JObj (o : list (string * json)).
#[global] Set Elimination Schemes.

(** [Boolean(v)]. *)
Definition truthy_json (v : json) : bool :=
  match v with
  | JNull => false
  | JBool b => b
  | JNum n => negb (mant n =? 0)%Z
  | JStr s => truthy_str s
  | JArr _ | JObj _ => true
  end.

Definition is_array (v : json) : bool := match v with JArr _ => true | _ => false end.

(** ** Induction on JSON values *)

Section json_ind.
Context (P : json → Prop).
Context (Pnull : P JNull) (Pbool : ∀ b, P (JBool b)) (Pnum : ∀ n, P (JNum n)) (Pstr : ∀ s, P (JStr s)).
Context (Parr : ∀ l, Forall P l → P (JArr l)) (Pobj : ∀ o, Forall (λ p, P p.2) o → P (JObj o)).

Fixpoint json_ind (v : json) : P v :=
  match v with
  | JNull => Pnull
  | JBool b => Pbool b
  | JNum n => Pnum n
  | JStr s => Pstr s
  | JArr l => Parr l ((fix go l : Forall P l :=
      match l with [] => List.Forall_nil _ | x :: l => List.Forall_cons _ x l (json_ind x) (go l) end) l)
  | JObj o => Pobj o ((fix go o : Forall (λ p, P p.2) o :=
      match o with [] => List.Forall_nil _ | p :: o => List.Forall_cons _ p o (json_ind p.2) (go o) end) o)
  end.
End json_ind.

(** ** Lemmas on objects *)

Lemma keys_ok_cons k ks :
  keys_ok (k :: ks) = true ↔
  k ∉ ks ∧ (∀ k', k' ∈ ks → key_before k' k = false) ∧ keys_ok ks = true.
Proof.
  simpl. rewrite !andb_true_iff, negb_true_iff, includes_false, forallb_forall.
  setoid_rewrite <- list_elem_of_In. setoid_rewrite negb_true_iff. naive_solver.
Qed.

Lemma keys_ok_NoDup ks : keys_ok ks = true → NoDup ks.
Proof.
  induction ks as [|k ks IH]; [by constructor|]. rewrite keys_ok_cons.
  intros (? & _ & ?). constructor; auto.
Qed.

Lemma keys_ok_sublist ks ks' : sublist ks ks' → keys_ok ks' = true → keys_ok ks = true.
Proof.
  induction 1 as [|k ks ks' H IH|k ks ks' H IH]; [done| |].
  - rewrite !keys_ok_cons. intros (Hn & Hb & ?).
    pose proof (sublist_submseteq _ _ H) as Hs.
    split_and!; eauto using elem_of_submseteq.
  - rewrite keys_ok_cons. naive_solver.
Qed.

Section object_lemmas.
Context {V : Type}.
Implicit Types (o : obj V) (k : string) (v : V).

Lemma obj_get_Some_elem o k v : obj_get o k = Some v → (k, v) ∈ o.
Proof.
  induction o as [|[k' v'] o IH]; simpl; [done|].
  destruct (String.eqb_spec k k'); intros; simplify_eq; rewrite elem_of_cons; auto.
Qed.

Lemma obj_get_None o k : obj_get o k = None ↔ k ∉ obj_keys o.
Proof.
  induction o as [|[k' v'] o IH]; simpl; [set_solver|].
  rewrite not_elem_of_cons. destruct (String.eqb_spec k k'); naive_solver.
Qed.

Lemma obj_has_true o k : obj_has o k = true ↔ k ∈ obj_keys o.
Proof.
  unfold obj_has. destruct (obj_get o k) eqn:E.
  - apply obj_get_Some_elem in E. split; [|done]. intros _.
    apply list_elem_of_fmap. by exists (k, v).
  - apply obj_get_None in E. naive_solver.
Qed.

Lemma obj_has_false o k : obj_has o k = false ↔ k ∉ obj_keys o.
Proof. rewrite <- not_true_iff_false, obj_has_true. done. Qed.

Lemma obj_elem_get o k v : NoDup (obj_keys o) → (k, v) ∈ o → obj_get o k = Some v.
Proof.
  induction o as [|[k' v'] o IH]; simpl; [set_solver|].
  rewrite NoDup_cons, elem_of_cons. intros [Hn Hd] [[= -> ->]|Hin].
  - by rewrite String.eqb_refl.
  - destruct (String.eqb_spec k k') as [->|]; [|auto].
    destruct Hn. apply list_elem_of_fmap. by exists (k', v).
Qed.

Lemma obj_get_insert_new o k v k' :
  k ∉ obj_keys o → obj_get (obj_insert_new k v o) k' = if String.eqb k' k then Some v else obj_get o k'.
Proof.
  induction o as [|[k1 v1] o IH]; simpl; [done|].
  rewrite not_elem_of_cons. intros [Hne Hn].
  destruct (key_before k k1); simpl; [done|]. rewrite IH by done.
  destruct (String.eqb_spec k' k1), (String.eqb_spec k' k); naive_solver.
Qed.

Lemma obj_get_replace o k v k' :
  k ∈ obj_keys o → obj_get (obj_replace k v o) k' = if String.eqb k' k then Some v else obj_get o k'.
Proof.
  induction o as [|[k1 v1] o IH]; simpl; [set_solver|].
  rewrite elem_of_cons. intros Hk. destruct (String.eqb_spec k k1) as [->|Hne]; simpl; [by destruct (String.eqb k' k1)|].
  rewrite IH by naive_solver.
  destruct (String.eqb_spec k' k1), (String.eqb_spec k' k); naive_solver.
Qed.

Lemma obj_get_set o k v k' :
  obj_get (obj_set k v o) k' = if String.eqb k' k then Some v else obj_get o k'.
Proof.
  unfold obj_set. destruct (obj_has o k) eqn:E.
  - apply obj_has_true in E. by apply obj_get_replace.
  - apply obj_has_false in E. by apply obj_get_insert_new.
Qed.

Lemma obj_get_set_eq o k v : obj_get (obj_set k v o) k = Some v.
Proof. by rewrite obj_get_set, String.eqb_refl. Qed.

Lemma obj_get_set_ne o k v k' : k' ≠ k → obj_get (obj_set k v o) k' = obj_get o k'.
Proof. intros. rewrite obj_get_set. destruct (String.eqb_spec k' k); naive_solver. Qed.

Lemma obj_get_delete o k k' :
  obj_get (obj_delete k o) k' = if String.eqb k' k then None else obj_get o k'.
Proof.
  induction o as [|[k1 v1] o IH]; simpl; [by destruct (String.eqb k' k)|].
  destruct (String.eqb_spec k k1) as [->|]; simpl; rewrite IH.
  - destruct (String.eqb_spec k' k1); naive_solver congruence.
  - destruct (String.eqb_spec k' k1), (String.eqb_spec k' k); naive_solver congruence.
Qed.

(** Adding the next key of a well-ordered list appends it. *)
Lemma obj_insert_new_app o k v :
  (∀ k', k' ∈ obj_keys o → key_before k k' = false) → obj_insert_new k v o = o ++ [(k, v)].
Proof.
  induction o as [|[k' v'] o IH]; simpl; [done|]. intros H.
  rewrite (H k') by set_solver. f_equal. apply IH. set_solver.
Qed.

Lemma keys_ok_app_r l1 k l2 :
  keys_ok (l1 ++ k :: l2) = true → k ∉ l1 ∧ ∀ k', k' ∈ l1 → key_before k k' = false.
Proof.
  induction l1 as [|k1 l1 IH]; simpl app; [set_solver|].
  rewrite keys_ok_cons. intros (Hn & Hb & Hok). destruct (IH Hok) as [? ?]. set_solver.
Qed.

Lemma obj_set_app o k v l :
  keys_ok (obj_keys o ++ k :: l) = true → obj_set k v o = o ++ [(k, v)].
Proof.
  intros [Hn Hb]%keys_ok_app_r. unfold obj_set.
  apply obj_has_false in Hn. rewrite Hn. by apply obj_insert_new_app.
Qed.

Lemma obj_spread_fresh (o l : obj V) :
  keys_ok (obj_keys o ++ obj_keys l) = true → obj_spread o l = o ++ l.
Proof.
  revert o. induction l as [|[k v] l IH]; intros o; [intros; simpl; by rewrite app_nil_r|].
  intros H. unfold obj_spread in *. simpl. rewrite (obj_set_app o k v (obj_keys l)) by exact H.
  rewrite IH; [by rewrite <- app_assoc|].
  unfold obj_keys in *. rewrite fmap_app, <- app_assoc. exact H.
Qed.

(** [Object.fromEntries] of a well-ordered entry list gives the list back. *)
Lemma obj_from_entries_wf (l : obj V) : obj_wf l = true → obj_from_entries l = l.
Proof. intros. by apply (obj_spread_fresh [] l). Qed.

Lemma obj_wf_filter (f : string * V → bool) o : obj_wf o = true → obj_wf (List.filter f o) = true.
Proof.
  apply keys_ok_sublist. unfold obj_keys. induction o as [|p o IH]; simpl; [done|].
  destruct (f p); simpl; by constructor.
Qed.

End object_lemmas.

(** Rebuilding an object by assigning every entry in order, with its value
    mapped, keeps the keys and maps the values. *)
Lemma obj_assign_all {V W} (f : V → W) (o : obj V) :
  obj_wf o = true → "__proto__" ∉ obj_keys o →
  fold_left (λ acc p, obj_assign p.1 (f p.2) acc) o [] = prod_map id f <$> o.
Proof.
  intros Hwf Hp. transitivity (obj_from_entries (prod_map id f <$> o)).
  - unfold obj_from_entries. revert Hp. generalize (@nil (string * W)) as acc.
    clear Hwf. induction o as [|[k v] o IH]; intros acc; simpl; [done|].
    rewrite not_elem_of_cons. intros [Hk Hp]. rewrite IH by done. f_equal.
    unfold obj_assign. destruct (String.eqb_spec k "__proto__"); [congruence|done].
  - apply obj_from_entries_wf. unfold obj_wf, obj_keys. rewrite <- list_fmap_compose. exact Hwf.
Qed.

(** ** Keys of built objects *)

Lemma obj_in_true {V} k (o : obj V) : obj_in k o = true ↔ k ∈ obj_keys o ∨ inherited k = true.
Proof. unfold obj_in. by rewrite orb_true_iff, obj_has_true. Qed.

Lemma obj_set_keys {V} k (v : V) o x : x ∈ obj_keys (obj_set k v o) ↔ x = k ∨ x ∈ obj_keys o.
Proof.
  rewrite <- !obj_has_true. unfold obj_has. rewrite obj_get_set. destruct (String.eqb_spec x k); naive_solver.
Qed.

Lemma obj_spread_get {V} (a b : obj V) k :
  k ∉ obj_keys b → obj_get (obj_spread a b) k = obj_get a k.
Proof.
  unfold obj_spread. revert a. induction b as [|[k' v] b IH]; intros a Hk; [done|]. cbn [fold_left].
  unfold obj_keys in *. rewrite fmap_cons, not_elem_of_cons in Hk. destruct Hk as [Hne Hk]. rewrite IH by done.
  by apply obj_get_set_ne.
Qed.

Lemma obj_spread_keys {V} (a b : obj V) k : k ∈ obj_keys (obj_spread a b) ↔ k ∈ obj_keys a ∨ k ∈ obj_keys b.
Proof.
  unfold obj_spread. revert a. induction b as [|[k' v] b IH]; intros a; [set_solver|]. cbn [fold_left].
  rewrite IH, obj_set_keys. unfold obj_keys at 4. rewrite fmap_cons, elem_of_cons. simpl. unfold obj_keys. tauto.
Qed.

Lemma obj_from_entries_keys {V} (l : list (string * V)) k : k ∈ obj_keys (obj_from_entries l) ↔ k ∈ l.*1.
Proof. unfold obj_from_entries. rewrite (obj_spread_keys [] l). set_solver. Qed.

Lemma insert_new_perm {V} k (v : V) o : obj_insert_new k v o ≡ₚ (k, v) :: o.
Proof.
  induction o as [|[k' v'] o IH]; simpl; [done|]. destruct (key_before k k'); [done|].
  rewrite IH. apply Permutation_swap.
Qed.

Lemma from_entries_perm {V} (l : list (string * V)) : NoDup l.*1 → obj_from_entries l ≡ₚ l.
Proof.
  assert (∀ a b : obj V, NoDup (a ++ b).*1 → obj_spread a b ≡ₚ a ++ b) as H; [|by apply (H [] l)].
  intros a b. revert a. induction b as [|[k v] b IH]; intros a Hnd; [by rewrite app_nil_r|].
  unfold obj_spread in *. cbn [fold_left fst snd]. 
  assert (obj_set k v a ≡ₚ a ++ [(k, v)]) as Hp.
  { unfold obj_set. replace (obj_has a k) with false; [by rewrite insert_new_perm, Permutation_cons_append|].
    symmetry. apply obj_has_false. unfold obj_keys. rewrite fmap_app in Hnd.
    apply NoDup_app in Hnd as (_ & Hd & _). intros Hk. apply (Hd _ Hk). by left. }
  rewrite IH, Hp.
  - by rewrite <- app_assoc.
  - rewrite Hp, <- app_assoc. exact Hnd.
Qed.

Lemma obj_set_NoDup {V} k (v : V) o : NoDup (obj_keys o) → NoDup (obj_keys (obj_set k v o)).
Proof.
  intros Hnd. unfold obj_set. destruct (obj_has o k) eqn:E.
  - replace (obj_keys (obj_replace k v o)) with (obj_keys o); [done|]. clear. induction o as [|[k' v'] o IH]; [done|].
    cbn [obj_replace]. destruct (String.eqb k k'); [done|]. unfold obj_keys in *. rewrite !fmap_cons. by f_equal.
  - unfold obj_keys. rewrite insert_new_perm, fmap_cons. constructor; [|done]. by apply obj_has_false in E.
Qed.

Lemma from_entries_NoDup {V} (l : list (string * V)) : NoDup (obj_keys (obj_from_entries l)).
Proof.
  unfold obj_from_entries. assert (NoDup (obj_keys (@nil (string * V)))) as H by constructor. revert H.
  generalize (@nil (string * V)). induction l as [|[k v] l IH]; intros o Ho; [done|]. simpl. by apply IH, obj_set_NoDup.
Qed.

(** Entries with a key twice lose at least one of them. *)
Lemma from_entries_loses {V} (l : list (string * V)) :
  ¬ NoDup l.*1 → length (obj_from_entries l) < length l.
Proof.
  intros Hd. assert (obj_keys (obj_from_entries l) ⊆+ l.*1) as Hs.
  { apply NoDup_submseteq; [apply from_entries_NoDup|]. intros k. by rewrite obj_from_entries_keys. }
  pose proof (submseteq_length _ _ Hs) as Hl. unfold obj_keys in Hl. rewrite !length_fmap in Hl.
  destruct (decide (length (obj_from_entries l) = length l)) as [Heq|]; [|lia]. destruct Hd.
  rewrite <- (submseteq_length_Permutation _ _ Hs); [apply from_entries_NoDup|].
  unfold obj_keys. rewrite !length_fmap. lia.
Qed.

#[export] Hint Rewrite @obj_get_set_eq : roch.
#[export] Hint Resolve obj_wf_filter : roch.

(** ** Setting a key again *)

Lemma obj_replace_twice {V} k (v w : V) o : obj_replace k v (obj_replace k w o) = obj_replace k v o.
Proof.
  induction o as [|[k1 v1] o IH]; simpl; [done|].
  destruct (String.eqb k k1) eqn:E; simpl; rewrite E; [done|by rewrite IH].
Qed.

Lemma obj_replace_insert_new {V} k (v w : V) o :
  k ∉ obj_keys o → obj_replace k v (obj_insert_new k w o) = obj_insert_new k v o.
Proof.
  induction o as [|[k1 v1] o IH]; simpl; [by rewrite String.eqb_refl|]. rewrite not_elem_of_cons. intros [Hne Hn].
  destruct (key_before k k1); simpl; [by rewrite String.eqb_refl|]. destruct (String.eqb_spec k k1); [done|by rewrite IH].
Qed.

Lemma obj_set_twice {V} k (v w : V) o : obj_set k v (obj_set k w o) = obj_set k v o.
Proof.
  unfold obj_set at 1. assert (obj_has (obj_set k w o) k = true) as -> by (unfold obj_has; by rewrite obj_get_set_eq).
  unfold obj_set. destruct (obj_has o k) eqn:E; [apply obj_replace_twice|].
  by apply obj_replace_insert_new, obj_has_false.
Qed.

Lemma obj_replace_same {V} k (v : V) o : obj_get o k = Some v → obj_replace k v o = o.
Proof.
  induction o as [|[k1 v1] o IH]; simpl; [done|]. destruct (String.eqb k k1); [by intros [= ->]|]. intros. by rewrite IH.
Qed.

Lemma obj_set_same {V} k (v : V) o : obj_get o k = Some v → obj_set k v o = o.
Proof. intros H. unfold obj_set, obj_has. rewrite H. by apply obj_replace_same. Qed.

Lemma obj_replace_comm {V} k (v : V) k' w o :
  k ≠ k' → obj_replace k v (obj_replace k' w o) = obj_replace k' w (obj_replace k v o).
Proof.
  intros Hne. induction o as [|[k1 v1] o IH]; simpl; [done|].
  destruct (String.eqb k' k1) eqn:E', (String.eqb k k1) eqn:E; simpl; rewrite ?E, ?E'; try done; [|by rewrite IH].
  apply String.eqb_eq in E, E'. congruence.
Qed.

Lemma obj_replace_insert_comm {V} k (v : V) k' w o :
  k ≠ k' → obj_replace k v (obj_insert_new k' w o) = obj_insert_new k' w (obj_replace k v o).
Proof.
  intros Hne. induction o as [|[k1 v1] o IH]; simpl; [by destruct (String.eqb_spec k k')|].
  destruct (key_before k' k1) eqn:Eb; simpl.
  - destruct (String.eqb_spec k k'); [done|]. destruct (String.eqb k k1); simpl; by rewrite Eb.
  - destruct (String.eqb k k1) eqn:E; simpl; rewrite Eb; [done|by rewrite IH].
Qed.

(** Replacing a member commutes with setting another one. *)
Lemma obj_set_comm {V} k (v : V) k' w o :
  k ≠ k' → obj_has o k = true → obj_set k v (obj_set k' w o) = obj_set k' w (obj_set k v o).
Proof.
  intros Hne Hk. unfold obj_set at 1. assert (obj_has (obj_set k' w o) k = true) as ->
    by (unfold obj_has in *; by rewrite obj_get_set_ne).
  unfold obj_set at 2. assert (obj_has (obj_set k v o) k' = obj_has o k') as ->
    by (unfold obj_has; by rewrite obj_get_set_ne).
  unfold obj_set. rewrite Hk. destruct (obj_has o k'); [by apply obj_replace_comm|by apply obj_replace_insert_comm].
Qed.

