(* ===== verification/Types.v ===== *)
(** * The modeller's data model (workflow-modeller/src/domain/types.ts, schema.ts)

    The step union has one constructor per schema variant, and one for an
    object whose [type] is none of the nine literals, which a definition that
    was not parsed by the schema (a stored draft, an engine response) may
    hold.  A [passthrough] object keeps its undeclared members in an [extra]
    object.  The declared members of a record have no order; the order of
    [Object.keys] over a step is the schema's, then the undeclared ones.  Two definitions used as
    concrete inputs are at the end. *)

From S2P Require Import Prelude JsObject.

Abbreviation StepId := string.

(** ** Step types *)

Inductive StepType :=
| SERVICE_TASK | USER_TASK | DECISION | DECISION_TABLE | TRANSFORMATION
| WAIT | PARALLEL_GATEWAY | JOIN_GATEWAY | END_.

#[export] Instance StepType_eq_dec : EqDecision StepType.
Proof. solve_decision. Defined.

Definition step_type_str (t : StepType) : string :=
  match t with
  | SERVICE_TASK => "SERVICE_TASK"
  | USER_TASK => "USER_TASK"
  | DECISION => "DECISION"
  | DECISION_TABLE => "DECISION_TABLE"
  | TRANSFORMATION => "TRANSFORMATION"
  | WAIT => "WAIT"
  | PARALLEL_GATEWAY => "PARALLEL_GATEWAY"
  | JOIN_GATEWAY => "JOIN_GATEWAY"
  | END_ => "END"
  end.

Definition STEP_TYPES : list string :=
  step_type_str <$> [SERVICE_TASK; USER_TASK; DECISION; DECISION_TABLE; TRANSFORMATION;
                     WAIT; PARALLEL_GATEWAY; JOIN_GATEWAY; END_].

(** ** Steps *)

Record BoundaryEvent := mkBoundaryEvent {
  be_type : string;
  be_duration : string;
  be_interrupting : bool;
  be_targetStepId : StepId;
  be_extra : obj json
}.

(** The members every step has, with the undeclared members of the step. *)
Record StepCommon := mkCommon {
  sc_id : StepId;
  sc_name : string;
  sc_description : option string;
  sc_extra : obj json
}.

Record DecisionTableRule := mkRule {
  r_when : obj string;
  r_outputs : obj json;
  r_extra : obj json
}.

Record DecisionTable := mkTable {
  dt_rules : list DecisionTableRule;
  dt_extra : obj json
}.

Inductive Step :=
| ServiceTaskStep (c : StepCommon) (nextStep jobType delegateClass : option string)
    (retryCount : option jsnum) (boundaryEvents : option (list BoundaryEvent))
| UserTaskStep (c : StepCommon) (nextStep jobType : option string)
    (boundaryEvents : option (list BoundaryEvent))
| DecisionStep (c : StepCommon) (conditionalNextSteps : obj StepId)
| DecisionTableStep (c : StepCommon) (hitPolicy : option string) (nextStep : StepId)
    (decisionTable : DecisionTable)
| TransformationStep (c : StepCommon) (nextStep : StepId) (transformations : obj json)
| WaitStep (c : StepCommon) (nextStep : StepId) (boundaryEvents : option (list BoundaryEvent))
| ParallelGatewayStep (c : StepCommon) (parallelNextSteps : list StepId) (joinStep : StepId)
| JoinGatewayStep (c : StepCommon) (nextStep : StepId)
| EndStep (c : StepCommon)
| UnknownTypeStep (type : string) (c : StepCommon).

Definition step_common (s : Step) : StepCommon :=
  match s with
  | ServiceTaskStep c _ _ _ _ _ | UserTaskStep c _ _ _ | DecisionStep c _
  | DecisionTableStep c _ _ _ | TransformationStep c _ _ | WaitStep c _ _
  | ParallelGatewayStep c _ _ | JoinGatewayStep c _ | EndStep c | UnknownTypeStep _ c => c
  end.

Definition step_id (s : Step) : StepId := sc_id (step_common s).
Definition step_name (s : Step) : string := sc_name (step_common s).
Definition step_extra (s : Step) : obj json := sc_extra (step_common s).

(** [step.type]. *)
Definition step_type (s : Step) : string :=
  match s with
  | ServiceTaskStep _ _ _ _ _ _ => step_type_str SERVICE_TASK
  | UserTaskStep _ _ _ _ => step_type_str USER_TASK
  | DecisionStep _ _ => step_type_str DECISION
  | DecisionTableStep _ _ _ _ => step_type_str DECISION_TABLE
  | TransformationStep _ _ _ => step_type_str TRANSFORMATION
  | WaitStep _ _ _ => step_type_str WAIT
  | ParallelGatewayStep _ _ _ => step_type_str PARALLEL_GATEWAY
  | JoinGatewayStep _ _ => step_type_str JOIN_GATEWAY
  | EndStep _ => step_type_str END_
  | UnknownTypeStep t _ => t
  end.

(** [{ ...step, id }]: the step with other common members. *)
Definition with_common (c : StepCommon) (s : Step) : Step :=
  match s with
  | ServiceTaskStep _ n j d r b => ServiceTaskStep c n j d r b
  | UserTaskStep _ n j b => UserTaskStep c n j b
  | DecisionStep _ m => DecisionStep c m
  | DecisionTableStep _ h n t => DecisionTableStep c h n t
  | TransformationStep _ n t => TransformationStep c n t
  | WaitStep _ n b => WaitStep c n b
  | ParallelGatewayStep _ p j => ParallelGatewayStep c p j
  | JoinGatewayStep _ n => JoinGatewayStep c n
  | EndStep _ => EndStep c
  | UnknownTypeStep t _ => UnknownTypeStep t c
  end.

(** ** Definitions *)

Record WorkflowDefinition := mkDef {
  wd_id : string;
  wd_version : option jsnum;
  wd_name : string;
  wd_description : option string;
  wd_autoStartNextWorkflow : option bool;
  wd_nextWorkflowId : option string;
  wd_steps : list Step;
  wd_metadata : option (obj json);
  wd_extra : obj json
}.

(** [{ ...def, steps }]. *)
Definition with_steps (steps : list Step) (d : WorkflowDefinition) : WorkflowDefinition :=
  mkDef (wd_id d) (wd_version d) (wd_name d) (wd_description d) (wd_autoStartNextWorkflow d)
    (wd_nextWorkflowId d) steps (wd_metadata d) (wd_extra d).

(** ** Object.keys of the passthrough objects *)

Definition opt_key {A} (k : string) (o : option A) : list string :=
  match o with Some _ => [k] | None => [] end.

Definition common_keys (c : StepCommon) : list string :=
  ["id"; "name"] ++ opt_key "description" (sc_description c) ++ ["type"].

Definition step_keys (s : Step) : list string :=
  common_keys (step_common s) ++
  match s with
  | ServiceTaskStep _ n j d r b =>
      opt_key "nextStep" n ++ opt_key "jobType" j ++ opt_key "delegateClass" d ++
      opt_key "retryCount" r ++ opt_key "boundaryEvents" b
  | UserTaskStep _ n j b => opt_key "nextStep" n ++ opt_key "jobType" j ++ opt_key "boundaryEvents" b
  | DecisionStep _ _ => ["conditionalNextSteps"]
  | DecisionTableStep _ h _ _ => opt_key "hitPolicy" h ++ ["nextStep"; "decisionTable"]
  | TransformationStep _ _ _ => ["nextStep"; "transformations"]
  | WaitStep _ _ b => ["nextStep"] ++ opt_key "boundaryEvents" b
  | ParallelGatewayStep _ _ _ => ["parallelNextSteps"; "joinStep"]
  | JoinGatewayStep _ _ => ["nextStep"]
  | EndStep _ | UnknownTypeStep _ _ => []
  end ++ obj_keys (step_extra s).

Definition def_keys (d : WorkflowDefinition) : list string :=
  ["id"] ++ opt_key "version" (wd_version d) ++ ["name"] ++
  opt_key "description" (wd_description d) ++
  opt_key "autoStartNextWorkflow" (wd_autoStartNextWorkflow d) ++
  opt_key "nextWorkflowId" (wd_nextWorkflowId d) ++ ["steps"] ++
  opt_key "metadata" (wd_metadata d) ++ obj_keys (wd_extra d).

Definition KNOWN_STEP_KEYS (type : string) : option (list string) :=
  if String.eqb type "SERVICE_TASK" then
    Some ["id"; "name"; "type"; "description"; "nextStep"; "jobType"; "delegateClass";
          "retryCount"; "boundaryEvents"]
  else if String.eqb type "USER_TASK" then
    Some ["id"; "name"; "type"; "description"; "nextStep"; "jobType"; "boundaryEvents"]
  else if String.eqb type "DECISION" then
    Some ["id"; "name"; "type"; "description"; "conditionalNextSteps"]
  else if String.eqb type "DECISION_TABLE" then
    Some ["id"; "name"; "type"; "description"; "hitPolicy"; "nextStep"; "decisionTable"]
  else if String.eqb type "TRANSFORMATION" then
    Some ["id"; "name"; "type"; "description"; "nextStep"; "transformations"]
  else if String.eqb type "WAIT" then
    Some ["id"; "name"; "type"; "description"; "nextStep"; "boundaryEvents"]
  else if String.eqb type "PARALLEL_GATEWAY" then
    Some ["id"; "name"; "type"; "description"; "parallelNextSteps"; "joinStep"]
  else if String.eqb type "JOIN_GATEWAY" then
    Some ["id"; "name"; "type"; "description"; "nextStep"]
  else if String.eqb type "END" then Some ["id"; "name"; "type"; "description"]
  else None.

Definition KNOWN_ROOT_KEYS : list string :=
  ["id"; "version"; "name"; "description"; "autoStartNextWorkflow"; "nextWorkflowId";
   "steps"; "metadata"].

(** ** Diagnostics *)

Inductive DiagnosticCode :=
| ID_FORMAT | NAME_REQUIRED | STEPS_NONEMPTY | STEP_ID_UNIQUE | STEP_ID_REQUIRED
| STEP_TYPE_VALID | NEXT_WORKFLOW_CONSISTENCY | DECISION_HAS_BRANCHES
| TRANSFORMATION_HAS_NEXT | TRANSFORMATION_HAS_ENTRIES | WAIT_HAS_NEXT
| PARALLEL_MIN_BRANCHES | PARALLEL_HAS_JOIN | JOIN_HAS_NEXT | REF_RESOLVES
| ALL_REACHABLE | END_REACHABLE | BOUNDARY_TYPE | BOUNDARY_DURATION
| BOUNDARY_TARGET_RESOLVES | BOUNDARY_PARENT_SUPPORTS | NO_NESTED_PARALLEL
| DECISION_EXPR_SYNTAX | DECISION_EXPR_NON_BOOLEAN | DECISION_EXPR_UNKNOWN_IDENT
| DECISION_EXPR_REFS | TRANSFORMATION_EXPR_SYNTAX | UNKNOWN_FIELDS_PRESENT | GRAPH_CYCLE
| DECISION_TABLE_HAS_RULES | DECISION_TABLE_HAS_NEXT | DECISION_TABLE_HIT_POLICY_UNKNOWN
| DECISION_TABLE_AGGREGATOR_ON_NON_C | DECISION_TABLE_LEGACY_THEN
| DECISION_TABLE_LEGACY_DEFAULT_NEXT_STEP | DECISION_TABLE_UNREACHABLE_RULE
| DT_CELL_EXPR_SYNTAX | DT_CELL_EXPR_NON_BOOLEAN | DT_CELL_EXPR_UNKNOWN_IDENT
| DT_OUTPUT_EXPR_SYNTAX | STEP_FIELD_INVALID.

#[export] Instance DiagnosticCode_eq_dec : EqDecision DiagnosticCode.
Proof. solve_decision. Defined.

Inductive Severity := SevError | SevWarning | SevInfo.

#[export] Instance Severity_eq_dec : EqDecision Severity.
Proof. solve_decision. Defined.

Record Diagnostic := mkDiag {
  d_code : DiagnosticCode;
  d_severity : Severity;
  d_message : string;
  d_nodeId : option StepId;
  d_field : option string;
  d_branchKey : option string;
  d_boundaryIndex : option nat;
  d_ruleIndex : option nat;
  d_cellColumn : option string
}.

#[export] Instance Diagnostic_eq_dec : EqDecision Diagnostic.
Proof. solve_decision. Defined.

(** A diagnostic literal with only [nodeId] and [field] set. *)
Definition diag (code : DiagnosticCode) (sev : Severity) (msg : string)
    (nodeId field : option string) : Diagnostic :=
  mkDiag code sev msg nodeId field None None None None.

(** No diagnostic of severity error. *)
Definition is_error (d : Diagnostic) : bool := bool_decide (d_severity d = SevError).
Definition error_free (ds : list Diagnostic) : bool := forallb (negb ∘ is_error) ds.

(** ** Graph view *)

Inductive EdgeVariant :=
| Sequential
| Conditional (expression : string)
| Parallel
| JoinTarget
| JoinOut
| Boundary (index : nat).

#[export] Instance EdgeVariant_eq_dec : EqDecision EdgeVariant.
Proof. solve_decision. Defined.

(** The member [kind]. *)
Definition variant_kind (v : EdgeVariant) : string :=
  match v with
  | Sequential => "sequential"
  | Conditional _ => "conditional"
  | Parallel => "parallel"
  | JoinTarget => "join-target"
  | JoinOut => "join-out"
  | Boundary _ => "boundary"
  end.

Record GraphNode := mkNode {
  gn_id : StepId;
  gn_type : string;
  gn_name : string;
  gn_isEntry : bool;
  gn_step : Step
}.

Record GraphEdge := mkEdge {
  ge_id : string;
  ge_from : StepId;
  ge_to : StepId;
  ge_variant : EdgeVariant;
  ge_sourceHandle : option string
}.

#[export] Instance GraphEdge_eq_dec : EqDecision GraphEdge.
Proof. solve_decision. Defined.

(** ** References a step holds

    Every place of a step where the id of another step stands, in document
    order: the targets the rename and the delete operations rewrite.  The
    specification side of the graph, rename and store theorems. *)

Definition events_of (b : option (list BoundaryEvent)) : list BoundaryEvent := default [] b.

Definition boundary_refs (b : option (list BoundaryEvent)) : list StepId :=
  be_targetStepId <$> events_of b.

Definition step_refs (s : Step) : list StepId :=
  match s with
  | ServiceTaskStep _ n _ _ _ b => option_list n ++ boundary_refs b
  | UserTaskStep _ n _ b => option_list n ++ boundary_refs b
  | WaitStep _ n b => n :: boundary_refs b
  | DecisionStep _ m => obj_values m
  | DecisionTableStep _ _ n _ => [n]
  | TransformationStep _ n _ => [n]
  | ParallelGatewayStep _ p j => p ++ [j]
  | JoinGatewayStep _ n => [n]
  | EndStep _ | UnknownTypeStep _ _ => []
  end.

(** The step's type is one of the nine the schema declares. *)
Definition known_type (s : Step) : bool := includes STEP_TYPES (step_type s).

(** The branch objects of a step keep the key order JS gives them. *)
Definition step_wf (s : Step) : bool :=
  match s with
  | DecisionStep _ m => obj_wf m && negb (obj_has m "__proto__")
  | UnknownTypeStep t _ => negb (includes STEP_TYPES t)
  | _ => true
  end.

Definition def_wf (d : WorkflowDefinition) : bool := forallb step_wf (wd_steps d).

Definition step_ids (d : WorkflowDefinition) : list StepId := step_id <$> wd_steps d.

(** ** Lemmas *)

Lemma step_id_with_common c s : step_id (with_common c s) = sc_id c.
Proof. by destruct s. Qed.

Lemma step_type_with_common c s : step_type (with_common c s) = step_type s.
Proof. by destruct s. Qed.

(** With a well-formed step, an unknown type is exactly the tenth constructor. *)
Lemma known_type_wf s :
  step_wf s = true → known_type s = true ↔ (∀ t c, s ≠ UnknownTypeStep t c).
Proof.
  unfold known_type. destruct s; simpl; intros H; try (split; [done|intros _; by vm_compute]).
  split; [|naive_solver]. intros H'. rewrite H' in H. done.
Qed.

Lemma error_free_true ds : error_free ds = true ↔ ∀ d, d ∈ ds → d_severity d ≠ SevError.
Proof.
  unfold error_free. rewrite forallb_forall. setoid_rewrite list_elem_of_In.
  unfold is_error. simpl. setoid_rewrite negb_true_iff. by setoid_rewrite bool_decide_eq_false.
Qed.

Lemma error_free_app l k : error_free (l ++ k) = (error_free l && error_free k)%bool.
Proof. apply forallb_app. Qed.

Lemma error_free_bind {A} (f : A → list Diagnostic) l :
  error_free (l ≫= f) = true ↔ ∀ x, x ∈ l → error_free (f x) = true.
Proof.
  induction l as [|x l IH]; csimpl; [set_solver|].
  rewrite error_free_app, andb_true_iff, IH. set_solver.
Qed.

(** One diagnostic behind a guard. *)
Lemma error_free_guard (b : bool) d :
  d_severity d = SevError → error_free (if b then [d] else []) = negb b.
Proof. intros H. destruct b; [|done]. unfold error_free, is_error. simpl. by rewrite bool_decide_true. Qed.

#[export] Hint Rewrite step_id_with_common step_type_with_common : roch.

(** * Concrete definitions the witnesses evaluate

    [order_def] has every step type the schema declares, no defect and no
    cycle; the others are small variations. *)

Definition common (id name : string) : StepCommon := mkCommon id name None [].

Definition timer (duration target : string) : BoundaryEvent :=
  mkBoundaryEvent "TIMER" duration true target [].

Definition sample_steps : list Step :=
  [ ServiceTaskStep (common "reserve" "Reserve") (Some "enrich") (Some "reserve-stock") None
      (Some (num_of_Z 3)) (Some [timer "PT30S" "done"]);
    TransformationStep (common "enrich" "Enrich") "score" [("total", JStr "${price * qty}")];
    DecisionTableStep (common "score" "Score") (Some "F") "check"
      (mkTable [mkRule [("total", "total > 100")] [("tier", JStr "gold")] [];
                mkRule [] [("tier", JStr "basic")] []] []);
    DecisionStep (common "check" "Check")
      [("#total > 10", "split"); ("#total <= 10", "done")];
    ParallelGatewayStep (common "split" "Split") ["pay"; "pack"] "merge";
    UserTaskStep (common "pay" "Pay") (Some "merge") None None;
    WaitStep (common "pack" "Pack") "merge" None;
    JoinGatewayStep (common "merge" "Merge") "done";
    EndStep (common "done" "Done") ].

Definition order_def : WorkflowDefinition :=
  mkDef "order-fulfil" None "Order fulfilment" None None None sample_steps None [].

(** A one-step definition, for evaluations that go through the text level. *)
Definition tiny_def : WorkflowDefinition :=
  mkDef "w" None "W" None None None [EndStep (common "e" "E")] None [].
