(* ===== verification/Graph.v ===== *)
(** * The graph view of a definition (workflow-modeller/src/domain/graph.ts)

    [toNodes], [toEdges] and [indexSteps], with the shape of the edges and
    the meaning of the index as lemmas the other components use. *)

From S2P Require Import Prelude JsObject Types.

(** ** Definitions *)

Definition edgeId (from to : StepId) (variant : EdgeVariant) (key : option string) : string :=
  let discriminator :=
    match variant with
    | Conditional expression => "conditional:" ⊕ expression
    | Boundary index => "boundary:" ⊕ str_of_nat index
    | Sequential => "sequential"
    | Parallel => "parallel"
    | JoinTarget => "join-target"
    | JoinOut => "join-out"
    end in
  from ⊕ "--" ⊕ discriminator ⊕
  match key with Some k => ":" ⊕ k | None => EmptyString end ⊕ "-->" ⊕ to.

Definition toNodes (def : WorkflowDefinition) : list GraphNode :=
  (λ p : nat * Step,
     mkNode (step_id p.2) (step_type p.2) (step_name p.2) (Nat.eqb p.1 0) p.2) <$>
  indexed (wd_steps def).

Definition makeEdge (from to : StepId) (variant : EdgeVariant) : GraphEdge :=
  mkEdge (edgeId from to variant None) from to variant None.

(** [{ ...edge, sourceHandle }] *)
Definition with_handle (h : string) (e : GraphEdge) : GraphEdge :=
  mkEdge (ge_id e) (ge_from e) (ge_to e) (ge_variant e) (Some h).

Definition pushBoundaryEdges (id : StepId) (events : option (list BoundaryEvent))
    (out : list GraphEdge) : list GraphEdge :=
  match events with
  | None => out
  | Some evs => out ++ ((λ p, makeEdge id (be_targetStepId p.2) (Boundary p.1)) <$> indexed evs)
  end.

Definition pushStepEdges (step : Step) (out : list GraphEdge) : list GraphEdge :=
  let id := step_id step in
  match step with
  | ServiceTaskStep _ nextStep _ _ _ events | UserTaskStep _ nextStep _ events =>
      pushBoundaryEdges id events
        (out ++ match nextStep with
                | Some n => if truthy_str n then [makeEdge id n Sequential] else []
                | None => []
                end)
  | WaitStep _ nextStep events =>
      pushBoundaryEdges id events (out ++ [makeEdge id nextStep Sequential])
  | DecisionStep _ branches =>
      out ++ ((λ p, with_handle ("branch:" ⊕ p.1) (makeEdge id p.2 (Conditional p.1))) <$> branches)
  | DecisionTableStep _ _ nextStep _ => out ++ [makeEdge id nextStep Sequential]
  | TransformationStep _ nextStep _ => out ++ [makeEdge id nextStep Sequential]
  | ParallelGatewayStep _ targets _ =>
      out ++ ((λ p, with_handle ("parallel:" ⊕ str_of_nat p.1) (makeEdge id p.2 Parallel))
              <$> indexed targets)
  | JoinGatewayStep _ nextStep => out ++ [makeEdge id nextStep JoinOut]
  | EndStep _ | UnknownTypeStep _ _ => out
  end.

Definition toEdges (def : WorkflowDefinition) : list GraphEdge :=
  fold_left (λ edges step, pushStepEdges step edges) (wd_steps def) [].

Definition indexSteps (def : WorkflowDefinition) : gmap StepId Step :=
  fold_left (λ m step, <[step_id step := step]> m) (wd_steps def) ∅.

(** ** Lemmas *)

(** The edges one step contributes. *)
Definition step_edges (s : Step) : list GraphEdge := pushStepEdges s [].

Lemma pushBoundaryEdges_app id ev out :
  pushBoundaryEdges id ev out = out ++ pushBoundaryEdges id ev [].
Proof. destruct ev; simpl; [done|by rewrite app_nil_r]. Qed.

Lemma pushStepEdges_app s out : pushStepEdges s out = out ++ step_edges s.
Proof.
  unfold step_edges. destruct s; simpl; rewrite ?app_nil_r; try done;
    match goal with |- pushBoundaryEdges ?i ?e ?x = _ ++ pushBoundaryEdges _ _ ?y =>
      rewrite (pushBoundaryEdges_app i e x), (pushBoundaryEdges_app i e y), app_assoc end; done.
Qed.

Lemma toEdges_flat def : toEdges def = wd_steps def ≫= step_edges.
Proof.
  unfold toEdges. rewrite <- (app_nil_l (wd_steps def ≫= step_edges)).
  generalize (@nil GraphEdge) as out. induction (wd_steps def) as [|s l IH]; intros out; simpl.
  - by rewrite app_nil_r.
  - by rewrite IH, pushStepEdges_app, app_assoc.
Qed.

(** ** The index *)

Definition last_with_id (x : StepId) (l : list Step) : option Step :=
  last (filter (λ s, step_id s = x) l).

Lemma index_fold x (l : list Step) (m : gmap StepId Step) :
  fold_left (λ m step, <[step_id step := step]> m) l m !! x =
  match last_with_id x l with Some s => Some s | None => m !! x end.
Proof.
  revert m. induction l as [|s l IH]; intros m; simpl; [done|].
  rewrite IH. unfold last_with_id. rewrite filter_cons.
  destruct (decide (step_id s = x)) as [Heq|Hne]; simpl.
  - rewrite last_cons. destruct (last _); [done|]. by rewrite Heq, lookup_insert_eq.
  - destruct (last _); [done|]. by rewrite lookup_insert_ne.
Qed.

(** A [Map] built by successive [set] holds the last step of each id. *)
Lemma indexSteps_lookup def x : indexSteps def !! x = last_with_id x (wd_steps def).
Proof. unfold indexSteps. rewrite index_fold, lookup_empty. by destruct (last_with_id _ _). Qed.

Lemma indexSteps_Some def x s :
  indexSteps def !! x = Some s → s ∈ wd_steps def ∧ step_id s = x.
Proof.
  rewrite indexSteps_lookup. unfold last_with_id. intros H%last_Some_elem_of.
  apply list_elem_of_filter in H. naive_solver.
Qed.

Lemma indexSteps_None def x : indexSteps def !! x = None ↔ x ∉ step_ids def.
Proof.
  rewrite indexSteps_lookup. unfold last_with_id, step_ids. rewrite last_None.
  split.
  - intros H (s & -> & Hs)%list_elem_of_fmap.
    assert (s ∈ filter (λ s', step_id s' = step_id s) (wd_steps def)) as Hin
      by (by apply list_elem_of_filter). rewrite H in Hin. set_solver.
  - intros H. destruct (filter _ _) as [|s l] eqn:E; [done|]. destruct H.
    assert (s ∈ filter (λ s', step_id s' = x) (wd_steps def)) as Hin by (rewrite E; set_solver).
    apply list_elem_of_filter in Hin as [<- Hin]. by apply list_elem_of_fmap_2.
Qed.

Lemma indexSteps_is_Some def x : is_Some (indexSteps def !! x) ↔ x ∈ step_ids def.
Proof.
  rewrite <- not_eq_None_Some, indexSteps_None. split; [apply dec_stable|tauto].
Qed.

(** With unique ids the index is the inverse of [step_id]. *)
Lemma indexSteps_unique def s :
  NoDup (step_ids def) → s ∈ wd_steps def → indexSteps def !! step_id s = Some s.
Proof.
  intros Hnd Hs. destruct (indexSteps def !! step_id s) as [s'|] eqn:E.
  - apply indexSteps_Some in E as [Hs' Hid].
    apply list_elem_of_lookup in Hs as [i Hi], Hs' as [j Hj].
    unfold step_ids in Hnd. assert (i = j) as ->; [|congruence].
    eapply (NoDup_lookup _ i j (step_id s)); [done| |]; rewrite list_lookup_fmap, ?Hi, ?Hj; simpl; congruence.
  - apply indexSteps_None in E. destruct E. by apply list_elem_of_fmap_2.
Qed.
