(* ===== verification/Rename.v ===== *)
(** * Renaming a step (workflow-modeller/src/domain/rename.ts)

    [renameStepId] returns the same definition for equal ids, throws when the
    new id is taken, and otherwise maps [remapStep] over the steps.  The
    [switch] of [remapStep] has no default, so a step whose type is none of
    the nine becomes [undefined]; the outcome [RenameHoles] is that array,
    which is no [WorkflowDefinition] any more. *)

From S2P Require Import Prelude JsObject Types Graph.

(** ** Definitions *)

Inductive RenameOutcome :=
| Renamed (def : WorkflowDefinition)
| RenameThrows (message : string)
| RenameHoles (steps : list (option Step)).

Definition remap (oldId newId id : StepId) : StepId := if String.eqb id oldId then newId else id.

Definition remapEvent (f : StepId → StepId) (evt : BoundaryEvent) : BoundaryEvent :=
  mkBoundaryEvent (be_type evt) (be_duration evt) (be_interrupting evt)
    (f (be_targetStepId evt)) (be_extra evt).

Definition withRemappedBoundary (f : StepId → StepId) (events : option (list BoundaryEvent)) :
    option (list BoundaryEvent) :=
  match events with None => None | Some evs => Some (remapEvent f <$> evs) end.

Definition with_id (id : StepId) (c : StepCommon) : StepCommon :=
  mkCommon id (sc_name c) (sc_description c) (sc_extra c).

Definition remapStep (oldId newId : StepId) (f : StepId → StepId) (step : Step) : option Step :=
  let base :=
    if String.eqb (step_id step) oldId then with_common (with_id newId (step_common step)) step
    else step in
  match base with
  | ServiceTaskStep c n j d r b => Some (ServiceTaskStep c (f <$> n) j d r (withRemappedBoundary f b))
  | UserTaskStep c n j b => Some (UserTaskStep c (f <$> n) j (withRemappedBoundary f b))
  | WaitStep c n b => Some (WaitStep c (f n) (withRemappedBoundary f b))
  | TransformationStep c n t => Some (TransformationStep c (f n) t)
  | JoinGatewayStep c n => Some (JoinGatewayStep c (f n))
  | DecisionStep c m =>
      Some (DecisionStep c (fold_left (λ remapped p, obj_assign p.1 (f p.2) remapped) m []))
  | DecisionTableStep c h n t => Some (DecisionTableStep c h (f n) t)
  | ParallelGatewayStep c p j => Some (ParallelGatewayStep c (f <$> p) (f j))
  | EndStep c => Some (EndStep c)
  | UnknownTypeStep _ _ => None
  end.

Definition renameStepId (def : WorkflowDefinition) (oldId newId : StepId) : RenameOutcome :=
  if String.eqb oldId newId then Renamed def
  else if existsb (λ s, String.eqb (step_id s) newId) (wd_steps def) then
    RenameThrows ("Cannot rename " ⊕ quoted oldId ⊕ " → " ⊕ quoted newId ⊕ ": step id already exists.")
  else
    let steps := remapStep oldId newId (remap oldId newId) <$> wd_steps def in
    match mapM id steps with
    | Some l => Renamed (with_steps l def)
    | None => RenameHoles steps
    end.

(** ** One step *)

Section remap_step.
Context (oldId newId : StepId).
Abbreviation f := (remap oldId newId).

Lemma remap_old : f oldId = newId.
Proof. unfold remap. by rewrite String.eqb_refl. Qed.

Lemma remap_ne x : x ≠ oldId → f x = x.
Proof. unfold remap. intros. by destruct (String.eqb_spec x oldId). Qed.

Lemma remap_never_old x : oldId ≠ newId → f x ≠ oldId.
Proof. unfold remap. destruct (String.eqb_spec x oldId); congruence. Qed.

(** Away from the new id, renaming is injective. *)
Lemma remap_inj x y : x ≠ newId → y ≠ newId → f x = f y → x = y.
Proof. unfold remap. destruct (String.eqb_spec x oldId), (String.eqb_spec y oldId); congruence. Qed.

Lemma remap_back x : x ≠ newId → remap newId oldId (f x) = x.
Proof.
  unfold remap at 2. destruct (String.eqb_spec x oldId) as [->|]; intros.
  - unfold remap. by rewrite String.eqb_refl.
  - unfold remap. by destruct (String.eqb_spec x newId).
Qed.

Lemma boundary_refs_remapped (b : option (list BoundaryEvent)) g :
  boundary_refs (withRemappedBoundary g b) = g <$> boundary_refs b.
Proof. destruct b as [evs|]; [|done]. unfold boundary_refs. simpl. by rewrite <- !list_fmap_compose. Qed.

Lemma remapStep_known s : step_wf s = true → known_type s = true → is_Some (remapStep oldId newId f s).
Proof.
  intros Hwf Hk. pose proof (proj1 (known_type_wf s Hwf) Hk) as Hn.
  unfold remapStep. destruct (String.eqb _ _), s; simpl; eauto; naive_solver.
Qed.

(** What one renamed step is: its id and all its references renamed, its type
    and the rest of its common members kept. *)
Lemma remapStep_spec s s' :
  step_wf s = true → remapStep oldId newId f s = Some s' →
  step_id s' = f (step_id s) ∧ step_type s' = step_type s ∧ step_name s' = step_name s ∧
  step_refs s' = f <$> step_refs s ∧ step_wf s' = true.
Proof.
  intros Hwf. unfold remapStep.
  assert (f (step_id s) = if String.eqb (step_id s) oldId then newId else step_id s) as -> by done.
  assert (∀ c m, step_wf (DecisionStep c m) = true →
    fold_left (λ acc p, obj_assign p.1 (f p.2) acc) m [] = prod_map id f <$> m ∧
    step_wf (DecisionStep c (prod_map id f <$> m)) = true) as Hdec.
  { simpl. intros _ m [Hm Hp%negb_true_iff]%andb_true_iff. rewrite obj_has_false in Hp.
    split; [by apply obj_assign_all|]. unfold obj_wf, obj_keys in *.
    rewrite andb_true_iff, negb_true_iff, obj_has_false. unfold obj_keys.
    rewrite <- list_fmap_compose. split; [exact Hm|exact Hp]. }
  destruct (String.eqb (step_id s) oldId) eqn:E, s; simpl in *; intros [= <-]; simpl;
    split_and!; try done; rewrite ?fmap_app, ?boundary_refs_remapped; try done;
    try (by destruct nextStep);
    try (destruct (Hdec c conditionalNextSteps Hwf) as [-> ?]; try done;
         unfold obj_values; by rewrite <- !list_fmap_compose).
Qed.
End remap_step.

(** ** Whole definitions *)

Lemma mapM_id_Some {A B} (g : A → option B) (l : list A) l' :
  mapM id (g <$> l) = Some l' ↔ Forall2 (λ x y, g x = Some y) l l'.
Proof. rewrite mapM_Some. rewrite Forall2_fmap_l. done. Qed.

Lemma existsb_step_id (x : StepId) (l : list Step) :
  existsb (λ s, String.eqb (step_id s) x) l = true ↔ x ∈ step_id <$> l.
Proof.
  rewrite existsb_exists. setoid_rewrite <- list_elem_of_In. setoid_rewrite String.eqb_eq.
  rewrite list_elem_of_fmap. naive_solver.
Qed.

Lemma def_wf_Forall d : def_wf d = true ↔ Forall (λ s, step_wf s = true) (wd_steps d).
Proof. unfold def_wf. rewrite forallb_forall, Forall_forall. by setoid_rewrite <- list_elem_of_In. Qed.

(** The three outcomes, each with the condition of the code that leads to it. *)
Lemma renameStepId_cases d o n :
  (o = n ∧ renameStepId d o n = Renamed d) ∨
  (o ≠ n ∧ n ∈ step_ids d ∧ ∃ m, renameStepId d o n = RenameThrows m) ∨
  (o ≠ n ∧ n ∉ step_ids d ∧
   ((∃ l, Forall2 (λ s s', remapStep o n (remap o n) s = Some s') (wd_steps d) l ∧
          renameStepId d o n = Renamed (with_steps l d)) ∨
    (∃ l, None ∈ l ∧ renameStepId d o n = RenameHoles l))).
Proof.
  unfold renameStepId. destruct (String.eqb_spec o n); [auto|right].
  destruct (existsb _ _) eqn:E.
  - left. apply existsb_step_id in E. eauto.
  - right. split; [done|]. split.
    { intros Hin%existsb_step_id. congruence. }
    destruct (mapM id _) as [l|] eqn:EM.
    + left. exists l. by rewrite <- mapM_id_Some.
    + right. eexists. split; [|done]. apply mapM_None in EM.
      apply Exists_exists in EM as (x & Hx & Hnone). unfold id in Hnone. by subst.
Qed.

(** The relation between a step and its renamed copy. *)
Definition renamed_step (o n : StepId) (s s' : Step) : Prop :=
  step_id s' = remap o n (step_id s) ∧ step_type s' = step_type s ∧
  step_name s' = step_name s ∧ step_refs s' = remap o n <$> step_refs s ∧ step_wf s' = true.

Lemma remap_steps_spec o n l l' :
  Forall (λ s, step_wf s = true) l →
  Forall2 (λ s s', remapStep o n (remap o n) s = Some s') l l' → Forall2 (renamed_step o n) l l'.
Proof. intros Hwf H. induction H; inversion_clear Hwf; constructor; auto. by apply remapStep_spec. Qed.

Lemma renamed_steps d o n d' :
  def_wf d = true → o ≠ n → renameStepId d o n = Renamed d' →
  n ∉ step_ids d ∧ d' = with_steps (wd_steps d') d ∧
  Forall2 (renamed_step o n) (wd_steps d) (wd_steps d').
Proof.
  intros Hwf%def_wf_Forall Hne H.
  destruct (renameStepId_cases d o n) as [[? _]|[(_&_&m&Hm)|(_&Hn&[(l&Hl&Hr)|(l&_&Hr)])]];
    try congruence.
  rewrite Hr in H. simplify_eq. split_and!; [done|by destruct d|]. by apply remap_steps_spec.
Qed.

Lemma renamed_ids o n l l' :
  Forall2 (renamed_step o n) l l' → step_id <$> l' = remap o n <$> (step_id <$> l).
Proof. induction 1 as [|s s' l l' (Hs&_) _ IH]; csimpl; [done|]. by rewrite Hs, IH. Qed.

Lemma renamed_refs o n l l' :
  Forall2 (renamed_step o n) l l' → l' ≫= step_refs = remap o n <$> (l ≫= step_refs).
Proof.
  induction 1 as [|s s' l l' (_&_&_&Hs&_) _ IH]; csimpl; [done|]. by rewrite Hs, IH, fmap_app.
Qed.

(** A definition whose step types are all known is renamed without holes. *)
Lemma rename_no_holes d o n l :
  def_wf d = true → forallb known_type (wd_steps d) = true → renameStepId d o n ≠ RenameHoles l.
Proof.
  intros Hwf%def_wf_Forall Hk. unfold renameStepId. do 2 (case_goal; [done|]).
  destruct (mapM id _) as [l'|] eqn:EM; [done|].
  apply mapM_None, Exists_exists in EM as (x & Hx & Hnone).
  apply list_elem_of_fmap in Hx as (s & -> & Hs). simpl in Hnone.
  rewrite forallb_forall in Hk. rewrite Forall_forall in Hwf.
  destruct (remapStep_known o n s) as [? ?]; [by apply Hwf| |congruence].
  apply Hk. by apply list_elem_of_In.
Qed.

(** ** Renaming back *)

Lemma fmap_remap_back o n (l : list StepId) : n ∉ l → remap n o <$> (remap o n <$> l) = l.
Proof.
  induction l as [|x l IH]; csimpl; [done|]. rewrite not_elem_of_cons. intros [Hx Hl].
  rewrite remap_back by congruence. by rewrite IH.
Qed.

Lemma events_remap_back o n b :
  n ∉ boundary_refs b → withRemappedBoundary (remap n o) (withRemappedBoundary (remap o n) b) = b.
Proof.
  destruct b as [evs|]; [|done]. unfold boundary_refs. simpl. intros H. f_equal.
  induction evs as [|[] evs IH]; csimpl in *; [done|]. rewrite not_elem_of_cons in H.
  unfold remapEvent at 1. simpl. rewrite remap_back by naive_solver. f_equal. naive_solver.
Qed.

Lemma common_back o n (c : StepCommon) :
  sc_id c ≠ n → with_id (remap n o (remap o n (sc_id c))) c = c.
Proof. intros. rewrite remap_back by done. by destruct c. Qed.

Lemma branches_remap_back o n (c : StepCommon) (m : obj StepId) :
  step_wf (DecisionStep c m) = true → n ∉ obj_values m →
  fold_left (λ acc p, obj_assign p.1 (remap n o p.2) acc)
    (fold_left (λ acc p, obj_assign p.1 (remap o n p.2) acc) m []) [] = m.
Proof.
  simpl. intros [Hm Hp%negb_true_iff]%andb_true_iff Hn. rewrite obj_has_false in Hp.
  rewrite (obj_assign_all _ m Hm Hp). rewrite obj_assign_all.
  - rewrite <- list_fmap_compose. rewrite <- (list_fmap_id m) at 2.
    apply list_fmap_ext. intros i [k v] Hi. unfold compose, prod_map. simpl.
    rewrite remap_back; [done|]. intros ->. apply Hn.
    apply list_elem_of_fmap. exists (k, n). split; [done|]. by eapply list_elem_of_lookup_2.
  - unfold obj_wf, obj_keys in *. by rewrite <- list_fmap_compose.
  - unfold obj_keys in *. by rewrite <- list_fmap_compose.
Qed.

Lemma remapStep_back o n s s' :
  step_wf s = true → step_id s ≠ n → n ∉ step_refs s →
  remapStep o n (remap o n) s = Some s' → remapStep n o (remap n o) s' = Some s.
Proof.
  intros Hwf Hid Hrefs H.
  destruct (remapStep_spec o n s s' Hwf H) as (Hid' & _).
  unfold remapStep in *. rewrite Hid'.
  assert (String.eqb (remap o n (step_id s)) n = String.eqb (step_id s) o) as ->.
  { unfold remap. destruct (String.eqb_spec (step_id s) o); [apply String.eqb_refl|].
    by apply String.eqb_neq. }
  destruct (String.eqb_spec (step_id s) o) as [Ho|Ho].
  all: destruct s; simplify_eq/=.
  all: try (rewrite branches_remap_back with (c := c) by done).
  all: try (rewrite events_remap_back by set_solver).
  all: try (destruct nextStep; simpl in *; rewrite ?remap_back by set_solver).
  all: rewrite ?remap_back by set_solver.
  all: rewrite ?fmap_remap_back by set_solver.
  all: unfold step_id in *; try (by destruct c; simpl in *; subst); try done.
Qed.

(** ** Properties *)



(** When the new id occurs nowhere in the definition, renaming back gives
    the original definition, bit for bit. *)
Theorem rename_roundtrip d d' o n :
  def_wf d = true → o ≠ n → n ∉ step_ids d → n ∉ (wd_steps d ≫= step_refs) →
  renameStepId d o n = Renamed d' → renameStepId d' n o = Renamed d.
Proof.
  intros Hwf Hne Hn Hrefs H.
  destruct (renameStepId_cases d o n) as [[? _]|[(_&?&_)|(_&_&[(l&Hl&Hr)|(l&_&Hr)])]]; [done|done| |congruence].
  rewrite Hr in H. simplify_eq.
  destruct (renamed_steps d o n _ Hwf Hne Hr) as (_ & _ & Hs). simpl in Hs.
  unfold renameStepId. destruct (String.eqb_spec n o); [congruence|].
  destruct (existsb _ _) eqn:E.
  { apply existsb_step_id in E. simpl in E. rewrite (renamed_ids o n _ _ Hs) in E.
    apply list_elem_of_fmap in E as (x & Hx & _). by destruct (remap_never_old o n x Hne). }
  simpl. assert (mapM id (remapStep n o (remap n o) <$> l) = Some (wd_steps d)) as ->; [|by destruct d].
  apply mapM_id_Some. apply def_wf_Forall in Hwf. clear -Hwf Hl Hn Hrefs. unfold step_ids in Hn.
  induction Hl as [|s s' ls l Hs Hl IH]; [constructor|]. inversion_clear Hwf. csimpl in *.
  constructor; [apply (remapStep_back o n s s'); set_solver|]. apply IH; set_solver.
Qed.

Lemma rename_roundtrip_witness :
  ∃ d', renameStepId order_def "merge" "join" = Renamed d' ∧ renameStepId d' "join" "merge" = Renamed order_def.
Proof.
  eexists. split; [vm_compute; reflexivity|].
  apply (rename_roundtrip order_def _ "merge" "join"); try (vm_compute; reflexivity); try discriminate;
    apply includes_false; vm_compute; reflexivity.
Defined.

(** Renaming throws exactly when the new id differs from the old one and is
    already the id of a step. *)
Theorem rename_throws_iff d o n :
  (∃ m, renameStepId d o n = RenameThrows m) ↔ o ≠ n ∧ n ∈ step_ids d.
Proof.
  destruct (renameStepId_cases d o n) as [[? H]|[(?&?&H)|(?&?&[(l&?&H)|(l&?&H)])]];
    naive_solver congruence.
Qed.

(** Renaming keeps a definition's ids unique and its references resolved:
    if every reference names a step before, every reference names one after. *)
Theorem rename_preserves_integrity d d' o n :
  def_wf d = true → NoDup (step_ids d) → (∀ x, x ∈ (wd_steps d ≫= step_refs) → x ∈ step_ids d) →
  renameStepId d o n = Renamed d' →
  NoDup (step_ids d') ∧ (∀ x, x ∈ (wd_steps d' ≫= step_refs) → x ∈ step_ids d') ∧ def_wf d' = true.
Proof.
  intros Hwf Hnd Hres H. destruct (String.eqb_spec o n) as [->|Hne].
  { unfold renameStepId in H. rewrite String.eqb_refl in H. by simplify_eq. }
  destruct (renamed_steps d o n d' Hwf Hne H) as (Hn & _ & Hs).
  unfold step_ids in *. rewrite (renamed_ids o n _ _ Hs), (renamed_refs o n _ _ Hs). split_and!.
  - apply NoDup_fmap_2_strong; [|done].
    intros x y Hx Hy. apply remap_inj; intros ->; contradiction.
  - intros x (y & -> & Hy)%list_elem_of_fmap. apply list_elem_of_fmap_2. auto.
  - apply def_wf_Forall. clear -Hs. induction Hs as [|s s' l l' (_&_&_&_&Hw) _ IH]; by constructor.
Qed.

Lemma rename_preserves_integrity_witness :
  ∃ d', renameStepId order_def "merge" "join" = Renamed d' ∧ NoDup (step_ids d').
Proof.
  eexists. split; [vm_compute; reflexivity|].
  eapply (rename_preserves_integrity order_def _ "merge" "join").
  - vm_compute; reflexivity.
  - apply (bool_decide_eq_true_1 _). vm_compute. reflexivity.
  - intros x Hx. apply includes_true.
    assert (Forall (λ y, includes (step_ids order_def) y = true) (wd_steps order_def ≫= step_refs)) as HF
      by (vm_compute; repeat constructor).
    rewrite Forall_forall in HF. by apply HF.
  - vm_compute; reflexivity.
Defined.

(** A definition holding a step of unknown type has no successful rename to
    a free id: the step turns into [undefined] in the new array. *)
Theorem rename_unknown_type_leaves_hole d o n t c :
  o ≠ n → n ∉ step_ids d → UnknownTypeStep t c ∈ wd_steps d →
  ∃ l, renameStepId d o n = RenameHoles l ∧ None ∈ l.
Proof.
  intros Hne Hn Hu.
  destruct (renameStepId_cases d o n) as [[? H]|[(?&?&H)|(?&?&[(l&Hl&H)|(l&?&H)])]]; [done|done| |eauto].
  exfalso. apply list_elem_of_lookup in Hu as [i Hi].
  destruct (Forall2_lookup_l _ _ _ _ _ Hl Hi) as (s' & _ & Hs'). unfold remapStep in Hs'.
  destruct (String.eqb _ _) in Hs'; done.
Qed.

Lemma rename_unknown_type_leaves_hole_witness :
  ∃ l, renameStepId (with_steps [UnknownTypeStep "LOOP" (common "a" "A")] order_def) "a" "b" = RenameHoles l
       ∧ None ∈ l.
Proof.
  apply (rename_unknown_type_leaves_hole _ "a" "b" "LOOP" (common "a" "A")).
  - discriminate.
  - apply includes_false. vm_compute. reflexivity.
  - simpl. set_solver.
Defined.
