(* ===== verification/Walk.v ===== *)
(** * Graph walks of the validator

    The explicit-stack walk [checkReachability] and [checkNestedParallel] run,
    and the three-colour recursive search of [checkGraphCycle], over an
    abstract successor function; with their termination and what they compute
    (workflow-modeller/src/domain/validate.ts). *)

From S2P Require Import Prelude.
From stdpp Require Import relations.

(** ** The explicit-stack walk *)

Section walk.
Context (succs : string → list string).
Context (skip : string → bool).
Context {D : Type} (emit : string → list D).

(** [while (stack.length > 0) { const id = stack.pop(); ... }].  The head of the
    list is the end of the array, so pushing [l] in order puts [rev l] in
    front.  [emit] is what the loop body appends to the diagnostics when it
    enters an id. *)
Fixpoint walk (fuel : nat) (stack : list string) (visited : gset string) (out : list D) :
    option (gset string * list D) :=
  match fuel with
  | O => None
  | S fuel =>
      match stack with
      | [] => Some (visited, out)
      | id :: stack =>
          if (negb (truthy_str id) || bool_decide (id ∈ visited))%bool then walk fuel stack visited out
          else if skip id then walk fuel stack visited out
          else
            let visited := {[id]} ∪ visited in
            walk fuel (rev (List.filter (λ t, negb (bool_decide (t ∈ visited))) (succs id)) ++ stack)
              visited (out ++ emit id)
      end
  end.

(** Enough fuel for a walk from [stack] when only the ids of [U] have successors. *)
Definition walk_fuel (U stack : list string) : nat :=
  S (length stack + sum_list (length ∘ succs <$> U)).

(** An id the walk enters when it pops it the first time. *)
Definition enters (x : string) : Prop := x ≠ EmptyString ∧ skip x = false.

(** The ids reached from the roots through ids the walk enters. *)
Inductive reached (roots : list string) : string → Prop :=
| reached_root x : x ∈ roots → enters x → reached roots x
| reached_step x y : reached roots x → y ∈ succs x → enters y → reached roots y.

Hint Constructors reached : roch.

(** *** Termination *)

Definition pending (U : list string) (visited : gset string) : nat :=
  sum_list ((λ x, if bool_decide (x ∈ visited) then 0 else length (succs x)) <$> U).

Lemma pending_mono U visited id :
  pending U ({[id]} ∪ visited) ≤ pending U visited.
Proof.
  unfold pending. induction U as [|x U IH]; csimpl; [done|].
  repeat case_bool_decide; set_solver by lia.
Qed.

Lemma pending_visit U visited id :
  id ∈ U → id ∉ visited → pending U ({[id]} ∪ visited) + length (succs id) ≤ pending U visited.
Proof.
  intros Hid Hn. unfold pending. induction U as [|x U IH]; csimpl; [set_solver|].
  pose proof (pending_mono U visited id) as Hm. unfold pending in Hm.
  apply elem_of_cons in Hid as [<-|Hid].
  - rewrite bool_decide_eq_true_2 by set_solver. rewrite bool_decide_eq_false_2 by done. lia.
  - specialize (IH Hid). repeat case_bool_decide; set_solver by lia.
Qed.

Lemma length_filter_le {A} (f : A → bool) (l : list A) : length (List.filter f l) ≤ length l.
Proof. induction l as [|x l IH]; simpl; [lia|]. destruct (f x); simpl; lia. Qed.

Lemma walk_terminates U fuel stack visited out :
  (∀ x, x ∉ U → succs x = []) → length stack + pending U visited < fuel →
  is_Some (walk fuel stack visited out).
Proof.
  intros HU. revert stack visited out. induction fuel as [|fuel IH]; intros stack visited out Hf; [lia|].
  destruct stack as [|id stack]; simpl in *; [eauto|].
  destruct (_ || _)%bool eqn:E1; [apply IH; lia|]. destruct (skip id); [apply IH; lia|].
  apply IH. rewrite length_app, length_rev. bool_hyps.
  pose proof (length_filter_le (λ t, negb (bool_decide (t ∈ {[id]} ∪ visited))) (succs id)).
  destruct (decide (id ∈ U)) as [HinU|HnU].
  - pose proof (pending_visit U visited id HinU ltac:(done)). lia.
  - rewrite (HU id HnU) in *. simpl. pose proof (pending_mono U visited id). lia.
Qed.

Lemma pending_empty U : pending U ∅ = sum_list (length ∘ succs <$> U).
Proof.
  unfold pending. induction U as [|x U IH]; csimpl; [done|]. by rewrite IH.
Qed.

Lemma walk_fuel_enough U stack :
  (∀ x, x ∉ U → succs x = []) → is_Some (walk (walk_fuel U stack) stack ∅ []).
Proof.
  intros HU. apply (walk_terminates U); [done|]. unfold walk_fuel. rewrite pending_empty. lia.
Qed.

(** *** What the walk computes *)

Record walk_inv (roots stack : list string) (visited : gset string) (out : list D) : Prop := {
  wi_sound : ∀ x, x ∈ visited → reached roots x;
  wi_stack : ∀ x, x ∈ stack → enters x → reached roots x;
  wi_roots : ∀ x, x ∈ roots → enters x → x ∈ visited ∨ x ∈ stack;
  wi_closed : ∀ x y, x ∈ visited → y ∈ succs x → enters y → y ∈ visited ∨ y ∈ stack;
  wi_out : ∀ d, d ∈ out ↔ ∃ x, x ∈ visited ∧ d ∈ emit x
}.

Lemma walk_inv_pop roots id stack visited out :
  walk_inv roots (id :: stack) visited out → (enters id → id ∈ visited) →
  walk_inv roots stack visited out.
Proof.
  intros [Hs Hst Hr Hc Ho] Hid. split; try done.
  - intros x Hx. apply Hst. set_solver.
  - intros x Hx Hen. destruct (Hr x Hx Hen) as [|[->|?]%elem_of_cons]; auto.
  - intros x y Hx Hy Hen. destruct (Hc x y Hx Hy Hen) as [|[->|?]%elem_of_cons]; auto.
Qed.

Lemma elem_of_pushed (id : string) (visited : gset string) (l stack : list string) x :
  x ∈ rev (List.filter (λ t, negb (bool_decide (t ∈ visited))) l) ++ stack ↔
  (x ∈ l ∧ x ∉ visited) ∨ x ∈ stack.
Proof.
  rewrite elem_of_app. f_equiv. rewrite list_elem_of_In, <- in_rev, filter_In, <- list_elem_of_In.
  by rewrite negb_true_iff, bool_decide_eq_false.
Qed.

Lemma walk_inv_enter roots id stack visited out :
  walk_inv roots (id :: stack) visited out → enters id →
  walk_inv roots
    (rev (List.filter (λ t, negb (bool_decide (t ∈ {[id]} ∪ visited))) (succs id)) ++ stack)
    ({[id]} ∪ visited) (out ++ emit id).
Proof.
  intros [Hs Hst Hr Hc Ho] Hid. assert (reached roots id) by (apply Hst; set_solver).
  split; try setoid_rewrite (elem_of_pushed id).
  - intros x [->%elem_of_singleton|Hx]%elem_of_union; auto.
  - intros x [[Hx _]|Hx] Hen; [eauto with roch|]. apply Hst; set_solver.
  - intros x Hx Hen. destruct (Hr x Hx Hen) as [|[->|?]%elem_of_cons]; set_solver.
  - intros x y Hx Hy Hen. destruct (decide (y ∈ {[id]} ∪ visited)) as [|Hny]; [by left|right].
    apply elem_of_union in Hx as [->%elem_of_singleton|Hx]; [by left; split|].
    destruct (Hc x y Hx Hy Hen) as [|[->|?]%elem_of_cons]; set_solver.
  - intros d. rewrite elem_of_app, Ho. set_solver.
Qed.

Lemma walk_inv_run fuel roots stack visited out visited' out' :
  walk_inv roots stack visited out → walk fuel stack visited out = Some (visited', out') →
  walk_inv roots [] visited' out'.
Proof.
  revert stack visited out. induction fuel as [|fuel IH]; intros stack visited out Hinv; [done|].
  destruct stack as [|id stack]; simpl; [by intros [= <- <-]|].
  destruct (_ || _)%bool eqn:E1.
  { apply IH, (walk_inv_pop _ id); [done|]. intros [Hne _].
    apply orb_true_iff in E1 as [E1|E1]; bool_hyps; [|done].
    apply truthy_str_false in E1. done. }
  bool_hyps. match goal with H : truthy_str _ = true |- _ => apply truthy_str_true in H end.
  destruct (skip id) eqn:E2.
  { apply IH, (walk_inv_pop _ id); [done|]. intros [_ ?]. congruence. }
  apply IH, walk_inv_enter; [done|]. by split.
Qed.

(** A finished walk has visited exactly the reached ids, and has emitted the
    diagnostics of exactly those. *)
Lemma walk_correct fuel roots stack visited out :
  (∀ x, x ∈ stack ↔ x ∈ roots) → walk fuel stack ∅ [] = Some (visited, out) →
  (∀ x, x ∈ visited ↔ reached roots x) ∧ (∀ d, d ∈ out ↔ ∃ x, reached roots x ∧ d ∈ emit x).
Proof.
  intros Hst H. assert (walk_inv roots stack ∅ []) as Hinv.
  { split; [set_solver| |set_solver|set_solver|set_solver].
    intros x Hx Hen. apply reached_root; [by apply Hst|done]. }
  destruct (walk_inv_run _ _ _ _ _ _ _ Hinv H) as [Hs _ Hr Hc Ho].
  assert (∀ x, x ∈ visited ↔ reached roots x) as Hv.
  { intros x. split; [auto|]. induction 1 as [x Hx Hen|x y _ IH Hy Hen].
    - destruct (Hr x Hx Hen); set_solver.
    - destruct (Hc x y IH Hy Hen); set_solver. }
  split; [done|]. intros d. rewrite Ho. by setoid_rewrite Hv.
Qed.

End walk.

(** ** The three-colour search *)

Inductive color := White | Gray | Black.

#[export] Instance color_eq_dec : EqDecision color.
Proof. solve_decision. Defined.

(** The [color] map and the [onCycle] array. *)
Abbreviation dfs_state := (gmap string color * list string)%type.

Section dfs.
Context (succs : string → list string).

(** The loop over the targets of the current id; [true] when it returned from
    the function at a gray target. *)
Fixpoint dfs_targets (rec : string → dfs_state → option dfs_state) (ts : list string)
    (st : dfs_state) : option (dfs_state * bool) :=
  match ts with
  | [] => Some (st, false)
  | t :: ts =>
      match st.1 !! t with
      | Some Gray => Some ((st.1, st.2 ++ [t]), true)
      | Some White => match rec t st with
                      | Some st' => dfs_targets rec ts st'
                      | None => None
                      end
      | _ => dfs_targets rec ts st
      end
  end.

Fixpoint dfs (fuel : nat) (id : string) (st : dfs_state) : option dfs_state :=
  match fuel with
  | O => None
  | S fuel =>
      match st.2 with
      | _ :: _ => Some st
      | [] =>
          match dfs_targets (dfs fuel) (succs id) (<[id := Gray]> st.1, st.2) with
          | None => None
          | Some (st', true) => Some st'
          | Some (st', false) => Some (<[id := Black]> st'.1, st'.2)
          end
      end
  end.

(** The outer loop over the steps' ids, with its [break]. *)
Fixpoint dfs_all (fuel : nat) (ids : list string) (st : dfs_state) : option dfs_state :=
  match ids with
  | [] => Some st
  | id :: ids =>
      match (if bool_decide (st.1 !! id = Some White) then dfs fuel id st else Some st) with
      | None => None
      | Some st' => match st'.2 with _ :: _ => Some st' | [] => dfs_all fuel ids st' end
      end
  end.

(** *** Specification *)

Context (nodes : gset string).

(** An edge between two coloured ids. *)
Definition edge (x y : string) : Prop := x ∈ nodes ∧ y ∈ succs x ∧ y ∈ nodes.

Definition on_cycle (x : string) : Prop := tc edge x x.

Definition whites (c : gmap string color) : nat :=
  size (filter (λ p : string * color, p.2 = White) c).

Fixpoint gray_path (g : list string) : Prop :=
  match g with
  | [] => True
  | a :: g' => match g' with b :: _ => edge b a | [] => True end ∧ gray_path g'
  end.

(** Finishing order, last finished first: all successors finished before. *)
Fixpoint finish_order (l : list string) : Prop :=
  match l with
  | [] => True
  | x :: l' => (∀ y, edge x y → y ∈ l') ∧ finish_order l'
  end.

Record dfs_inv (c : gmap string color) (g l : list string) : Prop := {
  di_gray : ∀ x, c !! x = Some Gray ↔ x ∈ g;
  di_black : ∀ x, c !! x = Some Black ↔ x ∈ l;
  di_dom : dom c = nodes;
  di_path : gray_path g;
  di_order : finish_order l
}.

Lemma gray_path_reaches g id t : gray_path (id :: g) → t ∈ id :: g → rtc edge t id.
Proof.
  revert id. induction g as [|b g IH]; intros id Hp Ht.
  - apply list_elem_of_singleton in Ht as ->. constructor.
  - apply elem_of_cons in Ht as [->|Ht]; [constructor|].
    destruct Hp as [He Hp]. eapply rtc_r; [|exact He]. by apply IH.
Qed.

Lemma finish_order_closed l x y : finish_order l → x ∈ l → edge x y → y ∈ l.
Proof.
  induction l as [|z l IH]; simpl; [set_solver|]. intros [Hz Hl] [->|Hx]%elem_of_cons He; set_solver.
Qed.

Lemma finish_order_closed_rtc l x y : finish_order l → x ∈ l → rtc edge x y → y ∈ l.
Proof. intros Hl Hx Hr. induction Hr; eauto using finish_order_closed. Qed.

Lemma finish_order_acyclic l x : finish_order l → x ∈ l → ¬ on_cycle x.
Proof.
  induction l as [|z l IH]; simpl; [set_solver|]. intros [Hz Hl] Hx Hc.
  assert (x ∈ l); [|by eapply IH].
  apply elem_of_cons in Hx as [->|?]; [|done].
  inversion Hc as [? ? He|? y ? He Hr]; subst; [by apply Hz|].
  eapply finish_order_closed_rtc; [done|by apply Hz|by apply tc_rtc].
Qed.

(** *** Counting white ids *)

Lemma whites_insert c id k :
  k ≠ White → whites (<[id := k]> c) ≤ whites c ∧
  (c !! id = Some White → whites (<[id := k]> c) < whites c).
Proof.
  intros Hk. unfold whites. rewrite map_filter_insert_False by (simpl; congruence).
  rewrite map_filter_delete. split.
  - rewrite map_size_delete. destruct (filter _ c !! id); simpl; lia.
  - intros Hid.
    assert (is_Some (filter (λ p : string * color, p.2 = White) c !! id)) as Hl
      by (exists White; by apply map_lookup_filter_Some_2).
    rewrite (map_size_delete_Some _ _ Hl). apply map_size_ne_0_lookup_2 in Hl. lia.
Qed.

(** *** The search meets its specification *)

(** What a call on a white id must deliver with fuel for [n] white ids. *)
Definition dfs_ok (n : nat) (rec : string → dfs_state → option dfs_state) : Prop :=
  (∀ t st, 0 < n → st.2 ≠ [] → rec t st = Some st) ∧
  ∀ t c g l, dfs_inv c g l → c !! t = Some White → gray_path (t :: g) → whites c < n →
  ∃ st', rec t (c, []) = Some st' ∧ whites st'.1 ≤ whites c ∧
    (∀ x, head st'.2 = Some x → on_cycle x) ∧
    (st'.2 = [] → ∃ l', dfs_inv st'.1 g l' ∧ t ∈ l' ∧ l ⊆ l').

Section targets.
Context (n : nat) (rec : string → dfs_state → option dfs_state) (Hrec : dfs_ok n rec).

(** Once a cycle is recorded, the first recorded id stays and no colour changes. *)
Lemma dfs_targets_recorded ts c x cyc :
  0 < n → ∃ cyc' b, dfs_targets rec ts (c, x :: cyc) = Some ((c, x :: cyc'), b).
Proof.
  intros Hn. revert cyc. induction ts as [|t ts IH]; intros cyc; simpl; [eauto|].
  destruct (c !! t) as [[]|]; eauto. destruct Hrec as [Hr _]. by rewrite Hr.
Qed.

Lemma dfs_targets_spec ts c id g l :
  dfs_inv c (id :: g) l → id ∈ nodes → (∀ t, t ∈ ts → t ∈ succs id) → whites c < n →
  ∃ st' b, dfs_targets rec ts (c, []) = Some (st', b) ∧ whites st'.1 ≤ whites c ∧
    (∀ x, head st'.2 = Some x → on_cycle x) ∧
    (st'.2 = [] → b = false ∧ ∃ l', dfs_inv st'.1 (id :: g) l' ∧ l ⊆ l' ∧
                    ∀ t, t ∈ ts → t ∈ nodes → t ∈ l').
Proof.
  intros Hinv Hid. revert c l Hinv. induction ts as [|t ts IH]; intros c l Hinv Hts Hn; simpl.
  { do 2 eexists. split; [done|]. split; [done|]. split; [done|]. intros _. split; [done|].
    exists l. set_solver. }
  assert (t ∈ nodes → edge id t) as He by (intros; split_and!; [done|set_solver|done]).
  assert (is_Some (c !! t) ↔ t ∈ nodes) as Hdom by (by rewrite <- (di_dom _ _ _ Hinv), elem_of_dom).
  destruct (c !! t) as [[]|] eqn:Ec.
  - (* white *)
    assert (edge id t) as Hedge by (apply He, Hdom; eauto).
    destruct (proj2 Hrec t c (id :: g) l) as ([c1 cyc1] & Hr & Hw & Hcyc & Hnil); [done|done| |done|].
    { simpl. split; [done|]. apply (di_path _ _ _ Hinv). }
    rewrite Hr. simpl in *. destruct cyc1 as [|x cyc1].
    + destruct (Hnil eq_refl) as (l1 & Hinv1 & Ht & Hl).
      destruct (IH c1 l1 Hinv1) as (st' & b & HH & ? & ? & Hfin); [set_solver|lia|].
      exists st', b. split_and!; [done|lia|done|]. intros Hst. destruct (Hfin Hst) as (-> & l2 & ? & ? & ?).
      split; [done|]. exists l2. set_solver.
    + destruct (dfs_targets_recorded ts c1 x cyc1) as (cyc' & b & ->); [lia|].
      exists (c1, x :: cyc'), b. split_and!; [done|done|done|done].
  - (* gray *)
    exists (c, [t]), true. split_and!; [done|done| |done]. intros x [= <-].
    eapply tc_rtc_l; [apply (gray_path_reaches g id)|apply tc_once, He, Hdom; eauto].
    + apply (di_path _ _ _ Hinv).
    + by apply (di_gray _ _ _ Hinv).
  - (* black *)
    apply (di_black _ _ _ Hinv) in Ec.
    destruct (IH c l Hinv) as (st' & b & HH & ? & ? & Hfin); [set_solver|done|].
    exists st', b. split_and!; [done|done|done|]. intros Hst. destruct (Hfin Hst) as (-> & l2 & ? & ? & ?).
    split; [done|]. exists l2. set_solver.
  - (* not a step *)
    destruct (IH c l Hinv) as (st' & b & HH & ? & ? & Hfin); [set_solver|done|].
    exists st', b. split_and!; [done|done|done|]. intros Hst. destruct (Hfin Hst) as (-> & l2 & ? & ? & ?).
    split; [done|]. exists l2. split_and!; [done|done|].
    intros t' [->|Ht']%elem_of_cons Hin; [|by auto]. apply Hdom in Hin as [? ?]. congruence.
Qed.
End targets.

(** Colouring a white id gray starts its call; blackening it ends the call. *)
Lemma dfs_inv_enter c g l id :
  dfs_inv c g l → c !! id = Some White → gray_path (id :: g) → dfs_inv (<[id := Gray]> c) (id :: g) l.
Proof.
  intros [Hg Hb Hd Hp Ho] Hid Hpath. split; try done.
  - intros x. rewrite lookup_insert, elem_of_cons, <- Hg. case_decide; naive_solver.
  - intros x. rewrite lookup_insert, <- Hb. case_decide; naive_solver.
  - rewrite dom_insert_L, <- Hd. apply elem_of_dom_2 in Hid. set_solver.
Qed.

Lemma dfs_inv_leave c g l id :
  dfs_inv c (id :: g) l → id ∉ g → (∀ y, edge id y → y ∈ l) → dfs_inv (<[id := Black]> c) g (id :: l).
Proof.
  intros [Hg Hb Hd Hp Ho] Hid Hall. split.
  - intros x. rewrite lookup_insert. specialize (Hg x). rewrite elem_of_cons in Hg.
    case_decide; naive_solver.
  - intros x. rewrite lookup_insert, elem_of_cons, <- Hb. case_decide; naive_solver.
  - rewrite dom_insert_L, Hd. assert (c !! id = Some Gray) as Hc%elem_of_dom_2 by (apply Hg; set_solver).
    set_solver.
  - apply Hp.
  - by split.
Qed.

Lemma dfs_spec n : dfs_ok n (dfs n).
Proof.
  induction n as [|n IH]; split; [lia|lia| |].
  { intros t [c [|x cyc]] _ Hc; [done|]. done. }
  intros id c g l Hinv Hid Hpath Hw. simpl.
  destruct (whites_insert c id Gray) as [_ Hlt]; [done|]. specialize (Hlt Hid).
  assert (id ∈ nodes) as Hnode by (rewrite <- (di_dom _ _ _ Hinv); by eapply elem_of_dom_2).
  destruct (dfs_targets_spec n (dfs n) IH (succs id) (<[id := Gray]> c) id g l)
    as ([c' cyc'] & b & -> & Hle & Hcyc & Hnil); [by apply dfs_inv_enter|done|done|lia|].
  simpl in *. destruct b.
  - exists (c', cyc'). split_and!; [done|simpl; lia|done|]. simpl. intros H. by destruct (Hnil H).
  - eexists. split; [done|]. simpl. destruct (whites_insert c' id Black) as [Hb _]; [done|].
    split_and!; [lia|done|]. intros H. destruct (Hnil H) as (_ & l' & Hinv' & Hl & Hall).
    exists (id :: l'). split_and!; [|set_solver|set_solver].
    apply dfs_inv_leave; [done| |].
    + intros Hg%(di_gray _ _ _ Hinv). congruence.
    + intros y (_ & Hy & Hn). by apply Hall.
Qed.

Lemma dfs_all_spec n ids c l :
  dfs_inv c [] l → whites c < n →
  ∃ st', dfs_all n ids (c, []) = Some st' ∧ (∀ x, head st'.2 = Some x → on_cycle x) ∧
    (st'.2 = [] → ∃ l', dfs_inv st'.1 [] l' ∧ l ⊆ l' ∧ ∀ x, x ∈ ids → x ∈ nodes → x ∈ l').
Proof.
  revert c l. induction ids as [|id ids IH]; intros c l Hinv Hn; simpl.
  { eexists. split_and!; [done|done|]. intros _. exists l. set_solver. }
  case_bool_decide as Hid.
  - destruct (proj2 (dfs_spec n) id c [] l) as ([c1 cyc1] & -> & Hw & Hcyc & Hnil); try done.
    simpl in *. destruct cyc1 as [|x cyc1]; [|by eexists].
    destruct (Hnil eq_refl) as (l1 & Hinv1 & Hin & Hl).
    destruct (IH c1 l1 Hinv1) as (st' & ? & ? & Hfin); [lia|].
    exists st'. split_and!; [done|done|]. intros Hst. destruct (Hfin Hst) as (l2 & ? & ? & ?).
    exists l2. set_solver.
  - destruct (IH c l Hinv Hn) as (st' & ? & ? & Hfin).
    exists st'. split_and!; [done|done|]. intros Hst. destruct (Hfin Hst) as (l2 & Hi & Hl & Hall).
    exists l2. split_and!; [done|done|]. intros x [->|Hx]%elem_of_cons Hx'; [|by auto].
    rewrite <- (di_dom _ _ _ Hinv), elem_of_dom in Hx'. destruct Hx' as [[] Hc]; [done| |].
    + by apply (di_gray _ _ _ Hinv) in Hc; set_solver.
    + apply (di_black _ _ _ Hinv) in Hc. set_solver.
Qed.

End dfs.

(** [new Map()] with every id white. *)
Definition all_white (ids : list string) : gmap string color :=
  fold_left (λ m id, <[id := White]> m) ids ∅.

Lemma all_white_lookup ids x :
  all_white ids !! x = if bool_decide (x ∈ ids) then Some White else None.
Proof.
  unfold all_white. assert (∀ m : gmap string color,
    fold_left (λ m id, <[id := White]> m) ids m !! x =
    if bool_decide (x ∈ ids) then Some White else m !! x) as H; [|by rewrite H].
  induction ids as [|y ids IH]; intros m; simpl; [done|].
  rewrite IH, lookup_insert. repeat case_bool_decide; try case_decide; set_solver.
Qed.

Lemma whites_all_white ids : whites (all_white ids) ≤ length ids.
Proof.
  unfold whites. rewrite <- size_dom. transitivity (size (list_to_set ids : gset string)).
  - apply subseteq_size. intros x (k & Hk)%elem_of_dom.
    apply map_lookup_filter_Some in Hk as [Hk _]. rewrite all_white_lookup in Hk.
    case_bool_decide; [|done]. by apply elem_of_list_to_set.
  - induction ids as [|x ids IH]; [apply Nat.le_refl|].
    rewrite list_to_set_cons, size_union_alt, size_singleton. simpl.
    pose proof (subseteq_size (list_to_set ids ∖ {[x]} : gset string) (list_to_set ids)). set_solver by lia.
Qed.

(** The search over all ids reports a cycle exactly when some id is on one, and
    the id it reports is on one. *)
Lemma dfs_all_correct succs (ids : list string) :
  ∃ st, dfs_all succs (S (length ids)) ids (all_white ids, []) = Some st ∧
    (∀ x, head st.2 = Some x → on_cycle succs (list_to_set ids) x) ∧
    (st.2 = [] → ∀ x, ¬ on_cycle succs (list_to_set ids) x).
Proof.
  assert (dfs_inv succs (list_to_set ids) (all_white ids) [] []) as Hinv.
  { split; try done.
    - intros x. rewrite all_white_lookup. case_bool_decide; set_solver.
    - intros x. rewrite all_white_lookup. case_bool_decide; set_solver.
    - apply set_eq. intros x. rewrite elem_of_dom, all_white_lookup, elem_of_list_to_set.
      case_bool_decide; [naive_solver|]. split; [by intros [? ?]|done]. }
  destruct (dfs_all_spec succs _ (S (length ids)) ids _ _ Hinv) as (st & Hst & Hcyc & Hnil).
  { pose proof (whites_all_white ids). lia. }
  exists st. split_and!; [done|done|]. intros H x Hx.
  destruct (Hnil H) as (l & [_ _ _ _ Ho] & _ & Hall).
  apply (finish_order_acyclic succs (list_to_set ids) l x); [done| |done].
  assert (x ∈ (list_to_set ids : gset string)) as Hn.
  { inversion Hx as [? ? He|? ? ? He]; apply He. }
  apply Hall; [by apply elem_of_list_to_set in Hn|done].
Qed.
