(* ===== verification/Expr.v ===== *)
(** * Decision expressions (workflow-modeller/src/domain/expression/parser.ts)

    The AST and the functions over it.  A number literal keeps the exact
    decimal it was written with; no code of the modeller reads the double
    [parseInt]/[parseFloat] makes of it. *)

From S2P Require Import Prelude.

(** ** Definitions *)

Inductive BinaryOp :=
| OpEq | OpNe | OpGt | OpGe | OpLt | OpLe | OpAdd | OpSub | OpMul | OpDiv | OpAnd | OpOr.

#[export] Instance BinaryOp_eq_dec : EqDecision BinaryOp.
Proof. solve_decision. Defined.

Inductive CallFn := FnContains | FnLen.

#[export] Instance CallFn_eq_dec : EqDecision CallFn.
Proof. solve_decision. Defined.

(** [LFloat m k] is [m / 10^k]. *)
Inductive Literal :=
| LInt (value : Z)
| LFloat (m : Z) (k : nat)
| LBool (value : bool)
| LString (value : string).

#[export] Instance Literal_eq_dec : EqDecision Literal.
Proof. solve_decision. Defined.

#[global] Unset Elimination Schemes.
Inductive Expr :=
| ELit (l : Literal)
| EIdent (path : list string)
| ENot (arg : Expr)
| EBin (op : BinaryOp) (lhs rhs : Expr)
| EMem (needle haystack : Expr)
| ECall (fn : CallFn) (args : list Expr).
#[global] Set Elimination Schemes.

(** [path.join('.')] *)
Definition path_str (path : list string) : string := js_join "." path.

(** [collectIdentifiers]: the walk pushes the paths in source order. *)
Fixpoint collectIdentifiers (ast : Expr) : list string :=
  match ast with
  | EIdent path => [path_str path]
  | ELit _ => []
  | ENot arg => collectIdentifiers arg
  | EBin _ l r => collectIdentifiers l ++ collectIdentifiers r
  | EMem n h => collectIdentifiers n ++ collectIdentifiers h
  | ECall _ args => concat (map collectIdentifiers args)
  end.

Definition topLevelLikelyBoolean (ast : Expr) : bool :=
  match ast with
  | ELit (LBool _) => true
  | ELit _ => false
  | ENot _ => true
  | EBin op _ _ =>
      match op with
      | OpEq | OpNe | OpGt | OpGe | OpLt | OpLe | OpAnd | OpOr => true
      | OpAdd | OpSub | OpMul | OpDiv => false
      end
  | EMem _ _ => true
  | EIdent _ | ECall _ _ => true
  end.

(** [s.startsWith('${')] *)
Definition starts_dollar_brace (s : string) : bool := String.prefix "${" s.

(** [s.slice(2, -1)] of a string of length at least 3 *)
Definition slice_2_m1 (s : string) : string := String.substring 2 (String.length s - 3) s.

Definition last_char (s : string) : option ascii := String.get (String.length s - 1) s.

Definition unwrapTransformationExpression (source : string) : option string :=
  let trimmed := js_trim source in
  if Nat.ltb (String.length trimmed) 3 then None
  else if (starts_dollar_brace trimmed &&
           match last_char trimmed with Some c => Ascii.eqb c "}" | None => false end)%bool
  then Some (slice_2_m1 trimmed)
  else None.

(** ** Induction on expressions *)

Section expr_ind.
Context (P : Expr → Prop).
Context (Plit : ∀ l, P (ELit l)) (Pid : ∀ p, P (EIdent p)) (Pnot : ∀ a, P a → P (ENot a)).
Context (Pbin : ∀ op l r, P l → P r → P (EBin op l r)) (Pmem : ∀ n h, P n → P h → P (EMem n h)).
Context (Pcall : ∀ fn args, Forall P args → P (ECall fn args)).

Fixpoint Expr_ind (e : Expr) : P e :=
  match e with
  | ELit l => Plit l
  | EIdent p => Pid p
  | ENot a => Pnot a (Expr_ind a)
  | EBin op l r => Pbin op l r (Expr_ind l) (Expr_ind r)
  | EMem n h => Pmem n h (Expr_ind n) (Expr_ind h)
  | ECall fn args => Pcall fn args ((fix go l : Forall P l :=
      match l with [] => List.Forall_nil _ | x :: l => List.Forall_cons _ x l (Expr_ind x) (go l) end) args)
  end.
End expr_ind.
