(* ===== verification/Peg.v ===== *)
(** * The expression parser (workflow-modeller/src/domain/expression/parser.generated.ts)

    One definition per [peg$parse...] function of the file Peggy generated
    from grammar.pegjs.  [peg$currPos] is the rest of the input: a failing
    parser hands back no rest, which is what restoring the position does.
    The generated functions recurse through parentheses, call arguments and
    [!], and loop over operators; the fuel bounds both.  The expectations
    collected for the text of a [SyntaxError] are in PegError.v. *)

From S2P Require Import Prelude Expr.

#[local] Arguments String.append !_ _ / : simpl nomatch.

Inductive presult (A : Type) :=
| PFail
| POk (a : A) (rest : string)
| PFuel.
Arguments PFail {A}.
Arguments POk {A} _ _.
Arguments PFuel {A}.

(** ** Tokens *)

(** [input.substr(pos, n) === lit] *)
Fixpoint plit (lit s : string) : option string :=
  match lit, s with
  | EmptyString, _ => Some s
  | String c lit', String c' s' => if Ascii.eqb c c' then plit lit' s' else None
  | String _ _, EmptyString => None
  end.

(** A character-class test and the loop that collects its matches. *)
Definition pclass (f : ascii → bool) (s : string) : option (ascii * string) :=
  match s with
  | String c s' => if f c then Some (c, s') else None
  | EmptyString => None
  end.

Fixpoint span (f : ascii → bool) (s : string) : string * string :=
  match s with
  | String c s' => if f c then let '(t, r) := span f s' in (String c t, r) else (EmptyString, s)
  | EmptyString => (EmptyString, EmptyString)
  end.

Lemma span_app f d r :
  all_chars f d = true → match r with String c _ => f c = false | EmptyString => True end →
  span f (d ⊕ r) = (d, r).
Proof.
  intros Hd Hr. induction d as [|c d IH]; simpl in *.
  - destruct r as [|c r]; simpl; [done|]. by rewrite Hr.
  - bool_hyps. rewrite H, IH by done. done.
Qed.

Lemma span_spec f s :
  s = (span f s).1 ⊕ (span f s).2 ∧ all_chars f (span f s).1 = true ∧
  match (span f s).2 with String c _ => f c = false | EmptyString => True end.
Proof.
  induction s as [|c s IH]; simpl; [done|]. destruct (f c) eqn:E; simpl; [|by rewrite E].
  destruct (span f s) as [d r]; simpl in *. rewrite E. destruct IH as (IH1 & IH2 & IH3).
  by rewrite IH2, <- IH1.
Qed.

Definition in_range (lo hi : ascii) (c : ascii) : bool :=
  let n := Ascii.nat_of_ascii c in
  (Nat.leb (Ascii.nat_of_ascii lo) n && Nat.leb n (Ascii.nat_of_ascii hi))%bool.

Definition is_digit (c : ascii) : bool := in_range "0" "9" c.
Definition is_ident_start (c : ascii) : bool :=
  (in_range "a" "z" c || in_range "A" "Z" c || Ascii.eqb c "_")%bool.
Definition is_ident_rest (c : ascii) : bool := (is_ident_start c || is_digit c)%bool.
Definition is_ws (c : ascii) : bool :=
  let n := Ascii.nat_of_ascii c in (Nat.eqb n 32 || Nat.eqb n 9 || Nat.eqb n 10 || Nat.eqb n 13)%bool.

(** [peg$parse_] *)
Definition parse_ws (s : string) : string := (span is_ws s).2.

Definition parseIdentRest (s : string) : option (ascii * string) := pclass is_ident_rest s.

(** [!IdentRest] *)
Definition not_ident_rest (s : string) : bool :=
  match parseIdentRest s with Some _ => false | None => true end.

Definition parseIdent (s : string) : option (string * string) :=
  match pclass is_ident_start s with
  | Some (first, s') => let '(rest, r) := span is_ident_rest s' in Some (String first rest, r)
  | None => None
  end.

(** The tail [("." Ident)*]; every round consumes at least two characters. *)
Fixpoint parseIdentTail (fuel : nat) (s : string) : presult (list string) :=
  match fuel with
  | O => PFuel
  | S fuel =>
      match plit "." s with
      | Some s1 =>
          match parseIdent s1 with
          | Some (i, s2) =>
              match parseIdentTail fuel s2 with
              | POk l r => POk (i :: l) r
              | PFail => PFail
              | PFuel => PFuel
              end
          | None => POk [] s
          end
      | None => POk [] s
      end
  end.

Definition parseIdentPath (fuel : nat) (s : string) : presult (list string) :=
  match parseIdent s with
  | Some (h, s1) =>
      match parseIdentTail fuel s1 with
      | POk l r => POk (h :: l) r
      | PFail => PFail
      | PFuel => PFuel
      end
  | None => PFail
  end.

Definition parseBareIdent (fuel : nat) (s : string) : presult Expr :=
  match parseIdentPath fuel s with
  | POk p r => POk (EIdent p) r
  | PFail => PFail
  | PFuel => PFuel
  end.

Definition parseHashIdent (fuel : nat) (s : string) : presult Expr :=
  match plit "#" s with
  | Some s1 => parseBareIdent fuel s1
  | None => PFail
  end.

Definition parseDollarIdent (fuel : nat) (s : string) : presult Expr :=
  match plit "${" s with
  | Some s1 =>
      match parseIdentPath fuel (parse_ws s1) with
      | POk p s2 =>
          match plit "}" (parse_ws s2) with
          | Some r => POk (EIdent p) r
          | None => PFail
          end
      | PFail => PFail
      | PFuel => PFuel
      end
  | None => PFail
  end.

(** Ordered choice. *)
Definition por {A} (r : presult A) (alt : unit → presult A) : presult A :=
  match r with PFail => alt tt | _ => r end.

Definition parseIdentifierExpr (fuel : nat) (s : string) : presult Expr :=
  por (parseDollarIdent fuel s) (λ _, por (parseHashIdent fuel s) (λ _, parseBareIdent fuel s)).

(** ** Literals *)

Definition digit_Z (c : ascii) : Z := Z.of_nat (Ascii.nat_of_ascii c) - 48.

Fixpoint digits_Z (acc : Z) (s : string) : Z :=
  match s with EmptyString => acc | String c s' => digits_Z (acc * 10 + digit_Z c) s' end.

Definition parse_digits (s : string) : option (string * string) :=
  match span is_digit s with
  | (EmptyString, _) => None
  | (ds, r) => Some (ds, r)
  end.

(** [sign:("-")?] *)
Definition parse_sign (s : string) : Z * string :=
  match plit "-" s with Some r => ((-1)%Z, r) | None => (1%Z, s) end.

Definition parseFloatLit (s : string) : presult Expr :=
  let '(sg, s1) := parse_sign s in
  match parse_digits s1 with
  | Some (ds, s2) =>
      match plit "." s2 with
      | Some s3 =>
          match parse_digits s3 with
          | Some (fs, r) => POk (ELit (LFloat (sg * digits_Z (digits_Z 0 ds) fs) (String.length fs))) r
          | None => PFail
          end
      | None => PFail
      end
  | None => PFail
  end.

Definition parseIntLit (s : string) : presult Expr :=
  let '(sg, s1) := parse_sign s in
  match parse_digits s1 with
  | Some (ds, r) => POk (ELit (LInt (sg * digits_Z 0 ds))) r
  | None => PFail
  end.

Definition parseBoolLit (s : string) : presult Expr :=
  match (match plit "true" s with
         | Some r => Some (true, r)
         | None => match plit "false" s with Some r => Some (false, r) | None => None end
         end) with
  | Some (b, r) => if not_ident_rest r then POk (ELit (LBool b)) r else PFail
  | None => PFail
  end.

Definition sq_char : ascii := chr 39.
Definition dq_char : ascii := chr 34.

Definition parse_quoted (q : ascii) (s : string) : presult Expr :=
  match plit (String q EmptyString) s with
  | Some s1 =>
      let '(chars, s2) := span (λ c, negb (Ascii.eqb c q)) s1 in
      match plit (String q EmptyString) s2 with
      | Some r => POk (ELit (LString chars)) r
      | None => PFail
      end
  | None => PFail
  end.

Definition parseStringLit (s : string) : presult Expr :=
  por (parse_quoted sq_char s) (λ _, parse_quoted dq_char s).

Definition parseLiteral (s : string) : presult Expr :=
  por (parseFloatLit s) (λ _, por (parseIntLit s) (λ _, por (parseBoolLit s) (λ _, parseStringLit s))).

(** ** Operators *)

(** The operators of the five infix levels; [in] builds a membership node. *)
Inductive Infix := IOp (op : BinaryOp) | IIn.

#[export] Instance Infix_eq_dec : EqDecision Infix.
Proof. solve_decision. Defined.

(** [mkBin], [mkMem] as [foldBin] and [foldRel] apply them. *)
Definition mk_infix (lhs : Expr) (t : Infix * Expr) : Expr :=
  match t.1 with IOp op => EBin op lhs t.2 | IIn => EMem lhs t.2 end.

Definition op_of (lit : string) (op : BinaryOp) (s : string) : option (Infix * string) :=
  match plit lit s with Some r => Some (IOp op, r) | None => None end.

Definition oor {A} (a : option A) (b : unit → option A) : option A :=
  match a with Some _ => a | None => b tt end.

Definition parseOrOp (s : string) := op_of "||" OpOr s.
Definition parseAndOp (s : string) := op_of "&&" OpAnd s.
Definition parseEqOp (s : string) := oor (op_of "==" OpEq s) (λ _, op_of "!=" OpNe s).
Definition parseRelOp (s : string) :=
  oor (op_of ">=" OpGe s) (λ _, oor (op_of "<=" OpLe s) (λ _, oor (op_of ">" OpGt s)
    (λ _, oor (op_of "<" OpLt s)
    (λ _, match plit "in" s with
          | Some r => if not_ident_rest r then Some (IIn, r) else None
          | None => None
          end)))).
Definition parseAddOp (s : string) := oor (op_of "+" OpAdd s) (λ _, op_of "-" OpSub s).
Definition parseMulOp (s : string) := oor (op_of "*" OpMul s) (λ _, op_of "/" OpDiv s).

(** The loop [(_ op _ operand)*]; a round that fails gives its position back. *)
Fixpoint infix_tail (op : string → option (Infix * string)) (operand : string → presult Expr)
    (fuel : nat) (s : string) : presult (list (Infix * Expr)) :=
  match fuel with
  | O => PFuel
  | S fuel =>
      match op (parse_ws s) with
      | Some (o, s1) =>
          match operand (parse_ws s1) with
          | POk e s2 =>
              match infix_tail op operand fuel s2 with
              | POk l r => POk ((o, e) :: l) r
              | PFail => PFail
              | PFuel => PFuel
              end
          | PFail => POk [] s
          | PFuel => PFuel
          end
      | None => POk [] s
      end
  end.

(** [head:operand tail:(_ op _ operand)* { return tail.reduce(...) }] *)
Definition infix_level (op : string → option (Infix * string)) (operand : string → presult Expr)
    (fuel : nat) (s : string) : presult Expr :=
  match operand s with
  | POk h s1 =>
      match infix_tail op operand fuel s1 with
      | POk l r => POk (fold_left mk_infix l h) r
      | PFail => PFail
      | PFuel => PFuel
      end
  | PFail => PFail
  | PFuel => PFuel
  end.

(** ** The recursive rules, over the parser [rec] for [OrExpr] *)

Section rules.
Context (rec : string → presult Expr).

Definition parseParenExpr (s : string) : presult Expr :=
  match plit "(" s with
  | Some s1 =>
      match rec (parse_ws s1) with
      | POk e s2 => match plit ")" (parse_ws s2) with Some r => POk e r | None => PFail end
      | PFail => PFail
      | PFuel => PFuel
      end
  | None => PFail
  end.

(** The tail [(_ "," _ OrExpr)*] of the argument list. *)
Fixpoint args_tail (fuel : nat) (s : string) : presult (list Expr) :=
  match fuel with
  | O => PFuel
  | S fuel =>
      match plit "," (parse_ws s) with
      | Some s1 =>
          match rec (parse_ws s1) with
          | POk e s2 =>
              match args_tail fuel s2 with
              | POk l r => POk (e :: l) r
              | PFail => PFail
              | PFuel => PFuel
              end
          | PFail => POk [] s
          | PFuel => PFuel
          end
      | None => POk [] s
      end
  end.

Definition parseArgs (fuel : nat) (s : string) : presult (list Expr) :=
  match rec s with
  | POk h s1 =>
      match args_tail fuel s1 with
      | POk l r => POk (h :: l) r
      | PFail => PFail
      | PFuel => PFuel
      end
  | PFail => POk [] (parse_ws s)
  | PFuel => PFuel
  end.

Definition parseCallFn (s : string) : option (CallFn * string) :=
  match (match plit "contains" s with
         | Some r => Some (FnContains, r)
         | None => match plit "len" s with Some r => Some (FnLen, r) | None => None end
         end) with
  | Some (fn, r) => if not_ident_rest r then Some (fn, r) else None
  | None => None
  end.

(** [contains(a, b)] is membership of [b] in [a]. *)
Definition mk_call (fn : CallFn) (args : list Expr) : Expr :=
  match fn, args with
  | FnContains, [a; b] => EMem b a
  | _, _ => ECall fn args
  end.

Definition parseCall (fuel : nat) (s : string) : presult Expr :=
  match parseCallFn s with
  | Some (fn, s1) =>
      match plit "(" (parse_ws s1) with
      | Some s2 =>
          match parseArgs fuel (parse_ws s2) with
          | POk args s3 =>
              match plit ")" (parse_ws s3) with
              | Some r => POk (mk_call fn args) r
              | None => PFail
              end
          | PFail => PFail
          | PFuel => PFuel
          end
      | None => PFail
      end
  | None => PFail
  end.

Definition parsePrimary (fuel : nat) (s : string) : presult Expr :=
  por (parseCall fuel s) (λ _, por (parseParenExpr s)
    (λ _, por (parseLiteral s) (λ _, parseIdentifierExpr fuel s))).

(** [loop] is the fuel of the loops, [fuel] the depth of [!]. *)
Fixpoint parseUnaryExpr (loop fuel : nat) (s : string) : presult Expr :=
  match fuel with
  | O => PFuel
  | S fuel =>
      por (match plit "!" s with
           | Some s1 =>
               match parseUnaryExpr loop fuel (parse_ws s1) with
               | POk e r => POk (ENot e) r
               | PFail => PFail
               | PFuel => PFuel
               end
           | None => PFail
           end)
          (λ _, parsePrimary loop s)
  end.

Definition parseMulExpr (fuel : nat) := infix_level parseMulOp (parseUnaryExpr fuel fuel) fuel.
Definition parseAddExpr (fuel : nat) := infix_level parseAddOp (parseMulExpr fuel) fuel.
Definition parseRelExpr (fuel : nat) := infix_level parseRelOp (parseAddExpr fuel) fuel.
Definition parseEqExpr (fuel : nat) := infix_level parseEqOp (parseRelExpr fuel) fuel.
Definition parseAndExpr (fuel : nat) := infix_level parseAndOp (parseEqExpr fuel) fuel.
Definition orExpr (fuel : nat) := infix_level parseOrOp (parseAndExpr fuel) fuel.
End rules.

(** ** The parser *)

Fixpoint parseOrExpr (fuel : nat) (s : string) : presult Expr :=
  match fuel with
  | O => PFuel
  | S n => orExpr (parseOrExpr n) (S n) s
  end.

Definition parseStart (fuel : nat) (s : string) : presult Expr :=
  match parseOrExpr fuel (parse_ws s) with
  | POk e s1 => POk e (parse_ws s1)
  | PFail => PFail
  | PFuel => PFuel
  end.

(** [generated.parse]: [None] is the thrown [SyntaxError].  The fuel is one more
    than the length of the input, which no parse exhausts. *)
Definition peg_parse (input : string) : option Expr :=
  match parseStart (S (String.length input)) input with
  | POk e r => if String.eqb r EmptyString then Some e else None
  | PFail | PFuel => None
  end.
