(* ===== verification/PegFuel.v ===== *)
(** * The expression parser terminates

    Every parser of [Peg] called with more fuel than its input has characters
    returns, consumes input when it succeeds, and gives the same answer for
    every such fuel.  [lvl k] names the eight levels of the grammar, from
    [OrExpr] (0) to [Primary] (7). *)

From S2P Require Import Prelude Expr Peg.

Abbreviation slen := String.length.

(** ** Progress *)

(** [p] returns on inputs shorter than [n] and consumes something when it succeeds. *)
Definition good {A} (n : nat) (p : string → presult A) : Prop :=
  ∀ s, slen s < n → match p s with PFuel => False | PFail => True | POk _ r => slen r < slen s end.

(** The same for a loop, which may consume nothing and never fails. *)
Definition good_tail {A} (n : nat) (p : string → presult A) : Prop :=
  ∀ s, slen s < n → match p s with POk _ r => slen r ≤ slen s | _ => False end.

Definition shrinks {A} (p : string → option (A * string)) : Prop :=
  ∀ s a r, p s = Some (a, r) → slen r < slen s.

Lemma plit_len lit s r : plit lit s = Some r → slen s = slen lit + slen r.
Proof.
  revert s. induction lit as [|c lit IH]; intros [|c' s]; simpl; intros; simplify_eq; try done.
  destruct (Ascii.eqb c c'); [|done]. f_equal. by apply IH.
Qed.

#[local] Arguments plit : simpl never.

Lemma span_len f s : slen (span f s).1 + slen (span f s).2 = slen s.
Proof.
  induction s as [|c s IH]; simpl; [done|]. destruct (f c); [|done].
  destruct (span f s). simpl in *. lia.
Qed.

Lemma parse_ws_len s : slen (parse_ws s) ≤ slen s.
Proof. unfold parse_ws. pose proof (span_len is_ws s). lia. Qed.

Lemma parseIdent_len s i r : parseIdent s = Some (i, r) → slen r < slen s.
Proof.
  unfold parseIdent, pclass. destruct s as [|c s]; [done|]. destruct (is_ident_start c); [|done].
  pose proof (span_len is_ident_rest s). destruct (span is_ident_rest s). intros [= <- <-].
  simpl in *. lia.
Qed.

Lemma parse_digits_len s d r : parse_digits s = Some (d, r) → slen r < slen s.
Proof.
  unfold parse_digits. pose proof (span_len is_digit s) as H.
  destruct (span is_digit s) as [[|c t] r']; [done|]. intros [= <- <-]. simpl in *. lia.
Qed.

Lemma parse_sign_len s : slen (parse_sign s).2 ≤ slen s.
Proof. unfold parse_sign. destruct (plit "-" s) eqn:E; [|done]. apply plit_len in E. simpl in *. lia. Qed.

(** Case split on the next parser call of the goal, keeping what it consumed. *)
Ltac pstep :=
  match goal with
  | |- context [match plit ?l ?s with _ => _ end] =>
      let E := fresh "E" in destruct (plit l s) eqn:E; [apply plit_len in E; simpl in E|]
  | |- context [match parseIdent ?s with _ => _ end] =>
      let E := fresh "E" in destruct (parseIdent s) as [[? ?]|] eqn:E; [apply parseIdent_len in E|]
  | |- context [match parse_digits ?s with _ => _ end] =>
      let E := fresh "E" in destruct (parse_digits s) as [[? ?]|] eqn:E; [apply parse_digits_len in E|]
  end.

Lemma parseIdentTail_good n : good_tail n (parseIdentTail n).
Proof.
  induction n as [|n IH]; intros s Hs; [lia|]. simpl. pstep; [|done]. pstep; [|done].
  match goal with |- context [parseIdentTail n ?x] => specialize (IH x ltac:(lia)) end.
  destruct (parseIdentTail n _); done || lia.
Qed.

Lemma parseIdentPath_good n : good n (parseIdentPath n).
Proof.
  intros s Hs. unfold parseIdentPath. pstep; [|done].
  match goal with |- context [parseIdentTail n ?x] => pose proof (parseIdentTail_good n x ltac:(lia)) end.
  destruct (parseIdentTail n _); done || lia.
Qed.

Lemma parseIdentifierExpr_good n : good n (parseIdentifierExpr n).
Proof.
  assert (∀ s, slen s < n → match parseBareIdent n s with
    PFuel => False | PFail => True | POk _ r => slen r < slen s end) as Hb.
  { intros s Hs. unfold parseBareIdent. pose proof (parseIdentPath_good n s Hs).
    destruct (parseIdentPath n s); done || lia. }
  intros s Hs. unfold parseIdentifierExpr, por.
  assert (match parseDollarIdent n s with
    PFuel => False | PFail => True | POk _ r => slen r < slen s end) as Hd.
  { unfold parseDollarIdent. pstep; [|done]. rename s0 into s1. pose proof (parse_ws_len s1).
    pose proof (parseIdentPath_good n (parse_ws s1) ltac:(lia)).
    destruct (parseIdentPath n (parse_ws s1)) as [|p s2|]; [done| |done].
    pose proof (parse_ws_len s2). pstep; [|done]. lia. }
  assert (match parseHashIdent n s with
    PFuel => False | PFail => True | POk _ r => slen r < slen s end) as Hh.
  { unfold parseHashIdent. pstep; [|done]. specialize (Hb s0 ltac:(lia)).
    destruct (parseBareIdent n s0); done || lia. }
  destruct (parseDollarIdent n s); try done. destruct (parseHashIdent n s); try done. by apply Hb.
Qed.

Lemma parse_quoted_len q s e r : parse_quoted q s = POk e r → slen r < slen s.
Proof.
  unfold parse_quoted. pstep; [|done]. rename s0 into s1.
  pose proof (span_len (λ c, negb (Ascii.eqb c q)) s1) as Hs.
  destruct (span _ s1) as [t s2]. pstep; [|done]. intros [= <- <-]. simpl in *. lia.
Qed.

Lemma parseLiteral_good n : good n parseLiteral.
Proof.
  intros s _. unfold parseLiteral, por.
  pose proof (parse_sign_len s) as Hsg.
  destruct (parseFloatLit s) eqn:E1.
  - destruct (parseIntLit s) eqn:E2.
    + destruct (parseBoolLit s) eqn:E3.
      * unfold parseStringLit, por. destruct (parse_quoted sq_char s) eqn:E4.
        -- destruct (parse_quoted dq_char s) eqn:E5; [done| |].
           ++ by eapply parse_quoted_len.
           ++ revert E5. unfold parse_quoted. by repeat case_goal.
        -- by eapply parse_quoted_len.
        -- revert E4. unfold parse_quoted. by repeat case_goal.
      * revert E3. unfold parseBoolLit. repeat pstep; try done; case_goal; intros; simplify_eq; lia.
      * revert E3. unfold parseBoolLit. by repeat case_goal.
    + revert E2. unfold parseIntLit. destruct (parse_sign s) as [sg s1]. simpl in *.
      pstep; [|done]. intros; simplify_eq; lia.
    + revert E2. unfold parseIntLit. destruct (parse_sign s). by repeat case_goal.
  - revert E1. unfold parseFloatLit. destruct (parse_sign s) as [sg s1]. simpl in *.
    repeat (pstep; [|done]). intros; simplify_eq; lia.
  - revert E1. unfold parseFloatLit. destruct (parse_sign s). by repeat case_goal.
Qed.

(** ** The levels *)

Definition op_parser (k : nat) : string → option (Infix * string) :=
  match k with
  | 0 => parseOrOp | 1 => parseAndOp | 2 => parseEqOp | 3 => parseRelOp | 4 => parseAddOp
  | _ => parseMulOp
  end.

(** The rule of level [k] as a call with fuel [n] runs it. *)
Definition lvl (k n : nat) : string → presult Expr :=
  let rec := parseOrExpr (pred n) in
  match k with
  | 0 => orExpr rec n
  | 1 => parseAndExpr rec n
  | 2 => parseEqExpr rec n
  | 3 => parseRelExpr rec n
  | 4 => parseAddExpr rec n
  | 5 => parseMulExpr rec n
  | 6 => parseUnaryExpr rec n n
  | _ => parsePrimary rec n
  end.

Lemma lvl_infix k n : k < 6 → lvl k n = infix_level (op_parser k) (lvl (S k) n) n.
Proof. intros. do 6 (destruct k as [|k]; [done|]). lia. Qed.

Lemma op_of_shrinks lit op : lit ≠ EmptyString → shrinks (op_of lit op).
Proof.
  intros Hl s a r. unfold op_of. pstep; [|done]. intros [= <- <-].
  destruct lit; simpl in *; [done|lia].
Qed.

Lemma oor_shrinks {A} (p q : string → option (A * string)) :
  shrinks p → shrinks q → shrinks (λ s, oor (p s) (λ _, q s)).
Proof.
  intros Hp Hq s a r. unfold oor. destruct (p s) as [x|] eqn:E; intros H; [|by apply (Hq s a)].
  apply (Hp s a). by rewrite E.
Qed.

Lemma op_parser_shrinks k : shrinks (op_parser k).
Proof.
  assert (shrinks parseRelOp) as Hrel.
  { repeat (apply oor_shrinks; [by apply op_of_shrinks|]).
    intros s a r. pstep; [|done]. case_goal; [|done]. intros [= <- <-]. lia. }
  destruct k as [|[|[|[|[|k]]]]]; simpl; try done;
    try (apply oor_shrinks); by apply op_of_shrinks.
Qed.

Lemma infix_tail_good op p n m :
  shrinks op → good n p → n ≤ m → good_tail n (infix_tail op p m).
Proof.
  intros Hop Hp Hm s. revert s m Hm. 
  assert (∀ m s, slen s < m → slen s < n →
    match infix_tail op p m s with POk _ r => slen r ≤ slen s | _ => False end) as H; [|intros; apply H; lia].
  induction m as [|m IH]; intros s Hs Hn; [lia|]. simpl. pose proof (parse_ws_len s).
  destruct (op (parse_ws s)) as [[o s1]|] eqn:Eo; [|done]. apply Hop in Eo.
  pose proof (parse_ws_len s1). specialize (Hp (parse_ws s1) ltac:(lia)).
  destruct (p (parse_ws s1)) as [|e s2|]; [done| |done].
  specialize (IH s2 ltac:(lia) ltac:(lia)). destruct (infix_tail op p m s2); done || lia.
Qed.

Lemma infix_level_good op p n : shrinks op → good n p → good n (infix_level op p n).
Proof.
  intros Hop Hp s Hs. unfold infix_level. pose proof (Hp s Hs) as H.
  destruct (p s) as [|h s1|]; [done| |done].
  pose proof (infix_tail_good op p n n Hop Hp ltac:(lia) s1 ltac:(lia)) as Ht.
  destruct (infix_tail op p n s1); [done|lia|done].
Qed.

Section primary_good.
Context (n : nat) (rec : string → presult Expr) (Hrec : good n rec).

Lemma parseParenExpr_good : good (S n) (parseParenExpr rec).
Proof.
  intros s Hs. unfold parseParenExpr. pstep; [|done]. pose proof (parse_ws_len s0).
  specialize (Hrec (parse_ws s0) ltac:(lia)). destruct (rec (parse_ws s0)) as [|e s2|]; [done| |done].
  pose proof (parse_ws_len s2). pstep; [lia|done].
Qed.

Lemma args_tail_good m s :
  slen s < m → slen s ≤ n → match args_tail rec m s with POk _ r => slen r ≤ slen s | _ => False end.
Proof.
  revert s. induction m as [|m IH]; intros s Hs Hn; [lia|]. simpl. pose proof (parse_ws_len s).
  pstep; [|done]. pose proof (parse_ws_len s0). pose proof (Hrec (parse_ws s0) ltac:(lia)) as H2.
  destruct (rec (parse_ws s0)) as [|e s2|]; [done| |done].
  specialize (IH s2 ltac:(lia) ltac:(lia)). destruct (args_tail rec m s2); done || lia.
Qed.

Lemma parseArgs_good s :
  slen s < n → match parseArgs rec (S n) s with POk _ r => slen r ≤ slen s | _ => False end.
Proof.
  intros Hs. unfold parseArgs. pose proof (Hrec s Hs) as H. pose proof (parse_ws_len s).
  destruct (rec s) as [|h s1|]; [lia| |done].
  pose proof (args_tail_good (S n) s1 ltac:(lia) ltac:(lia)).
  destruct (args_tail rec (S n) s1); done || lia.
Qed.

Lemma parseCall_good : good (S n) (parseCall rec (S n)).
Proof.
  intros s Hs. unfold parseCall.
  assert (∀ fn r, parseCallFn s = Some (fn, r) → slen r < slen s) as Hfn.
  { intros fn r. unfold parseCallFn. repeat pstep; try done; case_goal; intros; simplify_eq; lia. }
  destruct (parseCallFn s) as [[fn s1]|]; [|done]. specialize (Hfn _ _ eq_refl).
  pose proof (parse_ws_len s1). pstep; [|done]. rename s0 into s2. pose proof (parse_ws_len s2).
  pose proof (parseArgs_good (parse_ws s2) ltac:(lia)) as Ha.
  destruct (parseArgs rec (S n) (parse_ws s2)) as [|args s3|]; [done| |done].
  pose proof (parse_ws_len s3). pstep; [lia|done].
Qed.

Lemma parsePrimary_good : good (S n) (parsePrimary rec (S n)).
Proof.
  intros s Hs. unfold parsePrimary, por.
  pose proof (parseCall_good s Hs). pose proof (parseParenExpr_good s Hs).
  pose proof (parseLiteral_good (S n) s Hs). pose proof (parseIdentifierExpr_good (S n) s Hs).
  destruct (parseCall _ _ s); try done. destruct (parseParenExpr _ s); try done.
  by destruct (parseLiteral s).
Qed.

Lemma parseUnaryExpr_good : good (S n) (parseUnaryExpr rec (S n) (S n)).
Proof.
  assert (∀ m s, slen s < m → slen s < S n → match parseUnaryExpr rec (S n) m s with
    PFuel => False | PFail => True | POk _ r => slen r < slen s end) as H; [|intros s Hs; by apply H].
  induction m as [|m IH]; intros s Hs Hn; [lia|]. cbn [parseUnaryExpr].
  pose proof (parsePrimary_good s Hn) as Hp. pstep; [|done]. pose proof (parse_ws_len s0).
  specialize (IH (parse_ws s0) ltac:(lia) ltac:(lia)).
  destruct (parseUnaryExpr rec (S n) m (parse_ws s0)); simpl; try done. lia.
Qed.
End primary_good.

Lemma lvl_good_step k n : good n (parseOrExpr n) → good (S n) (lvl k (S n)).
Proof.
  intros Hrec. destruct (decide (7 ≤ k)) as [Hk|Hk].
  { do 7 (destruct k as [|k]; [lia|]). by apply parsePrimary_good. }
  assert (∀ j, good (S n) (lvl (6 - j) (S n))) as H.
  { induction j as [|j IH]; [by apply parseUnaryExpr_good|].
    destruct (decide (j < 6)) as [Hj|Hj].
    - rewrite lvl_infix by lia. replace (S (6 - S j)) with (6 - j) by lia.
      apply infix_level_good; [apply op_parser_shrinks|done].
    - replace (6 - S j) with (6 - j) by lia. done. }
  replace k with (6 - (6 - k)) by lia. apply H.
Qed.

Lemma parseOrExpr_good n : good n (parseOrExpr n).
Proof. induction n as [|n IH]; [intros s Hs; lia|]. exact (lvl_good_step 0 n IH). Qed.

Lemma lvl_good k n : good n (lvl k n).
Proof. destruct n as [|n]; [intros s Hs; lia|]. apply lvl_good_step, parseOrExpr_good. Qed.

(** ** More fuel gives the same answer *)

(** [r] is [r'] or has run out of fuel. *)
Definition ple {A} (r r' : presult A) : Prop := r = PFuel ∨ r = r'.

Definition fle {A} (p p' : string → presult A) : Prop := ∀ s, ple (p s) (p' s).

Lemma ple_refl {A} (r : presult A) : ple r r.
Proof. by right. Qed.

#[local] Hint Resolve ple_refl : core.

(** Replace a call by its larger-fuel twin, or be done because it ran out. *)
Ltac mono H := destruct H as [H|H]; rewrite H; [by left|].

Lemma parseIdentTail_mono n m : n ≤ m → fle (parseIdentTail n) (parseIdentTail m).
Proof.
  revert m. induction n as [|n IH]; intros m Hm s; [by left|]. destruct m as [|m]; [lia|]. simpl.
  case_goal; [|done]. case_goal; [|done]. destruct p as [i s2].
  pose proof (IH m ltac:(lia) s2) as H. mono H. done.
Qed.

Lemma parseIdentifierExpr_mono n m : n ≤ m → fle (parseIdentifierExpr n) (parseIdentifierExpr m).
Proof.
  intros Hm.
  assert (fle (parseIdentPath n) (parseIdentPath m)) as Hp.
  { intros s. unfold parseIdentPath. case_goal; [|done]. destruct p as [i s2].
    pose proof (parseIdentTail_mono n m Hm s2) as H. mono H. done. }
  assert (fle (parseBareIdent n) (parseBareIdent m)) as Hb.
  { intros s. unfold parseBareIdent. pose proof (Hp s) as H. mono H. done. }
  intros s. unfold parseIdentifierExpr.
  assert (ple (parseDollarIdent n s) (parseDollarIdent m s)) as H.
  { unfold parseDollarIdent. case_goal; [|done]. pose proof (Hp (parse_ws s0)) as H. mono H. done. }
  mono H. assert (ple (parseHashIdent n s) (parseHashIdent m s)) as H'.
  { unfold parseHashIdent. case_goal; [apply Hb|done]. }
  destruct (parseDollarIdent m s); simpl; try done. mono H'.
  destruct (parseHashIdent m s); simpl; auto.
Qed.

Lemma infix_tail_mono op p p' n m : fle p p' → n ≤ m → fle (infix_tail op p n) (infix_tail op p' m).
Proof.
  intros Hp. revert m. induction n as [|n IH]; intros m Hm s; [by left|]. destruct m as [|m]; [lia|]. simpl.
  case_goal; [|done]. destruct p0 as [o s1]. pose proof (Hp (parse_ws s1)) as H. mono H.
  destruct (p' (parse_ws s1)) as [|e s2|]; [done| |done]. pose proof (IH m ltac:(lia) s2) as H2. by mono H2.
Qed.

Lemma infix_level_mono op p p' n m : fle p p' → n ≤ m → fle (infix_level op p n) (infix_level op p' m).
Proof.
  intros Hp Hm s. unfold infix_level. pose proof (Hp s) as H. mono H.
  destruct (p' s) as [|h s1|]; [done| |done].
  pose proof (infix_tail_mono op p p' n m Hp Hm s1) as H1. by mono H1.
Qed.

Section primary_mono.
Context (rec rec' : string → presult Expr) (Hrec : fle rec rec') (n m : nat) (Hm : n ≤ m).

Lemma args_tail_mono i j : i ≤ j → fle (args_tail rec i) (args_tail rec' j).
Proof.
  revert j. induction i as [|i IH]; intros j Hj s; [by left|]. destruct j as [|j]; [lia|]. simpl.
  case_goal; [|done]. pose proof (Hrec (parse_ws s0)) as H. mono H.
  destruct (rec' (parse_ws s0)) as [|e s2|]; [done| |done].
  pose proof (IH j ltac:(lia) s2) as H2. by mono H2.
Qed.

Lemma parseCall_mono : fle (parseCall rec n) (parseCall rec' m).
Proof.
  intros s. unfold parseCall. case_goal; [|done]. destruct p as [fn s1]. case_goal; [|done].
  assert (ple (parseArgs rec n (parse_ws s0)) (parseArgs rec' m (parse_ws s0))) as H.
  { unfold parseArgs. pose proof (Hrec (parse_ws s0)) as H. mono H.
    destruct (rec' (parse_ws s0)) as [|h s2|]; [done| |done].
    pose proof (args_tail_mono n m Hm s2) as H1. by mono H1. }
  by mono H.
Qed.

Lemma parsePrimary_mono : fle (parsePrimary rec n) (parsePrimary rec' m).
Proof.
  intros s. unfold parsePrimary. pose proof (parseCall_mono s) as H. mono H.
  destruct (parseCall rec' m s); simpl; try done.
  assert (ple (parseParenExpr rec s) (parseParenExpr rec' s)) as H2.
  { unfold parseParenExpr. case_goal; [|done]. pose proof (Hrec (parse_ws s0)) as H3. by mono H3. }
  mono H2. destruct (parseParenExpr rec' s); simpl; try done.
  destruct (parseLiteral s); simpl; try done. by apply parseIdentifierExpr_mono.
Qed.

Lemma parseUnaryExpr_mono i j : i ≤ j → fle (parseUnaryExpr rec n i) (parseUnaryExpr rec' m j).
Proof.
  revert j. induction i as [|i IH]; intros j Hj s; [by left|]. destruct j as [|j]; [lia|].
  cbn [parseUnaryExpr]. case_goal; [|apply parsePrimary_mono].
  pose proof (IH j ltac:(lia) (parse_ws s0)) as H. mono H.
  destruct (parseUnaryExpr rec' m j _); simpl; try done. apply parsePrimary_mono.
Qed.
End primary_mono.

Lemma lvl_mono_step k n m :
  fle (parseOrExpr (pred n)) (parseOrExpr (pred m)) → n ≤ m → fle (lvl k n) (lvl k m).
Proof.
  intros Hrec Hm. destruct (decide (7 ≤ k)) as [Hk|Hk].
  { do 7 (destruct k as [|k]; [lia|]). by apply parsePrimary_mono. }
  assert (∀ j, fle (lvl (6 - j) n) (lvl (6 - j) m)) as H.
  { induction j as [|j IH]; [by apply parseUnaryExpr_mono|].
    destruct (decide (j < 6)) as [Hj|Hj].
    - rewrite (lvl_infix (6 - S j) n), (lvl_infix (6 - S j) m) by lia. replace (S (6 - S j)) with (6 - j) by lia. by apply infix_level_mono.
    - replace (6 - S j) with (6 - j) by lia. done. }
  replace k with (6 - (6 - k)) by lia. apply H.
Qed.

Lemma parseOrExpr_mono n m : n ≤ m → fle (parseOrExpr n) (parseOrExpr m).
Proof.
  revert m. induction n as [|n IH]; intros m Hm s; [by left|]. destruct m as [|m]; [lia|].
  apply (lvl_mono_step 0 (S n) (S m)); [|lia]. apply IH. lia.
Qed.

(** With more fuel than characters the fuel does not matter. *)
Lemma lvl_stable k n m s : slen s < n → slen s < m → lvl k n s = lvl k m s.
Proof.
  assert (∀ n m, slen s < n → n ≤ m → lvl k n s = lvl k m s) as H.
  { clear n m. intros n m Hn Hm. pose proof (lvl_good k n s Hn) as Hg.
    destruct (lvl_mono_step k n m (parseOrExpr_mono (pred n) (pred m) ltac:(lia)) Hm s) as [H|H]; [|done].
    by rewrite H in Hg. }
  intros Hn Hm. destruct (decide (n ≤ m)); [auto|symmetry; apply H; lia].
Qed.

Lemma infix_tail_stable k n n' i j s :
  slen s < n → slen s < n' → slen s < i → slen s < j →
  infix_tail (op_parser k) (lvl (S k) n) i s = infix_tail (op_parser k) (lvl (S k) n') j s.
Proof.
  intros. set (N := n + n' + i + j).
  assert (∀ a b, slen s < a → slen s < b → a ≤ N → b ≤ N →
    infix_tail (op_parser k) (lvl (S k) a) b s = infix_tail (op_parser k) (lvl (S k) N) N s) as H'.
  { intros a b Ha Hb HaN HbN.
    assert (good (min a b) (lvl (S k) a)) as Hg by (intros t Ht; apply lvl_good; lia).
    pose proof (infix_tail_good (op_parser k) _ _ b (op_parser_shrinks k) Hg ltac:(lia) s ltac:(lia)) as Ht.
    destruct (infix_tail_mono (op_parser k) (lvl (S k) a) (lvl (S k) N) b N) with (s := s) as [E|E];
      [|done| |done].
    - apply lvl_mono_step; [apply parseOrExpr_mono; lia|done].
    - by rewrite E in Ht. }
  rewrite H' by lia. symmetry. apply H'; lia.
Qed.

(** ** Properties *)

(** C30: the expression parser always terminates: on every input the fuel
    [length + 1] is enough for every rule, so [None] means that the input is
    rejected, never that the search was cut off. *)
Theorem peg_parse_total input :
  parseStart (S (String.length input)) input ≠ PFuel ∧
  ∀ fuel, String.length input < fuel → parseStart fuel input = parseStart (S (String.length input)) input.
Proof.
  unfold parseStart. pose proof (parse_ws_len input) as Hw.
  split.
  - pose proof (parseOrExpr_good (S (slen input)) (parse_ws input) ltac:(lia)) as H.
    by destruct (parseOrExpr _ (parse_ws input)).
  - intros [|n] Hn; [lia|].
    change (parseOrExpr (S n) (parse_ws input)) with (lvl 0 (S n) (parse_ws input)).
    change (parseOrExpr (S (slen input)) (parse_ws input)) with (lvl 0 (S (slen input)) (parse_ws input)).
    by rewrite (lvl_stable 0 (S n) (S (slen input))) by lia.
Qed.
