(* ===== verification/Lint.v ===== *)
(** * Expression lint (workflow-modeller/src/domain/expression/lint.ts, parser.ts)

    [peg_message source] stands for the text of the [SyntaxError] the generated
    parser throws on [source]; only messages of diagnostics depend on it, and
    PegError.v defines it. *)

From S2P Require Import Prelude JsObject Types Expr Peg.

Record LintContext := mkLintContext {
  lc_nodeId : option string;
  lc_field : option string;
  lc_branchKey : option string
}.

(** [{ code, severity, message, ...ctx }] *)
Definition lint_diag (code : DiagnosticCode) (sev : Severity) (msg : string) (ctx : LintContext) :
    Diagnostic :=
  mkDiag code sev msg (lc_nodeId ctx) (lc_field ctx) (lc_branchKey ctx) None None None.

(** [path.split('.', 1)[0]] *)
Fixpoint path_root (path : string) : string :=
  match path with
  | EmptyString => EmptyString
  | String c s => if Ascii.eqb c "." then EmptyString else String c (path_root s)
  end.

(** The loop over [collectIdentifiers(ast)] with its [seen] set. *)
Fixpoint unknown_roots (knownVars seen : list string) (paths : list string) : list string :=
  match paths with
  | [] => []
  | path :: paths =>
      let root := path_root path in
      if (includes knownVars root || includes seen root)%bool then unknown_roots knownVars seen paths
      else root :: unknown_roots knownVars (root :: seen) paths
  end.

Section lint.
Context (peg_message : string → string).

(** [parseExpression]: the AST, or the message of the error. *)
Definition parseExpression (source : string) : Expr + string :=
  match peg_parse source with
  | Some ast => inl ast
  | None => inr (peg_message source)
  end.

Definition lintDecisionExpression (source : string) (knownVars : list string) (ctx : LintContext) :
    list Diagnostic :=
  match parseExpression source with
  | inr message => [lint_diag DECISION_EXPR_SYNTAX SevError ("Parse error: " ⊕ message) ctx]
  | inl ast =>
      (if topLevelLikelyBoolean ast then []
       else [lint_diag DECISION_EXPR_NON_BOOLEAN SevError
               "Decision expression must resolve to a boolean." ctx]) ++
      (if Nat.ltb 0 (length knownVars) then
         (λ root, lint_diag DECISION_EXPR_UNKNOWN_IDENT SevWarning
                    ("Identifier " ⊕ quoted root ⊕ " is not produced by any TRANSFORMATION step.") ctx)
         <$> unknown_roots knownVars [] (collectIdentifiers ast)
       else [])
  end.

Definition lintTransformationExpression (source : string) (ctx : LintContext) : list Diagnostic :=
  match unwrapTransformationExpression source with
  | None => []
  | Some inner =>
      match parseExpression inner with
      | inr message => [lint_diag TRANSFORMATION_EXPR_SYNTAX SevError ("Parse error: " ⊕ message) ctx]
      | inl _ => []
      end
  end.

(** ** Lemmas *)

(** An expression that is fit for a decision: it parses and may be boolean. *)
Definition decision_expr_ok (source : string) : bool :=
  match peg_parse source with Some ast => topLevelLikelyBoolean ast | None => false end.

(** A transformation value that is a literal or an expression that parses. *)
Definition transformation_value_ok (source : string) : bool :=
  match unwrapTransformationExpression source with
  | None => true
  | Some inner => match peg_parse inner with Some _ => true | None => false end
  end.

(** The lint reports an error exactly on an expression unfit for a decision. *)
Lemma lintDecision_error_free source vars ctx :
  error_free (lintDecisionExpression source vars ctx) = decision_expr_ok source.
Proof.
  unfold lintDecisionExpression, parseExpression, decision_expr_ok.
  destruct (peg_parse source) as [ast|]; [|done]. rewrite error_free_app.
  replace (error_free (if Nat.ltb 0 _ then _ else _)) with true.
  - destruct (topLevelLikelyBoolean ast); done.
  - destruct (Nat.ltb _ _); [|done]. symmetry. apply error_free_true.
    intros d (r & -> & _)%list_elem_of_fmap. done.
Qed.

Lemma lintTransformation_error_free source ctx :
  error_free (lintTransformationExpression source ctx) = transformation_value_ok source.
Proof.
  unfold lintTransformationExpression, parseExpression, transformation_value_ok.
  destruct (unwrapTransformationExpression source) as [e|]; [|done]. by destruct (peg_parse e).
Qed.
End lint.
