(* ===== verification/PegError.v ===== *)
(** * Syntax errors of expressions
    (workflow-modeller/src/domain/expression/parser.generated.ts, parser.ts)

    The parser of Peg.v with the state the generated code keeps for its errors:
    the furthest position at which something was expected, what was expected
    there, and the depth of the silent parts ([peg$maxFailPos],
    [peg$maxFailExpected], [peg$silentFails]); from it the text and the location
    of the [SyntaxError], and what [parseExpression] answers.  A parser runs on
    the rest of the input; the position is what has been consumed.  The position
    details keep their cache. *)

From stdpp Require Import sorting.
From S2P Require Import Prelude Expr Peg PegFuel Types JsObject Lint.

#[local] Arguments String.append !_ _ / : simpl nomatch.

(** ** Expectations *)

Inductive ClassPart := Single (c : ascii) | Range (from to : ascii).

Inductive Expectation :=
| XLiteral (text : string)
| XClass (parts : list ClassPart) (inverted : bool)
| XEnd
| XOther (description : string).

(** The classes of the grammar. *)
Definition e_add : Expectation := XClass [Single "+"; Single "-"] false.
Definition e_mul : Expectation := XClass [Single "*"; Single "/"] false.
Definition e_digit : Expectation := XClass [Range "0" "9"] false.
Definition e_not (q : ascii) : Expectation := XClass [Single q] true.
Definition e_ident_start : Expectation := XClass [Range "a" "z"; Range "A" "Z"; Single "_"] false.
Definition e_ident_rest : Expectation := XClass [Range "a" "z"; Range "A" "Z"; Range "0" "9"; Single "_"] false.
Definition e_space : Expectation := XClass [Single " "; Single (chr 9); Single (chr 10); Single (chr 13)] false.
Definition e_whitespace : Expectation := XOther "whitespace".

(** ** The state *)

(** [peg$maxFailPos] and [peg$maxFailExpected] *)
Definition Log : Type := nat * list Expectation.

(** A rule: given [peg$silentFails], the state and the rest of the input. *)
Definition parser (A : Type) : Type := nat → Log → string → presult A * Log.

Section run.
Context (input : string).

(** [peg$currPos] *)
Definition currPos (s : string) : nat := String.length input - String.length s.

Definition peg_fail (e : Expectation) (s : string) (l : Log) : Log :=
  if Nat.ltb (currPos s) l.1 then l
  else if Nat.ltb l.1 (currPos s) then (currPos s, [e]) else (l.1, l.2 ++ [e]).

(** [if (peg$silentFails === 0) { peg$fail(e); }] *)
Definition note (silent : nat) (e : Expectation) (s : string) (l : Log) : Log :=
  match silent with O => peg_fail e s l | S _ => l end.

(** ** Combinators *)

Definition pret {A} (a : A) : parser A := λ _ l s, (POk a s, l).

Definition pbind {A B} (m : parser A) (k : A → parser B) : parser B := λ sf l s,
  match m sf l s with
  | (POk a r, l') => k a sf l' r
  | (PFail, l') => (PFail, l')
  | (PFuel, l') => (PFuel, l')
  end.

(** Ordered choice. *)
Definition palt {A} (m n : parser A) : parser A := λ sf l s,
  match m sf l s with
  | (PFail, l') => n sf l' s
  | other => other
  end.

(** A token: what it reads, or a noted failure. *)
Definition tok {A} (e : Expectation) (t : string → option (A * string)) : parser A := λ sf l s,
  match t s with
  | Some (a, r) => (POk a r, l)
  | None => (PFail, note sf e s l)
  end.

Definition lit (text : string) : parser () :=
  tok (XLiteral text) (λ s, (λ r, (tt, r)) <$> plit text s).

(** The loop over a class: the failure that ends it is noted. *)
Fixpoint class_loop (e : Expectation) (f : ascii → bool) (sf : nat) (l : Log) (s : string) : string * string * Log :=
  match s with
  | String c s' =>
      if f c then let '(t, r, l') := class_loop e f sf l s' in (String c t, r, l') else (EmptyString, s, note sf e s l)
  | EmptyString => (EmptyString, EmptyString, note sf e EmptyString l)
  end.

Definition many_class (e : Expectation) (f : ascii → bool) : parser string := λ sf l s,
  let '(t, r, l') := class_loop e f sf l s in (POk t r, l').

Definition some_class (e : Expectation) (f : ascii → bool) : parser string := λ sf l s,
  match class_loop e f sf l s with
  | (EmptyString, _, l') => (PFail, l')
  | (t, r, l') => (POk t r, l')
  end.

(** [!rule] *)
Definition pnot {A} (m : parser A) : parser () := λ sf l s,
  match m (S sf) l s with
  | (PFail, l') => (POk tt s, l')
  | (POk _ _, l') => (PFail, l')
  | (PFuel, l') => (PFuel, l')
  end.

(** [rule?] *)
Definition popt {A} (m : parser A) : parser (option A) := λ sf l s,
  match m sf l s with
  | (POk a r, l') => (POk (Some a) r, l')
  | (PFail, l') => (POk None s, l')
  | (PFuel, l') => (PFuel, l')
  end.

(** [(rule)*] *)
Fixpoint pmany {A} (m : parser A) (fuel : nat) : parser (list A) :=
  match fuel with
  | O => λ _ l _, (PFuel, l)
  | S fuel => λ sf l s,
      match m sf l s with
      | (POk a r, l') => pbind (pmany m fuel) (λ t, pret (a :: t)) sf l' r
      | (PFail, l') => (POk [] s, l')
      | (PFuel, l') => (PFuel, l')
      end
  end.

(** [peg$parse_]: a rule with a name of its own *)
Definition ws : parser () := λ sf l s,
  let '(_, r, l') := class_loop e_space is_ws (S sf) l s in (POk tt r, note sf e_whitespace r l').

#[local] Notation "x <~ m ;; k" := (pbind m (λ x, k)) (at level 100, m at next level, k at level 200, right associativity).
#[local] Notation "m ;;; k" := (pbind m (λ _, k)) (at level 100, k at level 200, right associativity).

(** ** Rules *)

Definition xIdentRest : parser ascii := tok e_ident_rest (pclass is_ident_rest).

Definition xIdent : parser string :=
  first <~ tok e_ident_start (pclass is_ident_start);;
  rest <~ many_class e_ident_rest is_ident_rest;;
  pret (String first rest).

Definition xIdentPath (fuel : nat) : parser (list string) :=
  head <~ xIdent;;
  tail <~ pmany (lit ".";;; xIdent) fuel;;
  pret (head :: tail).

Definition xBareIdent (fuel : nat) : parser Expr := path <~ xIdentPath fuel;; pret (EIdent path).

Definition xHashIdent (fuel : nat) : parser Expr := lit "#";;; path <~ xIdentPath fuel;; pret (EIdent path).

Definition xDollarIdent (fuel : nat) : parser Expr :=
  lit "${";;; ws;;; path <~ xIdentPath fuel;; ws;;; lit "}";;; pret (EIdent path).

Definition xIdentifierExpr (fuel : nat) : parser Expr := palt (xDollarIdent fuel) (palt (xHashIdent fuel) (xBareIdent fuel)).

Definition sign_of (sign : option ()) : Z := match sign with Some _ => -1 | None => 1 end.

Definition xFloatLit : parser Expr :=
  sign <~ popt (lit "-");;
  digits <~ some_class e_digit is_digit;;
  lit ".";;;
  frac <~ some_class e_digit is_digit;;
  pret (ELit (LFloat (sign_of sign * digits_Z (digits_Z 0 digits) frac) (String.length frac))).

Definition xIntLit : parser Expr :=
  sign <~ popt (lit "-");;
  digits <~ some_class e_digit is_digit;;
  pret (ELit (LInt (sign_of sign * digits_Z 0 digits))).

Definition xBoolLit : parser Expr :=
  v <~ palt (lit "true";;; pret true) (lit "false";;; pret false);;
  pnot xIdentRest;;;
  pret (ELit (LBool v)).

Definition xQuoted (q : ascii) : parser Expr :=
  lit (String q EmptyString);;;
  chars <~ many_class (e_not q) (λ c, negb (Ascii.eqb c q));;
  lit (String q EmptyString);;;
  pret (ELit (LString chars)).

Definition xStringLit : parser Expr := palt (xQuoted sq_char) (xQuoted dq_char).

Definition xLiteral : parser Expr := palt xFloatLit (palt xIntLit (palt xBoolLit xStringLit)).

Definition xop (text : string) (op : BinaryOp) : parser Infix := lit text;;; pret (IOp op).

Definition xOrOp : parser Infix := xop "||" OpOr.
Definition xAndOp : parser Infix := xop "&&" OpAnd.
Definition xEqOp : parser Infix := palt (xop "==" OpEq) (xop "!=" OpNe).
Definition xRelOp : parser Infix :=
  palt (xop ">=" OpGe) (palt (xop "<=" OpLe) (palt (xop ">" OpGt) (palt (xop "<" OpLt)
    (lit "in";;; pnot xIdentRest;;; pret IIn)))).
Definition xAddOp : parser Infix := tok e_add parseAddOp.
Definition xMulOp : parser Infix := tok e_mul parseMulOp.

(** [head:operand tail:(_ op _ operand)*] *)
Definition xlevel (op : parser Infix) (operand : parser Expr) (fuel : nat) : parser Expr :=
  head <~ operand;;
  tail <~ pmany (ws;;; o <~ op;; ws;;; e <~ operand;; pret (o, e)) fuel;;
  pret (fold_left mk_infix tail head).

Section rules.
Context (rec : parser Expr).

Definition xParenExpr : parser Expr := lit "(";;; ws;;; e <~ rec;; ws;;; lit ")";;; pret e.

Definition xArgs (fuel : nat) : parser (list Expr) :=
  palt (head <~ rec;; tail <~ pmany (ws;;; lit ",";;; ws;;; rec) fuel;; pret (head :: tail))
       (ws;;; pret []).

Definition xCallFn : parser CallFn :=
  fn <~ palt (lit "contains";;; pret FnContains) (lit "len";;; pret FnLen);;
  pnot xIdentRest;;;
  pret fn.

Definition xCall (fuel : nat) : parser Expr :=
  fn <~ xCallFn;; ws;;; lit "(";;; ws;;; args <~ xArgs fuel;; ws;;; lit ")";;; pret (mk_call fn args).

Definition xPrimary (fuel : nat) : parser Expr :=
  palt (xCall fuel) (palt xParenExpr (palt xLiteral (xIdentifierExpr fuel))).

Fixpoint xUnaryExpr (loop fuel : nat) : parser Expr :=
  match fuel with
  | O => λ _ l _, (PFuel, l)
  | S fuel => palt (lit "!";;; ws;;; arg <~ xUnaryExpr loop fuel;; pret (ENot arg)) (xPrimary loop)
  end.

Definition xMulExpr (fuel : nat) : parser Expr := xlevel xMulOp (xUnaryExpr fuel fuel) fuel.
Definition xAddExpr (fuel : nat) : parser Expr := xlevel xAddOp (xMulExpr fuel) fuel.
Definition xRelExpr (fuel : nat) : parser Expr := xlevel xRelOp (xAddExpr fuel) fuel.
Definition xEqExpr (fuel : nat) : parser Expr := xlevel xEqOp (xRelExpr fuel) fuel.
Definition xAndExpr (fuel : nat) : parser Expr := xlevel xAndOp (xEqExpr fuel) fuel.
Definition xOr (fuel : nat) : parser Expr := xlevel xOrOp (xAndExpr fuel) fuel.
End rules.

Fixpoint xOrExpr (fuel : nat) : parser Expr :=
  match fuel with
  | O => λ _ l _, (PFuel, l)
  | S n => xOr (xOrExpr n) (S n)
  end.

Definition xStart (fuel : nat) : parser Expr := ws;;; e <~ xOrExpr fuel;; ws;;; pret e.
End run.

(** ** The text *)

(** [ch.charCodeAt(0).toString(16).toUpperCase()] *)
Definition hex_digit (n : nat) : ascii := if Nat.ltb n 10 then chr (48 + n) else chr (55 + n).

Definition hex (c : ascii) : string :=
  let n := Ascii.nat_of_ascii c in
  if Nat.ltb n 16 then String (hex_digit n) EmptyString
  else String (hex_digit (n / 16)) (String (hex_digit (n mod 16)) EmptyString).

Definition backslash : ascii := chr 92.
Definition escaped (text : string) : string := String backslash text.

(** What both functions escape: the control characters. *)
Definition control_escape (c : ascii) : string :=
  let n := Ascii.nat_of_ascii c in
  if Nat.eqb n 0 then escaped "0" else if Nat.eqb n 9 then escaped "t" else if Nat.eqb n 10 then escaped "n"
  else if Nat.eqb n 13 then escaped "r" else if Nat.ltb n 16 then escaped ("x0" ⊕ hex c)
  else if (Nat.ltb n 32 || Nat.leb 127 n && Nat.leb n 159)%bool then escaped ("x" ⊕ hex c)
  else String c EmptyString.

(** The replacements follow each other; none touches the text of another. *)
Definition escape_with (special : list ascii) (c : ascii) : string :=
  if existsb (Ascii.eqb c) special then escaped (String c EmptyString) else control_escape c.

Fixpoint escape_all (special : list ascii) (s : string) : string :=
  match s with EmptyString => EmptyString | String c s' => escape_with special c ⊕ escape_all special s' end.

Definition literalEscape (s : string) : string := escape_all [backslash; dq_char] s.
Definition classEscape (c : ascii) : string := escape_with [backslash; "]"%char; "^"%char; "-"%char] c.

Definition in_quotes (s : string) : string := String dq_char (s ⊕ String dq_char EmptyString).

Definition describe_part (p : ClassPart) : string :=
  match p with Single c => classEscape c | Range a b => classEscape a ⊕ "-" ⊕ classEscape b end.

Definition describeExpectation (e : Expectation) : string :=
  match e with
  | XLiteral text => in_quotes (literalEscape text)
  | XClass parts inverted =>
      "[" ⊕ (if inverted then "^" else EmptyString) ⊕ js_join EmptyString (describe_part <$> parts) ⊕ "]"
  | XEnd => "end of input"
  | XOther description => description
  end.

(** [descriptions.sort()] *)
Definition text_le (a b : string) : Prop := String.leb a b = true.

(** The loop that drops what equals its predecessor. *)
Fixpoint drop_repeats (l : list string) : list string :=
  match l with
  | [] => []
  | a :: rest =>
      match rest with
      | [] => [a]
      | b :: _ => if String.eqb a b then drop_repeats rest else a :: drop_repeats rest
      end
  end.

#[export] Instance text_le_dec : RelDecision text_le.
Proof. intros a b. unfold text_le. apply _. Defined.

Definition descriptions (expected : list Expectation) : list string :=
  drop_repeats (merge_sort text_le (describeExpectation <$> expected)).

Definition describeExpected (expected : list Expectation) : string :=
  match descriptions expected with
  | [a] => a
  | [a; b] => a ⊕ " or " ⊕ b
  | l => js_join ", " (removelast l) ⊕ ", or " ⊕ default "undefined" (last l)
  end.

Definition describeFound (found : option ascii) : string :=
  match found with Some c => in_quotes (literalEscape (String c EmptyString)) | None => "end of input" end.

Definition buildMessage (expected : list Expectation) (found : option ascii) : string :=
  "Expected " ⊕ describeExpected expected ⊕ " but " ⊕ describeFound found ⊕ " found.".

(** ** The location *)

Record Details := mkDetails { dt_line : nat; dt_column : nat }.

Definition advance (d : Details) (c : ascii) : Details :=
  if Nat.eqb (Ascii.nat_of_ascii c) 10 then mkDetails (S (dt_line d)) 1 else mkDetails (dt_line d) (S (dt_column d)).

(** [while (p < pos)], over the characters from [p] on *)
Fixpoint walk (d : Details) (s : string) (n : nat) : Details :=
  match n, s with
  | S n, String c s' => walk (advance d c) s' n
  | S n, EmptyString => walk (mkDetails (dt_line d) (S (dt_column d))) EmptyString n
  | O, _ => d
  end.

(** The sparse array of known details. *)
Abbreviation Cache := (list (option Details)).

(** [while (!peg$posDetailsCache[--p]) {}] *)
Fixpoint known_before (cache : Cache) (p : nat) : nat :=
  match p with
  | O => O
  | S p => match cache !! p with Some (Some _) => p | _ => known_before cache p end
  end.

(** [peg$posDetailsCache[pos] = details] *)
Definition remember (pos : nat) (d : Details) (cache : Cache) : Cache :=
  <[pos := Some d]> (cache ++ replicate (S pos - length cache) None).

Fixpoint drop_chars (n : nat) (s : string) : string :=
  match n, s with S n, String _ s' => drop_chars n s' | _, _ => s end.

Definition computePosDetails (input : string) (pos : nat) (cache : Cache) : Details * Cache :=
  match cache !! pos with
  | Some (Some d) => (d, cache)
  | _ =>
      let p := if Nat.leb (length cache) pos then pred (length cache) else known_before cache pos in
      let d := walk (match cache !! p with Some (Some d) => d | _ => mkDetails 1 1 end) (drop_chars p input) (pos - p) in
      (d, remember pos d cache)
  end.

Record Place := mkPlace { pl_offset : nat; pl_line : nat; pl_column : nat }.

Definition computeLocation (input : string) (startPos endPos : nat) (cache : Cache) : Place * Place * Cache :=
  let '(s, cache) := computePosDetails input startPos cache in
  let '(e, cache) := computePosDetails input endPos cache in
  (mkPlace startPos (dt_line s) (dt_column s), mkPlace endPos (dt_line e) (dt_column e), cache).

(** ** The error *)

Record SyntaxError := mkSyntaxError {
  se_message : string;
  se_expected : list Expectation;
  se_found : option ascii;
  se_start : Place;
  se_end : Place
}.

Definition buildStructuredError (input : string) (l : Log) : SyntaxError :=
  let inside := Nat.ltb l.1 (String.length input) in
  let found := if inside then match drop_chars l.1 input with String c _ => Some c | EmptyString => None end else None in
  let '(start, stop, _) := computeLocation input l.1 (if inside then S l.1 else l.1) [Some (mkDetails 1 1)] in
  mkSyntaxError (buildMessage l.2 found) l.2 found start stop.

(** [peg$parse]; the fuel is that of [peg_parse] *)
Definition parse (input : string) : Expr + SyntaxError :=
  match xStart input (S (String.length input)) 0 (0, []) input with
  | (POk e EmptyString, _) => inl e
  | (POk _ rest, l) => inr (buildStructuredError input (peg_fail input XEnd rest l))
  | (_, l) => inr (buildStructuredError input l)
  end.

(** What [parseExpression] answers. *)
Record ParseErr := mkParseErr { pe_message : string; pe_line : nat; pe_column : nat; pe_offset : nat }.

Definition parse_expression (source : string) : Expr + ParseErr :=
  match parse source with
  | inl ast => inl ast
  | inr e => inr (mkParseErr (se_message e) (pl_line (se_start e)) (pl_column (se_start e)) (pl_offset (se_start e)))
  end.

(** The text the lints put in their diagnostics. *)
Definition syntax_message (source : string) : string :=
  match parse source with inl _ => EmptyString | inr e => se_message e end.

(** ** The results are those of the parser *)

Section erasure.
Context (input : string).

(** A rule with its state gives what a rule of Peg.v gives. *)
Definition erases {A} (m : parser A) (p : string → presult A) : Prop := ∀ sf l s, (m sf l s).1 = p s.

Definition bindp {A B} (p : string → presult A) (k : A → string → presult B) (s : string) : presult B :=
  match p s with POk a r => k a r | PFail => PFail | PFuel => PFuel end.

Lemma erases_ext {A} (m : parser A) p q : erases m p → (∀ s, p s = q s) → erases m q.
Proof. intros Hm Hq sf l s. by rewrite Hm, Hq. Qed.

Lemma erases_ret {A} (a : A) : erases (pret a) (λ s, POk a s).
Proof. done. Qed.

Lemma erases_bind {A B} (m : parser A) (k : A → parser B) p q :
  erases m p → (∀ a, erases (k a) (q a)) → erases (pbind m k) (bindp p q).
Proof.
  intros Hm Hk sf l s. unfold pbind, bindp. specialize (Hm sf l s). destruct (m sf l s) as [[|a r|] l']; cbn [fst] in Hm; rewrite <- Hm; [done| |done].
  apply Hk.
Qed.

Lemma erases_alt {A} (m n : parser A) p q : erases m p → erases n q → erases (palt m n) (λ s, por (p s) (λ _, q s)).
Proof.
  intros Hm Hn sf l s. unfold palt, por. specialize (Hm sf l s). destruct (m sf l s) as [[|a r|] l']; cbn [fst] in Hm; rewrite <- Hm; [|done..].
  apply Hn.
Qed.

Definition of_option {A} (o : option (A * string)) : presult A := match o with Some (a, r) => POk a r | None => PFail end.

Lemma erases_tok {A} e (t : string → option (A * string)) : erases (tok input e t) (λ s, of_option (t s)).
Proof. intros sf l s. unfold tok. by destruct (t s) as [[a r]|]. Qed.

Lemma erases_lit text : erases (lit input text) (λ s, match plit text s with Some r => POk tt r | None => PFail end).
Proof. eapply erases_ext; [apply erases_tok|]. intros s. cbn beta. unfold fmap, option_fmap. by destruct (plit text s). Qed.

Lemma class_loop_span e f sf l s : (class_loop input e f sf l s).1 = span f s.
Proof.
  induction s as [|c s IH]; [done|]. cbn [class_loop span]. destruct (f c); [|done].
  destruct (class_loop input e f sf l s) as [[t r] l']. cbn [fst] in IH. by rewrite <- IH.
Qed.

Lemma erases_many_class e f : erases (many_class input e f) (λ s, POk (span f s).1 (span f s).2).
Proof.
  intros sf l s. unfold many_class. pose proof (class_loop_span e f sf l s) as Hc.
  destruct (class_loop input e f sf l s) as [[t r] l']. cbn [fst] in Hc. by rewrite <- Hc.
Qed.

Lemma erases_some_class e f :
  erases (some_class input e f) (λ s, match span f s with (EmptyString, _) => PFail | (t, r) => POk t r end).
Proof.
  intros sf l s. unfold some_class. pose proof (class_loop_span e f sf l s) as Hc.
  destruct (class_loop input e f sf l s) as [[t r] l']. cbn [fst] in Hc. rewrite <- Hc. by destruct t.
Qed.

Lemma erases_not {A} (m : parser A) p : erases m p →
  erases (pnot m) (λ s, match p s with PFail => POk tt s | POk _ _ => PFail | PFuel => PFuel end).
Proof. intros Hm sf l s. unfold pnot. specialize (Hm (S sf) l s). destruct (m (S sf) l s) as [[|a r|] l']; cbn [fst] in Hm; by rewrite <- Hm. Qed.

Lemma erases_opt {A} (m : parser A) p : erases m p →
  erases (popt m) (λ s, match p s with POk a r => POk (Some a) r | PFail => POk None s | PFuel => PFuel end).
Proof. intros Hm sf l s. unfold popt. specialize (Hm sf l s). destruct (m sf l s) as [[|a r|] l']; cbn [fst] in Hm; by rewrite <- Hm. Qed.

Lemma erases_ws : erases (ws input) (λ s, POk tt (parse_ws s)).
Proof.
  intros sf l s. unfold ws, parse_ws. pose proof (class_loop_span e_space is_ws (S sf) l s) as Hc.
  destruct (class_loop input e_space is_ws (S sf) l s) as [[t r] l']. cbn [fst] in Hc. by rewrite <- Hc.
Qed.

Fixpoint manyp {A} (p : string → presult A) (fuel : nat) (s : string) : presult (list A) :=
  match fuel with
  | O => PFuel
  | S fuel =>
      match p s with
      | POk a r => match manyp p fuel r with POk l r' => POk (a :: l) r' | PFail => PFail | PFuel => PFuel end
      | PFail => POk [] s
      | PFuel => PFuel
      end
  end.

Lemma erases_many {A} (m : parser A) p fuel : erases m p → erases (pmany m fuel) (manyp p fuel).
Proof.
  intros Hm. induction fuel as [|fuel IH]; intros sf l s; [done|]. cbn [pmany manyp]. specialize (Hm sf l s).
  destruct (m sf l s) as [[|a r|] l']; cbn [fst] in Hm; rewrite <- Hm; [done| |done].
  unfold pbind. specialize (IH sf l' r). destruct (pmany m fuel sf l' r) as [[|t r'|] l'']; cbn [fst] in IH; by rewrite <- IH.
Qed.

Lemma manyp_ext {A} (p q : string → presult A) fuel s : (∀ s, p s = q s) → manyp p fuel s = manyp q fuel s.
Proof. intros Hpq. revert s. induction fuel as [|fuel IH]; intros s; [done|]. cbn [manyp]. rewrite Hpq. destruct (q s); [done|by rewrite IH|done]. Qed.

Lemma manyp_fails {A} (p : string → presult A) fuel s : manyp p fuel s ≠ PFail.
Proof.
  revert s. induction fuel as [|fuel IH]; intros s; [done|]. cbn [manyp]. destruct (p s) as [|a r|]; [done| |done].
  specialize (IH r). by destruct (manyp p fuel r).
Qed.

Lemma erases_xIdentRest : erases (xIdentRest input) (λ s, of_option (parseIdentRest s)).
Proof. apply erases_tok. Qed.

Lemma erases_xIdent : erases (xIdent input) (λ s, of_option (parseIdent s)).
Proof.
  eapply erases_ext; [apply erases_bind; [apply erases_tok|intros c; apply erases_bind; [apply erases_many_class|intros r; apply erases_ret]]|].
  intros s. unfold bindp, parseIdent. destruct (pclass is_ident_start s) as [[c r]|]; [|done]. cbn. by destruct (span is_ident_rest r).
Qed.

Lemma erases_xIdentPath fuel : erases (xIdentPath input fuel) (parseIdentPath fuel).
Proof.
  eapply erases_ext; [apply erases_bind; [apply erases_xIdent|intros h; apply erases_bind; [|intros t; apply erases_ret]];
    apply erases_many, erases_bind; [apply erases_lit|intros ?; apply erases_xIdent]|].
  intros s. unfold bindp, parseIdentPath. destruct (parseIdent s) as [[h r]|]; [|done]. cbn [of_option].
  enough (∀ r, manyp (λ s, match (match plit "." s with Some r => POk () r | None => PFail end) with
    | POk _ r => of_option (parseIdent r) | PFail => PFail | PFuel => PFuel end) fuel r = parseIdentTail fuel r) as -> by done.
  induction fuel as [|fuel IH]; [done|]. intros s'. cbn [manyp parseIdentTail]. destruct (plit "." s') as [s1|]; [|done].
  destruct (parseIdent s1) as [[i s2]|]; [|done]. cbn [of_option]. by rewrite IH.
Qed.

Lemma erases_xBareIdent fuel : erases (xBareIdent input fuel) (parseBareIdent fuel).
Proof. apply (erases_bind _ _ _ (λ path s, POk (EIdent path) s)); [apply erases_xIdentPath|intros; apply erases_ret]. Qed.

Lemma erases_xIdentifierExpr fuel : erases (xIdentifierExpr input fuel) (parseIdentifierExpr fuel).
Proof.
  apply (erases_alt _ _ (parseDollarIdent fuel) (λ s, por (parseHashIdent fuel s) (λ _, parseBareIdent fuel s))).
  - eapply erases_ext; [apply erases_bind; [apply erases_lit|intros ?; apply erases_bind; [apply erases_ws|intros ?; apply erases_bind;
      [apply erases_xIdentPath|intros path; apply erases_bind; [apply erases_ws|intros ?; apply erases_bind; [apply erases_lit|intros ?; apply erases_ret]]]]]|].
    intros s. unfold bindp, parseDollarIdent. destruct (plit "${" s) as [s1|]; [|done]. destruct (parseIdentPath fuel (parse_ws s1)) as [|path s2|]; [done| |done].
    by destruct (plit "}" (parse_ws s2)).
  - apply (erases_alt _ _ (parseHashIdent fuel)); [|apply erases_xBareIdent].
    eapply erases_ext; [apply erases_bind; [apply erases_lit|intros ?; apply erases_xBareIdent]|].
    intros s. unfold bindp, parseHashIdent. by destruct (plit "#" s).
Qed.

(** The rules below are erased by their structure. *)
Ltac erase_step :=
  first [eassumption | match goal with H : erases ?m _ |- erases ?m _ => exact H end | apply erases_ret | apply erases_lit | apply erases_ws | apply erases_xIdentRest | apply erases_some_class
        | apply erases_many_class | apply erases_not | apply erases_opt | apply erases_many | apply erases_bind; [|intros ?] | apply erases_alt | apply erases_tok].
Ltac erase := eapply erases_ext; [repeat erase_step|intros s; unfold bindp; cbn beta].

Lemma erases_xLiteral : erases (xLiteral input) parseLiteral.
Proof.
  apply (erases_alt _ _ parseFloatLit (λ s, por (parseIntLit s) (λ _, por (parseBoolLit s) (λ _, parseStringLit s)))).
  { unfold xFloatLit. erase. unfold parseFloatLit, parse_sign, parse_digits. destruct (plit "-" s) as [s1|]; cbn [sign_of];
      [destruct (span is_digit s1) as [[|c d] s2]|destruct (span is_digit s) as [[|c d] s2]]; try done;
      (destruct (plit "." s2) as [s3|]; [|done]); by destruct (span is_digit s3) as [[|c' d'] r]. }
  apply (erases_alt _ _ parseIntLit (λ s, por (parseBoolLit s) (λ _, parseStringLit s))).
  { unfold xIntLit. erase. unfold parseIntLit, parse_sign, parse_digits. destruct (plit "-" s) as [s1|]; cbn [sign_of];
      [by destruct (span is_digit s1) as [[|c d] s2]|by destruct (span is_digit s) as [[|c d] s2]]. }
  apply (erases_alt _ _ parseBoolLit).
  { unfold xBoolLit. erase. unfold parseBoolLit, por, not_ident_rest. destruct (plit "true" s) as [r|]; [by destruct (parseIdentRest r) as [[]|]|].
    destruct (plit "false" s) as [r|]; [by destruct (parseIdentRest r) as [[]|]|done]. }
  assert (∀ q, erases (xQuoted input q) (parse_quoted q)) as Hq; [|apply (erases_alt _ _ (parse_quoted sq_char)); apply Hq].
  intros q. unfold xQuoted. erase. unfold parse_quoted. destruct (plit (String q EmptyString) s) as [s1|]; [|done].
  destruct (span (λ c, negb (Ascii.eqb c q)) s1) as [chars s2]. cbn [fst snd]. by destruct (plit (String q EmptyString) s2).
Qed.

Lemma erases_xop text op : erases (xop input text op) (λ s, of_option (op_of text op s)).
Proof. unfold xop. erase. unfold op_of. by destruct (plit text s). Qed.

Lemma erases_alt_option {A} (m n : parser A) (t u : string → option (A * string)) :
  erases m (λ s, of_option (t s)) → erases n (λ s, of_option (u s)) → erases (palt m n) (λ s, of_option (oor (t s) (λ _, u s))).
Proof. intros Hm Hn. eapply erases_ext; [by apply erases_alt|]. intros s. cbn beta. unfold oor. by destruct (t s) as [[a r]|]. Qed.

Lemma erases_xRelOp : erases (xRelOp input) (λ s, of_option (parseRelOp s)).
Proof.
  unfold xRelOp, parseRelOp. repeat (apply erases_alt_option; [apply erases_xop|]). erase.
  destruct (plit "in" s) as [r|]; [|done]. unfold not_ident_rest. by destruct (parseIdentRest r) as [[]|].
Qed.

Lemma erases_xlevel op t operand p fuel : erases op (λ s, of_option (t s)) → erases operand p →
  erases (xlevel input op operand fuel) (infix_level t p fuel).
Proof.
  intros Hop Hp. unfold xlevel. erase. unfold infix_level. destruct (p s) as [|h s1|]; [done| |done].
  enough (∀ r, manyp (λ s, match of_option (t (parse_ws s)) with
    | POk a r => match p (parse_ws r) with POk e r0 => POk (a, e) r0 | PFail => PFail | PFuel => PFuel end
    | PFail => PFail | PFuel => PFuel end) fuel r = infix_tail t p fuel r) as -> by done.
  clear. induction fuel as [|fuel IH]; [done|]. intros s. cbn [manyp infix_tail]. destruct (t (parse_ws s)) as [[o s1]|]; [|done].
  cbn [of_option]. destruct (p (parse_ws s1)) as [|e s2|]; [done| |done]. by rewrite IH.
Qed.

Section rules.
Context (rec : parser Expr) (prec : string → presult Expr) (Hrec : erases rec prec).

Lemma erases_xArgs fuel : erases (xArgs input rec fuel) (parseArgs prec fuel).
Proof using Hrec.
  unfold xArgs. erase. unfold parseArgs, por. destruct (prec s) as [|h s1|]; [done| |done].
  assert (∀ r, manyp (λ s, match (match plit "," (parse_ws s) with Some r => POk () r | None => PFail end) with
    | POk _ r => prec (parse_ws r) | PFail => PFail | PFuel => PFuel end) fuel r = args_tail prec fuel r) as E.
  { clear. induction fuel as [|fuel IH]; [done|]. intros s. cbn [manyp args_tail]. destruct (plit "," (parse_ws s)) as [s1|]; [|done].
    destruct (prec (parse_ws s1)) as [|e s2|]; [done| |done]. by rewrite IH. }
  pose proof (manyp_fails (λ s, match (match plit "," (parse_ws s) with Some r => POk () r | None => PFail end) with
    | POk _ r => prec (parse_ws r) | PFail => PFail | PFuel => PFuel end) fuel s1) as Hf. rewrite E in Hf |- *. by destruct (args_tail prec fuel s1).
Qed.

Lemma erases_xCall fuel : erases (xCall input rec fuel) (parseCall prec fuel).
Proof using Hrec.
  pose proof (erases_xArgs fuel) as Hargs. unfold xCall, xCallFn. erase. unfold parseCall, parseCallFn, por, not_ident_rest.
  destruct (plit "contains" s) as [r|]; [|destruct (plit "len" s) as [r|]; [|done]];
    (destruct (parseIdentRest r) as [[]|]; [done|]); cbn [of_option]; (destruct (plit "(" (parse_ws r)) as [s2|]; [|done]);
    (destruct (parseArgs prec fuel (parse_ws s2)) as [|args s3|]; [done| |done]); by destruct (plit ")" (parse_ws s3)).
Qed.

Lemma erases_xPrimary fuel : erases (xPrimary input rec fuel) (parsePrimary prec fuel).
Proof using Hrec.
  apply (erases_alt _ _ (parseCall prec fuel)); [apply erases_xCall|].
  apply (erases_alt _ _ (parseParenExpr prec)).
  { unfold xParenExpr. erase. unfold parseParenExpr. destruct (plit "(" s) as [s1|]; [|done].
    destruct (prec (parse_ws s1)) as [|e s2|]; [done| |done]. by destruct (plit ")" (parse_ws s2)). }
  apply (erases_alt _ _ parseLiteral); [apply erases_xLiteral|apply erases_xIdentifierExpr].
Qed.

Lemma erases_xUnaryExpr loop fuel : erases (xUnaryExpr input rec loop fuel) (parseUnaryExpr prec loop fuel).
Proof using Hrec.
  induction fuel as [|fuel IH]; [done|]. cbn [xUnaryExpr parseUnaryExpr].
  apply (erases_alt _ _ _ (parsePrimary prec loop)); [|apply erases_xPrimary]. erase. destruct (plit "!" s) as [s1|]; [|done].
  by destruct (parseUnaryExpr prec loop fuel (parse_ws s1)).
Qed.

Lemma erases_xOr fuel : erases (xOr input rec fuel) (orExpr prec fuel).
Proof using Hrec.
  apply erases_xlevel; [apply erases_xop|]. apply erases_xlevel; [apply erases_xop|].
  apply erases_xlevel; [apply erases_alt_option; apply erases_xop|]. apply erases_xlevel; [apply erases_xRelOp|].
  apply erases_xlevel; [apply erases_tok|]. apply erases_xlevel; [apply erases_tok|]. apply erases_xUnaryExpr.
Qed.
End rules.

Lemma erases_xOrExpr fuel : erases (xOrExpr input fuel) (parseOrExpr fuel).
Proof. induction fuel as [|fuel IH]; [done|]. cbn [xOrExpr parseOrExpr]. by apply erases_xOr. Qed.

Lemma erases_xStart fuel : erases (xStart input fuel) (parseStart fuel).
Proof.
  pose proof (erases_xOrExpr fuel) as Hrec. unfold xStart. erase. unfold parseStart. by destruct (parseOrExpr fuel (parse_ws s)).
Qed.
End erasure.

(** ** What is expected was refused *)

Definition in_part (c : ascii) (p : ClassPart) : bool :=
  match p with Single c' => Ascii.eqb c c' | Range a b => in_range a b c end.

(** The input goes on with what is expected. *)
Definition accepts (e : Expectation) (s : string) : bool :=
  match e with
  | XLiteral text => match plit text s with Some _ => true | None => false end
  | XClass parts inverted => match s with String c _ => xorb inverted (existsb (in_part c) parts) | EmptyString => false end
  | XEnd => String.eqb s EmptyString
  | XOther _ => match s with String c _ => is_ws c | EmptyString => false end
  end.

Section soundness.
Context (input : string).

Definition is_tail (s : string) : Prop := ∃ consumed, input = consumed ⊕ s.

(** The position is in the input, and nothing that is expected there is there. *)
Record log_ok (l : Log) : Prop := {
  lk_pos : l.1 ≤ String.length input;
  lk_refused : Forall (λ e, accepts e (drop_chars l.1 input) = false) l.2
}.

Definition sound {A} (m : parser A) : Prop := ∀ sf l s, is_tail s → log_ok l →
  log_ok (m sf l s).2 ∧ (l.2 ≠ [] → (m sf l s).2.2 ≠ []) ∧ ∀ a r, (m sf l s).1 = POk a r → is_tail r.

Lemma tail_position s : is_tail s → drop_chars (currPos input s) input = s ∧ currPos input s ≤ String.length input.
Proof.
  intros [pre E]. unfold currPos. split; [|lia].
  assert (String.length input - String.length s = String.length pre) as -> by (rewrite E, length_str_app; lia). rewrite E.
  clear E. induction pre as [|c pre IH]; [by destruct s|exact IH].
Qed.

Lemma tail_trans s r consumed : is_tail s → s = consumed ⊕ r → is_tail r.
Proof. intros [pre ->] ->. exists (pre ⊕ consumed). by rewrite str_app_assoc. Qed.

Lemma peg_fail_ok e s l : is_tail s → log_ok l → accepts e s = false →
  log_ok (peg_fail input e s l) ∧ (peg_fail input e s l).2 ≠ [] ∨ l.2 = [] ∧ currPos input s < l.1.
Proof.
  intros Ht [Hp Hr] He. destruct (tail_position s Ht) as [Hd Hle]. unfold peg_fail. destruct (Nat.ltb_spec (currPos input s) l.1) as [Hlt|Hge].
  { destruct l as [p [|e' l]]; [by right|left]. split; [by split|done]. }
  left. destruct (Nat.ltb_spec l.1 (currPos input s)) as [Hlt|Hge'].
  - split; [|done]. split; [done|]. cbn [fst snd]. by rewrite Hd, Forall_singleton.
  - assert (l.1 = currPos input s) as E by lia. split; [split; [done|]|cbn [snd]; by destruct l.2]. cbn [fst snd].
    rewrite Forall_app, Forall_singleton. split; [exact Hr|]. by rewrite E, Hd.
Qed.

Lemma note_ok sf e s l : is_tail s → log_ok l → accepts e s = false →
  log_ok (note input sf e s l) ∧ (l.2 ≠ [] → (note input sf e s l).2 ≠ []).
Proof.
  intros Ht Hl He. destruct sf as [|sf]; [|by split]. cbn [note]. destruct (peg_fail_ok e s l Ht Hl He) as [[? ?]|[En Hlt]]; [done|].
  unfold peg_fail. apply Nat.ltb_lt in Hlt. rewrite Hlt. by split.
Qed.

Lemma sound_ret {A} (a : A) : sound (pret a).
Proof. intros sf l s Ht Hl. split_and!; [done..|]. by intros ? ? [= <- <-]. Qed.

Lemma sound_bind {A B} (m : parser A) (k : A → parser B) : sound m → (∀ a, sound (k a)) → sound (pbind m k).
Proof.
  intros Hm Hk sf l s Ht Hl. unfold pbind. destruct (Hm sf l s Ht Hl) as (H1 & H2 & H3).
  destruct (m sf l s) as [[|a r|] l']; cbn [fst snd] in *; [by split_and!| |by split_and!].
  destruct (Hk a sf l' r (H3 a r eq_refl) H1) as (K1 & K2 & K3). split_and!; auto.
Qed.

Lemma sound_alt {A} (m n : parser A) : sound m → sound n → sound (palt m n).
Proof.
  intros Hm Hn sf l s Ht Hl. unfold palt. destruct (Hm sf l s Ht Hl) as (H1 & H2 & H3).
  destruct (m sf l s) as [[|a r|] l']; cbn [fst snd] in *; [|by split_and!..].
  destruct (Hn sf l' s Ht H1) as (K1 & K2 & K3). split_and!; auto.
Qed.

Lemma sound_tok {A} e (t : string → option (A * string)) :
  (∀ s, t s = None → accepts e s = false) → (∀ s a r, t s = Some (a, r) → ∃ consumed, s = consumed ⊕ r) → sound (tok input e t).
Proof.
  intros Hn Hs sf l s Ht Hl. unfold tok. destruct (t s) as [[a r]|] eqn:Et.
  - split_and!; [done..|]. intros ? ? [= <- <-]. destruct (Hs s a r Et) as [c Hc]. by eapply tail_trans.
  - destruct (note_ok sf e s l Ht Hl (Hn s Et)). by split_and!.
Qed.

Lemma plit_app text s r : plit text s = Some r → s = text ⊕ r.
Proof.
  revert s. induction text as [|c text IH]; intros s; [by intros [= ->]|]. destruct s as [|c' s]; [done|]. cbn [plit].
  destruct (Ascii.eqb_spec c c') as [->|]; [|done]. intros ->%IH. done.
Qed.

Lemma sound_lit text : sound (lit input text).
Proof.
  apply sound_tok.
  - intros s. cbn [accepts]. by destruct (plit text s).
  - intros s a r. destruct (plit text s) as [r'|] eqn:E; [|done]. cbn. intros [= _ <-]. apply plit_app in E. eauto.
Qed.

Lemma class_loop_ok e f sf l s :
  (∀ c s, f c = false → accepts e (String c s) = false) → accepts e EmptyString = false → is_tail s → log_ok l →
  let '(_, r, l') := class_loop input e f sf l s in
  log_ok l' ∧ (l.2 ≠ [] → l'.2 ≠ []) ∧ is_tail r ∧ match r with String c _ => f c = false | EmptyString => True end.
Proof.
  intros Hf He Ht Hl. induction s as [|c s IH]; cbn [class_loop].
  - destruct (note_ok sf e EmptyString l Ht Hl He). by split_and!.
  - destruct (f c) eqn:Ec.
    + assert (is_tail s) as Ht' by (by apply (tail_trans (String c s) s (String c EmptyString))). specialize (IH Ht').
      by destruct (class_loop input e f sf l s) as [[t r] l'].
    + destruct (note_ok sf e (String c s) l Ht Hl (Hf c s Ec)). by split_and!.
Qed.

Lemma sound_many_class e f : (∀ c s, f c = false → accepts e (String c s) = false) → accepts e EmptyString = false →
  sound (many_class input e f).
Proof.
  intros Hf He sf l s Ht Hl. unfold many_class. pose proof (class_loop_ok e f sf l s Hf He Ht Hl) as Hc.
  destruct (class_loop input e f sf l s) as [[t r] l']. destruct Hc as (H1 & H2 & H3 & _). split_and!; [done..|]. by intros ? ? [= _ <-].
Qed.

Lemma sound_some_class e f : (∀ c s, f c = false → accepts e (String c s) = false) → accepts e EmptyString = false →
  sound (some_class input e f).
Proof.
  intros Hf He sf l s Ht Hl. unfold some_class. pose proof (class_loop_ok e f sf l s Hf He Ht Hl) as Hc.
  destruct (class_loop input e f sf l s) as [[[|c t] r] l']; destruct Hc as (H1 & H2 & H3 & _); split_and!; try done. by intros ? ? [= _ <-].
Qed.

Lemma class_refuses parts f c s : f c = existsb (in_part c) parts → f c = false → accepts (XClass parts false) (String c s) = false.
Proof. intros E Hf. cbn [accepts xorb]. by rewrite <- E. Qed.

Lemma space_class c : is_ws c = existsb (in_part c) [Single " "; Single (chr 9); Single (chr 10); Single (chr 13)].
Proof. destruct c as [[] [] [] [] [] [] [] []]; reflexivity. Qed.

Lemma sound_ws : sound (ws input).
Proof.
  intros sf l s Ht Hl. unfold ws. pose proof (class_loop_ok e_space is_ws (S sf) l s) as Hc.
  destruct (class_loop input e_space is_ws (S sf) l s) as [[t r] l']. destruct Hc as (H1 & H2 & H3 & H4); [|done..|].
  { intros c s' Hc. apply (class_refuses _ is_ws); [apply space_class|done]. }
  destruct (note_ok sf e_whitespace r l' H3 H1) as [K1 K2]; [by destruct r|]. split_and!; [done|auto|]. by intros ? ? [= _ <-].
Qed.

Lemma sound_not {A} (m : parser A) : sound m → sound (pnot m).
Proof.
  intros Hm sf l s Ht Hl. unfold pnot. destruct (Hm (S sf) l s Ht Hl) as (H1 & H2 & H3).
  destruct (m (S sf) l s) as [[|a r|] l']; cbn [fst snd] in *; split_and!; try done. by intros ? ? [= _ <-].
Qed.

Lemma sound_opt {A} (m : parser A) : sound m → sound (popt m).
Proof.
  intros Hm sf l s Ht Hl. unfold popt. destruct (Hm sf l s Ht Hl) as (H1 & H2 & H3).
  destruct (m sf l s) as [[|a r|] l']; cbn [fst snd] in *; split_and!; try done; intros ? ? [= _ <-]; [done|by eapply H3].
Qed.

Lemma sound_fuel {A} : sound (λ _ l _, (PFuel (A := A), l)).
Proof. intros sf l s Ht Hl. by split_and!. Qed.

Lemma sound_many {A} (m : parser A) fuel : sound m → sound (pmany m fuel).
Proof.
  intros Hm. induction fuel as [|fuel IH]; [apply sound_fuel|]. intros sf l s Ht Hl. cbn [pmany].
  destruct (Hm sf l s Ht Hl) as (H1 & H2 & H3). destruct (m sf l s) as [[|a r|] l']; cbn [fst snd] in *.
  - split_and!; try done. by intros ? ? [= _ <-].
  - destruct (sound_bind (pmany m fuel) (λ t, pret (a :: t)) IH (λ t, sound_ret _) sf l' r) as (K1 & K2 & K3); [by eapply H3|done|].
    split_and!; auto.
  - by split_and!.
Qed.

(** ** Every rule *)

Lemma pclass_app f s a r : pclass f s = Some (a, r) → ∃ consumed, s = consumed ⊕ r.
Proof. destruct s as [|c s]; [done|]. cbn. destruct (f c); [|done]. intros [= _ <-]. by exists (String c EmptyString). Qed.

Lemma sound_pclass parts f : (∀ c, f c = existsb (in_part c) parts) → sound (tok input (XClass parts false) (pclass f)).
Proof.
  intros Hf. apply sound_tok; [|intros s a r; apply pclass_app]. intros [|c s]; [done|]. cbn [pclass]. destruct (f c) eqn:E; [done|].
  intros _. by apply (class_refuses parts f).
Qed.

Lemma ident_start_class c : is_ident_start c = existsb (in_part c) [Range "a" "z"; Range "A" "Z"; Single "_"].
Proof. unfold is_ident_start. cbn [existsb in_part]. by rewrite orb_false_r, orb_assoc. Qed.

Lemma ident_rest_class c : is_ident_rest c = existsb (in_part c) [Range "a" "z"; Range "A" "Z"; Range "0" "9"; Single "_"].
Proof.
  unfold is_ident_rest, is_ident_start, is_digit. cbn [existsb in_part]. rewrite orb_false_r.
  by destruct (in_range "a" "z" c), (in_range "A" "Z" c), (in_range "0" "9" c), (Ascii.eqb c "_").
Qed.

Lemma digit_class c : is_digit c = existsb (in_part c) [Range "0" "9"].
Proof. cbn [existsb in_part]. by rewrite orb_false_r. Qed.

Lemma op_app text op s o r : op_of text op s = Some (o, r) → ∃ consumed, s = consumed ⊕ r.
Proof. unfold op_of. destruct (plit text s) eqn:E; [|done]. intros [= _ <-]. apply plit_app in E. eauto. Qed.

Lemma sound_two_ops a b opa opb :
  sound (tok input (XClass [Single a; Single b] false)
    (λ s, oor (op_of (String a EmptyString) opa s) (λ _, op_of (String b EmptyString) opb s))).
Proof.
  apply sound_tok.
  - intros [|c s]; [done|]. unfold op_of, oor. cbn [plit accepts existsb in_part xorb].
    destruct (Ascii.eqb_spec a c) as [->|Ha]; [done|]. destruct (Ascii.eqb_spec b c) as [->|Hb]; [done|]. intros _.
    assert (Ascii.eqb c a = false ∧ Ascii.eqb c b = false) as [-> ->] by (split; apply Ascii.eqb_neq; congruence). done.
  - intros s o r. unfold oor. destruct (op_of (String a EmptyString) opa s) as [[o' r']|] eqn:E; [|apply op_app].
    intros [= -> ->]. by eapply op_app.
Qed.

Ltac sound_step :=
  first [assumption | apply sound_ret | apply sound_lit | apply sound_ws | apply sound_fuel | apply sound_not | apply sound_opt
        | apply sound_many | apply sound_bind; [|intros ?] | apply sound_alt].

Lemma sound_xIdentRest : sound (xIdentRest input).
Proof. apply sound_pclass, ident_rest_class. Qed.

Lemma sound_xIdent : sound (xIdent input).
Proof.
  unfold xIdent. apply sound_bind; [apply sound_pclass, ident_start_class|intros c]. apply sound_bind; [|intros r; apply sound_ret].
  apply sound_many_class; [|done]. intros c' s. apply class_refuses, ident_rest_class.
Qed.

Lemma sound_xIdentPath fuel : sound (xIdentPath input fuel).
Proof. pose proof sound_xIdent. unfold xIdentPath. repeat sound_step. Qed.

Lemma sound_digits : sound (some_class input e_digit is_digit).
Proof. apply sound_some_class; [|done]. intros c s. apply class_refuses, digit_class. Qed.

Lemma sound_xQuoted q : sound (xQuoted input q).
Proof.
  unfold xQuoted. repeat sound_step. apply sound_many_class; [|done]. intros c s Hc. cbn [accepts e_not existsb in_part].
  apply negb_false_iff in Hc. by rewrite Hc.
Qed.

Lemma sound_xLiteral : sound (xLiteral input).
Proof.
  pose proof sound_digits. pose proof sound_xIdentRest. pose proof (sound_xQuoted sq_char). pose proof (sound_xQuoted dq_char).
  unfold xLiteral, xFloatLit, xIntLit, xBoolLit, xStringLit. repeat sound_step.
Qed.

Lemma sound_xIdentifierExpr fuel : sound (xIdentifierExpr input fuel).
Proof. pose proof (sound_xIdentPath fuel). unfold xIdentifierExpr, xDollarIdent, xHashIdent, xBareIdent. repeat sound_step. Qed.

Lemma sound_xlevel op operand fuel : sound op → sound operand → sound (xlevel input op operand fuel).
Proof. intros Hop Hp. unfold xlevel. repeat sound_step. Qed.

Lemma sound_xOr rec fuel : sound rec → sound (xOr input rec fuel).
Proof.
  intros Hrec. pose proof sound_xIdentRest. pose proof sound_xLiteral. pose proof (sound_xIdentifierExpr fuel).
  assert (∀ n, sound (xUnaryExpr input rec fuel n)) as Hu.
  { induction n as [|n IH]; [apply sound_fuel|]. cbn [xUnaryExpr]. unfold xPrimary, xCall, xCallFn, xArgs, xParenExpr. repeat sound_step. }
  unfold xOr, xAndExpr, xEqExpr, xRelExpr, xAddExpr, xMulExpr, xOrOp, xAndOp, xEqOp, xRelOp, xAddOp, xMulOp, xop.
  repeat (apply sound_xlevel; [first [apply sound_two_ops | repeat sound_step]|]). apply Hu.
Qed.

Lemma sound_xOrExpr fuel : sound (xOrExpr input fuel).
Proof. induction fuel as [|n IH]; [apply sound_fuel|]. cbn [xOrExpr]. by apply sound_xOr. Qed.

Lemma sound_xStart fuel : sound (xStart input fuel).
Proof. pose proof (sound_xOrExpr fuel). unfold xStart. repeat sound_step. Qed.

Lemma start_log : log_ok (0, []).
Proof. split; [cbn; lia|constructor]. Qed.

Lemma all_input : is_tail input.
Proof. by exists EmptyString. Qed.

Lemma silent_loop e f sf l s : (class_loop input e f (S sf) l s).2 = l.
Proof.
  induction s as [|c s IH]; [done|]. cbn [class_loop note]. destruct (f c); [|done].
  by destruct (class_loop input e f (S sf) l s) as [[t r] l'].
Qed.

(** The whitespace before the expression notes the first expectation. *)
Lemma start_expects fuel : (xStart input fuel 0 (0, []) input).2.2 ≠ [].
Proof.
  unfold xStart, pbind at 1. destruct (sound_ws 0 (0, []) input all_input start_log) as (H1 & _ & H3).
  assert ((ws input 0 (0, []) input).2.2 ≠ []) as Hne.
  { unfold ws. pose proof (silent_loop e_space is_ws 0 (0, []) input) as El.
    destruct (class_loop input e_space is_ws 1 (0, []) input) as [[t r] l']. cbn [snd] in El. subst l'. cbn [snd note].
    unfold peg_fail. cbn [fst snd]. destruct (Nat.ltb_spec (currPos input r) 0); [lia|]. by destruct (Nat.ltb 0 (currPos input r)). }
  destruct (ws input 0 (0, []) input) as [[|u r|] l'] eqn:Ew; cbn [fst snd] in *; [done| |done].
  assert (sound (pbind (xOrExpr input fuel) (λ e, pbind (ws input) (λ _, pret e)))) as Hs
    by (pose proof (sound_xOrExpr fuel); repeat sound_step).
  by apply (Hs 0 l' r (H3 u r eq_refl) H1).
Qed.
End soundness.

(** ** Locations *)

Section location.
Context (input : string).

Definition details_at (pos : nat) : Details := walk (mkDetails 1 1) input pos.

(** What is remembered is right; the start and the last entry are there. *)
Record cache_ok (cache : Cache) : Prop := {
  ck_start : cache !! 0 = Some (Some (details_at 0));
  ck_last : is_Some (mjoin (last cache));
  ck_right p d : cache !! p = Some (Some d) → d = details_at p
}.

Lemma walk_add d s n m : walk d s (n + m) = walk (walk d s n) (drop_chars n s) m.
Proof.
  revert d s. induction n as [|n IH]; intros d s; [by destruct s|]. destruct s as [|c s]; cbn [Nat.add walk drop_chars]; rewrite IH; [|done].
  by destruct n.
Qed.

Lemma known_before_some cache p d : cache !! 0 = Some (Some d) → 0 < p →
  known_before cache p < p ∧ ∃ d', cache !! known_before cache p = Some (Some d').
Proof.
  intros H0. induction p as [|p IH]; [lia|]. intros _. cbn [known_before].
  destruct (cache !! p) as [[d'|]|] eqn:E; [split; [lia|eauto]|..]; (destruct p as [|p]; [congruence|]);
    destruct IH as [? ?]; try lia; (split; [lia|done]).
Qed.

Lemma remember_ok pos cache : cache_ok cache → cache_ok (remember pos (details_at pos) cache).
Proof.
  intros [H0 [x Hx] Hr]. unfold remember. set (padded := cache ++ replicate (S pos - length cache) None).
  assert (length padded = max (length cache) (S pos)) as Hlen by (unfold padded; rewrite length_app, length_replicate; lia).
  assert (∀ p d, padded !! p = Some (Some d) → cache !! p = Some (Some d)) as Hpad.
  { intros p d. unfold padded. intros [Hc|[_ Hc]]%lookup_app_Some; [done|]. apply lookup_replicate in Hc as [[=] _]. }
  assert (padded !! 0 = Some (Some (details_at 0))) as Hp0 by (unfold padded; by apply lookup_app_l_Some).
  split.
  - destruct pos as [|pos]; [by rewrite list_lookup_insert_eq by lia|by rewrite list_lookup_insert_ne].
  - rewrite last_lookup, length_insert, Hlen. destruct (decide (pos = pred (max (length cache) (S pos)))) as [E|Hne].
    + rewrite <- E, list_lookup_insert_eq by lia. by eexists.
    + rewrite list_lookup_insert_ne by done. rewrite last_lookup in Hx. unfold padded.
      assert (pred (length cache `max` S pos) = pred (length cache)) as -> by lia.
      destruct (cache !! pred (length cache)) as [y|] eqn:Ey; [|done]. rewrite (lookup_app_l_Some _ _ _ _ Ey). by exists x.
  - intros p d. destruct (decide (pos = p)) as [->|Hne].
    + rewrite list_lookup_insert_eq by lia. by intros [= <-].
    + rewrite list_lookup_insert_ne by done. intros Hp. by apply Hr, Hpad.
Qed.

Lemma position_details pos cache : cache_ok cache →
  (computePosDetails input pos cache).1 = details_at pos ∧ cache_ok (computePosDetails input pos cache).2.
Proof.
  intros Hc. destruct (Hc) as [H0 [x Hx] Hr]. unfold computePosDetails. destruct (cache !! pos) as [[d|]|] eqn:E; [by rewrite <- (Hr _ _ E)| |].
  all: set (p := if Nat.leb (length cache) pos then _ else _); assert (p ≤ pos ∧ ∃ d, cache !! p = Some (Some d)) as [Hle [d Hd]].
  1, 3: subst p; destruct (Nat.leb_spec (length cache) pos) as [Hl|Hl];
    [split; [lia|]; rewrite last_lookup in Hx; destruct (cache !! pred (length cache)) as [[y|]|]; try done; by eexists
    |destruct (known_before_some cache pos _ H0) as [? ?]; [destruct pos; [congruence|lia]|split; [lia|done]]].
  all: rewrite Hd; assert (walk d (drop_chars p input) (pos - p) = details_at pos) as ->
    by (rewrite (Hr _ _ Hd); unfold details_at; rewrite <- walk_add; f_equal; lia); cbn [fst snd]; split; [done|by apply remember_ok].
Qed.
End location.

(** A line and a column mean what they say: the newlines before, and what follows
    the last of them. *)
Definition newline : ascii := chr 10.

Fixpoint newlines (s : string) : nat :=
  match s with EmptyString => 0 | String c s' => (if Nat.eqb (Ascii.nat_of_ascii c) 10 then 1 else 0) + newlines s' end.

Fixpoint take_chars (n : nat) (s : string) : string :=
  match n, s with S n, String c s' => String c (take_chars n s') | _, _ => EmptyString end.

Definition stands_at (consumed : string) (d : Details) : Prop :=
  ∃ before line, consumed = before ⊕ line ∧ (before = EmptyString ∨ ∃ b, before = b ⊕ String newline EmptyString) ∧
    newlines line = 0 ∧ dt_line d = S (newlines before) ∧ dt_column d = S (String.length line).

Lemma newlines_app s t : newlines (s ⊕ t) = newlines s + newlines t.
Proof. induction s as [|c s IH]; [done|]. simpl. rewrite IH. lia. Qed.

Lemma advance_stands consumed d c : stands_at consumed d → stands_at (consumed ⊕ String c EmptyString) (advance d c).
Proof.
  intros (before & line & -> & Hb & Hn & Hl & Hc). unfold advance. destruct (Nat.eqb_spec (Ascii.nat_of_ascii c) 10) as [E|Hne].
  - assert (c = newline) as -> by (by rewrite <- (Ascii.ascii_nat_embedding c), E).
    exists ((before ⊕ line) ⊕ String newline EmptyString), EmptyString. split; [by rewrite str_app_nil_r|]. split; [eauto|].
    split; [done|]. cbn [dt_line dt_column]. rewrite !newlines_app, Hl, Hn.
    change (newlines (String newline EmptyString)) with 1. split; [lia|done].
  - exists before, (line ⊕ String c EmptyString). split; [by rewrite str_app_assoc|]. split; [done|]. cbn [dt_line dt_column].
    rewrite newlines_app, Hn, length_str_app, Hc, Hl. apply Nat.eqb_neq in Hne. cbn [newlines]. rewrite Hne. split_and!; [done..|cbn; lia].
Qed.

Lemma walk_stands consumed d s n : n ≤ String.length s → stands_at consumed d → stands_at (consumed ⊕ take_chars n s) (walk d s n).
Proof.
  revert consumed d s. induction n as [|n IH]; intros consumed d s Hn Hd; [cbn; destruct s; by rewrite str_app_nil_r|].
  destruct s as [|c s]; [cbn in Hn; lia|]. cbn [take_chars walk].
  assert (consumed ⊕ String c (take_chars n s) = (consumed ⊕ String c EmptyString) ⊕ take_chars n s) as -> by (by rewrite str_app_assoc).
  apply IH; [cbn in Hn; lia|]. by apply advance_stands.
Qed.

(** ** Texts *)

#[export] Instance text_le_trans : Transitive text_le.
Proof. intros a b c. apply leb_trans. Qed.

#[export] Instance text_le_total : Total text_le.
Proof. intros a b. apply String.leb_total. Qed.

Lemma drop_repeats_in l x : x ∈ drop_repeats l ↔ x ∈ l.
Proof.
  induction l as [|a l IH]; [done|]. cbn [drop_repeats]. destruct l as [|b l]; [done|].
  destruct (String.eqb_spec a b) as [->|Hne]; [rewrite IH, (elem_of_cons (b :: l)), elem_of_cons; tauto|].
  by rewrite elem_of_cons, IH, <- elem_of_cons.
Qed.

Lemma drop_repeats_sorted l : StronglySorted text_le l → StronglySorted text_le (drop_repeats l) ∧ NoDup (drop_repeats l).
Proof.
  induction l as [|a l IH]; [by repeat constructor|]. intros Hs. apply StronglySorted_inv in Hs as [Hs Ha].
  destruct (IH Hs) as [IH1 IH2]. cbn [drop_repeats]. destruct l as [|b l]; [split; repeat constructor; set_solver|].
  destruct (String.eqb_spec a b) as [->|Hne]; [done|]. split.
  - constructor; [done|]. rewrite Forall_forall in Ha |- *. intros x Hx. apply Ha. by apply drop_repeats_in.
  - constructor; [|done]. rewrite drop_repeats_in. intros Hin. rewrite Forall_forall in Ha. apply Hne.
    apply elem_of_cons in Hin as [->|Hin]; [done|]. apply String.leb_antisym.
    + apply Ha. by left.
    + apply StronglySorted_inv in Hs as [_ Hb]. rewrite Forall_forall in Hb. by apply Hb.
Qed.

Lemma drop_chars_end n s : String.length s ≤ n → drop_chars n s = EmptyString.
Proof. revert s. induction n as [|n IH]; intros [|c s] Hn; cbn in *; try done; [lia|]. apply IH. lia. Qed.

(** What an error says of a state that is right. *)
Definition error_at (source : string) (e : SyntaxError) : Prop :=
  let o := pl_offset (se_start e) in
  o ≤ String.length source ∧
  (∀ x, x ∈ se_expected e → accepts x (drop_chars o source) = false) ∧
  se_found e = match drop_chars o source with String c _ => Some c | EmptyString => None end ∧
  stands_at (take_chars o source) (mkDetails (pl_line (se_start e)) (pl_column (se_start e))).

Lemma built_error source l : log_ok source l →
  error_at source (buildStructuredError source l) ∧ se_expected (buildStructuredError source l) = l.2 ∧
  pl_offset (se_start (buildStructuredError source l)) = l.1 ∧
  se_message (buildStructuredError source l) = buildMessage l.2 (se_found (buildStructuredError source l)).
Proof.
  intros [Hp Hr]. unfold buildStructuredError, computeLocation.
  assert (cache_ok source [Some (mkDetails 1 1)]) as Hc.
  { split; [done|by exists (mkDetails 1 1)|]. intros [|p] d; [by intros [= <-]|done]. }
  destruct (position_details source l.1 _ Hc) as [E1 Hc1].
  destruct (computePosDetails source l.1 [Some (mkDetails 1 1)]) as [d1 cache1]. cbn [fst snd] in E1, Hc1.
  destruct (computePosDetails source (if Nat.ltb l.1 (String.length source) then S l.1 else l.1) cache1) as [d2 cache2].
  split; [|by split_and!]. unfold error_at. cbn [se_start pl_offset se_expected se_found pl_line pl_column]. split_and!.
  - done.
  - by rewrite Forall_forall in Hr.
  - destruct (Nat.ltb_spec l.1 (String.length source)) as [|Hge]; [done|]. by rewrite drop_chars_end.
  - rewrite E1. unfold details_at.
    assert (stands_at (EmptyString ⊕ take_chars l.1 source) (walk (mkDetails 1 1) source l.1)) as Hs.
    { apply walk_stands; [done|]. exists EmptyString, EmptyString. split_and!; try done. by left. }
    by destruct (walk (mkDetails 1 1) source l.1).
Qed.

(** C31: the parser with its error state accepts exactly what the parser accepts, with
    the same tree; and what it says of anything else is true: the offset is in the
    text, at or after everything that was read; something is expected there, and
    nothing that is expected is what the text goes on with; the character it names
    is the one that stands there; the line and column are those of the offset; and
    the message lists each expectation once, in order. *)
Theorem syntax_error_exact source :
  match parse source with
  | inl ast => peg_parse source = Some ast
  | inr e =>
      peg_parse source = None ∧ error_at source e ∧ se_expected e ≠ [] ∧
      (∀ ast rest, parseStart (S (String.length source)) source = POk ast rest → currPos source rest ≤ pl_offset (se_start e)) ∧
      se_message e = buildMessage (se_expected e) (se_found e) ∧
      StronglySorted text_le (descriptions (se_expected e)) ∧ NoDup (descriptions (se_expected e)) ∧
      (∀ t, t ∈ descriptions (se_expected e) ↔ ∃ x, x ∈ se_expected e ∧ t = describeExpectation x)
  end.
Proof.
  assert (∀ expected, StronglySorted text_le (descriptions expected) ∧ NoDup (descriptions expected) ∧
    (∀ t, t ∈ descriptions expected ↔ ∃ x, x ∈ expected ∧ t = describeExpectation x)) as Hd.
  { intros expected. unfold descriptions. destruct (drop_repeats_sorted (merge_sort text_le (describeExpectation <$> expected))) as [H1 H2];
      [apply (StronglySorted_merge_sort text_le)|]. split_and!; [done..|]. intros t.
    rewrite drop_repeats_in, (merge_sort_Permutation text_le), list_elem_of_fmap. naive_solver. }
  unfold parse, peg_parse. pose proof (erases_xStart source (S (String.length source)) 0 (0, []) source) as He.
  pose proof (start_expects source (S (String.length source))) as Hne.
  destruct (sound_xStart source (S (String.length source)) 0 (0, []) source (all_input source) (start_log source)) as (Hl & _ & Ht).
  destruct (xStart source (S (String.length source)) 0 (0, []) source) as [r l]. cbn [fst snd] in *. rewrite <- He.
  assert (∀ l, log_ok source l → l.2 ≠ [] → let e := buildStructuredError source l in
    error_at source e ∧ se_expected e ≠ [] ∧ pl_offset (se_start e) = l.1 ∧ se_message e = buildMessage (se_expected e) (se_found e)) as Hb.
  { intros l' Hl' Hn'. destruct (built_error source l' Hl') as (? & E & ? & ?). cbn zeta. rewrite E. by split_and!. }
  destruct r as [|ast rest|].
  - destruct (Hb l Hl Hne) as (K1 & K2 & K3 & K4). split; [done|]. by split_and!; [| |intros ? ? [=]| | | |]; try apply Hd.
  - destruct rest as [|c rest]; [done|]. specialize (Ht ast _ eq_refl).
    destruct (peg_fail_ok source XEnd (String c rest) l Ht Hl eq_refl) as [[F1 F2]|[En _]]; [|done].
    destruct (Hb _ F1 F2) as (K1 & K2 & K3 & K4). split; [done|]. split_and!; try done; try apply Hd.
    intros ast' rest' [= <- <-]. rewrite K3. unfold peg_fail. destruct (Nat.ltb_spec (currPos source (String c rest)) l.1); [lia|].
    destruct (Nat.ltb_spec l.1 (currPos source (String c rest))); cbn [fst]; lia.
  - destruct (Hb l Hl Hne) as (K1 & K2 & K3 & K4). split; [done|]. by split_and!; [| |intros ? ? [=]| | | |]; try apply Hd.
Qed.

(** The lints get their message from here: with the text of the error for the
    parameter of Lint.v, [parseExpression] is the one of parser.ts. *)
Theorem parse_expression_message source :
  parseExpression syntax_message source =
  match parse_expression source with inl ast => inl ast | inr e => inr (pe_message e) end.
Proof.
  unfold parseExpression, parse_expression, syntax_message.
  pose proof (erases_xStart source (S (String.length source)) 0 (0, []) source) as He. unfold peg_parse. rewrite <- He.
  unfold parse. destruct (xStart source (S (String.length source)) 0 (0, []) source) as [[|ast [|c rest]|] l]; reflexivity.
Qed.

(** The errors of three texts. *)
Example error_texts :
  syntax_message "a.1" = "Expected [a-zA-Z_] but " ⊕ in_quotes "1" ⊕ " found." ∧
  se_start <$> (match parse "a ==" with inr e => Some e | inl _ => None end) = Some (mkPlace 4 1 5) ∧
  se_found <$> (match parse "len(a" with inr e => Some e | inl _ => None end) = Some None.
Proof. split_and!; vm_compute; reflexivity. Qed.
