(* ===== verification/Duration.v ===== *)
(** * ISO-8601 durations and workflow ids (workflow-modeller/src/domain/validate.ts)

    The regular expressions of the validator.  [ISO_DURATION] is the
    recogniser; [duration_lang] reads the pattern as a language, and the two
    agree: a component the greedy match takes could only be given back to a
    later component that ends in another letter. *)

From S2P Require Import Prelude Peg.

#[local] Arguments String.append !_ _ / : simpl nomatch.

(** ** Definitions *)

(** [[A-Za-z0-9_:\-]] *)
Definition is_id_char (c : ascii) : bool :=
  (in_range "A" "Z" c || in_range "a" "z" c || is_digit c || Ascii.eqb c "_" || Ascii.eqb c ":" ||
   Ascii.eqb c "-")%bool.

(** [ID_PATTERN.test(id)] *)
Definition ID_PATTERN (id : string) : bool := (truthy_str id && all_chars is_id_char id)%bool.

(** [(\d+c)?] followed by the rest of the pattern. *)
Definition skip_unit (c : ascii) (s : string) : string :=
  let '(ds, r) := span is_digit s in
  match ds, r with
  | String _ _, String c' r' => if Ascii.eqb c' c then r' else s
  | _, _ => s
  end.

(** [(\d+(?:\.\d+)?S)?] *)
Definition skip_seconds (s : string) : string :=
  let '(ds, r) := span is_digit s in
  match ds, r with
  | String _ _, String c' r' =>
      if Ascii.eqb c' "." then
        let '(fs, r2) := span is_digit r' in
        match fs, r2 with
        | String _ _, String c2 r3 => if Ascii.eqb c2 "S" then r3 else s
        | _, _ => s
        end
      else if Ascii.eqb c' "S" then r' else s
  | _, _ => s
  end.

Definition starts_digit (s : string) : bool :=
  match s with String c _ => is_digit c | EmptyString => false end.

(** [(T(?=\d)(\d+H)?(\d+M)?(\d+(?:\.\d+)?S)?)?$] *)
Definition match_time (s : string) : bool :=
  match s with
  | EmptyString => true
  | String c t =>
      (Ascii.eqb c "T" && starts_digit t &&
       String.eqb (skip_seconds (skip_unit "M" (skip_unit "H" t))) EmptyString)%bool
  end.

(** [ISO_DURATION_PATTERN.test(s)] *)
Definition ISO_DURATION (s : string) : bool :=
  match s with
  | String c t =>
      (Ascii.eqb c "P" && truthy_str t &&
       match_time (skip_unit "D" (skip_unit "W" (skip_unit "M" (skip_unit "Y" t)))))%bool
  | EmptyString => false
  end.

(** ** The language of the pattern *)

(** [\d+] *)
Definition digits1 (s : string) : Prop := s ≠ EmptyString ∧ all_chars is_digit s = true.

(** [(\d+c)?] *)
Definition unit_lang (c : ascii) (s : string) : Prop :=
  s = EmptyString ∨ ∃ ds, digits1 ds ∧ s = ds ⊕ String c EmptyString.

(** [(\d+(?:\.\d+)?S)?] *)
Definition seconds_lang (s : string) : Prop :=
  s = EmptyString ∨ (∃ ds, digits1 ds ∧ s = ds ⊕ "S") ∨
  ∃ ds fs, digits1 ds ∧ digits1 fs ∧ s = ds ⊕ "." ⊕ fs ⊕ "S".

(** [(T(?=\d)(\d+H)?(\d+M)?(\d+(?:\.\d+)?S)?)?]; the lookahead needs a component. *)
Definition time_lang (s : string) : Prop :=
  s = EmptyString ∨ ∃ h m x, unit_lang "H" h ∧ unit_lang "M" m ∧ seconds_lang x ∧
    h ⊕ m ⊕ x ≠ EmptyString ∧ s = "T" ⊕ h ⊕ m ⊕ x.

Definition duration_lang (s : string) : Prop :=
  ∃ y mo w d t, unit_lang "Y" y ∧ unit_lang "M" mo ∧ unit_lang "W" w ∧ unit_lang "D" d ∧
    time_lang t ∧ y ⊕ mo ⊕ w ⊕ d ⊕ t ≠ EmptyString ∧ s = "P" ⊕ y ⊕ mo ⊕ w ⊕ d ⊕ t.

(** ** Lemmas *)

(** The unit after the leading digits. *)
Definition after_digits (s : string) : option ascii :=
  match (span is_digit s).2 with String c _ => Some c | EmptyString => None end.

Lemma skip_unit_split c s : ∃ u, unit_lang c u ∧ s = u ⊕ skip_unit c s.
Proof.
  unfold skip_unit. destruct (span_spec is_digit s) as (Hs & Hd & _).
  destruct (span is_digit s) as [[|d ds] [|c' r]]; simpl in *; try (by exists EmptyString; split; [left|]).
  destruct (Ascii.eqb_spec c' c) as [->|]; [|by exists EmptyString; split; [left|]].
  exists (String d ds ⊕ String c EmptyString). split; [right; by exists (String d ds)|].
  by rewrite Hs, str_app_assoc.
Qed.

Lemma skip_seconds_split s : ∃ u, seconds_lang u ∧ s = u ⊕ skip_seconds s.
Proof.
  unfold skip_seconds. destruct (span_spec is_digit s) as (Hs & Hd & _).
  destruct (span is_digit s) as [[|d ds] [|c' r]]; simpl in *; try (by exists EmptyString; split; [left|]).
  destruct (Ascii.eqb_spec c' ".") as [->|].
  - destruct (span_spec is_digit r) as (Hr & Hf & _).
    destruct (span is_digit r) as [[|f fs] [|c2 r3]]; simpl in *; try (by exists EmptyString; split; [left|]).
    destruct (Ascii.eqb_spec c2 "S") as [->|]; [|by exists EmptyString; split; [left|]].
    exists (String d ds ⊕ "." ⊕ String f fs ⊕ "S"). split.
    + right; right. by exists (String d ds), (String f fs).
    + rewrite Hs, Hr. simpl. by rewrite !str_app_assoc; simpl; rewrite str_app_assoc.
  - destruct (Ascii.eqb_spec c' "S") as [->|]; [|by exists EmptyString; split; [left|]].
    exists (String d ds ⊕ "S"). split; [right; left; by exists (String d ds)|].
    by rewrite Hs, str_app_assoc.
Qed.

Lemma skip_unit_none c s : after_digits s ≠ Some c → skip_unit c s = s.
Proof.
  unfold after_digits, skip_unit. destruct (span is_digit s) as [[|d ds] [|c' r]]; simpl; try done.
  intros H. destruct (Ascii.eqb_spec c' c); congruence.
Qed.

Lemma span_unit ds c r :
  all_chars is_digit ds = true → is_digit c = false → span is_digit (ds ⊕ String c r) = (ds, String c r).
Proof. intros. apply span_app; [done|]. simpl. done. Qed.

(** A unit in front of [r] is skipped when [r] does not look like the same unit. *)
Lemma skip_unit_app c u r :
  is_digit c = false → unit_lang c u → after_digits r ≠ Some c → skip_unit c (u ⊕ r) = r.
Proof.
  intros Hc [->|(ds & [Hne Hd] & ->)] Hr; [by apply skip_unit_none|].
  unfold skip_unit. rewrite str_app_assoc. simpl. rewrite span_unit by done.
  destruct ds; [done|]. by rewrite Ascii.eqb_refl.
Qed.

Lemma after_digits_unit c u r x :
  is_digit c = false → unit_lang c u → after_digits (u ⊕ r) = Some x → x = c ∨ after_digits r = Some x.
Proof.
  intros Hc [->|(ds & [Hne Hd] & ->)]; [by right|]. unfold after_digits at 1.
  rewrite str_app_assoc. simpl. rewrite span_unit by done. intros [= ->]. by left.
Qed.

Lemma after_digits_seconds u x : seconds_lang u → after_digits u = Some x → x = "S"%char ∨ x = "."%char.
Proof.
  intros [->|[(ds & [_ Hd] & ->)|(ds & fs & [_ Hd] & _ & ->)]]; unfold after_digits; simpl; [done| |].
  - rewrite span_unit by done. naive_solver.
  - rewrite span_unit by done. naive_solver.
Qed.

Lemma skip_seconds_all u : seconds_lang u → skip_seconds u = EmptyString.
Proof.
  intros [->|[(ds & [Hn Hd] & ->)|(ds & fs & [Hn Hd] & [Hn' Hf] & ->)]]; [done| |]; unfold skip_seconds.
  - rewrite span_unit by done. by destruct ds.
  - simpl. rewrite span_unit by done. destruct ds; [done|]. simpl. rewrite span_unit by done. by destruct fs.
Qed.

Lemma unit_starts_digit c u r : unit_lang c u → u ≠ EmptyString → starts_digit (u ⊕ r) = true.
Proof.
  intros [->|(ds & [Hn Hd] & ->)] H; [done|]. destruct ds as [|d ds]; [done|]. simpl in *. by bool_hyps.
Qed.

Lemma seconds_starts_digit u : seconds_lang u → u ≠ EmptyString → starts_digit u = true.
Proof.
  intros [->|[(ds & [Hn Hd] & ->)|(ds & fs & [Hn Hd] & _ & ->)]] H; [done| |];
    destruct ds as [|d ds]; simpl in *; try done; by bool_hyps.
Qed.

Lemma match_time_iff s : match_time s = true ↔ time_lang s.
Proof.
  split.
  - destruct s as [|c t]; simpl; [by left|]. intros H. bool_hyps. apply Ascii.eqb_eq in H; subst.
    right. destruct (skip_unit_split "H" t) as (h & Hh & Et).
    destruct (skip_unit_split "M" (skip_unit "H" t)) as (m & Hm & Em).
    destruct (skip_seconds_split (skip_unit "M" (skip_unit "H" t))) as (x & Hx & Ex).
    exists h, m, x. match goal with H : skip_seconds _ = _ |- _ => rewrite H, str_app_nil_r in Ex end.
    rewrite Ex in Em. rewrite Em in Et. rewrite <- Et. split_and!; try done. by destruct t.
  - intros [->|(h & m & x & Hh & Hm & Hx & Hne & ->)]; [done|]. simpl.
    assert (starts_digit (h ⊕ m ⊕ x) = true) as ->.
    { destruct (decide (h = EmptyString)) as [->|]; [|by eapply unit_starts_digit]. simpl.
      destruct (decide (m = EmptyString)) as [->|]; [|by eapply unit_starts_digit].
      by apply seconds_starts_digit. }
    simpl. rewrite (skip_unit_app "H" h), (skip_unit_app "M" m), skip_seconds_all; try done.
    + intros H. by apply after_digits_seconds in H as [?|?].
    + intros H. apply (after_digits_unit "M") in H as [?|H]; [done| |done|done].
      by apply after_digits_seconds in H as [?|?].
Qed.

Lemma after_digits_time t x : time_lang t → after_digits t = Some x → x = "T"%char.
Proof. intros [->|(h & m & y & _ & _ & _ & _ & ->)]; [done|]. unfold after_digits. simpl. naive_solver. Qed.

(** The four date components are skipped one after the other. *)
Lemma skip_date y mo w d t :
  unit_lang "Y" y → unit_lang "M" mo → unit_lang "W" w → unit_lang "D" d → time_lang t →
  skip_unit "D" (skip_unit "W" (skip_unit "M" (skip_unit "Y" (y ⊕ mo ⊕ w ⊕ d ⊕ t)))) = t.
Proof.
  intros Hy Hmo Hw Hd Ht.
  assert (∀ x, after_digits t = Some x → x = "T"%char) as H0 by (intros; by apply (after_digits_time t)).
  assert (∀ x, after_digits (d ⊕ t) = Some x → x = "D"%char ∨ x = "T"%char) as H1
    by (intros x H; apply (after_digits_unit "D") in H; naive_solver).
  assert (∀ x, after_digits (w ⊕ d ⊕ t) = Some x → x = "W"%char ∨ x = "D"%char ∨ x = "T"%char) as H2
    by (intros x H; apply (after_digits_unit "W") in H; naive_solver).
  assert (∀ x, after_digits (mo ⊕ w ⊕ d ⊕ t) = Some x →
    x = "M"%char ∨ x = "W"%char ∨ x = "D"%char ∨ x = "T"%char) as H3
    by (intros x H; apply (after_digits_unit "M") in H; naive_solver).
  rewrite (skip_unit_app "Y"), (skip_unit_app "M"), (skip_unit_app "W"), (skip_unit_app "D");
    naive_solver.
Qed.

Lemma ISO_DURATION_lang s : ISO_DURATION s = true ↔ duration_lang s.
Proof.
  split.
  - destruct s as [|c t]; simpl; [done|]. intros H. bool_hyps. apply Ascii.eqb_eq in H; subst.
    match goal with H : truthy_str _ = true |- _ => apply truthy_str_true in H end.
    destruct (skip_unit_split "Y" t) as (y & Hy & Ey). set (t1 := skip_unit "Y" t) in *.
    destruct (skip_unit_split "M" t1) as (mo & Hmo & Emo). set (t2 := skip_unit "M" t1) in *.
    destruct (skip_unit_split "W" t2) as (w & Hw & Ew). set (t3 := skip_unit "W" t2) in *.
    destruct (skip_unit_split "D" t3) as (d & Hd & Ed).
    exists y, mo, w, d, (skip_unit "D" t3). rewrite <- Ed, <- Ew, <- Emo, <- Ey.
    split_and!; try done. by apply match_time_iff.
  - intros (y & mo & w & d & t & Hy & Hmo & Hw & Hd & Ht & Hne & ->). simpl.
    rewrite skip_date by done. rewrite (proj2 (truthy_str_true _)) by done. by apply match_time_iff.
Qed.

(** ** Properties *)

(** The ISO-8601 recogniser accepts exactly the language its regular
    expression denotes: [P], the components Y M W D in that order, each
    optional, then an optional [T] with at least one of H M S, and at least
    one component in all. *)
Theorem ISO_DURATION_iff s : ISO_DURATION s = true ↔ duration_lang s.
Proof. apply ISO_DURATION_lang. Qed.
