(* ===== verification/Validate.v ===== *)
(** * The validator (workflow-modeller/src/domain/validate.ts)

    One definition per [check...] function; the function returns the
    diagnostics the code pushes on [out], in the order it pushes them, and
    [validate] concatenates them in the order of the calls.  The graph walks
    are those of [Walk], with the fuel [Walk] proves to be enough.  A step
    whose [type] names a member of [Object.prototype] is left out of the model:
    [KNOWN_STEP_KEYS[step.type]] would find that member. *)

From S2P Require Import Prelude JsObject Types Graph Walk Expr Peg Lint Duration.

Definition HIT_POLICIES : list string := ["U"; "F"; "A"; "R"; "C"; "C+"; "C#"; "C>"; "C<"].

(** ** Checks on the definition *)

Definition checkIdFormat (def : WorkflowDefinition) : list Diagnostic :=
  if (negb (truthy_str (wd_id def)) || negb (ID_PATTERN (wd_id def)) ||
      Nat.ltb 256 (String.length (wd_id def)))%bool
  then [diag ID_FORMAT SevError "Workflow id must match [A-Za-z0-9_:-]+ and be ≤ 256 characters."
          None (Some "id")]
  else [].

Definition checkNameRequired (def : WorkflowDefinition) : list Diagnostic :=
  (if blank (wd_name def)
   then [diag NAME_REQUIRED SevError "Workflow name is required." None (Some "name")] else []) ++
  (wd_steps def ≫= λ step,
     if blank (step_name step)
     then [diag NAME_REQUIRED SevError ("Step " ⊕ quoted (step_id step) ⊕ " must have a name.")
             (Some (step_id step)) (Some "name")]
     else []).

Definition checkStepsNonEmpty (def : WorkflowDefinition) : list Diagnostic :=
  if Nat.eqb (length (wd_steps def)) 0
  then [diag STEPS_NONEMPTY SevError "Workflow must contain at least one step." None (Some "steps")]
  else [].

(** The loop with its [seen] set. *)
Fixpoint duplicate_ids (seen : gset StepId) (steps : list Step) : list Diagnostic :=
  match steps with
  | [] => []
  | step :: steps =>
      (if bool_decide (step_id step ∈ seen)
       then [diag STEP_ID_UNIQUE SevError ("Duplicate step id: " ⊕ quoted (step_id step) ⊕ ".")
               (Some (step_id step)) (Some "id")]
       else []) ++ duplicate_ids ({[step_id step]} ∪ seen) steps
  end.

Definition checkStepIdsUnique (def : WorkflowDefinition) : list Diagnostic :=
  duplicate_ids ∅ (wd_steps def).

Definition checkStepIdsPresent (def : WorkflowDefinition) : list Diagnostic :=
  indexed (wd_steps def) ≫= λ p,
    if blank (step_id p.2)
    then [diag STEP_ID_REQUIRED SevError ("Step at index " ⊕ str_of_nat p.1 ⊕ " is missing an id.")
            None (Some "id")]
    else [].

Definition checkStepTypesValid (def : WorkflowDefinition) : list Diagnostic :=
  wd_steps def ≫= λ step,
    if negb (includes STEP_TYPES (step_type step))
    then [diag STEP_TYPE_VALID SevError
            ("Step " ⊕ quoted (step_id step) ⊕ " has unknown type " ⊕ quoted (step_type step) ⊕ ".")
            (Some (step_id step)) (Some "type")]
    else [].

Definition checkNextWorkflowConsistency (def : WorkflowDefinition) : list Diagnostic :=
  let enabled := bool_decide (wd_autoStartNextWorkflow def = Some true) in
  let hasId := match wd_nextWorkflowId def with
               | Some n => negb (String.eqb (js_trim n) EmptyString)
               | None => false
               end in
  if xorb enabled hasId
  then [diag NEXT_WORKFLOW_CONSISTENCY SevError
          "autoStartNextWorkflow must be set together with a non-empty nextWorkflowId."
          None (Some "nextWorkflowId")]
  else [].

(** ** Checks on one step *)

(** A guard that reports on the field of a step. *)
Definition flag (b : bool) (code : DiagnosticCode) (step : StepId) (msg field : string) : list Diagnostic :=
  if b then [diag code SevError msg (Some step) (Some field)] else [].

Definition forbiddenFields : list string :=
  ["conditionalNextSteps"; "transformations"; "parallelNextSteps"; "joinStep"; "jobType";
   "delegateClass"; "retryCount"; "boundaryEvents"].

(** [typeof h === 'string' && h.length > 1 && h[0] !== 'C' && ['+', '#', '>', '<'].includes(h[1])] *)
Definition aggregator_on_non_c (h : string) : bool :=
  match h with
  | String c0 (String c1 _) =>
      (negb (Ascii.eqb c0 "C") && existsb (Ascii.eqb c1) ["+"; "#"; ">"; "<"]%char)%bool
  | _ => false
  end.

Definition is_catch_all (rule : DecisionTableRule) : bool := Nat.eqb (length (obj_keys (r_when rule))) 0.

(** The [forEach] that tracks [firstCatchAllIndex] ([None] is -1). *)
Fixpoint unreachable_rules (id : StepId) (first : option nat) (rules : list (nat * DecisionTableRule)) :
    list Diagnostic :=
  match rules with
  | [] => []
  | (i, rule) :: rules =>
      match first with
      | Some f =>
          if Nat.ltb f i
          then mkDiag DECISION_TABLE_UNREACHABLE_RULE SevWarning
                 ("Rule " ⊕ str_of_nat (i + 1) ⊕ " is unreachable: rule " ⊕ str_of_nat (f + 1) ⊕
                  " is a catch-all and matches first.")
                 (Some id) (Some "decisionTable.rules") None None (Some i) None
               :: unreachable_rules id first rules
          else unreachable_rules id first rules
      | None => unreachable_rules id (if is_catch_all rule then Some i else None) rules
      end
  end.

Definition legacy_then (id : StepId) (rules : list DecisionTableRule) : list Diagnostic :=
  indexed rules ≫= λ p,
    if obj_has (r_extra p.2) "then"
    then [mkDiag DECISION_TABLE_LEGACY_THEN SevError
            ("DECISION_TABLE " ⊕ quoted id ⊕ " rule " ⊕ str_of_nat (p.1 + 1) ⊕ " carries legacy " ⊕
             quoted "then" ⊕ " field — use the step-level " ⊕ quoted "nextStep" ⊕ " plus per-rule " ⊕
             quoted "outputs" ⊕ " (see workflow-format.md, " ⊕ quoted "Migration from 005" ⊕ ").")
            (Some id) (Some "decisionTable.rules") None None (Some p.1) None]
    else [].

(** The DECISION_TABLE case of [checkStepVariantShape]. *)
Definition checkDecisionTableShape (c : StepCommon) (hitPolicy : option string) (nextStep : StepId)
    (table : DecisionTable) : list Diagnostic :=
  let id := sc_id c in
  let rules := dt_rules table in
  let what := "DECISION_TABLE " ⊕ quoted id in
  flag (Nat.eqb (length rules) 0) DECISION_TABLE_HAS_RULES id
    (what ⊕ " must declare at least one rule.") "decisionTable.rules" ++
  flag (blank nextStep) DECISION_TABLE_HAS_NEXT id (what ⊕ " must declare nextStep.") "nextStep" ++
  match hitPolicy with
  | Some h =>
      flag (negb (includes HIT_POLICIES h)) DECISION_TABLE_HIT_POLICY_UNKNOWN id
        (what ⊕ " has unknown hitPolicy " ⊕ quoted h ⊕ ". Allowed: U, F, A, R, C, C+, C#, C>, C<.")
        "hitPolicy" ++
      flag (aggregator_on_non_c h) DECISION_TABLE_AGGREGATOR_ON_NON_C id
        (what ⊕ " hitPolicy " ⊕ quoted h ⊕ " applies an aggregator to a non-Collect policy.") "hitPolicy"
  | None => []
  end ++
  legacy_then id rules ++
  flag (obj_has (dt_extra table) "defaultNextStep") DECISION_TABLE_LEGACY_DEFAULT_NEXT_STEP id
    (what ⊕ " carries legacy " ⊕ quoted "defaultNextStep" ⊕
     " field — no-match is a runtime failure now (see workflow-format.md, " ⊕
     quoted "Migration from 005" ⊕ ").") "decisionTable.defaultNextStep" ++
  (forbiddenFields ≫= λ f,
     flag (obj_has (sc_extra c) f) STEP_FIELD_INVALID id
       ("Field " ⊕ quoted f ⊕ " is not valid on a DECISION_TABLE step.") f) ++
  unreachable_rules id None (indexed rules).

Definition checkStepVariantShape (step : Step) : list Diagnostic :=
  let id := step_id step in
  match step with
  | DecisionStep _ branches =>
      flag (Nat.eqb (length (obj_keys branches)) 0) DECISION_HAS_BRANCHES id
        ("DECISION " ⊕ quoted id ⊕ " must declare at least one branch.") "conditionalNextSteps"
  | DecisionTableStep c hitPolicy nextStep table => checkDecisionTableShape c hitPolicy nextStep table
  | TransformationStep _ nextStep transformations =>
      flag (blank nextStep) TRANSFORMATION_HAS_NEXT id
        ("TRANSFORMATION " ⊕ quoted id ⊕ " must declare nextStep.") "nextStep" ++
      flag (Nat.eqb (length (obj_keys transformations)) 0) TRANSFORMATION_HAS_ENTRIES id
        ("TRANSFORMATION " ⊕ quoted id ⊕ " must declare at least one transformation entry.")
        "transformations"
  | WaitStep _ nextStep _ =>
      flag (blank nextStep) WAIT_HAS_NEXT id ("WAIT " ⊕ quoted id ⊕ " must declare nextStep.") "nextStep"
  | ParallelGatewayStep _ parallelNextSteps joinStep =>
      flag (Nat.ltb (length parallelNextSteps) 2) PARALLEL_MIN_BRANCHES id
        ("PARALLEL_GATEWAY " ⊕ quoted id ⊕ " must declare at least two parallel branches.")
        "parallelNextSteps" ++
      flag (blank joinStep) PARALLEL_HAS_JOIN id
        ("PARALLEL_GATEWAY " ⊕ quoted id ⊕ " must declare a joinStep.") "joinStep"
  | JoinGatewayStep _ nextStep =>
      flag (blank nextStep) JOIN_HAS_NEXT id
        ("JOIN_GATEWAY " ⊕ quoted id ⊕ " must declare nextStep.") "nextStep"
  | ServiceTaskStep _ _ _ _ _ _ | UserTaskStep _ _ _ _ | EndStep _ | UnknownTypeStep _ _ => []
  end.

(** The closure [missing]. *)
Definition missing (step : StepId) (target field : string) (branchKey : option string) : Diagnostic :=
  mkDiag REF_RESOLVES SevError
    ("Step " ⊕ quoted step ⊕ " references missing step " ⊕ quoted target ⊕ ".")
    (Some step) (Some field) branchKey None None None.

Section refs.
Context (index : gmap StepId Step).

(** [index.has(id)] *)
Definition index_has (id : StepId) : bool := bool_decide (is_Some (index !! id)).

(** [if (next && !index.has(next)) missing(next, 'nextStep')] *)
Definition check_next (step : StepId) (next field : string) : list Diagnostic :=
  if (truthy_str next && negb (index_has next))%bool then [missing step next field None] else [].

Definition checkRefsResolve (step : Step) : list Diagnostic :=
  let id := step_id step in
  match step with
  | ServiceTaskStep _ nextStep _ _ _ _ | UserTaskStep _ nextStep _ _ =>
      match nextStep with Some n => check_next id n "nextStep" | None => [] end
  | WaitStep _ nextStep _ | TransformationStep _ nextStep _ | JoinGatewayStep _ nextStep
  | DecisionTableStep _ _ nextStep _ => check_next id nextStep "nextStep"
  | DecisionStep _ branches =>
      branches ≫= λ p,
        if negb (index_has p.2) then [missing id p.2 "conditionalNextSteps" (Some p.1)] else []
  | ParallelGatewayStep _ parallelNextSteps joinStep =>
      (parallelNextSteps ≫= λ target,
         if negb (index_has target) then [missing id target "parallelNextSteps" None] else []) ++
      check_next id joinStep "joinStep"
  | EndStep _ | UnknownTypeStep _ _ => []
  end.

Definition boundary_diag (code : DiagnosticCode) (step : StepId) (i : nat) (msg : string) : Diagnostic :=
  mkDiag code SevError ("Boundary event " ⊕ str_of_nat i ⊕ " on " ⊕ quoted step ⊕ msg)
    (Some step) (Some "boundaryEvents") None (Some i) None None.

Definition checkBoundaryEvent (id : StepId) (i : nat) (evt : BoundaryEvent) : list Diagnostic :=
  (if negb (String.eqb (be_type evt) "TIMER")
   then [boundary_diag BOUNDARY_TYPE id i " must be of type TIMER."] else []) ++
  (if (negb (truthy_str (be_duration evt)) || negb (ISO_DURATION (be_duration evt)))%bool
   then [boundary_diag BOUNDARY_DURATION id i " must have a non-empty ISO-8601 duration."] else []) ++
  (if (negb (truthy_str (be_targetStepId evt)) || negb (index_has (be_targetStepId evt)))%bool
   then [boundary_diag BOUNDARY_TARGET_RESOLVES id i
           (" references missing step " ⊕ quoted (be_targetStepId evt) ⊕ ".")] else []).

Definition checkBoundaryEvents (step : Step) : list Diagnostic :=
  match step with
  | ServiceTaskStep _ _ _ _ _ events | UserTaskStep _ _ _ events | WaitStep _ _ events =>
      match events with
      | None => []
      | Some evs => indexed evs ≫= λ p, checkBoundaryEvent (step_id step) p.1 p.2
      end
  | _ =>
      match obj_get (step_extra step) "boundaryEvents" with
      | Some v =>
          if is_array v
          then [diag BOUNDARY_PARENT_SUPPORTS SevError
                  ("Step " ⊕ quoted (step_id step) ⊕ " of type " ⊕ step_type step ⊕
                   " cannot have boundary events.") (Some (step_id step)) (Some "boundaryEvents")]
          else []
      | None => []
      end
  end.
End refs.

Definition remapCellCode (code : DiagnosticCode) : DiagnosticCode :=
  match code with
  | DECISION_EXPR_SYNTAX => DT_CELL_EXPR_SYNTAX
  | DECISION_EXPR_NON_BOOLEAN => DT_CELL_EXPR_NON_BOOLEAN
  | DECISION_EXPR_UNKNOWN_IDENT => DT_CELL_EXPR_UNKNOWN_IDENT
  | _ => code
  end.

(** The [Set] of the variables transformations produce, in insertion order. *)
Definition collectKnownVariables (def : WorkflowDefinition) : list string :=
  wd_steps def ≫= λ step,
    match step with TransformationStep _ _ transformations => obj_keys transformations | _ => [] end.

Section expressions.
Context (peg_message : string → string).

Definition lint_cell (id : StepId) (knownVars : list string) (i : nat) (cell : string * string) :
    list Diagnostic :=
  if blank cell.2 then []
  else (λ d, mkDiag (remapCellCode (d_code d)) (d_severity d) (d_message d) (d_nodeId d) (d_field d)
               (d_branchKey d) (d_boundaryIndex d) (Some i) (Some cell.1)) <$>
       lintDecisionExpression peg_message cell.2 knownVars
         (mkLintContext (Some id) (Some "decisionTable.rules") None).

Definition lint_output (id : StepId) (i : nat) (output : string * json) : list Diagnostic :=
  match output.2 with
  | JStr value =>
      (λ d, mkDiag (if bool_decide (d_code d = TRANSFORMATION_EXPR_SYNTAX) then DT_OUTPUT_EXPR_SYNTAX
                    else d_code d)
              (d_severity d) (d_message d) (d_nodeId d) (d_field d)
              (d_branchKey d) (d_boundaryIndex d) (Some i) (d_cellColumn d)) <$>
      lintTransformationExpression peg_message value
        (mkLintContext (Some id) (Some "decisionTable.rules") (Some output.1))
  | _ => []
  end.

Definition checkExpressions (def : WorkflowDefinition) (step : Step) : list Diagnostic :=
  let id := step_id step in
  match step with
  | DecisionStep _ branches =>
      let knownVars := collectKnownVariables def in
      obj_keys branches ≫= λ expr,
        lintDecisionExpression peg_message expr knownVars
          (mkLintContext (Some id) (Some "conditionalNextSteps") (Some expr))
  | TransformationStep _ _ transformations =>
      transformations ≫= λ p,
        match p.2 with
        | JStr value =>
            lintTransformationExpression peg_message value
              (mkLintContext (Some id) (Some "transformations") (Some p.1))
        | _ => []
        end
  | DecisionTableStep _ _ _ table =>
      let knownVars := collectKnownVariables def in
      indexed (dt_rules table) ≫= λ p,
        (r_when p.2 ≫= lint_cell id knownVars p.1) ++ (r_outputs p.2 ≫= lint_output id p.1)
  | _ => []
  end.
End expressions.

(** ** Checks on the graph *)

Definition checkParallelJoinTarget (def : WorkflowDefinition) (index : gmap StepId Step) :
    list Diagnostic :=
  wd_steps def ≫= λ step,
    match step with
    | ParallelGatewayStep _ _ joinStep =>
        match index !! joinStep with
        | Some join =>
            if negb (String.eqb (step_type join) "JOIN_GATEWAY")
            then [diag PARALLEL_HAS_JOIN SevError
                    ("PARALLEL_GATEWAY " ⊕ quoted (step_id step) ⊕
                     " must reference a JOIN_GATEWAY (got " ⊕ step_type join ⊕ ").")
                    (Some (step_id step)) (Some "joinStep")]
            else []
        | None => []
        end
    | _ => []
    end.

Definition outgoingTargets (step : Step) : list StepId :=
  match step with
  | ServiceTaskStep _ nextStep _ _ _ _ | UserTaskStep _ nextStep _ _ =>
      match nextStep with Some n => if truthy_str n then [n] else [] | None => [] end
  | WaitStep _ nextStep _ | TransformationStep _ nextStep _ | JoinGatewayStep _ nextStep => [nextStep]
  | DecisionStep _ branches => obj_values branches
  | DecisionTableStep _ _ nextStep _ => if truthy_str nextStep then [nextStep] else []
  | ParallelGatewayStep _ parallelNextSteps _ => parallelNextSteps
  | EndStep _ | UnknownTypeStep _ _ => []
  end.

Definition allOutgoing (step : Step) : list StepId :=
  outgoingTargets step ++
  match step with
  | ServiceTaskStep _ _ _ _ _ events | UserTaskStep _ _ _ events | WaitStep _ _ events =>
      match events with Some evs => be_targetStepId <$> evs | None => [] end
  | _ => []
  end.

(** The targets of the step an id stands for; none when the index has no such step. *)
Definition targets_of (out : Step → list StepId) (index : gmap StepId Step) (id : StepId) : list StepId :=
  match index !! id with Some step => out step | None => [] end.

(** The walk of [checkReachability] from the entry step. *)
Definition reach_walk (def : WorkflowDefinition) (index : gmap StepId Step) (entry : Step) :
    option (gset StepId * list Diagnostic) :=
  let succs := targets_of allOutgoing index in
  walk succs (λ _, false) (λ _, []) (walk_fuel succs (step_ids def) [step_id entry]) [step_id entry] ∅ [].

Definition is_end_id (index : gmap StepId Step) (id : StepId) : bool :=
  match index !! id with Some s => String.eqb (step_type s) "END" | None => false end.

Definition checkReachability (def : WorkflowDefinition) (index : gmap StepId Step) : list Diagnostic :=
  match wd_steps def with
  | [] => []
  | entry :: _ =>
      match reach_walk def index entry with
      | None => []
      | Some (visited, _) =>
          (wd_steps def ≫= λ step,
             if negb (bool_decide (step_id step ∈ visited))
             then [diag ALL_REACHABLE SevError
                     ("Step " ⊕ quoted (step_id step) ⊕ " is not reachable from the entry step.")
                     (Some (step_id step)) None]
             else []) ++
          (if existsb (is_end_id index) (elements visited) then []
           else [diag END_REACHABLE SevError "No END step is reachable from the entry step." None None])
      end
  end.

(** What the loop body of [checkNestedParallel] pushes at an id. *)
Definition nested_at (index : gmap StepId Step) (outer : StepId) (id : StepId) : list Diagnostic :=
  match index !! id with
  | Some (ParallelGatewayStep _ _ _ as s) =>
      [diag NO_NESTED_PARALLEL SevError
         ("PARALLEL_GATEWAY " ⊕ quoted (step_id s) ⊕ " is nested inside " ⊕ quoted outer ⊕
          " without first reaching its join.") (Some (step_id s)) None]
  | _ => []
  end.

(** The walk of [checkNestedParallel] from the branches of one gateway. *)
Definition nested_walk (def : WorkflowDefinition) (index : gmap StepId Step) (outer : StepId)
    (branches : list StepId) (joinStep : StepId) : option (gset StepId * list Diagnostic) :=
  let succs := targets_of outgoingTargets index in
  walk succs (String.eqb joinStep) (nested_at index outer)
    (walk_fuel succs (step_ids def) (rev branches)) (rev branches) ∅ [].

Definition checkNestedParallel (def : WorkflowDefinition) (index : gmap StepId Step) : list Diagnostic :=
  wd_steps def ≫= λ step,
    match step with
    | ParallelGatewayStep _ branches joinStep =>
        match nested_walk def index (step_id step) branches joinStep with
        | Some (_, out) => out
        | None => []
        end
    | _ => []
    end.

Definition cycle_search (def : WorkflowDefinition) (index : gmap StepId Step) : option dfs_state :=
  dfs_all (targets_of allOutgoing index) (S (length (step_ids def))) (step_ids def)
    (all_white (step_ids def), []).

Definition checkGraphCycle (def : WorkflowDefinition) (index : gmap StepId Step) : list Diagnostic :=
  match cycle_search def index with
  | Some (_, node :: _) =>
      [diag GRAPH_CYCLE SevWarning ("Cycle detected in step graph (involves " ⊕ quoted node ⊕ ").")
         (Some node) None]
  | _ => []
  end.

Definition checkUnknownFields (def : WorkflowDefinition) : list Diagnostic :=
  let rootUnknown := List.filter (λ k, negb (includes KNOWN_ROOT_KEYS k)) (def_keys def) in
  (if Nat.ltb 0 (length rootUnknown)
   then [diag UNKNOWN_FIELDS_PRESENT SevWarning
           ("Unknown top-level field(s): " ⊕ js_join ", " rootUnknown ⊕ ".") None None] else []) ++
  (wd_steps def ≫= λ step,
     let known := default [] (KNOWN_STEP_KEYS (step_type step)) in
     let extras := List.filter (λ k, negb (includes known k)) (step_keys step) in
     if Nat.ltb 0 (length extras)
     then [diag UNKNOWN_FIELDS_PRESENT SevWarning
             ("Step " ⊕ quoted (step_id step) ⊕ " has unknown field(s): " ⊕ js_join ", " extras ⊕ ".")
             (Some (step_id step)) None]
     else []).

(** ** The validator *)

Definition validate (peg_message : string → string) (def : WorkflowDefinition) : list Diagnostic :=
  let stepIndex := indexSteps def in
  checkIdFormat def ++ checkNameRequired def ++ checkStepsNonEmpty def ++ checkStepIdsUnique def ++
  checkStepIdsPresent def ++ checkStepTypesValid def ++ checkNextWorkflowConsistency def ++
  (wd_steps def ≫= λ step,
     checkStepVariantShape step ++ checkRefsResolve stepIndex step ++
     checkBoundaryEvents stepIndex step ++ checkExpressions peg_message def step) ++
  checkParallelJoinTarget def stepIndex ++ checkReachability def stepIndex ++
  checkNestedParallel def stepIndex ++ checkGraphCycle def stepIndex ++ checkUnknownFields def.
