(* ===== verification/WellFormed.v ===== *)
(** * What the validator promises

    [well_formed] states, without the validator's algorithms, what a
    definition without errors is; [ValidateProps] proves that the validator
    decides it. *)

From S2P Require Import Prelude JsObject Types Graph Expr Peg Lint Duration Validate.

(** ** Flow *)

(** The flow references of a step, [joinStep] included; boundary targets apart. *)
Definition next_refs (s : Step) : list StepId :=
  match s with
  | ServiceTaskStep _ n _ _ _ _ | UserTaskStep _ n _ _ => option_list n
  | WaitStep _ n _ | TransformationStep _ n _ | JoinGatewayStep _ n | DecisionTableStep _ _ n _ => [n]
  | DecisionStep _ m => obj_values m
  | ParallelGatewayStep _ p j => p ++ [j]
  | EndStep _ | UnknownTypeStep _ _ => []
  end.

Definition boundary_of (s : Step) : list BoundaryEvent :=
  match s with
  | ServiceTaskStep _ _ _ _ _ b | UserTaskStep _ _ _ b | WaitStep _ _ b => events_of b
  | _ => []
  end.

(** Where flow goes from a step: a parallel gateway leads to its branches, and
    its join is only named by it.  With boundary events, also to their targets. *)
Definition flow_refs (s : Step) : list StepId :=
  match s with ParallelGatewayStep _ p _ => p | _ => next_refs s end.

Definition exit_refs (s : Step) : list StepId := flow_refs s ++ (be_targetStepId <$> boundary_of s).

Definition supports_boundary (s : Step) : bool :=
  match s with
  | ServiceTaskStep _ _ _ _ _ _ | UserTaskStep _ _ _ _ | WaitStep _ _ _ => true
  | _ => false
  end.

(** A task may end the flow: its [nextStep] may be absent or empty. *)
Definition optional_next (s : Step) : bool :=
  match s with ServiceTaskStep _ _ _ _ _ _ | UserTaskStep _ _ _ _ => true | _ => false end.

(** [flows out def x y]: a step with id [x] has [y] among its targets [out]. *)
Definition flows (out : Step → list StepId) (def : WorkflowDefinition) (x y : StepId) : Prop :=
  ∃ s, s ∈ wd_steps def ∧ step_id s = x ∧ y ∈ out s.

(** The ids flow reaches from the first step. *)
Inductive reachable (def : WorkflowDefinition) : StepId → Prop :=
| reachable_entry s rest : wd_steps def = s :: rest → reachable def (step_id s)
| reachable_step x y : reachable def x → flows exit_refs def x y → y ≠ EmptyString → reachable def y.

(** The ids flow reaches from [branches] without passing [join]. *)
Inductive inside (def : WorkflowDefinition) (branches : list StepId) (join : StepId) : StepId → Prop :=
| inside_branch x : x ∈ branches → x ≠ EmptyString → x ≠ join → inside def branches join x
| inside_step x y :
    inside def branches join x → flows flow_refs def x y → y ≠ EmptyString → y ≠ join →
    inside def branches join y.

(** ** The shape of one step *)

Definition table_shape (c : StepCommon) (h : option string) (n : StepId) (t : DecisionTable) : Prop :=
  dt_rules t ≠ [] ∧ blank n = false ∧ (∀ p, h = Some p → p ∈ HIT_POLICIES) ∧
  (∀ r, r ∈ dt_rules t → obj_has (r_extra r) "then" = false) ∧
  obj_has (dt_extra t) "defaultNextStep" = false ∧
  (∀ f, f ∈ forbiddenFields → obj_has (sc_extra c) f = false).

Definition shape_ok (s : Step) : Prop :=
  match s with
  | DecisionStep _ m => m ≠ []
  | DecisionTableStep c h n t => table_shape c h n t
  | TransformationStep _ n tr => blank n = false ∧ tr ≠ []
  | WaitStep _ n _ | JoinGatewayStep _ n => blank n = false
  | ParallelGatewayStep _ p j => 2 ≤ length p ∧ blank j = false
  | _ => True
  end.

Definition event_ok (def : WorkflowDefinition) (e : BoundaryEvent) : Prop :=
  be_type e = "TIMER" ∧ duration_lang (be_duration e) ∧ be_targetStepId e ∈ step_ids def.

Definition value_ok (v : json) : bool :=
  match v with JStr s => transformation_value_ok s | _ => true end.

Definition exprs_ok (s : Step) : Prop :=
  match s with
  | DecisionStep _ m => ∀ k, k ∈ obj_keys m → decision_expr_ok k = true
  | TransformationStep _ _ tr => ∀ v, v ∈ obj_values tr → value_ok v = true
  | DecisionTableStep _ _ _ t =>
      ∀ r, r ∈ dt_rules t →
        (∀ e, e ∈ obj_values (r_when r) → blank e = false → decision_expr_ok e = true) ∧
        (∀ v, v ∈ obj_values (r_outputs r) → value_ok v = true)
  | _ => True
  end.

(** ** Well-formed definitions *)

Record well_formed (def : WorkflowDefinition) : Prop := {
  wf_id : ID_PATTERN (wd_id def) = true ∧ String.length (wd_id def) ≤ 256;
  wf_name : blank (wd_name def) = false;
  wf_names : ∀ s, s ∈ wd_steps def → blank (step_name s) = false;
  wf_nonempty : wd_steps def ≠ [];
  wf_unique : NoDup (step_ids def);
  wf_ids : ∀ x, x ∈ step_ids def → blank x = false;
  wf_types : ∀ s, s ∈ wd_steps def → known_type s = true;
  wf_chain : wd_autoStartNextWorkflow def = Some true ↔
             ∃ n, wd_nextWorkflowId def = Some n ∧ blank n = false;
  wf_shape : ∀ s, s ∈ wd_steps def → shape_ok s;
  wf_refs : ∀ s r, s ∈ wd_steps def → r ∈ next_refs s →
            r ∈ step_ids def ∨ r = EmptyString ∧ optional_next s = true;
  wf_events : ∀ s e, s ∈ wd_steps def → e ∈ boundary_of s → event_ok def e;
  wf_no_events : ∀ s v, s ∈ wd_steps def → supports_boundary s = false →
                 obj_get (step_extra s) "boundaryEvents" = Some v → is_array v = false;
  wf_exprs : ∀ s, s ∈ wd_steps def → exprs_ok s;
  wf_joins : ∀ c p j, ParallelGatewayStep c p j ∈ wd_steps def →
             ∃ s, s ∈ wd_steps def ∧ step_id s = j ∧ step_type s = "JOIN_GATEWAY";
  wf_reachable : ∀ x, x ∈ step_ids def → reachable def x;
  wf_end : ∃ s, s ∈ wd_steps def ∧ step_type s = "END";
  wf_nested : ∀ c p j s, ParallelGatewayStep c p j ∈ wd_steps def → s ∈ wd_steps def →
              inside def p j (step_id s) → ∀ c' p' j', s ≠ ParallelGatewayStep c' p' j'
}.
