(* ===== verification/ValidateProps.v ===== *)
(** * The validator decides well-formedness

    Each check is characterised by the clause of [well_formed] it enforces;
    the graph checks through the correctness of the walks in [Walk]. *)

From S2P Require Import Prelude JsObject Types Graph Walk Expr Peg Lint Duration Validate WellFormed.

(** ** Checks on the definition *)

(** The only diagnostic of a guard is an error. *)
Ltac ef_guard := rewrite error_free_guard by done; rewrite ?negb_true_iff, ?negb_false_iff.

Lemma ID_PATTERN_nonempty s : ID_PATTERN s = true → truthy_str s = true.
Proof. unfold ID_PATTERN. intros. by bool_hyps. Qed.

Lemma ef_id def :
  error_free (checkIdFormat def) = true ↔
  ID_PATTERN (wd_id def) = true ∧ String.length (wd_id def) ≤ 256.
Proof.
  unfold checkIdFormat. ef_guard. rewrite !orb_false_iff, !negb_false_iff, Nat.ltb_ge.
  pose proof (ID_PATTERN_nonempty (wd_id def)). tauto.
Qed.

Lemma ef_names def :
  error_free (checkNameRequired def) = true ↔
  blank (wd_name def) = false ∧ ∀ s, s ∈ wd_steps def → blank (step_name s) = false.
Proof.
  unfold checkNameRequired. rewrite error_free_app, andb_true_iff, error_free_bind. ef_guard.
  f_equiv. setoid_rewrite error_free_guard; [|done]. by setoid_rewrite negb_true_iff.
Qed.

Lemma ef_nonempty def : error_free (checkStepsNonEmpty def) = true ↔ wd_steps def ≠ [].
Proof. unfold checkStepsNonEmpty. ef_guard. rewrite Nat.eqb_neq, length_zero_iff_nil. done. Qed.

Lemma ef_duplicates seen steps :
  error_free (duplicate_ids seen steps) = true ↔
  NoDup (step_id <$> steps) ∧ ∀ x, x ∈ step_id <$> steps → x ∉ seen.
Proof.
  revert seen. induction steps as [|s l IH]; intros seen; csimpl; [split; [|done]; intros _; split; [constructor|set_solver]|].
  rewrite error_free_app, andb_true_iff, IH. ef_guard. rewrite bool_decide_eq_false, NoDup_cons.
  set_solver.
Qed.

Lemma ef_unique def : error_free (checkStepIdsUnique def) = true ↔ NoDup (step_ids def).
Proof. unfold checkStepIdsUnique. rewrite ef_duplicates. set_solver. Qed.

Lemma ef_ids def :
  error_free (checkStepIdsPresent def) = true ↔ ∀ x, x ∈ step_ids def → blank x = false.
Proof.
  unfold checkStepIdsPresent, step_ids. rewrite error_free_bind. split.
  - intros H x (s & -> & Hs)%list_elem_of_fmap. apply list_elem_of_lookup in Hs as [i Hi].
    specialize (H (i, s) (proj2 (elem_of_indexed _ _ _) Hi)). simpl in H.
    rewrite error_free_guard in H by done. by apply negb_true_iff.
  - intros H [i s] Hi%elem_of_indexed. simpl. ef_guard. apply H, list_elem_of_fmap_2.
    by eapply list_elem_of_lookup_2.
Qed.

Lemma ef_types def :
  error_free (checkStepTypesValid def) = true ↔ ∀ s, s ∈ wd_steps def → known_type s = true.
Proof.
  unfold checkStepTypesValid. rewrite error_free_bind. setoid_rewrite error_free_guard; [|done].
  by setoid_rewrite negb_involutive.
Qed.

Lemma blank_trim n : blank n = String.eqb (js_trim n) EmptyString.
Proof. unfold blank. destruct n; done. Qed.

Lemma ef_chain def :
  error_free (checkNextWorkflowConsistency def) = true ↔
  (wd_autoStartNextWorkflow def = Some true ↔ ∃ n, wd_nextWorkflowId def = Some n ∧ blank n = false).
Proof.
  unfold checkNextWorkflowConsistency. ef_guard.
  assert ((∃ n, wd_nextWorkflowId def = Some n ∧ blank n = false) ↔
    match wd_nextWorkflowId def with Some n => negb (blank n) | None => false end = true) as ->.
  { destruct (wd_nextWorkflowId def) as [n|]; [rewrite negb_true_iff|]; naive_solver. }
  destruct (wd_nextWorkflowId def) as [n|]; [rewrite blank_trim; destruct (negb _)|];
    case_bool_decide; simpl; intuition congruence.
Qed.

(** ** Checks on one step *)

Lemma ef_flag b code s m f : error_free (flag b code s m f) = negb b.
Proof. unfold flag. by destruct b. Qed.

Create Rewrite HintDb ef.
#[local] Hint Rewrite ef_flag error_free_app andb_true_iff negb_true_iff : ef.
#[local] Hint Rewrite Nat.eqb_neq Nat.ltb_ge negb_false_iff : ef.

Lemma ef_unreachable id first rules : error_free (unreachable_rules id first rules) = true.
Proof.
  revert first. induction rules as [|[i r] rules IH]; intros first; simpl; [done|].
  destruct first as [f|]; [|apply IH]. destruct (Nat.ltb f i); apply IH.
Qed.

(** An aggregator suffix on another policy is already an unknown policy. *)
Lemma hit_policy_no_aggregator h : h ∈ HIT_POLICIES → aggregator_on_non_c h = false.
Proof. intros H. unfold HIT_POLICIES in H. set_unfold in H. by destruct_or! H; subst. Qed.

Lemma ef_legacy_then id rules :
  error_free (legacy_then id rules) = true ↔ ∀ r, r ∈ rules → obj_has (r_extra r) "then" = false.
Proof.
  unfold legacy_then. rewrite error_free_bind. split.
  - intros H r [i Hi]%list_elem_of_lookup. specialize (H (i, r) (proj2 (elem_of_indexed _ _ _) Hi)).
    simpl in H. by destruct (obj_has _ _).
  - intros H [i r] Hi%elem_of_indexed. simpl. by rewrite (H r) by (by eapply list_elem_of_lookup_2).
Qed.

Lemma ef_table c h n t :
  error_free (checkDecisionTableShape c h n t) = true ↔ table_shape c h n t.
Proof.
  unfold checkDecisionTableShape, table_shape. autorewrite with ef.
  rewrite ef_legacy_then, ef_unreachable, error_free_bind, length_zero_iff_nil.
  setoid_rewrite ef_flag. setoid_rewrite negb_true_iff.
  assert (error_free (match h with Some h => _ | None => [] end) = true ↔
    ∀ p, h = Some p → p ∈ HIT_POLICIES) as ->; [|tauto].
  destruct h as [p|]; [|split; done]. autorewrite with ef. rewrite includes_true.
  pose proof (hit_policy_no_aggregator p). naive_solver.
Qed.

Lemma length_keys {V} (o : obj V) : length (obj_keys o) = length o.
Proof. apply length_fmap. Qed.

Lemma ef_shape s : error_free (checkStepVariantShape s) = true ↔ shape_ok s.
Proof.
  destruct s; simpl; try apply ef_table; autorewrite with ef;
    rewrite ?length_keys, ?length_zero_iff_nil; try tauto; done.
Qed.

Section refs.
Context (def : WorkflowDefinition).

Lemma index_has_iff x : index_has (indexSteps def) x = true ↔ x ∈ step_ids def.
Proof. unfold index_has. by rewrite bool_decide_eq_true, indexSteps_is_Some. Qed.

Lemma ef_check_next s n f :
  error_free (check_next (indexSteps def) s n f) = true ↔ n = EmptyString ∨ n ∈ step_ids def.
Proof.
  unfold check_next. ef_guard. rewrite andb_false_iff, negb_false_iff, index_has_iff.
  by rewrite truthy_str_false.
Qed.

Lemma ef_targets {A} (l : list A) (g : A → StepId) (d : A → Diagnostic) :
  (∀ x, d_severity (d x) = SevError) →
  error_free (l ≫= λ x, if negb (index_has (indexSteps def) (g x)) then [d x] else []) = true ↔
  ∀ x, x ∈ g <$> l → x ∈ step_ids def.
Proof.
  intros Hd. rewrite error_free_bind. setoid_rewrite error_free_guard; [|done].
  setoid_rewrite negb_involutive. setoid_rewrite index_has_iff.
  setoid_rewrite list_elem_of_fmap. naive_solver.
Qed.

(** A blank or empty target is excluded by the shape, except on the tasks. *)
Lemma ef_refs s :
  shape_ok s →
  (error_free (checkRefsResolve (indexSteps def) s) = true ↔
   ∀ r, r ∈ next_refs s → r ∈ step_ids def ∨ r = EmptyString ∧ optional_next s = true).
Proof.
  assert (∀ s n f, blank n = false →
    error_free (check_next (indexSteps def) s n f) = true ↔ n ∈ step_ids def) as Hb.
  { intros s' n f Hn. rewrite ef_check_next. split; [|by right]. intros [->|]; done. }
  destruct s as [c [n|]|c [n|]|c m|c h n t|c n tr|c n b|c p j|c n|c|]; simpl; intros Hs.
  1-4: rewrite ?ef_check_next; set_solver.
  all: assert (∀ P Q : Prop, P ∨ Q ∧ false = true ↔ P) as Hf by (intuition discriminate).
  all: setoid_rewrite Hf.
  - rewrite (ef_targets m snd) by done. set_solver.
  - rewrite Hb by apply Hs. set_solver.
  - rewrite Hb by apply Hs. set_solver.
  - rewrite Hb by done. set_solver.
  - rewrite error_free_app, andb_true_iff, (ef_targets p id), list_fmap_id by done.
    rewrite Hb by apply Hs. set_solver.
  - rewrite Hb by done. set_solver.
  - set_solver.
  - set_solver.
Qed.

Lemma ef_event s i e : (∀ x, x ∈ step_ids def → blank x = false) →
  error_free (checkBoundaryEvent (indexSteps def) s i e) = true ↔ event_ok def e.
Proof.
  intros Hids. unfold checkBoundaryEvent, event_ok. rewrite !error_free_app, !andb_true_iff.
  do 3 ef_guard. rewrite String.eqb_eq, !orb_false_iff, !negb_false_iff, index_has_iff, ISO_DURATION_lang.
  split; [tauto|]. intros (? & Hd & H). split_and!; try done.
  - destruct (be_duration e); [|done]. by apply ISO_DURATION_lang in Hd.
  - specialize (Hids _ H). by destruct (be_targetStepId e).
Qed.

Lemma ef_indexed_events s b : (∀ x, x ∈ step_ids def → blank x = false) →
  error_free (match b with
              | None => []
              | Some evs => indexed evs ≫= λ p, checkBoundaryEvent (indexSteps def) s p.1 p.2
              end) = true ↔ ∀ e, e ∈ events_of b → event_ok def e.
Proof.
  intros Hids. destruct b as [evs|]; simpl; [|set_solver]. rewrite error_free_bind. split.
  - intros H e [i Hi]%list_elem_of_lookup. apply (ef_event s i); [done|].
    by apply (H (i, e)), elem_of_indexed.
  - intros H [i e] Hi%elem_of_indexed. apply ef_event; [done|]. apply H. by eapply list_elem_of_lookup_2.
Qed.

Lemma ef_boundary s : (∀ x, x ∈ step_ids def → blank x = false) →
  error_free (checkBoundaryEvents (indexSteps def) s) = true ↔
  (∀ e, e ∈ boundary_of s → event_ok def e) ∧
  ∀ v, supports_boundary s = false → obj_get (step_extra s) "boundaryEvents" = Some v →
       is_array v = false.
Proof.
  intros Hids. destruct s; simpl; try (rewrite ef_indexed_events by done; naive_solver);
    (destruct (obj_get _ _) as [v|]; [ef_guard|]; set_solver).
Qed.
End refs.

(** ** Expressions *)

Lemma ef_fmap (f : Diagnostic → Diagnostic) l :
  (∀ d, d_severity (f d) = d_severity d) → error_free (f <$> l) = error_free l.
Proof.
  intros Hf. induction l as [|d l IH]; csimpl; [done|]. unfold error_free in *. simpl.
  unfold is_error in *. simpl. by rewrite Hf, IH.
Qed.

Lemma ef_exprs m def s : error_free (checkExpressions m def s) = true ↔ exprs_ok s.
Proof.
  destruct s as [| |c b|c h n t|c n tr| | | | |]; simpl; try done.
  - rewrite error_free_bind. by setoid_rewrite lintDecision_error_free.
  - rewrite error_free_bind. split.
    + intros H r [i Hi]%list_elem_of_lookup. specialize (H (i, r) (proj2 (elem_of_indexed _ _ _) Hi)).
      simpl in H. rewrite error_free_app, andb_true_iff, !error_free_bind in H. destruct H as [Hc Ho]. split.
      * intros e ((k & e') & -> & He)%list_elem_of_fmap Hb. specialize (Hc _ He). unfold lint_cell in Hc.
        simpl in *. rewrite Hb, ef_fmap, lintDecision_error_free in Hc by done. done.
      * intros v ((k & v') & -> & Hv)%list_elem_of_fmap. specialize (Ho _ Hv). unfold lint_output in Ho.
        simpl in *. destruct v'; try done. by rewrite ef_fmap, lintTransformation_error_free in Ho.
    + intros H [i r] Hi%elem_of_indexed. simpl. destruct (H r) as [Hc Ho]; [by eapply list_elem_of_lookup_2|].
      rewrite error_free_app, andb_true_iff, !error_free_bind. split.
      * intros [k e] He. unfold lint_cell. simpl. destruct (blank e) eqn:Hb; [done|].
        rewrite ef_fmap, lintDecision_error_free by done. apply Hc; [|done]. by apply (list_elem_of_fmap_2 snd) in He.
      * intros [k v] Hv. unfold lint_output. simpl. destruct v as [| | |str| |] eqn:E; try done.
        rewrite ef_fmap, lintTransformation_error_free by done.
        apply (Ho (JStr str)). by apply (list_elem_of_fmap_2 snd) in Hv.
  - rewrite error_free_bind. split.
    + intros H v ((k & v') & -> & Hv)%list_elem_of_fmap. specialize (H _ Hv). simpl in *.
      destruct v'; try done. by rewrite lintTransformation_error_free in H.
    + intros H [k v] Hv. simpl. destruct v as [| | |str| |] eqn:E; try done.
      rewrite lintTransformation_error_free. apply (H (JStr str)). by apply (list_elem_of_fmap_2 snd) in Hv.
Qed.

(** ** The graph *)

(** The targets the validator follows are the references of the step, up to
    empty ones. *)
Lemma outgoing_refs s y : y ≠ EmptyString → (y ∈ outgoingTargets s ↔ y ∈ flow_refs s).
Proof.
  intros Hne.
  assert (∀ nx, y ∈ (if truthy_str nx then [nx] else []) ↔ y ∈ [nx]) as Hnx.
  { intros nx. destruct (truthy_str nx) eqn:E; [done|]. apply truthy_str_false in E as ->. set_solver. }
  by destruct s as [? []|? []| | | | | | | |]; simpl; try done; apply Hnx.
Qed.

Lemma all_refs s y : y ≠ EmptyString → (y ∈ allOutgoing s ↔ y ∈ exit_refs s).
Proof.
  intros Hne. unfold allOutgoing, exit_refs. rewrite !elem_of_app, outgoing_refs by done.
  by destruct s as [? ? ? ? ? []|? ? ? []| | | |? ? []| | | |].
Qed.

Section graph.
Context (def : WorkflowDefinition) (Hnd : NoDup (step_ids def)).
Context (Hids : ∀ x, x ∈ step_ids def → blank x = false).

Lemma targets_of_flows out x y : y ∈ targets_of out (indexSteps def) x ↔ flows out def x y.
Proof using Hnd.
  unfold targets_of, flows. split.
  - destruct (indexSteps def !! x) as [s|] eqn:E; [|by intros ?%elem_of_nil]. apply indexSteps_Some in E as [? ?]. eauto.
  - intros (s & Hs & <- & Hy). by rewrite indexSteps_unique.
Qed.

Lemma targets_all x y : y ≠ EmptyString → (y ∈ targets_of allOutgoing (indexSteps def) x ↔ flows exit_refs def x y).
Proof using Hnd. intros Hne. rewrite targets_of_flows. unfold flows. by setoid_rewrite (all_refs _ y Hne). Qed.

Lemma targets_outgoing x y :
  y ≠ EmptyString → (y ∈ targets_of outgoingTargets (indexSteps def) x ↔ flows flow_refs def x y).
Proof using Hnd. intros Hne. rewrite targets_of_flows. unfold flows. by setoid_rewrite (outgoing_refs _ y Hne). Qed.

Lemma targets_of_outside out x : x ∉ step_ids def → targets_of out (indexSteps def) x = [].
Proof. intros H%indexSteps_None. unfold targets_of. by rewrite H. Qed.

(** The visited set of the reachability walk is the set of reachable ids. *)
Lemma reach_walk_spec entry rest :
  wd_steps def = entry :: rest →
  ∃ visited out, reach_walk def (indexSteps def) entry = Some (visited, out) ∧
    ∀ x, x ∈ visited ↔ reachable def x.
Proof.
  intros He. unfold reach_walk. set (succs := targets_of allOutgoing (indexSteps def)).
  destruct (walk_fuel_enough succs (λ _, false) (λ _, @nil Diagnostic) (step_ids def) [step_id entry])
    as [[visited out] Hw]; [intros; by apply targets_of_outside|].
  exists visited, out. split; [done|]. intros x.
  destruct (walk_correct _ _ _ _ [step_id entry] _ _ _ ltac:(done) Hw) as [-> _]. split.
  - induction 1 as [x Hx [Hne _]|x y _ IH Hy [Hne _]].
    + apply list_elem_of_singleton in Hx as ->. by eapply reachable_entry.
    + eapply reachable_step; [done| |done]. by apply targets_all.
  - induction 1 as [s l Hs|x y _ IH Hf Hne].
    + rewrite Hs in He. simplify_eq. apply reached_root; [set_solver|]. split; [|done].
      intros E. assert (step_id entry ∈ step_ids def) as Hin by (unfold step_ids; rewrite Hs; set_solver).
      specialize (Hids _ Hin). by rewrite E in Hids.
    + eapply reached_step; [done| |done]. by apply targets_all.
Qed.

Lemma ef_reachability :
  wd_steps def ≠ [] →
  (error_free (checkReachability def (indexSteps def)) = true ↔
   (∀ x, x ∈ step_ids def → reachable def x) ∧
   ∃ s, s ∈ wd_steps def ∧ step_type s = "END" ∧ reachable def (step_id s)).
Proof.
  intros Hne. unfold checkReachability. destruct (wd_steps def) as [|entry rest] eqn:Hs; [done|].
  destruct (reach_walk_spec entry rest Hs) as (visited & out & -> & Hv).
  rewrite error_free_app, andb_true_iff, <- Hs. f_equiv.
  - rewrite error_free_bind. setoid_rewrite error_free_guard; [|done]. setoid_rewrite negb_involutive.
    setoid_rewrite bool_decide_eq_true. setoid_rewrite Hv. unfold step_ids.
    setoid_rewrite list_elem_of_fmap. naive_solver.
  - transitivity (existsb (is_end_id (indexSteps def)) (elements visited) = true).
    { by destruct (existsb _ _). }
    rewrite existsb_exists. setoid_rewrite <- list_elem_of_In. setoid_rewrite elem_of_elements.
    unfold is_end_id. split.
    + intros (x & Hx & He). destruct (indexSteps def !! x) as [s|] eqn:E; [|done].
      apply indexSteps_Some in E as [? <-]. apply String.eqb_eq in He. apply Hv in Hx. eauto.
    + intros (s & Hin & Ht & Hr). exists (step_id s). rewrite Hv, indexSteps_unique by done.
      by rewrite Ht.
Qed.

Lemma nested_walk_spec outer branches join :
  ∃ visited out, nested_walk def (indexSteps def) outer branches join = Some (visited, out) ∧
    ∀ d, d ∈ out ↔ ∃ s, s ∈ wd_steps def ∧ inside def branches join (step_id s) ∧
                        d ∈ nested_at (indexSteps def) outer (step_id s).
Proof.
  unfold nested_walk. set (succs := targets_of outgoingTargets (indexSteps def)).
  destruct (walk_fuel_enough succs (String.eqb join) (nested_at (indexSteps def) outer) (step_ids def)
    (rev branches)) as [[visited out] Hw]; [intros; by apply targets_of_outside|].
  exists visited, out. split; [done|]. intros d.
  destruct (walk_correct _ _ _ _ branches (rev branches) _ _
    ltac:(intros x; by rewrite !list_elem_of_In, <- in_rev) Hw) as [_ ->].
  assert (∀ x, reached succs (String.eqb join) branches x ↔ inside def branches join x) as Hr.
  { intros x. split; induction 1 as [x Hx Hen|x y _ IH Hy Hen]; try destruct Hen as [? ?%String.eqb_neq].
    - apply inside_branch; congruence.
    - eapply inside_step; [done|by apply targets_outgoing|congruence|congruence].
    - apply reached_root; [done|]. split; [done|]. apply String.eqb_neq. congruence.
    - eapply reached_step; [done|by apply targets_outgoing|]. split; [done|]. apply String.eqb_neq. congruence. }
  split.
  - intros (x & Hx & Hd). unfold nested_at in Hd. destruct (indexSteps def !! x) as [s|] eqn:E; [|set_solver].
    pose proof E as [Hs <-]%indexSteps_Some. exists s. rewrite <- Hr. split_and!; [done|done|].
    unfold nested_at. by rewrite E.
  - intros (s & Hs & Hi & Hd). exists (step_id s). by rewrite Hr.
Qed.

Lemma ef_nested :
  error_free (checkNestedParallel def (indexSteps def)) = true ↔
  ∀ c p j s, ParallelGatewayStep c p j ∈ wd_steps def → s ∈ wd_steps def →
    inside def p j (step_id s) → ∀ c' p' j', s ≠ ParallelGatewayStep c' p' j'.
Proof.
  unfold checkNestedParallel. rewrite error_free_bind. split.
  - intros H c p j s Hp Hs Hi c' p' j' ->. specialize (H _ Hp). simpl in H.
    destruct (nested_walk_spec (step_id (ParallelGatewayStep c p j)) p j) as (v & out & Hw & Hout).
    rewrite Hw in H. rewrite error_free_true in H.
    assert (∃ d, d ∈ nested_at (indexSteps def) (step_id (ParallelGatewayStep c p j))
      (step_id (ParallelGatewayStep c' p' j')) ∧ d_severity d = SevError) as (d & Hd & Hsev).
    { unfold nested_at. rewrite indexSteps_unique by done. eexists. split; [by left|done]. }
    apply (H d); [|done]. apply Hout. eauto.
  - intros H s Hs. destruct s as [| | | | | |c p j| | |]; try done.
    destruct (nested_walk_spec (step_id (ParallelGatewayStep c p j)) p j) as (v & out & -> & Hout).
    apply error_free_true. intros d (s & Hin & Hi & Hd)%Hout. unfold nested_at in Hd.
    rewrite indexSteps_unique in Hd by done. destruct s; set_solver.
Qed.

Lemma ef_joins :
  error_free (checkParallelJoinTarget def (indexSteps def)) = true ↔
  ∀ c p j s, ParallelGatewayStep c p j ∈ wd_steps def → s ∈ wd_steps def → step_id s = j →
    step_type s = "JOIN_GATEWAY".
Proof.
  unfold checkParallelJoinTarget. rewrite error_free_bind. split.
  - intros H c p j s Hp Hs <-. specialize (H _ Hp). simpl in H. rewrite indexSteps_unique in H by done.
    rewrite error_free_guard in H by done. rewrite negb_involutive in H. by apply String.eqb_eq.
  - intros H s Hs. destruct s as [| | | | | |c p j| | |]; try done.
    destruct (indexSteps def !! j) as [s|] eqn:E; [|done]. apply indexSteps_Some in E as [Hin <-].
    ef_guard. apply String.eqb_eq. eauto.
Qed.
End graph.

Lemma ef_cycle def index : error_free (checkGraphCycle def index) = true.
Proof. unfold checkGraphCycle. by destruct (cycle_search def index) as [[? [|]]|]. Qed.

Lemma ef_unknown def : error_free (checkUnknownFields def) = true.
Proof.
  unfold checkUnknownFields. rewrite error_free_app, andb_true_iff, error_free_bind. split.
  - by destruct (Nat.ltb _ _).
  - intros s _. simpl. by destruct (Nat.ltb _ _).
Qed.

(** The per-step checks, together. *)
Lemma ef_steps m def :
  (∀ x, x ∈ step_ids def → blank x = false) →
  (∀ s, s ∈ wd_steps def → error_free (checkStepVariantShape s ++ checkRefsResolve (indexSteps def) s ++
     checkBoundaryEvents (indexSteps def) s ++ checkExpressions m def s) = true) ↔
  ∀ s, s ∈ wd_steps def →
    shape_ok s ∧
    (∀ r, r ∈ next_refs s → r ∈ step_ids def ∨ r = EmptyString ∧ optional_next s = true) ∧
    (∀ e, e ∈ boundary_of s → event_ok def e) ∧
    (∀ v, supports_boundary s = false → obj_get (step_extra s) "boundaryEvents" = Some v → is_array v = false) ∧
    exprs_ok s.
Proof.
  intros Hids. apply forall_proper. intros s.
  rewrite !error_free_app, !andb_true_iff, ef_shape, ef_exprs, (ef_boundary def s Hids).
  pose proof (ef_refs def s). tauto.
Qed.

(** The references of the gateways resolve, so a join is looked up successfully. *)
Lemma join_resolves def c p j :
  (∀ s r, s ∈ wd_steps def → r ∈ next_refs s →
     r ∈ step_ids def ∨ r = EmptyString ∧ optional_next s = true) →
  ParallelGatewayStep c p j ∈ wd_steps def → ∃ s, s ∈ wd_steps def ∧ step_id s = j.
Proof.
  intros H Hp. destruct (H _ j Hp) as [Hj|[_ ?]]; [simpl; set_solver| |done].
  apply list_elem_of_fmap in Hj as (s & -> & Hs). eauto.
Qed.

(** ** The validator decides well-formedness *)

Lemma validate_correct peg_message def :
  error_free (validate peg_message def) = true ↔ well_formed def.
Proof.
  unfold validate. rewrite !error_free_app, !andb_true_iff, error_free_bind.
  rewrite ef_id, ef_names, ef_nonempty, ef_unique, ef_ids, ef_types, ef_chain, ef_cycle, ef_unknown.
  split.
  - intros (Hid & [Hn Hns] & Hne & Hnd & Hids & Hty & Hch & Hst & Hj & Hr & Hnp & _).
    rewrite ef_steps in Hst by done. rewrite ef_joins in Hj by done.
    rewrite ef_reachability in Hr by done. rewrite ef_nested in Hnp by done. destruct Hr as [Hr (e & ? & ? & ?)].
    assert (∀ s r, s ∈ wd_steps def → r ∈ next_refs s →
      r ∈ step_ids def ∨ r = EmptyString ∧ optional_next s = true) as Hrefs.
    { intros s r Hs. by apply Hst. }
    split; try done.
    + intros s Hs. by apply Hst.
    + intros s e' Hs. by apply Hst.
    + intros s v Hs. by apply Hst.
    + intros s Hs. by apply Hst.
    + intros c p j Hp. destruct (join_resolves def c p j Hrefs Hp) as (s & Hs & Hsj). eauto 6.
    + eauto.
  - intros [Hid Hn Hns Hne Hnd Hids Hty Hch Hsh Href Hev Hnev Hex Hj Hr (e & He & Het) Hnp].
    rewrite ef_steps, ef_joins, ef_reachability, ef_nested by done.
    split; [done|]. split; [by split|]. do 5 (split; [done|]). split; [|split; [|split; [split; [done|]|done]]].
    + intros s Hs. split_and!; eauto.
    + intros c p j s Hp Hs <-. destruct (Hj _ _ _ Hp) as (s' & Hs' & Hid' & <-).
      assert (Some s = Some s') as [= ->]; [|done].
      rewrite <- (indexSteps_unique def s Hnd Hs), <- (indexSteps_unique def s' Hnd Hs'). by rewrite Hid'.
    + exists e. split; [done|]. split; [done|]. by apply Hr, list_elem_of_fmap_2.
Qed.

(** ** Properties *)

(** C1: the validator decides well-formedness: it reports no error exactly for
    the definitions with a well-formed id and name, at least one step, unique
    non-blank step ids of known types, resolved references, valid timers and
    expressions, every step reachable from the first one, an END step, joins
    that are join gateways and no parallel gateway inside the branches of
    another before its join. *)
Theorem validate_error_free_iff peg_message def :
  error_free (validate peg_message def) = true ↔ well_formed def.
Proof. apply validate_correct. Qed.

(** An edge of the step graph: from a step to a step its references name. *)
Definition step_edge (def : WorkflowDefinition) (x y : StepId) : Prop :=
  y ∈ step_ids def ∧ flows exit_refs def x y.

Lemma cycle_flows def x :
  NoDup (step_ids def) → EmptyString ∉ step_ids def →
  on_cycle (targets_of allOutgoing (indexSteps def)) (list_to_set (step_ids def)) x ↔ tc (step_edge def) x x.
Proof.
  intros Hnd Hne.
  assert (∀ a b, edge (targets_of allOutgoing (indexSteps def)) (list_to_set (step_ids def)) a b ↔ step_edge def a b)
    as He.
  { intros a b. unfold edge, step_edge. rewrite !elem_of_list_to_set. split.
    - intros (Ha & Hf & Hb). split; [done|]. apply (targets_all def Hnd a b); [by intros ->|done].
    - intros [Hb Hf]. pose proof Hf as (s & Hs & <- & _). split_and!; [by apply list_elem_of_fmap_2| |done].
      apply (targets_all def Hnd (step_id s) b); [by intros ->|done]. }
  unfold on_cycle. split; apply tc_congruence with (f := λ x, x); intros a b; apply He.
Qed.

(** C15: the validator warns of a cycle exactly when the step graph, boundary
    edges included, has one, and the step the warning names lies on a cycle;
    the depth-first search always finishes. *)
Theorem validate_cycle_iff def :
  NoDup (step_ids def) → EmptyString ∉ step_ids def →
  is_Some (cycle_search def (indexSteps def)) ∧
  (checkGraphCycle def (indexSteps def) = [] ↔ ∀ x, ¬ tc (step_edge def) x x) ∧
  ∀ d, d ∈ checkGraphCycle def (indexSteps def) →
    d_code d = GRAPH_CYCLE ∧ d_severity d = SevWarning ∧ ∃ x, d_nodeId d = Some x ∧ tc (step_edge def) x x.
Proof.
  intros Hnd Hne. setoid_rewrite <- (cycle_flows def _ Hnd Hne). unfold checkGraphCycle, cycle_search.
  destruct (dfs_all_correct (targets_of allOutgoing (indexSteps def)) (step_ids def))
    as ([c cyc] & -> & Hcyc & Hnil). split; [by eexists|]. destruct cyc as [|x cyc].
  - split; [|set_solver]. split; [|done]. intros _. by apply Hnil.
  - specialize (Hcyc x eq_refl). split; [split; [done|by intros []%(λ H, H x)]|].
    intros d ->%list_elem_of_singleton. simpl. eauto.
Qed.

Lemma validate_cycle_iff_witness :
  NoDup (step_ids order_def) ∧ is_Some (cycle_search order_def (indexSteps order_def)).
Proof.
  assert (NoDup (step_ids order_def)) as Hnd by (apply (bool_decide_unpack _); vm_compute; exact I).
  split; [exact Hnd|]. apply (validate_cycle_iff order_def Hnd).
  apply (bool_decide_unpack _). vm_compute. exact I.
Defined.

(** The indices at which the catch-all warning fires. *)
Lemma unreachable_rules_spec id first l i :
  (∃ d, d ∈ unreachable_rules id first l ∧ d_ruleIndex d = Some i) ↔
  match first with
  | Some f => f < i ∧ i ∈ l.*1
  | None => ∃ l1 l2 j r, l = l1 ++ (j, r) :: l2 ∧ is_catch_all r = true ∧
              Forall (λ p, is_catch_all p.2 = false) l1 ∧ j < i ∧ i ∈ l2.*1
  end.
Proof.
  revert first. induction l as [|[k r] l IH]; intros first; simpl.
  { split; [set_solver|]. destruct first; [set_solver|]. intros (l1 & l2 & j & r & H & _). by destruct l1. }
  destruct first as [f|].
  - destruct (Nat.ltb_spec f k) as [Hlt|Hge].
    + split.
      * intros (d & [->|Hd]%elem_of_cons & Hi); simpl in *; simplify_eq; [set_solver by lia|].
        destruct (proj1 (IH (Some f))) as [? ?]; [eauto|]. set_solver.
      * intros [Hf [->|Hi]%elem_of_cons]; [eexists; split; [by left|done]|].
        destruct (proj2 (IH (Some f))) as (d & ? & ?); [done|]. exists d. set_solver.
    + rewrite IH. split; [set_solver|]. intros [Hf [->|Hi]%elem_of_cons]; [lia|done].
  - rewrite IH. destruct (is_catch_all r) eqn:Hr.
    + split.
      * intros [Hk Hi]. exists [], l, k, r. done.
      * intros (l1 & l2 & j & r' & E & Hc & Hall & Hj & Hi). destruct l1 as [|p l1]; simplify_eq/=; [done|].
        apply Forall_cons in Hall as [Hp _]. simpl in Hp. congruence.
    + split.
      * intros (l1 & l2 & j & r' & -> & Hc & Hall & Hj & Hi). exists ((k, r) :: l1), l2, j, r'.
        split_and!; try done. by constructor.
      * intros (l1 & l2 & j & r' & E & Hc & Hall & Hj & Hi). destruct l1 as [|p l1]; simplify_eq/=; [congruence|].
        apply Forall_cons in Hall as [_ Hall]. exists l1, l2, j, r'. done.
Qed.

(** In a decision table, a rule is reported unreachable exactly when an
    earlier rule is a catch-all (has no conditions). *)
Theorem unreachable_rule_iff id rules i :
  (∃ d, d ∈ unreachable_rules id None (indexed rules) ∧ d_ruleIndex d = Some i) ↔
  i < length rules ∧ ∃ j r, j < i ∧ rules !! j = Some r ∧ is_catch_all r = true.
Proof.
  rewrite unreachable_rules_spec. split.
  - intros (l1 & l2 & j & r & E & Hc & _ & Hj & ((i' & r') & -> & Hi)%list_elem_of_fmap). simpl in *. split.
    + apply (lookup_lt_Some _ _ r'), elem_of_indexed. rewrite E. set_solver.
    + exists j, r. split_and!; [done| |done]. apply elem_of_indexed. rewrite E. set_solver.
  - intros (Hi & j & r & Hj & Hr & Hc).
    assert (indexed rules !! j = Some (j, r)) as Hjl by (unfold indexed; by rewrite list_lookup_imap, Hr).
    destruct (list_find_elem_of (λ p, is_catch_all p.2 = true) (indexed rules) (j, r))
      as [[k [k' r']] Hf]; [by eapply list_elem_of_lookup_2|done|].
    apply list_find_Some in Hf as (Hk & Hk' & Hbefore).
    assert (k = k' ∧ rules !! k = Some r') as [<- Hkr].
    { unfold indexed in Hk. rewrite list_lookup_imap in Hk. destruct (rules !! k) eqn:E; simplify_eq/=. done. }
    assert (k ≤ j) as Hkj.
    { destruct (decide (k ≤ j)); [done|]. by destruct (Hbefore j (j, r) Hjl ltac:(lia)). }
    exists (take k (indexed rules)), (drop (S k) (indexed rules)), k, r'. split_and!.
    + by rewrite take_drop_middle.
    + done.
    + apply Forall_lookup. intros m [m' q] Hm. apply lookup_take_Some in Hm as [Hm Hlt].
      specialize (Hbefore _ _ Hm Hlt). by apply not_true_iff_false.
    + lia.
    + apply lookup_lt_is_Some in Hi as [x Hx].
      assert (indexed rules !! i = Some (i, x)) as Hil by (unfold indexed; by rewrite list_lookup_imap, Hx).
      apply (list_elem_of_fmap_2 fst _ (i, x)). apply list_elem_of_lookup. exists (i - S k).
      rewrite lookup_drop. by replace (S k + (i - S k)) with i by lia.
Qed.
