(* ===== verification/RenameValid.v ===== *)
(** * Renaming keeps a definition valid

    Renaming a step to a free, non-blank id is an isomorphism of the step
    graph, so every clause of [well_formed] carries over. *)

From S2P Require Import Prelude JsObject Types Graph Rename Lint Duration Validate WellFormed ValidateProps.

Section renamed.
Context (o n : StepId) (Ho : blank o = false) (Hn : blank n = false).
Abbreviation f := (remap o n).

Lemma remap_blank x : blank (f x) = blank x.
Proof. unfold remap. destruct (String.eqb_spec x o); congruence. Qed.

Lemma remap_truthy x : truthy_str (f x) = truthy_str x.
Proof. unfold remap. destruct (String.eqb_spec x o) as [->|]; [|done]. by destruct n, o. Qed.

Lemma remap_empty x : f x = EmptyString ↔ x = EmptyString.
Proof. by rewrite <- !truthy_str_false, remap_truthy. Qed.

(** What the renamed copy of a step shares with the step. *)
Record renamed_parts (s s' : Step) : Prop := {
  rp_next : next_refs s' = f <$> next_refs s;
  rp_out : flow_refs s' = f <$> flow_refs s;
  rp_events : boundary_of s' = remapEvent f <$> boundary_of s;
  rp_optional : optional_next s' = optional_next s;
  rp_supports : supports_boundary s' = supports_boundary s;
  rp_extra : step_extra s' = step_extra s;
  rp_shape : shape_ok s → shape_ok s';
  rp_exprs : exprs_ok s → exprs_ok s';
  rp_parallel : ∀ c' p' j', s' = ParallelGatewayStep c' p' j' →
    ∃ c p j, s = ParallelGatewayStep c p j ∧ p' = f <$> p ∧ j' = f j
}.

Lemma renamed_values (m : obj StepId) : obj_values (prod_map id f <$> m) = f <$> obj_values m.
Proof. unfold obj_values. by rewrite <- !list_fmap_compose. Qed.

Lemma renamed_keys (m : obj StepId) : obj_keys (prod_map id f <$> m) = obj_keys m.
Proof. unfold obj_keys. by rewrite <- !list_fmap_compose. Qed.

Lemma renamed_optional (nx : option StepId) : option_list (f <$> nx) = f <$> option_list nx.
Proof. by destruct nx. Qed.

(** The steps [remapStep] makes. *)
Lemma remapStep_base_parts s s' :
  step_wf s = true →
  (∃ c, sc_extra c = step_extra s ∧
   match s with
   | ServiceTaskStep _ nx j d r b => s' = ServiceTaskStep c (f <$> nx) j d r (withRemappedBoundary f b)
   | UserTaskStep _ nx j b => s' = UserTaskStep c (f <$> nx) j (withRemappedBoundary f b)
   | WaitStep _ nx b => s' = WaitStep c (f nx) (withRemappedBoundary f b)
   | TransformationStep _ nx t => s' = TransformationStep c (f nx) t
   | JoinGatewayStep _ nx => s' = JoinGatewayStep c (f nx)
   | DecisionStep _ m => s' = DecisionStep c (prod_map id f <$> m)
   | DecisionTableStep _ h nx t => s' = DecisionTableStep c h (f nx) t
   | ParallelGatewayStep _ p j => s' = ParallelGatewayStep c (f <$> p) (f j)
   | EndStep _ => s' = EndStep c
   | UnknownTypeStep _ _ => False
   end) → renamed_parts s s'.
Proof.
  intros Hwf (c & Hc & H). destruct s; try done; subst s'; split; simpl; try done;
    rewrite ?renamed_values, ?renamed_keys, ?remap_blank, ?remap_truthy, ?length_fmap, ?fmap_app,
      ?renamed_optional; try done;
    try (by destruct boundaryEvents); try naive_solver.
  - by destruct conditionalNextSteps.
  - unfold table_shape. by rewrite remap_blank, Hc.
Qed.

Lemma remapStep_parts s s' :
  step_wf s = true → remapStep o n f s = Some s' → renamed_parts s s'.
Proof.
  intros Hwf H. apply remapStep_base_parts; [done|].
  exists (step_common s'). unfold remapStep in H.
  assert (∀ c m, s = DecisionStep c m →
    fold_left (λ acc p, obj_assign p.1 (f p.2) acc) m [] = prod_map id f <$> m) as Hdec.
  { intros c m ->. simpl in Hwf. apply andb_true_iff in Hwf as [Hm Hp%negb_true_iff].
    rewrite obj_has_false in Hp. by apply obj_assign_all. }
  destruct (String.eqb (step_id s) o), s; simpl in H; simplify_eq; simpl; split; try done;
    rewrite (Hdec _ _ eq_refl); done.
Qed.

(** ** The renamed definition *)

Section definitions.
Context (d d' : WorkflowDefinition).
Context (Hwf : well_formed d) (Hobj : def_wf d = true) (Hfresh : n ∉ step_ids d).
Context (Hdef : d' = with_steps (wd_steps d') d).
Context (Hsteps : Forall2 (λ s s', remapStep o n f s = Some s') (wd_steps d) (wd_steps d')).

Definition copy (s s' : Step) : Prop := renamed_step o n s s' ∧ renamed_parts s s'.

Lemma copies : Forall2 copy (wd_steps d) (wd_steps d').
Proof.
  assert (∀ l l', Forall (λ s, step_wf s = true) l →
    Forall2 (λ s s', remapStep o n f s = Some s') l l' → Forall2 copy l l') as H.
  { intros l l' Hl. induction 1 as [|s s' l l' Hs _ IH]; constructor; inversion_clear Hl; [|by apply IH].
    split; [by apply remapStep_spec|by apply remapStep_parts]. }
  apply H; [|done]. by apply def_wf_Forall.
Qed.

Lemma copy_of s : s ∈ wd_steps d → ∃ s', s' ∈ wd_steps d' ∧ copy s s'.
Proof.
  intros [i Hi]%list_elem_of_lookup. destruct (Forall2_lookup_l _ _ _ _ _ copies Hi) as (s' & ? & ?).
  eauto using list_elem_of_lookup_2.
Qed.

Lemma origin_of s' : s' ∈ wd_steps d' → ∃ s, s ∈ wd_steps d ∧ copy s s'.
Proof.
  intros [i Hi]%list_elem_of_lookup. destruct (Forall2_lookup_r _ _ _ _ _ copies Hi) as (s & ? & ?).
  eauto using list_elem_of_lookup_2.
Qed.

Lemma copy_ids : step_ids d' = f <$> step_ids d.
Proof. unfold step_ids. apply renamed_ids, (Forall2_impl _ _ _ _ copies). by intros s s' [? _]. Qed.

Lemma copy_id_in x : x ∈ step_ids d → f x ∈ step_ids d'.
Proof. intros. rewrite copy_ids. by apply list_elem_of_fmap_2. Qed.

Lemma id_inj x y : x ∈ step_ids d → y ∈ step_ids d → f x = f y → x = y.
Proof. intros Hx Hy. apply remap_inj; by intros ->. Qed.

Lemma copy_all s s' : copy s s' → exit_refs s' = f <$> exit_refs s.
Proof.
  intros [_ Hp]. unfold exit_refs. rewrite (rp_out _ _ Hp), (rp_events _ _ Hp), fmap_app.
  by rewrite <- !list_fmap_compose.
Qed.

Lemma flows_copy x y : flows exit_refs d x y → flows exit_refs d' (f x) (f y).
Proof.
  intros (s & Hs & <- & Hy). destruct (copy_of s Hs) as (s' & Hs' & Hc). exists s'.
  split_and!; [done|apply Hc|]. rewrite (copy_all s s' Hc). by apply list_elem_of_fmap_2.
Qed.

Lemma flows_origin x y :
  flows flow_refs d' x y →
  ∃ x0 y0, x = f x0 ∧ y = f y0 ∧ x0 ∈ step_ids d ∧ flows flow_refs d x0 y0.
Proof.
  intros (s' & Hs' & <- & Hy). destruct (origin_of s' Hs') as (s & Hs & [Hr Hp]).
  rewrite (rp_out _ _ Hp) in Hy. apply list_elem_of_fmap in Hy as (y0 & -> & Hy0).
  exists (step_id s), y0. split_and!; [apply Hr|done|by apply list_elem_of_fmap_2|by exists s].
Qed.

Lemma outgoing_next s y : y ∈ flow_refs s → y ∈ next_refs s.
Proof. destruct s; simpl; set_solver. Qed.

(** Where a branch of a parallel gateway leads. *)
Lemma flow_target_in x y : flows flow_refs d x y → y ≠ EmptyString → y ∈ step_ids d.
Proof.
  intros (s & Hs & _ & Hy) Hne. destruct (wf_refs d Hwf s y Hs) as [|[? _]]; [by apply outgoing_next|done|done].
Qed.

Lemma reachable_copy x : reachable d x → reachable d' (f x).
Proof.
  induction 1 as [s rest Hs|x y _ IH Hf Hne].
  - pose proof copies as Hc. rewrite Hs in Hc. inversion Hc as [|? s' ? l' [Hr _] _ Heq]; subst.
    destruct Hr as (<- & _). by eapply reachable_entry.
  - eapply reachable_step; [done|by apply flows_copy|]. by rewrite remap_empty.
Qed.

Lemma inside_origin p j z :
  (∀ x, x ∈ p → x ∈ step_ids d) → inside d' (f <$> p) (f j) z →
  ∃ x, z = f x ∧ x ∈ step_ids d ∧ inside d p j x.
Proof.
  intros Hp. induction 1 as [x Hx Hne Hj|x y _ (x0 & -> & Hx0 & IH) Hf Hne Hj].
  - apply list_elem_of_fmap in Hx as (x0 & -> & Hx0). exists x0. split_and!; [done|by apply Hp|].
    apply inside_branch; [done|by rewrite <- remap_empty|congruence].
  - apply flows_origin in Hf as (x1 & y0 & E & -> & Hx1 & Hf). apply id_inj in E as <-; [|done|done].
    rewrite remap_empty in Hne. exists y0. split_and!; [done|by eapply flow_target_in|].
    eapply inside_step; [done|done|done|congruence].
Qed.

Lemma renamed_well_formed : well_formed d'.
Proof.
  destruct Hwf as [Hid Hname Hnames Hnempty Hu Hids Hty Hch Hsh Href Hev Hnev Hex Hj Hr Hend Hnp].
  rewrite Hdef. split; try done; simpl; try rewrite <- Hdef.
  - intros s' (s & Hs & [(_&_&->&_) _])%origin_of. by apply Hnames.
  - intros E. pose proof copies as Hc. rewrite E in Hc. by inversion Hc.
  - rewrite copy_ids. apply NoDup_fmap_2_strong; [|done]. intros. by apply id_inj.
  - rewrite copy_ids. intros x (y & -> & Hy)%list_elem_of_fmap. rewrite remap_blank. by apply Hids.
  - intros s' (s & Hs & [(_&E&_) _])%origin_of. unfold known_type. rewrite E. by apply Hty.
  - intros s' (s & Hs & [_ Hp])%origin_of. by apply (rp_shape _ _ Hp), Hsh.
  - intros s' r (s & Hs & [_ Hp])%origin_of. rewrite (rp_next _ _ Hp), (rp_optional _ _ Hp).
    intros (r0 & -> & Hr0)%list_elem_of_fmap. rewrite remap_empty.
    destruct (Href s r0 Hs Hr0); [left; by apply copy_id_in|by right].
  - intros s' e' (s & Hs & [_ Hp])%origin_of. rewrite (rp_events _ _ Hp).
    intros (e & -> & He)%list_elem_of_fmap. destruct (Hev s e Hs He) as (? & ? & ?).
    split_and!; [done|done|]. by apply copy_id_in.
  - intros s' v (s & Hs & [_ Hp])%origin_of. rewrite (rp_supports _ _ Hp), (rp_extra _ _ Hp). by apply Hnev.
  - intros s' (s & Hs & [_ Hp])%origin_of. by apply (rp_exprs _ _ Hp), Hex.
  - intros c' p' j' (s & Hs & [_ Hp])%origin_of.
    destruct (rp_parallel _ _ Hp _ _ _ eq_refl) as (c & p & j & -> & -> & ->).
    destruct (Hj _ _ _ Hs) as (js & Hjs & <- & Ht). destruct (copy_of js Hjs) as (js' & ? & [(E1&E2&_) _]).
    exists js'. split_and!; [done|done|congruence].
  - rewrite copy_ids. intros x (y & -> & Hy)%list_elem_of_fmap. by apply reachable_copy, Hr.
  - destruct Hend as (s & Hs & Ht). destruct (copy_of s Hs) as (s' & ? & [(_&E&_) _]). exists s'.
    split; [done|congruence].
  - intros c' p' j' s' (g & Hg & [_ Hp])%origin_of (s & Hs & [(E&_) Hp'])%origin_of Hi c2 p2 j2 ->.
    destruct (rp_parallel _ _ Hp _ _ _ eq_refl) as (c & p & j & -> & -> & ->).
    destruct (rp_parallel _ _ Hp' _ _ _ eq_refl) as (c3 & p3 & j3 & -> & _ & _).
    apply inside_origin in Hi as (x & Ex & Hx & Hi).
    + rewrite E in Ex. apply id_inj in Ex as <-; [|by apply list_elem_of_fmap_2|done].
      by eapply (Hnp _ _ _ _ Hg Hs Hi).
    + intros x Hx. destruct (Href _ x Hg) as [?|[_ ?]]; [set_solver|done|done].
Qed.
End definitions.
End renamed.

(** ** Properties *)

(** C3: renaming a step of a definition without errors to a free, non-blank id
    gives a definition without errors. *)
Theorem rename_preserves_validity m d o n :
  def_wf d = true → error_free (validate m d) = true →
  o ∈ step_ids d → n ∉ step_ids d → blank n = false →
  ∃ d', renameStepId d o n = Renamed d' ∧ error_free (validate m d') = true.
Proof.
  intros Hobj Hv Ho Hn Hb. pose proof (proj1 (validate_correct m d) Hv) as Hwf.
  assert (o ≠ n) as Hne by (intros ->; done).
  destruct (renameStepId_cases d o n) as [[? _]|[(_&?&_)|(_&_&[(l&Hl&Hr)|(l&_&Hr)])]]; [done|done| |].
  - exists (with_steps l d). split; [done|]. apply validate_correct.
    apply (renamed_well_formed o n (wf_ids d Hwf o Ho) Hb d (with_steps l d) Hwf Hobj Hn); by try destruct d.
  - exfalso. apply (rename_no_holes d o n l Hobj); [|done]. apply forallb_forall. intros s Hs.
    apply (wf_types d Hwf). by apply list_elem_of_In.
Qed.

Lemma rename_preserves_validity_witness :
  ∃ d', renameStepId order_def "merge" "join" = Renamed d' ∧ error_free (validate (λ s, s) d') = true.
Proof.
  apply (rename_preserves_validity (λ s, s) order_def "merge" "join").
  - vm_compute; reflexivity.
  - vm_compute; reflexivity.
  - apply includes_true. vm_compute. reflexivity.
  - apply includes_false. vm_compute. reflexivity.
  - reflexivity.
Defined.
