(* ===== verification/Schema.v ===== *)
(** * The schema (workflow-modeller/src/domain/schema.ts)

    [zStep], [zWorkflowDefinition] and their parts read the zod schemas as
    decoders of JSON values: a member the schema declares is decoded by its
    schema, [optional] accepts an absent member, [default] fills it in,
    [passthrough] keeps every undeclared member.  [step_obj] and [def_obj] are
    the objects the typed values stand for.  The decoders without refinements
    and defaults ([zod = false]) are the TypeScript types: they say which
    objects are steps at all. *)

From S2P Require Import Prelude JsObject Types Validate.

(** ** Combinators *)

Definition z_string (j : json) : option string := match j with JStr s => Some s | _ => None end.
Definition z_boolean (j : json) : option bool := match j with JBool b => Some b | _ => None end.
Definition z_number (j : json) : option jsnum := match j with JNum n => Some n | _ => None end.
Definition z_any (j : json) : option json := Some j.

Definition z_array {A} (f : json → option A) (j : json) : option (list A) :=
  match j with JArr l => mapM f l | _ => None end.

(** Building an object member by member ignores [__proto__]. *)
Definition no_proto {V} (o : obj V) : obj V := obj_delete "__proto__" o.

Definition z_pair {A} (f : json → option A) (p : string * json) : option (string * A) :=
  match f p.2 with Some a => Some (p.1, a) | None => None end.

Definition z_record {A} (f : json → option A) (j : json) : option (obj A) :=
  match j with JObj o => mapM (z_pair f) (no_proto o) | _ => None end.

(** A declared member: required, optional. *)
Definition req {A} (f : json → option A) (o : obj json) (k : string) : option A :=
  match obj_get o k with Some j => f j | None => None end.

Definition opt {A} (f : json → option A) (o : obj json) (k : string) : option (option A) :=
  match obj_get o k with
  | Some j => match f j with Some a => Some (Some a) | None => None end
  | None => Some None
  end.

(** [f.default(d)], where the decoder applies defaults. *)
Definition dflt {A} (zod : bool) (d : A) (f : json → option A) (o : obj json) (k : string) : option A :=
  match obj_get o k with Some j => f j | None => if zod then Some d else None end.

(** [passthrough]: the members the shape does not declare. *)
Definition passthrough (declared : list string) (o : obj json) : obj json :=
  List.filter (λ p, negb (includes declared p.1)) (no_proto o).

(** The value [true] of a test is required. *)
Definition refine (b : bool) : option unit := if b then Some tt else None.

Definition num_nonneg (n : jsnum) : bool := (0 <=? mant n)%Z.

(** ** Decoders *)

Definition event_keys : list string := ["type"; "duration"; "interrupting"; "targetStepId"].

Definition zBoundaryEvent (zod : bool) (j : json) : option BoundaryEvent :=
  match j with
  | JObj o =>
      type ← req z_string o "type";
      duration ← req z_string o "duration";
      interrupting ← req z_boolean o "interrupting";
      target ← req z_string o "targetStepId";
      _ ← refine (negb zod || String.eqb type "TIMER" && truthy_str duration && truthy_str target);
      Some (mkBoundaryEvent type duration interrupting target (passthrough event_keys o))
  | _ => None
  end.

Definition zHitPolicy (zod : bool) (j : json) : option string :=
  h ← z_string j; _ ← refine (negb zod || includes HIT_POLICIES h); Some h.

Definition rule_keys : list string := ["when"; "outputs"].

Definition zDecisionTableRule (zod : bool) (j : json) : option DecisionTableRule :=
  match j with
  | JObj o =>
      w ← dflt zod [] (z_record z_string) o "when";
      out ← dflt zod [] (z_record z_any) o "outputs";
      Some (mkRule w out (passthrough rule_keys o))
  | _ => None
  end.

Definition zDecisionTable (zod : bool) (j : json) : option DecisionTable :=
  match j with
  | JObj o =>
      rules ← req (z_array (zDecisionTableRule zod)) o "rules";
      _ ← refine (negb zod || negb (Nat.eqb (length rules) 0));
      Some (mkTable rules (passthrough ["rules"] o))
  | _ => None
  end.

(** [stepCommon], with the undeclared members of the variant's shape. *)
Definition zCommon (declared : list string) (o : obj json) : option StepCommon :=
  id ← req z_string o "id";
  name ← req z_string o "name";
  description ← opt z_string o "description";
  Some (mkCommon id name description (passthrough declared o)).

(** The declared keys of a variant are the keys [KNOWN_STEP_KEYS] lists. *)
Definition shape_keys (type : string) : list string := default ["id"; "name"; "type"; "description"] (KNOWN_STEP_KEYS type).

Definition zStepObj (zod : bool) (o : obj json) : option Step :=
  type ← req z_string o "type";
  c ← zCommon (shape_keys type) o;
  let events := opt (z_array (zBoundaryEvent zod)) o "boundaryEvents" in
  if String.eqb type "SERVICE_TASK" then
    n ← opt z_string o "nextStep"; jt ← opt z_string o "jobType"; dc ← opt z_string o "delegateClass";
    rc ← opt z_number o "retryCount";
    _ ← refine (negb zod || match rc with Some x => num_is_int x && num_nonneg x | None => true end);
    b ← events; Some (ServiceTaskStep c n jt dc rc b)
  else if String.eqb type "USER_TASK" then
    n ← opt z_string o "nextStep"; jt ← opt z_string o "jobType"; b ← events; Some (UserTaskStep c n jt b)
  else if String.eqb type "DECISION" then
    m ← req (z_record z_string) o "conditionalNextSteps"; Some (DecisionStep c m)
  else if String.eqb type "DECISION_TABLE" then
    h ← (if zod then Some <$> dflt zod "U" (zHitPolicy zod) o "hitPolicy"
         else opt (zHitPolicy zod) o "hitPolicy");
    n ← req z_string o "nextStep"; _ ← refine (negb zod || truthy_str n);
    t ← req (zDecisionTable zod) o "decisionTable"; Some (DecisionTableStep c h n t)
  else if String.eqb type "TRANSFORMATION" then
    n ← req z_string o "nextStep"; t ← req (z_record z_any) o "transformations";
    Some (TransformationStep c n t)
  else if String.eqb type "WAIT" then
    n ← req z_string o "nextStep"; b ← events; Some (WaitStep c n b)
  else if String.eqb type "PARALLEL_GATEWAY" then
    p ← req (z_array z_string) o "parallelNextSteps"; j ← req z_string o "joinStep";
    Some (ParallelGatewayStep c p j)
  else if String.eqb type "JOIN_GATEWAY" then n ← req z_string o "nextStep"; Some (JoinGatewayStep c n)
  else if String.eqb type "END" then Some (EndStep c)
  else if zod then None
  else Some (UnknownTypeStep type c).

Definition zStep (zod : bool) (j : json) : option Step :=
  match j with JObj o => zStepObj zod o | _ => None end.

Definition zWorkflowDefinition (zod : bool) (j : json) : option WorkflowDefinition :=
  match j with
  | JObj o =>
      id ← req z_string o "id";
      version ← opt z_number o "version";
      name ← req z_string o "name";
      description ← opt z_string o "description";
      auto ← opt z_boolean o "autoStartNextWorkflow";
      next ← opt z_string o "nextWorkflowId";
      steps ← req (z_array (zStep zod)) o "steps";
      metadata ← opt (z_record z_any) o "metadata";
      Some (mkDef id version name description auto next steps metadata (passthrough KNOWN_ROOT_KEYS o))
  | _ => None
  end.

(** ** The objects of typed values *)

Definition ofield {A} (k : string) (f : A → json) (o : option A) : obj json :=
  match o with Some a => [(k, f a)] | None => [] end.

Definition event_json (e : BoundaryEvent) : json :=
  JObj ([("type", JStr (be_type e)); ("duration", JStr (be_duration e));
         ("interrupting", JBool (be_interrupting e)); ("targetStepId", JStr (be_targetStepId e))] ++
        be_extra e).

Definition events_json (l : list BoundaryEvent) : json := JArr (event_json <$> l).

Definition record_json {A} (f : A → json) (o : obj A) : json := JObj ((λ p, (p.1, f p.2)) <$> o).

Definition rule_json (r : DecisionTableRule) : json :=
  JObj ([("when", record_json JStr (r_when r)); ("outputs", record_json id (r_outputs r))] ++ r_extra r).

Definition table_json (t : DecisionTable) : json :=
  JObj ([("rules", JArr (rule_json <$> dt_rules t))] ++ dt_extra t).

Definition common_obj (c : StepCommon) (type : string) : obj json :=
  [("id", JStr (sc_id c)); ("name", JStr (sc_name c))] ++ ofield "description" JStr (sc_description c) ++
  [("type", JStr type)].

Definition step_obj (s : Step) : obj json :=
  common_obj (step_common s) (step_type s) ++
  match s with
  | ServiceTaskStep _ n jt dc rc b =>
      ofield "nextStep" JStr n ++ ofield "jobType" JStr jt ++ ofield "delegateClass" JStr dc ++
      ofield "retryCount" JNum rc ++ ofield "boundaryEvents" events_json b
  | UserTaskStep _ n jt b =>
      ofield "nextStep" JStr n ++ ofield "jobType" JStr jt ++ ofield "boundaryEvents" events_json b
  | DecisionStep _ m => [("conditionalNextSteps", record_json JStr m)]
  | DecisionTableStep _ h n t =>
      ofield "hitPolicy" JStr h ++ [("nextStep", JStr n); ("decisionTable", table_json t)]
  | TransformationStep _ n t => [("nextStep", JStr n); ("transformations", record_json id t)]
  | WaitStep _ n b => [("nextStep", JStr n)] ++ ofield "boundaryEvents" events_json b
  | ParallelGatewayStep _ p j => [("parallelNextSteps", JArr (JStr <$> p)); ("joinStep", JStr j)]
  | JoinGatewayStep _ n => [("nextStep", JStr n)]
  | EndStep _ | UnknownTypeStep _ _ => []
  end ++ step_extra s.

Definition step_json (s : Step) : json := JObj (step_obj s).

Definition def_obj (d : WorkflowDefinition) : obj json :=
  [("id", JStr (wd_id d))] ++ ofield "version" JNum (wd_version d) ++ [("name", JStr (wd_name d))] ++
  ofield "description" JStr (wd_description d) ++
  ofield "autoStartNextWorkflow" JBool (wd_autoStartNextWorkflow d) ++
  ofield "nextWorkflowId" JStr (wd_nextWorkflowId d) ++ [("steps", JArr (step_json <$> wd_steps d))] ++
  ofield "metadata" (record_json id) (wd_metadata d) ++ wd_extra d.

Definition def_json (d : WorkflowDefinition) : json := JObj (def_obj d).

(** ** Lemmas on objects and decoders *)

Lemma mapM_roundtrip {A B} (f : B → option A) (g : A → B) (l : list A) :
  (∀ x, x ∈ l → f (g x) = Some x) → mapM f (g <$> l) = Some l.
Proof.
  intros H. apply mapM_Some. apply Forall2_fmap_l. induction l as [|x l IH]; constructor.
  - apply H. set_solver.
  - apply IH. set_solver.
Qed.

Lemma filter_filter {A} (f g : A → bool) l :
  List.filter f (List.filter g l) = List.filter (λ x, g x && f x)%bool l.
Proof. induction l as [|x l IH]; simpl; [done|]. destruct (g x); simpl; by rewrite ?IH. Qed.

Lemma filter_all {A} (f : A → bool) l : forallb f l = true → List.filter f l = l.
Proof. induction l as [|x l IH]; simpl; [done|]. intros. bool_hyps. rewrite H. f_equal. auto. Qed.

Lemma obj_get_app {V} (a b : obj V) k :
  obj_get (a ++ b) k = match obj_get a k with Some v => Some v | None => obj_get b k end.
Proof. induction a as [|[k' v] a IH]; simpl; [done|]. by destruct (String.eqb k k'). Qed.

Lemma obj_get_ofield {A} k (f : A → json) o k' :
  obj_get (ofield k f o) k' = if String.eqb k' k then f <$> o else None.
Proof. destruct o; simpl; by destruct (String.eqb k' k). Qed.

(** Undeclared members: none of the declared keys, and not [__proto__]. *)
Definition clean (declared : list string) (e : obj json) : bool :=
  forallb (λ p, negb (String.eqb "__proto__" p.1) && negb (includes declared p.1))%bool e.

Definition declares (declared : list string) (a : obj json) : bool :=
  forallb (λ p, includes declared p.1) a.

Lemma declares_app declared a b : declares declared (a ++ b) = (declares declared a && declares declared b)%bool.
Proof. apply forallb_app. Qed.

Lemma declares_ofield declared {A} k (f : A → json) o :
  includes declared k = true → declares declared (ofield k f o) = true.
Proof. intros Hk. destruct o; simpl; [|done]. by rewrite Hk. Qed.

Lemma clean_get declared e k : clean declared e = true → includes declared k = true → obj_get e k = None.
Proof.
  intros He Hk. apply obj_get_None. intros (p & -> & Hp)%list_elem_of_fmap.
  unfold clean in He. rewrite forallb_forall in He. apply list_elem_of_In, He in Hp. bool_hyps. congruence.
Qed.

Lemma passthrough_clean declared a e :
  declares declared a = true → clean declared e = true → passthrough declared (a ++ e) = e.
Proof.
  intros Ha He. unfold passthrough, no_proto, obj_delete. rewrite filter_filter, List.filter_app.
  replace (List.filter _ a) with (@nil (string * json)).
  - simpl. unfold clean in He. apply filter_all. exact He.
  - symmetry. apply filter_nil_Forall, Forall_forall. intros p Hp. unfold declares in Ha.
    rewrite forallb_forall in Ha. apply list_elem_of_In, Ha in Hp. by rewrite Hp, andb_false_r.
Qed.

Lemma no_proto_id {V} (o : obj V) : "__proto__" ∉ obj_keys o → no_proto o = o.
Proof.
  intros H. apply filter_all, forallb_forall. intros p Hp%list_elem_of_In.
  apply negb_true_iff, String.eqb_neq. intros E. apply H. rewrite E. by apply list_elem_of_fmap_2.
Qed.

Definition no_proto_key {V} (o : obj V) : bool := negb (obj_has o "__proto__").

Lemma no_proto_record {A} (f : json → option A) (g : A → json) (o : obj A) :
  no_proto_key o = true → (∀ x, x ∈ obj_values o → f (g x) = Some x) →
  z_record f (record_json g o) = Some o.
Proof.
  intros Hp Hf. unfold z_record, record_json. rewrite no_proto_id.
  - apply mapM_roundtrip. intros [k v] Hv. unfold z_pair. simpl. rewrite Hf; [done|].
    by apply (list_elem_of_fmap_2 snd) in Hv.
  - unfold no_proto_key in Hp. bool_hyps. rewrite obj_has_false in Hp.
    unfold obj_keys in *. by rewrite <- list_fmap_compose.
Qed.

(** ** Definitions the schema accepts

    With [zod = false]: the typed values that are encoded faithfully. *)

Definition event_schema (zod : bool) (e : BoundaryEvent) : bool :=
  (negb zod || String.eqb (be_type e) "TIMER" && truthy_str (be_duration e) && truthy_str (be_targetStepId e)) &&
  clean event_keys (be_extra e).

Definition events_schema (zod : bool) (b : option (list BoundaryEvent)) : bool :=
  forallb (event_schema zod) (events_of b).

Definition rule_schema (r : DecisionTableRule) : bool :=
  no_proto_key (r_when r) && no_proto_key (r_outputs r) && clean rule_keys (r_extra r).

Definition table_schema (zod : bool) (t : DecisionTable) : bool :=
  (negb zod || negb (Nat.eqb (length (dt_rules t)) 0)) && forallb rule_schema (dt_rules t) &&
  clean ["rules"] (dt_extra t).

(** What the schema demands of a step beyond its TypeScript type. *)
Definition step_schema (zod : bool) (s : Step) : bool :=
  clean (shape_keys (step_type s)) (step_extra s) &&
  match s with
  | ServiceTaskStep _ _ _ _ rc b =>
      (negb zod || match rc with Some x => num_is_int x && num_nonneg x | None => true end) && events_schema zod b
  | UserTaskStep _ _ _ b | WaitStep _ _ b => events_schema zod b
  | DecisionStep _ m => no_proto_key m
  | DecisionTableStep _ h n t =>
      match h with Some p => negb zod || includes HIT_POLICIES p | None => negb zod end &&
      (negb zod || truthy_str n) && table_schema zod t
  | TransformationStep _ _ t => no_proto_key t
  | UnknownTypeStep t _ => negb zod && negb (includes STEP_TYPES t)
  | _ => true
  end.

Definition def_schema (zod : bool) (d : WorkflowDefinition) : bool :=
  forallb (step_schema zod) (wd_steps d) && clean KNOWN_ROOT_KEYS (wd_extra d) &&
  match wd_metadata d with Some m => no_proto_key m | None => true end.

(** ** Encoding then decoding *)

Lemma event_roundtrip zod e : event_schema zod e = true → zBoundaryEvent zod (event_json e) = Some e.
Proof.
  unfold event_schema. rewrite andb_true_iff. intros [Ht Hc].
  unfold zBoundaryEvent, event_json, req, refine. simpl. rewrite Ht. simpl.
  change (_ :: _ :: _ :: _ :: be_extra e) with
    ([("type", JStr (be_type e)); ("duration", JStr (be_duration e));
      ("interrupting", JBool (be_interrupting e)); ("targetStepId", JStr (be_targetStepId e))] ++ be_extra e).
  rewrite passthrough_clean by done. by destruct e.
Qed.

Lemma events_roundtrip zod l :
  forallb (event_schema zod) l = true → z_array (zBoundaryEvent zod) (events_json l) = Some l.
Proof.
  intros H. apply mapM_roundtrip. intros e He. apply event_roundtrip. rewrite forallb_forall in H.
  by apply H, list_elem_of_In.
Qed.

Lemma rule_roundtrip zod r : rule_schema r = true → zDecisionTableRule zod (rule_json r) = Some r.
Proof.
  unfold rule_schema. rewrite !andb_true_iff. intros [[Hw Ho] Hc]. unfold zDecisionTableRule, rule_json, dflt.
  rewrite !obj_get_app. cbn [obj_get String.eqb Ascii.eqb Bool.eqb andb].
  rewrite (no_proto_record z_string), (no_proto_record z_any) by done. simpl.
  change (_ :: _ :: r_extra r) with
    ([("when", record_json JStr (r_when r)); ("outputs", record_json id (r_outputs r))] ++ r_extra r).
  rewrite passthrough_clean by done. by destruct r.
Qed.

Lemma table_roundtrip zod t : table_schema zod t = true → zDecisionTable zod (table_json t) = Some t.
Proof.
  unfold table_schema. rewrite !andb_true_iff. intros [[Hl Hr] Hc]. unfold zDecisionTable, table_json, req. simpl.
  rewrite mapM_roundtrip.
  - simpl. rewrite Hl. simpl.
    change (_ :: dt_extra t) with ([("rules", JArr (rule_json <$> dt_rules t))] ++ dt_extra t).
    rewrite passthrough_clean by done. by destruct t.
  - intros r Hin. apply rule_roundtrip. rewrite forallb_forall in Hr. by apply Hr, list_elem_of_In.
Qed.

Lemma common_skip c t (o : obj json) k :
  includes ["id"; "name"; "description"; "type"] k = false → obj_get (common_obj c t ++ o) k = obj_get o k.
Proof.
  rewrite includes_false. intros Hk. rewrite obj_get_app.
  replace (obj_get (common_obj c t) k) with (@None json); [done|]. symmetry. apply obj_get_None.
  unfold common_obj, obj_keys. destruct (sc_description c); simpl; set_solver.
Qed.

Lemma common_type c t (o : obj json) : req z_string (common_obj c t ++ o) "type" = Some t.
Proof. unfold req, common_obj. by destruct (sc_description c). Qed.

Lemma common_roundtrip declared c t a :
  includes declared "description" = true → declares declared (common_obj c t ++ a) = true →
  obj_get a "description" = None → clean declared (sc_extra c) = true →
  zCommon declared (common_obj c t ++ a ++ sc_extra c) = Some c.
Proof.
  intros Hin Hd Ha Hc. unfold zCommon. rewrite app_assoc, passthrough_clean by done. rewrite <- app_assoc.
  assert (obj_get (a ++ sc_extra c) "description" = None) as Hn.
  { rewrite obj_get_app, Ha. by eapply clean_get. }
  destruct c as [i nm desc e]. unfold req, opt, common_obj. simpl in *.
  destruct desc; simpl; [done|]. by rewrite Hn.
Qed.

Lemma declares_common declared c t :
  forallb (includes declared) ["id"; "name"; "description"; "type"] = true →
  declares declared (common_obj c t) = true.
Proof.
  simpl. intros H. bool_hyps. unfold common_obj. rewrite !declares_app, declares_ofield by done.
  simpl. by rewrite H, H0, H2.
Qed.

Ltac common_part :=
  rewrite common_type; cbn [mbind option_bind]; unfold shape_keys;
  rewrite common_roundtrip;
  [ cbn [mbind option_bind] | vm_compute; reflexivity
  | rewrite ?declares_app, declares_common, ?declares_ofield by (vm_compute; reflexivity); vm_compute; reflexivity
  | rewrite ?obj_get_app, ?obj_get_ofield; reflexivity | assumption ].

Lemma z_array_str (l : list string) : z_array z_string (JArr (JStr <$> l)) = Some l.
Proof. by apply mapM_roundtrip. Qed.

(** A declared member of [common_obj c t ++ fields ++ extra]. *)
Lemma opt_member {A} (f : json → option A) (g : A → json) (o : option A) c t fields e k :
  includes ["id"; "name"; "description"; "type"] k = false → obj_get fields k = g <$> o →
  obj_get e k = None → (∀ a, o = Some a → f (g a) = Some a) →
  opt f (common_obj c t ++ fields ++ e) k = Some o.
Proof.
  intros Hk Hf He H. unfold opt. rewrite common_skip, obj_get_app, Hf, He by done.
  destruct o; simpl; [by rewrite H|done].
Qed.

Lemma req_member {A} (f : json → option A) (j : json) (a : A) c t fields e k :
  includes ["id"; "name"; "description"; "type"] k = false → obj_get fields k = Some j →
  f j = Some a → req f (common_obj c t ++ fields ++ e) k = Some a.
Proof. intros Hk Hf H. unfold req. by rewrite common_skip, obj_get_app, Hf by done. Qed.

Lemma dflt_member {A} zod (f : json → option A) (j : json) d (a : A) c t fields e k :
  includes ["id"; "name"; "description"; "type"] k = false → obj_get fields k = Some j →
  f j = Some a → dflt zod d f (common_obj c t ++ fields ++ e) k = Some a.
Proof. intros Hk Hf H. unfold dflt. by rewrite common_skip, obj_get_app, Hf by done. Qed.

Lemma opt_events zod b :
  events_schema zod b = true → ∀ l, b = Some l → z_array (zBoundaryEvent zod) (events_json l) = Some l.
Proof. intros H l ->. by apply events_roundtrip. Qed.

(** Decide the tests between string literals. *)
Ltac lit_eqb :=
  repeat match goal with
  | |- context [String.eqb ?a ?b] =>
      let r := eval vm_compute in (String.eqb a b) in
      match r with true => idtac | false => idtac end; change (String.eqb a b) with r
  end; cbv beta iota.

(** The side conditions of the member lemmas. *)
Ltac member He :=
  first [ vm_compute; reflexivity
        | rewrite ?obj_get_app, ?obj_get_ofield; vm_compute; reflexivity
        | eapply clean_get; [exact He|vm_compute; reflexivity]
        | intros; reflexivity ].

Ltac opt_field He f g o k :=
  rewrite (opt_member f g o _ _ _ _ k);
  [ cbn [mbind option_bind] | member He
  | rewrite ?obj_get_app, ?obj_get_ofield; destruct o; vm_compute; reflexivity | member He
  | first [by apply opt_events | member He] ].

Ltac req_field He f j a k :=
  rewrite (req_member f j a _ _ _ _ k) by (member He); cbn [mbind option_bind].

Lemma unknown_eqb type t : includes STEP_TYPES type = false → t ∈ STEP_TYPES → String.eqb type t = false.
Proof. rewrite includes_false. intros Hn Ht. apply String.eqb_neq. by intros ->. Qed.

(** A type outside the nine takes no branch of a chain of tests. *)
Ltac unknown_chain Hu :=
  rewrite ?(unknown_eqb _ _ Hu) by (unfold STEP_TYPES; csimpl; set_solver).

Lemma unknown_keys type : includes STEP_TYPES type = false → KNOWN_STEP_KEYS type = None.
Proof. intros Hu. unfold KNOWN_STEP_KEYS. by unknown_chain Hu. Qed.

Lemma unknown_roundtrip type c :
  clean (shape_keys type) (sc_extra c) = true → includes STEP_TYPES type = false →
  zStep false (step_json (UnknownTypeStep type c)) = Some (UnknownTypeStep type c).
Proof.
  intros He Hu. unfold zStep, step_json, zStepObj, step_obj, step_extra. cbn [step_common step_type].
  rewrite common_type. cbn [mbind option_bind]. unfold shape_keys in *. rewrite (unknown_keys _ Hu) in *.
  cbn [default] in *. rewrite common_roundtrip.
  - cbn [mbind option_bind]. by unknown_chain Hu.
  - vm_compute; reflexivity.
  - rewrite declares_app, declares_common by (vm_compute; reflexivity). done.
  - done.
  - done.
Qed.

Lemma step_roundtrip zod s : step_schema zod s = true → zStep zod (step_json s) = Some s.
Proof.
  unfold step_schema. rewrite andb_true_iff. intros [He Hs].
  destruct s as [c n jt dc rc b|c n jt b|c m|c h n t|c n t|c n b|c p j|c n|c|type c].
  10: { apply andb_true_iff in Hs as [Hz Hu]. apply negb_true_iff in Hz, Hu. subst. by apply unknown_roundtrip. }
  all: unfold zStep, step_json, zStepObj, step_obj; cbn [step_common step_type step_extra step_type_str] in *;
    common_part; lit_eqb.
  - apply andb_true_iff in Hs as [Hrc Hb].
    opt_field He z_string JStr n "nextStep". opt_field He z_string JStr jt "jobType".
    opt_field He z_string JStr dc "delegateClass". opt_field He z_number JNum rc "retryCount".
    rewrite Hrc. cbn [refine mbind option_bind].
    by opt_field He (z_array (zBoundaryEvent zod)) events_json b "boundaryEvents".
  - opt_field He z_string JStr n "nextStep". opt_field He z_string JStr jt "jobType".
    by opt_field He (z_array (zBoundaryEvent zod)) events_json b "boundaryEvents".
  - rewrite (req_member _ (record_json JStr m) m); [done|vm_compute; reflexivity|done|]. by apply no_proto_record.
  - apply andb_true_iff in Hs as [[Hh Hn]%andb_true_iff Ht].
    match goal with |- ?X ≫= _ = _ => assert (X = Some h) as -> end.
    { destruct zod.
      - destruct h as [h|]; [|done]. rewrite (dflt_member _ _ (JStr h) _ h); [done|member He|member He|].
        cbn. cbn in Hh. by rewrite Hh.
      - opt_field He (zHitPolicy false) JStr h "hitPolicy". done. }
    cbn [mbind option_bind]. req_field He z_string (JStr n) n "nextStep". rewrite Hn. cbn [refine mbind option_bind].
    rewrite (req_member _ (table_json t) t);
      [done|member He|rewrite obj_get_app, obj_get_ofield; vm_compute; reflexivity|by apply table_roundtrip].
  - req_field He z_string (JStr n) n "nextStep".
    rewrite (req_member _ (record_json id t) t); [done|member He|done|by apply no_proto_record].
  - req_field He z_string (JStr n) n "nextStep".
    by opt_field He (z_array (zBoundaryEvent zod)) events_json b "boundaryEvents".
  - rewrite (req_member _ (JArr (JStr <$> p)) p); [|member He|done|apply z_array_str].
    cbn [mbind option_bind]. by req_field He z_string (JStr j) j "joinStep".
  - by req_field He z_string (JStr n) n "nextStep".
  - done.
Qed.

Section def_roundtrip.
Context (zod : bool) (d : WorkflowDefinition) (Hd : def_schema zod d = true).

Lemma def_clean : clean KNOWN_ROOT_KEYS (wd_extra d) = true.
Proof. unfold def_schema in Hd. by bool_hyps. Qed.

Lemma def_passthrough : passthrough KNOWN_ROOT_KEYS (def_obj d) = wd_extra d.
Proof.
  unfold def_obj. rewrite !app_assoc. apply passthrough_clean; [|apply def_clean].
  rewrite !declares_app, !declares_ofield by (vm_compute; reflexivity). vm_compute. reflexivity.
Qed.

(** The declared members of the encoded definition. *)
Lemma def_get k :
  obj_get (def_obj d) k =
  if String.eqb k "id" then Some (JStr (wd_id d))
  else if String.eqb k "version" then match JNum <$> wd_version d with Some v => Some v | None => obj_get (wd_extra d) k end
  else if String.eqb k "name" then Some (JStr (wd_name d))
  else if String.eqb k "description" then match JStr <$> wd_description d with Some v => Some v | None => obj_get (wd_extra d) k end
  else if String.eqb k "autoStartNextWorkflow" then
    match JBool <$> wd_autoStartNextWorkflow d with Some v => Some v | None => obj_get (wd_extra d) k end
  else if String.eqb k "nextWorkflowId" then
    match JStr <$> wd_nextWorkflowId d with Some v => Some v | None => obj_get (wd_extra d) k end
  else if String.eqb k "steps" then Some (JArr (step_json <$> wd_steps d))
  else if String.eqb k "metadata" then
    match record_json id <$> wd_metadata d with Some v => Some v | None => obj_get (wd_extra d) k end
  else obj_get (wd_extra d) k.
Proof.
  unfold def_obj. rewrite !obj_get_app, !obj_get_ofield. cbn [obj_get].
  repeat match goal with
  | |- context [String.eqb k ?x] => destruct (String.eqb_spec k x); [subst; lit_eqb|]
  end; try done; repeat case_match; done.
Qed.

Lemma def_opt {A} (f : json → option A) (g : A → json) (o : option A) k :
  obj_get (def_obj d) k = match g <$> o with Some v => Some v | None => obj_get (wd_extra d) k end →
  includes KNOWN_ROOT_KEYS k = true → (∀ a, o = Some a → f (g a) = Some a) → opt f (def_obj d) k = Some o.
Proof.
  intros Hg Hk Hf. unfold opt. rewrite Hg. destruct o; simpl; [by rewrite Hf|].
  by rewrite (clean_get _ _ _ def_clean Hk).
Qed.

Lemma def_roundtrip : zWorkflowDefinition zod (def_json d) = Some d.
Proof.
  unfold zWorkflowDefinition, def_json. rewrite def_passthrough.
  rewrite (def_opt z_number JNum (wd_version d) "version"),
    (def_opt z_string JStr (wd_description d) "description"),
    (def_opt z_boolean JBool (wd_autoStartNextWorkflow d) "autoStartNextWorkflow"),
    (def_opt z_string JStr (wd_nextWorkflowId d) "nextWorkflowId"),
    (def_opt (z_record z_any) (record_json id) (wd_metadata d) "metadata"); try (vm_compute; reflexivity);
    try (rewrite def_get; lit_eqb; reflexivity); try done.
  - unfold req. rewrite !def_get. lit_eqb. cbn [z_string mbind option_bind].
    unfold z_array. rewrite mapM_roundtrip; [clear; destruct d; reflexivity|].
    intros s Hs. apply step_roundtrip. unfold def_schema in Hd. bool_hyps.
    rewrite forallb_forall in H. by apply H, list_elem_of_In.
  - intros m Hm. apply no_proto_record; [|done]. unfold def_schema in Hd. rewrite Hm in Hd. by bool_hyps.
Qed.
End def_roundtrip.

(** ** What decoding guarantees *)

(** A JSON value as [JSON.parse] builds it: every object in JS key order. *)
Fixpoint json_wf (j : json) : bool :=
  match j with
  | JArr l => forallb json_wf l
  | JObj o => (keys_ok (o.*1) && forallb (λ p, json_wf p.2) o)%bool
  | _ => true
  end.

Lemma json_wf_get o k j : json_wf (JObj o) = true → obj_get o k = Some j → json_wf j = true.
Proof.
  simpl. intros [_ H]%andb_true_iff Hg%obj_get_Some_elem. rewrite forallb_forall in H.
  apply list_elem_of_In in Hg. by apply H in Hg.
Qed.

Lemma passthrough_is_clean declared o : clean declared (passthrough declared o) = true.
Proof.
  unfold clean, passthrough, no_proto, obj_delete. rewrite filter_filter. apply forallb_forall.
  by intros p [_ ?]%filter_In.
Qed.

Lemma z_pair_keys {A} (f : json → option A) o m : mapM (z_pair f) o = Some m → obj_keys m = o.*1.
Proof.
  rewrite mapM_Some. unfold obj_keys. induction 1 as [|[k j] [k' a] o m H _ IH]; csimpl; [done|].
  unfold z_pair in H. simpl in H. destruct (f j); simplify_eq. by rewrite IH.
Qed.

Lemma z_record_spec {A} (f : json → option A) j m :
  z_record f j = Some m → no_proto_key m = true ∧ (json_wf j = true → obj_wf m = true).
Proof.
  destruct j as [| | | | |o]; simpl; try done. intros H%z_pair_keys. split.
  - unfold no_proto_key. rewrite negb_true_iff, obj_has_false, H. unfold no_proto.
    intros (p & Hp & Hin)%list_elem_of_fmap. apply list_elem_of_In, filter_In in Hin as [_ Hin].
    rewrite negb_true_iff, String.eqb_neq in Hin. congruence.
  - intros [Hk _]%andb_true_iff. unfold obj_wf. rewrite H. by apply (obj_wf_filter _ o).
Qed.

Lemma z_record_no_proto {A} (f : json → option A) j m : z_record f j = Some m → no_proto_key m = true.
Proof. apply z_record_spec. Qed.

Lemma dflt_no_proto {A} (f : json → option A) o k m :
  dflt true [] (z_record f) o k = Some m → no_proto_key m = true.
Proof. unfold dflt. destruct (obj_get o k); [apply z_record_no_proto|by intros [= <-]]. Qed.

Lemma z_array_elem {A} (f : json → option A) j l x :
  z_array f j = Some l → x ∈ l → ∃ j', f j' = Some x ∧ (json_wf j = true → json_wf j' = true).
Proof.
  destruct j as [| | | |js|]; simpl; try done. rewrite mapM_Some. intros H [i Hi]%list_elem_of_lookup.
  destruct (Forall2_lookup_r _ _ _ _ _ H Hi) as (j' & Hj & Hf). exists j'. split; [done|].
  rewrite forallb_forall. intros Hw. apply Hw, list_elem_of_In. by eapply list_elem_of_lookup_2.
Qed.

(** Invert a chain of binds and the members it reads. *)
Ltac inv_binds :=
  repeat match goal with
  | H : _ ≫= _ = Some _ |- _ => apply bind_Some in H as (? & ? & ?)
  | H : refine _ = Some _ |- _ => unfold refine in H
  | H : (if ?b then Some tt else None) = Some _ |- _ => destruct b eqn:?; [clear H|discriminate H]
  | H : Some _ = Some _ |- _ => injection H as H; subst
  end.

Lemma req_Some {A} (f : json → option A) o k a :
  req f o k = Some a → ∃ j, f j = Some a ∧ (json_wf (JObj o) = true → json_wf j = true).
Proof. unfold req. destruct (obj_get o k) eqn:E; [|done]. eauto using json_wf_get. Qed.

Lemma opt_Some {A} (f : json → option A) o k a :
  opt f o k = Some (Some a) → ∃ j, f j = Some a.
Proof. unfold opt. destruct (obj_get o k) as [j|]; [|done]. destruct (f j) eqn:E; naive_solver. Qed.

Lemma event_schema_decoded j e : zBoundaryEvent true j = Some e → event_schema true e = true.
Proof.
  destruct j; simpl; try done. intros H. inv_binds. unfold event_schema. simpl.
  rewrite passthrough_is_clean. by rewrite andb_true_r.
Qed.

Lemma events_schema_decoded o b :
  opt (z_array (zBoundaryEvent true)) o "boundaryEvents" = Some b → events_schema true b = true.
Proof.
  destruct b as [l|]; [|done]. intros (j & Hj)%opt_Some. apply forallb_forall. intros e He%list_elem_of_In.
  destruct (z_array_elem _ _ _ _ Hj He) as (j' & Hj' & _). by eapply event_schema_decoded.
Qed.

Lemma table_schema_decoded j t : zDecisionTable true j = Some t → table_schema true t = true.
Proof.
  destruct j as [| | | | |o]; simpl; try done. intros H. inv_binds. unfold table_schema. simpl in *.
  rewrite Heqb, passthrough_is_clean, andb_true_r. simpl. apply forallb_forall. intros r Hr%list_elem_of_In.
  apply req_Some in H as (j & Hj & _). destruct (z_array_elem _ _ _ _ Hj Hr) as (j' & Hj' & _).
  destruct j' as [| | | | |ro]; simpl in Hj'; try done. inv_binds. unfold rule_schema. simpl.
  rewrite passthrough_is_clean, andb_true_r. apply andb_true_iff. split; by eapply dflt_no_proto.
Qed.

Lemma common_decoded declared o c : zCommon declared o = Some c → clean declared (sc_extra c) = true.
Proof. unfold zCommon. intros H. inv_binds. simpl. apply passthrough_is_clean. Qed.

Lemma step_schema_decoded j s :
  zStep true j = Some s → step_schema true s = true ∧ (json_wf j = true → step_wf s = true).
Proof.
  destruct j as [| | | | |o]; simpl; try done. unfold zStepObj. intros H.
  apply bind_Some in H as (type & _ & H). apply bind_Some in H as (c & Hc%common_decoded & H).
  repeat match type of H with
  | (if String.eqb type ?t then _ else _) = _ =>
      destruct (String.eqb_spec type t) as [->|]; [|]
  end; try done; inv_binds; unfold step_schema, step_extra; simpl step_common; simpl step_type;
    rewrite Hc; simpl; split; try done.
  all: try (by eapply events_schema_decoded).
  all: try match goal with H : req (z_record _) _ _ = Some _ |- _ => apply req_Some in H as (j & Hj & Hw) end.
  all: try (by eapply z_record_no_proto).
  - simpl in *. rewrite Heqb. by eapply events_schema_decoded.
  - intros Hj'. apply andb_true_iff. split; [|by eapply z_record_no_proto].
    destruct (z_record_spec _ _ _ Hj) as [_ Ho]. by apply Ho, Hw.
  - simpl in Heqb. rewrite Heqb, andb_true_r. apply req_Some in H2 as (j & Hj & _).
    rewrite (table_schema_decoded _ _ Hj), andb_true_r. apply fmap_Some in H as (h & Hh & ->).
    unfold dflt in Hh. destruct (obj_get o "hitPolicy"); [|by simplify_eq]. unfold zHitPolicy in Hh.
    inv_binds. done.
Qed.

Lemma step_schema_known s : step_schema true s = true → known_type s = true.
Proof. destruct s; simpl; try (intros; by vm_compute). unfold step_schema. simpl. by rewrite andb_false_r. Qed.

(** A decoded definition satisfies the schema, has known step types only, and
    keeps its objects in JS key order. *)
Lemma def_schema_decoded j d :
  zWorkflowDefinition true j = Some d → def_schema true d = true ∧ (json_wf j = true → def_wf d = true).
Proof.
  destruct j as [| | | | |o]; simpl; try done. intros H. inv_binds.
  match goal with H : req (z_array (zStep true)) _ _ = Some _ |- _ => apply req_Some in H as (j & Hj & Hw) end.
  unfold def_schema, def_wf. simpl. split.
  - rewrite passthrough_is_clean, andb_true_r. apply andb_true_iff. split.
    + apply forallb_forall. intros s Hs%list_elem_of_In. destruct (z_array_elem _ _ _ _ Hj Hs) as (j' & Hj' & _).
      by eapply step_schema_decoded.
    + case_match; [|done]. match goal with H : opt (z_record _) _ _ = _ |- _ => apply opt_Some in H as (? & ?) end.
      by eapply z_record_no_proto.
  - intros Hj'. apply forallb_forall. intros s Hs%list_elem_of_In.
    destruct (z_array_elem _ _ _ _ Hj Hs) as (j' & Hz & Hwf). eapply step_schema_decoded; [done|]. auto.
Qed.
