(* ===== verification/ImportExport.v ===== *)
(** * Import and export (workflow-modeller/src/io/import.ts, io/export.ts)

    [importJson], [exportJson], [embedLayout], and the store's
    [extractEmbeddedModeller], which reads back what [embedLayout] writes.
    The text level ([JSON.parse], [JSON.stringify]) and zod's [safeParse] are
    parameters; the properties name what they rely on of each. *)

From S2P Require Import Prelude JsObject Types Validate Schema.

(** ** Layout and edge handles *)

Record Pos := mkPos { pos_x : jsnum; pos_y : jsnum }.

Abbreviation Layout := (obj Pos).

(** Handles are stored and copied as they come. *)
Abbreviation EdgeHandles := (obj json).

Definition pos_json (p : Pos) : json := JObj [("x", JNum (pos_x p)); ("y", JNum (pos_y p))].

Definition layout_json (l : Layout) : json := record_json pos_json l.

(** The own enumerable members of a value: [Object.entries], [{ ...v }]. *)
Fixpoint char_entries (i : nat) (s : string) : obj json :=
  match s with
  | EmptyString => []
  | String c s => (str_of_nat i, JStr (String c EmptyString)) :: char_entries (S i) s
  end.

Definition entries (v : json) : obj json :=
  match v with
  | JObj o => o
  | JArr l => (λ p, (str_of_nat p.1, p.2)) <$> indexed l
  | JStr s => char_entries 0 s
  | _ => []
  end.

(** [v?.[k]] for a key no built-in prototype has. *)
Definition get_member (v : option json) (k : string) : option json :=
  match v with Some (JObj o) => obj_get o k | _ => None end.

(** [v ?? {}] *)
Definition or_empty (v : option json) : json :=
  match v with None | Some JNull => JObj [] | Some j => j end.

Definition embedLayout (def : WorkflowDefinition) (layout : Layout) (edgeHandles : EdgeHandles) :
    WorkflowDefinition :=
  let metadata := default [] (wd_metadata def) in
  let wm := or_empty (obj_get metadata "workflowModeller") in
  let wmData := obj_set "layout" (layout_json layout) (entries wm) in
  let wmData := if Nat.ltb 0 (length (obj_keys edgeHandles))
                then obj_assign "edgeHandles" (JObj edgeHandles) wmData else wmData in
  mkDef (wd_id def) (wd_version def) (wd_name def) (wd_description def) (wd_autoStartNextWorkflow def)
    (wd_nextWorkflowId def) (wd_steps def)
    (Some (obj_set "workflowModeller" (JObj wmData) metadata)) (wd_extra def).

(** The [typeof v === 'object'] values that are not null. *)
Definition is_object (v : json) : bool := match v with JObj _ | JArr _ => true | _ => false end.

Definition read_pos (v : json) : option Pos :=
  match v with
  | JObj o =>
      match obj_get o "x", obj_get o "y" with
      | Some (JNum x), Some (JNum y) => Some (mkPos x y)
      | _, _ => None
      end
  | _ => None
  end.

Definition read_layout (raw : json) : Layout :=
  fold_left (λ layout p, match read_pos p.2 with Some pos => obj_assign p.1 pos layout | None => layout end)
    (entries raw) [].

Definition extractEmbeddedModeller (def : WorkflowDefinition) : Layout * EdgeHandles :=
  let wm := match wd_metadata def with Some m => obj_get m "workflowModeller" | None => None end in
  let layout := match get_member wm "layout" with
                | Some raw => if is_object raw then read_layout raw else []
                | None => []
                end in
  let edgeHandles := match get_member wm "edgeHandles" with
                     | Some raw => if is_object raw then entries raw else []
                     | None => []
                     end in
  (layout, edgeHandles).

(** ** Import *)

Inductive ImportResult :=
| ImportOk (def : WorkflowDefinition) (warnings : list string)
| ImportErr (errors : list string).

Definition collectUnknownFieldWarnings (def : WorkflowDefinition) : list string :=
  let rootExtras := List.filter (λ k, negb (includes KNOWN_ROOT_KEYS k)) (def_keys def) in
  (if Nat.ltb 0 (length rootExtras) then ["Unknown top-level field(s): " ⊕ js_join ", " rootExtras] else []) ++
  (wd_steps def ≫= λ step,
     let known := default [] (KNOWN_STEP_KEYS (step_type step)) in
     let extras := List.filter (λ k, negb (includes known k)) (step_keys step) in
     if Nat.ltb 0 (length extras)
     then ["Step " ⊕ quoted (step_id step) ⊕ " has unknown field(s): " ⊕ js_join ", " extras] else []).

(** What the file uses of the text level and of zod: [JSON.parse] gives a value
    or the message of its [SyntaxError], [safeParse] a definition or issues. *)
Class JsonText := {
  JSON_parse : string → json + string;
  JSON_stringify : json → string;
  safeParse : json → WorkflowDefinition + list (list string * string)
}.

(** Their documented behaviour, as far as the properties rely on it. *)
Class JsonTextLaws (T : JsonText) := {
  parse_wf : ∀ text j, JSON_parse text = inl j → json_wf j = true;
  parse_stringify : ∀ j, json_wf j = true → JSON_parse (JSON_stringify j) = inl j;
  stringify_nonempty : ∀ j, JSON_stringify j ≠ EmptyString;
  safeParse_schema : ∀ j,
    match safeParse j with
    | inl d => zWorkflowDefinition true j = Some d
    | inr _ => zWorkflowDefinition true j = None
    end
}.

Section import.
Context `{JsonText}.

Definition issue_message (i : list string * string) : string :=
  let path := js_join "." i.1 in (if truthy_str path then path else "<root>") ⊕ ": " ⊕ i.2.

Definition importJson (text : string) : ImportResult :=
  match JSON_parse text with
  | inr message => ImportErr ["Invalid JSON: " ⊕ message]
  | inl raw =>
      match safeParse raw with
      | inr issues => ImportErr (issue_message <$> issues)
      | inl def => ImportOk def (collectUnknownFieldWarnings def)
      end
  end.

(** [exportJson] with the layout given; [pretty] only sets the indentation. *)
Definition exportJson (def : WorkflowDefinition) (includeLayout : bool) (layout : Layout)
    (edgeHandles : EdgeHandles) : string :=
  JSON_stringify (def_json (if includeLayout then embedLayout def layout edgeHandles else def)).
End import.

(** ** Lemmas *)

Lemma entries_obj o : entries (JObj o) = o.
Proof. done. Qed.

Lemma read_layout_json (l : Layout) :
  obj_wf l = true → "__proto__" ∉ obj_keys l → read_layout (layout_json l) = l.
Proof.
  intros Hwf Hp. unfold read_layout, layout_json, record_json, entries.
  assert (∀ (ps : Layout) acc,
    fold_left (λ layout p, match read_pos p.2 with Some pos => obj_assign p.1 pos layout | None => layout end)
      ((λ p, (p.1, pos_json p.2)) <$> ps) acc = fold_left (λ o p, obj_assign p.1 (id p.2) o) ps acc) as H.
  { induction ps as [|[k [x y]] ps IH]; intros acc; csimpl; [done|]. apply IH. }
  rewrite H, (obj_assign_all id) by done. rewrite <- (list_fmap_id l) at 2.
  apply list_fmap_ext. by intros i [k v] _.
Qed.

(** ** Properties *)

(** What export embeds is what import and the engine load read back: the
    layout exactly, and the edge handles exactly when there are any. *)
Theorem embed_extract_roundtrip def layout handles :
  obj_wf layout = true → "__proto__" ∉ obj_keys layout →
  (extractEmbeddedModeller (embedLayout def layout handles)).1 = layout ∧
  (handles ≠ [] → (extractEmbeddedModeller (embedLayout def layout handles)).2 = handles) ∧
  wd_steps (embedLayout def layout handles) = wd_steps def.
Proof.
  intros Hwf Hp. unfold extractEmbeddedModeller, embedLayout. simpl. rewrite obj_get_set_eq. simpl.
  set (wm := entries (or_empty (obj_get (default [] (wd_metadata def)) "workflowModeller"))).
  split_and!; [| |done].
  - destruct (Nat.ltb _ _); unfold obj_assign; simpl; rewrite ?obj_get_set_ne by done;
      rewrite obj_get_set_eq; simpl; by apply read_layout_json.
  - intros Hh. destruct handles as [|h hs]; [done|]. simpl. unfold obj_assign. simpl.
    by rewrite obj_get_set_eq.
Qed.

Lemma embed_extract_roundtrip_witness :
  let layout := [("reserve", mkPos (num_of_Z 10) (num_of_Z 20)); ("done", mkPos (num_of_Z 300) (num_of_Z 20))] in
  (extractEmbeddedModeller (embedLayout order_def layout [])).1 = layout.
Proof.
  apply (embed_extract_roundtrip order_def _ []).
  - vm_compute; reflexivity.
  - apply includes_false. vm_compute. reflexivity.
Defined.

(** ** A concrete text level

    An injective encoding of JSON values as texts, to show that the laws above
    can hold together. *)

#[export] Instance jsnum_eq_dec : EqDecision jsnum.
Proof. solve_decision. Defined.

#[export] Instance jsnum_countable : Countable jsnum.
Proof.
  refine (inj_countable' (λ n, (mant n, expo n)) (λ p, JsNum p.1 p.2) _). by intros [].
Defined.

(** Leaves: null, booleans, numbers, strings. *)
Abbreviation json_leaf := (unit + bool + jsnum + string)%type.

Fixpoint json_tree (j : json) : gen_tree json_leaf :=
  match j with
  | JNull => GenLeaf (inl (inl (inl tt)))
  | JBool b => GenLeaf (inl (inl (inr b)))
  | JNum n => GenLeaf (inl (inr n))
  | JStr s => GenLeaf (inr s)
  | JArr l => GenNode 0 (map json_tree l)
  | JObj o => GenNode 1 (map (λ p, GenNode 2 [GenLeaf (inr p.1); json_tree p.2]) o)
  end.

Fixpoint tree_json (t : gen_tree json_leaf) : json :=
  match t with
  | GenLeaf (inl (inl (inl _))) => JNull
  | GenLeaf (inl (inl (inr b))) => JBool b
  | GenLeaf (inl (inr n)) => JNum n
  | GenLeaf (inr s) => JStr s
  | GenNode 0 l => JArr (map tree_json l)
  | GenNode _ l => JObj (map (λ t, match t with
                                   | GenNode _ [GenLeaf (inr k); v] => (k, tree_json v)
                                   | _ => (EmptyString, JNull)
                                   end) l)
  end.

Lemma tree_json_tree j : tree_json (json_tree j) = j.
Proof.
  induction j as [| | | |l IH|o IH] using json_ind; simpl; try done; f_equal.
  - induction IH as [|x l Hx _ IH]; simpl; [done|]. by rewrite Hx, IH.
  - induction IH as [|[k v] o Hx _ IH]; simpl in *; [done|]. by rewrite Hx, IH.
Qed.

Fixpoint pos_text (p : positive) : string :=
  match p with
  | xH => EmptyString
  | xO p => String "0" (pos_text p)
  | xI p => String "1" (pos_text p)
  end.

Fixpoint text_pos (s : string) : positive :=
  match s with
  | EmptyString => xH
  | String c s => if Ascii.eqb c "0" then xO (text_pos s) else xI (text_pos s)
  end.

Lemma text_pos_text p : text_pos (pos_text p) = p.
Proof. induction p as [p IH|p IH|]; simpl; by rewrite ?IH. Qed.

#[export] Instance model_text : JsonText := {
  JSON_parse text :=
    match match text with String _ s => decode (text_pos s) | EmptyString => None end with
    | Some t => let j := tree_json t in if json_wf j then inl j else inr "Unexpected token"
    | None => inr "Unexpected token"
    end;
  JSON_stringify j := String "j" (pos_text (encode (json_tree j)));
  safeParse j := match zWorkflowDefinition true j with Some d => inl d | None => inr [([], "Invalid input")] end
}.

#[export] Instance model_text_laws : JsonTextLaws model_text.
Proof.
  split; simpl.
  - intros text j. destruct (match text with String _ _ => _ | EmptyString => _ end) as [t|]; [|done]. destruct (json_wf (tree_json t)) eqn:E; naive_solver.
  - intros j Hj. by rewrite text_pos_text, decode_encode, tree_json_tree, Hj.
  - done.
  - intros j. by destruct (zWorkflowDefinition true j).
Defined.

Lemma import_exported `{JsonTextLaws} d (includeLayout : bool) layout handles :
  let d' := if includeLayout then embedLayout d layout handles else d in
  def_schema true d' = true → json_wf (def_json d') = true →
  importJson (exportJson d includeLayout layout handles) = ImportOk d' (collectUnknownFieldWarnings d').
Proof.
  intros d' Hs Hw. unfold importJson, exportJson. fold d'. rewrite parse_stringify by done.
  pose proof (safeParse_schema (def_json d')) as Hp. rewrite (def_roundtrip true d' Hs) in Hp.
  destruct (safeParse (def_json d')); by simplify_eq.
Qed.

(** C29: exporting a definition the schema accepts and importing the text gives
    the definition back, with a warning per object that has undeclared
    members. *)
Theorem export_import_roundtrip `{JsonTextLaws} d :
  def_schema true d = true → json_wf (def_json d) = true →
  importJson (exportJson d false [] []) = ImportOk d (collectUnknownFieldWarnings d).
Proof. apply (import_exported d false [] []). Qed.

Lemma export_import_roundtrip_witness :
  importJson (exportJson order_def false [] []) = ImportOk order_def [].
Proof.
  apply (export_import_roundtrip order_def); vm_compute; reflexivity.
Defined.

(** C38: a successful import yields a definition in which every step has one of
    the nine types, branch objects are well formed and every refinement of the
    schema (timers, hit policies, retry counts, non-empty tables) holds. *)
Theorem import_establishes_schema `{JsonTextLaws} text d warnings :
  importJson text = ImportOk d warnings →
  def_schema true d = true ∧ def_wf d = true ∧ forallb known_type (wd_steps d) = true.
Proof.
  unfold importJson. intros Hi. destruct (JSON_parse text) as [j|] eqn:Ej; [|done].
  pose proof (safeParse_schema j) as Hz. destruct (safeParse j); [|done]. simplify_eq.
  destruct (def_schema_decoded _ _ Hz) as [Hs Hw]. split_and!; [done|by eapply Hw, parse_wf|].
  unfold def_schema in Hs. bool_hyps. apply forallb_forall. intros s Hin.
  rewrite forallb_forall in H0. by apply step_schema_known, H0.
Qed.

Lemma import_establishes_schema_witness :
  ∃ w, importJson (exportJson tiny_def false [] []) = ImportOk tiny_def w ∧
       forallb known_type (wd_steps tiny_def) = true.
Proof.
  exists []. assert (importJson (exportJson tiny_def false [] []) = ImportOk tiny_def []) as H
    by (vm_compute; reflexivity).
  split; [exact H|]. apply (import_establishes_schema _ _ _ H).
Defined.
