(* ===== verification/Store.v ===== *)
(** * The editor's store (workflow-modeller/src/store/workflowStore.ts, selectors.ts)

    The state is a record, every action that changes it a function of the
    state.  An action may throw, or build an object that is no
    [WorkflowDefinition] (a step that became [undefined], a member of another
    type): [Throws] and [IllTyped].  An action that awaits the engine is split
    at the [await]: [between] is whatever the other actions do to the store in
    the meantime.  The undo history (zundo) and the persistence middleware
    (zustand) that wrap the store are in History.v and Persist.v. *)

From S2P Require Import Prelude JsObject Types Graph Rename Validate Schema ImportExport.

(** ** State *)

Inductive EngineStatus := StUnknown | StOk | StUnreachable | StUnauthorized | StError.

#[export] Instance EngineStatus_eq_dec : EqDecision EngineStatus.
Proof. solve_decision. Defined.

Record EngineConnection := mkEngine {
  ec_baseUrl : string;
  ec_authHeader : string;
  ec_status : EngineStatus;
  ec_lastCheckedAt : option Z
}.

Inductive Selection :=
| SelNone
| SelStep (id : StepId)
| SelEdge (from to : StepId) (variant : EdgeVariant).

Inductive Source :=
| SrcNew
| SrcFile (name : option string)
| SrcEngine (definitionId : string) (version : jsnum).

Record Validation := mkValidation { v_lastRunAt : option Z; v_diagnostics : list Diagnostic }.

Record WorkflowState := mkState {
  ws_definition : WorkflowDefinition;
  ws_layout : Layout;
  ws_edgeHandles : EdgeHandles;
  ws_selection : Selection;
  ws_validation : Validation;
  ws_dirty : bool;
  ws_importWarnings : list string;
  ws_engine : EngineConnection;
  ws_source : Source
}.

Record NewStepTemplate := mkTemplate {
  nt_type : StepType;
  nt_id : option StepId;
  nt_name : option string
}.

Inductive Result (A : Type) :=
| Ok (a : A)
| Throws (message : string)
| IllTyped.
Arguments Ok {A} _.
Arguments Throws {A} _.
Arguments IllTyped {A}.

Definition emptyDefinition : WorkflowDefinition :=
  mkDef "new-workflow" None "Untitled workflow" None None None [] None [].

Definition initialState : WorkflowState :=
  mkState emptyDefinition [] [] SelNone (mkValidation None []) false []
    (mkEngine "http://localhost:8080" EmptyString StUnknown None) SrcNew.

(** [set({ definition, dirty: true })] *)
Definition edit (def : WorkflowDefinition) (st : WorkflowState) : WorkflowState :=
  mkState def (ws_layout st) (ws_edgeHandles st) (ws_selection st) (ws_validation st) true
    (ws_importWarnings st) (ws_engine st) (ws_source st).

Definition with_engine (e : EngineConnection) (st : WorkflowState) : WorkflowState :=
  mkState (ws_definition st) (ws_layout st) (ws_edgeHandles st) (ws_selection st) (ws_validation st)
    (ws_dirty st) (ws_importWarnings st) e (ws_source st).

Definition with_status (s : EngineStatus) (at_ : option Z) (e : EngineConnection) : EngineConnection :=
  mkEngine (ec_baseUrl e) (ec_authHeader e) s at_.

(** The [set] of the actions that replace the whole workflow. *)
Definition replace_workflow (def : WorkflowDefinition) (layout : Layout) (handles : EdgeHandles)
    (warnings : list string) (source : Source) (st : WorkflowState) : WorkflowState :=
  mkState def layout handles SelNone (mkValidation None []) false warnings (ws_engine st) source.

(** ** New steps *)

(** [toLowerCase] and [toUpperCase] on the letters of a step type. *)
Definition ascii_lower (c : ascii) : ascii :=
  let n := Ascii.nat_of_ascii c in if (Nat.leb 65 n && Nat.leb n 90)%bool then chr (n + 32) else c.
Definition ascii_upper (c : ascii) : ascii :=
  let n := Ascii.nat_of_ascii c in if (Nat.leb 97 n && Nat.leb n 122)%bool then chr (n - 32) else c.

Fixpoint str_map (f : ascii → ascii) (s : string) : string :=
  match s with EmptyString => EmptyString | String c s => String (f c) (str_map f s) end.

(** [s.split(c)] *)
Fixpoint split_on (c : ascii) (s : string) : list string :=
  match s with
  | EmptyString => [EmptyString]
  | String d s' =>
      if Ascii.eqb d c then EmptyString :: split_on c s'
      else match split_on c s' with
           | [] => [String d EmptyString]
           | w :: ws => String d w :: ws
           end
  end.

Definition capitalize (s : string) : string :=
  match s with EmptyString => s | String c s' => String (ascii_upper c) s' end.

Definition defaultStepName (type : StepType) : string :=
  js_join " " (capitalize <$> split_on "_" (str_map ascii_lower (step_type_str type))).

(** [type.toLowerCase().replace(/_/g, '-')] *)
Definition defaultStepId (type : StepType) : string :=
  str_map (λ c, if Ascii.eqb c "_" then "-"%char else c) (str_map ascii_lower (step_type_str type)).

Definition suffixed (preferred : StepId) (i : nat) : StepId := preferred ⊕ "-" ⊕ str_of_nat i.

(** [while (existing.has(...)) i++] *)
Fixpoint find_suffix (existing : gset StepId) (preferred : StepId) (fuel i : nat) : option StepId :=
  match fuel with
  | O => None
  | S fuel =>
      if bool_decide (suffixed preferred i ∈ existing) then find_suffix existing preferred fuel (S i)
      else Some (suffixed preferred i)
  end.

Definition uniqueStepId (def : WorkflowDefinition) (preferred : StepId) : option StepId :=
  let existing : gset StepId := list_to_set (step_ids def) in
  if negb (bool_decide (preferred ∈ existing)) then Some preferred
  else find_suffix existing preferred (S (length (wd_steps def))) 2.

Definition newStepOf (type : StepType) (id name : string) : Step :=
  let c := mkCommon id name None [] in
  match type with
  | SERVICE_TASK => ServiceTaskStep c None None None None None
  | USER_TASK => UserTaskStep c None None None
  | DECISION => DecisionStep c []
  | DECISION_TABLE => DecisionTableStep c (Some "U") EmptyString (mkTable [] [])
  | TRANSFORMATION => TransformationStep c EmptyString []
  | WAIT => WaitStep c EmptyString None
  | PARALLEL_GATEWAY => ParallelGatewayStep c [] EmptyString
  | JOIN_GATEWAY => JoinGatewayStep c EmptyString
  | END_ => EndStep c
  end.

Definition newStep (template : NewStepTemplate) (def : WorkflowDefinition) : option Step :=
  let baseId := default (defaultStepId (nt_type template)) (nt_id template) in
  match uniqueStepId def baseId with
  | Some id => Some (newStepOf (nt_type template) id (default (defaultStepName (nt_type template)) (nt_name template)))
  | None => None
  end.

(** ** Removing references *)

Definition scrub (removedId id : StepId) : StepId := if String.eqb id removedId then EmptyString else id.

Definition scrubEvents (removedId : StepId) (events : option (list BoundaryEvent)) :
    option (list BoundaryEvent) :=
  match events with
  | Some evs => Some (List.filter (λ e, negb (String.eqb (be_targetStepId e) removedId)) evs)
  | None => None
  end.

Definition scrubRule (removedId : StepId) (r : DecisionTableRule) : DecisionTableRule :=
  match obj_get (r_extra r) "then" with
  | Some (JStr t) =>
      if String.eqb t removedId
      then mkRule (r_when r) (r_outputs r) (obj_set "then" (JStr EmptyString) (r_extra r)) else r
  | _ => r
  end.

(** [defaultNextStep] is kept when it is truthy and not the removed id. *)
Definition scrubTable (removedId : StepId) (t : DecisionTable) : DecisionTable :=
  let rest := obj_delete "defaultNextStep" (dt_extra t) in
  let extra := match obj_get (dt_extra t) "defaultNextStep" with
               | Some v =>
                   if (truthy_json v && negb match v with JStr s => String.eqb s removedId | _ => false end)%bool
                   then obj_set "defaultNextStep" v rest else rest
               | None => rest
               end in
  mkTable (scrubRule removedId <$> dt_rules t) extra.

(** The callback of [scrubRefs]; [None] is the [undefined] an unknown type gives. *)
Definition scrubStep (removedId : StepId) (step : Step) : option Step :=
  let f := scrub removedId in
  match step with
  | ServiceTaskStep c n j d r b => Some (ServiceTaskStep c (f <$> n) j d r (scrubEvents removedId b))
  | UserTaskStep c n j b => Some (UserTaskStep c (f <$> n) j (scrubEvents removedId b))
  | WaitStep c n b => Some (WaitStep c (f n) (scrubEvents removedId b))
  | TransformationStep c n t => Some (TransformationStep c (f n) t)
  | JoinGatewayStep c n => Some (JoinGatewayStep c (f n))
  | DecisionStep c m =>
      Some (DecisionStep c (obj_from_entries (List.filter (λ p, negb (String.eqb p.2 removedId)) m)))
  | DecisionTableStep c h n t => Some (DecisionTableStep c h (f n) (scrubTable removedId t))
  | ParallelGatewayStep c p j =>
      Some (ParallelGatewayStep c (List.filter (λ t, negb (String.eqb t removedId)) p) (f j))
  | EndStep c => Some (EndStep c)
  | UnknownTypeStep _ _ => None
  end.

Definition scrubRefs (def : WorkflowDefinition) (removedId : StepId) : option WorkflowDefinition :=
  match mapM (scrubStep removedId) (wd_steps def) with
  | Some steps => Some (with_steps steps def)
  | None => None
  end.

(** ** Actions *)

Definition addStep (template : NewStepTemplate) (st : WorkflowState) : option (WorkflowState * StepId) :=
  match newStep template (ws_definition st) with
  | Some step =>
      Some (edit (with_steps (wd_steps (ws_definition st) ++ [step]) (ws_definition st)) st, step_id step)
  | None => None
  end.

Definition deleteStep (id : StepId) (replacement : option StepId) (st : WorkflowState) : Result WorkflowState :=
  let steps := List.filter (λ s, negb (String.eqb (step_id s) id)) (wd_steps (ws_definition st)) in
  let def := with_steps steps (ws_definition st) in
  let def := match replacement with
             | Some r => if truthy_str r then renameStepId def r r else Renamed def
             | None => Renamed def
             end in
  match def with
  | Renamed def =>
      match scrubRefs def id with
      | Some def => Ok (edit def st)
      | None => IllTyped
      end
  | RenameThrows m => Throws m
  | RenameHoles _ => IllTyped
  end.

Definition renameStep (oldId newId : StepId) (st : WorkflowState) : Result WorkflowState :=
  match renameStepId (ws_definition st) oldId newId with
  | Renamed def => Ok (edit def st)
  | RenameThrows m => Throws m
  | RenameHoles _ => IllTyped
  end.

(** [{ ...o, [key]: value }]; an [undefined] value leaves no member behind in
    what the program reads of the object. *)
Definition put (key : string) (value : option json) (o : obj json) : obj json :=
  match value with Some v => obj_set key v o | None => obj_delete key o end.

Definition updateStep (key : string) (value : option json) (s : Step) : option Step :=
  zStepObj false (put key value (step_obj s)).

Definition updateStepProperty (id : StepId) (key : string) (value : option json) (st : WorkflowState) :
    Result WorkflowState :=
  match mapM (λ s, if String.eqb (step_id s) id then updateStep key value s else Some s)
          (wd_steps (ws_definition st)) with
  | Some steps => Ok (edit (with_steps steps (ws_definition st)) st)
  | None => IllTyped
  end.

(** [Partial<WorkflowDefinition>]: the members the patch has. *)
Record DefPatch := mkPatch {
  dp_id : option string;
  dp_version : option (option jsnum);
  dp_name : option string;
  dp_description : option (option string);
  dp_autoStartNextWorkflow : option (option bool);
  dp_nextWorkflowId : option (option string);
  dp_steps : option (list Step);
  dp_metadata : option (option (obj json));
  dp_extra : obj json
}.

(** [{ ...definition, ...patch }] *)
Definition patched (p : DefPatch) (d : WorkflowDefinition) : WorkflowDefinition :=
  mkDef (default (wd_id d) (dp_id p)) (default (wd_version d) (dp_version p))
    (default (wd_name d) (dp_name p)) (default (wd_description d) (dp_description p))
    (default (wd_autoStartNextWorkflow d) (dp_autoStartNextWorkflow p))
    (default (wd_nextWorkflowId d) (dp_nextWorkflowId p)) (default (wd_steps d) (dp_steps p))
    (default (wd_metadata d) (dp_metadata p)) (obj_spread (wd_extra d) (dp_extra p)).

Definition setDefinitionMeta (patch : DefPatch) (st : WorkflowState) : WorkflowState :=
  edit (patched patch (ws_definition st)) st.

Definition newWorkflow (st : WorkflowState) : WorkflowState :=
  replace_workflow emptyDefinition [] [] [] SrcNew st.

Definition setLayout (id : StepId) (pos : Pos) (st : WorkflowState) : WorkflowState :=
  mkState (ws_definition st) (obj_set id pos (ws_layout st)) (ws_edgeHandles st) (ws_selection st)
    (ws_validation st) (ws_dirty st) (ws_importWarnings st) (ws_engine st) (ws_source st).

Definition setEdgeHandle (edgeId : string) (handles : json) (st : WorkflowState) : WorkflowState :=
  mkState (ws_definition st) (ws_layout st) (obj_set edgeId handles (ws_edgeHandles st)) (ws_selection st)
    (ws_validation st) (ws_dirty st) (ws_importWarnings st) (ws_engine st) (ws_source st).

Definition select (sel : Selection) (st : WorkflowState) : WorkflowState :=
  mkState (ws_definition st) (ws_layout st) (ws_edgeHandles st) sel
    (ws_validation st) (ws_dirty st) (ws_importWarnings st) (ws_engine st) (ws_source st).

Definition with_validation (v : Validation) (st : WorkflowState) : WorkflowState :=
  mkState (ws_definition st) (ws_layout st) (ws_edgeHandles st) (ws_selection st)
    v (ws_dirty st) (ws_importWarnings st) (ws_engine st) (ws_source st).

Definition runValidation (peg_message : string → string) (now : Z) (st : WorkflowState) : WorkflowState :=
  with_validation (mkValidation (Some now) (validate peg_message (ws_definition st))) st.

(** [{ ...engine, ...patch }] with the members the patch sets. *)
Definition setEngineConnection (baseUrl authHeader : option string) (status : option EngineStatus)
    (lastCheckedAt : option Z) (st : WorkflowState) : WorkflowState :=
  let e := ws_engine st in
  with_engine (mkEngine (default (ec_baseUrl e) baseUrl) (default (ec_authHeader e) authHeader)
    (default (ec_status e) status)
    (match lastCheckedAt with Some t => Some t | None => ec_lastCheckedAt e end)) st.

Section text.
Context `{JsonText}.

Definition importFromJson (text : string) (name : option string) (st : WorkflowState) :
    WorkflowState * ImportResult :=
  match importJson text with
  | ImportErr errors => (st, ImportErr errors)
  | ImportOk def warnings =>
      let '(layout, handles) := extractEmbeddedModeller def in
      (replace_workflow def layout handles warnings (SrcFile name) st, ImportOk def warnings)
  end.

Definition applyDefinitionFromJson (text : string) (st : WorkflowState) : WorkflowState * ImportResult :=
  match importJson text with
  | ImportErr errors => (st, ImportErr errors)
  | ImportOk def warnings =>
      let newIds : gset StepId := list_to_set (step_ids def) in
      let preserved := obj_from_entries (List.filter (λ p, bool_decide (p.1 ∈ newIds)) (ws_layout st)) in
      (mkState def preserved (ws_edgeHandles st) SelNone (mkValidation None []) true warnings
         (ws_engine st) (ws_source st), ImportOk def warnings)
  end.

Definition exportToJson (includeLayout : bool) (st : WorkflowState) : string :=
  exportJson (ws_definition st) includeLayout (ws_layout st) (ws_edgeHandles st).
End text.

(** ** Selectors *)

Record ValidationSummary := mkSummary {
  vs_errors : nat;
  vs_warnings : nat;
  vs_diagnostics : list Diagnostic;
  vs_lastRunAt : option Z
}.

Definition count_severity (s : Severity) (ds : list Diagnostic) : nat :=
  length (List.filter (λ d, bool_decide (d_severity d = s)) ds).

Definition useValidationSummary (st : WorkflowState) : ValidationSummary :=
  let ds := v_diagnostics (ws_validation st) in
  mkSummary (count_severity SevError ds) (count_severity SevWarning ds) ds (v_lastRunAt (ws_validation st)).

Record NodeDiagnosticSummary := mkNodeSummary {
  nd_errors : nat;
  nd_warnings : nat;
  nd_diagnostics : list Diagnostic
}.

Definition useDiagnosticsForNode (nodeId : StepId) (st : WorkflowState) : NodeDiagnosticSummary :=
  let ds := List.filter (λ d, bool_decide (d_nodeId d = Some nodeId)) (v_diagnostics (ws_validation st)) in
  mkNodeSummary (count_severity SevError ds) (count_severity SevWarning ds) ds.
