(* ===== verification/StoreProps.v ===== *)
(** * Properties of the store's actions *)

From S2P Require Import Prelude JsObject Types Graph Rename Validate Schema ImportExport Store.

(** ** Fresh ids *)

Lemma suffixed_inj p i j : suffixed p i = suffixed p j → i = j.
Proof. unfold suffixed. intros H%append_inj_r%append_inj_r. by apply str_of_nat_inj. Qed.

Lemma find_suffix_None existing p fuel i :
  find_suffix existing p fuel i = None → ∀ k, k < fuel → suffixed p (i + k) ∈ existing.
Proof.
  revert i. induction fuel as [|fuel IH]; intros i; simpl; [lia|]. case_bool_decide as Hi; [|done].
  intros H [|k] Hk; [by rewrite Nat.add_0_r|]. rewrite Nat.add_succ_r, <- Nat.add_succ_l. apply IH; [done|lia].
Qed.

Lemma find_suffix_Some existing p fuel i id : find_suffix existing p fuel i = Some id → id ∉ existing.
Proof.
  revert i. induction fuel as [|fuel IH]; intros i; simpl; [done|]. case_bool_decide as Hi; [apply IH|].
  by intros [= <-].
Qed.

(** Among [size + 1] suffixes one is free. *)
Lemma find_suffix_total (existing : gset StepId) p fuel i :
  size existing < fuel → is_Some (find_suffix existing p fuel i).
Proof.
  intros Hf. destruct (find_suffix existing p fuel i) eqn:E; [eauto|]. exfalso.
  pose proof (find_suffix_None _ _ _ _ E) as Hall.
  assert (NoDup (suffixed p <$> seq i fuel)) as Hnd
    by (apply (NoDup_fmap_2_strong _ _); [intros ? ? _ _; apply suffixed_inj|apply NoDup_seq]).
  assert (list_to_set (suffixed p <$> seq i fuel) ⊆ existing) as Hsub.
  { intros x (k & -> & Hk)%elem_of_list_to_set%list_elem_of_fmap. apply elem_of_seq in Hk.
    replace k with (i + (k - i)) by lia. apply Hall. lia. }
  apply subseteq_size in Hsub. rewrite size_list_to_set, length_fmap, length_seq in Hsub by done. lia.
Qed.

Lemma size_list_le (l : list StepId) : size (list_to_set l : gset StepId) ≤ length l.
Proof.
  induction l as [|x l IH]; [done|]. rewrite list_to_set_cons, size_union_alt, size_singleton. simpl.
  pose proof (subseteq_size (list_to_set l ∖ {[x]} : gset StepId) (list_to_set l)). set_solver by lia.
Qed.

Lemma uniqueStepId_spec def p : ∃ id, uniqueStepId def p = Some id ∧ id ∉ step_ids def.
Proof.
  unfold uniqueStepId. case_bool_decide as Hp; simpl.
  - destruct (find_suffix_total (list_to_set (step_ids def)) p (S (length (wd_steps def))) 2) as [id Hid].
    { pose proof (size_list_le (step_ids def)). unfold step_ids in *. rewrite length_fmap in *. lia. }
    exists id. split; [done|]. apply find_suffix_Some in Hid. by rewrite elem_of_list_to_set in Hid.
  - exists p. by rewrite elem_of_list_to_set in Hp.
Qed.

Lemma newStepOf_id t id name : step_id (newStepOf t id name) = id.
Proof. by destruct t. Qed.

Lemma newStepOf_type t id name : step_type (newStepOf t id name) = step_type_str t.
Proof. by destruct t. Qed.

(** ** Deletion *)

Lemma scrub_ne removed x : removed ≠ EmptyString → scrub removed x ≠ removed.
Proof. unfold scrub. destruct (String.eqb_spec x removed); congruence. Qed.

Lemma scrub_cases removed x : scrub removed x = x ∨ scrub removed x = EmptyString.
Proof. unfold scrub. destruct (String.eqb _ _); auto. Qed.

Lemma filter_elem {A} (f : A → bool) (l : list A) x : x ∈ List.filter f l ↔ x ∈ l ∧ f x = true.
Proof. rewrite !list_elem_of_In. apply filter_In. Qed.

Lemma scrubEvents_refs removed b r :
  r ∈ boundary_refs (scrubEvents removed b) → r ∈ boundary_refs b ∧ r ≠ removed.
Proof.
  destruct b as [evs|]; [|set_solver]. unfold boundary_refs. simpl.
  intros (e & -> & [He Hn]%filter_elem)%list_elem_of_fmap. split; [by apply list_elem_of_fmap_2|].
  by apply negb_true_iff, String.eqb_neq in Hn.
Qed.

Lemma scrub_branches removed c m :
  step_wf (DecisionStep c m) = true →
  obj_from_entries (List.filter (λ p : string * StepId, negb (String.eqb p.2 removed)) m) =
    List.filter (λ p, negb (String.eqb p.2 removed)) m ∧
  step_wf (DecisionStep c (List.filter (λ p, negb (String.eqb p.2 removed)) m)) = true.
Proof.
  simpl. intros [Hw Hp]%andb_true_iff. pose proof (obj_wf_filter (λ p : string * StepId, negb (String.eqb p.2 removed)) m Hw) as Hf.
  split; [by apply obj_from_entries_wf|]. rewrite Hf. simpl. rewrite negb_true_iff, obj_has_false in *.
  intros (q & Hq & [Hin _]%filter_elem)%list_elem_of_fmap. apply Hp. rewrite Hq. by apply list_elem_of_fmap_2.
Qed.

(** Every place of a step where the id of another one stands, with what stands
    around the id: the expression of a branch, the rest of a boundary event,
    the number of a rule.  [then] and [defaultNextStep] are those of the older
    table format. *)
Inductive Place :=
| PNext
| PJoin
| PBranch (expression : string)
| PParallel
| PEvent (type duration : string) (interrupting : bool) (extra : obj json)
| PThen (index : nat)
| PDefault.

Definition event_place (e : BoundaryEvent) : Place * StepId :=
  (PEvent (be_type e) (be_duration e) (be_interrupting e) (be_extra e), be_targetStepId e).

Definition event_places (b : option (list BoundaryEvent)) : list (Place * StepId) := event_place <$> events_of b.

Definition rule_place (i : nat) (r : DecisionTableRule) : list (Place * StepId) :=
  match obj_get (r_extra r) "then" with Some (JStr t) => [(PThen i, t)] | _ => [] end.

Definition table_places (t : DecisionTable) : list (Place * StepId) :=
  concat (imap rule_place (dt_rules t)) ++
  match obj_get (dt_extra t) "defaultNextStep" with Some (JStr s) => [(PDefault, s)] | _ => [] end.

Definition step_places (s : Step) : list (Place * StepId) :=
  match s with
  | ServiceTaskStep _ n _ _ _ b | UserTaskStep _ n _ b => (pair PNext <$> option_list n) ++ event_places b
  | WaitStep _ n b => (PNext, n) :: event_places b
  | DecisionStep _ m => (λ p, (PBranch p.1, p.2)) <$> m
  | DecisionTableStep _ _ n t => (PNext, n) :: table_places t
  | TransformationStep _ n _ | JoinGatewayStep _ n => [(PNext, n)]
  | ParallelGatewayStep _ p j => (pair PParallel <$> p) ++ [(PJoin, j)]
  | EndStep _ | UnknownTypeStep _ _ => []
  end.

(** A step without those ids. *)
Definition bare_rule (r : DecisionTableRule) : DecisionTableRule :=
  mkRule (r_when r) (r_outputs r) (obj_delete "then" (r_extra r)).

Definition bare_table (t : DecisionTable) : DecisionTable :=
  mkTable (bare_rule <$> dt_rules t) (obj_delete "defaultNextStep" (dt_extra t)).

Definition step_rest (s : Step) : Step :=
  let none := (λ _ : StepId, EmptyString) in
  let no_events := (λ _ : list BoundaryEvent, []) in
  match s with
  | ServiceTaskStep c n j d r b => ServiceTaskStep c (none <$> n) j d r (no_events <$> b)
  | UserTaskStep c n j b => UserTaskStep c (none <$> n) j (no_events <$> b)
  | WaitStep c n b => WaitStep c EmptyString (no_events <$> b)
  | DecisionStep c _ => DecisionStep c []
  | DecisionTableStep c h _ t => DecisionTableStep c h EmptyString (bare_table t)
  | TransformationStep c _ t => TransformationStep c EmptyString t
  | ParallelGatewayStep c _ _ => ParallelGatewayStep c [] EmptyString
  | JoinGatewayStep c _ => JoinGatewayStep c EmptyString
  | EndStep c => EndStep c
  | UnknownTypeStep t c => UnknownTypeStep t c
  end.

(** What deleting a step does to a place: another id stays, the deleted one is
    cleared where an id must stand and the entry goes where it is one of many;
    an empty default goes too. *)
Definition scrub_place (removed : StepId) (p : Place * StepId) : option (Place * StepId) :=
  match p.1 with
  | PNext | PJoin | PThen _ => Some (p.1, if String.eqb p.2 removed then EmptyString else p.2)
  | PBranch _ | PParallel | PEvent _ _ _ _ => if String.eqb p.2 removed then None else Some p
  | PDefault => if (String.eqb p.2 removed || String.eqb p.2 EmptyString)%bool then None else Some p
  end.

Lemma omap_fmap_filter {A B} (f : A → B) (g : B → option B) (keep : A → bool) (l : list A) :
  (∀ x, g (f x) = if keep x then Some (f x) else None) → omap g (f <$> l) = f <$> List.filter keep l.
Proof. intros H. induction l as [|x l IH]; csimpl; [done|]. rewrite H. destruct (keep x); csimpl; by rewrite IH. Qed.

Lemma event_places_scrubbed removed b :
  event_places (scrubEvents removed b) = omap (scrub_place removed) (event_places b).
Proof.
  destruct b as [evs|]; [|done]. unfold event_places. simpl. symmetry. apply omap_fmap_filter. intros e.
  unfold scrub_place. simpl. by destruct (String.eqb _ _).
Qed.

Lemma obj_delete_set {V} k (v : V) o : obj_delete k (obj_set k v o) = obj_delete k o.
Proof.
  unfold obj_delete, obj_set. destruct (obj_has o k).
  - induction o as [|[k' v'] o IH]; simpl; [done|]. destruct (String.eqb_spec k k') as [->|Hne]; simpl.
    + by rewrite String.eqb_refl.
    + destruct (String.eqb_spec k k'); [done|]. simpl. by rewrite IH.
  - induction o as [|[k' v'] o IH]; simpl; [by rewrite String.eqb_refl|].
    destruct (key_before k k'); simpl; [by rewrite String.eqb_refl|]. by rewrite IH.
Qed.

Lemma obj_delete_twice {V} k (o : obj V) : obj_delete k (obj_delete k o) = obj_delete k o.
Proof.
  unfold obj_delete. induction o as [|[k' v'] o IH]; simpl; [done|].
  destruct (String.eqb k k') eqn:E; simpl; [done|]. by rewrite E, IH.
Qed.

Lemma scrubRule_spec removed i r :
  bare_rule (scrubRule removed r) = bare_rule r ∧
  rule_place i (scrubRule removed r) = omap (scrub_place removed) (rule_place i r).
Proof.
  unfold scrubRule, rule_place. destruct (obj_get (r_extra r) "then") as [[| | |t| |]|] eqn:E; try (by rewrite E).
  simpl. unfold scrub_place. simpl. destruct (String.eqb t removed); [|by rewrite E].
  unfold bare_rule. cbn [r_when r_outputs r_extra]. by rewrite obj_delete_set, obj_get_set_eq.
Qed.

Lemma scrubRules_spec removed l i :
  bare_rule <$> (scrubRule removed <$> l) = bare_rule <$> l ∧
  concat (imap (λ k, rule_place (i + k)) (scrubRule removed <$> l)) =
  omap (scrub_place removed) (concat (imap (λ k, rule_place (i + k)) l)).
Proof.
  revert i. induction l as [|r l IH]; intros i; [done|]. destruct (scrubRule_spec removed (i + 0) r) as [H1 H2].
  destruct (IH (S i)) as [H3 H4]. csimpl. split; [by rewrite H1, H3|].
  assert (∀ l', imap ((λ k, rule_place (i + k)) ∘ S) l' = imap (λ k, rule_place (S i + k)) l') as Hi.
  { intros l'. apply imap_ext. intros k x _. unfold compose. by rewrite Nat.add_succ_r. }
  rewrite !Hi, H2, H4, omap_app. done.
Qed.

Lemma scrubTable_spec removed t :
  bare_table (scrubTable removed t) = bare_table t ∧
  table_places (scrubTable removed t) = omap (scrub_place removed) (table_places t).
Proof.
  destruct (scrubRules_spec removed (dt_rules t) 0) as [H1 H2].
  unfold bare_table, table_places, scrubTable. cbn [dt_rules dt_extra]. rewrite H1, omap_app.
  change (concat (imap rule_place (scrubRule removed <$> dt_rules t)) = omap (scrub_place removed) (concat (imap rule_place (dt_rules t)))) in H2.
  rewrite H2.
  assert (∀ v, obj_get (obj_set "defaultNextStep" v (obj_delete "defaultNextStep" (dt_extra t))) "defaultNextStep" = Some v) as Hs
    by (intros v; apply obj_get_set_eq).
  assert (obj_get (obj_delete "defaultNextStep" (dt_extra t)) "defaultNextStep" = None) as Hd
    by (rewrite obj_get_delete; done).
  destruct (obj_get (dt_extra t) "defaultNextStep") as [v|] eqn:E; [|by rewrite obj_delete_twice, Hd].
  destruct (truthy_json v && _)%bool eqn:Ev.
  - rewrite obj_delete_set, obj_delete_twice, Hs. split; [done|]. f_equal. destruct v; try done.
    simpl in Ev. apply andb_true_iff in Ev as [Ht%truthy_str_true Hn%negb_true_iff]. simpl. unfold scrub_place. simpl.
    rewrite Hn. by destruct (String.eqb_spec s EmptyString).
  - rewrite obj_delete_twice, Hd. split; [done|]. f_equal. destruct v; try done. simpl in Ev. simpl. unfold scrub_place. simpl.
    apply andb_false_iff in Ev as [->%truthy_str_false|Hn%negb_false_iff]; [by rewrite orb_true_r|by rewrite Hn].
Qed.

(** What scrubbing one step does: every place is scrubbed, nothing else changes. *)
Definition scrubbed (removed : StepId) (s s' : Step) : Prop :=
  step_rest s' = step_rest s ∧ step_places s' = omap (scrub_place removed) (step_places s) ∧ step_wf s' = true.

Lemma scrubStep_spec removed s s' :
  step_wf s = true → scrubStep removed s = Some s' → scrubbed removed s s'.
Proof.
  intros Hwf. assert (∀ n, pair PNext <$> option_list (scrub removed <$> n) =
    omap (scrub_place removed) (pair PNext <$> option_list n)) as Hn by (by intros [n|]).
  assert (∀ b, (λ _ : list BoundaryEvent, @nil BoundaryEvent) <$> scrubEvents removed b = (λ _, []) <$> b) as Hb by (by intros [b|]).
  destruct s as [c n j d rc b|c n j b|c m|c h n t|c n t|c n b|c p j|c n|c|t c]; cbn [scrubStep];
    intros [= <-]; unfold scrubbed; cbn [step_rest step_places];
    rewrite ?Hn, ?Hb, ?event_places_scrubbed, ?omap_app; try (split_and!; [| |done]); try done.
  - by destruct n.
  - by destruct n.
  - destruct (scrub_branches removed c m Hwf) as [-> Hw]. split_and!; [done| |done]. symmetry. apply omap_fmap_filter.
    intros q. unfold scrub_place. simpl. by destruct (String.eqb _ _).
  - by destruct (scrubTable_spec removed t) as [-> _].
  - csimpl. by destruct (scrubTable_spec removed t) as [_ ->].
  - f_equal. symmetry. apply omap_fmap_filter. intros q. unfold scrub_place. simpl. by destruct (String.eqb _ _).
Qed.

(** The rest of a step has its members and its type. *)
Lemma step_rest_common s s' : step_rest s' = step_rest s → step_common s' = step_common s ∧ step_type s' = step_type s.
Proof. destruct s, s'; simpl; naive_solver. Qed.

Lemma scrubbed_common removed s s' :
  scrubbed removed s s' → step_common s' = step_common s ∧ step_type s' = step_type s ∧ step_wf s' = true.
Proof. intros (Hr & _ & Hw). by destruct (step_rest_common _ _ Hr). Qed.

(** The references are among the places. *)
Lemma step_refs_place s r : r ∈ step_refs s → ∃ p, (p, r) ∈ step_places s ∧ p ≠ PDefault ∧ ∀ i, p ≠ PThen i.
Proof.
  assert (∀ b, r ∈ boundary_refs b → ∃ p, (p, r) ∈ event_places b ∧ p ≠ PDefault ∧ ∀ i, p ≠ PThen i) as Hb.
  { intros b (e & -> & He)%list_elem_of_fmap. exists (event_place e).1. split; [|done].
    change (event_place e ∈ event_places b). by apply list_elem_of_fmap_2. }
  destruct s as [c n j d rc b|c n j b|c m|c h n t|c n t|c n b|c p j|c n|c|t c]; cbn [step_refs step_places].
  1,2: intros [Hn|(p & Hp & ?)%Hb]%elem_of_app; [exists PNext|exists p]; (split; [|done]); apply elem_of_app; [left|by right];
    destruct n as [n|]; simpl in *; set_solver.
  - intros (q & -> & Hq)%list_elem_of_fmap. exists (PBranch q.1). split; [|done].
    apply list_elem_of_fmap. by exists q.
  - intros ->%list_elem_of_singleton. exists PNext. set_solver.
  - intros ->%list_elem_of_singleton. exists PNext. set_solver.
  - intros [->|(p & Hp & ?)%Hb]%elem_of_cons; [exists PNext|exists p]; set_solver.
  - intros [Hp| ->%list_elem_of_singleton]%elem_of_app; [exists PParallel|exists PJoin]; (split; [|done]); apply elem_of_app;
      [left; by apply list_elem_of_fmap_2|set_solver].
  - intros ->%list_elem_of_singleton. exists PNext. set_solver.
  - set_solver.
  - set_solver.
Qed.

Lemma scrubbed_no_ref removed s s' : removed ≠ EmptyString → scrubbed removed s s' → removed ∉ step_refs s'.
Proof.
  intros Hne (_ & Hp & _) (p & Hin & Hd & Ht)%step_refs_place. rewrite Hp in Hin.
  apply list_elem_of_omap in Hin as ([q r] & _ & Hs). unfold scrub_place in Hs. simpl in Hs.
  destruct q; destruct (String.eqb_spec r removed); simpl in Hs; try case_match; naive_solver.
Qed.

Lemma scrubStep_known removed s : known_type s = true → step_wf s = true → is_Some (scrubStep removed s).
Proof.
  intros Hk Hwf. pose proof (proj1 (known_type_wf s Hwf) Hk). destruct s; simpl; eauto; naive_solver.
Qed.

Lemma mapM_total {A B} (f : A → option B) (l : list A) :
  (∀ x, x ∈ l → is_Some (f x)) → is_Some (mapM f l).
Proof. intros H. apply mapM_is_Some, Forall_forall. done. Qed.

Lemma scrub_steps removed l l' :
  Forall (λ s, step_wf s = true) l → mapM (scrubStep removed) l = Some l' → Forall2 (scrubbed removed) l l'.
Proof.
  intros Hl H%mapM_Some. induction H as [|s s' l l' Hs _ IH]; constructor; inversion_clear Hl.
  - by apply scrubStep_spec.
  - by apply IH.
Qed.

Lemma scrubbed_ids removed l l' : Forall2 (scrubbed removed) l l' → step_id <$> l' = step_id <$> l.
Proof.
  induction 1 as [|s s' l l' (Hc & _)%scrubbed_common _ IH]; csimpl; [done|]. unfold step_id at 1 3. by rewrite Hc, IH.
Qed.

Lemma scrubbed_refs removed l l' :
  removed ≠ EmptyString → Forall2 (scrubbed removed) l l' → removed ∉ (l' ≫= step_refs).
Proof.
  intros Hne. induction 1 as [|s s' l l' Hs _ IH]; csimpl; [set_solver|]. rewrite elem_of_app.
  pose proof (scrubbed_no_ref _ _ _ Hne Hs). tauto.
Qed.

Lemma filter_fmap_ids (f : StepId → bool) (l : list Step) :
  step_id <$> List.filter (λ s, f (step_id s)) l = List.filter f (step_id <$> l).
Proof. induction l as [|s l IH]; csimpl; [done|]. destruct (f (step_id s)); csimpl; by rewrite IH. Qed.

(** The steps that are left. *)
Definition remaining (id : StepId) (d : WorkflowDefinition) : list Step :=
  List.filter (λ s, negb (String.eqb (step_id s) id)) (wd_steps d).

Lemma deleteStep_eq id r st :
  deleteStep id r st =
  match scrubRefs (with_steps (remaining id (ws_definition st)) (ws_definition st)) id with
  | Some def => Ok (edit def st)
  | None => IllTyped
  end.
Proof.
  unfold deleteStep, renameStepId. fold (remaining id (ws_definition st)). destruct r as [r|]; [|done].
  destruct (truthy_str r); [|done]. by rewrite String.eqb_refl.
Qed.

Lemma addStep_spec template st :
  ∃ st' s, addStep template st = Some (st', step_id s) ∧
    step_id s ∉ step_ids (ws_definition st) ∧ step_type s = step_type_str (nt_type template) ∧
    st' = edit (with_steps (wd_steps (ws_definition st) ++ [s]) (ws_definition st)) st.
Proof.
  unfold addStep, newStep.
  destruct (uniqueStepId_spec (ws_definition st) (default (defaultStepId (nt_type template)) (nt_id template)))
    as (id & -> & Hid).
  do 2 eexists. split_and!; [done| | |done]; [by rewrite newStepOf_id|apply newStepOf_type].
Qed.

(** ** Properties *)

(** Adding a step always succeeds: the search for a free id terminates,
    the id is new, the step is appended with the requested type, nothing else
    changes, and the workflow is dirty. *)
Theorem addStep_fresh template st :
  ∃ st' s, addStep template st = Some (st', step_id s) ∧
    step_id s ∉ step_ids (ws_definition st) ∧ step_type s = step_type_str (nt_type template) ∧
    st' = edit (with_steps (wd_steps (ws_definition st) ++ [s]) (ws_definition st)) st.
Proof. apply addStep_spec. Qed.

(** C21: deleting a step of a workflow whose steps have known types removes
    every step with its id and changes nothing but the steps and the unsaved
    flag.  The other steps stay in order, each with everything it had; of the
    ids in it (next, branch, parallel, join and boundary targets, and the
    targets of the older table format) the deleted one is cleared or its entry
    dropped, and every other one stays in its place.  No reference to the
    deleted step is left. *)
Theorem deleteStep_removes_everywhere id r st :
  def_wf (ws_definition st) = true → forallb known_type (wd_steps (ws_definition st)) = true →
  ∃ steps', deleteStep id r st = Ok (edit (with_steps steps' (ws_definition st)) st) ∧
    Forall2 (λ s s', step_rest s' = step_rest s ∧ step_places s' = omap (scrub_place id) (step_places s))
      (List.filter (λ s, negb (String.eqb (step_id s) id)) (wd_steps (ws_definition st))) steps' ∧
    id ∉ (step_id <$> steps') ∧ (id ≠ EmptyString → id ∉ (steps' ≫= step_refs)).
Proof.
  intros Hwf%def_wf_Forall Hk. rewrite deleteStep_eq. unfold scrubRefs. simpl.
  assert (Forall (λ s, step_wf s = true) (remaining id (ws_definition st))) as Hwf'.
  { apply Forall_forall. intros s [Hs _]%filter_elem. rewrite Forall_forall in Hwf. by apply Hwf. }
  destruct (mapM_total (scrubStep id) (remaining id (ws_definition st))) as [l' Hl'].
  { intros s Hs. pose proof Hs as [Hin _]%filter_elem. rewrite Forall_forall in Hwf'.
    apply scrubStep_known; [|by apply Hwf']. rewrite forallb_forall in Hk. by apply Hk, list_elem_of_In. }
  rewrite Hl'. pose proof (scrub_steps id _ _ Hwf' Hl') as HF. exists l'. split_and!; [done| | |].
  - eapply Forall2_impl; [exact HF|]. by intros s s' (? & ? & _).
  - rewrite (scrubbed_ids _ _ _ HF). intros (s & Hs & [_ Hn]%filter_elem)%list_elem_of_fmap.
    by rewrite <- Hs, String.eqb_refl in Hn.
  - intros Hne. by apply (scrubbed_refs id (remaining id (ws_definition st))).
Qed.

Lemma deleteStep_removes_everywhere_witness :
  ∃ steps', deleteStep "merge" None (edit order_def initialState) =
      Ok (edit (with_steps steps' order_def) (edit order_def initialState)) ∧
    length steps' = length (wd_steps order_def) - 1 ∧ "merge" ∉ (steps' ≫= step_refs).
Proof.
  destruct (deleteStep_removes_everywhere "merge" None (edit order_def initialState)
    ltac:(vm_compute; reflexivity) ltac:(vm_compute; reflexivity)) as (steps' & H & Hf & _ & H').
  exists steps'. split; [exact H|]. split; [|apply H'; discriminate].
  apply Forall2_length in Hf. rewrite <- Hf. vm_compute. reflexivity.
Defined.
