(* ===== verification/StoreInv.v ===== *)
(** * Invariants of the store

    The actions that take effect at once, the invariant each of them keeps, and
    what the dirty flag means.  Drafts, the engine, undo and redo come on top
    in [History.v], where the invariant of all of them is proved. *)

From S2P Require Import Prelude JsObject Types Graph Rename Validate Schema ImportExport Store StoreProps.

(** ** The actions *)

Inductive Action :=
| AAdd (template : NewStepTemplate)
| ADelete (id : StepId) (replacement : option StepId)
| ARename (oldId newId : StepId)
| AUpdate (id : StepId) (key : string) (value : option json)
| AMeta (patch : DefPatch)
| ANew
| ALayout (id : StepId) (pos : Pos)
| AHandle (edgeId : string) (handles : json)
| ASelect (sel : Selection)
| AValidate (now : Z)
| AEngine (baseUrl authHeader : option string) (status : option EngineStatus) (at_ : option Z)
| AImport (text : string) (name : option string)
| AApply (text : string)
| AReset.

Section actions.
Context `{JsonText} (peg_message : string → string).

Definition perform (a : Action) (st : WorkflowState) : Result WorkflowState :=
  match a with
  | AAdd t => match addStep t st with Some (st', _) => Ok st' | None => Throws "unreachable" end
  | ADelete id r => deleteStep id r st
  | ARename o n => renameStep o n st
  | AUpdate id k v => updateStepProperty id k v st
  | AMeta p => Ok (setDefinitionMeta p st)
  | ANew => Ok (newWorkflow st)
  | ALayout id p => Ok (setLayout id p st)
  | AHandle e h => Ok (setEdgeHandle e h st)
  | ASelect s => Ok (select s st)
  | AValidate now => Ok (runValidation peg_message now st)
  | AEngine b h s t => Ok (setEngineConnection b h s t st)
  | AImport text n => Ok (importFromJson text n st).1
  | AApply text => Ok (applyDefinitionFromJson text st).1
  | AReset => Ok initialState
  end.

(** The values the editor passes: a property update is not to the
    discriminator and its value is JSON; a patch does not replace the steps. *)
Definition admissible (a : Action) : bool :=
  match a with
  | AUpdate _ key value =>
      negb (String.eqb key "type") && match value with Some v => json_wf v | None => true end
  | AMeta p => match dp_steps p with Some _ => false | None => true end
  | _ => true
  end.
End actions.

(** ** The invariant *)

Definition steps_ok (l : list Step) : Prop := Forall (λ s, step_wf s = true ∧ known_type s = true) l.

Definition store_ok (st : WorkflowState) : Prop := steps_ok (wd_steps (ws_definition st)).

Lemma newStepOf_ok t id name : step_wf (newStepOf t id name) = true ∧ known_type (newStepOf t id name) = true.
Proof. by destruct t. Qed.

Lemma scrubbed_ok removed l l' : Forall2 (scrubbed removed) l l' → steps_ok l → steps_ok l'.
Proof.
  induction 1 as [|s s' l l' (_ & Ht & Hw)%scrubbed_common _ IH]; intros Hl; [constructor|]. inversion_clear Hl as [|? ? [_ Hk] Hr].
  constructor; [|by apply IH]. split; [done|]. unfold known_type in *. by rewrite Ht.
Qed.

Lemma renamed_ok o n l l' : Forall2 (renamed_step o n) l l' → steps_ok l → steps_ok l'.
Proof.
  induction 1 as [|s s' l l' (_ & Ht & _ & _ & Hw) _ IH]; intros Hl; [constructor|].
  inversion_clear Hl as [|? ? [_ Hk] Hr].
  constructor; [|by apply IH]. split; [done|]. unfold known_type in *. by rewrite Ht.
Qed.

Lemma steps_ok_wf d : steps_ok (wd_steps d) → def_wf d = true.
Proof. intros H. apply def_wf_Forall. eapply Forall_impl; [exact H|]. naive_solver. Qed.

(** *** Updating a property *)

Lemma zStepObj_type zod o s : zStepObj zod o = Some s → req z_string o "type" = Some (step_type s).
Proof.
  unfold zStepObj. intros H. apply bind_Some in H as (type & Ht & H). apply bind_Some in H as (c & _ & H).
  rewrite Ht. repeat match type of H with
  | (if String.eqb type ?t then _ else _) = _ => destruct (String.eqb_spec type t) as [->|]
  end; try (destruct zod; [discriminate H|]); inv_binds; done.
Qed.

Lemma zStepObj_wf o s :
  (∀ c m j, s = DecisionStep c m → obj_get o "conditionalNextSteps" = Some j → json_wf j = true) →
  zStepObj false o = Some s → step_wf s = true.
Proof.
  unfold zStepObj. intros Hj H. apply bind_Some in H as (type & Ht & H). apply bind_Some in H as (c & _ & H).
  repeat match type of H with
  | (if String.eqb type ?t then _ else _) = _ => destruct (String.eqb_spec type t) as [->|]
  end; inv_binds; try done.
  - unfold req in H. destruct (obj_get o "conditionalNextSteps") as [j|]; [|done].
    destruct (z_record_spec _ _ _ H) as [Hp Hw]. simpl. rewrite Hw by (by eapply Hj). done.
  - simpl. apply negb_true_iff, includes_false. unfold STEP_TYPES. csimpl. set_solver.
Qed.

Lemma step_obj_type s : req z_string (step_obj s) "type" = Some (step_type s).
Proof. unfold step_obj. apply common_type. Qed.

Lemma put_get key v o k : k ≠ key → obj_get (put key v o) k = obj_get o k.
Proof.
  intros Hk. destruct v; simpl; [by apply obj_get_set_ne|]. rewrite obj_get_delete.
  by destruct (String.eqb_spec k key).
Qed.

Lemma put_get_eq key v o : obj_get (put key v o) key = v.
Proof. destruct v; simpl; [apply obj_get_set_eq|]. rewrite obj_get_delete. by rewrite String.eqb_refl. Qed.

Lemma record_json_wf (m : obj string) : obj_wf m = true → json_wf (record_json JStr m) = true.
Proof.
  intros Hm. simpl. apply andb_true_iff. split.
  - unfold obj_wf, obj_keys in Hm. by rewrite <- list_fmap_compose.
  - apply forallb_forall. intros [k j]. rewrite <- list_elem_of_In. by intros ([? ?] & [= -> ->] & _)%list_elem_of_fmap.
Qed.

Lemma updateStep_ok key v s s' :
  key ≠ "type" → match v with Some j => json_wf j = true | None => True end →
  step_wf s = true → known_type s = true → updateStep key v s = Some s' →
  step_wf s' = true ∧ known_type s' = true ∧ step_type s' = step_type s.
Proof.
  intros Hkey Hv Hwf Hk H. unfold updateStep in H.
  assert (step_type s' = step_type s) as Ht.
  { pose proof (zStepObj_type _ _ _ H) as Ht. unfold req in Ht. rewrite put_get in Ht by done.
    pose proof (step_obj_type s) as Hs. unfold req in Hs. rewrite Hs in Ht. congruence. }
  split; [|split; [unfold known_type in *; by rewrite Ht|done]].
  eapply zStepObj_wf; [|exact H]. intros c' m' j -> Hj.
  destruct (decide (key = "conditionalNextSteps")) as [->|Hne].
  - rewrite put_get_eq in Hj. by subst v.
  - rewrite put_get in Hj by done. destruct s as [| |c m| | | | | | |t c]; try done.
    + unfold step_obj in Hj. rewrite common_skip in Hj by done. simpl in Hj. simplify_eq.
      apply record_json_wf. simpl in Hwf. by bool_hyps.
    + simpl in Ht. by subst t.
Qed.

Lemma update_steps_ok id key v l l' :
  key ≠ "type" → match v with Some j => json_wf j = true | None => True end →
  mapM (λ s, if String.eqb (step_id s) id then updateStep key v s else Some s) l = Some l' →
  steps_ok l → steps_ok l'.
Proof.
  intros Hkey Hv H%mapM_Some. induction H as [|s s' l l' Hs _ IH]; intros Hl; [constructor|].
  inversion_clear Hl as [|? ? [Hw Hk] Hr]. constructor; [|by apply IH].
  destruct (String.eqb (step_id s) id); [|by simplify_eq].
  destruct (updateStep_ok _ _ _ _ Hkey Hv Hw Hk Hs) as (? & ? & _). done.
Qed.

(** *** Every action *)

Section invariant.
Context `{JsonTextLaws} (peg_message : string → string).

Lemma import_ok text d w : importJson text = ImportOk d w → steps_ok (wd_steps d).
Proof.
  unfold importJson. intros Hi. destruct (JSON_parse text) as [j|] eqn:Ej; [|done].
  pose proof (safeParse_schema j) as Hz. destruct (safeParse j); [|done]. simplify_eq.
  destruct (def_schema_decoded _ _ Hz) as [Hs Hw].
  specialize (Hw (parse_wf _ _ Ej)). apply def_wf_Forall in Hw. unfold def_schema in Hs.
  apply andb_true_iff in Hs as [[Hs _]%andb_true_iff _].
  apply Forall_forall. intros s Hin. rewrite Forall_forall in Hw. rewrite forallb_forall in Hs.
  split; [by apply Hw|]. apply step_schema_known, Hs. by apply list_elem_of_In.
Qed.

Lemma delete_ok id r st st' :
  deleteStep id r st = Ok st' → store_ok st → store_ok st'.
Proof.
  rewrite deleteStep_eq. unfold scrubRefs, store_ok. simpl. intros Hd Hok.
  destruct (mapM _ _) as [l'|] eqn:E; [|done]. simplify_eq. simpl.
  assert (steps_ok (remaining id (ws_definition st))) as Hr.
  { apply Forall_forall. intros s [Hs _]%filter_elem. by apply (proj1 (Forall_forall _ _) Hok). }
  eapply scrubbed_ok; [|exact Hr]. apply scrub_steps; [|done].
  eapply Forall_impl; [exact Hr|]. naive_solver.
Qed.

Lemma rename_ok o n st st' : renameStep o n st = Ok st' → store_ok st → store_ok st'.
Proof.
  unfold renameStep, store_ok. intros Hr Hok. destruct (renameStepId (ws_definition st) o n) as [d'| |] eqn:E; try done.
  simplify_eq. simpl. destruct (decide (o = n)) as [->|Hne].
  { unfold renameStepId in E. rewrite String.eqb_refl in E. by simplify_eq. }
  destruct (renamed_steps _ _ _ _ (steps_ok_wf _ Hok) Hne E) as (_ & _ & Hs). by eapply renamed_ok.
Qed.

Lemma perform_ok a st st' :
  admissible a = true → perform peg_message a st = Ok st' → store_ok st → store_ok st'.
Proof.
  destruct a; simpl; intros Ha Hp Hok.
  - destruct (addStep template st) as [[st1 id]|] eqn:E; [|done]. simplify_eq. unfold addStep, newStep in E.
    destruct (uniqueStepId _ _); [|done]. simplify_eq. unfold store_ok. simpl.
    apply Forall_app. split; [done|]. constructor; [apply newStepOf_ok|constructor].
  - by eapply delete_ok.
  - by eapply rename_ok.
  - unfold updateStepProperty in Hp. destruct (mapM _ _) as [l'|] eqn:E; [|done]. simplify_eq. unfold store_ok. simpl.
    bool_hyps. apply (update_steps_ok id key value _ _ ltac:(done) ltac:(by destruct value) E Hok).
  - simplify_eq. unfold store_ok. simpl. by destruct (dp_steps patch).
  - simplify_eq. by constructor.
  - by simplify_eq.
  - by simplify_eq.
  - by simplify_eq.
  - by simplify_eq.
  - by simplify_eq.
  - simplify_eq. unfold importFromJson. destruct (importJson text) as [d w|] eqn:E; [|done].
    destruct (extractEmbeddedModeller d) as [l h]. simpl. by eapply import_ok.
  - simplify_eq. unfold applyDefinitionFromJson. destruct (importJson text) as [d w|] eqn:E; [|done].
    simpl. by eapply import_ok.
  - simplify_eq. by constructor.
Qed.

(** What the invariant is for: a delete cannot meet an [undefined] step, and a
    rename to a free id cannot leave one behind. *)
Lemma store_ok_total st :
  store_ok st →
  (∀ id r, ∃ st', deleteStep id r st = Ok st') ∧
  (∀ o n, n ∉ step_ids (ws_definition st) → ∃ st', renameStep o n st = Ok st').
Proof.
  intros Hok. pose proof (steps_ok_wf _ Hok) as Hwf.
  assert (∀ s, s ∈ wd_steps (ws_definition st) → step_wf s = true ∧ known_type s = true) as Hall
    by (by apply Forall_forall).
  split.
  - intros id r. rewrite deleteStep_eq. unfold scrubRefs. simpl.
    destruct (mapM_total (scrubStep id) (remaining id (ws_definition st))) as [l' ->]; [|eauto].
    intros s [Hs _]%filter_elem. apply scrubStep_known; by apply Hall.
  - intros o n Hn. unfold renameStep.
    destruct (renameStepId_cases (ws_definition st) o n) as [[_ ->]|[(_&?&_)|(_&_&[(l&_&->)|(l&_&E)])]]; eauto; [done|].
    exfalso. apply (rename_no_holes (ws_definition st) o n l); [done| |done].
    apply forallb_forall. intros s Hs. by apply Hall, list_elem_of_In.
Qed.
End invariant.

(** A definition read from an object whose steps are of known types. *)
Lemma decoded_ok o l def :
  json_wf (JObj o) = true → zWorkflowDefinition false (JObj o) = Some def → obj_get o "steps" = Some (JArr l) →
  (∀ so t, JObj so ∈ l → obj_get so "type" = Some (JStr t) → includes STEP_TYPES t = true) →
  steps_ok (wd_steps def).
Proof.
  intros Hw Hz Hl Ht. simpl in Hz. inv_binds. unfold req in *. rewrite Hl in *. simpl in *.
  match goal with H : mapM (zStep false) l = Some _ |- _ => apply mapM_Some in H; rename H into Hm end.
  pose proof (json_wf_get _ _ _ Hw Hl) as Hwl. simpl in Hwl. rewrite forallb_forall in Hwl. clear Hl Hw.
  induction Hm as [|j s l steps Hs _ IH]; [constructor|]. constructor.
  - destruct j as [| | | | |so]; try done. simpl in Hs. pose proof (zStepObj_type _ _ _ Hs) as Hty.
    assert (json_wf (JObj so) = true) as Hso by (apply Hwl; by left). split.
    + eapply zStepObj_wf; [|exact Hs]. intros c m j _ Hj. by eapply json_wf_get.
    + unfold known_type. unfold req in Hty. destruct (obj_get so "type") as [[]|] eqn:E; try done. simpl in Hty. simplify_eq.
      apply (Ht so); [set_solver|done].
  - apply IH; [intros so t Hin; apply Ht; set_solver|]. intros y Hy. apply Hwl. by right.
Qed.

(** A definition that was written as JSON and is read back. *)
Lemma rewritten_ok d def :
  json_wf (def_json d) = true → zWorkflowDefinition false (def_json d) = Some def →
  steps_ok (wd_steps d) → steps_ok (wd_steps def).
Proof.
  intros Hw Hz Hok. apply (decoded_ok _ (step_json <$> wd_steps d) def Hw Hz); [by rewrite def_get|].
  intros so t (s & Hs & Hin)%list_elem_of_fmap Ht. injection Hs as ->. pose proof (step_obj_type s) as Hty. unfold req in Hty.
  rewrite Ht in Hty. simpl in Hty. simplify_eq. by apply (proj1 (Forall_forall _ _) Hok).
Qed.

(** ** The dirty flag *)

(** The actions that install another workflow. *)
Definition is_load (a : Action) : bool :=
  match a with ANew | AImport _ _ | AReset => true | _ => false end.

(** The dirty flag tracks edits: an action that changes the definition
    leaves the workflow dirty unless it installs another workflow, and only
    those actions ever clear the flag. *)
Theorem dirty_tracks_edits `{JsonText} m a st st' :
  perform m a st = Ok st' →
  (ws_definition st' ≠ ws_definition st → ws_dirty st' = true ∨ is_load a = true) ∧
  (ws_dirty st = true → ws_dirty st' = false → is_load a = true).
Proof.
  intros Hp.
  assert (is_load a = true ∨ ws_dirty st' = true ∨
    ws_definition st' = ws_definition st ∧ ws_dirty st' = ws_dirty st) as Hcases.
  { destruct a; simpl in Hp; auto; try (simplify_eq; simpl; tauto).
    - unfold addStep in Hp. destruct (newStep _ _); simplify_eq. simpl. tauto.
    - rewrite deleteStep_eq in Hp. destruct (scrubRefs _ _); simplify_eq. simpl. tauto.
    - unfold renameStep in Hp. destruct (renameStepId _ _ _); simplify_eq. simpl. tauto.
    - unfold updateStepProperty in Hp. destruct (mapM _ _); simplify_eq. simpl. tauto.
    - unfold applyDefinitionFromJson in Hp. destruct (importJson text); simplify_eq; simpl; tauto. }
  destruct Hcases as [?|[Hd|[Hdef Hd]]]; [auto| |]; rewrite Hd; split; intros; auto; congruence.
Qed.

Lemma dirty_tracks_edits_witness :
  let st := initialState in let a := AAdd (mkTemplate WAIT None None) in
  ∃ st', perform (λ s, s) a st = Ok st' ∧ (ws_definition st' ≠ ws_definition st → ws_dirty st' = true ∨ is_load a = true).
Proof.
  eexists. split; [vm_compute; reflexivity|].
  apply (dirty_tracks_edits (λ s, s) (AAdd (mkTemplate WAIT None None)) initialState). vm_compute. reflexivity.
Defined.
