(* ===== verification/Engine.v ===== *)
(** * The engine client and the store's engine actions
    (workflow-modeller/src/engine/client.ts, engine/types.ts, store/workflowStore.ts)

    [fetch] is a parameter: it answers a request with a response or rejects
    with the message of a network error. *)

From S2P Require Import Prelude JsObject Types Peg Duration Schema ImportExport Store.

#[local] Arguments String.append !_ _ / : simpl nomatch.

(** ** URLs *)

Fixpoint str_rev_append (s acc : string) : string :=
  match s with EmptyString => acc | String c s => str_rev_append s (String c acc) end.
Definition str_rev (s : string) : string := str_rev_append s EmptyString.

Fixpoint drop_slashes (s : string) : string :=
  match s with String c s' => if Ascii.eqb c "/" then drop_slashes s' else s | EmptyString => s end.

(** [baseUrl.replace(/\/+$/, '')] *)
Definition strip_slashes (s : string) : string := str_rev (drop_slashes (str_rev s)).

Definition hex_digit (n : nat) : ascii := if Nat.ltb n 10 then chr (48 + n) else chr (55 + n).

Definition percent (n : nat) : string := String "%" (String (hex_digit (n / 16)) (String (hex_digit (n mod 16)) EmptyString)).

(** The UTF-8 bytes of a unit below 256, percent-encoded. *)
Definition percent_utf8 (c : ascii) : string :=
  let n := Ascii.nat_of_ascii c in
  if Nat.ltb n 128 then percent n else percent (192 + n / 64) ⊕ percent (128 + n mod 64).

Definition is_alnum (c : ascii) : bool := (in_range "A" "Z" c || in_range "a" "z" c || is_digit c)%bool.

(** The characters [encodeURIComponent] leaves alone. *)
Definition uri_unreserved (c : ascii) : bool :=
  (is_alnum c || existsb (Ascii.eqb c) ["-"; "_"; "."; "!"; "~"; "*"; chr 39; "("; ")"]%char)%bool.

Definition encode_char (c : ascii) : string :=
  if uri_unreserved c then String c EmptyString else percent_utf8 c.

Fixpoint encodeURIComponent (s : string) : string :=
  match s with EmptyString => EmptyString | String c s => encode_char c ⊕ encodeURIComponent s end.

Definition is_hex_a (c : ascii) : bool := (Ascii.eqb c "A" || Ascii.eqb c "a")%bool.

(** [s.replace(/%3A/gi, ':')] *)
Fixpoint replace_colon (s : string) : string :=
  match s with
  | String c0 (String c1 (String c2 s') as s1) =>
      if (Ascii.eqb c0 "%" && Ascii.eqb c1 "3" && is_hex_a c2)%bool
      then String ":" (replace_colon s') else String c0 (replace_colon s1)
  | String c s => String c (replace_colon s)
  | EmptyString => EmptyString
  end.

Definition encodeIdSegment (id : string) : string := replace_colon (encodeURIComponent id).

(** [URLSearchParams] serialisation of a value. *)
Definition form_char (c : ascii) : string :=
  if Ascii.eqb c " " then "+"
  else if (is_alnum c || existsb (Ascii.eqb c) ["*"; "-"; "."; "_"]%char)%bool then String c EmptyString
  else percent_utf8 c.

Fixpoint form_encode (s : string) : string :=
  match s with EmptyString => EmptyString | String c s => form_char c ⊕ form_encode s end.

(** ** Errors and requests *)

Inductive ErrorKind := KHttp | KNetwork | KParse.

#[export] Instance ErrorKind_eq_dec : EqDecision ErrorKind.
Proof. solve_decision. Defined.

Record EngineError := mkEngineError {
  ee_message : string;
  ee_status : nat;
  ee_body : string;
  ee_kind : ErrorKind
}.

Record Request := mkRequest {
  rq_method : string;
  rq_url : string;
  rq_headers : obj string;
  rq_body : option string
}.

Record Response := mkResponse { rs_status : nat; rs_statusText : string; rs_text : string }.

(** [response.ok] *)
Definition response_ok (r : Response) : bool := (Nat.leb 200 (rs_status r) && Nat.leb (rs_status r) 299)%bool.

Record EngineClientConfig := mkConfig {
  cfg_baseUrl : string;
  cfg_authHeader : option string
}.

Record ListParams := mkListParams {
  lp_keyword : option string;
  lp_page : option nat;
  lp_pageSize : option nat
}.

Definition headers (cfg : EngineClientConfig) (extra : obj string) : obj string :=
  let h := obj_spread [("Accept", "application/json")] extra in
  match cfg_authHeader cfg with
  | Some a =>
      if (truthy_str a && negb (String.eqb (js_trim a) EmptyString))%bool then obj_assign "Authorization" a h else h
  | None => h
  end.

Section client.
Context `{JsonText} (fetch : Request → Response + string) (cfg : EngineClientConfig).

(** [request<T>(path, init)]: the JSON value, [None] for an empty body, or the
    error thrown. *)
Definition request (method path : string) (extra : obj string) (body : option string) :
    option json + EngineError :=
  match fetch (mkRequest method (strip_slashes (cfg_baseUrl cfg) ⊕ path) (headers cfg extra) body) with
  | inr message =>
      inr (mkEngineError (if truthy_str message then message else "Network error") 0 EmptyString KNetwork)
  | inl response =>
      let text := rs_text response in
      if negb (response_ok response) then
        inr (mkEngineError
               (if truthy_str text then text
                else str_of_nat (rs_status response) ⊕ " " ⊕ rs_statusText response)
               (rs_status response) text KHttp)
      else if String.eqb text EmptyString then inl None
      else match JSON_parse text with
           | inl j => inl (Some j)
           | inr message => inr (mkEngineError ("Invalid JSON: " ⊕ message) (rs_status response) text KParse)
           end
  end.

Definition list_query (params : ListParams) : string :=
  "page=" ⊕ str_of_nat (default 0 (lp_page params)) ⊕
  "&pageSize=" ⊕ str_of_nat (default 20 (lp_pageSize params)) ⊕
  match lp_keyword params with
  | Some k => if truthy_str k then "&keyword=" ⊕ form_encode k else EmptyString
  | None => EmptyString
  end.

Definition listDefinitions (params : ListParams) : option json + EngineError :=
  request "GET" ("/v1/definitions?" ⊕ list_query params) [] None.

Definition getLatest (id : string) : option json + EngineError :=
  request "GET" ("/v1/definitions/" ⊕ encodeIdSegment id) [] None.

(** [version] is written by [String(version)]; versions are natural numbers. *)
Definition getVersion (id : string) (version : nat) : option json + EngineError :=
  request "GET" ("/v1/definitions/" ⊕ encodeIdSegment id ⊕ "/versions/" ⊕ str_of_nat version) [] None.

Definition upload (def : WorkflowDefinition) : option json + EngineError :=
  request "POST" "/v1/definitions" [("Content-Type", "application/json")] (Some (JSON_stringify (def_json def))).

Definition testConnection : EngineStatus :=
  match request "GET" "/v1/definitions?page=0&pageSize=1" [] None with
  | inl _ => StOk
  | inr e =>
      if decide (ee_kind e = KNetwork) then StUnreachable
      else if (Nat.eqb (ee_status e) 401 || Nat.eqb (ee_status e) 403)%bool then StUnauthorized
      else StError
  end.
End client.

(** [createEngineClient(state.engine)] *)
Definition client_config (st : WorkflowState) : EngineClientConfig :=
  mkConfig (ec_baseUrl (ws_engine st)) (Some (ec_authHeader (ws_engine st))).

(** ** Engine actions of the store *)

Definition num_of_nat (n : nat) : jsnum := num_of_Z (Z.of_nat n).

(** What [uploadToEngine] reads of the answer. *)
Record UploadSummary := mkUploadSummary { us_id : string; us_version : jsnum }.

Definition read_summary (j : option json) : option UploadSummary :=
  match j with
  | Some (JObj o) =>
      match obj_get o "id", obj_get o "version" with
      | Some (JStr id), Some (JNum v) => Some (mkUploadSummary id v)
      | _, _ => None
      end
  | _ => None
  end.

(** The state after a successful upload; [s] is the store at that moment. *)
Definition upload_done (now : Z) (summary : UploadSummary) (s : WorkflowState) : WorkflowState :=
  let d := ws_definition s in
  mkState (mkDef (wd_id d) (Some (us_version summary)) (wd_name d) (wd_description d)
             (wd_autoStartNextWorkflow d) (wd_nextWorkflowId d) (wd_steps d) (wd_metadata d) (wd_extra d))
    (ws_layout s) (ws_edgeHandles s) (ws_selection s) (ws_validation s) false (ws_importWarnings s)
    (with_status StOk (Some now) (ws_engine s)) (SrcEngine (us_id summary) (us_version summary)).

(** [e.status >= 400 && e.status < 500] *)
Definition is_4xx (status : nat) : bool := (Nat.leb 400 status && Nat.ltb status 500)%bool.

(** The state after a rejected upload; the error is thrown on. *)
Definition upload_failed (now : Z) (e : EngineError) (s : WorkflowState) : WorkflowState :=
  if (bool_decide (ee_kind e = KHttp) && is_4xx (ee_status e))%bool then
    let drift := diag STEP_TYPE_VALID SevError
      ("Engine rejected upload (" ⊕ str_of_nat (ee_status e) ⊕ "): " ⊕
       (if truthy_str (ee_body e) then ee_body e else ee_message e)) None None in
    with_engine (with_status StError (ec_lastCheckedAt (ws_engine s)) (ws_engine s))
      (with_validation (mkValidation (Some now) (v_diagnostics (ws_validation s) ++ [drift])) s)
  else if bool_decide (ee_kind e = KNetwork) then
    with_engine (with_status StUnreachable (Some now) (ws_engine s)) s
  else with_engine (with_status StError (ec_lastCheckedAt (ws_engine s)) (ws_engine s)) s.

Section engine_actions.
Context `{JsonText} (fetch : Request → Response + string).

(** [between] is what the store becomes while the request is under way. *)
Definition uploadToEngine (between : WorkflowState → WorkflowState) (now : Z) (st : WorkflowState) :
    WorkflowState * option (jsnum + EngineError) :=
  match upload fetch (client_config st) (embedLayout (ws_definition st) (ws_layout st) (ws_edgeHandles st)) with
  | inl answer =>
      match read_summary answer with
      | Some summary => (upload_done now summary (between st), Some (inl (us_version summary)))
      | None => (between st, None)
      end
  | inr e => (upload_failed now e (between st), Some (inr e))
  end.

Definition testEngineConnection (between : WorkflowState → WorkflowState) (now : Z) (st : WorkflowState) :
    WorkflowState * EngineStatus :=
  let status := testConnection fetch (client_config st) in
  let s := between st in
  (with_engine (with_status status (Some now) (ws_engine s)) s, status).

(** The answer is used as a definition without being checked against the
    schema; an answer that is none at all is [IllTyped]. *)
Definition loadFromEngine (id : string) (version : option nat) (between : WorkflowState → WorkflowState)
    (st : WorkflowState) : Result WorkflowState :=
  let answer := match version with
                | None => getLatest fetch (client_config st) id
                | Some v => getVersion fetch (client_config st) id v
                end in
  match answer with
  | inr e => Throws (ee_message e)
  | inl None => IllTyped
  | inl (Some j) =>
      match zWorkflowDefinition false j with
      | None => IllTyped
      | Some def =>
          let '(layout, handles) := extractEmbeddedModeller def in
          let v := match wd_version def, version with
                   | Some v, _ => v
                   | None, Some v => num_of_nat v
                   | None, None => num_of_nat 0
                   end in
          Ok (replace_workflow def layout handles [] (SrcEngine id v) (between st))
      end
  end.
End engine_actions.

(** ** Lemmas *)

Lemma all_ascii (P : ascii → Prop) : (∀ n, n < 256 → P (chr n)) → ∀ c, P c.
Proof.
  intros H c. rewrite <- (Ascii.ascii_nat_embedding c). apply H. apply Ascii.nat_ascii_bounded.
Qed.

(** A decidable statement on all units, checked unit by unit. *)
Lemma ascii_forallb (f : ascii → bool) :
  forallb f (chr <$> seq 0 256) = true → ∀ c, f c = true.
Proof.
  intros H. apply all_ascii. intros n Hn. rewrite forallb_forall in H. apply H, list_elem_of_In.
  apply list_elem_of_fmap_2, elem_of_seq. lia.
Qed.

(** [id] characters need no encoding, but for the colon the client restores. *)
Lemma id_char_encoded c :
  is_id_char c = true → encode_char c = if Ascii.eqb c ":" then "%3A" else String c EmptyString.
Proof.
  intros Hc. pose proof (ascii_forallb (λ c, negb (is_id_char c) ||
    String.eqb (encode_char c) (if Ascii.eqb c ":" then "%3A" else String c EmptyString))%bool) as H.
  specialize (H ltac:(vm_compute; reflexivity) c). cbv beta in H. rewrite Hc in H. by apply String.eqb_eq.
Qed.

Lemma replace_colon_cons c s : Ascii.eqb c "%" = false → replace_colon (String c s) = String c (replace_colon s).
Proof. intros Hc. destruct s as [|c1 [|c2 s]]; cbn [replace_colon]; rewrite ?Hc; done. Qed.

Lemma id_char_not_percent c : is_id_char c = true → Ascii.eqb c "%" = false.
Proof.
  intros Hc. pose proof (ascii_forallb (λ c, negb (is_id_char c) || negb (Ascii.eqb c "%"))%bool
    ltac:(vm_compute; reflexivity) c) as H. cbv beta in H. rewrite Hc in H. by apply negb_true_iff.
Qed.

Lemma encodeIdSegment_chars s : all_chars is_id_char s = true → encodeIdSegment s = s.
Proof.
  unfold encodeIdSegment. induction s as [|c s IH]; simpl; [done|]. intros [Hc Hs]%andb_true_iff.
  rewrite id_char_encoded by done. destruct (Ascii.eqb_spec c ":") as [->|Hne]; [simpl; by rewrite IH|].
  change (String c EmptyString ⊕ encodeURIComponent s) with (String c (encodeURIComponent s)).
  rewrite replace_colon_cons by (by apply id_char_not_percent). by rewrite IH.
Qed.

Lemma is_4xx_spec n : reflect (400 ≤ n < 500) (is_4xx n).
Proof. apply iff_reflect. unfold is_4xx. by rewrite andb_true_iff, Nat.leb_le, Nat.ltb_lt. Qed.

(** ** Properties *)

(** For every id the validator accepts, the path segment the client sends
    is the id itself, colons included, which is what an engine that does not
    decode path segments needs. *)
Theorem valid_id_sent_literally id : ID_PATTERN id = true → encodeIdSegment id = id.
Proof. unfold ID_PATTERN. intros [_ H]%andb_true_iff. by apply encodeIdSegment_chars. Qed.

Lemma valid_id_sent_literally_witness : encodeIdSegment "LOS::loan-app" = "LOS::loan-app".
Proof. apply (valid_id_sent_literally "LOS::loan-app"). vm_compute. reflexivity. Defined.

(** Every outcome of an upload: an accepted upload stores the version and
    the source the engine returned and clears the dirty flag; a 4xx answer
    appends one error diagnostic with the engine's text; a network error marks
    the engine unreachable; and a failed upload changes neither the definition
    nor the dirty flag. *)
Theorem upload_outcomes `{JsonText} fetch between now st :
  let s := between st in
  let '(st', out) := uploadToEngine fetch between now st in
  match out with
  | Some (inl v) =>
      wd_version (ws_definition st') = Some v ∧ ws_dirty st' = false ∧
      wd_steps (ws_definition st') = wd_steps (ws_definition s) ∧
      ec_status (ws_engine st') = StOk ∧ (∃ id, ws_source st' = SrcEngine id v)
  | Some (inr e) =>
      ws_definition st' = ws_definition s ∧ ws_dirty st' = ws_dirty s ∧ ws_source st' = ws_source s ∧
      ec_status (ws_engine st') = (if decide (ee_kind e = KNetwork) then StUnreachable else StError) ∧
      (ee_kind e = KHttp → 400 ≤ ee_status e < 500 →
       ∃ d, v_diagnostics (ws_validation st') = v_diagnostics (ws_validation s) ++ [d] ∧ d_severity d = SevError) ∧
      (¬ (ee_kind e = KHttp ∧ 400 ≤ ee_status e < 500) → ws_validation st' = ws_validation s)
  | None => st' = s
  end.
Proof.
  simpl. unfold uploadToEngine. destruct (upload _ _ _) as [j|e].
  - destruct (read_summary j) as [[id v]|]; simpl; [|done]. split_and!; try done. by exists id.
  - unfold upload_failed. destruct (ee_kind e) eqn:Ek; simpl; [|split_and!; done|].
    + destruct (is_4xx_spec (ee_status e)); simpl; split_and!; try done; intros; try done; [by eexists|tauto].
    + split_and!; done.
Qed.

(** The connection test never throws, and its verdict is exact: [ok] for a
    2xx answer with a JSON or empty body, [unreachable] exactly when the
    request itself failed, [unauthorized] for 401 and 403 when the answer is
    an HTTP error, [error] otherwise. *)
Theorem testConnection_verdict `{JsonText} fetch cfg :
  let answer := fetch (mkRequest "GET" (strip_slashes (cfg_baseUrl cfg) ⊕ "/v1/definitions?page=0&pageSize=1")
                         (headers cfg []) None) in
  testConnection fetch cfg =
  match answer with
  | inr _ => StUnreachable
  | inl r =>
      if response_ok r
      then if String.eqb (rs_text r) EmptyString then StOk
           else match JSON_parse (rs_text r) with inl _ => StOk | inr _ => StError end
      else if (Nat.eqb (rs_status r) 401 || Nat.eqb (rs_status r) 403)%bool then StUnauthorized else StError
  end.
Proof.
  simpl. unfold testConnection, request. destruct (fetch _) as [r|m]; [|done].
  destruct (response_ok r) eqn:Eok; simpl; [|done]. destruct (String.eqb _ _); [done|].
  destruct (JSON_parse _); simpl; [done|].
  unfold response_ok in Eok. apply andb_true_iff in Eok as [?%Nat.leb_le ?%Nat.leb_le].
  destruct (Nat.eqb_spec (rs_status r) 401), (Nat.eqb_spec (rs_status r) 403); simpl; try done; lia.
Qed.

(** The upload clears the dirty flag of whatever the store holds when the
    answer arrives: an edit made while the upload is under way is kept but no
    longer counts as unsaved. *)
Theorem upload_forgets_concurrent_edit `{JsonText} fetch now st def' answer summary :
  upload fetch (client_config st) (embedLayout (ws_definition st) (ws_layout st) (ws_edgeHandles st)) = inl answer →
  read_summary answer = Some summary →
  let '(st', _) := uploadToEngine fetch (edit def') now st in
  wd_steps (ws_definition st') = wd_steps def' ∧ ws_dirty st' = false.
Proof. intros Hu Hr. unfold uploadToEngine. by rewrite Hu, Hr. Qed.

Lemma upload_forgets_concurrent_edit_witness :
  let fetch (_ : Request) : Response + string :=
    inl (mkResponse 201 "Created" (JSON_stringify (JObj [("id", JStr "order-fulfil"); ("version", JNum (num_of_Z 4))]))) in
  let '(st', _) := uploadToEngine fetch (edit order_def) 0%Z initialState in
  wd_steps (ws_definition st') = wd_steps order_def ∧ ws_dirty st' = false.
Proof.
  apply (upload_forgets_concurrent_edit _ 0%Z initialState order_def
    (Some (JObj [("id", JStr "order-fulfil"); ("version", JNum (num_of_Z 4))]))
    (mkUploadSummary "order-fulfil" (num_of_Z 4))); vm_compute; reflexivity.
Defined.
