(* ===== verification/Drafts.v ===== *)
(** * Drafts (workflow-modeller/src/io/drafts.ts, and the draft actions of the store)

    The stored text is the state; [accepts] says for which texts
    [localStorage.setItem] does not throw (quota), [freshId] and [now] are what
    [newId] and [Date.now] return.  A draft is the JSON object in the stored
    array. *)

From S2P Require Import Prelude JsObject Types Schema ImportExport Store.

Definition DRAFTS_LIMIT : nat := 10.

Abbreviation Draft := (obj json).

(** The text under [DRAFTS_KEY]. *)
Abbreviation Storage := (option string).

Inductive SaveDraftResult :=
| SaveOk (draft : Draft)
| CAP_REACHED
| NAME_REQUIRED_
| STORAGE_FAILED.

Definition draft_id (d : Draft) : option string :=
  match obj_get d "id" with Some (JStr s) => Some s | _ => None end.

(** [isDraft(value)] *)
Definition isDraft (v : json) : option Draft :=
  match v with
  | JObj o =>
      match obj_get o "id", obj_get o "name", obj_get o "savedAt", obj_get o "definition" with
      | Some (JStr _), Some (JStr _), Some (JNum _), Some def => if is_object def then Some o else None
      | _, _, _, _ => None
      end
  | _ => None
  end.

Record DraftSummary := mkDraftSummary {
  sm_id : option string;
  sm_name : option json;
  sm_savedAt : option json;
  sm_stepCount : json
}.

(** [d.definition.steps?.length ?? 0] *)
Definition step_count (d : Draft) : json :=
  match get_member (obj_get d "definition") "steps" with
  | Some (JArr l) => JNum (num_of_Z (Z.of_nat (length l)))
  | Some (JStr s) => JNum (num_of_Z (Z.of_nat (String.length s)))
  | Some (JObj o) =>
      match obj_get o "length" with Some JNull | None => JNum (num_of_Z 0) | Some v => v end
  | _ => JNum (num_of_Z 0)
  end.

Definition toSummary (d : Draft) : DraftSummary :=
  mkDraftSummary (draft_id d) (obj_get d "name") (obj_get d "savedAt") (step_count d).

Record DraftInput := mkDraftInput {
  di_name : string;
  di_definition : WorkflowDefinition;
  di_layout : Layout;
  di_edgeHandles : EdgeHandles
}.

Section drafts.
Context `{JsonText} (accepts : string → bool).

Definition readRaw (s : Storage) : list Draft :=
  match s with
  | None => []
  | Some raw =>
      if negb (truthy_str raw) then []
      else match JSON_parse raw with
           | inl (JArr l) => omap isDraft l
           | _ => []
           end
  end.

(** The storage after the call, and whether it succeeded. *)
Definition writeRaw (drafts : list Draft) (s : Storage) : Storage * bool :=
  let text := JSON_stringify (JArr (JObj <$> drafts)) in
  if accepts text then (Some text, true) else (s, false).

Definition listDrafts (s : Storage) : list DraftSummary := toSummary <$> readRaw s.

Definition has_id (id : string) (d : Draft) : bool := bool_decide (draft_id d = Some id).

Definition getDraft (id : string) (s : Storage) : option Draft := List.find (has_id id) (readRaw s).

Definition draft_obj (id name : string) (now : Z) (input : DraftInput) : Draft :=
  [("id", JStr id); ("name", JStr name); ("savedAt", JNum (num_of_Z now));
   ("definition", def_json (di_definition input)); ("layout", layout_json (di_layout input));
   ("edgeHandles", JObj (di_edgeHandles input))].

Definition saveDraft (freshId : string) (now : Z) (input : DraftInput) (s : Storage) :
    Storage * SaveDraftResult :=
  let name := js_trim (di_name input) in
  if negb (truthy_str name) then (s, NAME_REQUIRED_)
  else
    let drafts := readRaw s in
    if Nat.leb DRAFTS_LIMIT (length drafts) then (s, CAP_REACHED)
    else
      let draft := draft_obj freshId name now input in
      let '(s', ok) := writeRaw (drafts ++ [draft]) s in
      if negb ok then (s', STORAGE_FAILED) else (s', SaveOk draft).

Definition deleteDraft (id : string) (s : Storage) : Storage :=
  (writeRaw (List.filter (λ d, negb (has_id id d)) (readRaw s)) s).1.

(** ** The draft actions of the store *)

Definition saveDraftAction (freshId : string) (now : Z) (name : string) (st : WorkflowState) (s : Storage) :
    Storage * SaveDraftResult :=
  saveDraft freshId now
    (mkDraftInput name (ws_definition st) (ws_layout st) (ws_edgeHandles st)) s.

(** [loadDraft]: [None] when there is no such draft; the stored objects are used
    without a check, so they may be no definition, layout or handles at all. *)
Definition loadDraft (id : string) (s : Storage) (st : WorkflowState) : option (Result WorkflowState) :=
  match getDraft id s with
  | None => None
  | Some d =>
      Some match obj_get d "definition", obj_get d "layout", obj_get d "edgeHandles" with
           | Some jd, Some jl, Some (JObj handles) =>
               match zWorkflowDefinition false jd, z_record read_pos jl with
               | Some def, Some layout => Ok (replace_workflow def layout handles [] SrcNew st)
               | _, _ => IllTyped
               end
           | _, _, _ => IllTyped
           end
  end.
End drafts.

(** ** Lemmas *)

Section draft_lemmas.
Context `{JsonTextLaws}.

(** A draft as the storage keeps it. *)
Definition stored_draft (d : Draft) : Prop := isDraft (JObj d) = Some d ∧ json_wf (JObj d) = true.

Lemma isDraft_id v d : isDraft v = Some d → v = JObj d ∧ ∃ id, draft_id d = Some id.
Proof.
  unfold isDraft. destruct v as [| | | | |o]; try done.
  destruct (obj_get o "id") as [[]|] eqn:E; try done. repeat case_match; try done.
  all: intros Heq; simplify_eq; split; [done|]; unfold draft_id; rewrite E; eauto.
Qed.

Lemma readRaw_stored s : Forall stored_draft (readRaw s).
Proof.
  unfold readRaw. destruct s as [raw|]; [|constructor]. destruct (negb _); [constructor|].
  destruct (JSON_parse raw) as [[| | | |l|]|] eqn:E; try constructor.
  apply parse_wf in E. simpl in E. rewrite forallb_forall in E.
  apply Forall_forall. intros d (v & Hv & Hd)%list_elem_of_omap.
  destruct (isDraft_id _ _ Hd) as [-> _]. split; [done|]. apply E. by apply list_elem_of_In.
Qed.

Lemma isDraft_inv (l : list Draft) : Forall stored_draft l → omap isDraft (JObj <$> l) = l.
Proof.
  induction 1 as [|d l [Hd _] _ IH]; [done|]. cbn [fmap list_fmap omap list_omap] in *. by rewrite Hd, IH.
Qed.

(** What is written is what is read back. *)
Lemma read_written l :
  Forall stored_draft l → readRaw (Some (JSON_stringify (JArr (JObj <$> l)))) = l.
Proof.
  intros Hl. unfold readRaw. rewrite (proj2 (truthy_str_true _)) by apply stringify_nonempty.
  simpl. rewrite parse_stringify.
  - by apply isDraft_inv.
  - simpl. apply forallb_forall. intros v. rewrite <- list_elem_of_In.
    intros (d & -> & Hd)%list_elem_of_fmap. rewrite Forall_forall in Hl. by apply Hl.
Qed.

Lemma writeRaw_read accepts l s :
  Forall stored_draft l →
  let '(s', ok) := writeRaw accepts l s in
  if ok : bool then readRaw s' = l else s' = s.
Proof. intros Hl. unfold writeRaw. destruct (accepts _); [by apply read_written|done]. Qed.

Lemma draft_obj_get id name now input :
  obj_get (draft_obj id name now input) "id" = Some (JStr id) ∧
  obj_get (draft_obj id name now input) "definition" = Some (def_json (di_definition input)) ∧
  obj_get (draft_obj id name now input) "layout" = Some (layout_json (di_layout input)) ∧
  obj_get (draft_obj id name now input) "edgeHandles" = Some (JObj (di_edgeHandles input)).
Proof. done. Qed.

(** The parts of the input are JSON objects in JS key order. *)
Definition input_wf (input : DraftInput) : bool :=
  json_wf (def_json (di_definition input)) && json_wf (layout_json (di_layout input)) &&
  json_wf (JObj (di_edgeHandles input)).

Lemma draft_obj_stored id name now input :
  input_wf input = true → stored_draft (draft_obj id name now input).
Proof.
  unfold input_wf. intros Hw. apply andb_true_iff in Hw as [[H1 H2]%andb_true_iff H3]. split; [done|].
  unfold draft_obj. cbn [json_wf fst snd forallb fmap list_fmap] in *. rewrite H1, H2, H3. done.
Qed.
End draft_lemmas.

(** ** Properties *)

Section draft_props.
Context `{JsonTextLaws} (accepts : string → bool).

Lemma saveDraft_cases id now input s :
  input_wf input = true →
  let '(s', r) := saveDraft accepts id now input s in
  match r with
  | NAME_REQUIRED_ => s' = s ∧ blank (di_name input) = true
  | CAP_REACHED => s' = s ∧ DRAFTS_LIMIT ≤ length (readRaw s)
  | STORAGE_FAILED => s' = s
  | SaveOk d =>
      d = draft_obj id (js_trim (di_name input)) now input ∧
      readRaw s' = readRaw s ++ [d] ∧ length (readRaw s') ≤ DRAFTS_LIMIT ∧
      obj_get d "name" = Some (JStr (js_trim (di_name input))) ∧
      (getDraft id s = None → getDraft id s' = Some d)
  end.
Proof.
  intros Hin. unfold saveDraft. destruct (truthy_str (js_trim (di_name input))) eqn:En; cbn [negb].
  2:{ split; [done|]. unfold blank. apply truthy_str_false in En. rewrite En. by rewrite orb_true_r. }
  destruct (Nat.leb_spec DRAFTS_LIMIT (length (readRaw s))) as [Hl|Hl]; [done|].
  set (d := draft_obj id (js_trim (di_name input)) now input).
  assert (Forall stored_draft (readRaw s ++ [d])) as Hst.
  { apply Forall_app. split; [apply readRaw_stored|]. constructor; [by apply draft_obj_stored|constructor]. }
  pose proof (writeRaw_read accepts _ s Hst) as Hw. destruct (writeRaw accepts (readRaw s ++ [d]) s) as [s' []]; cbn [negb]; [|done].
  split; [done|]. split_and!; [done| |done|].
  - rewrite Hw, length_app. simpl. lia.
  - unfold getDraft. intros Hn. rewrite Hw. clear -Hn. induction (readRaw s) as [|x l IH]; simpl in *.
    + assert (has_id id d = true) as ->; [|done]. by apply bool_decide_eq_true_2.
    + destruct (has_id id x); [done|]. by apply IH.
Qed.

(** Saving a draft: a blank name, a full list or a storage that refuses the
    text leave the storage as it was and say so; otherwise the draft is
    appended under its trimmed name, the other drafts stay, and it is the one
    its id finds, if the id is new. *)
Theorem saveDraft_outcomes id now input s :
  input_wf input = true →
  let '(s', r) := saveDraft accepts id now input s in
  match r with
  | NAME_REQUIRED_ => s' = s ∧ blank (di_name input) = true
  | CAP_REACHED => s' = s ∧ DRAFTS_LIMIT ≤ length (readRaw s)
  | STORAGE_FAILED => s' = s
  | SaveOk d =>
      readRaw s' = readRaw s ++ [d] ∧ length (readRaw s') ≤ DRAFTS_LIMIT ∧
      obj_get d "name" = Some (JStr (js_trim (di_name input))) ∧
      (getDraft id s = None → getDraft id s' = Some d)
  end.
Proof.
  intros Hin. pose proof (saveDraft_cases id now input s Hin) as Hc.
  destruct (saveDraft accepts id now input s) as [s' []]; tauto.
Qed.

(** Deleting a draft whose write the storage accepts removes exactly the
    drafts with that id and keeps the others in order; the cap is kept. *)
Theorem deleteDraft_exact id s :
  (∀ text, accepts text = true) →
  readRaw (deleteDraft accepts id s) = List.filter (λ d, negb (has_id id d)) (readRaw s) ∧
  getDraft id (deleteDraft accepts id s) = None ∧
  length (readRaw (deleteDraft accepts id s)) ≤ length (readRaw s).
Proof.
  intros Ha. assert (readRaw (deleteDraft accepts id s) = List.filter (λ d, negb (has_id id d)) (readRaw s)) as E.
  { unfold deleteDraft, writeRaw. rewrite Ha. simpl. apply read_written, Forall_forall.
    intros d [Hd _]%list_elem_of_In%filter_In.
    pose proof (readRaw_stored s) as Hs. rewrite Forall_forall in Hs. by apply Hs, list_elem_of_In. }
  split; [done|]. split.
  - unfold getDraft. rewrite E. clear. induction (readRaw s) as [|x l IH]; simpl; [done|].
    destruct (has_id id x) eqn:Ex; simpl; [done|]. by rewrite Ex.
  - rewrite E. clear. induction (readRaw s) as [|x l IH]; simpl; [done|]. destruct (has_id id x); simpl; lia.
Qed.

(** A saved draft loads back: the definition (finished or not), the layout
    and the edge handles are those of the moment it was saved. *)
Theorem draft_roundtrip id now name st st0 s s' d :
  def_schema false (ws_definition st) = true → obj_wf (ws_layout st) = true →
  "__proto__" ∉ obj_keys (ws_layout st) →
  input_wf (mkDraftInput name (ws_definition st) (ws_layout st) (ws_edgeHandles st)) = true →
  getDraft id s = None → saveDraftAction accepts id now name st s = (s', SaveOk d) →
  loadDraft id s' st0 =
  Some (Ok (replace_workflow (ws_definition st) (ws_layout st) (ws_edgeHandles st) [] SrcNew st0)).
Proof.
  intros Hdef Hlw Hlp Hin Hn Hs. unfold saveDraftAction in Hs.
  set (inp := mkDraftInput name (ws_definition st) (ws_layout st) (ws_edgeHandles st)) in *.
  pose proof (saveDraft_cases id now _ s Hin) as Hc. rewrite Hs in Hc. destruct Hc as (-> & _ & _ & _ & Hg).
  specialize (Hg Hn).
  unfold loadDraft. rewrite Hg. destruct (draft_obj_get id (js_trim (di_name inp)) now inp) as (_ & -> & -> & ->).
  unfold inp. cbn [di_definition di_layout di_edgeHandles].
  rewrite (def_roundtrip false _ Hdef).
  change (z_record read_pos (layout_json (ws_layout st))) with (z_record read_pos (record_json pos_json (ws_layout st))).
  rewrite no_proto_record; [done| |by intros []]. unfold no_proto_key. by rewrite negb_true_iff, obj_has_false.
Qed.
End draft_props.

(** ** Witnesses *)

Definition sample_input : DraftInput :=
  mkDraftInput " my draft " tiny_def [("reserve", mkPos (num_of_Z 1) (num_of_Z 2))] [].

Lemma saveDraft_outcomes_witness :
  ∃ s' d, saveDraft (λ _, true) "id-1" 7 sample_input None = (s', SaveOk d) ∧ readRaw s' = [d].
Proof.
  pose proof (saveDraft_outcomes (λ _, true) "id-1" 7 sample_input None ltac:(vm_compute; reflexivity)) as H.
  destruct (saveDraft (λ _, true) "id-1" 7 sample_input None) as [s' r] eqn:E. vm_compute in E.
  destruct r as [d| | |]; try discriminate E. exists s', d. split; [reflexivity|]. exact (proj1 H).
Defined.

Lemma deleteDraft_exact_witness :
  getDraft "id-1" (deleteDraft (λ _, true) "id-1"
    (saveDraft (λ _, true) "id-1" 7 sample_input None).1) = None.
Proof.
  apply (deleteDraft_exact (λ _, true) "id-1"). reflexivity.
Defined.

Lemma draft_roundtrip_witness :
  let st := replace_workflow tiny_def (di_layout sample_input) [] [] SrcNew initialState in
  ∃ s', loadDraft "id-1" s' initialState =
        Some (Ok (replace_workflow tiny_def (di_layout sample_input) [] [] SrcNew initialState)).
Proof.
  intros st.
  destruct (saveDraftAction (λ _, true) "id-1" 7 "my draft" st None) as [s' r] eqn:E.
  destruct r as [d| | |]; [|vm_compute in E; discriminate E..]. exists s'.
  apply (draft_roundtrip (λ _, true) "id-1" 7 "my draft" st initialState None s' d).
  - vm_compute; reflexivity.
  - vm_compute; reflexivity.
  - apply includes_false. vm_compute. reflexivity.
  - vm_compute; reflexivity.
  - reflexivity.
  - exact E.
Defined.
