(* ===== verification/GoDefinition.v ===== *)
(** * The engine's parser and validator of definitions
    (workflow-engine/internal/definition/types.go, parser.go, conditional_branches.go, validator.go)

    What an upload meets: [ParseBytes] decodes the JSON into the Go structs
    and refuses undeclared members, [Validate] lists the rules a definition
    breaks.  A decoded value is the Go zero value where a member is absent or
    null.  The errors are values, one constructor per message.
    The second part is about what they accept. *)

From S2P Require Import Prelude JsObject Types Graph Rename Duration Validate WellFormed Schema Store Engine.

(** ** Decoding *)

(** [GoUndescribed]: an object with two members whose names differ only in
    case, which the decoder takes for the same field. *)
Inductive GoResult (A : Type) := GoOk (a : A) | GoErr | GoUndescribed.
Arguments GoOk {A} _.
Arguments GoErr {A}.
Arguments GoUndescribed {A}.

Definition go_bind {A B} (r : GoResult A) (f : A → GoResult B) : GoResult B :=
  match r with GoOk a => f a | GoErr => GoErr | GoUndescribed => GoUndescribed end.

Declare Scope go_scope.
Delimit Scope go_scope with go.
Notation "x <- r ; k" := (go_bind r (λ x, k)) (at level 100, r at next level, right associativity) : go_scope.
Open Scope go_scope.

Fixpoint go_mapM {A B} (f : A → GoResult B) (l : list A) : GoResult (list B) :=
  match l with
  | [] => GoOk []
  | a :: l => b <- f a; bs <- go_mapM f l; GoOk (b :: bs)
  end.

(** Field names match whatever their case. *)
Definition fold_name (k : string) : string := str_map ascii_lower k.

Definition go_field (o : obj json) (name : string) : option json :=
  snd <$> List.find (λ p, String.eqb (fold_name p.1) (fold_name name)) o.

(** [DisallowUnknownFields] *)
Definition go_struct (fields : list string) (o : obj json) : GoResult unit :=
  let names := fold_name <$> obj_keys o in
  if negb (bool_decide (NoDup names)) then GoUndescribed
  else if forallb (λ k, includes (fold_name <$> fields) k) names then GoOk tt else GoErr.

Definition go_member {A} (f : json → GoResult A) (zero : A) (o : obj json) (name : string) : GoResult A :=
  match go_field o name with Some j => f j | None => GoOk zero end.

Definition go_string (j : json) : GoResult string :=
  match j with JStr s => GoOk s | JNull => GoOk EmptyString | _ => GoErr end.

Definition go_bool (j : json) : GoResult bool :=
  match j with JBool b => GoOk b | JNull => GoOk false | _ => GoErr end.

(** The value of a number that is an integer. *)
Definition num_int (n : jsnum) : Z :=
  if (0 <=? expo n)%Z then mant n * 2 ^ expo n else mant n / 2 ^ (- expo n).

(** The gap between the doubles around [a]. *)
Definition double_gap (a : Z) : Z := 2 ^ Z.max 0 (Z.log2 a - 52).

(** The double an integer is read as: the nearest one, the even one of two. *)
Definition to_double (a : Z) : Z :=
  let gap := double_gap a in
  let low := (a / gap * gap)%Z in
  match (2 * (a - low) ?= gap)%Z with
  | Lt => low
  | Gt => low + gap
  | Eq => if Z.even (a / gap) then low else low + gap
  end.

(** The multiple of [10 ^ e] next to the double [a] that is read as [a]. *)
Definition rounded (a e : Z) : option Z :=
  let unit := (10 ^ e)%Z in
  let low := (a / unit * unit)%Z in
  let high := (low + unit)%Z in
  let near := if (a - low <=? high - a)%Z then [low; high] else [high; low] in
  List.find (λ d, to_double d =? a)%Z near.

(** [Number::toString] of the integer [a] below [10 ^ 21]: as few digits as
    still denote [a], padded with zeros. *)
Fixpoint shortest (a : Z) (e : nat) : Z :=
  match rounded a (Z.of_nat e), e with
  | Some d, _ => d
  | None, S e => shortest a e
  | None, O => a
  end.

(** The integer that [JSON.stringify] writes for an integer number; from
    [10 ^ 21] on it writes an exponent. *)
Definition written_int (n : jsnum) : Z :=
  let z := num_int n in (Z.sgn z * shortest (Z.abs z) 20)%Z.

(** [int] has 64 bits and is read from the text. *)
Definition fits_int64 (n : jsnum) : bool :=
  num_is_int n && (Z.abs (num_int n) <? 10 ^ 21)%Z && (- 2 ^ 63 <=? written_int n)%Z && (written_int n <? 2 ^ 63)%Z.

Definition go_int (j : json) : GoResult Z :=
  match j with
  | JNum n => if fits_int64 n then GoOk (written_int n) else GoErr
  | JNull => GoOk 0%Z
  | _ => GoErr
  end.

(** Small numbers are written out; the least 64-bit integer is written with
    zeros at its end, which is below the range, the greatest double below
    [2 ^ 63] with zeros that keep it inside. *)
Example written_ints :
  written_int (num_of_Z 42) = 42%Z ∧ written_int (num_of_Z 0) = 0%Z ∧ written_int (JsNum (-3) 1) = (-6)%Z ∧
  written_int (num_of_Z (2 ^ 53)) = 9007199254740992%Z ∧
  written_int (num_of_Z (- 2 ^ 63)) = (-9223372036854776000)%Z ∧ fits_int64 (num_of_Z (- 2 ^ 63)) = false ∧
  written_int (num_of_Z (2 ^ 63 - 1024)) = 9223372036854775000%Z ∧ fits_int64 (num_of_Z (2 ^ 63 - 1024)) = true.
Proof. vm_compute. tauto. Qed.

Definition go_slice {A} (f : json → GoResult A) (j : json) : GoResult (list A) :=
  match j with JArr l => go_mapM f l | JNull => GoOk [] | _ => GoErr end.

(** [map[string]T], in the order of the document. *)
Definition go_map {A} (f : json → GoResult A) (j : json) : GoResult (obj A) :=
  match j with
  | JObj o => go_mapM (λ p, v <- f p.2; GoOk (p.1, v)) o
  | JNull => GoOk []
  | _ => GoErr
  end.

(** [json.RawMessage] *)
Definition go_raw (j : json) : GoResult json := GoOk j.

(** A pointer field: null leaves it nil. *)
Definition go_pointer {A} (f : json → GoResult A) (j : json) : GoResult (option A) :=
  match j with JNull => GoOk None | _ => v <- f j; GoOk (Some v) end.

Record GoEvent := mkGoEvent {
  ge_type : string;
  ge_duration : string;
  ge_interrupting : bool;
  ge_target : string
}.

Record GoRule := mkGoRule { gr_when : obj string; gr_outputs : obj json }.

Record GoSchema := mkGoSchema { gs_properties : obj string; gs_required : list string }.

Record GoStep := mkGoStep {
  g_id : string;
  g_name : string;
  g_type : string;
  g_description : string;
  g_nextStep : string;
  g_parallelNextSteps : list string;
  g_joinStep : string;
  g_conditionalNextSteps : option (obj string);
  g_transformations : obj json;
  g_decisionTable : option (list GoRule);
  g_hitPolicy : string;
  g_jobType : string;
  g_delegateClass : string;
  g_retryCount : Z;
  g_boundaryEvents : list GoEvent;
  g_outputsSchema : option GoSchema
}.

Record GoDefinition := mkGoDefinition {
  gd_id : string;
  gd_version : Z;
  gd_name : string;
  gd_description : string;
  gd_autoStart : bool;
  gd_nextWorkflowId : string;
  gd_steps : list GoStep;
  gd_metadata : obj json;
  gd_inputSchema : option GoSchema
}.

Definition zero_event : GoEvent := mkGoEvent EmptyString EmptyString false EmptyString.
Definition zero_rule : GoRule := mkGoRule [] [].
Definition zero_schema : GoSchema := mkGoSchema [] [].
Definition zero_step : GoStep :=
  mkGoStep EmptyString EmptyString EmptyString EmptyString EmptyString [] EmptyString None [] None EmptyString
    EmptyString EmptyString 0 [] None.
Definition zero_definition : GoDefinition := mkGoDefinition EmptyString 0 EmptyString EmptyString false EmptyString [] [] None.

(** An object into a struct; null leaves the zero value. *)
Definition go_object {A} (zero : A) (fields : list string) (f : obj json → GoResult A) (j : json) : GoResult A :=
  match j with
  | JObj o => _ <- go_struct fields o; f o
  | JNull => GoOk zero
  | _ => GoErr
  end.

Definition go_event : json → GoResult GoEvent :=
  go_object zero_event ["type"; "duration"; "interrupting"; "targetStepId"] (λ o,
    t <- go_member go_string EmptyString o "type"; d <- go_member go_string EmptyString o "duration";
    i <- go_member go_bool false o "interrupting"; s <- go_member go_string EmptyString o "targetStepId";
    GoOk (mkGoEvent t d i s)).

Definition go_rule : json → GoResult GoRule :=
  go_object zero_rule ["when"; "outputs"] (λ o,
    w <- go_member (go_map go_string) [] o "when"; out <- go_member (go_map go_raw) [] o "outputs";
    GoOk (mkGoRule w out)).

Definition go_table : json → GoResult (list GoRule) :=
  go_object [] ["rules"] (λ o, go_member (go_slice go_rule) [] o "rules").

Definition go_property : json → GoResult string :=
  go_object EmptyString ["type"] (λ o, go_member go_string EmptyString o "type").

Definition go_schema : json → GoResult GoSchema :=
  go_object zero_schema ["properties"; "required"] (λ o,
    p <- go_member (go_map go_property) [] o "properties"; r <- go_member (go_slice go_string) [] o "required";
    GoOk (mkGoSchema p r)).

(** [ConditionalBranches.UnmarshalJSON]: an object of strings, in order. *)
Definition go_branches (j : json) : GoResult (obj string) :=
  match j with JObj o => go_mapM (λ p, v <- go_string p.2; GoOk (p.1, v)) o | _ => GoErr end.

Definition go_step_fields : list string :=
  ["id"; "name"; "type"; "description"; "nextStep"; "parallelNextSteps"; "joinStep"; "conditionalNextSteps";
   "transformations"; "decisionTable"; "hitPolicy"; "jobType"; "delegateClass"; "retryCount"; "boundaryEvents";
   "outputs_schema"].

Definition go_step : json → GoResult GoStep :=
  go_object zero_step go_step_fields (λ o,
    id <- go_member go_string EmptyString o "id"; name <- go_member go_string EmptyString o "name";
    type <- go_member go_string EmptyString o "type"; desc <- go_member go_string EmptyString o "description";
    next <- go_member go_string EmptyString o "nextStep"; par <- go_member (go_slice go_string) [] o "parallelNextSteps";
    join <- go_member go_string EmptyString o "joinStep";
    cond <- go_member (go_pointer go_branches) None o "conditionalNextSteps";
    trans <- go_member (go_map go_raw) [] o "transformations";
    table <- go_member (go_pointer go_table) None o "decisionTable";
    hit <- go_member go_string EmptyString o "hitPolicy"; job <- go_member go_string EmptyString o "jobType";
    delegate <- go_member go_string EmptyString o "delegateClass"; retry <- go_member go_int 0%Z o "retryCount";
    events <- go_member (go_slice go_event) [] o "boundaryEvents";
    outs <- go_member (go_pointer go_schema) None o "outputs_schema";
    GoOk (mkGoStep id name type desc next par join cond trans table hit job delegate retry events outs)).

Definition go_def_fields : list string :=
  ["id"; "version"; "name"; "description"; "autoStartNextWorkflow"; "nextWorkflowId"; "steps"; "metadata"; "input_schema"].

(** [Parse] and [ParseBytes], after the JSON syntax *)
Definition go_parse : json → GoResult GoDefinition :=
  go_object zero_definition go_def_fields (λ o,
    id <- go_member go_string EmptyString o "id"; version <- go_member go_int 0%Z o "version";
    name <- go_member go_string EmptyString o "name"; desc <- go_member go_string EmptyString o "description";
    auto <- go_member go_bool false o "autoStartNextWorkflow";
    next <- go_member go_string EmptyString o "nextWorkflowId";
    steps <- go_member (go_slice go_step) [] o "steps"; meta <- go_member (go_map go_raw) [] o "metadata";
    input <- go_member (go_pointer go_schema) None o "input_schema";
    GoOk (mkGoDefinition id version name desc auto next steps meta input)).

(** ** Validation *)

(** The messages of [Validate]. *)
Inductive GoError :=
| GIdRequired | GIdTooLong (bytes : nat) | GIdPattern (id : string) | GNameRequired | GStepsEmpty | GNextWorkflowRequired
| GSchemaEmpty (label : option string) | GSchemaType (label : option string) (name type : string)
| GSchemaRequired (label : option string) (name : string)
| GStepIdRequired (index : nat) | GDuplicateStep (id : string)
| GStepName (id : string) | GStepType (id type : string) | GJobType (id : string)
| GNoBranches (id : string) | GNextRequired (id : string) | GNoTransformations (id : string)
| GFewBranches (id : string) | GJoinRequired (id : string) | GUnknownRef (id field target : string)
| GNoTable (id : string) | GNoRules (id : string) | GHitPolicy (id policy : string) | GForeignField (id field : string)
| GTableElsewhere (id type : string) | GSchemaElsewhere (id type : string)
| GEventType (id : string) (index : nat) | GEventDuration (id : string) (index : nat) | GEventTarget (id : string) (index : nat)
| GUnreachable (id : string) | GNoEnd.

(** [append(errs, e)] under a condition *)
Definition complain (b : bool) (e : GoError) : list GoError := if b then [e] else [].

(** [len(s)]: the bytes of the UTF-8 encoding. *)
Fixpoint byte_length (s : string) : nat :=
  match s with
  | EmptyString => 0
  | String c s => (if Nat.ltb (Ascii.nat_of_ascii c) 128 then 1 else 2) + byte_length s
  end.

(** [idRegexp], a run of the class over the whole string *)
Definition go_id_char (c : ascii) : bool :=
  let n := Ascii.nat_of_ascii c in
  (Nat.leb 65 n && Nat.leb n 90) || (Nat.leb 97 n && Nat.leb n 122) || (Nat.leb 48 n && Nat.leb n 57) ||
  existsb (Ascii.eqb c) ["_"; ":"; "-"]%char.

Definition go_id_match (id : string) : bool := truthy_str id && forallb go_id_char (list_ascii_of_string id).

Definition empty (s : string) : bool := String.eqb s EmptyString.

Abbreviation StepIndex := (gmap string GoStep).

Definition checkRef (index : StepIndex) (id field target : string) : list GoError :=
  complain (negb (bool_decide (is_Some (index !! target)))) (GUnknownRef id field target).

(** A required reference. *)
Definition check_required (index : StepIndex) (id field target : string) (missing : GoError) : list GoError :=
  if empty target then [missing] else checkRef index id field target.

Definition schema_types : list string := ["string"; "number"; "integer"; "boolean"].

Definition validateSchemaShape (label : option string) (s : GoSchema) : list GoError :=
  complain (Nat.eqb (length (gs_properties s)) 0) (GSchemaEmpty label) ++
  (gs_properties s ≫= λ p, complain (negb (includes schema_types p.2)) (GSchemaType label p.1 p.2)) ++
  (gs_required s ≫= λ r, complain (negb (obj_has (gs_properties s) r)) (GSchemaRequired label r)).

Definition validHitPolicies : list string := ["U"; "F"; "A"; "R"; "C"; "C+"; "C#"; "C>"; "C<"].

Definition branches_len (s : GoStep) : nat := match g_conditionalNextSteps s with Some m => length m | None => 0 end.

Definition validateDecisionTable (index : StepIndex) (s : GoStep) : list GoError :=
  let id := g_id s in
  match g_decisionTable s with
  | None => [GNoTable id]
  | Some rules =>
      complain (Nat.eqb (length rules) 0) (GNoRules id) ++
      check_required index id "nextStep" (g_nextStep s) (GNextRequired id) ++
      complain (negb (empty (g_hitPolicy s)) && negb (includes validHitPolicies (g_hitPolicy s))) (GHitPolicy id (g_hitPolicy s)) ++
      complain (Nat.ltb 0 (branches_len s)) (GForeignField id "conditionalNextSteps") ++
      complain (Nat.ltb 0 (length (g_transformations s))) (GForeignField id "transformations") ++
      complain (Nat.ltb 0 (length (g_parallelNextSteps s))) (GForeignField id "parallelNextSteps") ++
      complain (negb (empty (g_joinStep s))) (GForeignField id "joinStep") ++
      complain (negb (empty (g_jobType s))) (GForeignField id "jobType") ++
      complain (negb (empty (g_delegateClass s))) (GForeignField id "delegateClass") ++
      complain (negb (Z.eqb (g_retryCount s) 0)) (GForeignField id "retryCount") ++
      complain (Nat.ltb 0 (length (g_boundaryEvents s))) (GForeignField id "boundaryEvents")
  end.

Definition check_event (index : StepIndex) (id : string) (i : nat) (e : GoEvent) : list GoError :=
  complain (negb (String.eqb (ge_type e) "TIMER")) (GEventType id i) ++
  complain (empty (ge_duration e)) (GEventDuration id i) ++
  check_required index id "boundaryEvents" (ge_target e) (GEventTarget id i).

(** The [switch] on the type of the step *)
Definition check_by_type (index : StepIndex) (s : GoStep) : list GoError :=
  let id := g_id s in
  let t := g_type s in
  let next := check_required index id "nextStep" (g_nextStep s) (GNextRequired id) in
  if (String.eqb t "SERVICE_TASK" || String.eqb t "USER_TASK")%bool then
    complain (String.eqb t "SERVICE_TASK" && empty (g_jobType s)) (GJobType id) ++
    (if empty (g_nextStep s) then [] else checkRef index id "nextStep" (g_nextStep s))
  else if String.eqb t "DECISION" then
    complain (Nat.eqb (branches_len s) 0) (GNoBranches id) ++
    match g_conditionalNextSteps s with
    | Some m => obj_values m ≫= checkRef index id "conditionalNextSteps target"
    | None => []
    end
  else if String.eqb t "TRANSFORMATION" then
    next ++ complain (Nat.eqb (length (g_transformations s)) 0) (GNoTransformations id)
  else if String.eqb t "WAIT" then next
  else if String.eqb t "PARALLEL_GATEWAY" then
    complain (Nat.ltb (length (g_parallelNextSteps s)) 2) (GFewBranches id) ++
    check_required index id "joinStep" (g_joinStep s) (GJoinRequired id) ++
    (g_parallelNextSteps s ≫= checkRef index id "parallelNextSteps")
  else if String.eqb t "JOIN_GATEWAY" then next
  else if String.eqb t "DECISION_TABLE" then validateDecisionTable index s
  else [].

Definition check_step (index : StepIndex) (s : GoStep) : list GoError :=
  let id := g_id s in
  if empty id then []
  else
    complain (empty (g_name s)) (GStepName id) ++
    complain (negb (includes STEP_TYPES (g_type s))) (GStepType id (g_type s)) ++
    check_by_type index s ++
    complain (negb (String.eqb (g_type s) "DECISION_TABLE") && bool_decide (is_Some (g_decisionTable s)))
      (GTableElsewhere id (g_type s)) ++
    match g_outputsSchema s with
    | Some schema =>
        if String.eqb (g_type s) "SERVICE_TASK" then validateSchemaShape (Some id) schema
        else [GSchemaElsewhere id (g_type s)]
    | None => []
    end ++
    concat (imap (check_event index id) (g_boundaryEvents s)).

(** [stepByID]: a later step with the same id replaces an earlier one. *)
Fixpoint step_index (i : nat) (steps : list GoStep) (index : StepIndex) : StepIndex * list GoError :=
  match steps with
  | [] => (index, [])
  | s :: steps =>
      if empty (g_id s) then
        let '(index', errs) := step_index (S i) steps index in (index', GStepIdRequired i :: errs)
      else
        let '(index', errs) := step_index (S i) steps (<[g_id s := s]> index) in
        (index', complain (bool_decide (is_Some (index !! g_id s))) (GDuplicateStep (g_id s)) ++ errs)
  end.

(** The ids [graphWalk] calls itself on. *)
Definition go_targets (s : GoStep) : list string :=
  (if empty (g_nextStep s) then [] else [g_nextStep s]) ++
  match g_conditionalNextSteps s with Some m => obj_values m | None => [] end ++
  g_parallelNextSteps s ++
  (if empty (g_joinStep s) then [] else [g_joinStep s]) ++
  (ge_target <$> g_boundaryEvents s).

Fixpoint graphWalk (fuel : nat) (index : StepIndex) (id : string) (visited : gset string) : option (gset string) :=
  match fuel with
  | O => None
  | S fuel =>
      if bool_decide (id ∈ visited) then Some visited
      else
        let visited := {[id]} ∪ visited in
        match index !! id with
        | None => Some visited
        | Some s => fold_left (λ acc t, v ← acc; graphWalk fuel index t v) (go_targets s) (Some visited)
        end
  end.

(** One call per step that is entered, and one more for the last. *)
Definition walk_depth (index : StepIndex) : nat := S (S (size index)).

Definition check_reachability (index : StepIndex) (steps : list GoStep) : list GoError :=
  match steps with
  | [] => []
  | first :: _ =>
      if empty (g_id first) then []
      else
        let visited := default ∅ (graphWalk (walk_depth index) index (g_id first) ∅) in
        (steps ≫= λ s, complain (negb (empty (g_id s)) && negb (bool_decide (g_id s ∈ visited))) (GUnreachable (g_id s))) ++
        complain
          (negb (existsb (λ id, match index !! id with Some s => String.eqb (g_type s) "END" | None => false end)
                   (elements visited))) GNoEnd
  end.

Definition check_top (def : GoDefinition) : list GoError :=
  (if empty (gd_id def) then [GIdRequired]
   else if Nat.ltb 256 (byte_length (gd_id def)) then [GIdTooLong (byte_length (gd_id def))]
   else complain (negb (go_id_match (gd_id def))) (GIdPattern (gd_id def))) ++
  complain (empty (gd_name def)) GNameRequired ++
  complain (Nat.eqb (length (gd_steps def)) 0) GStepsEmpty ++
  complain (gd_autoStart def && empty (gd_nextWorkflowId def)) GNextWorkflowRequired ++
  match gd_inputSchema def with Some s => validateSchemaShape None s | None => [] end.

Definition Validate (def : GoDefinition) : list GoError :=
  let top := check_top def in
  if (Nat.ltb 0 (length top) && Nat.eqb (length (gd_steps def)) 0)%bool then top
  else
    let '(index, dups) := step_index 0 (gd_steps def) ∅ in
    top ++ dups ++ (gd_steps def ≫= check_step index) ++ check_reachability index (gd_steps def).

(** The verdict of [validate-fixture], and of an upload. *)
Definition go_accepts (j : json) : GoResult bool :=
  def <- go_parse j; GoOk match Validate def with [] => true | _ :: _ => false end.

(** * What the engine says of the definitions the editor accepts

    The Go structs of a definition the editor sends, and the errors the
    engine's validator finds in one that is well formed. *)

(** ** Decoding what the editor sends *)

Lemma fmap_inj {A B} (f : A → B) (l : list A) a b : NoDup (f <$> l) → a ∈ l → b ∈ l → f a = f b → a = b.
Proof.
  intros Hn [i Ha]%list_elem_of_lookup [j Hb]%list_elem_of_lookup Hf.
  assert (i = j) as ->; [|congruence]. eapply (NoDup_lookup _ _ _ (f a) Hn); rewrite list_lookup_fmap; [by rewrite Ha|]. rewrite Hb. simpl. by rewrite Hf.
Qed.

(** The members of an object are fields, by their exact names. *)
Definition fields_of (fields : list string) (o : obj json) : Prop :=
  NoDup (fold_name <$> fields) ∧ NoDup (obj_keys o) ∧ ∀ k, k ∈ obj_keys o → k ∈ fields.

Definition fields_ofb (fields : list string) (keys : list string) : bool :=
  bool_decide (NoDup (fold_name <$> fields)) && bool_decide (NoDup keys) && forallb (λ k, includes fields k) keys.

Lemma fields_of_true fields o : fields_ofb fields (obj_keys o) = true → fields_of fields o.
Proof.
  unfold fields_ofb. intros Hb. bool_hyps. split_and!; try done. intros k Hk.
  match goal with H : forallb _ _ = true |- _ => rewrite forallb_forall in H; apply list_elem_of_In, H in Hk end.
  by apply includes_true.
Qed.

Lemma go_field_get fields o name : fields_of fields o → name ∈ fields → go_field o name = obj_get o name.
Proof.
  intros (Hf & _ & Hk) Hn. unfold go_field. induction o as [|[k v] o IH]; [done|]. simpl.
  destruct (String.eqb_spec name k) as [->|Hne]; [by rewrite String.eqb_refl|].
  destruct (String.eqb_spec (fold_name k) (fold_name name)) as [He|_].
  - exfalso. apply Hne. symmetry. apply (fmap_inj fold_name fields); [done| |done|done]. apply Hk. set_solver.
  - apply IH. intros k' Hk'. apply Hk. set_solver.
Qed.

Lemma go_struct_ok fields o : fields_of fields o → go_struct fields o = GoOk tt.
Proof.
  intros (Hf & Hn & Hk). unfold go_struct. rewrite bool_decide_eq_true_2; simpl.
  - replace (forallb _ _) with true; [done|]. symmetry. apply forallb_forall. intros k (k' & -> & Hk')%list_elem_of_In%list_elem_of_fmap.
    apply includes_true, list_elem_of_fmap_2. auto.
  - apply NoDup_fmap_2_strong; [|done]. intros a b Ha Hb. apply (fmap_inj fold_name fields); auto.
Qed.

Lemma go_object_ok {A} (zero : A) fields f o :
  fields_of fields o → go_object zero fields f (JObj o) = f o.
Proof. intros Ho. simpl. by rewrite go_struct_ok. Qed.

Lemma go_member_get {A} (f : json → GoResult A) zero fields o name :
  fields_of fields o → name ∈ fields →
  go_member f zero o name = match obj_get o name with Some j => f j | None => GoOk zero end.
Proof. intros Ho Hn. unfold go_member. by rewrite (go_field_get fields). Qed.

Lemma go_mapM_ok {A B C} (f : A → GoResult B) (g : C → A) (h : C → B) (l : list C) :
  (∀ x, x ∈ l → f (g x) = GoOk (h x)) → go_mapM f (g <$> l) = GoOk (h <$> l).
Proof.
  induction l as [|x l IH]; intros Hl; csimpl; [done|]. rewrite Hl by set_solver. simpl.
  rewrite IH by set_solver. done.
Qed.

Lemma go_mapM_id {A} (f : json → GoResult A) (g : A → json) (o : obj A) :
  (∀ x, f (g x) = GoOk x) → go_map f (record_json g o) = GoOk o.
Proof.
  intros Hf. simpl. rewrite (go_mapM_ok _ (λ p, (p.1, g p.2)) (λ p, p)).
  - by rewrite list_fmap_id.
  - intros [k v] _. simpl. by rewrite Hf.
Qed.

(** *** The Go structs *)

Definition go_of_event (e : BoundaryEvent) : GoEvent :=
  mkGoEvent (be_type e) (be_duration e) (be_interrupting e) (be_targetStepId e).

Definition go_of_rule (r : DecisionTableRule) : GoRule := mkGoRule (r_when r) (r_outputs r).

Definition ostr (o : option string) : string := default EmptyString o.

Definition go_of_step (s : Step) : GoStep :=
  let c := step_common s in
  let mk next par join cond trans table hit job delegate retry events :=
    mkGoStep (sc_id c) (sc_name c) (step_type s) (ostr (sc_description c)) next par join cond trans table hit job delegate
      retry events None in
  let events b := go_of_event <$> events_of b in
  match s with
  | ServiceTaskStep _ n j d r b =>
      mk (ostr n) [] EmptyString None [] None EmptyString (ostr j) (ostr d) (default 0%Z (written_int <$> r)) (events b)
  | UserTaskStep _ n j b => mk (ostr n) [] EmptyString None [] None EmptyString (ostr j) EmptyString 0%Z (events b)
  | DecisionStep _ m => mk EmptyString [] EmptyString (Some m) [] None EmptyString EmptyString EmptyString 0%Z []
  | DecisionTableStep _ h n t =>
      mk n [] EmptyString None [] (Some (go_of_rule <$> dt_rules t)) (ostr h) EmptyString EmptyString 0%Z []
  | TransformationStep _ n t => mk n [] EmptyString None t None EmptyString EmptyString EmptyString 0%Z []
  | WaitStep _ n b => mk n [] EmptyString None [] None EmptyString EmptyString EmptyString 0%Z (events b)
  | ParallelGatewayStep _ p j => mk EmptyString p j None [] None EmptyString EmptyString EmptyString 0%Z []
  | JoinGatewayStep _ n => mk n [] EmptyString None [] None EmptyString EmptyString EmptyString 0%Z []
  | EndStep _ | UnknownTypeStep _ _ => mk EmptyString [] EmptyString None [] None EmptyString EmptyString EmptyString 0%Z []
  end.

Definition go_of_def (d : WorkflowDefinition) : GoDefinition :=
  mkGoDefinition (wd_id d) (default 0%Z (written_int <$> wd_version d)) (wd_name d) (ostr (wd_description d))
    (default false (wd_autoStartNextWorkflow d)) (ostr (wd_nextWorkflowId d)) (go_of_step <$> wd_steps d)
    (default [] (wd_metadata d)) None.

(** *** Definitions without undeclared members *)

Definition none {V} (o : obj V) : bool := match o with [] => true | _ => false end.

Definition step_declared (s : Step) : bool :=
  none (step_extra s) && forallb (λ e, none (be_extra e)) (boundary_of s) &&
  match s with
  | DecisionTableStep _ _ _ t => none (dt_extra t) && forallb (λ r, none (r_extra r)) (dt_rules t)
  | _ => true
  end.

Definition declared_only (d : WorkflowDefinition) : bool := none (wd_extra d) && forallb step_declared (wd_steps d).

(** The numbers that become a Go [int]. *)
Definition step_int_ok (s : Step) : bool :=
  match s with ServiceTaskStep _ _ _ _ (Some r) _ => fits_int64 r | _ => true end.

Definition ints_ok (d : WorkflowDefinition) : bool :=
  match wd_version d with Some v => fits_int64 v | None => true end && forallb step_int_ok (wd_steps d).

Lemma none_true {V} (o : obj V) : none o = true → o = [].
Proof. by destruct o. Qed.

Lemma go_event_json e : none (be_extra e) = true → go_event (event_json e) = GoOk (go_of_event e).
Proof.
  intros He%none_true. unfold go_event, event_json. rewrite He, app_nil_r, go_object_ok by (apply fields_of_true; reflexivity).
  reflexivity.
Qed.

Lemma go_events_json l :
  forallb (λ e, none (be_extra e)) l = true → go_slice go_event (events_json l) = GoOk (go_of_event <$> l).
Proof.
  intros Hl. simpl. apply go_mapM_ok. intros e He. apply go_event_json. rewrite forallb_forall in Hl.
  by apply Hl, list_elem_of_In.
Qed.

Lemma go_rule_json r : none (r_extra r) = true → go_rule (rule_json r) = GoOk (go_of_rule r).
Proof.
  intros Hr%none_true. unfold go_rule, rule_json. rewrite Hr, app_nil_r.
  set (o := [_; _] : obj json). assert (fields_of ["when"; "outputs"] o) as Ho by (apply fields_of_true; reflexivity).
  rewrite go_object_ok by done. rewrite !(go_member_get _ _ ["when"; "outputs"] o) by (done || set_solver).
  assert (obj_get o "when" = Some (record_json JStr (r_when r))) as -> by reflexivity.
  assert (obj_get o "outputs" = Some (record_json id (r_outputs r))) as -> by reflexivity.
  rewrite (go_mapM_id go_string JStr) by done. rewrite (go_mapM_id go_raw id) by done. done.
Qed.

Lemma go_table_json t :
  none (dt_extra t) = true → forallb (λ r, none (r_extra r)) (dt_rules t) = true →
  go_table (table_json t) = GoOk (go_of_rule <$> dt_rules t).
Proof.
  intros Ht%none_true Hr. unfold go_table, table_json. rewrite Ht, app_nil_r, go_object_ok by (apply fields_of_true; reflexivity).
  rewrite (go_member_get _ _ ["rules"]) by (set_solver || (apply fields_of_true; reflexivity)). simpl.
  apply go_mapM_ok. intros r Hin. apply go_rule_json. rewrite forallb_forall in Hr. by apply Hr, list_elem_of_In.
Qed.

(** The members of a step without undeclared ones. *)
Definition step_member (s : Step) (k : string) : option json :=
  if String.eqb k "id" then Some (JStr (sc_id (step_common s)))
  else if String.eqb k "name" then Some (JStr (sc_name (step_common s)))
  else if String.eqb k "description" then JStr <$> sc_description (step_common s)
  else if String.eqb k "type" then Some (JStr (step_type s))
  else match s with
       | ServiceTaskStep _ n jt dc rc b =>
           if String.eqb k "nextStep" then JStr <$> n else if String.eqb k "jobType" then JStr <$> jt
           else if String.eqb k "delegateClass" then JStr <$> dc else if String.eqb k "retryCount" then JNum <$> rc
           else if String.eqb k "boundaryEvents" then events_json <$> b else None
       | UserTaskStep _ n jt b =>
           if String.eqb k "nextStep" then JStr <$> n else if String.eqb k "jobType" then JStr <$> jt
           else if String.eqb k "boundaryEvents" then events_json <$> b else None
       | DecisionStep _ m => if String.eqb k "conditionalNextSteps" then Some (record_json JStr m) else None
       | DecisionTableStep _ h n t =>
           if String.eqb k "hitPolicy" then JStr <$> h else if String.eqb k "nextStep" then Some (JStr n)
           else if String.eqb k "decisionTable" then Some (table_json t) else None
       | TransformationStep _ n t =>
           if String.eqb k "nextStep" then Some (JStr n) else if String.eqb k "transformations" then Some (record_json id t) else None
       | WaitStep _ n b =>
           if String.eqb k "nextStep" then Some (JStr n) else if String.eqb k "boundaryEvents" then events_json <$> b else None
       | ParallelGatewayStep _ p j =>
           if String.eqb k "parallelNextSteps" then Some (JArr (JStr <$> p))
           else if String.eqb k "joinStep" then Some (JStr j) else None
       | JoinGatewayStep _ n => if String.eqb k "nextStep" then Some (JStr n) else None
       | EndStep _ | UnknownTypeStep _ _ => None
       end.

Lemma step_get s k : none (step_extra s) = true → obj_get (step_obj s) k = step_member s k.
Proof.
  intros Hx%none_true. unfold step_obj, step_member, common_obj. rewrite Hx, app_nil_r.
  rewrite obj_get_app, !obj_get_app, obj_get_ofield. cbn [obj_get].
  destruct (String.eqb_spec k "id") as [->|]; [done|]. destruct (String.eqb_spec k "name") as [->|]; [done|].
  destruct (String.eqb_spec k "description") as [->|].
  { destruct (sc_description (step_common s)); [done|]. simpl. destruct s; simpl; rewrite ?obj_get_app, ?obj_get_ofield; done. }
  destruct (String.eqb_spec k "type") as [->|]; [done|].
  destruct s; rewrite ?obj_get_app, ?obj_get_ofield; cbn [obj_get]; try done;
    repeat match goal with
    | |- context [String.eqb k ?c] => destruct (String.eqb_spec k c) as [->|]; [cbn; by repeat case_match|]
    end; done.
Qed.

Lemma step_fields s : none (step_extra s) = true → fields_of go_step_fields (step_obj s).
Proof.
  intros Hx%none_true. apply fields_of_true. unfold step_obj, common_obj. rewrite Hx, app_nil_r. destruct (sc_description (step_common s));
  destruct s as [? n j d r b|? n j b|?|? h|?|? ? b|?|?|?|?]; try (vm_compute; reflexivity).
  all: try (destruct b; try destruct n, j; try destruct d; try destruct r; vm_compute; reflexivity).
  all: destruct h; vm_compute; reflexivity.
Qed.

Lemma go_step_member {A} (f : json → GoResult A) zero s name :
  none (step_extra s) = true → includes go_step_fields name = true →
  go_member f zero (step_obj s) name = match step_member s name with Some j => f j | None => GoOk zero end.
Proof.
  intros Hx Hn. rewrite (go_member_get f zero go_step_fields) by (by apply step_fields || by apply includes_true).
  by rewrite step_get.
Qed.

(** A string member that may be absent. *)
Lemma go_ostring (o : option string) :
  match JStr <$> o with Some j => go_string j | None => GoOk EmptyString end = GoOk (ostr o).
Proof. by destruct o. Qed.

Lemma go_oevents (b : option (list BoundaryEvent)) :
  forallb (λ e, none (be_extra e)) (events_of b) = true →
  match events_json <$> b with Some j => go_slice go_event j | None => GoOk [] end = GoOk (go_of_event <$> events_of b).
Proof. destruct b as [l|]; [|done]. apply go_events_json. Qed.

Lemma go_oint (r : option jsnum) :
  match JNum <$> r with Some j => go_int j | None => GoOk 0%Z end =
  if match r with Some n => fits_int64 n | None => true end then GoOk (default 0%Z (written_int <$> r)) else GoErr.
Proof. by destruct r. Qed.

Lemma go_strings l : go_mapM go_string (JStr <$> l) = GoOk l.
Proof. rewrite (go_mapM_ok go_string JStr id) by done. by rewrite list_fmap_id. Qed.

Lemma go_branches_json m : go_pointer go_branches (record_json JStr m) = GoOk (Some m).
Proof.
  change (go_pointer go_branches (record_json JStr m)) with (v <- go_map go_string (record_json JStr m); GoOk (Some v)).
  by rewrite (go_mapM_id go_string JStr).
Qed.

Lemma go_table_pointer t :
  none (dt_extra t) = true → forallb (λ r, none (r_extra r)) (dt_rules t) = true →
  go_pointer go_table (table_json t) = GoOk (Some (go_of_rule <$> dt_rules t)).
Proof. intros H1 H2. change (go_pointer go_table (table_json t)) with (v <- go_table (table_json t); GoOk (Some v)).
  by rewrite go_table_json. Qed.

Ltac go_members :=
  repeat (rewrite go_step_member; [|done|reflexivity]); unfold step_member;
  lazy beta iota zeta delta [String.eqb Ascii.eqb Bool.eqb]; cbn [step_common sc_id].

Lemma go_step_json s :
  step_declared s = true →
  go_step (step_json s) = if step_int_ok s then GoOk (go_of_step s) else GoErr.
Proof.
  unfold step_declared. intros Hd. apply andb_true_iff in Hd as [[Hx Hb]%andb_true_iff Ht].
  unfold go_step, step_json. rewrite go_object_ok by (by apply step_fields). go_members.
  cbn [go_string go_bind]. rewrite go_ostring. cbn [go_bind].
  destruct s as [c n j d r b|c n j b|c m|c h n t|c n t|c n b|c p j|c n|c|ty c]; cbn [boundary_of] in Hb.
  - rewrite !go_ostring, go_oint, (go_oevents b) by done. cbn [go_bind]. unfold step_int_ok. by destruct r as [r|]; [destruct (fits_int64 r)|].
  - rewrite !go_ostring, (go_oevents b) by done. done.
  - rewrite go_branches_json. done.
  - apply andb_true_iff in Ht as [Ht1 Ht2]. rewrite go_ostring, go_table_pointer by done. done.
  - cbn [go_bind]. rewrite (go_mapM_id go_raw id) by done. done.
  - rewrite (go_oevents b) by done. done.
  - cbn [go_slice]. rewrite go_strings. done.
  - done.
  - done.
  - done.
Qed.

Lemma go_steps_json l :
  forallb step_declared l = true →
  go_slice go_step (JArr (step_json <$> l)) = if forallb step_int_ok l then GoOk (go_of_step <$> l) else GoErr.
Proof.
  cbn [go_slice]. induction l as [|s l IH]; intros Hl; [done|]. cbn [forallb] in Hl. apply andb_true_iff in Hl as [Hs Hl].
  rewrite !fmap_cons. cbn [go_mapM forallb]. rewrite (go_step_json s Hs). destruct (step_int_ok s); cbn [go_bind andb]; [|done].
  rewrite (IH Hl). by destruct (forallb step_int_ok l).
Qed.

(** The members of a definition without undeclared ones. *)
Definition def_member (d : WorkflowDefinition) (k : string) : option json :=
  if String.eqb k "id" then Some (JStr (wd_id d))
  else if String.eqb k "version" then JNum <$> wd_version d
  else if String.eqb k "name" then Some (JStr (wd_name d))
  else if String.eqb k "description" then JStr <$> wd_description d
  else if String.eqb k "autoStartNextWorkflow" then JBool <$> wd_autoStartNextWorkflow d
  else if String.eqb k "nextWorkflowId" then JStr <$> wd_nextWorkflowId d
  else if String.eqb k "steps" then Some (JArr (step_json <$> wd_steps d))
  else if String.eqb k "metadata" then record_json id <$> wd_metadata d
  else None.

Lemma go_def_get d k : none (wd_extra d) = true → obj_get (def_obj d) k = def_member d k.
Proof.
  intros Hx%none_true. unfold def_obj, def_member. rewrite Hx, app_nil_r, !obj_get_app, !obj_get_ofield. cbn [obj_get].
  repeat match goal with
  | |- context [String.eqb k ?c] => destruct (String.eqb_spec k c) as [->|]; [cbn; by repeat case_match|]
  end. done.
Qed.

Lemma def_fields d : none (wd_extra d) = true → fields_of go_def_fields (def_obj d).
Proof.
  intros Hx%none_true. apply fields_of_true. unfold def_obj. rewrite Hx, app_nil_r.
  destruct (wd_version d), (wd_description d), (wd_autoStartNextWorkflow d), (wd_nextWorkflowId d), (wd_metadata d);
    vm_compute; reflexivity.
Qed.

Lemma go_def_member {A} (f : json → GoResult A) zero d name :
  none (wd_extra d) = true → includes go_def_fields name = true →
  go_member f zero (def_obj d) name = match def_member d name with Some j => f j | None => GoOk zero end.
Proof.
  intros Hx Hn. rewrite (go_member_get f zero go_def_fields) by (by apply def_fields || by apply includes_true).
  by rewrite go_def_get.
Qed.

(** A definition the editor sends is decoded into its Go structs, when its
    numbers are machine integers. *)
Lemma go_parse_json d :
  declared_only d = true → go_parse (def_json d) = if ints_ok d then GoOk (go_of_def d) else GoErr.
Proof.
  unfold declared_only. intros [Hx Hs]%andb_true_iff. unfold go_parse, def_json. rewrite go_object_ok by (by apply def_fields).
  repeat (rewrite go_def_member; [|done|reflexivity]). unfold def_member.
  lazy beta iota zeta delta [String.eqb Ascii.eqb Bool.eqb]. cbn [go_string go_bind].
  rewrite go_oint, go_steps_json, !go_ostring by done. unfold ints_ok.
  assert (match JBool <$> wd_autoStartNextWorkflow d with Some j => go_bool j | None => GoOk false end =
    GoOk (default false (wd_autoStartNextWorkflow d))) as -> by (by destruct (wd_autoStartNextWorkflow d)).
  assert (match record_json id <$> wd_metadata d with Some j => go_map go_raw j | None => GoOk [] end =
    GoOk (default [] (wd_metadata d))) as ->.
  { destruct (wd_metadata d) as [m|]; [|done]. cbn [fmap option_fmap option_map default]. by rewrite (go_mapM_id go_raw id). }
  unfold go_of_def. destruct (forallb step_int_ok (wd_steps d)), (wd_version d) as [v|]; try destruct (fits_int64 v);
    reflexivity.
Qed.

(** ** The walk of the engine *)

Section go_walk.
Context (index : StepIndex).

(** [v] closes what the walk added to [visited] under the targets. *)
Definition walked (visited v : gset string) : Prop :=
  visited ⊆ v ∧ ∀ x s t, x ∈ v → x ∉ visited → index !! x = Some s → t ∈ go_targets s → t ∈ v.

Lemma walked_refl v : walked v v.
Proof. split; [done|]. intros x s t Hx Hn. done. Qed.

Lemma walked_trans v1 v2 v3 : walked v1 v2 → walked v2 v3 → walked v1 v3.
Proof.
  intros [H1 H2] [H3 H4]. split; [set_solver|]. intros x s t Hx Hn Hs Ht.
  destruct (decide (x ∈ v2)) as [Hin|Hin]; [|by eapply H4]. apply H3. by eapply H2.
Qed.

Lemma walk_list fuel :
  (∀ id v, size (dom index ∖ v) < fuel → ∃ v', graphWalk fuel index id v = Some v' ∧ walked v v' ∧ id ∈ v') →
  ∀ ts v, size (dom index ∖ v) < fuel →
    ∃ v', fold_left (λ acc t, v ← acc; graphWalk fuel index t v) ts (Some v) = Some v' ∧ walked v v' ∧ ∀ t, t ∈ ts → t ∈ v'.
Proof.
  intros IH ts. induction ts as [|t ts IHts]; intros v Hv; cbn [fold_left].
  { exists v. split_and!; [done|apply walked_refl|]. intros t Ht. by apply not_elem_of_nil in Ht. }
  cbn [mbind option_bind]. destruct (IH t v Hv) as (v1 & -> & Hw1 & Ht).
  destruct (IHts v1) as (v2 & -> & Hw2 & Hts).
  { eapply Nat.le_lt_trans; [|exact Hv]. apply subseteq_size. destruct Hw1 as [? _]. set_solver. }
  exists v2. split_and!; [done|by eapply walked_trans|]. intros t' [->|Ht']%elem_of_cons; [by apply Hw2|by apply Hts].
Qed.

(** The recursion ends: the ids not yet visited bound its depth; what it
    visits contains the start and every target of what it entered. *)
Lemma graphWalk_spec fuel id v :
  size (dom index ∖ v) < fuel → ∃ v', graphWalk fuel index id v = Some v' ∧ walked v v' ∧ id ∈ v'.
Proof.
  revert id v. induction fuel as [|fuel IH]; intros id v Hv; [lia|]. cbn [graphWalk].
  case_bool_decide as Hid; [by exists v; split_and!; [|apply walked_refl|]|].
  destruct (index !! id) as [s|] eqn:Es.
  - destruct (walk_list fuel IH (go_targets s) ({[id]} ∪ v)) as (v' & -> & [H1 H2] & Ht).
    { assert (dom index ∖ ({[id]} ∪ v) ⊂ dom index ∖ v) as Hlt%subset_size; [|lia].
      assert (id ∈ dom index) by (apply elem_of_dom; eauto). set_solver. }
    exists v'. split_and!; [done| |set_solver]. split; [set_solver|]. intros x s' t Hx Hn Hs' Htt.
    destruct (decide (x = id)) as [->|Hne]; [simplify_eq; auto|]. eapply H2; [done|set_solver|done|done].
  - eexists. split_and!; [done| |set_solver]. split; [set_solver|]. intros x s' t Hx Hn Hs'.
    assert (x = id) as -> by set_solver. congruence.
Qed.
End go_walk.

(** ** The index of the steps *)

Lemma step_index_spec i steps index :
  NoDup (g_id <$> steps) → EmptyString ∉ g_id <$> steps → (∀ s, s ∈ steps → index !! g_id s = None) →
  (step_index i steps index).2 = [] ∧
  ∀ x s, (step_index i steps index).1 !! x = Some s ↔ index !! x = Some s ∨ s ∈ steps ∧ g_id s = x.
Proof.
  revert i index. induction steps as [|s0 steps IH]; intros i index Hn He Hi; cbn [step_index].
  { split; [done|]. intros x s. set_solver. }
  rewrite fmap_cons in *. apply NoDup_cons in Hn as [Hs0 Hn]. apply not_elem_of_cons in He as [He0 He].
  unfold empty. destruct (String.eqb_spec (g_id s0) EmptyString) as [|_]; [congruence|].
  destruct (IH (S i) (<[g_id s0 := s0]> index) Hn He) as [H1 H2].
  { intros s Hs. rewrite lookup_insert_ne; [apply Hi; set_solver|]. intros Heq. apply Hs0. rewrite Heq. by apply list_elem_of_fmap_2. }
  destruct (step_index (S i) steps (<[g_id s0 := s0]> index)) as [index' errs]. cbn [fst snd] in *. subst errs. split.
  - rewrite (Hi s0) by set_solver. rewrite bool_decide_eq_false_2; [done|]. by intros [? ?].
  - intros x s. rewrite H2. destruct (decide (x = g_id s0)) as [->|Hne].
    + rewrite lookup_insert_eq, (Hi s0) by set_solver. split; [|].
      * intros [[= ->]|[Hs Hx]]; [right; split; [set_solver|done]|]. right. split; [set_solver|done].
      * intros [?|[[->|Hs]%elem_of_cons Hx]]; [done|by left|]. right. done.
    + rewrite lookup_insert_ne by done. rewrite elem_of_cons. split; [tauto|]. intros [?|[[->|?] ?]]; [by left|congruence|by right].
Qed.

(** ** The errors of a well-formed definition *)

(** A service task without a job type. *)
Definition missing_job (s : Step) : bool :=
  match s with ServiceTaskStep _ _ j _ _ _ => negb (truthy_ostr j) | _ => false end.

Lemma g_id_step s : g_id (go_of_step s) = step_id s.
Proof. by destruct s. Qed.

Lemma g_ids d : g_id <$> (go_of_step <$> wd_steps d) = step_ids d.
Proof. unfold step_ids. rewrite <- list_fmap_compose. apply list_fmap_ext. intros i s _. apply g_id_step. Qed.

Lemma blank_nonempty s : blank s = false → empty s = false.
Proof. destruct s; [done|]. done. Qed.

Section well_formed_steps.
Context (d : WorkflowDefinition) (Hd : well_formed d).

Definition index_of : StepIndex := (step_index 0 (gd_steps (go_of_def d)) ∅).1.

Lemma ids_nonempty : EmptyString ∉ step_ids d.
Proof. intros H. by apply (wf_ids d Hd) in H. Qed.

Lemma index_of_spec :
  (step_index 0 (gd_steps (go_of_def d)) ∅).2 = [] ∧
  ∀ x g, index_of !! x = Some g ↔ ∃ s, s ∈ wd_steps d ∧ g = go_of_step s ∧ step_id s = x.
Proof.
  unfold index_of. cbn [gd_steps go_of_def].
  destruct (step_index_spec 0 (go_of_step <$> wd_steps d) ∅) as [H1 H2].
  - rewrite g_ids. apply (wf_unique d Hd).
  - rewrite g_ids. apply ids_nonempty.
  - intros s _. apply lookup_empty.
  - split; [done|]. intros x g. rewrite H2, lookup_empty. split.
    + intros [?|[(s & -> & Hs)%list_elem_of_fmap Hx]]; [done|]. rewrite g_id_step in Hx. eauto.
    + intros (s & Hs & -> & Hx). right. split; [by apply list_elem_of_fmap_2|]. by rewrite g_id_step.
Qed.

Lemma ref_resolves id field r : r ∈ step_ids d → checkRef index_of id field r = [].
Proof.
  intros (s & -> & Hs)%list_elem_of_fmap. unfold checkRef. rewrite bool_decide_eq_true_2; [done|].
  exists (go_of_step s). apply index_of_spec. eauto.
Qed.

Lemma required_resolves id field r e : r ∈ step_ids d → check_required index_of id field r e = [].
Proof.
  intros Hr. unfold check_required, empty. destruct (String.eqb_spec r EmptyString) as [->|]; [by apply ids_nonempty in Hr|].
  by apply ref_resolves.
Qed.

Lemma refs_resolve id field l : (∀ r, r ∈ l → r ∈ step_ids d) → (l ≫= checkRef index_of id field) = [].
Proof.
  induction l as [|r l IH]; intros Hl; csimpl; [done|]. rewrite ref_resolves by set_solver. rewrite IH by set_solver. done.
Qed.

(** The one target of a step that must have one. *)
Lemma next_resolves s n : s ∈ wd_steps d → next_refs s = [n] → optional_next s = false → n ∈ step_ids d.
Proof. intros Hs Hn Ho. destruct (wf_refs d Hd s n Hs) as [?|[_ ?]]; [rewrite Hn; set_solver|done|congruence]. Qed.

(** The optional target of a task. *)
Lemma task_next s id n :
  s ∈ wd_steps d → next_refs s = option_list n →
  (if empty (ostr n) then [] else checkRef index_of id "nextStep" (ostr n)) = [].
Proof.
  intros Hs Hn. unfold empty. destruct (String.eqb_spec (ostr n) EmptyString); [done|]. apply ref_resolves.
  destruct n as [n|]; [|done]. destruct (wf_refs d Hd s n Hs) as [?|[? _]]; [rewrite Hn; set_solver|done|done].
Qed.

Lemma events_resolve s : s ∈ wd_steps d → concat (imap (check_event index_of (step_id s)) (go_of_event <$> boundary_of s)) = [].
Proof.
  intros Hs. assert (∀ e, e ∈ boundary_of s → event_ok d e) as He by (intros; by eapply wf_events). revert He.
  generalize (step_id s) as id. generalize 0 as k. generalize (boundary_of s) as l. clear s Hs.
  assert (∀ l f, (∀ i e, e ∈ l → event_ok d e → f i (go_of_event e) = []) → (∀ e, e ∈ l → event_ok d e) →
    concat (imap f (go_of_event <$> l)) = ([] : list GoError)) as Hc.
  { induction l as [|e l IH]; intros f Hf Hl; csimpl; [done|]. rewrite Hf by (set_solver || (apply Hl; set_solver)). simpl.
    apply IH; [|set_solver]. intros i e' Hin. apply (Hf (S i)). set_solver. }
  intros l _ id He. apply Hc; [|done]. intros i e _ (Ht & Hdur & Htg). unfold check_event. cbn [go_of_event ge_type ge_duration ge_target].
  rewrite Ht. rewrite required_resolves by done. assert (empty (be_duration e) = false) as ->; [|done].
  unfold empty. apply String.eqb_neq. intros Hz. apply ISO_DURATION_lang in Hdur. by rewrite Hz in Hdur.
Qed.

(** What the engine finds in a step of a well-formed definition. *)
Lemma check_step_ok s :
  s ∈ wd_steps d → step_wf s = true → step_declared s = true →
  check_step index_of (go_of_step s) = complain (missing_job s) (GJobType (step_id s)).
Proof.
  intros Hs Hwf Hdecl.
  assert (empty (step_id s) = false) as Hid.
  { apply blank_nonempty, (wf_ids d Hd), list_elem_of_fmap_2. done. }
  assert (check_by_type index_of (go_of_step s) = complain (missing_job s) (GJobType (step_id s))) as Ht.
  { pose proof (wf_shape d Hd s Hs) as Hsh. unfold check_by_type. rewrite g_id_step.
    destruct s as [c n j dc r b|c n j b|c m|c h n t|c n tr|c n b|c p j|c n|c|ty c]; cbn [go_of_step g_type g_nextStep step_type step_type_str].
    - rewrite (task_next _ _ n Hs eq_refl), app_nil_r. cbn [g_jobType missing_job]. by destruct j as [[|]|].
    - by rewrite (task_next _ _ n Hs eq_refl).
    - cbn [branches_len g_conditionalNextSteps]. assert (∀ r, r ∈ obj_values m → r ∈ step_ids d) as Hr.
      { intros r Hr. destruct (wf_refs d Hd _ r Hs Hr) as [?|[_ ?]]; done. }
      rewrite (refs_resolve _ _ _ Hr). by destruct m.
    - destruct Hsh as (H1 & _ & H3 & _).
      match goal with |- ?l = _ => change l with (validateDecisionTable index_of (go_of_step (DecisionTableStep c h n t))) end.
      unfold validateDecisionTable, branches_len, go_of_step.
      cbn [g_decisionTable g_id g_nextStep g_hitPolicy g_conditionalNextSteps g_transformations g_parallelNextSteps g_joinStep
        g_jobType g_delegateClass g_retryCount g_boundaryEvents].
      rewrite (required_resolves _ _ n) by (by eapply next_resolves). rewrite length_fmap.
      assert (complain (negb (empty (ostr h)) && negb (includes validHitPolicies (ostr h))) (GHitPolicy (sc_id c) (ostr h)) = []) as E.
      { destruct h as [h|]; [|done]. assert (includes validHitPolicies h = true) as Hh by (by apply includes_true, H3).
        change (ostr (Some h)) with h. by rewrite Hh, andb_false_r. }
      cbn [step_common] in *. rewrite E. by destruct (dt_rules t).
    - destruct Hsh as [_ H2]. rewrite (required_resolves _ _ n) by (by eapply next_resolves). cbn [g_transformations]. by destruct tr.
    - by rewrite (required_resolves _ _ n) by (by eapply next_resolves).
    - destruct Hsh as [H1 _]. assert (∀ r, r ∈ p ++ [j] → r ∈ step_ids d) as Hr.
      { intros r Hr. destruct (wf_refs d Hd _ r Hs Hr) as [?|[_ ?]]; done. }
      cbn [g_parallelNextSteps g_joinStep]. rewrite (required_resolves _ _ j), (refs_resolve _ _ p) by (intros; apply Hr; set_solver).
      assert (Nat.ltb (length p) 2 = false) as -> by (apply Nat.ltb_ge; lia). done.
    - by rewrite (required_resolves _ _ n) by (by eapply next_resolves).
    - done.
    - pose proof (wf_types d Hd _ Hs) as Hk. unfold known_type in Hk. cbn [step_type] in Hk. simpl in Hwf. by rewrite Hk in Hwf. }
  unfold check_step. rewrite g_id_step, Hid, Ht.
  assert (empty (g_name (go_of_step s)) = false) as -> by (apply blank_nonempty; rewrite <- (wf_names d Hd s Hs); by destruct s).
  assert (g_type (go_of_step s) = step_type s) as -> by (by destruct s).
  assert (includes STEP_TYPES (step_type s) = true) as -> by apply (wf_types d Hd s Hs).
  assert (g_outputsSchema (go_of_step s) = None) as -> by (by destruct s).
  assert (g_boundaryEvents (go_of_step s) = go_of_event <$> boundary_of s) as -> by (by destruct s).
  rewrite events_resolve by done. rewrite !app_nil_r. cbn [negb complain app].
  assert ((negb (String.eqb (step_type s) "DECISION_TABLE") && bool_decide (is_Some (g_decisionTable (go_of_step s))))%bool = false) as ->;
    [|by rewrite app_nil_r].
  destruct s; try done; apply andb_false_r || (rewrite andb_false_iff; right; apply bool_decide_eq_false_2; by intros [? ?]).
Qed.

(** Everything the editor reaches the engine visits. *)
Lemma go_walk_complete first rest :
  wd_steps d = first :: rest →
  ∃ v, graphWalk (walk_depth index_of) index_of (step_id first) ∅ = Some v ∧ ∀ x, reachable d x → x ∈ v.
Proof.
  intros Hf. destruct (graphWalk_spec index_of (walk_depth index_of) (step_id first) ∅) as (v & Hv & [_ Hw] & Hin).
  { unfold walk_depth. rewrite difference_empty_L, size_dom. lia. }
  exists v. split; [done|]. intros x Hx. induction Hx as [s l Hs|x y _ IH (s & Hs & <- & Hy) Hne].
  { rewrite Hf in Hs. by simplify_eq. }
  eapply (Hw (step_id s) (go_of_step s)); [done|set_solver|apply index_of_spec; eauto|].
  unfold go_targets, exit_refs in *. apply elem_of_app in Hy as [Hy|(e & -> & He)%list_elem_of_fmap].
  - assert (∀ l, y ∈ (if empty y then [] else [y]) ++ l) as Hnext.
    { intros l. unfold empty. destruct (String.eqb_spec y EmptyString); [done|]. apply elem_of_app. left. by left. }
    destruct s as [c n j dc r b|c n j b|c m|c h n t|c n tr|c n b|c p j|c n|c|ty c]; cbn [flow_refs next_refs] in Hy;
      try (destruct n as [n|]; [|by apply not_elem_of_nil in Hy]; cbn [option_list] in Hy);
      try (apply list_elem_of_singleton in Hy; subst; apply Hnext); try (by apply not_elem_of_nil in Hy).
    + cbn [go_of_step g_nextStep g_conditionalNextSteps]. apply elem_of_app. right. apply elem_of_app. by left.
    + cbn [go_of_step g_nextStep g_conditionalNextSteps g_parallelNextSteps]. rewrite !elem_of_app. right. right. by left.
  - assert (g_boundaryEvents (go_of_step s) = go_of_event <$> boundary_of s) as -> by (by destruct s).
    rewrite !elem_of_app. right. right. right. right. rewrite <- list_fmap_compose. apply list_elem_of_fmap. by exists e.
Qed.

Lemma check_reachability_ok : check_reachability index_of (gd_steps (go_of_def d)) = [].
Proof.
  cbn [gd_steps go_of_def]. destruct (wd_steps d) as [|first rest] eqn:Hf; [done|].
  rewrite fmap_cons. cbn [check_reachability]. rewrite g_id_step.
  assert (step_id first ∈ step_ids d) as Hfirst by (unfold step_ids; rewrite Hf; set_solver).
  rewrite (blank_nonempty _ (wf_ids d Hd _ Hfirst)).
  destruct (go_walk_complete first rest Hf) as (v & -> & Hv). change (default ∅ (Some v)) with v. rewrite <- fmap_cons, <- Hf.
  assert (∀ l, (∀ s, s ∈ l → s ∈ wd_steps d) → ((go_of_step <$> l) ≫= λ s,
    complain (negb (empty (g_id s)) && negb (bool_decide (g_id s ∈ v))) (GUnreachable (g_id s))) = []) as Hl.
  { induction l as [|s l IH]; intros Hs; [done|]. rewrite fmap_cons. cbn [mbind list_bind]. rewrite g_id_step.
    rewrite (bool_decide_eq_true_2 (step_id s ∈ v)); [|apply Hv, (wf_reachable d Hd), list_elem_of_fmap_2, Hs; set_solver].
    rewrite andb_false_r. apply IH. set_solver. }
  rewrite (Hl _ (λ s H, H)). destruct (wf_end d Hd) as (s & Hs & Ht).
  replace (existsb _ _) with true; [done|]. symmetry. apply existsb_exists. exists (step_id s). split.
  - apply list_elem_of_In, elem_of_elements, Hv, (wf_reachable d Hd). by apply list_elem_of_fmap_2.
  - assert (index_of !! step_id s = Some (go_of_step s)) as -> by (apply index_of_spec; eauto).
    assert (g_type (go_of_step s) = step_type s) as -> by (by destruct s). by apply String.eqb_eq.
Qed.

Lemma byte_length_id id : ID_PATTERN id = true → byte_length id = String.length id.
Proof.
  unfold ID_PATTERN. intros [_ Hc]%andb_true_iff. induction id as [|c id IH]; [done|]. cbn [all_chars] in Hc.
  apply andb_true_iff in Hc as [Hc Hr]. cbn [byte_length String.length]. rewrite IH by done.
  assert (implb (is_id_char c) (Nat.ltb (Ascii.nat_of_ascii c) 128) = true) as Hb.
  { revert c Hc. clear. intros c _. revert c. apply ascii_forallb. vm_compute. reflexivity. }
  rewrite Hc in Hb. cbn [implb] in Hb. by rewrite Hb.
Qed.

Lemma go_id_match_id id : ID_PATTERN id = true → go_id_match id = true.
Proof.
  unfold ID_PATTERN, go_id_match. intros [-> Hc]%andb_true_iff. cbn [andb]. induction id as [|c id IH]; [done|].
  cbn [all_chars] in Hc. apply andb_true_iff in Hc as [Hc Hr]. cbn [list_ascii_of_string forallb]. rewrite IH by done.
  assert (implb (is_id_char c) (go_id_char c) = true) as Hb.
  { revert c Hc. clear. intros c _. revert c. apply ascii_forallb. vm_compute. reflexivity. }
  rewrite Hc in Hb. cbn [implb] in Hb. by rewrite Hb.
Qed.

Lemma check_top_ok : check_top (go_of_def d) = [].
Proof.
  unfold check_top. cbn [go_of_def gd_id gd_name gd_steps gd_autoStart gd_nextWorkflowId gd_inputSchema].
  destruct (wf_id d Hd) as [Hid Hlen]. rewrite byte_length_id, go_id_match_id by done.
  assert (empty (wd_id d) = false) as -> by (by destruct (wd_id d)).
  assert (Nat.ltb 256 (String.length (wd_id d)) = false) as -> by (by apply Nat.ltb_ge).
  rewrite (blank_nonempty _ (wf_name d Hd)), length_fmap.
  destruct (wd_steps d) as [|s l] eqn:Hs; [by apply (wf_nonempty d Hd) in Hs|]. cbn [length Nat.eqb complain app negb].
  destruct (wd_autoStartNextWorkflow d) as [[]|] eqn:Ha; [|done|done].
  destruct (proj1 (wf_chain d Hd) Ha) as (n & -> & Hn). change (ostr (Some n)) with n. by rewrite (blank_nonempty _ Hn).
Qed.

(** The only errors are service tasks without a job type. *)
Lemma validate_well_formed :
  def_wf d = true → declared_only d = true →
  Validate (go_of_def d) = wd_steps d ≫= λ s, complain (missing_job s) (GJobType (step_id s)).
Proof.
  intros Hwf [_ Hdecl]%andb_true_iff. unfold Validate. rewrite check_top_ok. cbn [length Nat.ltb andb app].
  pose proof (proj1 index_of_spec) as H2. unfold index_of in *. pose proof check_reachability_ok as H3. unfold index_of in H3.
  pose proof check_step_ok as H1. unfold index_of in H1.
  destruct (step_index 0 (gd_steps (go_of_def d)) ∅) as [index dups]. cbn [fst snd] in *. subst dups. rewrite H3, app_nil_r.
  cbn [app Nat.leb andb gd_steps go_of_def]. apply def_wf_Forall in Hwf. rewrite Forall_forall in Hwf. rewrite forallb_forall in Hdecl.
  assert (∀ l, (∀ s, s ∈ l → s ∈ wd_steps d) → ((go_of_step <$> l) ≫= check_step index) =
    (l ≫= λ s, complain (missing_job s) (GJobType (step_id s)))) as Hl; [|by apply Hl].
  induction l as [|s l IH]; intros Hs; [done|]. rewrite fmap_cons. cbn [mbind list_bind].
  assert (s ∈ wd_steps d) as Hin by (apply Hs; by left).
  rewrite (H1 s Hin (Hwf s Hin) (Hdecl s (proj1 (list_elem_of_In _ _) Hin))). f_equal. apply IH. intros s' Hs'. apply Hs. by right.
Qed.
End well_formed_steps.

(** ** What the engine has accepted

    Seen through the editor's reader: every step has one of the nine types. *)

Lemma go_bind_ok {A B} (r : GoResult A) (f : A → GoResult B) b : go_bind r f = GoOk b → ∃ a, r = GoOk a ∧ f a = GoOk b.
Proof. destruct r; simpl; naive_solver. Qed.

Ltac inv_go :=
  repeat match goal with
  | H : go_bind _ _ = GoOk _ |- _ => let a := fresh "a" in let Ha := fresh "Ha" in apply go_bind_ok in H as (a & Ha & H)
  end.

Lemma go_struct_NoDup fields o u : go_struct fields o = GoOk u → NoDup (fold_name <$> obj_keys o).
Proof. unfold go_struct. case_bool_decide; [done|]. by simpl. Qed.

(** The decoder finds a member under its exact name. *)
Lemma go_field_exact o name j :
  NoDup (fold_name <$> obj_keys o) → obj_get o name = Some j → go_field o name = Some j.
Proof.
  unfold go_field, obj_keys. induction o as [|[k v] o IH]; [done|]. cbn [obj_get List.find fst].
  rewrite fmap_cons. cbn [fmap list_fmap fst]. intros [Hk Hn]%NoDup_cons Hg.
  destruct (String.eqb_spec name k) as [->|Hne]; [simplify_eq; by rewrite String.eqb_refl|].
  destruct (String.eqb_spec (fold_name k) (fold_name name)) as [He|_]; [|by apply IH]. exfalso. apply Hk. rewrite He.
  apply obj_get_Some_elem in Hg. apply list_elem_of_fmap_2. apply (list_elem_of_fmap_2 fst) in Hg. done.
Qed.

Lemma go_step_type o s t : go_step (JObj o) = GoOk s → obj_get o "type" = Some (JStr t) → g_type s = t.
Proof.
  unfold go_step, go_object. intros Hs Ht. apply go_bind_ok in Hs as (u & Hu%go_struct_NoDup & Hs). inv_go.
  injection Hs as <-. cbn [g_type].
  match goal with H : go_member go_string EmptyString o "type" = GoOk _ |- _ => unfold go_member in H; rewrite (go_field_exact _ _ _ Hu Ht) in H end.
  simpl in *. congruence.
Qed.

Lemma go_parse_steps o def l :
  go_parse (JObj o) = GoOk def → obj_get o "steps" = Some (JArr l) → go_mapM go_step l = GoOk (gd_steps def).
Proof.
  unfold go_parse, go_object. intros Hp Hl. apply go_bind_ok in Hp as (u & Hu%go_struct_NoDup & Hp). inv_go.
  injection Hp as <-. cbn [gd_steps].
  match goal with H : go_member (go_slice go_step) [] o "steps" = GoOk _ |- _ => unfold go_member in H; rewrite (go_field_exact _ _ _ Hu Hl) in H end.
  done.
Qed.

Lemma go_mapM_elem {A B} (f : A → GoResult B) l bs a :
  go_mapM f l = GoOk bs → a ∈ l → ∃ b, f a = GoOk b ∧ b ∈ bs.
Proof.
  revert bs. induction l as [|x l IH]; intros bs Hm Ha; [set_solver|]. simpl in Hm. inv_go. injection Hm as <-.
  apply elem_of_cons in Ha as [->|Ha]; [eexists; split; [done|set_solver]|].
  destruct (IH _ ltac:(done) Ha) as (b & ? & ?). exists b. set_solver.
Qed.

Lemma complain_nil b e : complain b e = [] → b = false.
Proof. by destruct b. Qed.

Lemma step_index_ids i steps index :
  (step_index i steps index).2 = [] → Forall (λ s, empty (g_id s) = false) steps.
Proof.
  revert i index. induction steps as [|s l IH]; intros i index; [constructor|]. simpl. destruct (empty (g_id s)) eqn:E.
  - by destruct (step_index (S i) l index).
  - pose proof (IH (S i) (<[g_id s := s]> index)) as IHl. destruct (step_index (S i) l (<[g_id s := s]> index)) as [ix errs].
    simpl in *. intros [_ ->]%app_eq_nil. constructor; [done|by apply IHl].
Qed.

Lemma validated_types def : Validate def = [] → Forall (λ s, includes STEP_TYPES (g_type s) = true) (gd_steps def).
Proof.
  unfold Validate. destruct (Nat.ltb 0 (length (check_top def)) && _)%bool eqn:E.
  { intros Ht. rewrite Ht in E. done. }
  pose proof (step_index_ids 0 (gd_steps def) ∅) as Hi. destruct (step_index 0 (gd_steps def) ∅) as [index dups]. simpl in Hi.
  intros [_ [Hd [Hs _]%app_eq_nil]%app_eq_nil]%app_eq_nil. specialize (Hi Hd). clear Hd E.
  induction Hi as [|s l Hid _ IH]; [constructor|]. cbn [mbind list_bind] in Hs. apply app_eq_nil in Hs as [Hs Hl].
  constructor; [|by apply IH]. unfold check_step in Hs. rewrite Hid in Hs.
  apply app_eq_nil in Hs as [_ [Ht _]%app_eq_nil]. apply complain_nil in Ht. by apply negb_false_iff in Ht.
Qed.

(** The type of every step object of an accepted document. *)
Lemma accepted_types o l so t :
  go_accepts (JObj o) = GoOk true → obj_get o "steps" = Some (JArr l) → JObj so ∈ l → obj_get so "type" = Some (JStr t) →
  includes STEP_TYPES t = true.
Proof.
  unfold go_accepts. intros Ha Hl Hin Ht. apply go_bind_ok in Ha as (def & Hp & Hv).
  destruct (Validate def) eqn:E; [|done]. pose proof (go_parse_steps _ _ _ Hp Hl) as Hm.
  destruct (go_mapM_elem _ _ _ _ Hm Hin) as (s & Hs & Hsin). rewrite <- (go_step_type _ _ _ Hs Ht).
  pose proof (validated_types def E) as Hf. rewrite Forall_forall in Hf. by apply Hf.
Qed.
