(* ===== verification/Utc.v ===== *)
(** * UTC timestamps (workflow-monitor-bff/src/common/utils/utc-timestamp.ts)

    The calendar of [Date] as the language defines it (days before a year, the
    year, month and date of a day), [Date.parse] on the texts of the file's
    pattern, [toISOString], and [isUtcTimestamp].  [Date.parse] is the one of
    the engine Node runs: it takes every day number from 1 to 31 in any month
    and the hour 24 at midnight, and lets them run over. *)

From S2P Require Import Prelude Peg.

#[local] Open Scope Z_scope.
#[local] Arguments String.append !_ _ / : simpl nomatch.

(** ** The calendar *)

Definition days_before_year (y : Z) : Z :=
  365 * (y - 1970) + (y - 1969) / 4 - (y - 1901) / 100 + (y - 1601) / 400.

Definition leap (y : Z) : bool := (y mod 4 =? 0) && (negb (y mod 100 =? 0) || (y mod 400 =? 0)).

(** Days of the year before month [m], from 1 to 12. *)
Definition days_before_month (y m : Z) : Z :=
  nth (Z.to_nat (m - 1)) [0; 31; 59; 90; 120; 151; 181; 212; 243; 273; 304; 334] 365 +
  (if leap y && (3 <=? m) then 1 else 0).

Definition days_in_month (y m : Z) : Z := days_before_month y (m + 1) - days_before_month y m.

Definition make_day (y m d : Z) : Z := days_before_year y + days_before_month y m + d - 1.

Fixpoint year_from (fuel : nat) (y day : Z) : Z :=
  match fuel with
  | O => y
  | S fuel => if days_before_year (y + 1) <=? day then year_from fuel (y + 1) day else y
  end.

(** The year of a day, from an estimate that is never too high; 40 steps are
    enough up to the year 9999. *)
Definition year_of_day (day : Z) : Z := year_from 40 ((day + 719528) / 366) day.

Fixpoint month_from (fuel : nat) (y m doy : Z) : Z :=
  match fuel with
  | O => m
  | S fuel => if days_before_month y (m + 1) <=? doy then month_from fuel y (m + 1) doy else m
  end.

Definition month_of_day (day : Z) : Z :=
  let y := year_of_day day in month_from 11 y 1 (day - days_before_year y).

Definition date_of_day (day : Z) : Z :=
  let y := year_of_day day in day - days_before_year y - days_before_month y (month_of_day day) + 1.

(** ** Times *)

Definition MS_PER_DAY : Z := 86400000.

Definition make_time (y mo d h mi s ms : Z) : Z :=
  make_day y mo d * MS_PER_DAY + h * 3600000 + mi * 60000 + s * 1000 + ms.

Definition day_of (t : Z) : Z := t / MS_PER_DAY.
Definition getUTCFullYear (t : Z) : Z := year_of_day (day_of t).
Definition getUTCMonth1 (t : Z) : Z := month_of_day (day_of t).
Definition getUTCDate (t : Z) : Z := date_of_day (day_of t).
Definition getUTCHours (t : Z) : Z := t mod MS_PER_DAY / 3600000.
Definition getUTCMinutes (t : Z) : Z := t mod 3600000 / 60000.
Definition getUTCSeconds (t : Z) : Z := t mod 60000 / 1000.
Definition getUTCMilliseconds (t : Z) : Z := t mod 1000.

(** ** Texts *)

Definition digit_value (c : ascii) : Z := Z.of_nat (Ascii.nat_of_ascii c) - 48.
Definition digit_char (n : Z) : ascii := Ascii.ascii_of_nat (Z.to_nat (n + 48)).

(** [n] digits and the rest. *)
Fixpoint take_digits (n : nat) (acc : Z) (s : string) : option (Z * string) :=
  match n with
  | O => Some (acc, s)
  | S n =>
      match s with
      | String c s => if is_digit c then take_digits n (10 * acc + digit_value c) s else None
      | EmptyString => None
      end
  end.

(** [n] written with at least [k] digits, the most significant first. *)
Fixpoint pad (k : nat) (n : Z) : string :=
  match k with
  | O => EmptyString
  | S k => pad k (n / 10) ⊕ String (digit_char (n mod 10)) EmptyString
  end.

Definition take_char (c : ascii) (s : string) : option string :=
  match s with String c' s => if Ascii.eqb c c' then Some s else None | EmptyString => None end.

(** The digits of the fraction that count as milliseconds. *)
Definition millis (ds : string) : Z :=
  match ds with
  | EmptyString => 0
  | String a EmptyString => 100 * digit_value a
  | String a (String b EmptyString) => 100 * digit_value a + 10 * digit_value b
  | String a (String b (String c _)) => 100 * digit_value a + 10 * digit_value b + digit_value c
  end.

(** The part after the seconds: an optional fraction, and [Z]. *)
Definition match_fraction (s : string) : option Z :=
  match s with
  | String c r =>
      if Ascii.eqb c "Z" then match r with EmptyString => Some 0 | _ => None end
      else if Ascii.eqb c "." then
        let '(ds, r) := span is_digit r in
        match ds, r with
        | String _ _, String z EmptyString => if Ascii.eqb z "Z" then Some (millis ds) else None
        | _, _ => None
        end
      else None
  | EmptyString => None
  end.

Record Stamp := mkStamp {
  st_year : Z; st_month : Z; st_day : Z;
  st_hour : Z; st_minute : Z; st_second : Z; st_ms : Z
}.

(** [UTC_TIMESTAMP_PATTERN.exec(value)], with the milliseconds of the fraction. *)
Definition UTC_TIMESTAMP_PATTERN (s : string) : option Stamp :=
  '(y, s) ← take_digits 4 0 s; s ← take_char "-" s;
  '(mo, s) ← take_digits 2 0 s; s ← take_char "-" s;
  '(d, s) ← take_digits 2 0 s; s ← take_char "T" s;
  '(h, s) ← take_digits 2 0 s; s ← take_char ":" s;
  '(mi, s) ← take_digits 2 0 s; s ← take_char ":" s;
  '(sec, s) ← take_digits 2 0 s; ms ← match_fraction s;
  Some (mkStamp y mo d h mi sec ms).

(** [Date.parse] of a text of that form; [None] is the invalid date. *)
Definition stamp_time (p : Stamp) : option Z :=
  if (1 <=? st_month p) && (st_month p <=? 12) && (1 <=? st_day p) && (st_day p <=? 31) &&
     (st_minute p <? 60) && (st_second p <? 60) &&
     ((st_hour p <? 24) ||
      (st_hour p =? 24) && (st_minute p =? 0) && (st_second p =? 0) && (st_ms p =? 0))
  then Some (make_time (st_year p) (st_month p) (st_day p) (st_hour p) (st_minute p) (st_second p) (st_ms p))
  else None.

Definition date_parse (s : string) : option Z := p ← UTC_TIMESTAMP_PATTERN s; stamp_time p.

(** [Date.parse] on every text, in milliseconds; [None] for the not-a-number of a
    bad one.  The forms beyond the pattern are the engine's own. *)
Class DateText := { Date_parse : string → option Z }.

Class DateTextLaws (D : DateText) := {
  Date_parse_utc s p : UTC_TIMESTAMP_PATTERN s = Some p → Date_parse s = stamp_time p
}.

(** The reading that knows no other form. *)
Definition utc_dates : DateText := {| Date_parse := date_parse |}.

Lemma utc_dates_laws : DateTextLaws utc_dates.
Proof. split. intros s p E. simpl. unfold date_parse. by rewrite E. Qed.

Definition isUtcTimestamp (value : string) : bool :=
  match UTC_TIMESTAMP_PATTERN value with
  | None => false
  | Some p =>
      match date_parse value with
      | None => false
      | Some parsed =>
          (getUTCFullYear parsed =? st_year p) && (getUTCMonth1 parsed =? st_month p) &&
          (getUTCDate parsed =? st_day p) && (getUTCHours parsed =? st_hour p) &&
          (getUTCMinutes parsed =? st_minute p) && (getUTCSeconds parsed =? st_second p)
      end
  end.

(** [toISOString] of a time in the years 0 to 9999. *)
Definition toISOString (t : Z) : string :=
  pad 4 (getUTCFullYear t) ⊕ "-" ⊕ pad 2 (getUTCMonth1 t) ⊕ "-" ⊕ pad 2 (getUTCDate t) ⊕ "T" ⊕
  pad 2 (getUTCHours t) ⊕ ":" ⊕ pad 2 (getUTCMinutes t) ⊕ ":" ⊕ pad 2 (getUTCSeconds t) ⊕ "." ⊕
  pad 3 (getUTCMilliseconds t) ⊕ "Z".

(** ** The calendar is consistent *)

Ltac div_lia := Z.to_euclidean_division_equations; lia.

Lemma leap_spec y : leap y = true ↔ y mod 4 = 0 ∧ (y mod 100 ≠ 0 ∨ y mod 400 = 0).
Proof. unfold leap. rewrite andb_true_iff, orb_true_iff, negb_true_iff, !Z.eqb_eq, Z.eqb_neq. done. Qed.

Lemma days_before_next_year y : days_before_year (y + 1) = days_before_year y + 365 + if leap y then 1 else 0.
Proof.
  unfold days_before_year. destruct (leap y) eqn:E.
  - apply leap_spec in E as [H4 H]. div_lia.
  - assert (¬ (y mod 4 = 0 ∧ (y mod 100 ≠ 0 ∨ y mod 400 = 0))) as H by (rewrite <- leap_spec; congruence). div_lia.
Qed.

Lemma days_before_year_mono y y' : y ≤ y' → days_before_year y ≤ days_before_year y'.
Proof. unfold days_before_year. intros. div_lia. Qed.

Lemma year_from_spec fuel y0 y day :
  y0 ≤ y ≤ y0 + Z.of_nat fuel → days_before_year y ≤ day < days_before_year (y + 1) → year_from fuel y0 day = y.
Proof.
  revert y0. induction fuel as [|fuel IH]; intros y0 Hy Hd; cbn [year_from]; [lia|].
  destruct (Z.leb_spec (days_before_year (y0 + 1)) day) as [Hle|Hgt].
  - apply IH; [|done]. split; [|lia]. destruct (Z.eq_dec y0 y) as [->|]; lia.
  - destruct (Z.eq_dec y0 y) as [|Hne]; [done|].
    assert (days_before_year (y0 + 1) ≤ days_before_year y) by (apply days_before_year_mono; lia). lia.
Qed.

Lemma year_of_day_spec y day :
  0 ≤ y ≤ 9999 → days_before_year y ≤ day < days_before_year (y + 1) → year_of_day day = y.
Proof.
  intros Hy Hd. apply year_from_spec; [|done]. unfold days_before_year in Hd. simpl. div_lia.
Qed.

(** Every day of those years has its year. *)
Lemma year_exists day :
  days_before_year 0 ≤ day < days_before_year 10000 →
  0 ≤ year_of_day day ≤ 9999 ∧
  days_before_year (year_of_day day) ≤ day < days_before_year (year_of_day day + 1).
Proof.
  intros Hd. assert (∃ y, 0 ≤ y ≤ 9999 ∧ days_before_year y ≤ day < days_before_year (y + 1)) as (y & Hy & Hyd).
  { assert (∀ n : nat, day < days_before_year (Z.of_nat n) →
        ∃ y, 0 ≤ y < Z.of_nat n ∧ days_before_year y ≤ day < days_before_year (y + 1)) as Hn.
    { induction n as [|n IH]; [change (Z.of_nat 0) with 0; lia|]. intros Hlt.
      destruct (Z.leb_spec (days_before_year (Z.of_nat n)) day) as [Hle|Hgt].
      - exists (Z.of_nat n). replace (Z.of_nat n + 1) with (Z.of_nat (S n)) by lia. lia.
      - destruct (IH Hgt) as (y & ? & ?). exists y. lia. }
    destruct (Hn (Z.to_nat 10000)) as (y & ? & ?); [rewrite Z2Nat.id by lia; apply Hd|]. exists y. lia. }
  by rewrite (year_of_day_spec y day Hy Hyd).
Qed.

Lemma month_cases m : 1 ≤ m ≤ 12 →
  m = 1 ∨ m = 2 ∨ m = 3 ∨ m = 4 ∨ m = 5 ∨ m = 6 ∨ m = 7 ∨ m = 8 ∨ m = 9 ∨ m = 10 ∨ m = 11 ∨ m = 12.
Proof. lia. Qed.

Lemma days_in_month_bounds y m : 1 ≤ m ≤ 12 → 28 ≤ days_in_month y m ≤ 31.
Proof.
  intros Hm. unfold days_in_month, days_before_month.
  destruct (month_cases m Hm) as [->|[->|[->|[->|[->|[->|[->|[->|[->|[->|[->| ->]]]]]]]]]]];
    destruct (leap y); vm_compute; done.
Qed.

Lemma days_before_month_mono y m m' : 1 ≤ m → m ≤ m' ≤ 13 → days_before_month y m ≤ days_before_month y m'.
Proof.
  intros Hm Hle. replace m' with (m + Z.of_nat (Z.to_nat (m' - m))) by lia.
  assert (m + Z.of_nat (Z.to_nat (m' - m)) ≤ 13) as Hb by lia. revert Hb.
  generalize (Z.to_nat (m' - m)) as n. induction n as [|n IH]; intros Hb; [by rewrite Z.add_0_r|].
  pose proof (days_in_month_bounds y (m + Z.of_nat n)) as H. unfold days_in_month in H.
  replace (m + Z.of_nat n + 1) with (m + Z.of_nat (S n)) in H by lia. lia.
Qed.

Lemma month_from_spec fuel y m0 m doy :
  1 ≤ m0 → m0 ≤ m ≤ m0 + Z.of_nat fuel → m ≤ 12 →
  days_before_month y m ≤ doy < days_before_month y (m + 1) → month_from fuel y m0 doy = m.
Proof.
  revert m0. induction fuel as [|fuel IH]; intros m0 H1 Hm H12 Hd; cbn [month_from]; [lia|].
  destruct (Z.leb_spec (days_before_month y (m0 + 1)) doy) as [Hle|Hgt].
  - apply IH; [lia| |done|done]. split; [|lia]. destruct (Z.eq_dec m0 m) as [->|]; lia.
  - destruct (Z.eq_dec m0 m) as [|Hne]; [done|].
    assert (days_before_month y (m0 + 1) ≤ days_before_month y m) by (apply days_before_month_mono; lia). lia.
Qed.

Lemma month_exists y doy : 0 ≤ doy < days_before_month y 13 →
  ∃ m, 1 ≤ m ≤ 12 ∧ days_before_month y m ≤ doy < days_before_month y (m + 1).
Proof.
  intros Hd. assert (∀ n : nat, (n ≤ 12)%nat → doy < days_before_month y (Z.of_nat n + 1) →
    ∃ m, 1 ≤ m ≤ Z.of_nat n ∧ days_before_month y m ≤ doy < days_before_month y (m + 1)) as Hn.
  { induction n as [|n IH]; intros Hn Hlt.
    - exfalso. change (days_before_month y (Z.of_nat 0 + 1)) with (0 + if leap y && false then 1 else 0) in Hlt.
      rewrite andb_false_r in Hlt. lia.
    - destruct (Z.leb_spec (days_before_month y (Z.of_nat (S n))) doy) as [Hle|Hgt].
      + exists (Z.of_nat (S n)). lia.
      + destruct IH as (m & ? & ?); [lia|by replace (Z.of_nat n + 1) with (Z.of_nat (S n)) by lia|].
        exists m. lia. }
  destruct (Hn 12%nat) as (m & ? & ?); [lia|apply Hd|]. exists m. lia.
Qed.

Lemma days_of_year y : days_before_month y 13 = 365 + if leap y then 1 else 0.
Proof. unfold days_before_month. simpl. rewrite andb_true_r. done. Qed.

(** The fields of a valid date are read back. *)
Lemma make_day_fields y m d :
  0 ≤ y ≤ 9999 → 1 ≤ m ≤ 12 → 1 ≤ d ≤ days_in_month y m →
  year_of_day (make_day y m d) = y ∧ month_of_day (make_day y m d) = m ∧ date_of_day (make_day y m d) = d.
Proof.
  intros Hy Hm Hd. unfold days_in_month in Hd.
  pose proof (days_before_month_mono y 1 m). pose proof (days_before_month_mono y (m + 1) 13).
  assert (days_before_month y 1 = 0) as H1 by (unfold days_before_month; simpl; by rewrite andb_false_r).
  assert (year_of_day (make_day y m d) = y) as Ey.
  { apply year_of_day_spec; [done|]. rewrite days_before_next_year. pose proof (days_of_year y). unfold make_day. lia. }
  assert (month_of_day (make_day y m d) = m) as Em.
  { unfold month_of_day. rewrite Ey. apply month_from_spec; [lia|lia|lia|]. unfold make_day. lia. }
  split_and!; [done|done|]. unfold date_of_day. rewrite Em, Ey. unfold make_day. lia.
Qed.

(** The fields of a day make it up again, and are a valid date. *)
Lemma day_fields day :
  days_before_year 0 ≤ day < days_before_year 10000 →
  0 ≤ year_of_day day ≤ 9999 ∧ 1 ≤ month_of_day day ≤ 12 ∧
  1 ≤ date_of_day day ≤ days_in_month (year_of_day day) (month_of_day day) ∧
  make_day (year_of_day day) (month_of_day day) (date_of_day day) = day.
Proof.
  intros [Hy Hd]%year_exists. rewrite days_before_next_year in Hd.
  destruct (month_exists (year_of_day day) (day - days_before_year (year_of_day day))) as (m & Hm & Hmd);
    [rewrite days_of_year; lia|].
  assert (month_of_day day = m) as Em by (apply month_from_spec; lia).
  unfold date_of_day, make_day, days_in_month. rewrite Em. lia.
Qed.

(** ** Digits *)

Lemma digit_char_value n : 0 ≤ n ≤ 9 → is_digit (digit_char n) = true ∧ digit_value (digit_char n) = n.
Proof.
  intros H. assert (n = 0 ∨ n = 1 ∨ n = 2 ∨ n = 3 ∨ n = 4 ∨ n = 5 ∨ n = 6 ∨ n = 7 ∨ n = 8 ∨ n = 9) as Hn by lia.
  by destruct Hn as [->|[->|[->|[->|[->|[->|[->|[->|[->| ->]]]]]]]]].
Qed.

Lemma digit_value_char c : is_digit c = true → digit_char (digit_value c) = c ∧ 0 ≤ digit_value c ≤ 9.
Proof. by destruct c as [[] [] [] [] [] [] [] []]; vm_compute. Qed.

Lemma take_digits_snoc n acc s :
  take_digits (S n) acc s = '(a, r) ← take_digits n acc s; take_digits 1 a r.
Proof.
  assert (∀ n acc c s, take_digits (S n) acc (String c s) =
            if is_digit c then take_digits n (10 * acc + digit_value c) s else None) as Hc by done.
  revert acc s. induction n as [|n IH]; intros acc s; [done|]. destruct s as [|c s]; [done|].
  rewrite !Hc. destruct (is_digit c); [apply IH|done].
Qed.

Lemma take_digits_pad n acc v s :
  0 ≤ v < 10 ^ Z.of_nat n → take_digits n acc (pad n v ⊕ s) = Some (acc * 10 ^ Z.of_nat n + v, s).
Proof.
  revert v s. induction n as [|n IH]; intros v s Hv.
  { simpl. change (10 ^ Z.of_nat 0) with 1 in *. do 2 f_equal. lia. }
  rewrite take_digits_snoc. cbn [pad]. rewrite str_app_assoc.
  rewrite Nat2Z.inj_succ, Z.pow_succ_r in * by lia.
  rewrite IH by (div_lia). cbn [mbind option_bind]. simpl.
  destruct (digit_char_value (v mod 10)) as [-> ->]; [div_lia|]. do 2 f_equal. div_lia.
Qed.

Lemma take_digits_inv n acc s v r :
  take_digits n acc s = Some (v, r) →
  ∃ d, 0 ≤ d < 10 ^ Z.of_nat n ∧ v = acc * 10 ^ Z.of_nat n + d ∧ s = pad n d ⊕ r.
Proof.
  revert v r. induction n as [|n IH]; intros v r.
  { simpl. intros [= <- <-]. exists 0. change (10 ^ Z.of_nat 0) with 1. split_and!; [lia|lia|lia|done]. }
  rewrite take_digits_snoc. destruct (take_digits n acc s) as [[a s']|] eqn:E; [|done].
  destruct (IH a s' eq_refl) as (d & Hd & -> & ->). cbn [mbind option_bind]. simpl.
  destruct s' as [|c s']; [done|]. destruct (is_digit c) eqn:Ec; [|done]. intros [= <- <-].
  destruct (digit_value_char c Ec) as [Hc Hb]. rewrite Nat2Z.inj_succ, Z.pow_succ_r by lia.
  exists (10 * d + digit_value c). split_and!; [lia|lia|lia|]. cbn [pad].
  replace ((10 * d + digit_value c) / 10) with d by div_lia.
  replace ((10 * d + digit_value c) mod 10) with (digit_value c) by div_lia.
  by rewrite Hc, str_app_assoc.
Qed.

(** ** Texts of timestamps *)

Definition fraction_lang (s : string) : Prop :=
  s = "Z" ∨ ∃ ds, ds ≠ EmptyString ∧ all_chars is_digit ds = true ∧ s = "." ⊕ ds ⊕ "Z".

Lemma millis_bounds ds : all_chars is_digit ds = true → 0 ≤ millis ds ≤ 999.
Proof.
  destruct ds as [|a [|b [|c ds]]]; simpl; rewrite ?andb_true_iff; intros; destruct_and?;
    repeat match goal with H : is_digit _ = true |- _ => apply digit_value_char in H as [_ ?] end; lia.
Qed.

Lemma match_fraction_some s : is_Some (match_fraction s) ↔ fraction_lang s.
Proof.
  unfold match_fraction, fraction_lang. split.
  - destruct s as [|c r]; [by intros []|]. destruct (Ascii.eqb_spec c "Z") as [->|].
    { destruct r; [by left|by intros []]. }
    destruct (Ascii.eqb_spec c ".") as [->|]; [|by intros []].
    destruct (span_spec is_digit r) as (Hr & Hd & _). destruct (span is_digit r) as [[|d ds] [|z [|]]];
      simpl in *; try (by intros []). destruct (Ascii.eqb_spec z "Z") as [->|]; [|by intros []].
    intros _. right. exists (String d ds). split_and!; [done|done|by rewrite Hr].
  - intros [->|(ds & Hne & Hd & ->)]; [by eexists|]. simpl.
    rewrite span_app by done. destruct ds; [done|]. simpl. by eexists.
Qed.

Lemma match_fraction_bounds s ms : match_fraction s = Some ms → 0 ≤ ms ≤ 999.
Proof.
  unfold match_fraction. destruct s as [|c r]; [done|]. destruct (Ascii.eqb c "Z").
  { destruct r; [|done]. intros [= <-]. lia. }
  destruct (Ascii.eqb c "."); [|done]. destruct (span_spec is_digit r) as (_ & Hd & _).
  destruct (span is_digit r) as [[|d ds] [|z [|]]]; try done. destruct (Ascii.eqb z "Z"); [|done].
  intros [= <-]. exact (millis_bounds (String d ds) Hd).
Qed.

Definition stamp_text (y mo d h mi s : Z) (tail : string) : string :=
  pad 4 y ⊕ "-" ⊕ pad 2 mo ⊕ "-" ⊕ pad 2 d ⊕ "T" ⊕ pad 2 h ⊕ ":" ⊕ pad 2 mi ⊕ ":" ⊕ pad 2 s ⊕ tail.

Lemma take_char_app c s : take_char c (String c EmptyString ⊕ s) = Some s.
Proof. simpl. by rewrite Ascii.eqb_refl. Qed.

Lemma pattern_text y mo d h mi s tail ms :
  0 ≤ y ≤ 9999 → 0 ≤ mo ≤ 99 → 0 ≤ d ≤ 99 → 0 ≤ h ≤ 99 → 0 ≤ mi ≤ 99 → 0 ≤ s ≤ 99 →
  match_fraction tail = Some ms →
  UTC_TIMESTAMP_PATTERN (stamp_text y mo d h mi s tail) = Some (mkStamp y mo d h mi s ms).
Proof.
  intros Hy Hmo Hd Hh Hmi Hs Ht. unfold UTC_TIMESTAMP_PATTERN, stamp_text.
  rewrite take_digits_pad by (change (10 ^ Z.of_nat 4) with 10000; lia).
  do 5 (cbn [mbind option_bind]; rewrite take_char_app; cbn [mbind option_bind];
    rewrite take_digits_pad by (change (10 ^ Z.of_nat 2) with 100; lia)).
  cbn [mbind option_bind]. rewrite Ht. done.
Qed.

Lemma take_char_inv c s r : take_char c s = Some r → s = String c r.
Proof. destruct s as [|c' s]; [done|]. simpl. destruct (Ascii.eqb_spec c c') as [->|]; [|done]. by intros [= ->]. Qed.

Lemma pattern_inv v p :
  UTC_TIMESTAMP_PATTERN v = Some p →
  ∃ tail, v = stamp_text (st_year p) (st_month p) (st_day p) (st_hour p) (st_minute p) (st_second p) tail ∧
    match_fraction tail = Some (st_ms p) ∧ 0 ≤ st_year p ≤ 9999 ∧ 0 ≤ st_month p ≤ 99 ∧ 0 ≤ st_day p ≤ 99 ∧
    0 ≤ st_hour p ≤ 99 ∧ 0 ≤ st_minute p ≤ 99 ∧ 0 ≤ st_second p ≤ 99.
Proof.
  unfold UTC_TIMESTAMP_PATTERN. intros H.
  repeat match type of H with
  | (_ ← take_digits ?n 0 ?s; _) = _ =>
      destruct (take_digits n 0 s) as [[? ?]|] eqn:E; [|done]; cbn [mbind option_bind] in H;
      apply take_digits_inv in E as (? & ? & -> & ->)
  | (_ ← take_char ?c ?s; _) = _ =>
      destruct (take_char c s) as [?|] eqn:E; [|done]; cbn [mbind option_bind] in H;
      apply take_char_inv in E as ->
  end.
  match type of H with (_ ← match_fraction ?s; _) = _ => destruct (match_fraction s) eqn:E; [|done] end.
  cbn [mbind option_bind] in H. injection H as <-. eexists. split_and!; [reflexivity|exact E|..].
  all: cbn [st_year st_month st_day st_hour st_minute st_second];
    change (10 ^ Z.of_nat 4) with 10000 in *; change (10 ^ Z.of_nat 2) with 100 in *; lia.
Qed.

(** The fields of a valid time are read back. *)
Lemma make_time_fields y mo d h mi s ms :
  0 ≤ y ≤ 9999 → 1 ≤ mo ≤ 12 → 1 ≤ d ≤ days_in_month y mo → 0 ≤ h < 24 → 0 ≤ mi < 60 → 0 ≤ s < 60 → 0 ≤ ms < 1000 →
  let t := make_time y mo d h mi s ms in
  getUTCFullYear t = y ∧ getUTCMonth1 t = mo ∧ getUTCDate t = d ∧ getUTCHours t = h ∧ getUTCMinutes t = mi ∧
  getUTCSeconds t = s ∧ getUTCMilliseconds t = ms.
Proof.
  intros Hy Hmo Hd Hh Hmi Hs Hms t.
  assert (day_of t = make_day y mo d) as Eday by (unfold day_of, t, make_time, MS_PER_DAY; div_lia).
  destruct (make_day_fields y mo d Hy Hmo Hd) as (E1 & E2 & E3).
  unfold getUTCFullYear, getUTCMonth1, getUTCDate. rewrite Eday. split_and!; [done|done|done|..];
    unfold getUTCHours, getUTCMinutes, getUTCSeconds, getUTCMilliseconds, t, make_time, MS_PER_DAY; div_lia.
Qed.

(** The times of the years 0 to 9999. *)
Definition in_years (t : Z) : Prop := days_before_year 0 * MS_PER_DAY ≤ t < days_before_year 10000 * MS_PER_DAY.

Lemma time_fields t :
  in_years t →
  0 ≤ getUTCFullYear t ≤ 9999 ∧ 1 ≤ getUTCMonth1 t ≤ 12 ∧
  1 ≤ getUTCDate t ≤ days_in_month (getUTCFullYear t) (getUTCMonth1 t) ∧ 0 ≤ getUTCHours t < 24 ∧
  0 ≤ getUTCMinutes t < 60 ∧ 0 ≤ getUTCSeconds t < 60 ∧ 0 ≤ getUTCMilliseconds t < 1000 ∧
  make_time (getUTCFullYear t) (getUTCMonth1 t) (getUTCDate t) (getUTCHours t) (getUTCMinutes t)
    (getUTCSeconds t) (getUTCMilliseconds t) = t.
Proof.
  unfold in_years, MS_PER_DAY. intros Ht. destruct (day_fields (day_of t)) as (H1 & H2 & H3 & H4).
  { unfold day_of, MS_PER_DAY. div_lia. }
  unfold getUTCFullYear, getUTCMonth1, getUTCDate. split_and!; try apply H1; try apply H2; try apply H3.
  all: unfold make_time; rewrite ?H4.
  all: unfold getUTCHours, getUTCMinutes, getUTCSeconds, getUTCMilliseconds, day_of, MS_PER_DAY; div_lia.
Qed.

Lemma stamp_time_valid p :
  1 ≤ st_month p ≤ 12 → 1 ≤ st_day p ≤ 31 → st_hour p < 24 → st_minute p < 60 → st_second p < 60 →
  stamp_time p = Some (make_time (st_year p) (st_month p) (st_day p) (st_hour p) (st_minute p) (st_second p) (st_ms p)).
Proof.
  intros. unfold stamp_time.
  rewrite !(proj2 (Z.leb_le _ _)), !(proj2 (Z.ltb_lt _ _)) by lia. done.
Qed.

Lemma stamp_time_inv p t :
  stamp_time p = Some t →
  (1 ≤ st_month p ≤ 12 ∧ 1 ≤ st_day p ≤ 31 ∧ st_hour p ≤ 24 ∧ st_minute p < 60 ∧ st_second p < 60 ∧
   (st_hour p = 24 → st_minute p = 0 ∧ st_second p = 0 ∧ st_ms p = 0)) ∧
  t = make_time (st_year p) (st_month p) (st_day p) (st_hour p) (st_minute p) (st_second p) (st_ms p).
Proof.
  unfold stamp_time. destruct (_ && _) eqn:E; [|done]. intros [= <-]. split; [|done].
  repeat (apply andb_true_iff in E as [E ?]). apply orb_true_iff in H as [H|H].
  - apply Z.ltb_lt in H. bool_hyps. rewrite !Z.leb_le in *. rewrite Z.ltb_lt in *. lia.
  - repeat (apply andb_true_iff in H as [H ?]). rewrite !Z.leb_le, !Z.ltb_lt, !Z.eqb_eq in *. lia.
Qed.

Lemma toISOString_text t :
  toISOString t = stamp_text (getUTCFullYear t) (getUTCMonth1 t) (getUTCDate t) (getUTCHours t) (getUTCMinutes t)
                    (getUTCSeconds t) ("." ⊕ pad 3 (getUTCMilliseconds t) ⊕ "Z").
Proof. done. Qed.

Lemma pad3_millis n : 0 ≤ n < 1000 → match_fraction ("." ⊕ pad 3 n ⊕ "Z") = Some n.
Proof.
  intros Hn. unfold match_fraction. cbn [pad]. simpl.
  destruct (digit_char_value (n / 10 / 10 mod 10)) as [D1 V1]; [div_lia|].
  destruct (digit_char_value (n / 10 mod 10)) as [D2 V2]; [div_lia|].
  destruct (digit_char_value (n mod 10)) as [D3 V3]; [div_lia|].
  rewrite D1, D2, D3. simpl. rewrite V1, V2, V3. f_equal. div_lia.
Qed.

Lemma date_parse_toISOString t : in_years t → date_parse (toISOString t) = Some t.
Proof.
  intros (H1 & H2 & H3 & H4 & H5 & H6 & H7 & H8)%time_fields.
  pose proof (days_in_month_bounds (getUTCFullYear t) (getUTCMonth1 t) H2).
  unfold date_parse. rewrite toISOString_text.
  rewrite (pattern_text _ _ _ _ _ _ _ (getUTCMilliseconds t)); [|lia..|by apply pad3_millis].
  cbn [mbind option_bind]. rewrite stamp_time_valid by (simpl; lia). simpl. by rewrite H8.
Qed.

Lemma make_time_in_years y mo d h mi s ms :
  0 ≤ y ≤ 9999 → 1 ≤ mo ≤ 12 → 1 ≤ d ≤ 31 → 0 ≤ h < 24 → 0 ≤ mi < 60 → 0 ≤ s < 60 → 0 ≤ ms ≤ 999 →
  in_years (make_time y mo d h mi s ms).
Proof.
  intros Hy Hmo Hd Hh Hmi Hs Hms. unfold in_years, make_time, make_day, MS_PER_DAY.
  pose proof (days_before_year_mono 0 y). pose proof (days_before_year_mono (y + 1) 10000) as H10.
  rewrite days_before_next_year in H10. pose proof (days_of_year y) as Hlen.
  assert (days_before_month y 1 = 0) as H1 by (unfold days_before_month; simpl; by rewrite andb_false_r).
  pose proof (days_before_month_mono y 1 mo). pose proof (days_before_month_mono y mo 12).
  assert (days_before_month y 12 + 31 = days_before_month y 13) as H12
    by (unfold days_before_month; destruct (leap y); reflexivity).
  lia.
Qed.

Lemma toISOString_accepted t : in_years t → isUtcTimestamp (toISOString t) = true.
Proof.
  intros Ht. unfold isUtcTimestamp. rewrite (date_parse_toISOString t Ht), toISOString_text.
  destruct (time_fields t Ht) as (H1 & H2 & H3 & H4 & H5 & H6 & H7 & _).
  pose proof (days_in_month_bounds (getUTCFullYear t) (getUTCMonth1 t) H2).
  rewrite (pattern_text _ _ _ _ _ _ _ (getUTCMilliseconds t)); [|lia..|by apply pad3_millis].
  cbn [st_year st_month st_day st_hour st_minute st_second]. by rewrite !Z.eqb_refl.
Qed.

(** ** Properties *)

(** [isUtcTimestamp] accepts exactly the texts of real UTC times: a
    calendar date that exists (leap years included), hours below 24, minutes
    and seconds below 60, and an optional fraction. *)
Theorem isUtcTimestamp_iff v :
  isUtcTimestamp v = true ↔
  ∃ y mo d h mi s tail, v = stamp_text y mo d h mi s tail ∧ fraction_lang tail ∧
    0 ≤ y ≤ 9999 ∧ 1 ≤ mo ≤ 12 ∧ 1 ≤ d ≤ days_in_month y mo ∧ 0 ≤ h < 24 ∧ 0 ≤ mi < 60 ∧ 0 ≤ s < 60.
Proof.
  unfold isUtcTimestamp, date_parse. split.
  - destruct (UTC_TIMESTAMP_PATTERN v) as [p|] eqn:E; [|done]. cbn [mbind option_bind].
    destruct (stamp_time p) as [t|] eqn:Et; [|done]. intros H.
    repeat (apply andb_true_iff in H as [H ?]). rewrite !Z.eqb_eq in *.
    destruct (pattern_inv v p E) as (tail & Hv & Hf & Hy & Hmo & Hd & Hh & Hmi & Hs).
    apply stamp_time_inv in Et as [(Bmo & Bd & Bh & Bmi & Bs & _) Et].
    pose proof (match_fraction_bounds _ _ Hf) as Hms.
    assert (0 ≤ st_hour p < 24) as Hh' by (unfold getUTCHours, MS_PER_DAY in *; div_lia).
    assert (in_years t) as Hin.
    { rewrite Et. apply make_time_in_years; lia. }
    destruct (time_fields t Hin) as (_ & _ & Hdate & _).
    repeat match goal with He : _ t = _ |- _ => rewrite He in Hdate; clear He end. exists (st_year p), (st_month p), (st_day p), (st_hour p),
      (st_minute p), (st_second p), tail.
    split_and!; try done; try lia. by apply match_fraction_some; eexists.
  - intros (y & mo & d & h & mi & s & tail & -> & Hf & Hy & Hmo & Hd & Hh & Hmi & Hs).
    apply match_fraction_some in Hf as [ms Hf]. pose proof (match_fraction_bounds _ _ Hf).
    pose proof (days_in_month_bounds y mo Hmo).
    rewrite (pattern_text y mo d h mi s tail ms) by (done || lia). cbn [mbind option_bind].
    rewrite stamp_time_valid by (simpl; lia). cbn [st_year st_month st_day st_hour st_minute st_second st_ms].
    destruct (make_time_fields y mo d h mi s ms Hy Hmo Hd Hh Hmi Hs) as (-> & -> & -> & -> & -> & -> & _); [lia|].
    by rewrite !Z.eqb_refl.
Qed.

(** [toISOString] and [Date.parse] are inverse on the years 0 to 9999, and
    what [toISOString] writes is accepted as a UTC timestamp. *)
Theorem toISOString_roundtrip t :
  in_years t → date_parse (toISOString t) = Some t ∧ isUtcTimestamp (toISOString t) = true.
Proof.
  intros Ht. split; [by apply date_parse_toISOString|]. apply toISOString_accepted. done.
Qed.

Lemma toISOString_roundtrip_witness : date_parse (toISOString 1709210096789) = Some 1709210096789.
Proof. apply toISOString_roundtrip. unfold in_years. vm_compute. split; [discriminate|reflexivity]. Defined.
