(* ===== verification/Backoff.v ===== *)
(** * Retry delays (workflow-sdk-node/src/retry/backoff.ts)

    Milliseconds are integers until the jitter: [Math.random()] is [p / 2^53]
    and the jittered value is kept as an exact fraction until [Math.round],
    with [JITTER_FRAC] as one fifth.  The cache of handled records
    (runner/deduplication_cache.ts) follows. *)

From S2P Require Import Prelude.

#[local] Open Scope Z_scope.

Definition BASE_DELAY_MS : Z := 100.
Definition FACTOR : Z := 2.
Definition MAX_DELAY_MS : Z := 30000.

(** [JITTER_FRAC] is [1 / JITTER_DEN]. *)
Definition JITTER_DEN : Z := 5.

(** [Math.random()] is [p / RANDOM_DEN] with [0 <= p < RANDOM_DEN]. *)
Definition RANDOM_DEN : Z := 2 ^ 53.

(** The loop [for (let i = 1; i < a; i++)]; [n] rounds are left. *)
Fixpoint grow (n : nat) (ms : Z) : Z :=
  match n with
  | O => ms
  | S n => let ms := ms * FACTOR in if ms >=? MAX_DELAY_MS then MAX_DELAY_MS else grow n ms
  end.

Definition base_delay (attempt : Z) : Z := grow (Z.to_nat (Z.max 1 attempt - 1)) BASE_DELAY_MS.

(** [Math.round(num / den)] for [den > 0]: halves go up. *)
Definition round_div (num den : Z) : Z := (2 * num + den) / (2 * den).

(** [delay(attempt)] when [Math.random()] returns [p / RANDOM_DEN]. *)
Definition delay (attempt p : Z) : Z :=
  let ms := base_delay attempt in
  let den := JITTER_DEN * RANDOM_DEN in
  Z.max 0 (Z.min MAX_DELAY_MS (round_div (ms * den + ms * (2 * p - RANDOM_DEN)) den)).

(** ** Lemmas *)

Lemma grow_spec n ms : 0 < ms ≤ MAX_DELAY_MS → grow n ms = Z.min MAX_DELAY_MS (ms * 2 ^ Z.of_nat n).
Proof.
  revert ms. induction n as [|n IH]; intros ms Hms; cbn [grow].
  { change (2 ^ Z.of_nat 0) with 1. lia. }
  rewrite Nat2Z.inj_succ, Z.pow_succ_r by lia. unfold FACTOR.
  assert (1 ≤ 2 ^ Z.of_nat n) as Hp by (pose proof (Z.pow_pos_nonneg 2 (Z.of_nat n)); lia).
  destruct (Z.geb_spec (ms * 2) MAX_DELAY_MS) as [H|H].
  - rewrite Z.min_l; [done|]. nia.
  - rewrite IH by lia. f_equal. lia.
Qed.

Lemma base_delay_spec attempt :
  base_delay attempt = Z.min MAX_DELAY_MS (BASE_DELAY_MS * 2 ^ (Z.max 1 attempt - 1)).
Proof.
  unfold base_delay. rewrite grow_spec by (unfold BASE_DELAY_MS, MAX_DELAY_MS; lia).
  by rewrite Z2Nat.id by lia.
Qed.

Lemma base_delay_bounds attempt : 100 ≤ base_delay attempt ≤ 30000.
Proof.
  rewrite base_delay_spec. unfold MAX_DELAY_MS, BASE_DELAY_MS.
  pose proof (Z.pow_pos_nonneg 2 (Z.max 1 attempt - 1)). lia.
Qed.

(** Rounding stays between integer bounds. *)
Lemma round_div_bounds num den lo hi : 0 < den → lo * den ≤ num ≤ hi * den → lo ≤ round_div num den ≤ hi.
Proof.
  intros Hd [Hlo Hhi]. unfold round_div. split.
  - apply Z.div_le_lower_bound; lia.
  - apply Z.lt_succ_r. apply Z.div_lt_upper_bound; lia.
Qed.

(** The base delay is a multiple of five, so its fifth is exact. *)
Lemma base_delay_fifth attempt : (5 | base_delay attempt).
Proof.
  rewrite base_delay_spec. unfold MAX_DELAY_MS, BASE_DELAY_MS.
  destruct (Z.min_spec 30000 (100 * 2 ^ (Z.max 1 attempt - 1))) as [[_ ->]|[_ ->]].
  - by exists 6000.
  - exists (20 * 2 ^ (Z.max 1 attempt - 1)). lia.
Qed.

(** ** Properties *)

(** The delay of an attempt is within a fifth of the exponential base
    [min 30000 (100 * 2^(attempt-1))], never above the maximum of 30 s and
    never below 80 ms, whatever the attempt number and the random value; the
    base never decreases from one attempt to the next. *)
Theorem delay_bounds attempt p :
  0 ≤ p < RANDOM_DEN →
  let base := Z.min MAX_DELAY_MS (BASE_DELAY_MS * 2 ^ (Z.max 1 attempt - 1)) in
  base - base / 5 ≤ delay attempt p ≤ Z.min MAX_DELAY_MS (base + base / 5) ∧
  80 ≤ delay attempt p ∧ base ≤ base_delay (attempt + 1).
Proof.
  intros Hp. cbv zeta. rewrite <- base_delay_spec. unfold delay.
  pose proof (base_delay_bounds attempt) as Hb. destruct (base_delay_fifth attempt) as [k Hk].
  set (b := base_delay attempt) in *. set (den := JITTER_DEN * RANDOM_DEN).
  assert (b / 5 = k) as -> by (rewrite Hk; by apply Z.div_mul).
  assert (b - k ≤ round_div (b * den + b * (2 * p - RANDOM_DEN)) den ≤ b + k) as Hr.
  { apply round_div_bounds; [done|]. unfold den, JITTER_DEN. rewrite Hk. nia. }
  unfold MAX_DELAY_MS. split_and!; try lia.
  unfold b. rewrite !base_delay_spec. unfold BASE_DELAY_MS, MAX_DELAY_MS.
  assert (2 ^ (Z.max 1 attempt - 1) ≤ 2 ^ (Z.max 1 (attempt + 1) - 1)) by (apply Z.pow_le_mono_r; lia). lia.
Qed.

Lemma delay_bounds_witness : 80 ≤ delay 4 (2 ^ 52) ∧ delay 4 (2 ^ 52) = 800.
Proof.
  split; [|vm_compute; reflexivity].
  apply (delay_bounds 4 (2 ^ 52)). split; [discriminate|reflexivity].
Defined.

(** * The deduplication cache (workflow-sdk-node/src/runner/deduplication_cache.ts)

    The map of last sightings, with the time [Date.now()] as an argument of
    each method.  The interval timer calls [sweep] at moments the properties
    do not restrict. *)

#[local] Open Scope Z_scope.

(** ** Definitions *)

Record DeduplicationCache := mkCache { dc_cache : gmap string Z; dc_windowMs : Z }.

Definition new_cache (windowMs : option Z) : DeduplicationCache :=
  mkCache ∅ (default (10 * 60 * 1000) windowMs).

Definition has (now : Z) (id : string) (c : DeduplicationCache) : bool :=
  match dc_cache c !! id with
  | Some seenAt => now - seenAt <? dc_windowMs c
  | None => false
  end.

Definition mark (now : Z) (id : string) (c : DeduplicationCache) : DeduplicationCache :=
  if truthy_str id then mkCache (<[id := now]> (dc_cache c)) (dc_windowMs c) else c.

Definition seenRecently (now : Z) (id : string) (c : DeduplicationCache) : bool * DeduplicationCache :=
  if negb (truthy_str id) then (false, c)
  else if has now id c then (true, c)
  else (false, mark now id c).

Definition sweep (now : Z) (c : DeduplicationCache) : DeduplicationCache :=
  let cutoff := now - dc_windowMs c in
  mkCache (filter (λ p : string * Z, ¬ (p.2 < cutoff)) (dc_cache c)) (dc_windowMs c).

Definition close (c : DeduplicationCache) : DeduplicationCache := mkCache ∅ (dc_windowMs c).

(** ** Histories

    A history is the list of what happened, newest first, with its time. *)

Inductive CacheEvent := Mark (id : string) | Sweep.

Definition apply_event (e : Z * CacheEvent) (c : DeduplicationCache) : DeduplicationCache :=
  match e.2 with Mark id => mark e.1 id c | Sweep => sweep e.1 c end.

Fixpoint run (h : list (Z * CacheEvent)) (c : DeduplicationCache) : DeduplicationCache :=
  match h with [] => c | e :: h => apply_event e (run h c) end.

(** The times of a history never decrease. *)
Fixpoint ordered (h : list (Z * CacheEvent)) : Prop :=
  match h with
  | [] => True
  | e :: h => (∀ e', e' ∈ h → e'.1 ≤ e.1) ∧ ordered h
  end.

(** The specification: the time of the last mark of [id]. *)
Fixpoint last_mark (id : string) (h : list (Z * CacheEvent)) : option Z :=
  match h with
  | [] => None
  | (t, Mark id') :: h => if String.eqb id id' then Some t else last_mark id h
  | (_, Sweep) :: h => last_mark id h
  end.

(** ** Lemmas *)

(** Unfold one event of a history, and nothing of the cache. *)
Ltac event := cbn [run last_mark ordered apply_event fst snd dc_cache].

Lemma run_window h c : dc_windowMs (run h c) = dc_windowMs c.
Proof.
  induction h as [|[t [id|]] h IH]; simpl; [done| |done]. unfold apply_event, mark. simpl.
  by destruct (truthy_str id).
Qed.

Lemma last_mark_in id h t : last_mark id h = Some t → ∃ e, e ∈ h ∧ e.1 = t.
Proof.
  induction h as [|[t' [id'|]] h IH]; simpl; [done| |].
  - destruct (String.eqb id id'); [intros [= ->]; eexists; split; [by left|done]|].
    intros (e & ? & ?)%IH. exists e. split; [by right|done].
  - intros (e & ? & ?)%IH. exists e. split; [by right|done].
Qed.

Lemma mark_lookup now id id' c :
  id ≠ EmptyString → dc_cache (mark now id' c) !! id = if String.eqb id id' then Some now else dc_cache c !! id.
Proof.
  intros Hid. unfold mark. destruct (truthy_str id') eqn:E; simpl.
  - rewrite lookup_insert. destruct (String.eqb_spec id id') as [->|]; by case_decide.
  - apply truthy_str_false in E as ->. by destruct (String.eqb_spec id EmptyString).
Qed.

Lemma sweep_lookup now id c :
  dc_cache (sweep now c) !! id =
  match dc_cache c !! id with
  | Some t => if decide (t < now - dc_windowMs c) then None else Some t
  | None => None
  end.
Proof.
  unfold sweep. simpl. rewrite map_lookup_filter. destruct (dc_cache c !! id) as [t|]; simpl; [|done].
  by case_decide; case_decide.
Qed.

(** The cache never forgets a mark before its window has passed, and holds
    nothing but last marks. *)
Lemma run_lookup h w id :
  id ≠ EmptyString → ordered h →
  match dc_cache (run h (mkCache ∅ w)) !! id with
  | Some t => last_mark id h = Some t
  | None => ∀ t, last_mark id h = Some t → ∃ e, e ∈ h ∧ w < e.1 - t
  end.
Proof.
  intros Hid. induction h as [|[t [id'|]] h IH]; event; [intros _; by rewrite lookup_empty| |];
    intros [Hord Ho].
  - specialize (IH Ho). rewrite mark_lookup by done.
    destruct (String.eqb id id'); [done|]. destruct (dc_cache _ !! id); [done|].
    intros t' (e & ? & ?)%IH. exists e. split; [by right|done].
  - specialize (IH Ho). rewrite sweep_lookup, run_window. cbn [dc_windowMs].
    destruct (dc_cache _ !! id) as [t'|].
    + case_decide; [|done]. intros t'' E. rewrite IH in E. simplify_eq.
      exists (t, Sweep). split; [by left|]. simpl. lia.
    + intros t' (e & ? & ?)%IH. exists e. split; [by right|done].
Qed.

(** ** Properties *)

(** The cache answers as if nothing was ever swept: after any history of
    marks and sweeps, [has] is true exactly when the last mark of the id is
    younger than the window, and never for the empty id. *)
Theorem has_iff_marked_recently h w id now :
  ordered h → (∀ e, e ∈ h → e.1 ≤ now) →
  has now id (run h (mkCache ∅ w)) = true ↔
  id ≠ EmptyString ∧ ∃ t, last_mark id h = Some t ∧ now - t < w.
Proof.
  intros Ho Hnow. unfold has. rewrite run_window. simpl. destruct (decide (id = EmptyString)) as [->|Hid].
  - assert (dc_cache (run h (mkCache ∅ w)) !! EmptyString = None) as ->.
    { clear. induction h as [|[t [id|]] h IH]; event; [apply lookup_empty| |].
      - unfold mark. destruct (truthy_str id) eqn:E; [|done]. simpl. apply truthy_str_true in E.
        by rewrite lookup_insert_ne.
      - by rewrite sweep_lookup, IH. }
    naive_solver.
  - pose proof (run_lookup h w id Hid Ho) as Hr. destruct (dc_cache _ !! id) as [t|].
    + rewrite Z.ltb_lt. naive_solver.
    + split; [done|]. intros (_ & t & Ht & Hlt). destruct (Hr t Ht) as (e & He & Hw).
      specialize (Hnow e He). lia.
Qed.

Lemma has_iff_marked_recently_witness :
  has 900 "a" (run [(800, Sweep); (500, Mark "a"); (100, Mark "b")] (mkCache ∅ 600)) = true.
Proof.
  apply (has_iff_marked_recently [(800, Sweep); (500, Mark "a"); (100, Mark "b")] 600 "a" 900).
  - simpl. split_and!; try done; intros e He; set_unfold in He; destruct_or! He; subst; simpl; lia.
  - intros e He. set_unfold in He. destruct_or! He; subst; simpl; lia.
  - split; [discriminate|]. exists 500. split; [reflexivity|lia].
Defined.

(** [seenRecently] reports a non-empty id once per window: right after a
    call that answered no, it answers yes until the window has passed and no
    again from then on; other ids are not affected. *)
Theorem seenRecently_once_per_window now now' id id' c :
  id ≠ EmptyString → 0 < dc_windowMs c → now ≤ now' →
  let '(answer, c') := seenRecently now id c in
  (answer = true ↔ has now id c = true) ∧
  (answer = false → (seenRecently now' id c').1 = true ↔ now' - now < dc_windowMs c) ∧
  (id' ≠ id → has now' id' c' = has now' id' c).
Proof.
  intros Hid Hw Hle. unfold seenRecently. rewrite (proj2 (truthy_str_true id)) by done. simpl.
  destruct (has now id c) eqn:E; simpl; split_and!; try done.
  - intros _.
    assert (has now' id (mark now id c) = (now' - now <? dc_windowMs c)) as Hh.
    { unfold has. rewrite mark_lookup by done. rewrite String.eqb_refl. unfold mark.
      by destruct (truthy_str id). }
    rewrite Hh. rewrite <- Z.ltb_lt. by destruct (now' - now <? dc_windowMs c).
  - intros Hne. unfold has. destruct (decide (id' = EmptyString)) as [->|Hne'].
    + unfold mark. rewrite (proj2 (truthy_str_true id)) by done. simpl. by rewrite lookup_insert_ne.
    + rewrite mark_lookup by done. unfold mark. rewrite (proj2 (truthy_str_true id)) by done. simpl.
      by destruct (String.eqb_spec id' id).
Qed.

Lemma seenRecently_once_per_window_witness :
  let c := (seenRecently 10 "a" (mkCache ∅ 100)).2 in (seenRecently 60 "a" c).1 = true.
Proof.
  pose proof (seenRecently_once_per_window 10 60 "a" "b" (mkCache ∅ 100) ltac:(discriminate) ltac:(reflexivity) ltac:(discriminate)) as H.
  destruct (seenRecently 10 "a" (mkCache ∅ 100)) as [ans c'] eqn:E. vm_compute in E. injection E as <- <-.
  apply H; reflexivity.
Defined.
