(* ===== verification/Callback.v ===== *)
(** * Handlers and callbacks (workflow-sdk-node/src/handler/registry.ts,
    runner/callback.ts, client/types.ts, client/rest.ts)

    [deliver] loops until the engine answers; what happens in one round of the
    loop (the answer of the engine, whether the signal is aborted at each of
    the points the code looks) is a [Round], and the loop consumes a list of
    them.  A list that ends before the loop does leaves it waiting. *)

From S2P Require Import Prelude JsObject ImportExport.

(** ** Jobs and handlers *)

Record Job := mkJob {
  job_id : string;
  job_jobType : string;
  job_instanceId : string;
  job_stepExecutionId : string;
  job_retriesRemaining : Z;
  job_variables : option (obj json);
  job_lockExpiresAt : option string
}.

Record JobContext := mkContext {
  jc_jobId : string;
  jc_instanceId : string;
  jc_jobType : string;
  jc_retriesRemaining : Z;
  jc_variables : obj json
}.

(** What the promise of a handler settles to: [variablesToSet], or the text of
    what was thrown and whether it is a [NonRetryableError]. *)
Inductive HandlerResult :=
| HandlerReturns (variablesToSet : option (obj json))
| HandlerThrows (message : string) (nonRetryable : bool).

Abbreviation Handler := (JobContext → HandlerResult).

(** A [Map]: insertion order, one entry per key. *)
Abbreviation HandlerRegistry := (list (string * Handler)).

Fixpoint map_set (k : string) (v : Handler) (m : HandlerRegistry) : HandlerRegistry :=
  match m with
  | [] => [(k, v)]
  | (k', v') :: m => if String.eqb k k' then (k', v) :: m else (k', v') :: map_set k v m
  end.

Fixpoint registry_get (jobType : string) (m : HandlerRegistry) : option Handler :=
  match m with
  | [] => None
  | (k, v) :: m => if String.eqb jobType k then Some v else registry_get jobType m
  end.

(** [None] is the thrown error for an empty job type. *)
Definition register (jobType : string) (handler : Handler) (r : HandlerRegistry) : option HandlerRegistry :=
  if negb (truthy_str jobType) then None else Some (map_set jobType handler r).

Definition jobTypes (r : HandlerRegistry) : list string := r.*1.

Definition contextFrom (job : Job) : JobContext :=
  mkContext (job_id job) (job_instanceId job) (job_jobType job) (job_retriesRemaining job)
    (default [] (job_variables job)).

(** ** Outcomes *)

Inductive Outcome :=
| Complete (variables : string)
| Failed (message : string) (retryable : bool).

Definition execute `{JsonText} (registry : HandlerRegistry) (job : Job) : Outcome :=
  match registry_get (job_jobType job) registry with
  | None => Failed ("no handler registered for " ⊕ job_jobType job) false
  | Some handler =>
      match handler (contextFrom job) with
      | HandlerReturns vars => Complete (JSON_stringify (JObj (default [] vars)))
      | HandlerThrows message nonRetryable => Failed message (negb nonRetryable)
      end
  end.

(** ** Errors of a callback *)

(** An [HttpError]; another object with a [code] ([None] when [Number(code)] is
    not an integer); anything else. *)
Inductive CallError :=
| HttpError (statusCode : nat)
| CodeError (code : option nat)
| OtherError (message : string).

Definition permanent (err : CallError) : bool :=
  match err with
  | HttpError s => Nat.leb 400 s && Nat.ltb s 500 && negb (existsb (Nat.eqb s) [408; 429])
  | CodeError (Some c) => existsb (Nat.eqb c) [3; 5; 6; 7; 9; 11; 12; 15; 16]
  | CodeError None | OtherError _ => false
  end.

(** [completeJob] and [failJob] of the REST client: the answer's status, or a
    transport error. *)
Definition rest_callback (answer : nat + string) : option CallError :=
  match answer with
  | inr message => Some (OtherError message)
  | inl status =>
      if (negb (Nat.leb 200 status && Nat.leb status 299) && negb (Nat.eqb status 204))%bool
      then Some (HttpError status) else None
  end.

(** ** The delivery loop *)

Inductive Call :=
| CompleteJob (jobId workerId : string) (variables : json + string)
| FailJob (jobId workerId message : string) (retryable : bool).

Record Round := mkRound {
  rd_aborted_before : bool;
  rd_answer : option CallError;
  rd_aborted_after : bool;
  rd_aborted_waiting : bool
}.

(** The counters and the gauge of one dispatch mode and callback kind. *)
Record CallbackMetrics := mkMetrics {
  cm_pending : Z;
  cm_retries : nat;
  cm_rejected : nat
}.

Inductive DeliverEnd :=
| Delivered
| ThrewError (e : CallError)
| ThrewAbort
| Waiting.

#[export] Instance CallError_eq_dec : EqDecision CallError.
Proof. solve_decision. Defined.

#[export] Instance DeliverEnd_eq_dec : EqDecision DeliverEnd.
Proof. solve_decision. Defined.

Section deliver.
Context (retry : bool) (call : Call).

Fixpoint deliver_loop (rounds : list Round) (calls : list Call) (m : CallbackMetrics) :
    DeliverEnd * list Call * CallbackMetrics :=
  match rounds with
  | [] => (Waiting, calls, m)
  | r :: rounds =>
      if rd_aborted_before r then (ThrewAbort, calls, m)
      else
        let calls := calls ++ [call] in
        if rd_aborted_after r then (ThrewAbort, calls, m)
        else
          match rd_answer r with
          | None => (Delivered, calls, m)
          | Some e =>
              if permanent e
              then (ThrewError e, calls, mkMetrics (cm_pending m) (cm_retries m) (S (cm_rejected m)))
              else if negb retry then (ThrewError e, calls, m)
              else
                let m := mkMetrics (cm_pending m) (S (cm_retries m)) (cm_rejected m) in
                if rd_aborted_waiting r then (ThrewAbort, calls, m)
                else deliver_loop rounds calls m
          end
  end.

(** With [trackCallback] before the loop and [finish()] in its [finally]. *)
Definition deliver (rounds : list Round) (m : CallbackMetrics) : DeliverEnd * list Call * CallbackMetrics :=
  let '(e, calls, m) := deliver_loop rounds [] (mkMetrics (cm_pending m + 1) (cm_retries m) (cm_rejected m)) in
  let m := match e with
           | Waiting => m
           | _ => mkMetrics (cm_pending m - 1) (cm_retries m) (cm_rejected m)
           end in
  (e, calls, m).
End deliver.

(** The call [deliver] makes for an outcome. *)
Definition outcome_call `{JsonText} (workerId jobId : string) (o : Outcome) : Call :=
  match o with
  | Complete vars => CompleteJob jobId workerId (JSON_parse vars)
  | Failed message retryable => FailJob jobId workerId message retryable
  end.

(** ** Lemmas *)

(** A round after which the loop goes on. *)
Definition transient (r : Round) : bool :=
  negb (rd_aborted_before r) && negb (rd_aborted_after r) && negb (rd_aborted_waiting r) &&
  match rd_answer r with Some e => negb (permanent e) | None => false end.

(** A round that ends the loop, and how. *)
Definition decisive (retry : bool) (r : Round) : option DeliverEnd :=
  if rd_aborted_before r || rd_aborted_after r then Some ThrewAbort
  else match rd_answer r with
       | None => Some Delivered
       | Some e =>
           if permanent e || negb retry then Some (ThrewError e)
           else if rd_aborted_waiting r then Some ThrewAbort else None
       end.

Lemma decisive_transient r : decisive true r = None ↔ transient r = true.
Proof.
  unfold decisive, transient. destruct r as [b a f w]; simpl.
  destruct b, f, a as [e|], w; simpl; try done; destruct (permanent e); done.
Qed.

Lemma decisive_not_waiting retry r e : decisive retry r = Some e → e ≠ Waiting.
Proof. unfold decisive. intros H ->. by repeat case_match. Qed.

Lemma decisive_delivered retry r :
  decisive retry r = Some Delivered ↔
  rd_answer r = None ∧ rd_aborted_before r = false ∧ rd_aborted_after r = false.
Proof.
  unfold decisive. destruct r as [b a f w]; simpl. split.
  - destruct b, f, a as [err|]; simpl; try done. by repeat case_match.
  - by intros (-> & -> & ->).
Qed.

Lemma decisive_threw retry r err :
  decisive retry r = Some (ThrewError err) → permanent err = true ∨ retry = false.
Proof.
  unfold decisive. destruct (_ || _); [done|]. destruct (rd_answer r) as [e|]; [|done].
  destruct (permanent e) eqn:Ep; simpl; [intros [= <-]; by left|].
  destruct retry; simpl; [by destruct (rd_aborted_waiting r)|by right].
Qed.

Lemma decisive_single r : decisive false r ≠ None.
Proof.
  unfold decisive. destruct (_ || _); [done|]. destruct (rd_answer r) as [e|]; [|done].
  simpl. by rewrite orb_true_r.
Qed.

(** The loop runs through the undecided rounds and stops at the first decisive one. *)
Lemma deliver_loop_spec retry call pre r rest calls m e :
  Forall (λ r, decisive retry r = None) pre → decisive retry r = Some e →
  ∃ calls' m', deliver_loop retry call (pre ++ r :: rest) calls m = (e, calls', m') ∧
    calls' = calls ++ replicate (length pre + (if rd_aborted_before r then 0 else 1)) call ∧
    cm_pending m' = cm_pending m ∧
    cm_rejected m' = cm_rejected m + match e with ThrewError e => if permanent e then 1 else 0 | _ => 0 end.
Proof.
  intros Hpre Hr. revert calls m. induction Hpre as [|r' pre Hr' _ IH]; intros calls m; simpl.
  - unfold decisive in Hr. destruct (rd_aborted_before r); simpl in *.
    { simplify_eq. do 2 eexists. split_and!; [done| |done|]; [by rewrite app_nil_r|lia]. }
    destruct (rd_aborted_after r); simplify_eq.
    { do 2 eexists. split_and!; [done|done|done|lia]. }
    destruct (rd_answer r) as [err|]; simplify_eq.
    + destruct (permanent err) eqn:Ep; simpl in *.
      { simplify_eq. do 2 eexists. split_and!; [done|done|done|]. simpl. rewrite Ep. lia. }
      destruct retry; simpl in *; [|simplify_eq; do 2 eexists; split_and!; [done|done|done|rewrite Ep; lia]].
      destruct (rd_aborted_waiting r); simplify_eq. do 2 eexists. split_and!; [done|done|done|simpl; lia].
    + do 2 eexists. split_and!; [done|done|done|lia].
  - unfold decisive in Hr'. destruct (rd_aborted_before r') eqn:E1; [done|]. simpl in Hr'.
    destruct (rd_aborted_after r'); [done|]. destruct (rd_answer r') as [err|]; [|done].
    destruct (permanent err); [done|]. destruct retry; [|done]. simpl in *.
    destruct (rd_aborted_waiting r'); [done|].
    destruct (IH (calls ++ [call]) (mkMetrics (cm_pending m) (S (cm_retries m)) (cm_rejected m)))
      as (calls' & m' & -> & -> & Hp & Hrej). do 2 eexists. split_and!; [done| |done|done].
    by rewrite <- app_assoc.
Qed.

Lemma deliver_loop_waiting retry call rounds calls m :
  Forall (λ r, decisive retry r = None) rounds →
  ∃ calls' m', deliver_loop retry call rounds calls m = (Waiting, calls', m').
Proof.
  intros H. revert calls m. induction H as [|r rounds Hr _ IH]; intros calls m; simpl; [by do 2 eexists|].
  unfold decisive in Hr. destruct (rd_aborted_before r); [done|]. simpl in Hr.
  destruct (rd_aborted_after r); [done|]. destruct (rd_answer r) as [err|]; [|done].
  destruct (permanent err); [done|]. destruct retry; [|done]. simpl in *.
  destruct (rd_aborted_waiting r); [done|]. apply IH.
Qed.

(** Every call the loop makes is the same one; without retries there is one at most. *)
Lemma deliver_loop_calls retry call rounds calls m :
  ∃ n, (deliver_loop retry call rounds calls m).1.2 = calls ++ replicate n call ∧ (retry = false → n ≤ 1).
Proof.
  revert calls m. induction rounds as [|r rounds IH]; intros calls m; simpl.
  { exists 0. split; [by rewrite app_nil_r|lia]. }
  destruct (rd_aborted_before r); [exists 0; split; [by rewrite app_nil_r|lia]|].
  destruct (rd_aborted_after r); [by exists 1|]. destruct (rd_answer r) as [e|]; [|by exists 1].
  destruct (permanent e); [by exists 1|]. destruct retry; [|by exists 1]. simpl.
  destruct (rd_aborted_waiting r); [by exists 1|].
  destruct (IH (calls ++ [call]) (mkMetrics (cm_pending m) (S (cm_retries m)) (cm_rejected m))) as (n & -> & _).
  exists (S n). split; [by rewrite <- app_assoc|done].
Qed.

Lemma deliver_calls retry call rounds m :
  ∃ n, (deliver retry call rounds m).1.2 = replicate n call ∧ (retry = false → n ≤ 1).
Proof.
  unfold deliver. destruct (deliver_loop_calls retry call rounds []
    (mkMetrics (cm_pending m + 1) (cm_retries m) (cm_rejected m))) as (n & Hn & Hr).
  exists n. destruct (deliver_loop _ _ _ _ _) as [[e calls] m']. done.
Qed.

(** Either every round is undecided, or there is a first decisive one. *)
Lemma first_decisive retry rounds :
  Forall (λ r, decisive retry r = None) rounds ∨
  ∃ pre r rest e, rounds = pre ++ r :: rest ∧ Forall (λ r, decisive retry r = None) pre ∧
    decisive retry r = Some e.
Proof.
  induction rounds as [|r rounds IH]; [by left|]. destruct (decisive retry r) as [e|] eqn:E.
  - right. exists [], r, rounds, e. done.
  - destruct IH as [IH|(pre & r' & rest & e & -> & Hpre & Hr)]; [left; by constructor|].
    right. exists (r :: pre), r', rest, e. split_and!; [done|by constructor|done].
Qed.

(** ** Properties *)

(** Delivery of a callback ends well exactly when the engine acknowledged
    it: [deliver] returns if and only if some attempt was answered without an
    error, the signal was not aborted up to then, and every attempt before
    failed with a retryable error; it made one call per attempt and nothing
    is left pending. *)
Theorem deliver_returns_iff call rounds m :
  let '(e, calls, m') := deliver true call rounds m in
  (e = Delivered ↔ ∃ pre r rest, rounds = pre ++ r :: rest ∧ Forall (λ r, transient r = true) pre ∧
     rd_answer r = None ∧ rd_aborted_before r = false ∧ rd_aborted_after r = false ∧
     calls = replicate (S (length pre)) call) ∧
  (e ≠ Waiting → cm_pending m' = cm_pending m).
Proof.
  unfold deliver. set (m0 := mkMetrics _ _ _).
  destruct (first_decisive true rounds) as [Hall|(pre & r & rest & e & -> & Hpre & Hr)].
  - destruct (deliver_loop_waiting true call rounds [] m0 Hall) as (calls & m' & ->). split; [|done].
    split; [done|]. intros (pre & r & rest & -> & _ & Ha & Hb & Hf & _).
    apply Forall_app in Hall as [_ Hall]. inversion_clear Hall as [|? ? Hr _].
    unfold decisive in Hr. by rewrite Ha, Hb, Hf in Hr.
  - destruct (deliver_loop_spec true call pre r rest [] m0 e Hpre Hr) as (calls & m' & -> & Hcalls & Hp & _).
    pose proof (decisive_not_waiting _ _ _ Hr) as Hw. split.
    + split.
      * intros ->. exists pre, r, rest. split_and!; [done| | | | |].
        { eapply Forall_impl; [exact Hpre|]. intros x Hx. by apply decisive_transient. }
        all: try (by apply decisive_delivered in Hr as (? & ? & ?)).
        rewrite Hcalls. apply decisive_delivered in Hr as (_ & -> & _). simpl. by rewrite Nat.add_comm.
      * intros (pre' & r' & rest' & E & Hpre' & Ha & Hb & Hf & _).
        assert (decisive true r' = Some Delivered) as Hr' by (by apply decisive_delivered).
        assert (Forall (λ r, decisive true r = None) pre') as Hp'
          by (eapply Forall_impl; [exact Hpre'|]; intros x Hx; by apply decisive_transient).
        destruct (deliver_loop_spec true call pre' r' rest' [] m0 _ Hp' Hr') as (c2 & m2 & H2 & _).
        rewrite <- E in H2. destruct (deliver_loop_spec true call pre r rest [] m0 e Hpre Hr) as (c3 & m3 & H3 & _).
        rewrite H3 in H2. congruence.
    + intros _. destruct e; simpl; try done; rewrite Hp; simpl; lia.
Qed.

(** A permanently rejected callback is reported once and never retried: the
    error thrown for it is the engine's, the rejection counter grows by one;
    and without retries there is at most one call. *)
Theorem deliver_rejects_once retry call rounds m :
  let '(e, calls, m') := deliver retry call rounds m in
  (∀ err, e = ThrewError err → permanent err = true ∨ retry = false) ∧
  (e ≠ Waiting → cm_rejected m' =
     cm_rejected m + match e with ThrewError err => if permanent err then 1 else 0 | _ => 0 end) ∧
  (retry = false → length calls ≤ 1).
Proof.
  unfold deliver. set (m0 := mkMetrics _ _ _).
  destruct (first_decisive retry rounds) as [Hall|(pre & r & rest & e & -> & Hpre & Hr)].
  - destruct (deliver_loop_waiting retry call rounds [] m0 Hall) as (calls & m' & E). rewrite E.
    split_and!; [done|done|]. intros ->. destruct rounds as [|r rounds]; [simpl in E; simplify_eq; simpl; lia|].
    inversion_clear Hall as [|? ? Hr _]. by destruct (decisive_single r).
  - destruct (deliver_loop_spec retry call pre r rest [] m0 e Hpre Hr) as (calls & m' & -> & -> & _ & Hrej).
    split_and!.
    + intros err ->. by eapply decisive_threw.
    + intros _. transitivity (cm_rejected m'); [by destruct e|exact Hrej].
    + intros ->. assert (pre = []) as ->.
      { destruct Hpre as [|x pre Hx _]; [done|]. by destruct (decisive_single x). }
      simpl. destruct (rd_aborted_before r); simpl; lia.
Qed.

Lemma registry_get_set k k' v m :
  registry_get k' (map_set k v m) = if String.eqb k' k then Some v else registry_get k' m.
Proof.
  induction m as [|[k1 v1] m IH]; simpl; [done|].
  destruct (String.eqb_spec k k1) as [->|Hne]; simpl.
  - by destruct (String.eqb k' k1).
  - rewrite IH. destruct (String.eqb_spec k' k1) as [->|]; [|done].
    by destruct (String.eqb_spec k1 k).
Qed.

(** What becomes of a job: without a registered handler it fails for good;
    otherwise the handler registered last for its type runs, its result is
    completed, and what it throws fails the job, retryably unless it is a
    [NonRetryableError]. *)
Theorem execute_outcome `{JsonText} jobType h r r' job :
  register jobType h r = Some r' →
  jobType ≠ EmptyString ∧
  execute r' job =
  if String.eqb (job_jobType job) jobType then
    match h (contextFrom job) with
    | HandlerReturns vars => Complete (JSON_stringify (JObj (default [] vars)))
    | HandlerThrows message nonRetryable => Failed message (negb nonRetryable)
    end
  else execute r job.
Proof.
  unfold register. destruct (truthy_str jobType) eqn:E; [|done]. simpl. intros [= <-].
  split; [by apply truthy_str_true|]. unfold execute. rewrite registry_get_set.
  by destruct (String.eqb (job_jobType job) jobType).
Qed.

Definition sample_job : Job := mkJob "j1" "charge" "i1" "s1" 3 None None.

Lemma execute_outcome_witness :
  ∃ r', register "charge" (λ _, HandlerThrows "boom" true) [] = Some r' ∧
        execute r' sample_job = Failed "boom" false.
Proof.
  eexists. split; [reflexivity|].
  apply (execute_outcome "charge" (λ _, HandlerThrows "boom" true) [] _ sample_job). reflexivity.
Defined.
