(* ===== verification/Lease.v ===== *)
(** * The heartbeat of a job's lease (workflow-sdk-node/src/runner/heartbeat.ts,
    [extendJobLease] of client/rest.ts and client/grpc.ts)

    [maintainLease] starts a loop of its own that renews the lease until it is
    aborted.  The loop is a state machine: it waits for an answer of the engine
    or sleeps, and every thing that can happen to it (an answer, the expiry
    timer, the end of a sleep, an abort of the parent signal, [stop()]) is an
    event at a time.  What runs between two awaits reads one [Date.now()]. *)

From S2P Require Import Prelude JsObject ImportExport Utc Backoff Callback.

#[local] Open Scope Z_scope.

(** ** Answers of the engine to a renewal *)

Inductive HeartbeatError :=
| LeaseLostError
| HeartbeatUnsupportedError
| InvalidExpiry
| CallFailed (e : CallError).

#[export] Instance HeartbeatError_eq_dec : EqDecision HeartbeatError.
Proof. solve_decision. Defined.

(** The fields the clients read of the engine's answer. *)
Record HeartbeatBody := mkHeartbeatBody {
  hb_accepted : option bool;
  hb_lockExpiresAt : option string
}.

Definition resp_ok (status : nat) : bool := Nat.leb 200 status && Nat.leb status 299.

Definition invalid_response : HeartbeatError := CallFailed (OtherError "invalid heartbeat response").

(** The check both clients make of an accepted answer. *)
Definition heartbeat_body `{DateText} (b : HeartbeatBody) : string + HeartbeatError :=
  match hb_accepted b, hb_lockExpiresAt b with
  | Some true, Some text =>
      if truthy_str text && bool_decide (is_Some (Date_parse text)) then inl text else inr invalid_response
  | _, _ => inr invalid_response
  end.

(** [RestEngineClient.extendJobLease]: a transport error (with its message), or
    a status with the decoded body. *)
Definition rest_extendJobLease `{DateText} (answer : (nat * HeartbeatBody) + string) : string + HeartbeatError :=
  match answer with
  | inr message => inr (CallFailed (OtherError message))
  | inl (status, body) =>
      if negb (resp_ok status) then
        if existsb (Nat.eqb status) [404; 405; 501]%nat then inr HeartbeatUnsupportedError
        else if Nat.eqb status 409 then inr LeaseLostError
        else inr (CallFailed (HttpError status))
      else heartbeat_body body
  end.

Definition UNIMPLEMENTED : nat := 12.
Definition FAILED_PRECONDITION : nat := 9.

(** [GrpcEngineClient.extendJobLease]: the stub's error or its message. *)
Definition grpc_extendJobLease `{DateText} (answer : HeartbeatBody + CallError) : string + HeartbeatError :=
  match answer with
  | inl body => heartbeat_body body
  | inr (CodeError (Some code)) =>
      if Nat.eqb code UNIMPLEMENTED then inr HeartbeatUnsupportedError
      else if Nat.eqb code FAILED_PRECONDITION then inr LeaseLostError
      else inr (CallFailed (CodeError (Some code)))
  | inr e => inr (CallFailed e)
  end.

(** [permanent] on what the loop catches: only an error of the call carries a code. *)
Definition heartbeat_permanent (e : HeartbeatError) : bool :=
  match e with CallFailed e => permanent e | _ => false end.

(** ** The state of a lease *)

Inductive AbortReason :=
| ParentAborted
| FatalError (e : HeartbeatError)
| Raised (e : HeartbeatError)
| Stopped.

Inductive Phase :=
| Calling (timeoutAt : Z)
| Sleeping (wakeAt : Z)
| Ended.

Inductive ReadyState := ReadyPending | Ready | ReadyRejected.

(** The labels of the [heartbeats] counter. *)
Inductive Beat := Accepted | LeaseLost | Rejected | Retry.

#[export] Instance Beat_eq_dec : EqDecision Beat.
Proof. solve_decision. Defined.

#[export] Instance Phase_eq_dec : EqDecision Phase.
Proof. solve_decision. Defined.

Record Lease := mkLease {
  ls_expiry : Z;
  ls_timer : option Z;
  ls_abort : option AbortReason;
  ls_phase : Phase;
  ls_attempt : Z;
  ls_ready : ReadyState;
  ls_beats : list Beat;
  ls_fatals : list HeartbeatError
}.

Definition armExpiry (now : Z) (l : Lease) : Lease :=
  mkLease (ls_expiry l) (Some (now + Z.max 1 (ls_expiry l - now))) (ls_abort l) (ls_phase l)
    (ls_attempt l) (ls_ready l) (ls_beats l) (ls_fatals l).

(** The head of the loop: the request, with its own timeout. *)
Definition begin_call (now : Z) (l : Lease) : Lease :=
  mkLease (ls_expiry l) (ls_timer l) (ls_abort l)
    (Calling (now + Z.max 1 (Z.min 5000 (ls_expiry l - now))))
    (ls_attempt l) (ls_ready l) (ls_beats l) (ls_fatals l).

Definition sleep_until (wake : Z) (l : Lease) : Lease :=
  mkLease (ls_expiry l) (ls_timer l) (ls_abort l) (Sleeping wake)
    (ls_attempt l) (ls_ready l) (ls_beats l) (ls_fatals l).

Definition count_beat (b : Beat) (l : Lease) : Lease :=
  mkLease (ls_expiry l) (ls_timer l) (ls_abort l) (ls_phase l)
    (ls_attempt l) (ls_ready l) (ls_beats l ++ [b]) (ls_fatals l).

(** [controller.abort(reason)]: the first reason is kept. *)
Definition abort_lease (reason : AbortReason) (l : Lease) : Lease :=
  mkLease (ls_expiry l) (ls_timer l) (Some (default reason (ls_abort l))) (ls_phase l)
    (ls_attempt l) (ls_ready l) (ls_beats l) (ls_fatals l).

(** The outer [catch] and [finally] of the loop. *)
Definition end_loop (reason : AbortReason) (l : Lease) : Lease :=
  mkLease (ls_expiry l) None (Some (default reason (ls_abort l))) Ended (ls_attempt l)
    (match ls_ready l with Ready => Ready | _ => ReadyRejected end) (ls_beats l) (ls_fatals l).

(** [fatal(error)] of the runner: it records the error and aborts the parent. *)
Definition call_fatal (e : HeartbeatError) (l : Lease) : Lease :=
  let l := abort_lease (FatalError e) l in
  mkLease (ls_expiry l) (ls_timer l) (ls_abort l) (ls_phase l)
    (ls_attempt l) (ls_ready l) (ls_beats l) (ls_fatals l ++ [e]).

(** The inner [catch] of the loop; [p] is the [Math.random()] of [delay]. *)
Definition catch_error (now p : Z) (e : HeartbeatError) (l : Lease) : Lease :=
  match ls_abort l with
  | Some reason => end_loop reason l
  | None =>
      if bool_decide (e = LeaseLostError) then end_loop (Raised e) (count_beat LeaseLost l)
      else if bool_decide (e = HeartbeatUnsupportedError) || heartbeat_permanent e
      then end_loop (Raised e) (call_fatal e (count_beat Rejected l))
      else
        let l := count_beat Retry l in
        let attempt := ls_attempt l + 1 in
        let l := mkLease (ls_expiry l) (ls_timer l) (ls_abort l) (ls_phase l)
                   attempt (ls_ready l) (ls_beats l) (ls_fatals l) in
        sleep_until (now + Z.max 1 (Z.min (delay attempt p) (ls_expiry l - now))) l
  end.

(** The body of the loop from the answer on. *)
Definition settle `{DateText} (now p intervalMs : Z) (r : string + HeartbeatError) (l : Lease) : Lease :=
  match r with
  | inr e => catch_error now p e l
  | inl text =>
      if ls_expiry l <=? now then catch_error now p LeaseLostError l
      else
        match Date_parse text with
        | Some next =>
            if (next <? ls_expiry l) || (next <=? now)
            then catch_error now p InvalidExpiry (call_fatal InvalidExpiry l)
            else
              let l := armExpiry now
                         (mkLease next (ls_timer l) (ls_abort l) (ls_phase l) 0 Ready
                            (ls_beats l ++ [Accepted]) (ls_fatals l)) in
              sleep_until (now + Z.max 1 (Z.min intervalMs ((next - now) / 3))) l
        | None => catch_error now p InvalidExpiry (call_fatal InvalidExpiry l)
        end
  end.

Inductive LeaseEvent :=
| Answers (r : string + HeartbeatError) (p : Z)
| TimerFires
| Wakes
| ParentAborts
| Stops.

(** An event that cannot happen in a state leaves it alone: no answer without
    a request, no timer before its time, nothing after the end. *)
Definition lease_step `{DateText} (intervalMs now : Z) (e : LeaseEvent) (l : Lease) : Lease :=
  match ls_phase l with
  | Ended => l
  | Calling _ | Sleeping _ =>
      match e, ls_phase l with
      | Answers r p, Calling _ => settle now p intervalMs r l
      | Wakes, Sleeping wake => if wake <=? now then begin_call now l else l
      | TimerFires, _ =>
          match ls_timer l with
          | Some t => if t <=? now then end_loop (Raised LeaseLostError) (count_beat LeaseLost l) else l
          | None => l
          end
      | ParentAborts, _ => end_loop ParentAborted l
      | Stops, _ => end_loop Stopped l
      | _, _ => l
      end
  end.

(** The synchronous part of [maintainLease]: it throws, or the loop has sent
    its first request. *)
Definition start_lease `{DateText} (lockExpiresAt : option string) (now : Z) : Lease + HeartbeatError :=
  match Date_parse (default EmptyString lockExpiresAt) with
  | None => inr (CallFailed (OtherError "heartbeat requires lockExpiresAt lease metadata"))
  | Some expiry =>
      if expiry <=? now then inr LeaseLostError
      else inl (begin_call now (armExpiry now (mkLease expiry None None (Calling 0) 0 ReadyPending [] [])))
  end.

(** [valid()] of the object it returns. *)
Definition valid (l : Lease) (now : Z) : bool :=
  match ls_abort l with None => now <? ls_expiry l | Some _ => false end.

(** ** Traces *)

Fixpoint run_lease `{DateText} (intervalMs : Z) (evs : list (Z * LeaseEvent)) (l : Lease) : Lease :=
  match evs with
  | [] => l
  | (now, e) :: evs => run_lease intervalMs evs (lease_step intervalMs now e l)
  end.

(** The clock never goes back. *)
Fixpoint timed (t : Z) (evs : list (Z * LeaseEvent)) : Prop :=
  match evs with [] => True | (now, _) :: evs => t ≤ now ∧ timed now evs end.

Definition end_time (t : Z) (evs : list (Z * LeaseEvent)) : Z := foldl (λ _ e, e.1) t evs.

(** ** Lemmas *)

Section lease.
Context `{DateText} (intervalMs : Z).

(** A lease is live until its loop ends; while it is live its timer is set to
    the expiry and nothing was lost or fatal. *)
Record lease_ok (l : Lease) : Prop := {
  ok_abort : ls_abort l = None ↔ ls_phase l ≠ Ended;
  ok_timer : ls_phase l ≠ Ended → ls_timer l = Some (ls_expiry l);
  ok_beats : ls_phase l ≠ Ended → LeaseLost ∉ ls_beats l ∧ ls_fatals l = [];
  ok_lost : (length (filter (λ b, b = LeaseLost) (ls_beats l)) ≤ 1)%nat;
  ok_fatals : (length (ls_fatals l) ≤ 1)%nat
}.

(** How an event moves a live lease: it ends, keeping its expiry; it renews,
    moving the expiry forward in time; or it goes on. *)
Inductive lease_move (now : Z) (e : LeaseEvent) (l l' : Lease) : Prop :=
| MoveEnd : ls_phase l' = Ended → ls_abort l' ≠ None → ls_expiry l' = ls_expiry l →
    (length (filter (λ b, b = LeaseLost) (ls_beats l')) ≤ 1)%nat → (length (ls_fatals l') ≤ 1)%nat →
    lease_move now e l l'
| MoveRenew text p : e = Answers (inl text) p → Date_parse text = Some (ls_expiry l') →
    now < ls_expiry l → ls_expiry l ≤ ls_expiry l' → now < ls_expiry l' → ls_abort l' = None →
    ls_phase l' = Sleeping (now + Z.max 1 (Z.min intervalMs ((ls_expiry l' - now) / 3))) →
    ls_timer l' = Some (ls_expiry l') → ls_beats l' = ls_beats l ++ [Accepted] → ls_fatals l' = ls_fatals l →
    lease_move now e l l'
| MoveOn bs : ls_phase l' ≠ Ended → ls_abort l' = None → ls_expiry l' = ls_expiry l →
    ls_timer l' = ls_timer l → ls_fatals l' = ls_fatals l → ls_beats l' = ls_beats l ++ bs →
    LeaseLost ∉ bs → lease_move now e l l'.

Lemma live_no_lost bs : LeaseLost ∉ bs → filter (λ b, b = LeaseLost) bs = [].
Proof.
  induction bs as [|b bs IH]; [done|]. intros Hn. rewrite not_elem_of_cons in Hn. destruct Hn as [Hb Hn].
  rewrite filter_cons_False by congruence. by apply IH.
Qed.

Lemma catch_error_move now p e ev l :
  lease_ok l → ls_phase l ≠ Ended → lease_move now ev l (catch_error now p e l).
Proof.
  intros Hok Hlive. destruct (ok_beats l Hok Hlive) as [Hb Hf]. unfold catch_error.
  rewrite (proj2 (ok_abort l Hok) Hlive).
  destruct (bool_decide (e = LeaseLostError)).
  { apply MoveEnd; simpl; [done|done|done| |by rewrite Hf; simpl; lia].
    rewrite filter_app, live_no_lost by done. simpl. lia. }
  destruct (bool_decide (e = HeartbeatUnsupportedError) || heartbeat_permanent e).
  { apply MoveEnd; simpl; [done|done|done| |by rewrite Hf; simpl; lia].
    rewrite filter_app, live_no_lost by done. simpl. lia. }
  apply (MoveOn _ _ _ _ [Retry]); simpl; try done.
  - by apply (ok_abort l Hok).
  - set_solver.
Qed.

Lemma invalid_expiry_move now p ev l :
  lease_ok l → ls_phase l ≠ Ended →
  lease_move now ev l (catch_error now p InvalidExpiry (call_fatal InvalidExpiry l)).
Proof.
  intros Hok Hlive. destruct (ok_beats l Hok Hlive) as [Hb Hf]. unfold catch_error. simpl.
  apply MoveEnd; simpl; [done|done|done|by apply (ok_lost l Hok)|by rewrite Hf; simpl; lia].
Qed.

Lemma lease_step_move now e l :
  lease_ok l → ls_phase l ≠ Ended → lease_move now e l (lease_step intervalMs now e l).
Proof.
  intros Hok Hlive. destruct (ok_beats l Hok Hlive) as [Hb Hf].
  assert (lease_move now e l l) as Hstay.
  { apply (MoveOn _ _ _ _ []); try done; [by apply (ok_abort l Hok)|by rewrite app_nil_r|set_solver]. }
  unfold lease_step. destruct (ls_phase l) as [t|w|] eqn:Eph; [| |done].
  all: destruct e as [r p| | | |]; try done.
  - unfold settle. destruct r as [text|err]; [|apply catch_error_move; [done|by rewrite Eph]].
    destruct (Z.leb_spec (ls_expiry l) now); [apply catch_error_move; [done|by rewrite Eph]|].
    destruct (Date_parse text) as [next|] eqn:Ed; [|apply invalid_expiry_move; [done|by rewrite Eph]].
    destruct (Z.ltb_spec next (ls_expiry l)); simpl; [apply invalid_expiry_move; [done|by rewrite Eph]|].
    destruct (Z.leb_spec next now); [apply invalid_expiry_move; [done|by rewrite Eph]|].
    apply (MoveRenew _ _ _ _ text p); simpl; try done; [|f_equal; lia].
    apply (ok_abort l Hok). by rewrite Eph.
  - destruct (ls_timer l) as [t'|]; [|done]. destruct (Z.leb_spec t' now); [|done].
    apply MoveEnd; simpl; [done|done|done| |by rewrite Hf; simpl; lia].
    rewrite filter_app, live_no_lost by done. simpl. lia.
  - apply MoveEnd; simpl; [done|done|done|by apply (ok_lost l Hok)|by apply (ok_fatals l Hok)].
  - apply MoveEnd; simpl; [done|done|done|by apply (ok_lost l Hok)|by apply (ok_fatals l Hok)].
  - destruct (ls_timer l) as [t'|]; [|done]. destruct (Z.leb_spec t' now); [|done].
    apply MoveEnd; simpl; [done|done|done| |by rewrite Hf; simpl; lia].
    rewrite filter_app, live_no_lost by done. simpl. lia.
  - destruct (Z.leb_spec w now); [|done]. apply (MoveOn _ _ _ _ []); simpl; try done.
    + apply (ok_abort l Hok). by rewrite Eph.
    + by rewrite app_nil_r.
    + set_solver.
  - apply MoveEnd; simpl; [done|done|done|by apply (ok_lost l Hok)|by apply (ok_fatals l Hok)].
  - apply MoveEnd; simpl; [done|done|done|by apply (ok_lost l Hok)|by apply (ok_fatals l Hok)].
Qed.

Lemma ended_stays now e l : ls_phase l = Ended → lease_step intervalMs now e l = l.
Proof. unfold lease_step. by intros ->. Qed.

Lemma lease_step_ok now e l : lease_ok l → lease_ok (lease_step intervalMs now e l).
Proof.
  intros Hok. destruct (decide (ls_phase l = Ended)) as [He|Hlive]; [by rewrite ended_stays|].
  destruct (ok_beats l Hok Hlive) as [Hb Hf].
  destruct (lease_step_move now e l Hok Hlive)
    as [Hp Ha _ Hl Hfs|text p _ _ _ _ _ Ha Hp Ht Hbs Hfs|bs Hp Ha Hx Ht Hfs Hbs Hn].
  - split; [by split|by rewrite Hp..|done|done].
  - assert (LeaseLost ∉ ls_beats (lease_step intervalMs now e l)) as Hno by (rewrite Hbs; set_solver).
    split; rewrite ?Hfs, ?Hf, ?Hp, ?Ha; try done; [by rewrite live_no_lost; [simpl; lia|]|simpl; lia].
  - assert (LeaseLost ∉ ls_beats (lease_step intervalMs now e l)) as Hno by (rewrite Hbs; set_solver).
    split; rewrite ?Hfs, ?Hf, ?Ha; try done; [|by rewrite live_no_lost; [simpl; lia|]|simpl; lia].
    intros _. rewrite Ht, Hx. by apply (ok_timer l Hok).
Qed.

Lemma run_lease_ok evs l : lease_ok l → lease_ok (run_lease intervalMs evs l).
Proof. revert l. induction evs as [|[t e] evs IH]; simpl; [done|]. intros l Hok. by apply IH, lease_step_ok. Qed.

Lemma start_lease_ok lock t l :
  start_lease lock t = inl l →
  lease_ok l ∧ Date_parse (default EmptyString lock) = Some (ls_expiry l) ∧ t < ls_expiry l.
Proof.
  unfold start_lease. destruct (Date_parse _) as [x|]; [|done].
  destruct (Z.leb_spec x t); [done|]. intros [= <-]. split_and!; simpl; [|done|done].
  split; simpl; [done| |intros _; split; [set_solver|done]|lia|lia]. intros _. f_equal. lia.
Qed.

Lemma lease_step_expiry now e l :
  lease_ok l →
  ls_expiry (lease_step intervalMs now e l) = ls_expiry l ∨
  ∃ text p, e = Answers (inl text) p ∧ Date_parse text = Some (ls_expiry (lease_step intervalMs now e l)) ∧
    now < ls_expiry l ≤ ls_expiry (lease_step intervalMs now e l).
Proof.
  intros Hok. destruct (decide (ls_phase l = Ended)) as [He|Hlive]; [left; by rewrite ended_stays|].
  destruct (lease_step_move now e l Hok Hlive); [by left| |by left]. right. naive_solver.
Qed.

(** An invalid lease stays invalid, whatever happens later. *)
Lemma lease_step_invalid now e l :
  lease_ok l → valid l now = false → valid (lease_step intervalMs now e l) now = false.
Proof.
  intros Hok. unfold valid. destruct (decide (ls_phase l = Ended)) as [He|Hlive].
  { by rewrite ended_stays. }
  rewrite (proj2 (ok_abort l Hok) Hlive). intros Hx%Z.ltb_ge.
  destruct (lease_step_move now e l Hok Hlive)
    as [_ Ha _ _ _|text p _ _ Hlt _ _ _ _ _ _ _|bs _ Ha Hexp _ _ _ _].
  - by destruct (ls_abort _).
  - lia.
  - rewrite Ha, Hexp. by apply Z.ltb_ge.
Qed.

Lemma valid_later l t t' : t ≤ t' → valid l t = false → valid l t' = false.
Proof. unfold valid. destruct (ls_abort l); [done|]. intros ? ?%Z.ltb_ge. apply Z.ltb_ge. lia. Qed.

Lemma run_lease_invalid evs l t :
  lease_ok l → timed t evs → valid l t = false → valid (run_lease intervalMs evs l) (end_time t evs) = false.
Proof.
  revert l t. induction evs as [|[t' e] evs IH]; intros l t Hok; simpl; [done|].
  intros [Hle Ht] Hv. apply IH; [by apply lease_step_ok|done|].
  apply lease_step_invalid; [done|]. by eapply valid_later.
Qed.

Lemma run_lease_granted evs l t :
  lease_ok l → timed t evs →
  ls_expiry l ≤ ls_expiry (run_lease intervalMs evs l) ∧
  (ls_expiry (run_lease intervalMs evs l) = ls_expiry l ∨
   ∃ t' text p, (t', Answers (inl text) p) ∈ evs ∧
     Date_parse text = Some (ls_expiry (run_lease intervalMs evs l))).
Proof.
  revert l t. induction evs as [|[t' e] evs IH]; intros l t Hok; simpl; [split; [lia|by left]|].
  intros [Hle Ht]. destruct (IH (lease_step intervalMs t' e l) t') as [Hmon Hor]; [by apply lease_step_ok|done|].
  assert (ls_expiry l ≤ ls_expiry (lease_step intervalMs t' e l)) as Hstep
    by (destruct (lease_step_expiry t' e l Hok) as [->|(? & ? & _ & _ & ?)]; lia).
  split; [lia|]. destruct Hor as [Heq|(t2 & text & p & Hin & Hd)].
  - rewrite Heq. destruct (lease_step_expiry t' e l Hok) as [->|(text & p & -> & Hd & _)]; [by left|].
    right. exists t', text, p. split; [by left|done].
  - right. exists t2, text, p. split; [by right|done].
Qed.

Lemma run_lease_app evs1 evs2 l :
  run_lease intervalMs (evs1 ++ evs2) l = run_lease intervalMs evs2 (run_lease intervalMs evs1 l).
Proof. revert l. induction evs1 as [|[t e] evs1 IH]; intros l; simpl; [done|]. apply IH. Qed.

End lease.

(** ** Properties *)

(** A lease that [valid()] reports is one the engine granted and that has
    not run out: after any history of answers, timers and aborts, if [valid()]
    holds at a time then that time is before an expiry which is the job's own
    lock or was in an answer of the engine, and which is no earlier than the
    lock. *)
Theorem lease_valid_means_granted `{DateText} intervalMs lock t0 l0 evs now :
  start_lease lock t0 = inl l0 → timed t0 evs →
  valid (run_lease intervalMs evs l0) now = true →
  ∃ expiry, now < expiry ∧ ls_expiry l0 ≤ expiry ∧
    (Date_parse (default EmptyString lock) = Some expiry ∨
     ∃ t text p, (t, Answers (inl text) p) ∈ evs ∧ Date_parse text = Some expiry).
Proof.
  intros (Hok & Hlock & _)%start_lease_ok Ht Hv.
  destruct (run_lease_granted intervalMs evs l0 t0 Hok Ht) as [Hmon Hor].
  exists (ls_expiry (run_lease intervalMs evs l0)). unfold valid in Hv.
  destruct (ls_abort (run_lease intervalMs evs l0)); [done|]. apply Z.ltb_lt in Hv.
  split_and!; [done|done|]. destruct Hor as [->|Hor]; [by left|by right].
Qed.

(** C16: a lost lease is never revived: once [valid()] is false, at the time of
    the last event or later, it is false after everything that follows, even if
    the engine answers a late renewal with a new expiry. *)
Theorem lease_never_revived `{DateText} intervalMs lock t0 l0 evs1 t evs2 t2 :
  start_lease lock t0 = inl l0 → timed t evs2 →
  valid (run_lease intervalMs evs1 l0) t = false → end_time t evs2 ≤ t2 →
  valid (run_lease intervalMs (evs1 ++ evs2) l0) t2 = false.
Proof.
  intros (Hok & _ & _)%start_lease_ok Ht Hv Hle. rewrite run_lease_app.
  eapply valid_later; [exact Hle|]. apply run_lease_invalid; [|done|done]. by apply run_lease_ok.
Qed.

(** The ownership signal is exact and each end is counted once: while the
    loop runs, the signal is not aborted, its timer is set to the granted
    expiry, and neither a loss nor a fatal error was reported; once it has
    ended the signal is aborted; a loss is counted, and a fatal error reported,
    at most once. *)
Theorem lease_signal_exact `{DateText} intervalMs lock t0 l0 evs :
  start_lease lock t0 = inl l0 →
  let l := run_lease intervalMs evs l0 in
  (ls_phase l = Ended ↔ ls_abort l ≠ None) ∧
  (ls_phase l ≠ Ended → ls_timer l = Some (ls_expiry l) ∧ LeaseLost ∉ ls_beats l ∧ ls_fatals l = []) ∧
  (length (filter (λ b, b = LeaseLost) (ls_beats l)) ≤ 1)%nat ∧ (length (ls_fatals l) ≤ 1)%nat.
Proof.
  intros (Hok & _ & _)%start_lease_ok l.
  assert (lease_ok l) as [Ha Ht Hb Hl Hf] by (by apply run_lease_ok).
  split_and!; [|by intros Hn; split; [apply Ht|apply Hb]|done|done].
  destruct (ls_phase l); [split; [done|intros Hn; by destruct Hn; apply Ha]..|].
  split; [intros _ Hn; by apply Ha in Hn|done].
Qed.

Lemma http_permanent s : permanent (HttpError s) = bool_decide (400 ≤ s < 500 ∧ s ≠ 408 ∧ s ≠ 429)%nat.
Proof.
  apply eq_true_iff_eq. rewrite bool_decide_eq_true. cbn [permanent existsb].
  rewrite orb_false_r, !andb_true_iff, negb_true_iff, orb_false_iff, Nat.leb_le, Nat.ltb_lt, !Nat.eqb_neq. lia.
Qed.

(** How the loop reacts to an error status of the engine: it goes on, to
    retry, exactly for 408, 429, the codes below 400 and the server errors
    other than 501; 409 ends it as a loss without stopping the runner; any
    other status is reported as fatal. *)
Theorem heartbeat_rest_reaction `{DateText} intervalMs now p c status body l :
  lease_ok l → ls_phase l = Calling c → resp_ok status = false →
  let l' := lease_step intervalMs now (Answers (rest_extendJobLease (inl (status, body))) p) l in
  (ls_phase l' ≠ Ended ↔
     (status = 408 ∨ status = 429 ∨ status < 400 ∨ 500 ≤ status ∧ status ≠ 501)%nat) ∧
  (ls_fatals l' = [] ↔ ls_phase l' ≠ Ended ∨ status = 409%nat).
Proof.
  intros Hok Hc Hs. destruct (ok_beats l Hok) as [_ Hf]; [by rewrite Hc|].
  assert (ls_abort l = None) as Ha by (apply (ok_abort l Hok); by rewrite Hc).
  unfold lease_step. rewrite Hc. cbn [settle rest_extendJobLease]. rewrite Hs. cbn [negb existsb].
  rewrite orb_false_r.
  destruct (Nat.eqb_spec status 404) as [->|H1]; [|destruct (Nat.eqb_spec status 405) as [->|H2];
    [|destruct (Nat.eqb_spec status 501) as [->|H3];
      [|destruct (Nat.eqb_spec status 409) as [->|H4]]]].
  1-3: unfold settle, catch_error; cbn [orb]; rewrite Ha; simpl; rewrite Hf; simpl;
    split; [split; [done|lia]|split; [done|by intros [?|?]]].
  { unfold settle, catch_error. cbn [orb]. rewrite Ha. simpl. rewrite Hf.
    split; [split; [done|lia]|split; [by right|done]]. }
  unfold settle, catch_error. cbn [orb]. rewrite Ha, !bool_decide_false by done. cbn [orb heartbeat_permanent].
  rewrite http_permanent. case_bool_decide; simpl; rewrite Hf.
  - split; [split; [done|lia]|split; [done|by intros [?|?]]].
  - split; [split; [lia|done]|split; [by left|done]].
Qed.

(** Witnesses: times are written in unary digits. *)
Definition unary_date : DateText := {| Date_parse := λ s,
  match s with EmptyString => None | _ => Some (Z.of_nat (String.length s)) end |}.

Definition sample_lease : Lease :=
  match @start_lease unary_date (Some "1111111111") 2 with
  | inl l => l
  | inr _ => mkLease 0 None None Ended 0 ReadyPending [] []
  end.

Definition sample_trace : list (Z * LeaseEvent) :=
  [(4, Answers (inl "111111111111") 0); (6, Wakes); (7, Answers (inr (CallFailed (OtherError "net"))) 0)].

Lemma lease_valid_means_granted_witness :
  ∃ expiry, 11 < expiry ∧ 10 ≤ expiry ∧
    (Some 10 = Some expiry ∨
     ∃ t text p, (t, Answers (inl text) p) ∈ sample_trace ∧ @Date_parse unary_date text = Some expiry).
Proof.
  apply (@lease_valid_means_granted unary_date 5 (Some "1111111111") 2 sample_lease sample_trace 11).
  - reflexivity.
  - simpl. lia.
  - reflexivity.
Defined.

Lemma lease_never_revived_witness :
  valid (@run_lease unary_date 5 ([] ++ [(12, Answers (inl "1111111111111111") 0)]) sample_lease) 12 = false.
Proof.
  apply (@lease_never_revived unary_date 5 (Some "1111111111") 2 sample_lease []
           11 [(12, Answers (inl "1111111111111111") 0)] 12).
  - reflexivity.
  - simpl. lia.
  - reflexivity.
  - simpl. lia.
Defined.

Lemma lease_signal_exact_witness :
  ls_timer (@run_lease unary_date 5 sample_trace sample_lease) = Some 12.
Proof.
  destruct (@lease_signal_exact unary_date 5 (Some "1111111111") 2 sample_lease sample_trace eq_refl)
    as (_ & Hlive & _). destruct Hlive as [Ht _]; [discriminate|exact Ht].
Defined.

Lemma heartbeat_rest_reaction_witness :
  ls_fatals (@lease_step unary_date 5 4
    (Answers (@rest_extendJobLease unary_date (inl (503%nat, mkHeartbeatBody None None))) 0) sample_lease) = [].
Proof.
  assert (lease_ok sample_lease) as Hok
    by (by apply (start_lease_ok (H := unary_date) (Some "1111111111") 2)).
  destruct (@heartbeat_rest_reaction unary_date 5 4 0 10 503 (mkHeartbeatBody None None) sample_lease Hok
              eq_refl eq_refl) as [Hgo Hf].
  apply Hf. left. apply Hgo. lia.
Defined.
