(* ===== verification/Runner.v ===== *)
(** * The polling runner (workflow-sdk-node/src/runner/runner.ts)

    The checks of the constructor, the poll loop of [run] as a state machine
    (its events are the answers of polls, the ends of jobs, sleeps, aborts and
    the shutdown timer), and [dispatch]: who owns a job, what happens to the
    owner while the handler runs and around every attempt, and what is sent. *)

From Stdlib Require Import QArith.
From S2P Require Import Prelude JsObject ImportExport Utc Callback Lease.

#[local] Open Scope Z_scope.

(** ** Configuration *)

(** A JavaScript number, finite ones as exact fractions. *)
Inductive jsnum := Num (q : Q) | NaN | Infinity (negative : bool).

Definition num (z : Z) : jsnum := Num (inject_Z z).

Definition num_lt (x y : jsnum) : bool :=
  match x, y with
  | Num a, Num b => negb (Qle_bool b a)
  | NaN, _ | _, NaN => false
  | Infinity n, Infinity n' => n && negb n'
  | Infinity n, Num _ => n
  | Num _, Infinity n => negb n
  end.

Definition isFinite (x : jsnum) : bool := match x with Num _ => true | _ => false end.

Definition isInteger (x : jsnum) : bool :=
  match x with Num q => Z.eqb (Qnum q mod Zpos (Qden q)) 0 | _ => false end.

Definition num_eq (x y : jsnum) : bool :=
  match x, y with
  | Num a, Num b => Qeq_bool a b
  | Infinity n, Infinity n' => Bool.eqb n n'
  | _, _ => false
  end.

(** [x || y] *)
Definition num_or (x y : jsnum) : jsnum :=
  match x with
  | NaN => y
  | Num q => if Qeq_bool q 0 then y else x
  | Infinity _ => x
  end.

(** [x * 1000 / 3] *)
Definition third_ms (x : jsnum) : jsnum :=
  match x with Num q => Num (q * 1000 / 3)%Q | _ => x end.

Record RunnerConfig := mkRunnerConfig {
  rc_workerId : string;
  rc_concurrency : option jsnum;
  rc_pollIntervalMs : option jsnum;
  rc_leaseSeconds : option jsnum;
  rc_heartbeat : option bool;
  rc_heartbeatIntervalMs : option jsnum;
  rc_shutdownTimeoutMs : option jsnum
}.

Record RequiredConfig := mkRequired {
  rq_workerId : string;
  rq_concurrency : jsnum;
  rq_pollIntervalMs : jsnum;
  rq_leaseSeconds : jsnum;
  rq_heartbeat : bool;
  rq_heartbeatIntervalMs : jsnum;
  rq_shutdownTimeoutMs : jsnum
}.

Definition required (cfg : RunnerConfig) : RequiredConfig :=
  mkRequired (rc_workerId cfg) (default (num 64) (rc_concurrency cfg)) (default (num 500) (rc_pollIntervalMs cfg))
    (default (num 0) (rc_leaseSeconds cfg)) (default false (rc_heartbeat cfg))
    (default (third_ms (num_or (default NaN (rc_leaseSeconds cfg)) (num 30))) (rc_heartbeatIntervalMs cfg))
    (default (num 5000) (rc_shutdownTimeoutMs cfg)).

(** The errors the constructor throws, by the field they name. *)
Inductive ConfigError := BadLeaseSeconds | BadHeartbeatInterval | BadShutdownTimeout | BadConcurrency.

(** The constructor: the configuration it keeps, or what it throws. *)
Definition new_Runner (cfg : RunnerConfig) : RequiredConfig + ConfigError :=
  let c := required cfg in
  let lease := rq_leaseSeconds c in
  if (negb (isInteger lease) ||
      (negb (num_eq lease (num 0)) && (num_lt lease (num 5) || num_lt (num 3600) lease)))%bool
  then inr BadLeaseSeconds
  else if (negb (num_lt (num 0) (rq_heartbeatIntervalMs c)) ||
           num_lt (third_ms (num_or lease (num 30))) (rq_heartbeatIntervalMs c))%bool
  then inr BadHeartbeatInterval
  else if (negb (isFinite (rq_shutdownTimeoutMs c)) || negb (num_lt (num 0) (rq_shutdownTimeoutMs c)))%bool
  then inr BadShutdownTimeout
  else if (negb (isInteger (rq_concurrency c)) || num_lt (rq_concurrency c) (num 1))%bool
  then inr BadConcurrency
  else inl c.

(** ** The poll loop *)

Inductive RunError :=
| HeartbeatFatal (e : HeartbeatError)
| ShutdownTimeout.

#[export] Instance RunError_eq_dec : EqDecision RunError.
Proof. solve_decision. Defined.

Inductive RunPhase :=
| Idle
| AwaitSlot
| AwaitPoll (maxJobs : nat)
| PollSleep
| Draining
| Over (thrown : option RunError).

#[export] Instance RunPhase_eq_dec : EqDecision RunPhase.
Proof. solve_decision. Defined.

(** [run_inFlight] is the set of pending dispatches, by number. *)
Record RunState := mkRun {
  run_running : bool;
  run_aborted : bool;
  run_fatalError : option RunError;
  run_inFlight : gset nat;
  run_phase : RunPhase
}.

Definition new_run : RunState := mkRun false false None ∅ Idle.

Definition with_phase (ph : RunPhase) (s : RunState) : RunState :=
  mkRun (run_running s) (run_aborted s) (run_fatalError s) (run_inFlight s) ph.

(** The outer [finally] up to its await: [controller.abort()] and the drain. *)
Definition begin_drain (s : RunState) : RunState :=
  mkRun (run_running s) true (run_fatalError s) (run_inFlight s) Draining.

(** [while (!signal.aborted)] and the test for a free slot. *)
Definition loop_head (concurrency : nat) (s : RunState) : RunState :=
  if run_aborted s then begin_drain s
  else if Nat.leb concurrency (size (run_inFlight s)) then with_phase AwaitSlot s
  else with_phase (AwaitPoll (concurrency - size (run_inFlight s))) s.

Inductive RunEvent :=
| Run
| PollAnswers (pending : gset nat)
| PollFails
| SleepEnds
| JobSettles (pending : nat)
| ReportFatal (e : HeartbeatError)
| ParentAbort
| AllSettled
| DrainTimeout.

(** An abort wakes the awaits that watch the signal. *)
Definition abort_run (s : RunState) : RunState :=
  let s := mkRun (run_running s) true (run_fatalError s) (run_inFlight s) (run_phase s) in
  match run_phase s with AwaitSlot | PollSleep => begin_drain s | _ => s end.

(** What [run] settles to: [if (fatalError) throw fatalError]. *)
Definition finish_run (s : RunState) : RunState := with_phase (Over (run_fatalError s)) s.

(** One event; [heartbeat] and [extends] are the configuration and whether the
    client has [extendJobLease].  [Run] is refused while the runner runs. *)
Definition run_step (concurrency : nat) (heartbeat extends : bool) (e : RunEvent) (s : RunState) : RunState :=
  match e with
  | Run =>
      if run_running s then s
      else if heartbeat && negb extends then s
      else match run_phase s with
           | Idle | Over _ => loop_head concurrency (mkRun true false None ∅ Idle)
           | _ => s
           end
  | PollAnswers pending =>
      match run_phase s with
      | AwaitPoll _ =>
          let s := mkRun (run_running s) (run_aborted s) (run_fatalError s) (run_inFlight s ∪ pending) (run_phase s) in
          if decide (pending = ∅)
          then if run_aborted s then begin_drain s else with_phase PollSleep s
          else loop_head concurrency s
      | _ => s
      end
  | PollFails =>
      match run_phase s with
      | AwaitPoll _ => if run_aborted s then begin_drain s else with_phase PollSleep s
      | _ => s
      end
  | SleepEnds =>
      match run_phase s with PollSleep => loop_head concurrency s | _ => s end
  | JobSettles i =>
      if decide (i ∈ run_inFlight s) then
        let s := mkRun (run_running s) (run_aborted s) (run_fatalError s) (run_inFlight s ∖ {[i]}) (run_phase s) in
        match run_phase s with AwaitSlot => loop_head concurrency s | _ => s end
      else s
  | ReportFatal e =>
      match run_phase s with
      | Idle | Over _ => s
      | _ => abort_run (mkRun (run_running s) (run_aborted s)
                          (Some (default (HeartbeatFatal e) (run_fatalError s))) (run_inFlight s) (run_phase s))
      end
  | ParentAbort =>
      match run_phase s with Idle | Over _ => s | _ => abort_run s end
  | AllSettled =>
      if decide (run_inFlight s = ∅) then
        match run_phase s with
        | Draining => finish_run (mkRun false (run_aborted s) (run_fatalError s) ∅ (run_phase s))
        | Over r => mkRun false (run_aborted s) (run_fatalError s) ∅ (Over r)
        | _ => s
        end
      else s
  | DrainTimeout =>
      match run_phase s with
      | Draining => finish_run (mkRun (run_running s) (run_aborted s)
                                  (Some (default ShutdownTimeout (run_fatalError s))) (run_inFlight s) (run_phase s))
      | _ => s
      end
  end.

(** ** Ownership of a job

    The signal [owned] of [dispatch]: the one of the lease, or
    [AbortSignal.any([signal, AbortSignal.timeout(...)])], whose timer is set to
    the deadline, if there is one. *)

Inductive Owner :=
| LeaseOwner (l : Lease)
| SignalOwner (aborted : bool) (timeoutAt : option Z).

Inductive OwnerEvent :=
| OnLease (e : LeaseEvent)
| SignalAborts
| TimeoutFires.

Definition owner_aborted (o : Owner) : bool :=
  match o with
  | LeaseOwner l => match ls_abort l with Some _ => true | None => false end
  | SignalOwner aborted _ => aborted
  end.

(** The time the owner's timer is set to. *)
Definition owner_timer (o : Owner) : option Z :=
  match o with LeaseOwner l => ls_timer l | SignalOwner _ timeoutAt => timeoutAt end.

Section owner.
Context `{DateText} (intervalMs : Z).

Definition owner_step (now : Z) (e : OwnerEvent) (o : Owner) : Owner :=
  match o, e with
  | LeaseOwner l, OnLease e => LeaseOwner (lease_step intervalMs now e l)
  | LeaseOwner l, SignalAborts => LeaseOwner (lease_step intervalMs now ParentAborts l)
  | SignalOwner _ t, SignalAborts => SignalOwner true t
  | SignalOwner a (Some t), TimeoutFires => SignalOwner (a || (t <=? now)) (Some t)
  | _, _ => o
  end.

Definition run_owner (evs : list (Z * OwnerEvent)) (o : Owner) : Owner :=
  fold_left (λ o te, owner_step te.1 te.2 o) evs o.

(** One turn of the loop of [deliver]: what happens to the owner before the
    attempt starts, while the call is out and while the loop waits; and how the
    call ended. *)
Record Attempt := mkAttempt {
  at_before : list (Z * OwnerEvent);
  at_answer : option CallError;
  at_during : list (Z * OwnerEvent);
  at_waiting : list (Z * OwnerEvent)
}.

Definition owner_before (o : Owner) (a : Attempt) : Owner := run_owner (at_before a) o.
Definition owner_answered (o : Owner) (a : Attempt) : Owner := run_owner (at_during a) (owner_before o a).
Definition owner_after (o : Owner) (a : Attempt) : Owner := run_owner (at_waiting a) (owner_answered o a).

(** What the loop reads of the signal. *)
Fixpoint rounds_of (o : Owner) (attempts : list Attempt) : list Round :=
  match attempts with
  | [] => []
  | a :: attempts =>
      mkRound (owner_aborted (owner_before o a)) (at_answer a) (owner_aborted (owner_answered o a))
        (owner_aborted (owner_after o a)) :: rounds_of (owner_after o a) attempts
  end.

(** The owner when the attempt number [i] starts. *)
Fixpoint owner_at (o : Owner) (attempts : list Attempt) (i : nat) : option Owner :=
  match attempts, i with
  | [], _ => None
  | a :: _, O => Some (owner_before o a)
  | a :: attempts, S i => owner_at (owner_after o a) attempts i
  end.
End owner.

(** ** Dispatch of one job *)

Inductive DispatchEnd :=
| Skipped
| Starting                                    (* still waiting for the first renewal *)
| LeaseFailed (fatal : option HeartbeatError)
| Abandoned
| Sent (e : DeliverEnd) (calls : list Call) (m : CallbackMetrics).

(** What happens around [dispatch]: the signal at its start and in the [catch],
    and its clock reading; what happens to the lease until it is ready; to the
    owner while the handler runs, and the clock then; and the attempts. *)
Record DispatchEnv := mkEnv {
  de_aborted : bool;
  de_now : Z;
  de_starting : list (Z * LeaseEvent);
  de_aborted_catch : bool;
  de_handling : list (Z * OwnerEvent);
  de_done : Z;
  de_attempts : list Attempt
}.

Section dispatch.
Context `{JsonText} `{DateText} (heartbeat : bool) (intervalMs : Z) (workerId : string) (registry : HandlerRegistry).

(** [await maintainLease(...)]: the lease once its first renewal was accepted,
    why it ended before, or still waiting. *)
Definition maintainLease (lockExpiresAt : option string) (env : DispatchEnv) : option (Lease + AbortReason) :=
  match start_lease lockExpiresAt (de_now env) with
  | inr e => Some (inr (Raised e))
  | inl l =>
      let l := run_lease intervalMs (de_starting env) l in
      match ls_ready l with
      | Ready => Some (inl l)
      | _ => inr <$> ls_abort l
      end
  end.

(** The [catch] around it; a fatal error has aborted the signal already. *)
Definition lease_failed (reason : AbortReason) (env : DispatchEnv) : option HeartbeatError :=
  match reason with
  | Raised e => if negb (de_aborted_catch env) && negb (bool_decide (e = LeaseLostError)) then Some e else None
  | ParentAborted | FatalError _ | Stopped => None
  end.

(** The owner once the handler has settled. *)
Definition owner_done (owner : Owner) (env : DispatchEnv) : Owner := run_owner intervalMs (de_handling env) owner.

(** [lease ? !lease.valid() : deadline !== undefined && deadline <= Date.now()] *)
Definition lost (o : Owner) (deadline : option Z) (now : Z) : bool :=
  match o with
  | LeaseOwner l => negb (valid l now)
  | SignalOwner _ _ => match deadline with Some d => d <=? now | None => false end
  end.

(** From the handler on. *)
Definition dispatch_owned (owner : Owner) (deadline : option Z) (job : Job) (env : DispatchEnv)
    (m : CallbackMetrics) : DispatchEnd :=
  let outcome := execute registry job in
  let owned := owner_done owner env in
  if owner_aborted owned || lost owned deadline (de_done env) then Abandoned
  else
    let '(e, calls, m) := deliver (bool_decide (is_Some deadline)) (outcome_call workerId (job_id job) outcome)
                            (rounds_of intervalMs owned (de_attempts env)) m in
    Sent e calls m.

(** The owner: the lease, when heartbeats are on, or the signal with its timer. *)
Definition dispatch_leased (deadline : option Z) (job : Job) (env : DispatchEnv) (m : CallbackMetrics) : DispatchEnd :=
  if heartbeat then
    match maintainLease (job_lockExpiresAt job) env with
    | None => Starting
    | Some (inr reason) => LeaseFailed (lease_failed reason env)
    | Some (inl l) => dispatch_owned (LeaseOwner l) deadline job env m
    end
  else
    dispatch_owned
      (SignalOwner false ((λ d, de_now env + Z.max 1 (d - de_now env)) <$> deadline)) deadline job env m.

Definition dispatch (job : Job) (env : DispatchEnv) (m : CallbackMetrics) : DispatchEnd :=
  if de_aborted env then Skipped
  else
    match Date_parse <$> job_lockExpiresAt job with
    | None => dispatch_leased None job env m
    | Some None => Skipped
    | Some (Some deadline) => if deadline <=? de_now env then Skipped else dispatch_leased (Some deadline) job env m
    end.
End dispatch.

Definition dispatch_calls (d : DispatchEnd) : list Call :=
  match d with Sent _ calls _ => calls | _ => [] end.

(** ** Lemmas *)

(** The answers of the polls of a trace respect [maxJobs] and are new jobs. *)
Definition poll_respects (s : RunState) (e : RunEvent) : Prop :=
  match e, run_phase s with
  | PollAnswers pending, AwaitPoll maxJobs => (size pending ≤ maxJobs)%nat ∧ pending ## run_inFlight s
  | _, _ => True
  end.

Record run_ok (concurrency : nat) (s : RunState) : Prop := {
  ro_slots : (size (run_inFlight s) ≤ concurrency)%nat;
  ro_poll : ∀ n, run_phase s = AwaitPoll n → (size (run_inFlight s) + n ≤ concurrency)%nat;
  ro_idle : run_running s = false → run_inFlight s = ∅ ∧ (run_phase s = Idle ∨ ∃ r, run_phase s = Over r);
  ro_over : ∀ r, run_phase s = Over r → r = run_fatalError s;
  ro_drain : run_phase s = Draining → run_aborted s = true
}.

Lemma loop_head_ok concurrency s :
  run_running s = true → (size (run_inFlight s) ≤ concurrency)%nat → run_ok concurrency (loop_head concurrency s).
Proof.
  intros Hr Hsz. unfold loop_head. destruct (run_aborted s) eqn:Ea.
  { split; simpl; try done; by rewrite Hr. }
  destruct (Nat.leb_spec concurrency (size (run_inFlight s))); split; simpl; try done; try by rewrite Hr.
  intros n [= <-]. lia.
Qed.

Lemma run_phase_live s concurrency :
  run_ok concurrency s → run_phase s ≠ Idle → (∀ r, run_phase s ≠ Over r) → run_running s = true.
Proof.
  intros Hok Hi Ho. destruct (run_running s) eqn:E; [done|].
  destruct (ro_idle _ _ Hok E) as [_ [?|[r ?]]]; [done|by destruct (Ho r)].
Qed.

Lemma abort_run_ok concurrency s :
  run_ok concurrency s → run_running s = true → (∀ r, run_phase s ≠ Over r) → run_ok concurrency (abort_run s).
Proof.
  intros Hok Hr Ho. pose proof (ro_slots _ _ Hok). pose proof (ro_poll _ _ Hok).
  unfold abort_run. simpl. destruct (run_phase s) eqn:E; split; simpl; try done; rewrite ?Hr; try done.
  all: intros r Hph; by destruct (Ho r).
Qed.

Lemma fatal_ok concurrency s e :
  run_ok concurrency s → (∀ r, run_phase s ≠ Over r) → run_ok concurrency
    (mkRun (run_running s) (run_aborted s) e (run_inFlight s) (run_phase s)).
Proof. intros [Hs Hp Hi Ho Hd] Hn. split; simpl; try done. intros r Hr. by destruct (Hn r). Qed.

Lemma settle_ok concurrency s i :
  run_ok concurrency s → i ∈ run_inFlight s → run_ok concurrency
    (mkRun (run_running s) (run_aborted s) (run_fatalError s) (run_inFlight s ∖ {[i]}) (run_phase s)).
Proof.
  intros [Hs Hp Hi Ho Hd] Hin.
  assert (size (run_inFlight s ∖ {[i]}) ≤ size (run_inFlight s))%nat as Hle by (apply subseteq_size; set_solver).
  split; simpl; try done; [lia| |].
  - intros n Hn. specialize (Hp n Hn). lia.
  - intros Hr. destruct (Hi Hr) as [He ?]. rewrite He in Hin. set_solver.
Qed.

Lemma run_step_ok concurrency heartbeat extends e s :
  run_ok concurrency s → poll_respects s e → run_ok concurrency (run_step concurrency heartbeat extends e s).
Proof.
  intros Hok He. pose proof (ro_slots _ _ Hok) as Hsz.
  pose proof (λ H1 H2, run_phase_live s concurrency Hok H1 H2) as Hlive.
  destruct e as [|pending| | |i|err| | |]; cbn [run_step].
  - destruct (run_running s); [done|]. destruct (heartbeat && negb extends); [done|].
    destruct (run_phase s) eqn:E; try done; (apply loop_head_ok; [done|cbn [run_inFlight]; rewrite size_empty; lia]).
  - unfold poll_respects in He. destruct (run_phase s) as [| |n| | |] eqn:E; try done. destruct He as [Hn Hdis].
    assert (run_running s = true) as Hr by (by apply Hlive).
    assert (size (run_inFlight s ∪ pending) ≤ concurrency)%nat as Hu.
    { rewrite size_union by set_solver. pose proof (ro_poll _ _ Hok n E). lia. }
    case_decide; [|by apply loop_head_ok]. simpl.
    destruct (run_aborted s); split; simpl; try done; by rewrite Hr.
  - destruct (run_phase s) as [| |n| | |] eqn:E; try done. assert (run_running s = true) as Hr by (by apply Hlive).
    destruct (run_aborted s); split; simpl; try done; by rewrite Hr.
  - destruct (run_phase s) eqn:E; try done. apply loop_head_ok; [by apply Hlive|done].
  - case_decide as Hin; [|done]. pose proof (settle_ok concurrency s i Hok Hin) as Hok'.
    simpl. destruct (run_phase s) eqn:E; try done.
    apply loop_head_ok; [by apply Hlive|exact (ro_slots _ _ Hok')].
  - destruct (run_phase s) eqn:E; try done; rewrite <- E;
      (apply abort_run_ok; [apply fatal_ok; [done|by rewrite E]|simpl; by apply Hlive|simpl; by rewrite E]).
  - destruct (run_phase s) eqn:E; try done; (apply abort_run_ok; [done|by apply Hlive|by rewrite E]).
  - case_decide as Hem; [|done]. assert (size (∅ : gset nat) ≤ concurrency)%nat by (rewrite size_empty; lia).
    destruct (run_phase s) eqn:E; try done; split; cbn; try done; eauto.
    + by intros r [= <-].
    + intros r [= <-]. by apply (ro_over _ _ Hok).
  - destruct (run_phase s) eqn:E; try done. assert (run_running s = true) as Hr by (by apply Hlive).
    split; simpl; try done; rewrite ?Hr; try done. by intros r [= <-].
Qed.

Lemma loop_head_aborted concurrency s : run_aborted s = true → loop_head concurrency s = begin_drain s.
Proof. unfold loop_head. by intros ->. Qed.

(** *** Ownership at every attempt *)

Section ownership.
Context `{DateText} (intervalMs : Z).

(** An owner that is not aborted has its timer set: to the expiry last granted,
    or to the deadline. *)
Definition owner_ok (deadline : option Z) (o : Owner) : Prop :=
  match o with
  | LeaseOwner l => lease_ok l
  | SignalOwner _ t => t = deadline
  end.

Lemma owner_step_ok deadline now e o : owner_ok deadline o → owner_ok deadline (owner_step intervalMs now e o).
Proof.
  destruct o as [l|a [t|]], e; simpl; try done; intros; by apply lease_step_ok.
Qed.

Lemma run_owner_ok deadline evs o : owner_ok deadline o → owner_ok deadline (run_owner intervalMs evs o).
Proof.
  unfold run_owner. revert o. induction evs as [|te evs IH]; intros o Ho; simpl; [done|]. by apply IH, owner_step_ok.
Qed.

Lemma owner_at_ok deadline o attempts i o' :
  owner_ok deadline o → owner_at intervalMs o attempts i = Some o' → owner_ok deadline o'.
Proof.
  revert o i. induction attempts as [|a attempts IH]; intros o [|i] Ho Hat; simpl in Hat; simplify_eq; try done.
  - by apply run_owner_ok.
  - eapply IH; [|exact Hat]. unfold owner_after, owner_answered, owner_before. by do 3 apply run_owner_ok.
Qed.

Lemma owner_ok_timer deadline o :
  owner_ok deadline o → owner_aborted o = false →
  owner_timer o = match o with LeaseOwner l => Some (ls_expiry l) | SignalOwner _ _ => deadline end.
Proof.
  destruct o as [l|a t]; simpl; [|done]. intros Hok Ha. apply (ok_timer l Hok). apply (ok_abort l Hok). by destruct (ls_abort l).
Qed.

Lemma rounds_of_lookup o attempts i r :
  rounds_of intervalMs o attempts !! i = Some r →
  ∃ o', owner_at intervalMs o attempts i = Some o' ∧ rd_aborted_before r = owner_aborted o'.
Proof.
  revert o i. induction attempts as [|a attempts IH]; intros o [|i]; simpl; try done; [|by apply IH].
  intros [= <-]. eexists. split; [done|]. done.
Qed.
End ownership.

(** A call is made only in a turn that finds the signal alive. *)
Lemma deliver_loop_alive retry call rounds calls m i :
  (length calls ≤ i)%nat → (i < length (deliver_loop retry call rounds calls m).1.2)%nat →
  ∃ r, rounds !! (i - length calls)%nat = Some r ∧ rd_aborted_before r = false.
Proof.
  revert calls m. induction rounds as [|r rounds IH]; intros calls m Hle Hlt; simpl in Hlt; [lia|].
  destruct (rd_aborted_before r) eqn:Eb; [simpl in Hlt; lia|].
  destruct (decide (i = length calls)) as [->|Hne]; [exists r; by rewrite Nat.sub_diag|].
  assert (∃ r', rounds !! (i - length (calls ++ [call]))%nat = Some r' ∧ rd_aborted_before r' = false) as (r' & Hr' & ?).
  { destruct (rd_aborted_after r); [simpl in Hlt; rewrite length_app in Hlt; simpl in Hlt; lia|].
    destruct (rd_answer r) as [e|]; [|simpl in Hlt; rewrite length_app in Hlt; simpl in Hlt; lia].
    destruct (permanent e); [simpl in Hlt; rewrite length_app in Hlt; simpl in Hlt; lia|].
    destruct retry; simpl in Hlt; [|rewrite length_app in Hlt; simpl in Hlt; lia].
    destruct (rd_aborted_waiting r); [simpl in Hlt; rewrite length_app in Hlt; simpl in Hlt; lia|].
    eapply IH; [|exact Hlt]. rewrite length_app. simpl. lia. }
  exists r'. split; [|done]. rewrite length_app in Hr'. simpl in Hr'.
  replace (i - length calls)%nat with (S (i - (length calls + 1)))%nat by lia. done.
Qed.

Lemma deliver_alive retry call rounds m i :
  (i < length (deliver retry call rounds m).1.2)%nat → ∃ r, rounds !! i = Some r ∧ rd_aborted_before r = false.
Proof.
  unfold deliver. intros Hi.
  destruct (deliver_loop_alive retry call rounds [] (mkMetrics (cm_pending m + 1) (cm_retries m) (cm_rejected m)) i) as (r & Hr & ?).
  - simpl. lia.
  - by destruct (deliver_loop _ _ _ _ _) as [[e calls] m'].
  - simpl in Hr. rewrite Nat.sub_0_r in Hr. eauto.
Qed.

(** What is known when [dispatch_owned] has made calls. *)
Definition owned_calls `{DateText} (intervalMs : Z) (owner : Owner) (deadline : option Z) (env : DispatchEnv)
    (calls : list Call) : Prop :=
  let owned := owner_done intervalMs owner env in
  owner_aborted owned = false ∧ lost owned deadline (de_done env) = false ∧
  ∀ i, (i < length calls)%nat → ∃ o, owner_at intervalMs owned (de_attempts env) i = Some o ∧ owner_aborted o = false ∧
    owner_timer o = match o with LeaseOwner l => Some (ls_expiry l) | SignalOwner _ _ => deadline end.

Lemma dispatch_owned_calls `{JsonText} `{DateText} intervalMs workerId registry owner deadline job env m :
  owner_ok deadline owner →
  let calls := dispatch_calls (dispatch_owned intervalMs workerId registry owner deadline job env m) in
  calls ≠ [] →
  owned_calls intervalMs owner deadline env calls ∧
  (deadline = None → length calls = 1%nat) ∧
  (∀ c, c ∈ calls → c = outcome_call workerId (job_id job) (execute registry job)).
Proof.
  cbn zeta. unfold dispatch_owned, owned_calls. intros Hok. set (owned := owner_done intervalMs owner env) in *.
  assert (owner_ok deadline owned) as Hok' by (by apply run_owner_ok).
  set (call := outcome_call workerId (job_id job) (execute registry job)).
  destruct (deliver_calls (bool_decide (is_Some deadline)) call (rounds_of intervalMs owned (de_attempts env)) m) as (n & Hn & Hr).
  pose proof (deliver_alive (bool_decide (is_Some deadline)) call (rounds_of intervalMs owned (de_attempts env)) m) as Ha.
  destruct (deliver _ _ _ _) as [[e calls] m']. simpl in Hn, Ha. subst calls.
  destruct (_ || _) eqn:Eo; [done|]. apply orb_false_iff in Eo as [Ho Hl]. simpl. intros Hne. split_and!; [done|done| | |].
  - intros i Hi. destruct (Ha i Hi) as (r & Hr' & Hb). destruct (rounds_of_lookup _ _ _ _ _ Hr') as (o & Hat & Hbo).
    exists o. rewrite Hb in Hbo. split_and!; [done|done|]. apply owner_ok_timer; [|done]. by eapply owner_at_ok.
  - intros ->. destruct n as [|[|n]]; [done|done|]. exfalso.
    assert (S (S n) ≤ 1)%nat by (by apply Hr). lia.
  - intros c Hc. by apply elem_of_replicate in Hc as [-> _].
Qed.

(** The owner a dispatch runs the handler with. *)
Definition owner_of `{DateText} (heartbeat : bool) (intervalMs : Z) (job : Job) (deadline : option Z) (env : DispatchEnv)
    (o : Owner) : Prop :=
  if heartbeat then
    ∃ l0, start_lease (job_lockExpiresAt job) (de_now env) = inl l0 ∧
          o = LeaseOwner (run_lease intervalMs (de_starting env) l0) ∧ ls_ready (run_lease intervalMs (de_starting env) l0) = Ready
  else o = SignalOwner false deadline.

Lemma dispatch_leased_calls `{JsonText} `{DateText} heartbeat intervalMs workerId registry deadline job env m :
  (∀ d, deadline = Some d → (de_now env < d)%Z) →
  let calls := dispatch_calls (dispatch_leased heartbeat intervalMs workerId registry deadline job env m) in
  calls ≠ [] →
  ∃ owner, owner_of heartbeat intervalMs job deadline env owner ∧ owned_calls intervalMs owner deadline env calls ∧
    (deadline = None → length calls = 1%nat) ∧
    (∀ c, c ∈ calls → c = outcome_call workerId (job_id job) (execute registry job)).
Proof.
  cbn zeta. intros Hd. unfold dispatch_leased, owner_of. destruct heartbeat.
  - unfold maintainLease. destruct (start_lease _ _) as [l0|e] eqn:Es; [|done].
    destruct (ls_ready (run_lease intervalMs (de_starting env) l0)) eqn:Er.
    2: { intros Hc. eexists. split; [by exists l0|]. apply dispatch_owned_calls; [|done].
         simpl. apply run_lease_ok. by apply start_lease_ok in Es as (? & _). }
    all: destruct (ls_abort _); simpl; done.
  - replace ((λ d, (de_now env + Z.max 1 (d - de_now env))%Z) <$> deadline) with deadline.
    + intros Hc. eexists. split; [done|]. by apply dispatch_owned_calls.
    + destruct deadline as [d|]; [|done]. simpl. f_equal. specialize (Hd d eq_refl). lia.
Qed.

(** States reached from a new runner, when the polls keep to [maxJobs]. *)
Inductive runner_reachable (concurrency : nat) (heartbeat extends : bool) : RunState → Prop :=
| reach_new : runner_reachable concurrency heartbeat extends new_run
| reach_step s e : runner_reachable concurrency heartbeat extends s → poll_respects s e →
    runner_reachable concurrency heartbeat extends (run_step concurrency heartbeat extends e s).

Lemma runner_reachable_ok concurrency heartbeat extends s :
  runner_reachable concurrency heartbeat extends s → run_ok concurrency s.
Proof.
  induction 1 as [|s e _ IH He]; [|by apply run_step_ok].
  assert (size (∅ : gset nat) ≤ concurrency)%nat by (rewrite size_empty; lia). split; cbn; try done. auto.
Qed.

(** ** Properties *)

(** The runner never holds more jobs than its [concurrency], as long as
    the engine returns no more jobs than a poll asked for; when it can be
    started again no dispatch is in flight; and what a finished [run] throws is
    the fatal error it recorded. *)
Theorem runner_bounded concurrency heartbeat extends s :
  runner_reachable concurrency heartbeat extends s →
  (size (run_inFlight s) ≤ concurrency)%nat ∧
  (∀ n, run_phase s = AwaitPoll n → (0 < n)%nat → (size (run_inFlight s) + n ≤ concurrency)%nat) ∧
  (run_running s = false → run_inFlight s = ∅) ∧
  (∀ thrown, run_phase s = Over thrown → thrown = run_fatalError s).
Proof.
  intros [Hs Hp Hi Ho _]%runner_reachable_ok. split_and!; [done|auto| |done].
  intros Hr. by destruct (Hi Hr).
Qed.

(** An abort is final: from then on, until [run] is called again, the
    signal stays aborted, no new poll is sent, and the first fatal error
    recorded is kept; and the run ends, either once its dispatches have settled
    or when the shutdown timer fires. *)
Theorem runner_abort_final concurrency heartbeat extends e s :
  run_aborted s = true → e ≠ Run →
  let s' := run_step concurrency heartbeat extends e s in
  run_aborted s' = true ∧
  (∀ n, run_phase s' = AwaitPoll n → run_phase s = AwaitPoll n) ∧
  (∀ err, run_fatalError s = Some err → run_fatalError s' = Some err) ∧
  (run_phase s = Draining →
     run_phase (run_step concurrency heartbeat extends DrainTimeout s) =
       Over (Some (default ShutdownTimeout (run_fatalError s))) ∧
     (run_inFlight s = ∅ →
      run_phase (run_step concurrency heartbeat extends AllSettled s) = Over (run_fatalError s))).
Proof.
  intros Ha Hne s'.
  assert (run_phase s = Draining →
     run_phase (run_step concurrency heartbeat extends DrainTimeout s) =
       Over (Some (default ShutdownTimeout (run_fatalError s))) ∧
     (run_inFlight s = ∅ →
      run_phase (run_step concurrency heartbeat extends AllSettled s) = Over (run_fatalError s))) as Hend.
  { intros Hd. simpl. rewrite Hd. split; [done|]. intros He. by rewrite decide_True. }
  assert (run_aborted s' = true ∧ (∀ n, run_phase s' = AwaitPoll n → run_phase s = AwaitPoll n) ∧
          (∀ err, run_fatalError s = Some err → run_fatalError s' = Some err)) as (? & ? & ?); [|done].
  subst s'. destruct e as [|pending| | |i|err| | |]; [done|..]; cbn [run_step]; unfold abort_run.
  all: repeat case_decide; destruct (run_phase s) eqn:E; rewrite ?loop_head_aborted by done; simpl;
    rewrite ?Ha; simpl; rewrite ?E; split_and!; try done.
  all: by intros x ->.
Qed.

(** C17: a result is sent only by a worker that owns the job.  The runner was
    not stopping when the job arrived and the job's lease, if it names one, had
    not expired; when the handler had finished the owning signal was not aborted
    and the lease was valid (with heartbeats) or the deadline not reached; and
    at the start of every attempt, the first as well as each retry, the owning
    signal is still not aborted: no stop of the runner, no loss and no refused
    renewal of the lease has reached it, and its timer, set to the expiry last
    granted or to the deadline, has not fired.  A job without lease metadata
    gets one attempt, and all attempts send the same result. *)
Theorem dispatch_only_owned `{JsonText} `{DateText} heartbeat intervalMs workerId registry job env m :
  let calls := dispatch_calls (dispatch heartbeat intervalMs workerId registry job env m) in
  calls ≠ [] →
  de_aborted env = false ∧
  ∃ deadline owner,
    match job_lockExpiresAt job with
    | Some text => Date_parse text = deadline ∧ ∃ d, deadline = Some d ∧ (de_now env < d)%Z
    | None => deadline = None ∧ length calls = 1%nat
    end ∧
    owner_of heartbeat intervalMs job deadline env owner ∧
    (let owned := owner_done intervalMs owner env in
     owner_aborted owned = false ∧
     match owned with
     | LeaseOwner l => valid l (de_done env) = true
     | SignalOwner _ _ => ∀ d, deadline = Some d → (de_done env < d)%Z
     end ∧
     ∀ i, (i < length calls)%nat →
       ∃ o, owner_at intervalMs owned (de_attempts env) i = Some o ∧ owner_aborted o = false ∧
         owner_timer o = match o with LeaseOwner l => Some (ls_expiry l) | SignalOwner _ _ => deadline end) ∧
    (∀ c, c ∈ calls → c = outcome_call workerId (job_id job) (execute registry job)).
Proof.
  cbn zeta. unfold dispatch. destruct (de_aborted env); [done|]. intros Hc. split; [done|].
  assert (∀ owner deadline calls, owned_calls intervalMs owner deadline env calls →
    let owned := owner_done intervalMs owner env in
    match owned with
    | LeaseOwner l => valid l (de_done env) = true
    | SignalOwner _ _ => ∀ d, deadline = Some d → (de_done env < d)%Z
    end) as Hlost.
  { intros owner deadline calls (_ & Hl & _) owned. unfold owned, lost in *.
    destruct (owner_done intervalMs owner env); [by apply negb_false_iff|]. intros d ->. by apply Z.leb_gt. }
  destruct (job_lockExpiresAt job) as [text|] eqn:El; simpl in *.
  - destruct (Date_parse text) as [deadline|] eqn:Ed; [|done].
    destruct (Z.leb_spec deadline (de_now env)); [done|].
    destruct (dispatch_leased_calls heartbeat intervalMs workerId registry (Some deadline) job env m
      ltac:(by intros d [= <-]) Hc) as (owner & Ho & Hcalls & _ & Hall).
    pose proof Hcalls as (? & _ & ?). pose proof (Hlost _ _ _ Hcalls).
    exists (Some deadline), owner. split; [split; [done|by exists deadline]|]. done.
  - destruct (dispatch_leased_calls heartbeat intervalMs workerId registry None job env m ltac:(done) Hc)
      as (owner & Ho & Hcalls & Hl & Hall).
    pose proof Hcalls as (? & _ & ?). pose proof (Hlost _ _ _ Hcalls).
    exists None, owner. split; [split; [done|by apply Hl]|]. done.
Qed.

(** The limit of the heartbeat interval, in milliseconds. *)
Definition interval_limit (leaseSeconds : Q) : Q :=
  ((if Qeq_bool leaseSeconds 0 then 30 else leaseSeconds) * 1000 / 3)%Q.

Lemma num_lt_Num a b : num_lt (Num a) (Num b) = true ↔ (a < b)%Q.
Proof.
  simpl. rewrite negb_true_iff, <- not_true_iff_false, Qle_bool_iff. split; [apply Qnot_le_lt|apply Qlt_not_le].
Qed.

Lemma num_lt_Num_false a b : num_lt (Num a) (Num b) = false ↔ (b <= a)%Q.
Proof. simpl. by rewrite negb_false_iff, Qle_bool_iff. Qed.

Lemma lease_check x :
  (negb (isInteger x) || (negb (num_eq x (num 0)) && (num_lt x (num 5) || num_lt (num 3600) x)))%bool = false ↔
  ∃ q, x = Num q ∧ isInteger (Num q) = true ∧ (q == 0 ∨ 5 <= q <= 3600)%Q.
Proof.
  destruct x as [q| |n]; [|by split; [|intros (? & ? & _)]..].
  rewrite orb_false_iff, negb_false_iff, andb_false_iff, negb_false_iff, orb_false_iff.
  unfold num. rewrite !num_lt_Num_false. unfold num_eq. rewrite Qeq_bool_iff. split.
  - intros [? ?]. by exists q.
  - by intros (q' & [= <-] & ? & ?).
Qed.

Lemma interval_check lease x :
  (negb (num_lt (num 0) x) || num_lt (third_ms (num_or (Num lease) (num 30))) x)%bool = false ↔
  ∃ q, x = Num q ∧ (0 < q <= interval_limit lease)%Q.
Proof.
  assert (third_ms (num_or (Num lease) (num 30)) = Num (interval_limit lease)) as ->.
  { unfold num_or, interval_limit. by destruct (Qeq_bool lease 0). }
  rewrite orb_false_iff, negb_false_iff. destruct x as [q| |n].
  - unfold num. rewrite num_lt_Num, num_lt_Num_false. split; [intros; by exists q|by intros (? & [= <-] & ?)].
  - by split; [intros [? ?]|intros (? & ? & _)].
  - by destruct n; (split; [intros [? ?]|intros (? & ? & _)]).
Qed.

Lemma timeout_check x :
  (negb (isFinite x) || negb (num_lt (num 0) x))%bool = false ↔ ∃ q, x = Num q ∧ (0 < q)%Q.
Proof.
  destruct x as [q| |n]; [|by split; [|intros (? & ? & _)]..].
  rewrite orb_false_iff, !negb_false_iff. unfold num. rewrite num_lt_Num.
  split; [intros [_ ?]; by exists q|by intros (? & [= <-] & ?)].
Qed.

Lemma concurrency_check x :
  (negb (isInteger x) || num_lt x (num 1))%bool = false ↔
  ∃ q, x = Num q ∧ isInteger (Num q) = true ∧ (1 <= q)%Q.
Proof.
  destruct x as [q| |n]; [|by split; [|intros (? & ? & _)]..].
  rewrite orb_false_iff, negb_false_iff. unfold num. rewrite num_lt_Num_false.
  split; [intros [? ?]; by exists q|by intros (? & [= <-] & ?)].
Qed.

(** The constructor accepts exactly the sound configurations, after its
    defaults: a whole lease of 0 or 5 to 3600 seconds, a positive heartbeat
    interval of at most a third of that lease (30 seconds for 0), a finite
    positive shutdown timeout and a whole concurrency of at least 1. *)
Theorem new_Runner_accepts_iff cfg c :
  new_Runner cfg = inl c ↔
  c = required cfg ∧
  ∃ lease timeout conc, rq_leaseSeconds c = Num lease ∧ isInteger (Num lease) = true ∧
    (lease == 0 ∨ 5 <= lease <= 3600)%Q ∧
    (∃ interval, rq_heartbeatIntervalMs c = Num interval ∧ 0 < interval <= interval_limit lease)%Q ∧
    rq_shutdownTimeoutMs c = Num timeout ∧ (0 < timeout)%Q ∧
    rq_concurrency c = Num conc ∧ isInteger (Num conc) = true ∧ (1 <= conc)%Q.
Proof.
  unfold new_Runner. set (r := required cfg). cbn zeta.
  destruct (_ || _)%bool eqn:E1 at 1.
  { split; [done|]. intros (-> & lease & _ & _ & Hl & Hi & Hr & _).
    assert (∃ q, rq_leaseSeconds r = Num q ∧ isInteger (Num q) = true ∧ (q == 0 ∨ 5 <= q <= 3600)%Q)
      as Hc%lease_check by (by exists lease). congruence. }
  apply lease_check in E1 as (lease & El & Hint & Hrange). rewrite El.
  destruct (_ || _)%bool eqn:E2 at 1.
  { split; [done|]. intros (-> & lease' & _ & _ & Hl & _ & _ & Hi & _).
    rewrite El in Hl. injection Hl as <-. apply interval_check in Hi. congruence. }
  apply interval_check in E2.
  destruct (_ || _)%bool eqn:E3 at 1.
  { split; [done|]. intros (-> & _ & timeout & _ & _ & _ & _ & _ & Ht & Hp & _).
    assert (∃ q, rq_shutdownTimeoutMs r = Num q ∧ (0 < q)%Q) as Hc%timeout_check by (by exists timeout). congruence. }
  apply timeout_check in E3 as (timeout & Et & Hpos).
  destruct (_ || _)%bool eqn:E4 at 1.
  { split; [done|]. intros (-> & _ & _ & conc & _ & _ & _ & _ & _ & _ & Hcc & Hci & Hc1).
    assert (∃ q, rq_concurrency r = Num q ∧ isInteger (Num q) = true ∧ (1 <= q)%Q) as Hc%concurrency_check
      by (by exists conc). congruence. }
  apply concurrency_check in E4 as (conc & Ec & Hci & Hc1).
  split; [|by intros [-> _]]. intros [= <-]. split; [done|]. by exists lease, timeout, conc.
Qed.

(** ** Witnesses *)

Definition one_job : RunState := run_step 2 true true (PollAnswers {[7%nat]}) (run_step 2 true true Run new_run).

Lemma runner_bounded_witness : runner_reachable 2 true true one_job ∧ (size (run_inFlight one_job) ≤ 2)%nat.
Proof.
  assert (runner_reachable 2 true true one_job) as Hr.
  { unfold one_job. apply reach_step; [apply reach_step; [apply reach_new|exact I]|].
    change ((size ({[7%nat]} : gset nat) ≤ 2)%nat ∧ ({[7%nat]} : gset nat) ## ∅).
    split; [apply Nat.leb_le; vm_compute; reflexivity|apply disjoint_empty_r]. }
  split; [exact Hr|]. exact (proj1 (runner_bounded 2 true true one_job Hr)).
Defined.

Definition fatal_run : RunState := run_step 2 true true (ReportFatal LeaseLostError) one_job.

Lemma runner_abort_final_witness : run_aborted (run_step 2 true true (PollAnswers {[8%nat]}) fatal_run) = true.
Proof.
  assert (run_aborted fatal_run = true) as Ha by (vm_compute; reflexivity).
  exact (proj1 (runner_abort_final 2 true true (PollAnswers {[8%nat]}) fatal_run Ha ltac:(discriminate))).
Defined.

(** A job with a lock, two attempts: the first is answered with 503 and the
    lease is renewed while the loop waits. *)
Definition leased_job : Job := mkJob "j1" "charge" "i1" "s1" 3 None (Some "1111111111").

Definition sample_env : DispatchEnv :=
  mkEnv false 2 [(4, Answers (inl "111111111111") 0)]%Z false [(5, OnLease Wakes)]%Z 6
    [mkAttempt [] (Some (HttpError 503)) [] [(7, OnLease (Answers (inl "111111111111111") 0))]%Z; mkAttempt [] None [] []].

Lemma dispatch_only_owned_witness :
  let calls := dispatch_calls (@dispatch model_text unary_date true 1 "w" [] leased_job sample_env (mkMetrics 0 0 0)) in
  length calls = 2%nat ∧
  ∃ deadline owner o, @owner_of unary_date true 1 leased_job deadline sample_env owner ∧
    @owner_at unary_date 1 (@owner_done unary_date 1 owner sample_env) (de_attempts sample_env) 1%nat = Some o ∧
    owner_aborted o = false.
Proof.
  intros calls. assert (length calls = 2%nat) as Hl by (vm_compute; reflexivity). split; [exact Hl|].
  destruct (@dispatch_only_owned model_text unary_date true 1 "w" [] leased_job sample_env (mkMetrics 0 0 0))
    as (_ & deadline & owner & _ & Ho & (_ & _ & Hi) & _).
  - fold calls. intros Hc. rewrite Hc in Hl. discriminate Hl.
  - fold calls in Hi. rewrite Hl in Hi. destruct (Hi 1%nat ltac:(lia)) as (o & H1 & H2 & _).
    exists deadline, owner, o. split; [exact Ho|]. split; [exact H1|exact H2].
Defined.
