(* ===== verification/Kafka.v ===== *)
(** * The Kafka runner (workflow-sdk-node/src/runner/kafka_runner.ts)

    [dispatch] of one record, and the consumer of one job type: its maps of
    owners, active works and commits, with the callbacks of the Kafka client
    and the continuations of each work as events.  The Kafka client, the
    engine and the decoder generated from the protocol are outside. *)

From S2P Require Import Prelude JsObject ImportExport Backoff Callback.

#[local] Open Scope Z_scope.

(** ** Dispatch of a record *)

Record JobDispatchEvent := mkDispatchEvent {
  ev_jobId : string;
  ev_jobType : string;
  ev_instanceId : string;
  ev_stepExecutionId : string;
  ev_retriesRemaining : Z;
  ev_jobPayload : string;
  ev_dedupId : string
}.

Inductive KafkaEnd :=
| Returned
| ThrewDecode
| ThrewDeliver (e : DeliverEnd).

Record KafkaDispatch := mkKafkaDispatch {
  kd_end : KafkaEnd;
  kd_calls : list Call;
  kd_cache : DeduplicationCache;
  kd_recordErrors : nat;
  kd_metrics : CallbackMetrics
}.

Section dispatch.
Context `{JsonText} (decode : string → option JobDispatchEvent) (workerId : string) (registry : HandlerRegistry).

(** The job's variables, or [None] for an invalid payload. *)
Definition payload_variables (payload : string) : option (obj json) :=
  if negb (truthy_str payload) then Some []
  else match JSON_parse payload with
       | inl (JObj o) => Some o
       | _ => None
       end.

Definition record_outcome (event : JobDispatchEvent) : Outcome :=
  match payload_variables (ev_jobPayload event) with
  | None => Failed "invalid job payload" false
  | Some variables =>
      execute registry (mkJob (ev_jobId event) (ev_jobType event) (ev_instanceId event)
                          (ev_stepExecutionId event) (ev_retriesRemaining event) (Some variables) None)
  end.

(** [now] is the time of the duplicate check, [done] that of the mark; [aborted]
    is the signal after [deliver]. *)
Definition kafka_dispatch (data : string) (now done : Z) (rounds : list Round) (aborted : bool)
    (cache : DeduplicationCache) (errors : nat) (m : CallbackMetrics) : KafkaDispatch :=
  match decode data with
  | None => mkKafkaDispatch ThrewDecode [] cache (S errors) m
  | Some event =>
      if negb (truthy_str (ev_jobId event)) then mkKafkaDispatch ThrewDecode [] cache (S errors) m
      else if truthy_str (ev_dedupId event) && has now (ev_dedupId event) cache
      then mkKafkaDispatch Returned [] cache errors m
      else
        let '(e, calls, m) := deliver true (outcome_call workerId (ev_jobId event) (record_outcome event)) rounds m in
        match e with
        | Delivered =>
            if aborted then mkKafkaDispatch (ThrewDeliver ThrewAbort) calls cache errors m
            else mkKafkaDispatch Returned calls (mark done (ev_dedupId event) cache) errors m
        | _ => mkKafkaDispatch (ThrewDeliver e) calls cache errors m
        end
  end.
End dispatch.

(** ** The consumer *)

Inductive WorkPhase := Turn | Dispatching | Committing | Finished.

#[export] Instance WorkPhase_eq_dec : EqDecision WorkPhase.
Proof. solve_decision. Defined.

Record Work := mkWork {
  w_partition : nat;
  w_owner : nat;
  w_offset : Z;
  w_value : bool;
  w_phase : WorkPhase
}.

(** What the broker and the engine see, oldest first. *)
Inductive Trace :=
| TAssigned (partition owner : nat)
| TRevoked (partition owner : nat)
| THandedOff (partition : nat)
| TStopped
| THandled (partition owner : nat) (offset : Z)
| TCommit (partition owner : nat) (offset : Z)
| TCommitted (partition owner : nat) (offset : Z)
| TCommitFailed (partition owner : nat) (offset : Z)
| TResumed (partition owner : nat) (offset : Z).

#[export] Instance Trace_eq_dec : EqDecision Trace.
Proof. solve_decision. Defined.

(** An [AbortController] is its number; [k_revoked] are the aborted ones.
    [k_handing] are the partitions whose revocation the callback has not
    finished yet. *)
Record Consumer := mkConsumer {
  k_owners : gmap nat nat;
  k_revoked : gset nat;
  k_next : nat;
  k_active : gmap nat nat;
  k_commits : gmap nat nat;
  k_handing : gset nat;
  k_shutdown : bool;
  k_paused : gset nat;
  k_recordErrors : nat;
  k_works : list Work;
  k_trace : list Trace
}.

Definition new_consumer : Consumer := mkConsumer ∅ ∅ 0 ∅ ∅ ∅ false ∅ 0 [] [].

Definition log (t : Trace) (k : Consumer) : Consumer :=
  mkConsumer (k_owners k) (k_revoked k) (k_next k) (k_active k) (k_commits k) (k_handing k) (k_shutdown k)
    (k_paused k) (k_recordErrors k) (k_works k) (k_trace k ++ [t]).

Definition set_work (i : nat) (ph : WorkPhase) (w : Work) (k : Consumer) : Consumer :=
  mkConsumer (k_owners k) (k_revoked k) (k_next k) (k_active k) (k_commits k) (k_handing k) (k_shutdown k)
    (k_paused k) (k_recordErrors k)
    (<[i := mkWork (w_partition w) (w_owner w) (w_offset w) (w_value w) ph]> (k_works k)) (k_trace k).

Definition set_active (a : gmap nat nat) (k : Consumer) : Consumer :=
  mkConsumer (k_owners k) (k_revoked k) (k_next k) a (k_commits k) (k_handing k) (k_shutdown k)
    (k_paused k) (k_recordErrors k) (k_works k) (k_trace k).

Definition set_commits (c : gmap nat nat) (k : Consumer) : Consumer :=
  mkConsumer (k_owners k) (k_revoked k) (k_next k) (k_active k) c (k_handing k) (k_shutdown k)
    (k_paused k) (k_recordErrors k) (k_works k) (k_trace k).

Definition set_paused (p : gset nat) (k : Consumer) : Consumer :=
  mkConsumer (k_owners k) (k_revoked k) (k_next k) (k_active k) (k_commits k) (k_handing k) (k_shutdown k)
    p (k_recordErrors k) (k_works k) (k_trace k).

Definition count_error (k : Consumer) : Consumer :=
  mkConsumer (k_owners k) (k_revoked k) (k_next k) (k_active k) (k_commits k) (k_handing k) (k_shutdown k)
    (k_paused k) (S (k_recordErrors k)) (k_works k) (k_trace k).

(** The [signal] of a work: its owner's, or the shutdown. *)
Definition work_aborted (k : Consumer) (w : Work) : bool :=
  k_shutdown k || bool_decide (w_owner w ∈ k_revoked k).

Definition is_owner (k : Consumer) (w : Work) : bool :=
  bool_decide (k_owners k !! w_partition w = Some (w_owner w)).

(** The [finally] of a work. *)
Definition finish_work (i : nat) (w : Work) (k : Consumer) : Consumer :=
  let k := set_work i Finished w k in
  if bool_decide (k_active k !! w_partition w = Some (w_owner w))
  then set_active (delete (w_partition w) (k_active k)) k else k.

(** [rebalance_cb] for an assigned partition. *)
Definition assign (p : nat) (k : Consumer) : Consumer :=
  match k_owners k !! p with
  | Some _ => k
  | None =>
      log (TAssigned p (k_next k))
        (mkConsumer (<[p := k_next k]> (k_owners k)) (k_revoked k) (S (k_next k)) (k_active k) (k_commits k)
           (k_handing k) (k_shutdown k) (k_paused k) (k_recordErrors k) (k_works k) (k_trace k))
  end.

(** The same for a revoked partition, up to the await of its commit. *)
Definition revoke (p : nat) (k : Consumer) : Consumer :=
  let k' := mkConsumer (delete p (k_owners k))
              (match k_owners k !! p with Some o => {[o]} ∪ k_revoked k | None => k_revoked k end)
              (k_next k) (k_active k) (k_commits k) ({[p]} ∪ k_handing k) (k_shutdown k)
              (k_paused k) (k_recordErrors k) (k_works k) (k_trace k) in
  match k_owners k !! p with Some o => log (TRevoked p o) k' | None => k' end.

(** The await is over. *)
Definition handoff (p : nat) (k : Consumer) : Consumer :=
  log (THandedOff p)
    (mkConsumer (k_owners k) (k_revoked k) (k_next k) (k_active k) (k_commits k) (k_handing k ∖ {[p]})
       (k_shutdown k) (k_paused k) (k_recordErrors k) (k_works k) (k_trace k)).

(** [eachBatch]: the first record of the batch becomes a work. *)
Definition eachBatch (p : nat) (messages : list (Z * bool)) (isStale isRunning : bool) (k : Consumer) : Consumer :=
  match messages, k_owners k !! p with
  | (offset, value) :: _, Some owner =>
      if k_shutdown k || isStale || negb isRunning then k
      else if bool_decide (k_active k !! p = Some owner) then k
      else
        mkConsumer (k_owners k) (k_revoked k) (k_next k) (<[p := owner]> (k_active k)) (k_commits k) (k_handing k)
          (k_shutdown k) ({[p]} ∪ k_paused k) (k_recordErrors k)
          (k_works k ++ [mkWork p owner offset value Turn]) (k_trace k)
  | _, _ => k
  end.

(** A work after [nextTurn]. *)
Definition work_turn (i : nat) (w : Work) (k : Consumer) : Consumer :=
  if work_aborted k w then finish_work i w k
  else if negb (w_value w) then finish_work i w (count_error k)
  else set_work i Dispatching w k.

(** After its [dispatch] returned or threw: the commit is submitted. *)
Definition work_dispatched (i : nat) (ok : bool) (w : Work) (k : Consumer) : Consumer :=
  if negb ok then finish_work i w k
  else
    let k := log (THandled (w_partition w) (w_owner w) (w_offset w)) k in
    if work_aborted k w then finish_work i w k
    else if negb (is_owner k w) then finish_work i w k
    else
      let offset := w_offset w + 1 in
      log (TCommit (w_partition w) (w_owner w) offset)
        (set_commits (<[w_partition w := i]> (k_commits k)) (set_work i Committing w k)).

(** After the commit settled: seek and resume. *)
Definition work_committed (i : nat) (ok : bool) (w : Work) (k : Consumer) : Consumer :=
  let offset := w_offset w + 1 in
  let k := set_commits (delete (w_partition w) (k_commits k)) k in
  if negb ok then finish_work i w (log (TCommitFailed (w_partition w) (w_owner w) offset) k)
  else
    let k := log (TCommitted (w_partition w) (w_owner w) offset) k in
    if work_aborted k w || negb (is_owner k w) then finish_work i w k
    else
      finish_work i w
        (log (TResumed (w_partition w) (w_owner w) offset) (set_paused (k_paused k ∖ {[w_partition w]}) k)).

Definition stop (k : Consumer) : Consumer :=
  log TStopped
    (mkConsumer (k_owners k) (k_revoked k) (k_next k) (k_active k) (k_commits k) (k_handing k) true
       (k_paused k) (k_recordErrors k) (k_works k) (k_trace k)).

Inductive ConsumerEvent :=
| Assign (p : nat)
| Revoke (p : nat)
| Handoff (p : nat)
| Batch (p : nat) (messages : list (Z * bool)) (isStale isRunning : bool)
| NextTurn (i : nat)
| DispatchEnds (i : nat) (ok : bool)
| CommitEnds (i : nat) (ok : bool)
| Stop.

(** One event.  A continuation runs only in its phase; the client runs one
    rebalance callback at a time, so a partition is not assigned, nor revoked
    again, before its revocation is finished, and that waits for the commit
    the map held. *)
Definition consumer_step (e : ConsumerEvent) (k : Consumer) : Consumer :=
  match e with
  | Assign p => if bool_decide (p ∈ k_handing k) then k else assign p k
  | Revoke p => if bool_decide (p ∈ k_handing k) then k else revoke p k
  | Handoff p =>
      if bool_decide (p ∈ k_handing k ∧ k_commits k !! p = None) then handoff p k else k
  | Batch p messages isStale isRunning => eachBatch p messages isStale isRunning k
  | NextTurn i =>
      match k_works k !! i with
      | Some w => if bool_decide (w_phase w = Turn) then work_turn i w k else k
      | None => k
      end
  | DispatchEnds i ok =>
      match k_works k !! i with
      | Some w => if bool_decide (w_phase w = Dispatching) then work_dispatched i ok w k else k
      | None => k
      end
  | CommitEnds i ok =>
      match k_works k !! i with
      | Some w => if bool_decide (w_phase w = Committing) then work_committed i ok w k else k
      | None => k
      end
  | Stop => stop k
  end.

Definition run_consumer (es : list ConsumerEvent) : Consumer := foldl (λ k e, consumer_step e k) new_consumer es.
