(* ===== verification/KafkaProps.v ===== *)
(** * The commit protocol of the Kafka consumer

    The invariant of the consumer's maps, works and trace, preserved by every
    event, and what it gives: offsets are committed only for handled records
    and by the current owner, and a partition is handed over with no commit
    under way. *)

From S2P Require Import Prelude JsObject ImportExport Backoff Callback Kafka.

#[local] Open Scope Z_scope.

(** ** The protocol, as a specification of traces *)

Definition is_commit (p : nat) (t : Trace) : bool :=
  match t with TCommit p' _ _ => Nat.eqb p p' | _ => false end.

Definition is_settled (p : nat) (t : Trace) : bool :=
  match t with TCommitted p' _ _ | TCommitFailed p' _ _ => Nat.eqb p p' | _ => false end.

Definition occurrences (f : Trace → bool) (tr : list Trace) : nat := length (List.filter f tr).

(** What must have happened, and what must not, before each step. *)
Definition allowed (pre : list Trace) (t : Trace) : Prop :=
  match t with
  | TCommit p o off =>
      THandled p o (off - 1) ∈ pre ∧ TAssigned p o ∈ pre ∧ TRevoked p o ∉ pre ∧ TStopped ∉ pre ∧
      occurrences (is_commit p) pre = occurrences (is_settled p) pre
  | TCommitted p o off | TCommitFailed p o off => TCommit p o off ∈ pre
  | TResumed p o off =>
      TCommitted p o off ∈ pre ∧ THandled p o (off - 1) ∈ pre ∧ TRevoked p o ∉ pre ∧ TStopped ∉ pre
  | THandedOff p => occurrences (is_commit p) pre = occurrences (is_settled p) pre
  | TAssigned _ _ | TRevoked _ _ | TStopped | THandled _ _ _ => True
  end.

Definition protocol (tr : list Trace) : Prop :=
  ∀ pre t post, tr = pre ++ t :: post → allowed pre t.

Lemma protocol_snoc tr t : protocol tr → allowed tr t → protocol (tr ++ [t]).
Proof.
  intros Htr Ht pre t' post E. destruct post as [|t2 post _] using rev_ind.
  - apply app_inj_tail in E as [-> ->]. done.
  - rewrite app_comm_cons, app_assoc in E. apply app_inj_tail in E as [-> _]. by eapply Htr.
Qed.

(** ** The invariant *)

Definition live (w : Work) : Prop := w_phase w ≠ Finished.

(** Owners are fresh, belong to one partition, and are current until revoked. *)
Record owners_ok (owners : gmap nat nat) (revoked : gset nat) (next : nat) (stopped : bool)
    (works : list Work) (tr : list Trace) : Prop := {
  oo_current p o : owners !! p = Some o → TAssigned p o ∈ tr ∧ o ∉ revoked;
  oo_fresh p o : TAssigned p o ∈ tr → (o < next)%nat;
  oo_unique p p' o : TAssigned p o ∈ tr → TAssigned p' o ∈ tr → p = p';
  oo_revoked p o : TRevoked p o ∈ tr → o ∈ revoked;
  oo_revoked_fresh o : o ∈ revoked → (o < next)%nat;
  oo_stopped : TStopped ∈ tr → stopped = true;
  oo_works i w : works !! i = Some w → TAssigned (w_partition w) (w_owner w) ∈ tr
}.

(** A live work of the current owner is the active one, and the only one. *)
Record works_ok (owners active : gmap nat nat) (works : list Work) : Prop := {
  wo_active i w : works !! i = Some w → live w → owners !! w_partition w = Some (w_owner w) →
    active !! w_partition w = Some (w_owner w);
  wo_unique i j w w' : works !! i = Some w → works !! j = Some w' → live w → live w' →
    w_partition w = w_partition w' → w_owner w = w_owner w' → i = j
}.

(** The map of commits is exactly the works that wait for theirs; one whose
    owner is gone holds its partition back. *)
Record commits_ok (owners commits : gmap nat nat) (handing : gset nat) (works : list Work) : Prop := {
  co_sound p i : commits !! p = Some i → ∃ w, works !! i = Some w ∧ w_partition w = p ∧ w_phase w = Committing;
  co_complete i w : works !! i = Some w → w_phase w = Committing → commits !! w_partition w = Some i;
  co_handing i w : works !! i = Some w → w_phase w = Committing →
    owners !! w_partition w ≠ Some (w_owner w) → w_partition w ∈ handing;
  co_revoked p : p ∈ handing → owners !! p = None
}.

Record trace_ok (commits : gmap nat nat) (works : list Work) (tr : list Trace) : Prop := {
  to_protocol : protocol tr;
  to_count p : occurrences (is_commit p) tr =
    (occurrences (is_settled p) tr + match commits !! p with Some _ => 1 | None => 0 end)%nat;
  to_commit i w : works !! i = Some w → w_phase w = Committing →
    THandled (w_partition w) (w_owner w) (w_offset w) ∈ tr ∧
    TCommit (w_partition w) (w_owner w) (w_offset w + 1) ∈ tr
}.

Record consumer_ok (k : Consumer) : Prop := {
  ck_owners : owners_ok (k_owners k) (k_revoked k) (k_next k) (k_shutdown k) (k_works k) (k_trace k);
  ck_works : works_ok (k_owners k) (k_active k) (k_works k);
  ck_commits : commits_ok (k_owners k) (k_commits k) (k_handing k) (k_works k);
  ck_trace : trace_ok (k_commits k) (k_works k) (k_trace k)
}.

(** ** Traces *)

Lemma occurrences_snoc f tr t : occurrences f (tr ++ [t]) = (occurrences f tr + if f t then 1 else 0)%nat.
Proof. unfold occurrences. rewrite List.filter_app, length_app. simpl. by destruct (f t). Qed.

Lemma elem_of_snoc {A} (x y : A) l : x ∈ l ++ [y] ↔ x ∈ l ∨ x = y.
Proof. rewrite elem_of_app, list_elem_of_singleton. done. Qed.

(** Entries that say nothing of owners. *)
Definition plain (t : Trace) : Prop :=
  match t with TAssigned _ _ | TRevoked _ _ | TStopped => False | _ => True end.

Lemma owners_ok_log owners revoked next stopped works tr t :
  plain t → owners_ok owners revoked next stopped works tr →
  owners_ok owners revoked next stopped works (tr ++ [t]).
Proof.
  intros Hp [H1 H2 H3 H4 H5 H6 H7]. split; try done.
  - intros p o Ho. rewrite elem_of_snoc. destruct (H1 p o Ho). auto.
  - intros p o [?| <-]%elem_of_snoc; [by eapply H2|done].
  - intros p p' o [?| <-]%elem_of_snoc [?|E]%elem_of_snoc; [by eapply H3|by rewrite <- E in Hp|done|done].
  - intros p o [?| <-]%elem_of_snoc; [by eapply H4|done].
  - intros [?| <-]%elem_of_snoc; [by apply H6|done].
  - intros i w Hw. rewrite elem_of_snoc. left. by eapply H7.
Qed.

(** A change of a work that keeps its record. *)
Definition same_record (w w' : Work) : Prop :=
  w_partition w' = w_partition w ∧ w_owner w' = w_owner w ∧ w_offset w' = w_offset w.

Lemma owners_ok_work owners revoked next stopped works tr i w w' :
  works !! i = Some w → same_record w w' → owners_ok owners revoked next stopped works tr →
  owners_ok owners revoked next stopped (<[i := w']> works) tr.
Proof.
  intros Hw (Hp & Ho & _) [H1 H2 H3 H4 H5 H6 H7]. split; try done.
  intros j wj [(<- & <- & _)|[_ Hj]]%list_lookup_insert_Some; [|by eapply H7].
  rewrite Hp, Ho. by eapply H7.
Qed.

(** ** Works *)

Lemma works_ok_phase owners active works i w w' :
  works !! i = Some w → same_record w w' → live w → works_ok owners active works →
  works_ok owners active (<[i := w']> works).
Proof.
  intros Hw (Hp & Ho & _) Hl [H1 H2]. split.
  - intros j wj [(<- & <- & _)|[_ Hj]]%list_lookup_insert_Some Hlj; [|by eapply H1].
    rewrite Hp, Ho. by eapply H1.
  - intros a b wa wb [(<- & <- & _)|[Ha1 Ha]]%list_lookup_insert_Some
      [(<- & <- & _)|[Hb1 Hb]]%list_lookup_insert_Some La Lb Ep Eo; [done| | |by eapply H2].
    + rewrite Hp in Ep. rewrite Ho in Eo. by eapply (H2 i b w wb).
    + rewrite Hp in Ep. rewrite Ho in Eo. by eapply (H2 a i wa w).
Qed.

Lemma works_ok_finish owners active works i w w' :
  works !! i = Some w → same_record w w' → live w → w_phase w' = Finished → works_ok owners active works →
  works_ok owners
    (if bool_decide (active !! w_partition w = Some (w_owner w)) then delete (w_partition w) active else active)
    (<[i := w']> works).
Proof.
  intros Hw Hs Hl Hf Hok. destruct (works_ok_phase owners active works i w w' Hw Hs Hl Hok) as [H1 H2].
  split; [|done]. intros j wj Hj Hlj Hcur. pose proof (H1 j wj Hj Hlj Hcur) as Ha.
  case_bool_decide as Hb; [|done]. apply lookup_delete_Some. split; [|done]. intros Ep.
  apply list_lookup_insert_Some in Hj as [(<- & <- & _)|[Hne Hj]]; [by destruct (Hlj Hf)|].
  rewrite <- Ep, Hb in Ha. injection Ha as Eo. apply Hne.
  by eapply (wo_unique _ _ _ Hok i j w wj).
Qed.

(** ** Commits *)

Lemma commits_ok_phase owners commits handing works i w w' :
  works !! i = Some w → same_record w w' → w_phase w ≠ Committing → w_phase w' ≠ Committing →
  commits_ok owners commits handing works → commits_ok owners commits handing (<[i := w']> works).
Proof.
  intros Hw (Hp & Ho & _) Hn Hn' [H1 H2 H3 H4]. split; try done.
  - intros p j Hj. destruct (H1 p j Hj) as (wj & Hwj & Epj & Ec). exists wj. split; [|done].
    rewrite list_lookup_insert_ne; [done|]. intros ->. congruence.
  - intros j wj [(<- & <- & _)|[_ Hj]]%list_lookup_insert_Some Hc; [done|by eapply H2].
  - intros j wj [(<- & <- & _)|[_ Hj]]%list_lookup_insert_Some Hc; [done|by eapply H3].
Qed.

Lemma commits_ok_settle owners commits handing works i w w' :
  works !! i = Some w → same_record w w' → w_phase w = Committing → w_phase w' ≠ Committing →
  commits_ok owners commits handing works →
  commits_ok owners (delete (w_partition w) commits) handing (<[i := w']> works).
Proof.
  intros Hw (Hp & Ho & _) Hc Hn' [H1 H2 H3 H4]. pose proof (H2 i w Hw Hc) as Hi. split; try done.
  - intros p j [Hne Hj]%lookup_delete_Some. destruct (H1 p j Hj) as (wj & Hwj & Epj & Ecj).
    exists wj. split; [|done]. rewrite list_lookup_insert_ne; [done|]. intros ->. congruence.
  - intros j wj [(<- & <- & _)|[Hne Hj]]%list_lookup_insert_Some Hcj; [done|].
    apply lookup_delete_Some. split; [|by eapply H2]. intros Ep.
    pose proof (H2 j wj Hj Hcj) as Hj'. rewrite <- Ep, Hi in Hj'. congruence.
  - intros j wj [(<- & <- & _)|[_ Hj]]%list_lookup_insert_Some Hcj; [done|by eapply H3].
Qed.

(** A current owner's partition is not held back, so no other commit is under way. *)
Lemma no_other_commit owners commits handing active works i w :
  works_ok owners active works → commits_ok owners commits handing works →
  works !! i = Some w → live w → w_phase w ≠ Committing → owners !! w_partition w = Some (w_owner w) →
  commits !! w_partition w = None.
Proof.
  intros Hwo [H1 H2 H3 H4] Hw Hl Hn Hcur. destruct (commits !! w_partition w) as [j|] eqn:E; [|done]. exfalso.
  destruct (H1 _ _ E) as (wj & Hj & Ep & Ec). destruct (decide (w_owner wj = w_owner w)) as [Eo|Hne].
  - assert (j = i) as ->; [|congruence]. eapply (wo_unique _ _ _ Hwo j i wj w); try done. unfold live. by rewrite Ec.
  - assert (w_partition wj ∈ handing) as Hh by (eapply H3; [done|done|rewrite Ep, Hcur; congruence]).
    apply H4 in Hh. rewrite Ep in Hh. congruence.
Qed.

Lemma commits_ok_submit owners commits handing works i w w' :
  works !! i = Some w → same_record w w' → w_phase w' = Committing → owners !! w_partition w = Some (w_owner w) →
  commits !! w_partition w = None → commits_ok owners commits handing works →
  commits_ok owners (<[w_partition w := i]> commits) handing (<[i := w']> works).
Proof.
  intros Hw (Hp & Ho & _) Hc Hcur Hnone [H1 H2 H3 H4].
  assert (i < length works)%nat as Hlt by (by eapply lookup_lt_Some). split; try done.
  - intros p j [[<- <-]|[Hne Hj]]%lookup_insert_Some.
    + exists w'. rewrite list_lookup_insert_eq by done. by rewrite Hp.
    + destruct (H1 p j Hj) as (wj & Hwj & Epj & Ecj). exists wj. split; [|done].
      rewrite list_lookup_insert_ne; [done|]. intros ->. congruence.
  - intros j wj [(<- & <- & _)|[Hne Hj]]%list_lookup_insert_Some Hcj.
    + rewrite Hp. by rewrite lookup_insert_eq.
    + pose proof (H2 j wj Hj Hcj) as Hj'. rewrite lookup_insert_ne; [done|]. intros Ep. congruence.
  - intros j wj [(<- & <- & _)|[Hne Hj]]%list_lookup_insert_Some Hcj; [|by eapply H3].
    rewrite Hp, Ho. by intros [].
Qed.

(** ** Traces and works together *)

Definition with_phase (ph : WorkPhase) (w : Work) : Work :=
  mkWork (w_partition w) (w_owner w) (w_offset w) (w_value w) ph.

Lemma same_record_phase ph w : same_record w (with_phase ph w).
Proof. done. Qed.

Lemma trace_ok_log commits works tr t :
  allowed tr t → (∀ p, is_commit p t = false ∧ is_settled p t = false) →
  trace_ok commits works tr → trace_ok commits works (tr ++ [t]).
Proof.
  intros Ha Hn [H1 H2 H3]. split.
  - by apply protocol_snoc.
  - intros p. destruct (Hn p) as [E1 E2]. rewrite !occurrences_snoc, E1, E2, H2. lia.
  - intros i w Hw Hc. destruct (H3 i w Hw Hc). rewrite !elem_of_snoc. auto.
Qed.

Lemma trace_ok_phase commits works tr i w ph :
  works !! i = Some w → ph ≠ Committing → trace_ok commits works tr →
  trace_ok commits (<[i := with_phase ph w]> works) tr.
Proof.
  intros Hw Hn [H1 H2 H3]. split; [done|done|].
  intros j wj [(<- & <- & _)|[_ Hj]]%list_lookup_insert_Some Hc; [done|by eapply H3].
Qed.

Lemma trace_ok_submit commits works tr i w :
  works !! i = Some w → commits !! w_partition w = None → trace_ok commits works tr →
  THandled (w_partition w) (w_owner w) (w_offset w) ∈ tr →
  allowed tr (TCommit (w_partition w) (w_owner w) (w_offset w + 1)) →
  trace_ok (<[w_partition w := i]> commits) (<[i := with_phase Committing w]> works)
    (tr ++ [TCommit (w_partition w) (w_owner w) (w_offset w + 1)]).
Proof.
  intros Hw Hnone [H1 H2 H3] Hh Ha. split.
  - by apply protocol_snoc.
  - intros p. rewrite !occurrences_snoc. simpl. rewrite H2.
    destruct (Nat.eqb_spec p (w_partition w)) as [->|Hne].
    + rewrite Hnone, lookup_insert_eq. lia.
    + rewrite lookup_insert_ne by congruence. lia.
  - intros j wj [(<- & <- & _)|[_ Hj]]%list_lookup_insert_Some Hc; simpl.
    + rewrite !elem_of_snoc. auto.
    + destruct (H3 j wj Hj Hc). rewrite !elem_of_snoc. auto.
Qed.

Lemma trace_ok_settle commits works tr i w t :
  works !! i = Some w → w_phase w = Committing → commits !! w_partition w = Some i → trace_ok commits works tr →
  t = TCommitted (w_partition w) (w_owner w) (w_offset w + 1) ∨
  t = TCommitFailed (w_partition w) (w_owner w) (w_offset w + 1) →
  trace_ok (delete (w_partition w) commits) (<[i := with_phase Finished w]> works) (tr ++ [t]).
Proof.
  intros Hw Hc Hi [H1 H2 H3] Ht. destruct (H3 i w Hw Hc) as [_ Hsub]. split.
  - apply protocol_snoc; [done|]. by destruct Ht as [-> | ->].
  - intros p. rewrite !occurrences_snoc, H2.
    assert (is_commit p t = false) as -> by (by destruct Ht as [-> | ->]).
    assert (is_settled p t = Nat.eqb p (w_partition w)) as -> by (by destruct Ht as [-> | ->]).
    destruct (Nat.eqb_spec p (w_partition w)) as [->|Hne].
    + rewrite Hi, lookup_delete_eq. lia.
    + rewrite lookup_delete_ne by congruence. lia.
  - intros j wj [(<- & <- & _)|[_ Hj]]%list_lookup_insert_Some Hcj; [done|].
    destruct (H3 j wj Hj Hcj). rewrite !elem_of_snoc. auto.
Qed.

(** ** Every operation keeps the invariant *)

Lemma finish_work_ok i w k :
  k_works k !! i = Some w → live w →
  owners_ok (k_owners k) (k_revoked k) (k_next k) (k_shutdown k) (k_works k) (k_trace k) →
  works_ok (k_owners k) (k_active k) (k_works k) →
  commits_ok (k_owners k) (k_commits k) (k_handing k) (<[i := with_phase Finished w]> (k_works k)) →
  trace_ok (k_commits k) (<[i := with_phase Finished w]> (k_works k)) (k_trace k) →
  consumer_ok (finish_work i w k).
Proof.
  intros Hw Hl Ho Hwo Hc Ht.
  pose proof (owners_ok_work _ _ _ _ _ _ i w _ Hw (same_record_phase Finished w) Ho) as Ho'.
  pose proof (works_ok_finish _ _ _ i w _ Hw (same_record_phase Finished w) Hl eq_refl Hwo) as Hwo'.
  unfold finish_work. simpl. case_bool_decide; by split.
Qed.

(** A work that is not waiting for its commit may end at any point. *)
Lemma abandon_ok i w k :
  consumer_ok k → k_works k !! i = Some w → live w → w_phase w ≠ Committing → consumer_ok (finish_work i w k).
Proof.
  intros [Ho Hwo Hc Ht] Hw Hl Hn. apply finish_work_ok; try done.
  - by eapply commits_ok_phase.
  - by apply trace_ok_phase.
Qed.

Lemma log_ok t k :
  plain t → allowed (k_trace k) t → (∀ p, is_commit p t = false ∧ is_settled p t = false) →
  consumer_ok k → consumer_ok (log t k).
Proof.
  intros Hp Ha Hn [Ho Hwo Hc Ht]. split; simpl; [by apply owners_ok_log|done|done|by apply trace_ok_log].
Qed.

Lemma work_turn_ok i w k :
  consumer_ok k → k_works k !! i = Some w → w_phase w = Turn → consumer_ok (work_turn i w k).
Proof.
  intros Hok Hw Hph. assert (live w) by (unfold live; by rewrite Hph). assert (w_phase w ≠ Committing) by (by rewrite Hph).
  unfold work_turn. destruct (work_aborted k w); [by apply abandon_ok|].
  destruct (w_value w); simpl.
  - destruct Hok as [Ho Hwo Hc Ht]. split; simpl.
    + by eapply owners_ok_work.
    + by eapply works_ok_phase.
    + by eapply commits_ok_phase.
    + by apply trace_ok_phase.
  - apply abandon_ok; try done. by destruct Hok.
Qed.

Lemma current_not_revoked k w :
  consumer_ok k → work_aborted k w = false →
  TRevoked (w_partition w) (w_owner w) ∉ k_trace k ∧ TStopped ∉ k_trace k.
Proof.
  intros [Ho _ _ _] [Hs Hr%bool_decide_eq_false]%orb_false_iff. split.
  - intros Hin. apply Hr. by eapply oo_revoked.
  - intros Hin. apply (oo_stopped _ _ _ _ _ _ Ho) in Hin. congruence.
Qed.

Lemma work_dispatched_ok i ok w k :
  consumer_ok k → k_works k !! i = Some w → w_phase w = Dispatching → consumer_ok (work_dispatched i ok w k).
Proof.
  intros Hok0 Hw Hph. assert (live w) as Hl by (unfold live; by rewrite Hph).
  assert (w_phase w ≠ Committing) as Hn by (by rewrite Hph).
  unfold work_dispatched. destruct ok; simpl; [|by apply abandon_ok].
  assert (consumer_ok (log (THandled (w_partition w) (w_owner w) (w_offset w)) k)) as Hok by (by apply log_ok).
  set (k1 := log _ k) in *. destruct (work_aborted k1 w) eqn:Ea; [by apply abandon_ok|].
  unfold is_owner. case_bool_decide as Hcur; simpl; [|by apply abandon_ok].
  destruct (current_not_revoked _ _ Hok Ea) as [Hnr Hns].
  assert (k_commits k1 !! w_partition w = None) as Hnone.
  { eapply no_other_commit; [exact (ck_works _ Hok)|exact (ck_commits _ Hok)|done..]. }
  assert (THandled (w_partition w) (w_owner w) (w_offset w) ∈ k_trace k1) as Hh by (simpl; rewrite elem_of_snoc; auto).
  destruct Hok as [Ho Hwo Hc Ht]. split; simpl.
  - apply owners_ok_log; [done|]. by eapply owners_ok_work.
  - by eapply works_ok_phase.
  - by eapply commits_ok_submit.
  - apply trace_ok_submit; try done. unfold allowed. replace (w_offset w + 1 - 1) with (w_offset w) by lia.
    split_and!; [done|by apply (oo_works _ _ _ _ _ _ Ho i)|done|done|].
    pose proof (to_count _ _ _ Ht (w_partition w)) as Hcnt. rewrite Hnone, Nat.add_0_r in Hcnt. exact Hcnt.
Qed.

Lemma work_committed_ok i ok w k :
  consumer_ok k → k_works k !! i = Some w → w_phase w = Committing → consumer_ok (work_committed i ok w k).
Proof.
  intros [Ho Hwo Hc Ht] Hw Hph. assert (live w) as Hl by (unfold live; by rewrite Hph).
  assert (k_commits k !! w_partition w = Some i) as Hi by (by eapply co_complete).
  destruct (to_commit _ _ _ Ht i w Hw Hph) as [Hh _].
  assert (∀ t, t = TCommitted (w_partition w) (w_owner w) (w_offset w + 1) ∨
               t = TCommitFailed (w_partition w) (w_owner w) (w_offset w + 1) → plain t ∧
    trace_ok (delete (w_partition w) (k_commits k)) (<[i := with_phase Finished w]> (k_works k)) (k_trace k ++ [t]))
    as Hset by (intros t Ht'; split; [by destruct Ht' as [-> | ->]|by apply trace_ok_settle]).
  assert (commits_ok (k_owners k) (delete (w_partition w) (k_commits k)) (k_handing k)
            (<[i := with_phase Finished w]> (k_works k))) as Hc' by (by eapply commits_ok_settle).
  unfold work_committed. destruct ok; simpl.
  - destruct (Hset (TCommitted (w_partition w) (w_owner w) (w_offset w + 1))) as [_ Ht']; [by left|].
    destruct (_ || _) eqn:Ea; [apply finish_work_ok; simpl; try done; by apply owners_ok_log|].
    apply orb_false_iff in Ea as [Ea _]. apply orb_false_iff in Ea as [Es Er%bool_decide_eq_false]. simpl in *.
    apply finish_work_ok; simpl; try done; [by apply owners_ok_log, owners_ok_log|].
    apply trace_ok_log; [|done|done]. simpl. rewrite !elem_of_snoc.
    replace (w_offset w + 1 - 1) with (w_offset w) by lia. split_and!; [by right|by left|..].
    + intros [Hin|]; [|done]. apply Er. by eapply oo_revoked.
    + intros [Hin|]; [|done]. apply (oo_stopped _ _ _ _ _ _ Ho) in Hin. congruence.
  - destruct (Hset (TCommitFailed (w_partition w) (w_owner w) (w_offset w + 1))) as [_ Ht']; [by right|].
    apply finish_work_ok; simpl; try done. by apply owners_ok_log.
Qed.

Lemma eachBatch_ok p messages isStale isRunning k :
  consumer_ok k → consumer_ok (eachBatch p messages isStale isRunning k).
Proof.
  intros Hok. unfold eachBatch. destruct messages as [|[offset value] messages]; [done|].
  destruct (k_owners k !! p) as [o|] eqn:Eo; [|done]. destruct (_ || _ || _); [done|].
  case_bool_decide as Ha; [done|]. destruct Hok as [Ho Hwo Hc Ht].
  assert (∀ j w, (k_works k ++ [mkWork p o offset value Turn]) !! j = Some w →
            k_works k !! j = Some w ∨ j = length (k_works k) ∧ w = mkWork p o offset value Turn) as Hl.
  { intros j w [Hj|[Hlen [Hj ->]%list_lookup_singleton_Some]]%lookup_app_Some; [by left|].
    right. split; [lia|done]. }
  split; simpl.
  - destruct Ho as [H1 H2 H3 H4 H5 H6 H7]. split; try done. intros j w [Hj|[_ ->]]%Hl; [by eapply H7|by apply H1].
  - destruct Hwo as [H1 H2]. split.
    + intros j w [Hj|[_ ->]]%Hl Hlive Hcur; [|simpl; by rewrite lookup_insert_eq].
      destruct (decide (p = w_partition w)) as [->|Hne]; [|rewrite lookup_insert_ne by done; by eapply H1].
      rewrite lookup_insert_eq. congruence.
    + intros a b wa wb [Hwa|[-> ->]]%Hl [Hwb|[-> ->]]%Hl La Lb Ep Eo'; [by eapply H2| | |done]; simpl in *.
      * destruct Ha. rewrite <- Ep, <- Eo'. eapply H1; [done|done|]. by rewrite Ep, Eo'.
      * destruct Ha. rewrite Ep, Eo'. eapply H1; [done|done|]. by rewrite <- Ep, <- Eo'.
  - destruct Hc as [H1 H2 H3 H4]. split; try done.
    + intros q j Hj. destruct (H1 q j Hj) as (w & Hw & ?). exists w. split; [by apply lookup_app_l_Some|done].
    + intros j w [Hj|[_ ->]]%Hl Hcw; [by eapply H2|done].
    + intros j w [Hj|[_ ->]]%Hl Hcw; [by eapply H3|done].
  - destruct Ht as [H1 H2 H3]. split; [done|done|]. intros j w [Hj|[_ ->]]%Hl Hcw; [by eapply H3|done].
Qed.

Lemma assign_ok p k : p ∉ k_handing k → consumer_ok k → consumer_ok (assign p k).
Proof.
  intros Hh [Ho Hwo Hc Ht]. unfold assign. destruct (k_owners k !! p) as [o|] eqn:Eo; [done|].
  assert (∀ i w, k_works k !! i = Some w → w_owner w ≠ k_next k) as Hfresh.
  { intros i w Hw E. pose proof (oo_fresh _ _ _ _ _ _ Ho _ _ (oo_works _ _ _ _ _ _ Ho i w Hw)). lia. }
  assert (∀ i w, k_works k !! i = Some w → w_phase w = Committing → w_partition w ≠ p) as Hidle.
  { intros i w Hw Hcm <-. apply Hh. eapply (co_handing _ _ _ _ Hc); [done|done|by rewrite Eo]. }
  split; simpl.
  - destruct Ho as [H1 H2 H3 H4 H5 H6 H7]. split; simpl.
    + intros q o [[<- <-]|[Hne Hq]]%lookup_insert_Some; rewrite elem_of_snoc.
      * split; [by right|]. intros Hr. apply H5 in Hr. lia.
      * destruct (H1 q o Hq). auto.
    + intros q o [Hin|[= -> ->]]%elem_of_snoc; [apply H2 in Hin; lia|lia].
    + intros q q' o [Hin|[= -> ->]]%elem_of_snoc [Hin'|E]%elem_of_snoc; [by eapply H3| | |by injection E].
      * injection E as -> ->. apply H2 in Hin. lia.
      * apply H2 in Hin'. lia.
    + intros q o [Hin|?]%elem_of_snoc; [by eapply H4|done].
    + intros o Hr. apply H5 in Hr. lia.
    + intros [Hin|?]%elem_of_snoc; [by apply H6|done].
    + intros i w Hw. rewrite elem_of_snoc. left. by eapply H7.
  - destruct Hwo as [H1 H2]. split; [|done]. intros i w Hw Hl Hcur.
    apply lookup_insert_Some in Hcur as [[_ E]|[_ Hcur]]; [by destruct (Hfresh i w Hw)|by eapply H1].
  - destruct Hc as [H1 H2 H3 H4]. split; try done.
    + intros i w Hw Hcm Hcur. eapply H3; [done|done|]. intros E. apply Hcur.
      rewrite lookup_insert_ne; [done|]. intros Ep. by eapply Hidle.
    + intros q Hq. rewrite lookup_insert_ne; [by apply H4|]. by intros ->.
  - by apply trace_ok_log.
Qed.

Lemma revoke_ok p k : consumer_ok k → consumer_ok (revoke p k).
Proof.
  intros [Ho Hwo Hc Ht].
  assert (works_ok (delete p (k_owners k)) (k_active k) (k_works k)) as Hwo'.
  { destruct Hwo as [H1 H2]. split; [|done]. intros i w Hw Hl [_ Hcur]%lookup_delete_Some. by eapply H1. }
  assert (commits_ok (delete p (k_owners k)) (k_commits k) ({[p]} ∪ k_handing k) (k_works k)) as Hc'.
  { destruct Hc as [H1 H2 H3 H4]. split; try done.
    - intros i w Hw Hcm Hcur. destruct (decide (w_partition w = p)) as [->|Hne]; [set_solver|].
      rewrite lookup_delete_ne in Hcur by congruence. apply elem_of_union_r. by eapply H3.
    - intros q [->%elem_of_singleton|Hq]%elem_of_union; [by rewrite lookup_delete_eq|].
      apply lookup_delete_None. right. by apply H4. }
  unfold revoke. destruct (k_owners k !! p) as [o|] eqn:Eo; split; simpl; try done.
  - destruct Ho as [H1 H2 H3 H4 H5 H6 H7]. split; simpl.
    + intros q o' [Hne Hq]%lookup_delete_Some. destruct (H1 q o' Hq) as [Hin Hr]. rewrite elem_of_snoc.
      split; [by left|]. intros [->%elem_of_singleton|?]%elem_of_union; [|done].
      apply Hne. destruct (H1 p o Eo). by eapply H3.
    + intros q o' [Hin|?]%elem_of_snoc; [by eapply H2|done].
    + intros q q' o' [Hin|?]%elem_of_snoc [Hin'|?]%elem_of_snoc; [by eapply H3|done..].
    + intros q o' [Hin|[= -> ->]]%elem_of_snoc; [apply elem_of_union_r; by eapply H4|set_solver].
    + intros o' [->%elem_of_singleton|?]%elem_of_union; [|by apply H5]. destruct (H1 p o Eo). by eapply H2.
    + intros [Hin|?]%elem_of_snoc; [by apply H6|done].
    + intros i w Hw. rewrite elem_of_snoc. left. by eapply H7.
  - by apply trace_ok_log.
  - destruct Ho as [H1 H2 H3 H4 H5 H6 H7]. split; try done. intros q o' [_ Hq]%lookup_delete_Some. by apply H1.
Qed.

Lemma handoff_ok p k : k_commits k !! p = None → consumer_ok k → consumer_ok (handoff p k).
Proof.
  intros Hnone [Ho Hwo Hc Ht]. split; simpl.
  - by apply owners_ok_log.
  - done.
  - destruct Hc as [H1 H2 H3 H4]. split; try done.
    + intros i w Hw Hcm Hcur. apply elem_of_difference. split; [by eapply H3|].
      intros Ep%elem_of_singleton. pose proof (H2 i w Hw Hcm). congruence.
    + intros q [Hq _]%elem_of_difference. by apply H4.
  - apply trace_ok_log; [|done|done]. simpl.
    pose proof (to_count _ _ _ Ht p) as Hcnt. rewrite Hnone, Nat.add_0_r in Hcnt. exact Hcnt.
Qed.

Lemma stop_ok k : consumer_ok k → consumer_ok (stop k).
Proof.
  intros [Ho Hwo Hc Ht]. split; simpl; [|done|done|by apply trace_ok_log].
  destruct Ho as [H1 H2 H3 H4 H5 H6 H7]. split; try done.
  - intros q o Hq. rewrite elem_of_snoc. destruct (H1 q o Hq). auto.
  - intros q o [Hin|?]%elem_of_snoc; [by eapply H2|done].
  - intros q q' o [Hin|?]%elem_of_snoc [Hin'|?]%elem_of_snoc; [by eapply H3|done..].
  - intros q o [Hin|?]%elem_of_snoc; [by eapply H4|done].
  - intros i w Hw. rewrite elem_of_snoc. left. by eapply H7.
Qed.

Lemma consumer_step_ok e k : consumer_ok k → consumer_ok (consumer_step e k).
Proof.
  intros Hok. destruct e as [p|p|p|p messages isStale isRunning|i|i ok|i ok|]; cbn [consumer_step].
  - case_bool_decide; [done|by apply assign_ok].
  - case_bool_decide; [done|by apply revoke_ok].
  - case_bool_decide as Hb; [|done]. apply handoff_ok; [apply Hb|done].
  - by apply eachBatch_ok.
  - destruct (k_works k !! i) eqn:E; [|done]. case_bool_decide; [by apply work_turn_ok|done].
  - destruct (k_works k !! i) eqn:E; [|done]. case_bool_decide; [by apply work_dispatched_ok|done].
  - destruct (k_works k !! i) eqn:E; [|done]. case_bool_decide; [by apply work_committed_ok|done].
  - by apply stop_ok.
Qed.

Lemma new_consumer_ok : consumer_ok new_consumer.
Proof.
  split; split; simpl; try done; try set_solver.
  intros pre t post E. by destruct pre.
Qed.

Lemma run_consumer_ok es : consumer_ok (run_consumer es).
Proof.
  unfold run_consumer. pose proof new_consumer_ok as Hok. revert Hok. generalize new_consumer.
  induction es as [|e es IH]; intros k Hok; simpl; [done|]. by apply IH, consumer_step_ok.
Qed.

(** ** Properties *)

(** C14: the commit protocol: in the trace of any interleaving of the client's
    callbacks and the works, the offset after a record is committed only once
    that record was handled under the same ownership, by an owner that was
    assigned and is neither revoked nor stopped, with no other commit of the
    partition under way; the partition is resumed after a record only when its
    commit was acknowledged to the current owner; and a partition is handed
    over only when every commit submitted for it has settled. *)
Theorem kafka_commit_protocol es : protocol (k_trace (run_consumer es)).
Proof. exact (to_protocol _ _ _ (ck_trace _ (run_consumer_ok es))). Qed.

(** At any time an owner has at most one live work per partition, it is
    the one in the map of active works while the owner is current, and the map
    of commits holds exactly the works that wait for their commit. *)
Theorem kafka_one_work es i w :
  k_works (run_consumer es) !! i = Some w → live w →
  (∀ j w', k_works (run_consumer es) !! j = Some w' → live w' →
     w_partition w' = w_partition w → w_owner w' = w_owner w → j = i) ∧
  (k_owners (run_consumer es) !! w_partition w = Some (w_owner w) →
     k_active (run_consumer es) !! w_partition w = Some (w_owner w)) ∧
  (w_phase w = Committing ↔ k_commits (run_consumer es) !! w_partition w = Some i).
Proof.
  destruct (run_consumer_ok es) as [_ [H1 H2] [H3 H4 _ _] _]. intros Hw Hl. split_and!.
  - intros j w' Hj Hlj Ep Eo. by eapply H2.
  - by apply (H1 i).
  - split; [by apply H4|]. intros Hc. destruct (H3 _ _ Hc) as (w' & Hw' & _ & ?). by simplify_eq.
Qed.

(** Read the fields of an updated consumer. *)
Ltac fields := cbn [negb orb log set_commits set_paused set_work set_active k_owners k_revoked k_next k_active k_commits
  k_handing k_shutdown k_paused k_recordErrors k_works k_trace w_partition w_owner w_offset w_value w_phase].

(** C40: a record that can be handled is handled: when a batch arrives for an
    owned partition without an active work, and its dispatch and its commit
    succeed without a revocation or a stop, the record is handled, its next
    offset is committed, and the partition is resumed there with no work left
    active. *)
Theorem kafka_record_completes k p o offset rest :
  k_owners k !! p = Some o → o ∉ k_revoked k → k_shutdown k = false → k_active k !! p ≠ Some o →
  let i := length (k_works k) in
  let k' := foldl (λ k e, consumer_step e k) k
              [Batch p ((offset, true) :: rest) false true; NextTurn i; DispatchEnds i true; CommitEnds i true] in
  k_trace k' = k_trace k ++ [THandled p o offset; TCommit p o (offset + 1);
                             TCommitted p o (offset + 1); TResumed p o (offset + 1)] ∧
  k_active k' !! p = None ∧ p ∉ k_paused k'.
Proof.
  intros Ho Hr Hs Ha i k'. subst k'. cbn [foldl consumer_step].
  set (k1 := eachBatch p ((offset, true) :: rest) false true k).
  assert (k1 = mkConsumer (k_owners k) (k_revoked k) (k_next k) (<[p := o]> (k_active k)) (k_commits k) (k_handing k)
    (k_shutdown k) ({[p]} ∪ k_paused k) (k_recordErrors k) (k_works k ++ [mkWork p o offset true Turn]) (k_trace k)) as ->.
  { subst k1. unfold eachBatch. rewrite Ho, Hs. simpl. by rewrite bool_decide_false. }
  assert (∀ w : Work, (k_works k ++ [w]) !! i = Some w) as Hlk by (intros w; by apply list_lookup_middle).
  assert (∀ w w' : Work, <[i := w']> (k_works k ++ [w]) = k_works k ++ [w']) as Hins.
  { intros w w'. rewrite insert_app_r_alt by done. by rewrite Nat.sub_diag. }
  fields. rewrite Hlk, bool_decide_true by done.
  unfold work_turn, work_aborted. fields. rewrite Hs, bool_decide_false by done.
  fields. rewrite !Hins, Hlk, bool_decide_true by done.
  unfold work_dispatched, work_aborted, is_owner. fields. rewrite bool_decide_false by done.
  fields. rewrite bool_decide_true by done. fields. rewrite !Hins, Hlk, bool_decide_true by done.
  unfold work_committed, work_aborted, is_owner, finish_work. fields. rewrite bool_decide_false by done.
  fields. rewrite (bool_decide_true (k_owners k !! p = Some o)) by done.
  fields. rewrite bool_decide_true by apply lookup_insert_eq. fields. split_and!.
  - by rewrite <- !app_assoc.
  - apply lookup_delete_eq.
  - set_solver.
Qed.

(** A delivered callback was sent at least once, with the same call each time. *)
Lemma deliver_delivered_calls call rounds m calls m' :
  deliver true call rounds m = (Delivered, calls, m') → ∃ n, calls = replicate (S n) call.
Proof.
  intros E. destruct (first_decisive true rounds) as [Hall|(pre & r & rest & e & -> & Hpre & Hr)].
  - unfold deliver in E. destruct (deliver_loop_waiting true call rounds [] (mkMetrics (cm_pending m + 1) (cm_retries m)
      (cm_rejected m)) Hall) as (c & m2 & E2). rewrite E2 in E. congruence.
  - unfold deliver in E. destruct (deliver_loop_spec true call pre r rest [] (mkMetrics (cm_pending m + 1) (cm_retries m)
      (cm_rejected m)) e Hpre Hr) as (c & m2 & E2 & Hc & _). rewrite E2 in E. injection E as -> <- _.
    apply decisive_delivered in Hr as (_ & Hb & _). rewrite Hb in Hc. exists (length pre).
    rewrite Hc. simpl. by rewrite Nat.add_comm.
Qed.

(** The outcomes of a Kafka record: it throws, counted as a record error
    and with no call, exactly when it cannot be decoded or has no job id; it
    returns, so that its offset is committed, only for a duplicate (no call,
    cache as it was) or when the engine acknowledged its callback and the
    signal was not aborted (every call is the record's own, its deduplication
    id is marked); when it throws nothing is marked. *)
Theorem kafka_dispatch_outcomes `{JsonText} decode workerId registry data now done rounds aborted cache errors m :
  let d := kafka_dispatch decode workerId registry data now done rounds aborted cache errors m in
  (kd_end d = ThrewDecode ↔ match decode data with Some ev => ev_jobId ev = EmptyString | None => True end) ∧
  (kd_end d = ThrewDecode → kd_recordErrors d = S errors ∧ kd_calls d = []) ∧
  (kd_end d ≠ ThrewDecode → kd_recordErrors d = errors) ∧
  (kd_end d ≠ Returned → kd_cache d = cache) ∧
  (kd_end d = Returned → ∃ ev, decode data = Some ev ∧
     (has now (ev_dedupId ev) cache = true ∧ kd_calls d = [] ∧ kd_cache d = cache ∨
      aborted = false ∧ kd_cache d = mark done (ev_dedupId ev) cache ∧
      ∃ n, kd_calls d = replicate (S n) (outcome_call workerId (ev_jobId ev) (record_outcome registry ev)))).
Proof.
  cbn zeta. unfold kafka_dispatch. destruct (decode data) as [ev|]; [|split_and!; naive_solver].
  destruct (truthy_str (ev_jobId ev)) eqn:Ej.
  2: { apply truthy_str_false in Ej. simpl. split_and!; naive_solver. }
  apply truthy_str_true in Ej. cbn [negb].
  destruct (truthy_str (ev_dedupId ev) && has now (ev_dedupId ev) cache) eqn:Ed.
  { apply andb_true_iff in Ed as [_ Ed]. simpl. split_and!; try done. intros _. exists ev. auto. }
  set (call := outcome_call _ _ _). destruct (deliver true call rounds m) as [[e calls] m'] eqn:E.
  destruct e as [|err| |]; [|simpl; split_and!; try done; by intros..].
  apply deliver_delivered_calls in E. destruct aborted; simpl; split_and!; try done.
  intros _. exists ev. auto.
Qed.

(** A redelivered record is silent: after a record was acknowledged and
    marked, dispatching a record with the same deduplication id within the
    window returns without running a handler or calling the engine, and leaves
    the cache as it is. *)
Theorem kafka_redelivery_silent `{JsonText} decode workerId registry data data' ev ev' now t rounds cache errors m
    now' t' rounds' aborted' errors' m' :
  let d := kafka_dispatch decode workerId registry data now t rounds false cache errors m in
  decode data = Some ev → decode data' = Some ev' → ev_jobId ev' ≠ EmptyString →
  ev_dedupId ev ≠ EmptyString → ev_dedupId ev' = ev_dedupId ev →
  kd_end d = Returned → has now (ev_dedupId ev) cache = false → now' - t < dc_windowMs cache →
  kafka_dispatch decode workerId registry data' now' t' rounds' aborted' (kd_cache d) errors' m' =
  mkKafkaDispatch Returned [] (kd_cache d) errors' m'.
Proof.
  cbn zeta. intros Hd Hd' Hj Hne Heq Hret Hno Hw.
  assert (kd_cache (kafka_dispatch decode workerId registry data now t rounds false cache errors m) =
          mark t (ev_dedupId ev) cache) as ->.
  { revert Hret. unfold kafka_dispatch. rewrite Hd, Hno, andb_false_r.
    destruct (truthy_str (ev_jobId ev)); [|done]. simpl.
    destruct (deliver _ _ _ _) as [[[] ?] ?]; done. }
  unfold kafka_dispatch. rewrite Hd', Heq. apply truthy_str_true in Hj, Hne. rewrite Hj. cbn [negb].
  assert (has now' (ev_dedupId ev) (mark t (ev_dedupId ev) cache) = true) as ->; [|by rewrite Hne].
  unfold has, mark. rewrite Hne. simpl. rewrite lookup_insert_eq. by apply Z.ltb_lt.
Qed.

(** ** Witnesses *)

Definition sample_run : list ConsumerEvent :=
  [Assign 0; Batch 0 [(41, true)] false true; NextTurn 0; DispatchEnds 0 true; Revoke 0; Assign 0; CommitEnds 0 true;
   Handoff 0].

Lemma kafka_one_work_witness :
  k_commits (run_consumer (take 4 sample_run)) !! 0%nat = Some 0%nat.
Proof.
  destruct (kafka_one_work (take 4 sample_run) 0 (mkWork 0 0 41 true Committing)) as (_ & _ & Hc).
  - vm_compute. reflexivity.
  - discriminate.
  - apply Hc. reflexivity.
Defined.

Lemma kafka_record_completes_witness :
  k_trace (foldl (λ k e, consumer_step e k) (consumer_step (Assign 3) new_consumer)
    [Batch 3 [(7, true)] false true; NextTurn 0; DispatchEnds 0 true; CommitEnds 0 true]) =
  [TAssigned 3 0; THandled 3 0 7; TCommit 3 0 8; TCommitted 3 0 8; TResumed 3 0 8].
Proof.
  apply (kafka_record_completes (consumer_step (Assign 3) new_consumer) 3 0 7 []).
  - vm_compute. reflexivity.
  - apply not_elem_of_empty.
  - reflexivity.
  - vm_compute. discriminate.
Defined.

Definition sample_decode (data : string) : option JobDispatchEvent :=
  Some (mkDispatchEvent data "charge" "i1" "s1" 3 EmptyString "d1").

Definition sample_dispatch : KafkaDispatch :=
  kafka_dispatch sample_decode "w" [] "j1" 0 5 [mkRound false None false false] false (new_cache None) 0
    (mkMetrics 0 0 0).

Lemma kafka_redelivery_silent_witness :
  kafka_dispatch sample_decode "w" [] "j2" 100 200 [] false (kd_cache sample_dispatch) 0 (mkMetrics 0 0 0) =
  mkKafkaDispatch Returned [] (kd_cache sample_dispatch) 0 (mkMetrics 0 0 0).
Proof.
  apply (kafka_redelivery_silent sample_decode "w" [] "j1" "j2"
    (mkDispatchEvent "j1" "charge" "i1" "s1" 3 EmptyString "d1")
    (mkDispatchEvent "j2" "charge" "i1" "s1" 3 EmptyString "d1") 0 5 [mkRound false None false false]
    (new_cache None) 0 (mkMetrics 0 0 0)); try reflexivity; discriminate.
Defined.
