(* ===== verification/Cursor.v ===== *)
(** * Cursors and page sizes of the Monitor API

    The texts the query modules of workflow-monitor-bff share: base64url as
    [Buffer] writes and reads it, the cursor pattern with its check for the
    canonical encoding, [Number] on a query parameter, and [pageSize].
    [Number] is exact here: a text that only rounds to an integer is not one. *)

From S2P Require Import Prelude Peg.

#[local] Open Scope Z_scope.
#[local] Arguments String.append !_ _ / : simpl nomatch.

(** ** base64url *)

Definition byte_value (c : ascii) : Z := Z.of_nat (Ascii.nat_of_ascii c).
Definition byte_char (n : Z) : ascii := Ascii.ascii_of_nat (Z.to_nat n).

Definition b64_char (n : Z) : ascii :=
  if n <? 26 then byte_char (n + 65)
  else if n <? 52 then byte_char (n + 71)
  else if n <? 62 then byte_char (n - 4)
  else if n =? 62 then "-"%char else "_"%char.

Definition b64_value (c : ascii) : option Z :=
  let n := byte_value c in
  if (65 <=? n) && (n <=? 90) then Some (n - 65)
  else if (97 <=? n) && (n <=? 122) then Some (n - 71)
  else if (48 <=? n) && (n <=? 57) then Some (n + 4)
  else if n =? 45 then Some 62
  else if n =? 95 then Some 63 else None.

(** [Buffer.prototype.toString("base64url")] on the bytes of a string. *)
Fixpoint base64url (s : string) : string :=
  match s with
  | EmptyString => EmptyString
  | String a EmptyString =>
      let a := byte_value a in
      String (b64_char (a / 4)) (String (b64_char (a mod 4 * 16)) EmptyString)
  | String a (String b EmptyString) =>
      let a := byte_value a in let b := byte_value b in
      String (b64_char (a / 4)) (String (b64_char (a mod 4 * 16 + b / 16))
        (String (b64_char (b mod 16 * 4)) EmptyString))
  | String a (String b (String c r)) =>
      let a := byte_value a in let b := byte_value b in let c := byte_value c in
      String (b64_char (a / 4)) (String (b64_char (a mod 4 * 16 + b / 16))
        (String (b64_char (b mod 16 * 4 + c / 64)) (String (b64_char (c mod 64)) (base64url r))))
  end.

(** The value of a character of the alphabet. *)
Definition b64 (c : ascii) : Z := default 0 (b64_value c).

(** [Buffer.from(value, "base64url")] on a text of the alphabet. *)
Fixpoint from_base64url (s : string) : string :=
  match s with
  | String a (String b (String c (String d r))) =>
      String (byte_char (b64 a * 4 + b64 b / 16))
        (String (byte_char (b64 b mod 16 * 16 + b64 c / 4))
          (String (byte_char (b64 c mod 4 * 64 + b64 d)) (from_base64url r)))
  | String a (String b (String c EmptyString)) =>
      String (byte_char (b64 a * 4 + b64 b / 16))
        (String (byte_char (b64 b mod 16 * 16 + b64 c / 4)) EmptyString)
  | String a (String b EmptyString) => String (byte_char (b64 a * 4 + b64 b / 16)) EmptyString
  | _ => EmptyString
  end.

(** [/^[A-Za-z0-9_-]+$/] *)
Definition cursor_pattern (s : string) : bool :=
  truthy_str s && all_chars (λ c, bool_decide (is_Some (b64_value c))) s.

(** UTF-8, as [Buffer.from(text)] and [toString("utf8")] use it. *)
Class Utf8Text := { utf8_encode : string → string; utf8_decode : string → string }.

Class Utf8Laws (U : Utf8Text) := {
  utf8_roundtrip : ∀ s, utf8_decode (utf8_encode s) = s;
  utf8_nonempty : ∀ s, s ≠ EmptyString → utf8_encode s ≠ EmptyString;
  utf8_ascii : ∀ s, all_chars (λ c, Nat.ltb (Ascii.nat_of_ascii c) 128) s = true → utf8_encode s = s
}.

Definition encode_text `{Utf8Text} (s : string) : string := base64url (utf8_encode s).

(** The first checks of the [decodeCursor] functions; [None] is the error. *)
Definition decode_text `{Utf8Text} (value : string) : option string :=
  if negb (cursor_pattern value) then None
  else
    let decoded := from_base64url value in
    if negb (String.eqb (base64url decoded) value) then None
    else Some (utf8_decode decoded).

(** ** Numbers *)

Definition digits_value (ds : string) : Z :=
  foldl (λ acc c, 10 * acc + (byte_value c - 48)) 0 (list_ascii_of_string ds).

(** A sign and the rest. *)
Definition take_sign (s : string) : Z * string :=
  match s with
  | String c r => if Ascii.eqb c "-" then (-1, r) else if Ascii.eqb c "+" then (1, r) else (1, s)
  | EmptyString => (1, s)
  end.

(** An optional exponent up to the end of the text. *)
Definition read_exponent (s : string) : option Z :=
  match s with
  | EmptyString => Some 0
  | String c r =>
      if Ascii.eqb c "e" || Ascii.eqb c "E" then
        let '(sign, r) := take_sign r in
        let '(ds, r) := span is_digit r in
        if truthy_str ds && String.eqb r EmptyString then Some (sign * digits_value ds) else None
      else None
  end.

(** A decimal literal as mantissa and power of ten. *)
Definition read_decimal (s : string) : option (Z * Z) :=
  let '(sign, s) := take_sign s in
  let '(ds, r) := span is_digit s in
  let '(fs, r) := match r with
                  | String c r' => if Ascii.eqb c "." then span is_digit r' else (EmptyString, r)
                  | EmptyString => (EmptyString, r)
                  end in
  if negb (truthy_str (ds ⊕ fs)) then None
  else
    e ← read_exponent r;
    Some (sign * digits_value (ds ⊕ fs), e - Z.of_nat (String.length fs)).

(** Digits of a base, for the prefixed literals. *)
Definition base_digit (base : Z) (c : ascii) : option Z :=
  let n := byte_value c in
  let v := if is_digit c then n - 48
           else if in_range "a" "f" c then n - 87 else if in_range "A" "F" c then n - 55 else 99 in
  if v <? base then Some v else None.

Fixpoint read_base (base acc : Z) (s : string) : option Z :=
  match s with
  | EmptyString => Some acc
  | String c s => d ← base_digit base c; read_base base (acc * base + d) s
  end.

(** [Number(value)] of a text, as mantissa and power of ten; [None] for NaN and
    the infinities. *)
Definition js_Number (value : string) : option (Z * Z) :=
  let s := js_trim value in
  match s with
  | EmptyString => Some (0, 0)
  | String z (String p (String d r)) =>
      let base := if Ascii.eqb p "x" || Ascii.eqb p "X" then 16
                  else if Ascii.eqb p "o" || Ascii.eqb p "O" then 8
                  else if Ascii.eqb p "b" || Ascii.eqb p "B" then 2 else 10 in
      if Ascii.eqb z "0" && negb (base =? 10)
      then n ← read_base base 0 (String d r); Some (n, 0)
      else read_decimal s
  | _ => read_decimal s
  end.

(** The integer a number is, if it is one. *)
Definition integer_of (n : Z * Z) : option Z :=
  let '(m, e) := n in
  if 0 <=? e then Some (m * 10 ^ e)
  else if m mod 10 ^ (- e) =? 0 then Some (m / 10 ^ (- e)) else None.

(** [None] is the rejected request. *)
Definition pageSize (value : option string) : option nat :=
  n ← match value with None => Some (50, 0) | Some v => js_Number v end;
  parsed ← integer_of n;
  if (parsed <? 1) || (100 <? parsed) then None else Some (Z.to_nat parsed).

(** ** Lemmas *)

Lemma byte_value_char c : byte_char (byte_value c) = c ∧ 0 ≤ byte_value c < 256.
Proof.
  unfold byte_char, byte_value. split; [by rewrite Nat2Z.id, ascii_nat_embedding|].
  pose proof (nat_ascii_bounded c). lia.
Qed.

Lemma b64_value_char n : 0 ≤ n < 64 → b64_value (b64_char n) = Some n.
Proof.
  intros Hn. assert (Forall (λ k, b64_value (b64_char (Z.of_nat k)) = Some (Z.of_nat k)) (seq 0 64)) as H
    by (repeat constructor).
  rewrite Forall_forall in H. specialize (H (Z.to_nat n)). rewrite Z2Nat.id in H by lia. apply H.
  apply elem_of_seq. lia.
Qed.

Lemma b64_char_value n : 0 ≤ n < 64 → b64 (b64_char n) = n.
Proof. intros Hn. unfold b64. by rewrite b64_value_char. Qed.

(** Strings three characters at a time. *)
Lemma string_ind3 (P : string → Prop) :
  P EmptyString → (∀ a, P (String a EmptyString)) → (∀ a b, P (String a (String b EmptyString))) →
  (∀ a b c r, P r → P (String a (String b (String c r)))) → ∀ s, P s.
Proof.
  intros H0 H1 H2 H3. fix IH 1. intros [|a [|b [|c r]]]; [done|apply H1|apply H2|apply H3, IH].
Qed.

Lemma byte_char_eq n c : n = byte_value c → byte_char n = c.
Proof. intros ->. apply byte_value_char. Qed.

Ltac div_lia := Z.to_euclidean_division_equations; lia.

Lemma from_base64url_base64url s : from_base64url (base64url s) = s.
Proof.
  induction s as [|a|a b|a b c r IH] using string_ind3; [done|..]; cbn [base64url from_base64url].
  - pose proof (proj2 (byte_value_char a)). rewrite !b64_char_value by div_lia.
    by rewrite (byte_char_eq _ a) by div_lia.
  - pose proof (proj2 (byte_value_char a)). pose proof (proj2 (byte_value_char b)).
    rewrite !b64_char_value by div_lia. by rewrite (byte_char_eq _ a), (byte_char_eq _ b) by div_lia.
  - pose proof (proj2 (byte_value_char a)). pose proof (proj2 (byte_value_char b)).
    pose proof (proj2 (byte_value_char c)). rewrite !b64_char_value by div_lia.
    by rewrite (byte_char_eq _ a), (byte_char_eq _ b), (byte_char_eq _ c), IH by div_lia.
Qed.

Lemma base64url_pattern s : s ≠ EmptyString → cursor_pattern (base64url s) = true.
Proof.
  intros Hne. unfold cursor_pattern. apply andb_true_iff. split.
  - apply truthy_str_true. by destruct s as [|a [|b [|c r]]].
  - clear Hne. induction s as [|a|a b|a b c r IH] using string_ind3; [done|..]; cbn [base64url all_chars].
    all: pose proof (proj2 (byte_value_char a)); try pose proof (proj2 (byte_value_char b));
      try pose proof (proj2 (byte_value_char c)).
    all: rewrite !b64_value_char by div_lia; rewrite ?IH; done.
Qed.

Lemma decode_encode_text `{U : Utf8Text} `{!Utf8Laws U} s : s ≠ EmptyString → decode_text (encode_text s) = Some s.
Proof.
  intros Hne. unfold decode_text, encode_text.
  rewrite base64url_pattern by (by apply utf8_nonempty). cbn [negb].
  by rewrite from_base64url_base64url, String.eqb_refl, utf8_roundtrip.
Qed.

Lemma encode_text_nonempty `{U : Utf8Text} `{!Utf8Laws U} s : s ≠ EmptyString → encode_text s ≠ EmptyString.
Proof.
  intros Hne. apply truthy_str_true. unfold encode_text.
  pose proof (base64url_pattern _ (utf8_nonempty s Hne)) as Hp. by apply andb_true_iff in Hp as [? _].
Qed.

Lemma pageSize_bounds v n : pageSize v = Some n → (1 ≤ n ≤ 100)%nat.
Proof.
  unfold pageSize. destruct (match v with None => _ | Some v => _ end) as [k|]; [|done]. cbn [mbind option_bind].
  destruct (integer_of k) as [z|]; [|done]. cbn [mbind option_bind].
  destruct (Z.ltb_spec z 1); [done|]. destruct (Z.ltb_spec 100 z); [done|]. simpl. intros [= <-]. lia.
Qed.

(** The texts whose units are all below 128 are their own UTF-8. *)
#[export] Instance ascii_text : Utf8Text := {| utf8_encode := λ s, s; utf8_decode := λ s, s |}.

#[export] Instance ascii_text_laws : Utf8Laws ascii_text.
Proof. by split. Qed.
