(* ===== verification/Paging.v ===== *)
(** * Keyset pagination

    What the Monitor's list queries share: rows in the order of a key
    ([ORDER BY t DESC, id DESC], or [ORDER BY id, version]), the row comparison
    [(t, id) < (t0, id0)] that asks for the rows after one, [LIMIT], and the
    page made of the rows.  Times are PostgreSQL's, in microseconds; the driver
    hands out [Date]s, in milliseconds.  The collation of texts and the reading
    of a timestamp text belong to the database.

    [PagedList] is what a list endpoint promises: the first page and the page
    after any row are the right parts of one ordered list.  Following the
    cursors of an endpoint that keeps the promise covers the list. *)

From stdpp Require Import sorting.
From S2P Require Import Prelude Utc.

#[local] Open Scope Z_scope.

Class Postgres := {
  text_lt : string → string → bool;
  timestamptz : string → option Z
}.

(** A collation orders texts totally; a timestamp in the form of [toISOString]
    is read exactly (PostgreSQL has no year 0). *)
Class PostgresLaws (P : Postgres) := {
  text_lt_irrefl a : text_lt a a = false;
  text_lt_trans a b c : text_lt a b = true → text_lt b c = true → text_lt a c = true;
  text_lt_total a b : text_lt a b = true ∨ a = b ∨ text_lt b a = true;
  timestamptz_iso t : in_years t → days_before_year 1 * MS_PER_DAY ≤ t →
    timestamptz (toISOString t) = Some (t * 1000)
}.

(** The [Date] the driver makes of a database time. *)
Definition js_date (micros : Z) : Z := micros / 1000.

(** A database time that is a whole number of milliseconds, in the years
    PostgreSQL and [Date] share, passes through a [Date] and back. *)
Definition whole_ms (micros : Z) : Prop :=
  micros mod 1000 = 0 ∧ in_years (js_date micros) ∧ days_before_year 1 * MS_PER_DAY ≤ js_date micros.

Lemma timestamptz_of_date `{P : Postgres} `{!PostgresLaws P} micros :
  whole_ms micros → timestamptz (toISOString (js_date micros)) = Some micros.
Proof.
  intros (Hmod & Hin & Hyear). rewrite timestamptz_iso by done. f_equal. unfold js_date.
  pose proof (Z.div_mod micros 1000). lia.
Qed.

(** The order of a query's result: [comes_after k k'] holds when a row with key
    [k] stands behind one with key [k']. *)
Class KeyOrder (K : Type) := { comes_after : K → K → bool }.

Class KeyOrderLaws (K : Type) `{KeyOrder K} := {
  comes_after_irrefl k : comes_after k k = false;
  comes_after_trans k1 k2 k3 : comes_after k1 k2 = true → comes_after k2 k3 = true → comes_after k1 k3 = true;
  comes_after_total k k' : comes_after k k' = true ∨ k = k' ∨ comes_after k' k = true
}.

(** ** Newest first *)

Section newest.
Context `{Postgres}.

(** [(t, id) < (t0, id0)] *)
Definition key_lt (k k' : Z * string) : bool := (k.1 <? k'.1) || (k.1 =? k'.1) && text_lt k.2 k'.2.

(** [ORDER BY t DESC, id DESC] *)
#[export] Instance newest_first : KeyOrder (Z * string) := {| comes_after := key_lt |}.

(** [ORDER BY id] *)
Definition text_after (k k' : string) : bool := text_lt k' k.

Definition alphabetical : KeyOrder string := {| comes_after := text_after |}.

Context `{!PostgresLaws _}.

Lemma key_lt_spec k k' : key_lt k k' = true ↔ k.1 < k'.1 ∨ k.1 = k'.1 ∧ text_lt k.2 k'.2 = true.
Proof. unfold key_lt. rewrite orb_true_iff, andb_true_iff, Z.ltb_lt, Z.eqb_eq. done. Qed.

#[export] Instance newest_first_laws : KeyOrderLaws (Z * string).
Proof.
  split; simpl.
  - intros k. apply not_true_iff_false. rewrite key_lt_spec, text_lt_irrefl. intros [?|[_ ?]]; [lia|done].
  - intros k1 k2 k3. rewrite !key_lt_spec. intros [?|[E1 ?]] [?|[E2 ?]]; [left; lia|left; lia|left; lia|right].
    split; [lia|]. by eapply text_lt_trans.
  - intros [t i] [t' i']. rewrite !key_lt_spec. simpl.
    destruct (Z.lt_trichotomy t t') as [?|[->|?]]; [by left; left| |by right; right; left].
    destruct (text_lt_total i i') as [?|[->|?]]; auto.
Qed.

Lemma alphabetical_laws : KeyOrderLaws string (H := alphabetical).
Proof.
  split; unfold comes_after; simpl; unfold text_after.
  - intros k. apply text_lt_irrefl.
  - intros k1 k2 k3 H1 H2. by eapply text_lt_trans.
  - intros k k'. destruct (text_lt_total k k') as [?|[->|?]]; auto.
Qed.
End newest.

(** ** Ordered tables *)

Section paging.
Context {K : Type} `{KeyOrder K} {A : Type} (key : A → K).

(** [x] may stand before [y] in the result. *)
Definition before (x y : A) : Prop := comes_after (key x) (key y) = false.

#[export] Instance before_dec x y : Decision (before x y).
Proof. unfold before. apply _. Defined.

Definition order_desc (l : list A) : list A := merge_sort before l.

(** [SELECT ... WHERE P ORDER BY ... LIMIT n] *)
Definition select (P : A → bool) (n : nat) (l : list A) : list A :=
  take n (order_desc (List.filter P l)).

(** ** Lemmas *)

Context `{!KeyOrderLaws K}.

#[export] Instance before_trans : Transitive before.
Proof.
  intros x y z Hxy Hyz. unfold before in *. apply not_true_iff_false. intros Hxz.
  destruct (comes_after_total (key y) (key z)) as [?|[E|Hzy]]; [congruence|rewrite E in Hxy; congruence|].
  pose proof (comes_after_trans _ _ _ Hxz Hzy). congruence.
Qed.

#[export] Instance before_total : Total before.
Proof.
  intros x y. unfold before. destruct (comes_after (key x) (key y)) eqn:E; [|by left]. right.
  apply not_true_iff_false. intros E'. pose proof (comes_after_trans _ _ _ E E') as Hx. by rewrite comes_after_irrefl in Hx.
Qed.

Lemma order_desc_perm l : order_desc l ≡ₚ l.
Proof. apply merge_sort_Permutation. Qed.

Lemma order_desc_sorted l : StronglySorted before (order_desc l).
Proof. apply StronglySorted_merge_sort; apply _. Qed.

(** The rows of a table have distinct keys. *)
Definition distinct (l : list A) : Prop := NoDup (key <$> l).

Lemma distinct_eq l x y : distinct l → x ∈ l → y ∈ l → before x y → before y x → x = y.
Proof.
  intros Hnd Hx Hy H1 H2. unfold before in *.
  destruct (comes_after_total (key x) (key y)) as [?|[E|?]]; [congruence| |congruence].
  apply list_elem_of_lookup in Hx as [i Hi], Hy as [j Hj].
  assert (i = j) as ->; [|congruence].
  eapply (NoDup_lookup (key <$> l)); [done|by rewrite list_lookup_fmap, Hi|].
  rewrite list_lookup_fmap, Hj. simpl. by rewrite E.
Qed.

Lemma filter_sorted (P : A → bool) l : StronglySorted before l → StronglySorted before (List.filter P l).
Proof.
  induction 1 as [|x l _ IH Hall]; simpl; [constructor|]. destruct (P x); [|done]. constructor; [done|].
  apply Forall_forall. intros y Hy. rewrite Forall_forall in Hall. apply Hall.
  apply list_elem_of_In in Hy. apply List.filter_In in Hy as [Hy _]. by apply list_elem_of_In.
Qed.

Lemma filter_perm (P : A → bool) l l' : l ≡ₚ l' → List.filter P l ≡ₚ List.filter P l'.
Proof.
  induction 1 as [|x l l' _ IH|x y l|l l' l'' _ IH1 _ IH2]; simpl; [done| | |by etrans].
  - destruct (P x); [by constructor|done].
  - destruct (P x), (P y); try done. apply perm_swap.
Qed.

Lemma distinct_filter (P : A → bool) l : distinct l → distinct (List.filter P l).
Proof.
  unfold distinct. induction l as [|x l IH]; simpl; [done|]. rewrite NoDup_cons. intros [Hx Hnd].
  destruct (P x); simpl; [|by apply IH]. apply NoDup_cons. split; [|by apply IH].
  intros Hin. apply Hx. apply list_elem_of_fmap in Hin as (y & E & Hy).
  apply list_elem_of_In in Hy. apply List.filter_In in Hy as [Hy _].
  apply list_elem_of_fmap. exists y. split; [done|by apply list_elem_of_In].
Qed.

(** Filtering and ordering commute. *)
Lemma order_filter (P : A → bool) l :
  distinct l → order_desc (List.filter P l) = List.filter P (order_desc l).
Proof.
  intros Hnd. apply (StronglySorted_unique_strong before).
  - intros x y Hx Hy Hxy Hyx. apply (distinct_eq (List.filter P l)); [by apply distinct_filter| | |done|done].
    + by rewrite order_desc_perm in Hx.
    + by rewrite (filter_perm P _ _ (order_desc_perm l)) in Hy.
  - apply order_desc_sorted.
  - apply filter_sorted, order_desc_sorted.
  - by rewrite order_desc_perm, (filter_perm P _ _ (order_desc_perm l)).
Qed.

(** The rows after one of an ordered list are the ones whose key comes after its. *)
Lemma rows_after l1 x l2 :
  StronglySorted before (l1 ++ x :: l2) → distinct (l1 ++ x :: l2) →
  List.filter (λ y, comes_after (key y) (key x)) (l1 ++ x :: l2) = l2.
Proof.
  intros Hs Hnd.
  assert (∀ y, y ∈ l1 → comes_after (key y) (key x) = false) as H1.
  { intros y Hy. apply (StronglySorted_app_1_elem_of _ _ _ _ _ Hs); [done|by left]. }
  assert (∀ y, y ∈ l2 → comes_after (key y) (key x) = true) as H2.
  { intros y Hy. apply StronglySorted_app_1_r in Hs. apply StronglySorted_cons in Hs as [Hx _].
    rewrite Forall_forall in Hx. specialize (Hx y Hy). unfold before in Hx.
    destruct (comes_after_total (key y) (key x)) as [?|[E|?]]; [done| |congruence]. exfalso.
    unfold distinct in Hnd. rewrite fmap_app, fmap_cons in Hnd. apply NoDup_app in Hnd as (_ & _ & Hnd).
    apply NoDup_cons in Hnd as [Hnd _]. apply Hnd. rewrite <- E. by apply list_elem_of_fmap_2. }
  rewrite List.filter_app. simpl. rewrite comes_after_irrefl.
  replace (List.filter (λ y, comes_after (key y) (key x)) l1) with (@nil A).
  - simpl. clear -H2. induction l2 as [|y l2 IH]; simpl; [done|]. rewrite H2 by (by left).
    f_equal. apply IH. intros z Hz. apply H2. by right.
  - clear -H1. induction l1 as [|y l1 IH]; simpl; [done|]. rewrite H1 by (by left).
    apply IH. intros z Hz. apply H1. by right.
Qed.
End paging.

(** ** Joins *)

Lemma in_filter {A} (P : A → bool) l x : x ∈ List.filter P l ↔ x ∈ l ∧ P x = true.
Proof. by rewrite !list_elem_of_In, List.filter_In. Qed.

Lemma filter_key_length {A K} `{EqDecision K} (key : A → K) (P : A → bool) k l :
  NoDup (key <$> l) → (∀ x, P x = true → key x = k) → (length (List.filter P l) ≤ 1)%nat.
Proof.
  intros Hnd Hp. destruct (List.filter P l) as [|x [|y r]] eqn:E; simpl; [lia|lia|].
  exfalso. assert (distinct key (List.filter P l)) as Hd by (by apply distinct_filter).
  unfold distinct in Hd. rewrite E in Hd. simpl in Hd. apply NoDup_cons in Hd as [Hd _]. apply Hd.
  assert (x ∈ List.filter P l ∧ y ∈ List.filter P l) as [[_ Hx]%in_filter [_ Hy]%in_filter] by (rewrite E; set_solver).
  rewrite (Hp _ Hx), (Hp _ Hy). by left.
Qed.

Lemma bind_length {A B} (g : A → list B) l :
  (length l ≤ 1)%nat → (∀ x, (length (g x) ≤ 1)%nat) → (length (l ≫= g) ≤ 1)%nat.
Proof.
  intros Hl Hg. destruct l as [|x [|y l]]; simpl in *; [lia| |lia]. rewrite app_nil_r. apply Hg.
Qed.

(** A join that makes at most one row per row of a table keeps its key. *)
Lemma bind_nodup {A B K} (g : A → list B) (key : B → K) (key' : A → K) l :
  NoDup (key' <$> l) → (∀ x, (length (g x) ≤ 1)%nat) → (∀ x y, y ∈ g x → key y = key' x) →
  NoDup (key <$> (l ≫= g)).
Proof.
  intros Hnd Hl Hk. induction l as [|x l IH]; simpl in *; [constructor|]. rewrite fmap_app.
  apply NoDup_cons in Hnd as [Hx Hnd]. apply NoDup_app. split_and!; [..|by apply IH].
  - specialize (Hl x). destruct (g x) as [|y [|y' ys]]; simpl in *; [constructor|apply NoDup_singleton|lia].
  - intros k (y & -> & Hy)%list_elem_of_fmap (y' & E & Hy')%list_elem_of_fmap. apply Hx.
    apply list_elem_of_bind in Hy' as (x' & Hy' & Hx'). rewrite <- (Hk _ _ Hy), E, (Hk _ _ Hy').
    by apply list_elem_of_fmap_2.
Qed.

(** ** Pages *)

(** What a list endpoint answers; [InternalError] is an exception of the code
    itself. *)
Inductive ListResult A :=
| BadRequest (message : string)
| DatabaseError
| InternalError
| Page (items : list A) (nextCursor : option string).
#[global] Arguments BadRequest {_} _.
#[global] Arguments DatabaseError {_}.
#[global] Arguments InternalError {_}.
#[global] Arguments Page {_} _ _.

(** The page made of up to [limit + 1] rows: a row too many is the sign that
    there is a next page, whose cursor is made of the last item. *)
Definition page_of {A Item} (item : A → Item) (cursor : Item → string) (limit : nat) (rows : list A) :
    ListResult Item :=
  let mapped := item <$> rows in
  let items := take limit mapped in
  Page items (if Nat.ltb limit (length mapped) then cursor <$> last items else None).

(** Asking for page after page, each with the cursor of the one before;
    [None] when [fuel] is not enough or a page fails. *)
Fixpoint all_pages {Item} (fuel : nat) (page : option string → ListResult Item) (cursor : option string) :
    option (list Item) :=
  match fuel with
  | O => None
  | S fuel =>
      match page cursor with
      | Page items None => Some items
      | Page items (Some next) => rest ← all_pages fuel page (Some next); Some (items ++ rest)
      | _ => None
      end
  end.

(** An endpoint over the ordered list [pl_rows]. *)
Record PagedList (A Item : Type) := mkPagedList {
  pl_rows : list A;
  pl_limit : nat;
  pl_item : A → Item;
  pl_cursor : A → string;
  pl_page : option string → ListResult Item
}.
#[global] Arguments mkPagedList {_ _} _ _ _ _ _.
#[global] Arguments pl_rows {_ _} _.
#[global] Arguments pl_limit {_ _} _.
#[global] Arguments pl_item {_ _} _ _.
#[global] Arguments pl_cursor {_ _} _ _.
#[global] Arguments pl_page {_ _} _ _.

(** The page the endpoint makes of the rows [R] that are left. *)
Definition serves {A Item} (L : PagedList A Item) (cursor : option string) (R : list A) : Prop :=
  pl_page L cursor =
  Page (pl_item L <$> take (pl_limit L) R)
       (if Nat.ltb (pl_limit L) (length R) then pl_cursor L <$> last (take (pl_limit L) R) else None).

Class PagedListLaws {A Item} (L : PagedList A Item) := {
  pl_limit_pos : (0 < pl_limit L)%nat;
  pl_first : serves L None (pl_rows L);
  pl_next l1 x l2 : pl_rows L = l1 ++ x :: l2 → serves L (Some (pl_cursor L x)) l2
}.

Section follow.
Context {A Item : Type} (L : PagedList A Item) `{!PagedListLaws L}.

Lemma follow_pages fuel L1 R cursor :
  pl_rows L = L1 ++ R → serves L cursor R → (length R < fuel)%nat →
  all_pages fuel (pl_page L) cursor = Some (pl_item L <$> R).
Proof.
  pose proof pl_limit_pos as Hpos.
  revert L1 R cursor. induction fuel as [|fuel IH]; intros L1 R cursor E Hs Hlen; [lia|].
  cbn [all_pages]. rewrite Hs. set (limit := pl_limit L) in *.
  destruct (Nat.ltb_spec limit (length R)) as [Hlt|Hge]; [|by rewrite take_ge].
  assert (last (take limit R) = R !! (limit - 1)%nat) as Hlast.
  { rewrite last_lookup, length_take, Nat.min_l by lia. rewrite lookup_take. case_decide; [f_equal; lia|lia]. }
  destruct (lookup_lt_is_Some_2 R (limit - 1)) as [x Hx]; [lia|]. rewrite Hlast, Hx. cbn [fmap option_fmap option_map].
  rewrite <- (take_drop_middle R (limit - 1) x Hx) in E.
  replace (S (limit - 1)) with limit in E by lia.
  rewrite (IH (L1 ++ take (limit - 1) R ++ [x]) (drop limit R)).
  - cbn [mbind option_bind]. f_equal. by rewrite <- fmap_app, take_drop.
  - rewrite E, <- !app_assoc. done.
  - eapply pl_next. rewrite E, app_assoc. done.
  - rewrite length_drop. lia.
Qed.

(** Following the cursors covers the list. *)
Lemma pages_complete fuel :
  (length (pl_rows L) < fuel)%nat → all_pages fuel (pl_page L) None = Some (pl_item L <$> pl_rows L).
Proof. intros Hl. by apply (follow_pages fuel []); [..|apply pl_first|]. Qed.
End follow.

Lemma page_of_spec {A Item} (item : A → Item) (cursor : Item → string) limit (rows : list A) :
  page_of item cursor limit (take (S limit) rows) =
  Page (item <$> take limit rows)
       (if Nat.ltb limit (length rows) then (λ r, cursor (item r)) <$> last (take limit rows) else None).
Proof.
  unfold page_of.
  assert (take limit (item <$> take (S limit) rows) = item <$> take limit rows) as E.
  { rewrite <- fmap_take, take_take. by rewrite Nat.min_l by lia. }
  rewrite E, length_fmap, length_take, fmap_last. f_equal.
  destruct (Nat.ltb_spec limit (length rows)).
  - destruct (Nat.ltb_spec limit (S limit `min` length rows)); [|lia]. by destruct (last (take limit rows)).
  - destruct (Nat.ltb_spec limit (S limit `min` length rows)); [lia|done].
Qed.

(** An endpoint that selects by a test, and by the key of the cursor's row, is
    a paged list. *)
Section keyset.
Context {K : Type} `{KeyOrder K} `{!KeyOrderLaws K} {A Item : Type} (key : A → K).
Context (table : list A) (Q : A → bool) (limit : nat) (item : A → Item) (cursor : Item → string).
Context (page : option string → ListResult Item).
Context (Hlimit : (0 < limit)%nat) (Hdistinct : distinct key (List.filter Q table)).
Context (Hfirst : page None = page_of item cursor limit (select key Q (S limit) table)).
Context (Hnext : ∀ x, x ∈ table → Q x = true →
  page (Some (cursor (item x))) =
  page_of item cursor limit (select key (λ r, Q r && comes_after (key r) (key x)) (S limit) table)).

Definition keyset : PagedList A Item :=
  mkPagedList (order_desc key (List.filter Q table)) limit item (λ r, cursor (item r)) page.

Lemma keyset_in r : r ∈ pl_rows keyset ↔ r ∈ table ∧ Q r = true.
Proof. simpl. by rewrite order_desc_perm, list_elem_of_In, List.filter_In, <- list_elem_of_In. Qed.

Lemma keyset_nodup : distinct key (pl_rows keyset).
Proof using Hdistinct. simpl. unfold distinct. by rewrite (order_desc_perm key). Qed.

Lemma keyset_sorted : StronglySorted (before key) (pl_rows keyset).
Proof using KeyOrderLaws0. apply order_desc_sorted; apply _. Qed.

Lemma keyset_length : (length (pl_rows keyset) ≤ length table)%nat.
Proof.
  simpl. rewrite (Permutation_length (order_desc_perm _ _)). apply List.filter_length_le.
Qed.

Lemma filter_filter_and (P P' : A → bool) l : List.filter (λ r, P r && P' r) l = List.filter P' (List.filter P l).
Proof.
  induction l as [|r l IH]; simpl; [done|]. destruct (P r); simpl; [|done]. destruct (P' r); by rewrite IH.
Qed.

Lemma keyset_laws : PagedListLaws keyset.
Proof using All.
  split; [done|..].
  - unfold serves. simpl. rewrite Hfirst. unfold select. by rewrite page_of_spec.
  - intros l1 x l2 E. assert (x ∈ table ∧ Q x = true) as [Hx HQ] by (apply keyset_in; rewrite E; set_solver).
    unfold serves. simpl. rewrite Hnext by done. unfold select. rewrite page_of_spec.
    assert (order_desc key (List.filter (λ r, Q r && comes_after (key r) (key x)) table) = l2) as ->; [|done].
    rewrite filter_filter_and, order_filter by done. simpl in E. rewrite E.
    apply rows_after; [done|rewrite <- E..]; [by apply order_desc_sorted|].
    unfold distinct. by rewrite (order_desc_perm key (List.filter Q table)).
Qed.

(** The pages list exactly the rows the test holds of, in order. *)
Lemma keyset_pages :
  ∃ rows, all_pages (S (length table)) page None = Some (item <$> rows) ∧
    distinct key rows ∧ StronglySorted (before key) rows ∧ (∀ r, r ∈ rows ↔ r ∈ table ∧ Q r = true).
Proof using All.
  exists (pl_rows keyset). split_and!.
  - pose proof keyset_laws. apply (pages_complete keyset). pose proof keyset_length. lia.
  - apply keyset_nodup.
  - apply keyset_sorted.
  - apply keyset_in.
Qed.
End keyset.

Lemma sublist_sorted {A} (R : relation A) l l' : l' `sublist_of` l → StronglySorted R l → StronglySorted R l'.
Proof.
  induction 1 as [|x l' l Hs IH|x l' l _ IH]; [done|..]; intros [Hx Hl]%StronglySorted_cons; [|by apply IH].
  apply StronglySorted_cons. split; [|by apply IH]. rewrite Forall_forall in Hx |- *. intros y Hy. apply Hx. by eapply elem_of_sublist.
Qed.

(** An endpoint whose cursors do not hold the key of their row but one [cut] that
    may come after it: the next page starts there, and skips what lies between
    the two. *)
Section coarse.
Context {K : Type} `{KeyOrder K} `{!KeyOrderLaws K} {A Item : Type} (key cut : A → K).
Context (table : list A) (Q : A → bool) (limit : nat) (item : A → Item) (cursor : Item → string).
Context (page : option string → ListResult Item).
Context (Hlimit : (0 < limit)%nat) (Hdistinct : distinct key (List.filter Q table)).
Context (Hcut : ∀ x, cut x = key x ∨ comes_after (cut x) (key x) = true).
Context (Hfirst : page None = page_of item cursor limit (select key Q (S limit) table)).
Context (Hnext : ∀ x, x ∈ table → Q x = true →
  page (Some (cursor (item x))) =
  page_of item cursor limit (select key (λ r, Q r && comes_after (key r) (cut x)) (S limit) table)).

(** [r] is behind [x] and in front of where the page after [x] starts. *)
Definition skips (x r : A) : bool := comes_after (key r) (key x) && negb (comes_after (key r) (cut x)).

#[local] Notation matching := (order_desc key (List.filter Q table)).

Lemma after_cut x r : comes_after (key r) (cut x) = true → comes_after (key r) (key x) = true.
Proof using Hcut KeyOrderLaws0. destruct (Hcut x) as [->|Hc]; [done|]. intros Hr. by eapply comes_after_trans. Qed.

Lemma matching_sorted : StronglySorted (before key) matching.
Proof using KeyOrderLaws0. apply order_desc_sorted; apply _. Qed.

Lemma matching_distinct (g : A → bool) : distinct key (List.filter g matching).
Proof using Hdistinct. apply distinct_filter. unfold distinct. by rewrite (order_desc_perm key). Qed.

(** The rows of a part of the list that are behind one of them. *)
Lemma part_after (g : A → bool) l1 x l2 r :
  List.filter g matching = l1 ++ x :: l2 → r ∈ l1 ++ x :: l2 → comes_after (key r) (key x) = true ↔ r ∈ l2.
Proof using Hdistinct KeyOrderLaws0.
  intros E Hr. rewrite <- (rows_after key l1 x l2).
  - rewrite in_filter. split; [done|by intros [_ ?]].
  - rewrite <- E. apply filter_sorted, matching_sorted.
  - rewrite <- E. apply matching_distinct.
Qed.

(** What is left behind the cut of a row. *)
Lemma cut_part (g : A → bool) l1 x l2 :
  List.filter g matching = l1 ++ x :: l2 → (∀ r, comes_after (key r) (key x) = true → g r = true) →
  List.filter (λ r, comes_after (key r) (cut x)) matching = List.filter (λ r, comes_after (key r) (cut x)) l2.
Proof using Hcut Hdistinct KeyOrderLaws0.
  intros E Hg. assert (List.filter (λ r, comes_after (key r) (cut x)) matching =
    List.filter (λ r, comes_after (key r) (cut x)) (List.filter (λ r, comes_after (key r) (key x)) (List.filter g matching))) as ->.
  { rewrite <- !filter_filter_and. apply List.filter_ext. intros r.
    destruct (comes_after (key r) (cut x)) eqn:Ec; [|by rewrite !andb_false_r].
    rewrite (after_cut x r Ec), (Hg r); [done|by apply after_cut]. }
  f_equal. assert (StronglySorted (before key) (l1 ++ x :: l2) ∧ distinct key (l1 ++ x :: l2)) as [Hs Hd].
  { rewrite <- E. split; [apply filter_sorted, matching_sorted|apply matching_distinct]. }
  rewrite E. by apply rows_after.
Qed.

Lemma coarse_pages_from fuel (g : A → bool) cur :
  (∀ x r, g x = true → comes_after (key r) (key x) = true → g r = true) →
  page cur = page_of item cursor limit (take (S limit) (List.filter g matching)) →
  (length (List.filter g matching) < fuel)%nat →
  ∃ rows, all_pages fuel page cur = Some (item <$> rows) ∧ rows `sublist_of` List.filter g matching ∧
    ∀ r, r ∈ List.filter g matching →
      r ∉ rows ↔ ∃ k x, rows !! (k * limit + (limit - 1))%nat = Some x ∧ skips x r = true.
Proof using All.
  revert g cur. induction fuel as [|fuel IH]; intros g cur Hg Hp Hlen; [lia|]. cbn [all_pages]. rewrite Hp, page_of_spec.
  set (R := List.filter g matching) in *. destruct (Nat.ltb_spec limit (length R)) as [Hlt|Hge].
  2:{ rewrite take_ge by done. exists R. split_and!; [done|done|]. intros r Hr. split; [done|].
      intros (k & x & Hx & [Hs _]%andb_true_iff). exfalso. apply lookup_lt_Some in Hx as Hk.
      apply list_elem_of_split_length in Hx as (l1 & l2 & E & Hl). rewrite (part_after g l1 x l2 r) in Hs; [|done|by rewrite <- E].
      rewrite E, length_app in Hge. simpl in Hge. destruct l2; [set_solver|]. simpl in Hge. nia. }
  destruct (lookup_lt_is_Some_2 R (limit - 1)) as [x Hx]; [lia|].
  pose proof (take_drop_middle R (limit - 1) x Hx) as E. replace (S (limit - 1)) with limit in E by lia.
  set (l1 := take (limit - 1) R) in *. set (l2 := drop limit R) in *. symmetry in E.
  assert (take limit R = l1 ++ [x]) as Htake.
  { replace limit with (S (limit - 1)) by lia. by rewrite (take_S_r _ _ _ Hx). }
  assert (length l1 = limit - 1)%nat as Hl1 by (unfold l1; rewrite length_take; lia).
  assert (x ∈ R) as HxR by (rewrite E; set_solver). apply in_filter in HxR as [HxM Hgx].
  rewrite Htake, last_snoc. cbn [fmap option_fmap option_map].
  set (h := λ r, comes_after (key r) (cut x)).
  assert (List.filter h matching = List.filter h l2) as Eh by (apply (cut_part g l1); [exact E|intros r; by apply Hg]).
  destruct (IH h (Some (cursor (item x)))) as (rows & Hall & Hsub & Hskip).
  { intros y r Hy Hr. unfold h in *. by eapply comes_after_trans. }
  { apply (keyset_in key table Q limit item cursor page) in HxM as [Hxt HQ]. rewrite Hnext by done.
    unfold select. by rewrite filter_filter_and, (order_filter key) by done. }
  { rewrite Eh. pose proof (List.filter_length_le h l2). unfold l2 in *. rewrite length_drop in *. lia. }
  rewrite Hall. cbn [mbind option_bind]. exists ((l1 ++ [x]) ++ rows). split; [by rewrite !fmap_app|].
  rewrite Eh in Hsub, Hskip. assert (rows `sublist_of` l2) as Hsub2 by (etransitivity; [exact Hsub|apply filter_sublist]).
  split; [rewrite E, <- app_assoc; simpl; by apply sublist_app, sublist_skip|].
  assert (∀ r, r ∈ R → comes_after (key r) (key x) = true ↔ r ∈ l2) as Hafter.
  { intros r Hr. apply (part_after g l1 x l2); [exact E|by rewrite <- E]. }
  assert (NoDup ((l1 ++ [x]) ++ l2)) as (_ & Hfront & _)%NoDup_app.
  { rewrite <- app_assoc. simpl. rewrite <- E. apply (NoDup_fmap_1 key), matching_distinct. }
  assert (length (l1 ++ [x]) = limit) as Hl by (rewrite length_app; simpl; lia).
  intros r Hr. split.
  - intros Hn. assert (r ∈ l2) as Hr2 by (rewrite E in Hr; set_solver). destruct (h r) eqn:Ehr.
    + destruct (proj1 (Hskip r (proj2 (in_filter _ _ _) (conj Hr2 Ehr)))) as (k & y & Hy & Hs); [set_solver|].
      exists (S k), y. split; [|done]. rewrite lookup_app_r by (rewrite Hl; lia). rewrite Hl, <- Hy. f_equal. lia.
    + exists 0%nat, x. split; [|unfold h in Ehr; unfold skips; by rewrite (proj2 (Hafter r Hr) Hr2), Ehr].
      rewrite lookup_app_l by (rewrite Hl; lia). by apply list_lookup_middle.
  - intros (k & y & Hy & [Ha Hc]%andb_true_iff) Hin. apply negb_true_iff in Hc.
    assert (comes_after (key r) (key x) = true → r ∈ rows) as Hrows.
    { intros Hx'. apply (Hafter r Hr) in Hx'. apply elem_of_app in Hin as [Hin|Hin]; [by destruct (Hfront r Hin)|done]. }
    assert (∀ z, z ∈ rows → z ∈ List.filter h l2) as Hz by (intros z Hz; by eapply elem_of_sublist).
    destruct k as [|k].
    + rewrite lookup_app_l in Hy by (rewrite Hl; lia). assert (y = x) as -> by (rewrite list_lookup_middle in Hy by done; congruence).
      specialize (Hz r (Hrows Ha)). apply in_filter in Hz as [_ Hz]. unfold h in Hz. congruence.
    + rewrite lookup_app_r in Hy by (rewrite Hl; lia). rewrite Hl in Hy.
      replace (S k * limit + (limit - 1) - limit)%nat with (k * limit + (limit - 1))%nat in Hy by lia.
      assert (y ∈ rows) as Hyr by (by eapply list_elem_of_lookup_2). apply Hz in Hyr as [_ Hyh%after_cut]%in_filter.
      assert (r ∈ rows) as Hrr by (apply Hrows; by eapply comes_after_trans).
      apply (proj2 (Hskip r (Hz r Hrr))); [|done]. exists k, y. split; [done|]. unfold skips. by rewrite Ha, Hc.
Qed.

(** Following the cursors ends, lists only matching rows, in order and none
    twice, and misses exactly those that the end of a page skips. *)
Lemma coarse_pages :
  ∃ rows, all_pages (S (length table)) page None = Some (item <$> rows) ∧
    distinct key rows ∧ StronglySorted (before key) rows ∧ (∀ r, r ∈ rows → r ∈ table ∧ Q r = true) ∧
    ∀ r, r ∈ table → Q r = true →
      r ∉ rows ↔ ∃ k x, rows !! (k * limit + (limit - 1))%nat = Some x ∧ skips x r = true.
Proof using All.
  assert (List.filter (λ _, true) matching = matching) as Eall by (apply List.forallb_filter_id; by apply forallb_forall).
  destruct (coarse_pages_from (S (length table)) (λ _, true) None) as (rows & Hp & Hsub & Hskip).
  { done. }
  { by rewrite Hfirst, Eall. }
  { rewrite Eall, (Permutation_length (order_desc_perm _ _)). pose proof (List.filter_length_le Q table). lia. }
  rewrite Eall in Hsub, Hskip. assert (∀ r, r ∈ matching ↔ r ∈ table ∧ Q r = true) as Hin.
  { intros r. by rewrite order_desc_perm, in_filter. }
  exists rows. split_and!; [done|..].
  - unfold distinct. eapply sublist_NoDup; [|by apply fmap_sublist]. pose proof (matching_distinct (λ _, true)) as Hd. by rewrite Eall in Hd.
  - eapply sublist_sorted; [exact Hsub|apply matching_sorted].
  - intros r Hr. apply Hin. by eapply elem_of_sublist.
  - intros r Hr HQ. by apply Hskip, Hin.
Qed.
End coarse.

Lemma distinct_nodup {K A} (key : A → K) l : distinct key l → NoDup l.
Proof. apply NoDup_fmap_1. Qed.

(** Keys with a part that is unique in the table are distinct. *)
Lemma distinct_by {K K' A} (key : A → K) (part : A → K') l :
  (∀ x y, key x = key y → part x = part y) → NoDup (part <$> l) → distinct key l.
Proof.
  intros Hp. unfold distinct. induction l as [|r l IH]; simpl; [constructor|].
  rewrite !NoDup_cons. intros [Hr Hl]. split; [|by apply IH]. intros (r' & E & Hin)%list_elem_of_fmap.
  apply Hr. rewrite (Hp _ _ E). by apply list_elem_of_fmap_2.
Qed.

(** ** A database for concrete inputs *)

(** A collation and the timestamps of [toISOString]. *)
Definition model_postgres : Postgres := {|
  text_lt a b := Pos.ltb (encode a) (encode b);
  timestamptz s := (λ t, t * 1000) <$> date_parse s
|}.

Lemma model_postgres_laws : PostgresLaws model_postgres.
Proof.
  split; simpl.
  - intros a. apply Pos.ltb_irrefl.
  - intros a b c. rewrite !Pos.ltb_lt. apply Pos.lt_trans.
  - intros a b. rewrite !Pos.ltb_lt. destruct (Pos.lt_total (encode a) (encode b)) as [?|[E|?]]; auto.
    right. left. by apply (inj encode).
  - intros t Ht _. by rewrite date_parse_toISOString.
Qed.
