(* ===== verification/Conditions.v ===== *)
(** * Conditions with numbered parameters

    The list queries of the Monitor build their [WHERE] clause from conditions
    that name their parameters by number ([addCondition] pushes a value and
    writes its number into the text).  A condition here keeps the numbers; its
    test is read off with the values the query is sent with.  What the
    conditions mean together is stated once, for any set of conditions whose
    parameters keep their places when more values are pushed. *)

From S2P Require Import Prelude Paging.

#[local] Open Scope Z_scope.

Inductive Value := VText (s : string) | VTexts (l : list string) | VInt (n : Z).

Section query_state.
Context {C : Type}.

(** [addCondition]: the new parameter is the last one. *)
Definition addCondition (c : nat → C) (v : Value) (st : list C * list Value) : list C * list Value :=
  let values := st.2 ++ [v] in (st.1 ++ [c (length values)], values).

Definition add_if (o : option string) (c : nat → C) (st : list C * list Value) : list C * list Value :=
  match o with
  | Some s => if truthy_str s then addCondition c (VText s) st else st
  | None => st
  end.

(** [(t, id) < (?, ?)] with the time and the id of a cursor. *)
Definition add_cursor (c : nat → nat → C) (at_ id : string) (st : list C * list Value) : list C * list Value :=
  let st := addCondition (λ p, c p (S p)) (VText at_) st in (st.1, st.2 ++ [VText id]).
End query_state.

(** [$n], as a text, a timestamp. *)
Definition param (values : list Value) (p : nat) : option Value := values !! (p - 1)%nat.

Definition text_param (values : list Value) (p : nat) : option string :=
  match param values p with Some (VText s) => Some s | _ => None end.

Definition time_param `{Postgres} (values : list Value) (p : nat) : option Z := text_param values p ≫= timestamptz.

(** A filter that is given and not empty. *)
Definition given (o : option string) (s : string) : Prop := o = Some s ∧ s ≠ EmptyString.

(** ** Lemmas *)

Lemma param_app values more p v : param values p = Some v → param (values ++ more) p = Some v.
Proof. unfold param. intros E. by apply lookup_app_l_Some. Qed.

Lemma text_param_app values more p s : text_param values p = Some s → text_param (values ++ more) p = Some s.
Proof.
  unfold text_param. destruct (param values p) as [v|] eqn:E; [|done]. by rewrite (param_app _ _ _ _ E).
Qed.

Lemma time_param_app `{Postgres} values more p t :
  time_param values p = Some t → time_param (values ++ more) p = Some t.
Proof.
  unfold time_param. destruct (text_param values p) as [s|] eqn:E; [|done]. by rewrite (text_param_app _ _ _ _ E).
Qed.

Lemma param_last values v : param (values ++ [v]) (length (values ++ [v])) = Some v.
Proof. unfold param. rewrite length_app. simpl. by apply list_lookup_middle; lia. Qed.

Lemma text_param_last values s : text_param (values ++ [VText s]) (length (values ++ [VText s])) = Some s.
Proof. unfold text_param. by rewrite param_last. Qed.

Lemma time_param_last `{Postgres} values s t :
  timestamptz s = Some t → time_param (values ++ [VText s]) (length (values ++ [VText s])) = Some t.
Proof. unfold time_param. rewrite text_param_last. done. Qed.

Lemma param_before_last values v w : param (values ++ [v; w]) (length (values ++ [v; w]) - 1) = Some v.
Proof.
  unfold param. rewrite length_app. simpl.
  replace (length values + 2 - 1 - 1)%nat with (length values) by lia. by apply list_lookup_middle.
Qed.

Lemma mapM_snoc {A B} (g : A → option B) l x ys y :
  mapM g l = Some ys → g x = Some y → mapM g (l ++ [x]) = Some (ys ++ [y]).
Proof.
  revert ys. induction l as [|a l IH]; intros ys; simpl.
  - intros [= <-] E. simpl. by rewrite E.
  - destruct (g a) as [b|]; [|done]. simpl. destruct (mapM g l) as [bs|]; [|done]. simpl.
    intros [= <-] E. by rewrite (IH bs eq_refl E).
Qed.

(** Settles that a test keeps the places of its parameters. *)
Ltac keep_places :=
  repeat match goal with
  | |- context [text_param ?values ?p] =>
      lazymatch values with context [_ ++ _] => fail | _ => idtac end;
      destruct (text_param values p) eqn:?; [erewrite (text_param_app _ _ p) by done|done]; cbn [mbind option_bind]
  | |- context [time_param ?values ?p] =>
      lazymatch values with context [_ ++ _] => fail | _ => idtac end;
      destruct (time_param values p) eqn:?; [erewrite (time_param_app _ _ p) by done|done]; cbn [mbind option_bind]
  | |- context [param ?values ?p] =>
      lazymatch values with context [_ ++ _] => fail | _ => idtac end;
      destruct (param values p) eqn:?; [erewrite (param_app _ _ p) by done|done]
  end; try done.

Class KeepsPlaces {C R} (test : list Value → C → option (R → bool)) : Prop :=
  keeps_places values more c t : test values c = Some t → test (values ++ more) c = Some t.

Section means.
Context {C R : Type} (test : list Value → C → option (R → bool)) `{!KeepsPlaces test}.

(** A query state stands for a test of rows. *)
Definition means (st : list C * list Value) (P : R → Prop) : Prop :=
  ∃ tests, mapM (test st.2) st.1 = Some tests ∧ ∀ r, forallb (λ t : R → bool, t r) tests = true ↔ P r.

Lemma means_nil : means ([], []) (λ _, True).
Proof. by exists []. Qed.

Lemma mapM_tests_app values more cs tests :
  mapM (test values) cs = Some tests → mapM (test (values ++ more)) cs = Some tests.
Proof.
  revert tests. induction cs as [|c cs IH]; intros tests; simpl; [done|].
  destruct (test values c) as [t|] eqn:E; [|done]. rewrite (keeps_places _ _ _ _ E). simpl.
  destruct (mapM (test values) cs) as [ts|]; [|done]. by rewrite (IH ts).
Qed.

(** One more condition. *)
Lemma means_add st P c more t :
  means st P → test (st.2 ++ more) c = Some t → means (st.1 ++ [c], st.2 ++ more) (λ r, P r ∧ t r = true).
Proof.
  intros (tests & Hm & HP) Ht. exists (tests ++ [t]). split.
  - simpl. apply mapM_snoc; [by apply mapM_tests_app|done].
  - intros r. rewrite forallb_app, andb_true_iff, HP. simpl. by rewrite andb_true_r.
Qed.

Lemma means_ext st P Q : (∀ r, P r ↔ Q r) → means st P → means st Q.
Proof. intros E (tests & Hm & HP). exists tests. split; [done|]. intros r. by rewrite HP. Qed.

(** An optional text filter. *)
Lemma means_add_if st P o c Q :
  means st P →
  (∀ s, given o s → ∃ t, test (st.2 ++ [VText s]) (c (length (st.2 ++ [VText s]))) = Some t ∧
     ∀ r, t r = true ↔ Q s r) →
  means (add_if o c st) (λ r, P r ∧ ∀ s, given o s → Q s r).
Proof.
  intros HP HQ. unfold add_if, given in *. destruct o as [s|].
  - destruct (truthy_str s) eqn:E.
    + apply truthy_str_true in E. destruct (HQ s) as (t & Ht & Hr); [done|].
      apply (means_ext _ (λ r, P r ∧ t r = true));
        [|exact (means_add st P (c (length (st.2 ++ [VText s]))) [VText s] t HP Ht)].
      intros r. rewrite Hr. naive_solver.
    + apply truthy_str_false in E as ->. apply (means_ext st P); [naive_solver|done].
  - apply (means_ext st P); [naive_solver|done].
Qed.

(** An optional text filter whose test reads one parameter. *)
Lemma means_text st P o c (f : string → R → bool) Q :
  means st P → (∀ values p, test values (c p) = s ← text_param values p; Some (f s)) →
  (∀ s r, f s r = true ↔ Q s r) →
  means (add_if o c st) (λ r, P r ∧ ∀ s, given o s → Q s r).
Proof.
  intros HP Hc HQ. apply means_add_if; [done|]. intros s _. exists (f s). rewrite Hc, text_param_last. done.
Qed.

(** A filter on a time. *)
Lemma means_time `{Postgres} st P o c (Q : Z → R → Prop) (f : Z → R → bool) :
  means st P → (∀ s, given o s → is_Some (timestamptz s)) →
  (∀ values p, test values (c p) = t ← time_param values p; Some (f t)) →
  (∀ t r, f t r = true ↔ Q t r) →
  means (add_if o c st) (λ r, P r ∧ ∀ s t, given o s → timestamptz s = Some t → Q t r).
Proof.
  intros HP Hr Hc Ht.
  refine (means_ext _ _ _ _ (means_add_if st P o c (λ s r, ∀ t, timestamptz s = Some t → Q t r) HP _)).
  - naive_solver.
  - intros s Hg. destruct (Hr s Hg) as [t E]. exists (f t). rewrite Hc, (time_param_last _ s t E).
    split; [done|]. intros r. rewrite Ht. naive_solver.
Qed.

(** The rows after a cursor. *)
Lemma means_cursor `{Postgres} st P c (f : Z → string → R → bool) at_ t id :
  means st P →
  (∀ values p q, test values (c p q) = t ← time_param values p; id ← text_param values q; Some (f t id)) →
  timestamptz at_ = Some t →
  means (add_cursor c at_ id st) (λ r, P r ∧ f t id r = true).
Proof.
  intros HP Hc Ht. unfold add_cursor, addCondition. cbn [fst snd]. rewrite <- app_assoc.
  apply means_add; [done|]. rewrite Hc, (app_assoc st.2 [VText at_] [VText id]).
  rewrite (time_param_app _ [VText id] _ t) by (by apply time_param_last). cbn [mbind option_bind].
  pose proof (text_param_last (st.2 ++ [VText at_]) id) as Hid.
  rewrite (length_app _ [VText id]) in Hid. simpl length in Hid at 2. rewrite Nat.add_1_r in Hid. by rewrite Hid.
Qed.

(** The rows of a table the conditions ask for, in the order of a key. *)
Lemma means_select `{KeyOrder K} (key : R → K) table st Q n :
  means st (λ r, Q r = true) →
  (tests ← mapM (test st.2) st.1; Some (select key (λ r, forallb (λ t : R → bool, t r) tests) n table)) =
  Some (select key Q n table).
Proof.
  intros (tests & Hm & HQ). rewrite Hm. cbn [mbind option_bind]. f_equal.
  unfold select. do 2 f_equal. apply List.filter_ext. intros r. apply eq_true_iff_eq. apply HQ.
Qed.
End means.
