(* ===== verification/Instances.v ===== *)
(** * Listing process instances and step executions
    (workflow-monitor-bff/src/modules/process-instances/process-instance.queries.ts,
    dto/process-instance.dto.ts)

    The checks of the filters, the cursors, the conditions with their numbered
    parameters, the queries they make over the tables, and the pages.  A
    condition keeps the places of its parameters, as its SQL text does; a
    parameter the database cannot read is its error. *)

From stdpp Require Import sorting.
From S2P Require Import Prelude JsObject Peg ImportExport Utc Cursor Paging Conditions.

#[local] Open Scope Z_scope.

(** ** Tables *)

Record ProcessInstanceRow := mkInstanceRow {
  ir_id : string;
  ir_definition_id : string;
  ir_definition_version : Z;
  ir_status : string;
  ir_current_step_ids : list string;
  ir_started_at : Z;
  ir_completed_at : option Z;
  ir_failure_reason : option string;
  ir_business_key : option string;
  ir_variables : json
}.

Record StepExecutionRow := mkExecutionRow {
  er_id : string;
  er_instance_id : string;
  er_step_id : string;
  er_step_type : string;
  er_attempt_number : Z;
  er_status : string;
  er_started_at : Z;
  er_ended_at : option Z;
  er_failure_reason : option string;
  er_input_snapshot : option json;
  er_output_snapshot : option json
}.

Record Database := mkDatabase {
  db_instances : list ProcessInstanceRow;
  db_executions : list StepExecutionRow
}.

(** ** Requests *)

(** [status?: string | string[]] *)
Inductive StatusParam := OneStatus (s : string) | ManyStatuses (l : list string).

Record ProcessInstanceFilters := mkFilters {
  pf_definitionId : option string;
  pf_definitionVersion : option string;
  pf_currentStepId : option string;
  pf_stepStartedBefore : option string;
  pf_status : option StatusParam;
  pf_businessKey : option string;
  pf_from : option string;
  pf_to : option string
}.

Definition PROCESS_INSTANCE_STATUSES : list string := ["ACTIVE"; "WAITING"; "COMPLETED"; "FAILED"; "CANCELLED"].

Definition statusValues (status : option StatusParam) : list string :=
  match status with
  | None => []
  | Some (ManyStatuses l) => l
  | Some (OneStatus s) => [s]
  end.

(** [/^\d+$/] *)
Definition all_digits (s : string) : bool := truthy_str s && all_chars is_digit s.

(** The message of the [BadRequestException], if any. *)
Definition validateFilters (f : ProcessInstanceFilters) : option string :=
  if match pf_definitionVersion f with
     | Some v => negb (all_digits v) || (digits_value v <? 1) || (2147483647 <? digits_value v) ||
                 negb (truthy_ostr (pf_definitionId f))
     | None => false
     end
  then Some "Definition version must be a positive integer with a Definition ID"
  else if match pf_currentStepId f with
          | Some s => negb (truthy_str s) || negb (truthy_ostr (pf_definitionId f))
          | None => false
          end
  then Some "Current Step ID requires a Definition ID"
  else if match pf_stepStartedBefore f with
          | Some t => negb (truthy_ostr (pf_currentStepId f)) || negb (isUtcTimestamp t)
          | None => false
          end
  then Some "Step-start cutoff requires a Current Step ID and a valid UTC timestamp"
  else if existsb (λ s, negb (includes PROCESS_INSTANCE_STATUSES s)) (statusValues (pf_status f))
  then Some "Unknown Process Instance status"
  else if existsb (λ t, truthy_ostr t && negb (isUtcTimestamp (default EmptyString t))) [pf_from f; pf_to f]
  then Some "Invalid UTC timestamp"
  else if truthy_ostr (pf_from f) && truthy_ostr (pf_to f) &&
          match date_parse (default EmptyString (pf_from f)), date_parse (default EmptyString (pf_to f)) with
          | Some a, Some b => b <=? a
          | _, _ => false
          end
  then Some "Start-time range must increase"
  else None.

(** ** Cursors *)

(** The digest of a text, as [createHash("sha256")...digest("base64url")]. *)
Class Sha256 := { sha256_base64url : string → string }.

Definition json_opt (o : option string) : json := match o with Some s => JStr s | None => JNull end.

(** [Array.prototype.sort] on texts: by their units. *)
Fixpoint insert_text (x : string) (l : list string) : list string :=
  match l with
  | [] => [x]
  | y :: l => if String.leb x y then x :: y :: l else y :: insert_text x l
  end.

Definition sort_texts (l : list string) : list string := foldr insert_text [] l.

(** A condition of the [WHERE] clause with the numbers of its parameters. *)
Inductive Condition :=
| CDefinitionId (p : nat)
| CDefinitionVersion (p : nat)
| CCurrentStep (p : nat)
| CLive
| CStepStartedBefore (p q : nat)
| CStatus (p : nat)
| CBusinessKey (p : nat)
| CFrom (p : nat)
| CTo (p : nat)
| CAfterCursor (p q : nat).

Abbreviation QueryState := (list Condition * list Value)%type.

Section list_queries.
Context `{JsonText} `{Sha256} `{Utf8Text} `{DateText} `{Postgres}.

Definition filterFingerprint (f : ProcessInstanceFilters) : string :=
  sha256_base64url (JSON_stringify (JObj [
    ("definitionId", json_opt (pf_definitionId f));
    ("definitionVersion", json_opt (pf_definitionVersion f));
    ("currentStepId", json_opt (pf_currentStepId f));
    ("stepStartedBefore", json_opt (pf_stepStartedBefore f));
    ("statuses", JArr (JStr <$> sort_texts (statusValues (pf_status f))));
    ("businessKey", json_opt (pf_businessKey f));
    ("from", json_opt (pf_from f));
    ("to", json_opt (pf_to f))])).

(** [cursor] in the source: the time and the id it holds. *)
Record Cursor := mkCursor { cu_at : string; cu_id : string }.

(** The cursor of an item that started at a [Date]. *)
Definition encodeCursor (startedAt : Z) (id : string) (f : ProcessInstanceFilters) : string :=
  encode_text (JSON_stringify (JObj [
    ("v", JNum (num_of_Z 1)); ("startedAt", JStr (toISOString startedAt)); ("id", JStr id);
    ("filters", JStr (filterFingerprint f))])).

(** [cursor.v !== 1] *)
Definition is_one (v : option json) : bool :=
  match v with Some (JNum n) => (0 <? mant n) && (mant n =? 2 ^ (- expo n)) | _ => false end.

(** [None] is the [BadRequestException("Invalid cursor")]. *)
Definition decodeCursor (value : string) (f : ProcessInstanceFilters) : option Cursor :=
  text ← decode_text value;
  match JSON_parse text with
  | inl (JObj o) =>
      match obj_get o "startedAt", obj_get o "id", obj_get o "filters" with
      | Some (JStr at_), Some (JStr id), Some (JStr fp) =>
          if is_one (obj_get o "v") && bool_decide (is_Some (Date_parse at_)) && truthy_str id &&
             String.eqb fp (filterFingerprint f)
          then Some (mkCursor at_ id) else None
      | _, _, _ => None
      end
  | _ => None
  end.

(** ** The query *)

Definition list_conditions (f : ProcessInstanceFilters) (cursor : option Cursor) : QueryState :=
  let st := add_if (pf_definitionId f) CDefinitionId ([], []) in
  let st := add_if (pf_definitionVersion f) CDefinitionVersion st in
  let st := match pf_currentStepId f with
            | Some s =>
                if truthy_str s then
                  let st := addCondition CCurrentStep (VText s) st in (st.1 ++ [CLive], st.2)
                else st
            | None => st
            end in
  let st := match pf_stepStartedBefore f with
            | Some t =>
                if truthy_str t then
                  let values := st.2 ++ [VText (default EmptyString (pf_currentStepId f)); VText t] in
                  (st.1 ++ [CStepStartedBefore (length values - 1) (length values)], values)
                else st
            | None => st
            end in
  let statuses := statusValues (pf_status f) in
  let st := if Nat.ltb 0 (length statuses) then addCondition CStatus (VTexts statuses) st else st in
  let st := add_if (pf_businessKey f) CBusinessKey st in
  let st := add_if (pf_from f) CFrom st in
  let st := add_if (pf_to f) CTo st in
  match cursor with
  | Some c => add_cursor CAfterCursor (cu_at c) (cu_id c) st
  | None => st
  end.

(** [ORDER BY attempt_number DESC, started_at DESC, id DESC] *)
Definition execution_before (x y : StepExecutionRow) : Prop :=
  er_attempt_number y < er_attempt_number x ∨
  er_attempt_number x = er_attempt_number y ∧ before (λ e, (er_started_at e, er_id e)) x y.

#[export] Instance execution_before_dec x y : Decision (execution_before x y).
Proof. unfold execution_before. apply _. Defined.

(** The latest execution of a step. *)
Definition latest_execution (db : Database) (instance step : string) : option StepExecutionRow :=
  head (merge_sort execution_before
    (List.filter (λ e, String.eqb (er_instance_id e) instance && String.eqb (er_step_id e) step) (db_executions db))).

(** The test of a row a condition is, once its parameters are read. *)
Definition condition_test (db : Database) (values : list Value) (c : Condition) :
    option (ProcessInstanceRow → bool) :=
  match c with
  | CDefinitionId p => s ← text_param values p; Some (λ r, String.eqb (ir_definition_id r) s)
  | CDefinitionVersion p =>
      s ← text_param values p;
      if all_digits s && (digits_value s <=? 2147483647)
      then Some (λ r, ir_definition_version r =? digits_value s) else None
  | CCurrentStep p => s ← text_param values p; Some (λ r, includes (ir_current_step_ids r) s)
  | CLive => Some (λ r, includes ["ACTIVE"; "WAITING"] (ir_status r))
  | CStepStartedBefore p q =>
      s ← text_param values p; t ← time_param values q;
      Some (λ r, match latest_execution db (ir_id r) s with
                 | Some e => String.eqb (er_status e) "RUNNING" && (er_started_at e <? t)
                 | None => false
                 end)
  | CStatus p =>
      match param values p with
      | Some (VTexts l) => Some (λ r, includes l (ir_status r))
      | _ => None
      end
  | CBusinessKey p => s ← text_param values p; Some (λ r, bool_decide (ir_business_key r = Some s))
  | CFrom p => t ← time_param values p; Some (λ r, t <=? ir_started_at r)
  | CTo p => t ← time_param values p; Some (λ r, ir_started_at r <? t)
  | CAfterCursor p q =>
      t ← time_param values p; id ← text_param values q;
      Some (λ r, key_lt (ir_started_at r, ir_id r) (t, id))
  end.

Definition instance_key (r : ProcessInstanceRow) : Z * string := (ir_started_at r, ir_id r).

(** The database query; [None] is an error of the database. *)
Definition query_instances (db : Database) (st : QueryState) (limit : nat) : option (list ProcessInstanceRow) :=
  tests ← mapM (condition_test db st.2) st.1;
  Some (select instance_key (λ r, forallb (λ t : ProcessInstanceRow → bool, t r) tests) limit (db_instances db)).

(** ** Pages *)

Record ProcessInstanceListItem := mkItem {
  pi_id : string;
  pi_definitionId : string;
  pi_definitionVersion : Z;
  pi_status : string;
  pi_currentStepIds : list string;
  pi_startedAt : Z;
  pi_completedAt : option Z;
  pi_failureReason : option string;
  pi_businessKey : option string
}.

Definition list_item (row : ProcessInstanceRow) : ProcessInstanceListItem :=
  mkItem (ir_id row) (ir_definition_id row) (ir_definition_version row) (ir_status row) (ir_current_step_ids row)
    (js_date (ir_started_at row)) (js_date <$> ir_completed_at row) (ir_failure_reason row) (ir_business_key row).

(** The cursor of an item. *)
Definition next_cursor (f : ProcessInstanceFilters) (item : ProcessInstanceListItem) : string :=
  encodeCursor (pi_startedAt item) (pi_id item) f.

Definition list_instances (db : Database) (f : ProcessInstanceFilters) (size cursor : option string) :
    ListResult ProcessInstanceListItem :=
  match validateFilters f with
  | Some message => BadRequest message
  | None =>
      match pageSize size with
      | None => BadRequest "Page size must be between 1 and 100"
      | Some limit =>
          match (match cursor with
                 | Some c => if truthy_str c then Some <$> decodeCursor c f else Some None
                 | None => Some None
                 end) with
          | None => BadRequest "Invalid cursor"
          | Some cursor =>
              match query_instances db (list_conditions f cursor) (S limit) with
              | None => DatabaseError
              | Some rows => page_of list_item (next_cursor f) limit rows
              end
          end
      end
  end.
End list_queries.
