(* ===== verification/InstancesProps.v ===== *)
(** * What the list of process instances returns

    The conditions, with their numbered parameters, mean the filters; pages
    followed by their cursors cover the matching instances exactly, as long as
    start times are whole milliseconds, and which ones they skip when they are
    not. *)

From stdpp Require Import sorting.
From S2P Require Import Prelude JsObject Peg Schema ImportExport Utc Cursor Paging Conditions Instances.

#[local] Open Scope Z_scope.

#[local] Abbreviation means db := (means (condition_test db)).
#[local] Abbreviation means_ext db := (means_ext (condition_test db)).
#[local] Abbreviation means_add db := (means_add (condition_test db)).

(** ** What the filters mean *)

Section spec.
Context `{Postgres}.

(** The latest execution of the step runs since before [t]. *)
Definition running_since_before (db : Database) (r : ProcessInstanceRow) (step : string) (t : Z) : Prop :=
  ∃ e, latest_execution db (ir_id r) step = Some e ∧ er_status e = "RUNNING" ∧ er_started_at e < t.

Record matches (db : Database) (f : ProcessInstanceFilters) (r : ProcessInstanceRow) : Prop := {
  m_definition s : given (pf_definitionId f) s → ir_definition_id r = s;
  m_version s : given (pf_definitionVersion f) s → ir_definition_version r = digits_value s;
  m_step s : given (pf_currentStepId f) s →
    s ∈ ir_current_step_ids r ∧ (ir_status r = "ACTIVE" ∨ ir_status r = "WAITING");
  m_cutoff s t : given (pf_stepStartedBefore f) s → timestamptz s = Some t →
    running_since_before db r (default EmptyString (pf_currentStepId f)) t;
  m_status : statusValues (pf_status f) ≠ [] → ir_status r ∈ statusValues (pf_status f);
  m_key s : given (pf_businessKey f) s → ir_business_key r = Some s;
  m_from s t : given (pf_from f) s → timestamptz s = Some t → t ≤ ir_started_at r;
  m_to s t : given (pf_to f) s → timestamptz s = Some t → ir_started_at r < t
}.

(** The database can read the times of the filters. *)
Definition readable (f : ProcessInstanceFilters) : Prop :=
  ∀ o s, o ∈ [pf_stepStartedBefore f; pf_from f; pf_to f] → given o s → is_Some (timestamptz s).

(** ** The conditions mean the filters *)

#[export] Instance condition_test_keeps db : KeepsPlaces (condition_test db).
Proof. intros values more c t. destruct c as [p|p|p| |p q|p|p|p|p|p q]; simpl; keep_places. Qed.

Lemma validated_version f s :
  validateFilters f = None → given (pf_definitionVersion f) s →
  all_digits s && (digits_value s <=? 2147483647) = true.
Proof.
  unfold validateFilters, given. intros Hv [E _]. rewrite E in Hv.
  destruct (negb (all_digits s) || _ || _ || _) eqn:Ec; [done|].
  apply orb_false_iff in Ec as [Ec _]. apply orb_false_iff in Ec as [Ec H2]. apply orb_false_iff in Ec as [H1 _].
  apply negb_false_iff in H1. rewrite H1. apply Z.ltb_ge in H2. by apply Z.leb_le.
Qed.

(** The step filter adds its parameter and the live statuses. *)
Lemma means_step db st P o :
  means db st P →
  means db
    match o with
    | Some s => if truthy_str s then let st := addCondition CCurrentStep (VText s) st in (st.1 ++ [CLive], st.2) else st
    | None => st
    end
    (λ r, P r ∧ ∀ s, given o s → s ∈ ir_current_step_ids r ∧ (ir_status r = "ACTIVE" ∨ ir_status r = "WAITING")).
Proof.
  intros HP. unfold given. destruct o as [s|].
  - destruct (truthy_str s) eqn:E.
    + apply truthy_str_true in E. cbn zeta.
      assert (means db (addCondition CCurrentStep (VText s) st)
                (λ r, P r ∧ includes (ir_current_step_ids r) s = true)) as H1.
      { apply (means_add db st P (CCurrentStep _) [VText s] (λ r, includes (ir_current_step_ids r) s)); [done|].
        simpl. by rewrite text_param_last. }
      pose proof (means_add db _ _ CLive [] (λ r, includes ["ACTIVE"; "WAITING"] (ir_status r)) H1 eq_refl) as H2.
      rewrite app_nil_r in H2. refine (means_ext db _ _ _ _ H2).
      intros r. unfold includes. rewrite !bool_decide_eq_true. set_solver.
    + apply truthy_str_false in E as ->. apply (means_ext db st P); [naive_solver|done].
  - apply (means_ext db st P); [naive_solver|done].
Qed.

Lemma means_cutoff db st P o step :
  means db st P → (∀ s, given o s → is_Some (timestamptz s)) →
  means db
    match o with
    | Some t =>
        if truthy_str t then
          let values := st.2 ++ [VText step; VText t] in
          (st.1 ++ [CStepStartedBefore (length values - 1) (length values)], values)
        else st
    | None => st
    end
    (λ r, P r ∧ ∀ s t, given o s → timestamptz s = Some t → running_since_before db r step t).
Proof.
  intros HP Hr. unfold given in *. destruct o as [s|].
  - destruct (truthy_str s) eqn:E.
    + apply truthy_str_true in E. cbn zeta. destruct (Hr s) as [t Ht]; [done|].
      pose (test := λ r, match latest_execution db (ir_id r) step with
                 | Some e => String.eqb (er_status e) "RUNNING" && (er_started_at e <? t)
                 | None => false
                 end).
      assert (condition_test db (st.2 ++ [VText step; VText s])
        (CStepStartedBefore (length (st.2 ++ [VText step; VText s]) - 1) (length (st.2 ++ [VText step; VText s]))) =
        Some test) as Ht'.
      { cbn [condition_test]. unfold text_param at 1. rewrite param_before_last. cbn [mbind option_bind].
        change [VText step; VText s] with ([VText step] ++ [VText s]). rewrite app_assoc.
        rewrite (time_param_last _ s t Ht). done. }
      refine (means_ext db _ _ _ _ (means_add db st P _ _ test HP Ht')).
      intros r. unfold running_since_before, test. split.
      * intros [Hp Hb]. split; [done|]. intros s' t' [[= <-] _] Ht2.
        destruct (latest_execution db (ir_id r) step) as [e|]; [|done]. exists e. bool_hyps.
        apply Z.ltb_lt in H1. split_and!; [done|done|congruence].
      * intros [Hp Hb]. split; [done|]. destruct (Hb s t) as (e & -> & -> & Hlt); [done|done|].
        simpl. by apply Z.ltb_lt.
    + apply truthy_str_false in E as ->. apply (means_ext db st P); [naive_solver|done].
  - apply (means_ext db st P); [naive_solver|done].
Qed.

Lemma means_statuses db st P l :
  means db st P →
  means db (if Nat.ltb 0 (length l) then addCondition CStatus (VTexts l) st else st)
    (λ r, P r ∧ (l ≠ [] → ir_status r ∈ l)).
Proof.
  intros HP. destruct l as [|x l]; simpl; [apply (means_ext db st P); [naive_solver|done]|].
  refine (means_ext db _ _ _ _
    (means_add db st P (CStatus _) [VTexts (x :: l)] (λ r, includes (x :: l) (ir_status r)) HP _)).
  - intros r. unfold includes. rewrite bool_decide_eq_true. naive_solver.
  - cbn [condition_test]. by rewrite param_last.
Qed.

Lemma list_conditions_means db f :
  validateFilters f = None → readable f → means db (list_conditions f None) (matches db f).
Proof.
  intros Hv Hr. unfold list_conditions. cbn zeta.
  eapply (means_ext db); [|eapply (means_time (condition_test db)) with (f := λ t r, ir_started_at r <? t) (Q := λ t r, ir_started_at r < t);
    [eapply (means_time (condition_test db)) with (f := λ t r, t <=? ir_started_at r) (Q := λ t r, t ≤ ir_started_at r);
      [eapply (means_text (condition_test db)) with (f := λ s r, bool_decide (ir_business_key r = Some s)) (Q := λ s r, ir_business_key r = Some s);
        [apply means_statuses, means_cutoff; [apply means_step;
          eapply (means_add_if (condition_test db)) with (Q := λ s r, ir_definition_version r = digits_value s);
            [eapply (means_text (condition_test db)) with (f := λ s r, String.eqb (ir_definition_id r) s) (Q := λ s r, ir_definition_id r = s);
              [apply means_nil|..]|]|]|..]|..]|..]].
  all: try (intros s Hg; refine (Hr _ s _ Hg); set_solver).
  all: try done.
  - intros r. split.
    + intros [[[[[[[[_ H1] H2] H3] H4] H5] H6] H7] H8]. split; eauto.
    + intros [H1 H2 H3 H4 H5 H6 H7 H8]. split_and!; eauto.
  - intros s r. apply String.eqb_eq.
  - intros s Hg. eexists. cbn [condition_test]. rewrite text_param_last. cbn [mbind option_bind].
    rewrite (validated_version f s Hv Hg). split; [done|]. intros r. apply Z.eqb_eq.
  - intros s r. apply bool_decide_eq_true.
  - intros t r. apply Z.leb_le.
  - intros t r. apply Z.ltb_lt.
Qed.
End spec.

(** ** Pages *)

Section pages.
Context `{J : JsonText} `{!JsonTextLaws J} `{Sha256} `{U : Utf8Text} `{!Utf8Laws U}
  `{D : DateText} `{!DateTextLaws D} `{P : Postgres} `{!PostgresLaws P}.

Lemma decode_encode_cursor t id f :
  in_years t → id ≠ EmptyString →
  decodeCursor (encodeCursor t id f) f = Some (mkCursor (toISOString t) id).
Proof.
  intros Ht Hid. unfold decodeCursor, encodeCursor.
  rewrite decode_encode_text by apply stringify_nonempty. cbn [mbind option_bind].
  rewrite parse_stringify by done. set (o := [_; _; _; _]).
  assert (obj_get o "startedAt" = Some (JStr (toISOString t)) ∧ obj_get o "id" = Some (JStr id) ∧
          obj_get o "filters" = Some (JStr (filterFingerprint f)) ∧ is_one (obj_get o "v") = true) as (-> & -> & -> & ->)
    by done.
  assert (Date_parse (toISOString t) = Some t) as ->.
  { pose proof (date_parse_toISOString t Ht) as E. unfold date_parse in E.
    destruct (UTC_TIMESTAMP_PATTERN (toISOString t)) as [p|] eqn:Ep; [|done].
    by rewrite (Date_parse_utc _ _ Ep). }
  apply truthy_str_true in Hid. by rewrite Hid, String.eqb_refl.
Qed.

Lemma cursor_conditions_mean db f c t Q :
  means db (list_conditions f None) (λ r, Q r = true) → timestamptz (cu_at c) = Some t →
  means db (list_conditions f (Some c)) (λ r, Q r && key_lt (instance_key r) (t, cu_id c) = true).
Proof.
  intros HQ Ht. refine (means_ext db _ _ _ _ (means_cursor (condition_test db) (list_conditions f None) _
    CAfterCursor (λ t id r, key_lt (instance_key r) (t, id)) (cu_at c) t (cu_id c) HQ _ Ht)); [|done].
  intros r. by rewrite andb_true_iff.
Qed.

(** A table whose start times are whole milliseconds in the years PostgreSQL
    and the driver share. *)
Definition whole_milliseconds (db : Database) : Prop :=
  ∀ r, r ∈ db_instances db → whole_ms (ir_started_at r).

Section follow.
Context (db : Database) (f : ProcessInstanceFilters) (size : option string) (limit : nat).
Context (Hf : validateFilters f = None) (Hsize : pageSize size = Some limit).
Context (Hids : NoDup (ir_id <$> db_instances db)) (Hnonempty : ∀ r, r ∈ db_instances db → ir_id r ≠ EmptyString).
Context (Hms : whole_milliseconds db).
Context (Q : ProcessInstanceRow → bool) (HQ : means db (list_conditions f None) (λ r, Q r = true)).

Lemma instances_distinct : distinct instance_key (db_instances db).
Proof using Hids. apply (distinct_by _ ir_id); [|done]. unfold instance_key. intros x y [= _ E]. done. Qed.

Lemma cursor_nonempty t id : truthy_str (encodeCursor t id f) = true.
Proof using JsonTextLaws0 Utf8Laws0. apply truthy_str_true, encode_text_nonempty, stringify_nonempty. Qed.

Lemma next_page x :
  x ∈ db_instances db →
  list_instances db f size (Some (next_cursor f (list_item x))) =
  page_of list_item (next_cursor f) limit
    (select instance_key (λ r, Q r && comes_after (instance_key r) (instance_key x)) (S limit) (db_instances db)).
Proof using All.
  intros Hx. destruct (Hms x Hx) as (Hmod & Hin & Hyear). unfold list_instances, next_cursor, query_instances. simpl pi_startedAt. simpl pi_id.
  rewrite Hf, Hsize, cursor_nonempty, decode_encode_cursor by (done || by apply Hnonempty).
  cbn [fmap option_fmap option_map].
  by rewrite (means_select _ _ _ _ _ _
    (cursor_conditions_mean db f (mkCursor _ (ir_id x)) _ Q HQ (timestamptz_of_date _ (Hms x Hx)))).
Qed.

Lemma follow_instances :
  ∃ rows, all_pages (S (length (db_instances db))) (list_instances db f size) None = Some (list_item <$> rows) ∧
    distinct instance_key rows ∧ StronglySorted (before instance_key) rows ∧
    (∀ r, r ∈ rows ↔ r ∈ db_instances db ∧ Q r = true).
Proof using All.
  apply (keyset_pages instance_key (db_instances db) Q limit list_item (next_cursor f)).
  - apply pageSize_bounds in Hsize. lia.
  - by apply distinct_filter, instances_distinct.
  - unfold list_instances, query_instances. by rewrite Hf, Hsize, (means_select _ _ _ _ _ _ HQ).
  - intros x Hx _. by apply next_page.
Qed.
End follow.

(** Where the page after a row starts: its start time cut to the millisecond the
    driver keeps of it. *)
Definition cut_key (r : ProcessInstanceRow) : Z * string := (js_date (ir_started_at r) * 1000, ir_id r).

Lemma cut_behind r : cut_key r = instance_key r ∨ comes_after (cut_key r) (instance_key r) = true.
Proof using PostgresLaws0.
  unfold cut_key, instance_key. cbn. rewrite key_lt_spec. cbn. unfold js_date.
  pose proof (Z.mul_div_le (ir_started_at r) 1000 ltac:(lia)).
  destruct (Z.eq_dec (ir_started_at r / 1000 * 1000) (ir_started_at r)) as [->|]; [by left|right; left; lia].
Qed.

(** Start times in the years PostgreSQL and the driver share. *)
Definition driver_years (db : Database) : Prop :=
  ∀ r, r ∈ db_instances db →
    in_years (js_date (ir_started_at r)) ∧ days_before_year 1 * MS_PER_DAY ≤ js_date (ir_started_at r).

(** [r] is behind [x] in the list and in front of where the page after [x] starts. *)
Definition lost_after (x r : ProcessInstanceRow) : Prop :=
  key_lt (instance_key r) (instance_key x) = true ∧ key_lt (instance_key r) (cut_key x) = false.

(** Then the two started in the same millisecond. *)
Lemma lost_same_ms x r : lost_after x r → js_date (ir_started_at r) = js_date (ir_started_at x).
Proof using PostgresLaws0.
  intros [H1%key_lt_spec H2]. apply not_true_iff_false in H2. rewrite key_lt_spec in H2. cbn in H1, H2. unfold js_date in *.
  pose proof (Z.mul_div_le (ir_started_at r) 1000 ltac:(lia)). pose proof (Z.mul_succ_div_gt (ir_started_at r) 1000 ltac:(lia)).
  pose proof (Z.mul_div_le (ir_started_at x) 1000 ltac:(lia)). pose proof (Z.mul_succ_div_gt (ir_started_at x) 1000 ltac:(lia)).
  nia.
Qed.

Lemma next_page_cut db f size limit Q x :
  validateFilters f = None → pageSize size = Some limit → means db (list_conditions f None) (λ r, Q r = true) →
  driver_years db → x ∈ db_instances db → ir_id x ≠ EmptyString →
  list_instances db f size (Some (next_cursor f (list_item x))) =
  page_of list_item (next_cursor f) limit
    (select instance_key (λ r, Q r && comes_after (instance_key r) (cut_key x)) (S limit) (db_instances db)).
Proof using All.
  intros Hf Hsize HQ Hy Hx Hne. destruct (Hy x Hx) as [Hin Hyear]. unfold list_instances, next_cursor, query_instances.
  simpl pi_startedAt. simpl pi_id. rewrite Hf, Hsize, cursor_nonempty, decode_encode_cursor by done.
  cbn [fmap option_fmap option_map].
  by rewrite (means_select _ _ _ _ _ _
    (cursor_conditions_mean db f (mkCursor _ (ir_id x)) _ Q HQ (timestamptz_iso _ Hin Hyear))).
Qed.
End pages.

(** ** Properties *)

(** The pages of valid filters. *)
Lemma instance_pages `{J : JsonText} `{!JsonTextLaws J} `{Sha256} `{U : Utf8Text} `{!Utf8Laws U}
    `{D : DateText} `{!DateTextLaws D} `{P : Postgres} `{!PostgresLaws P} db f size limit :
  validateFilters f = None → readable f → pageSize size = Some limit →
  NoDup (ir_id <$> db_instances db) → (∀ r, r ∈ db_instances db → ir_id r ≠ EmptyString) →
  whole_milliseconds db →
  ∃ rows, all_pages (S (length (db_instances db))) (list_instances db f size) None = Some (list_item <$> rows) ∧
    NoDup rows ∧ StronglySorted (before instance_key) rows ∧
    (∀ r, r ∈ rows ↔ r ∈ db_instances db ∧ matches db f r).
Proof.
  intros Hf Hr Hs Hids Hne Hms. destruct (list_conditions_means db f Hf Hr) as (tests & Hm & HQ).
  set (Q := λ r, forallb (λ t : ProcessInstanceRow → bool, t r) tests) in *.
  assert (means db (list_conditions f None) (λ r, Q r = true)) as HQ' by (by exists tests).
  destruct (follow_instances db f size limit Hf Hs Hids Hne Hms Q HQ') as (rows & ? & ? & ? & Hin).
  exists rows. split_and!; try done; [by eapply distinct_nodup|]. intros r. rewrite Hin. unfold Q. by rewrite HQ.
Qed.

(** C13: following the cursors lists exactly the instances the filters ask for,
    each once, newest first: for valid filters and page size over a table with
    unique ids, asking for page after page until there is no cursor ends, and
    what it returned is, in order, the rows that match, provided start times
    are whole milliseconds. *)
Theorem pages_cover `{J : JsonText} `{!JsonTextLaws J} `{Sha256} `{U : Utf8Text} `{!Utf8Laws U}
    `{D : DateText} `{!DateTextLaws D} `{P : Postgres} `{!PostgresLaws P} db f size limit :
  validateFilters f = None → readable f → pageSize size = Some limit →
  NoDup (ir_id <$> db_instances db) → (∀ r, r ∈ db_instances db → ir_id r ≠ EmptyString) →
  whole_milliseconds db →
  ∃ rows, all_pages (S (length (db_instances db))) (list_instances db f size) None = Some (list_item <$> rows) ∧
    NoDup rows ∧ StronglySorted (before instance_key) rows ∧
    (∀ r, r ∈ rows ↔ r ∈ db_instances db ∧ matches db f r).
Proof. apply instance_pages. Qed.

(** ** Witnesses *)

#[local] Instance plain_hash : Sha256 := {| sha256_base64url := λ s, s |}.

#[local] Existing Instances model_postgres model_postgres_laws.

#[local] Existing Instances utc_dates utc_dates_laws.

Definition no_filters : ProcessInstanceFilters := mkFilters None None None None None None None None.

Definition sample_row (id : string) (micros : Z) : ProcessInstanceRow :=
  mkInstanceRow id "order" 1 "ACTIVE" ["pay"] micros None None None JNull.

Definition sample_db (micros1 micros2 : Z) : Database :=
  mkDatabase [sample_row "a" micros1; sample_row "b" micros2] [].

Lemma pages_cover_witness :
  ∃ rows, all_pages 3
            (list_instances (sample_db 1709210096789000 1709210096788000) no_filters (Some "1")) None = Some (list_item <$> rows) ∧
    NoDup rows.
Proof.
  destruct (pages_cover
    (sample_db 1709210096789000 1709210096788000) no_filters (Some "1") 1) as (rows & Hp & Hn & _ & _).
  - reflexivity.
  - intros o s Ho [-> _]. exfalso. apply list_elem_of_In in Ho. simpl in Ho. destruct Ho as [?|[?|[?|[]]]]; discriminate.
  - reflexivity.
  - apply (bool_decide_unpack _). vm_compute. exact I.
  - intros r Hr. apply list_elem_of_In in Hr. destruct Hr as [<-|[<-|[]]]; discriminate.
  - intros r Hr. apply list_elem_of_In in Hr. unfold in_years.
    destruct Hr as [<-|[<-|[]]]; vm_compute; repeat split; discriminate.
  - exists rows. split; [exact Hp|exact Hn].
Defined.

(** C39: what the pages leave out when start times are finer than a millisecond.
    Over any table with unique ids, valid filters and page size: asking for page
    after page ends and lists matching instances only, newest first and none
    twice; and a matching instance is on no page exactly when some page ends
    with one that stands before it in the list and started in the same
    millisecond, but the cursor, whose time is cut to that millisecond, does not
    stand before it. *)
Theorem pages_skip_exactly `{J : JsonText} `{!JsonTextLaws J} `{Sha256} `{U : Utf8Text} `{!Utf8Laws U}
    `{D : DateText} `{!DateTextLaws D} `{P : Postgres} `{!PostgresLaws P} db f size limit :
  validateFilters f = None → readable f → pageSize size = Some limit →
  NoDup (ir_id <$> db_instances db) → (∀ r, r ∈ db_instances db → ir_id r ≠ EmptyString) → driver_years db →
  ∃ rows, all_pages (S (length (db_instances db))) (list_instances db f size) None = Some (list_item <$> rows) ∧
    NoDup rows ∧ StronglySorted (before instance_key) rows ∧
    (∀ r, r ∈ rows → r ∈ db_instances db ∧ matches db f r) ∧
    (∀ x r, lost_after x r → js_date (ir_started_at r) = js_date (ir_started_at x)) ∧
    ∀ r, r ∈ db_instances db → matches db f r →
      r ∉ rows ↔ ∃ page x, rows !! (page * limit + (limit - 1))%nat = Some x ∧ lost_after x r.
Proof.
  intros Hf Hr Hs Hids Hne Hy. destruct (list_conditions_means db f Hf Hr) as (tests & Hm & HQ).
  set (Q := λ r, forallb (λ t : ProcessInstanceRow → bool, t r) tests) in *.
  assert (means db (list_conditions f None) (λ r, Q r = true)) as HQ' by (by exists tests).
  destruct (coarse_pages instance_key cut_key (db_instances db) Q limit list_item (next_cursor f) (list_instances db f size))
    as (rows & Hp & Hd & Hsort & Hin & Hskip).
  - apply pageSize_bounds in Hs. lia.
  - by apply distinct_filter, instances_distinct.
  - apply cut_behind.
  - unfold list_instances, query_instances. by rewrite Hf, Hs, (means_select _ _ _ _ _ _ HQ').
  - intros x Hx _. apply next_page_cut; auto.
  - exists rows. split_and!; [done|by eapply distinct_nodup|done| |apply lost_same_ms|].
    + intros r Hr'. destruct (Hin r Hr') as [? Hq]. split; [done|]. by apply HQ.
    + intros r Hr' Hmr. rewrite (Hskip r Hr' (proj2 (HQ r) Hmr)). unfold skips, lost_after.
      setoid_rewrite andb_true_iff. setoid_rewrite negb_true_iff. done.
Qed.

(** Two instances of one millisecond, one per page: the second is on no page. *)
Lemma pages_skip_exactly_witness :
  let db := sample_db 1709210096789500 1709210096789400 in
  ∃ rows, all_pages 3 (list_instances db no_filters (Some "1")) None = Some (list_item <$> rows) ∧
    sample_row "b" 1709210096789400 ∈ db_instances db ∧ sample_row "b" 1709210096789400 ∉ rows.
Proof.
  intros db. destruct (pages_skip_exactly db no_filters (Some "1") 1) as (rows & Hp & _ & _ & Hin & _ & Hskip).
  - reflexivity.
  - intros o s Ho [-> _]. exfalso. apply list_elem_of_In in Ho. simpl in Ho. destruct Ho as [?|[?|[?|[]]]]; discriminate.
  - reflexivity.
  - apply (bool_decide_unpack _). vm_compute. exact I.
  - intros r Hr. apply list_elem_of_In in Hr. destruct Hr as [<-|[<-|[]]]; discriminate.
  - intros r Hr. apply list_elem_of_In in Hr. unfold in_years.
    destruct Hr as [<-|[<-|[]]]; vm_compute; repeat split; discriminate.
  - exists rows. split; [exact Hp|].
    assert (sample_row "b" 1709210096789400 ∈ db_instances db) as Hb by (apply list_elem_of_In; simpl; auto).
    assert (matches db no_filters (sample_row "b" 1709210096789400)) as Hm
      by (split; try (intros s [? _]; discriminate); try (intros s t [? _]; discriminate); intros []; reflexivity).
    split; [exact Hb|]. apply (proj2 (Hskip _ Hb Hm)). exists 0%nat, (sample_row "a" 1709210096789500).
    split; [|vm_compute; auto].
    destruct rows as [|x rows]; [vm_compute in Hp; discriminate Hp|].
    destruct (Hin x) as [Hx _]; [left|]. apply list_elem_of_In in Hx. destruct Hx as [<-|[<-|[]]]; [reflexivity|].
    vm_compute in Hp. discriminate Hp.
Defined.
