(* ===== verification/Context.v ===== *)
(** * What an instance waits for (workflow-monitor-bff/src/modules/process-instances/
    execution-context.ts and [detail] of process-instance.queries.ts)

    [EXECUTION_CONTEXT_SQL] over the tables, the classification
    [readExecutionContext] makes of its rows, and the detail of an instance,
    which the code reads in one snapshot. *)

From stdpp Require Import sorting.
From S2P Require Import Prelude JsObject Utc Paging Instances.

#[local] Open Scope Z_scope.

(** ** Tables *)

Record JobRow := mkJobRow {
  jr_id : string;
  jr_instance_id : string;
  jr_step_execution_id : string;
  jr_job_type : string;
  jr_status : string;
  jr_worker_id : option string;
  jr_locked_at : option Z;
  jr_lock_expires_at : option Z;
  jr_created_at : Z;
  jr_retries_remaining : Z
}.

Record UserTaskRow := mkUserTaskRow {
  ut_id : string;
  ut_instance_id : string;
  ut_step_execution_id : string;
  ut_status : string;
  ut_assignee : option string;
  ut_assignee_group : option string;
  ut_created_at : Z
}.

Record TimerRow := mkTimerRow {
  tm_id : string;
  tm_instance_id : string;
  tm_step_execution_id : string;
  tm_fire_at : Z;
  tm_target_step_id : string;
  tm_interrupting : bool;
  tm_fired : bool
}.

Record DefinitionRow := mkDefinitionRow {
  df_id : string;
  df_version : Z;
  df_name : string;
  df_raw_json : obj json
}.

(** One snapshot of the engine's tables. *)
Record Snapshot := mkSnapshot {
  sn_db : Database;
  sn_jobs : list JobRow;
  sn_tasks : list UserTaskRow;
  sn_timers : list TimerRow;
  sn_definitions : list DefinitionRow
}.

(** ** The rows of the query *)

Record ContextRow := mkContextRow {
  cr_step_id : string;
  cr_execution : option StepExecutionRow;
  cr_running_count : nat;
  cr_job : option JobRow;
  cr_job_count : nat;
  cr_task : option UserTaskRow;
  cr_task_count : nat;
  cr_timers : list TimerRow
}.

Section context.
Context `{Postgres}.

(** The executions of a step of an instance. *)
Definition step_executions (sn : Snapshot) (instanceId stepId : string) : list StepExecutionRow :=
  List.filter (λ e, String.eqb (er_instance_id e) instanceId && String.eqb (er_step_id e) stepId)
    (db_executions (sn_db sn)).

Definition is_running (e : StepExecutionRow) : bool := String.eqb (er_status e) "RUNNING".

Definition live_jobs (sn : Snapshot) (instanceId : string) (e : StepExecutionRow) : list JobRow :=
  List.filter (λ j, String.eqb (jr_instance_id j) instanceId && includes ["UNLOCKED"; "LOCKED"] (jr_status j) &&
                    String.eqb (jr_step_execution_id j) (er_id e) && is_running e &&
                    String.eqb (er_step_type e) "SERVICE_TASK") (sn_jobs sn).

Definition open_tasks (sn : Snapshot) (instanceId : string) (e : StepExecutionRow) : list UserTaskRow :=
  List.filter (λ t, String.eqb (ut_step_execution_id t) (er_id e) && String.eqb (ut_instance_id t) instanceId &&
                    String.eqb (ut_status t) "OPEN" && is_running e &&
                    String.eqb (er_step_type e) "USER_TASK") (sn_tasks sn).

Definition pending_timers (sn : Snapshot) (instanceId : string) (e : StepExecutionRow) : list TimerRow :=
  List.filter (λ t, String.eqb (tm_instance_id t) instanceId && negb (tm_fired t) &&
                    String.eqb (tm_step_execution_id t) (er_id e) && is_running e) (sn_timers sn).

(** [ORDER BY fire_at, id] *)
Definition fires_before (x y : TimerRow) : Prop := before (λ t, (tm_fire_at t, tm_id t)) y x.

#[export] Instance fires_before_dec x y : Decision (fires_before x y).
Proof. unfold fires_before. apply _. Defined.

(** One current step; the counts are those of the window functions, absent
    without a row, and [Number(null)] is 0. *)
Definition context_row (sn : Snapshot) (instanceId stepId : string) : ContextRow :=
  match latest_execution (sn_db sn) instanceId stepId with
  | None => mkContextRow stepId None 0 None 0 None 0 []
  | Some e =>
      let jobs := live_jobs sn instanceId e in
      let tasks := open_tasks sn instanceId e in
      mkContextRow stepId (Some e)
        (length (List.filter is_running (step_executions sn instanceId stepId)))
        (head (order_desc (λ j, (jr_created_at j, jr_id j)) jobs)) (length jobs)
        (head (order_desc (λ t, (ut_created_at t, ut_id t)) tasks)) (length tasks)
        (take 101 (merge_sort fires_before (pending_timers sn instanceId e)))
  end.

(** ** The classification *)

Inductive Reason := Signal | UserTask | JobAvailable | JobLocked | Unavailable.

#[export] Instance Reason_eq_dec : EqDecision Reason.
Proof. solve_decision. Defined.

Record ExecutionContext := mkExecutionContext {
  ec_stepId : string;
  ec_execution : option StepExecutionRow;
  ec_reason : Reason;
  ec_unavailableReason : option string;
  ec_job : option JobRow;
  ec_task : option UserTaskRow;
  ec_timers : list TimerRow;
  ec_timersTruncated : bool
}.

Definition row_is (row : ContextRow) (type : string) : bool :=
  match cr_execution row with Some e => String.eqb (er_step_type e) type | None => false end.

Definition classify (row : ContextRow) : Reason * option string :=
  if Nat.ltb 1 (cr_running_count row) || Nat.ltb 1 (cr_job_count row) || Nat.ltb 1 (cr_task_count row)
  then (Unavailable, Some "Conflicting live execution records")
  else if match cr_execution row with Some e => is_running e | None => false end then
    let reason := Unavailable in
    let reason := if row_is row "WAIT" then Signal else reason in
    let reason := if row_is row "USER_TASK" && bool_decide (is_Some (cr_task row)) then UserTask else reason in
    let reason := match cr_job row with
                  | Some job =>
                      if row_is row "SERVICE_TASK"
                      then if String.eqb (jr_status job) "LOCKED" then JobLocked else JobAvailable
                      else reason
                  | None => reason
                  end in
    (reason, if bool_decide (reason = Unavailable)
             then Some "Related evidence is missing or this step type is unsupported" else None)
  else (Unavailable, Some "No running execution evidence").

Definition context_of (row : ContextRow) : ExecutionContext :=
  let '(reason, unavailableReason) := classify row in
  let valid := negb (bool_decide (reason = Unavailable)) in
  mkExecutionContext (cr_step_id row) (cr_execution row) reason unavailableReason
    (if valid && row_is row "SERVICE_TASK" then cr_job row else None)
    (if valid && row_is row "USER_TASK" then cr_task row else None)
    (take 100 (cr_timers row)) (Nat.ltb 100 (length (cr_timers row))).

Definition readExecutionContext (sn : Snapshot) (instanceId : string) (stepIds : list string) : list ExecutionContext :=
  (λ s, context_of (context_row sn instanceId s)) <$> stepIds.

(** ** The detail of an instance *)

Record StepExecutionSummary := mkSummary {
  ss_executionId : string;
  ss_stepId : string;
  ss_status : string;
  ss_attemptNumber : Z
}.

Record ProcessInstanceDetail := mkDetail {
  pd_executionContext : list ExecutionContext;
  pd_instance : ProcessInstanceListItem;
  pd_definition : obj json;
  pd_currentTokenStepIds : list string;
  pd_failedStepId : option string;
  pd_latestByStep : list StepExecutionSummary
}.

Definition is_live (status : string) : bool := String.eqb status "ACTIVE" || String.eqb status "WAITING".

(** [ORDER BY ended_at DESC NULLS LAST, started_at DESC, id DESC] *)
Definition ended_before (x y : StepExecutionRow) : Prop :=
  match er_ended_at x, er_ended_at y with
  | Some a, Some b => b < a ∨ a = b ∧ before (λ e, (er_started_at e, er_id e)) x y
  | Some _, None => True
  | None, Some _ => False
  | None, None => before (λ e, (er_started_at e, er_id e)) x y
  end.

#[export] Instance ended_before_dec x y : Decision (ended_before x y).
Proof. unfold ended_before. destruct (er_ended_at x), (er_ended_at y); apply _. Defined.

Definition failed_step (sn : Snapshot) (instanceId : string) : option string :=
  er_step_id <$> head (merge_sort ended_before
    (List.filter (λ e, String.eqb (er_instance_id e) instanceId && String.eqb (er_status e) "FAILED")
       (db_executions (sn_db sn)))).

(** [SELECT DISTINCT ON (step_id) ... ORDER BY step_id, ...]: the steps in the
    order of the collation, each with its latest execution. *)
Definition text_before (x y : string) : Prop := text_lt y x = false.

#[export] Instance text_before_dec x y : Decision (text_before x y).
Proof. unfold text_before. apply _. Defined.

Definition latest_by_step (sn : Snapshot) (instanceId : string) : list StepExecutionRow :=
  omap (latest_execution (sn_db sn) instanceId)
    (merge_sort text_before (remove_dups (er_step_id <$>
       List.filter (λ e, String.eqb (er_instance_id e) instanceId) (db_executions (sn_db sn))))).

Definition summary (e : StepExecutionRow) : StepExecutionSummary :=
  mkSummary (er_id e) (er_step_id e) (er_status e) (er_attempt_number e).

Definition detail (sn : Snapshot) (instanceId : string) : option ProcessInstanceDetail :=
  row ← List.find (λ r, String.eqb (ir_id r) instanceId) (db_instances (sn_db sn));
  definition ← List.find (λ d, String.eqb (df_id d) (ir_definition_id row) && (df_version d =? ir_definition_version row))
                 (sn_definitions sn);
  let failedStepId := if String.eqb (ir_status row) "FAILED" then failed_step sn instanceId else None in
  let executionContext :=
    readExecutionContext sn instanceId (if is_live (ir_status row) then ir_current_step_ids row else []) in
  let instance := list_item row in
  Some (mkDetail executionContext instance
    (obj_set "version" (JNum (num_of_Z (df_version definition))) (df_raw_json definition))
    (if is_live (pi_status instance) then pi_currentStepIds instance else [])
    failedStepId (summary <$> latest_by_step sn instanceId)).
End context.

(** ** What the reasons mean *)

Section meaning.
Context `{Postgres} (sn : Snapshot) (instanceId stepId : string).

(** [e] is the latest execution of the step and the only one that runs. *)
Definition current (e : StepExecutionRow) : Prop :=
  latest_execution (sn_db sn) instanceId stepId = Some e ∧ er_status e = "RUNNING" ∧
  (length (filter (λ e, er_instance_id e = instanceId ∧ er_step_id e = stepId ∧ er_status e = "RUNNING")
     (db_executions (sn_db sn))) ≤ 1)%nat.

(** Deliveries that are not retired, and tasks that are open, of an execution. *)
Definition delivery_of (e : StepExecutionRow) (j : JobRow) : Prop :=
  jr_instance_id j = instanceId ∧ jr_step_execution_id j = er_id e ∧ jr_status j ∈ ["UNLOCKED"; "LOCKED"].

Definition task_of (e : StepExecutionRow) (t : UserTaskRow) : Prop :=
  ut_instance_id t = instanceId ∧ ut_step_execution_id t = er_id e ∧ ut_status t = "OPEN".

#[export] Instance delivery_of_dec e j : Decision (delivery_of e j).
Proof. unfold delivery_of. apply _. Defined.

#[export] Instance task_of_dec e t : Decision (task_of e t).
Proof. unfold task_of. apply _. Defined.

Lemma filter_bool {A} (f : A → bool) (Q : A → Prop) `{∀ x, Decision (Q x)} l :
  (∀ x, f x = true ↔ Q x) → List.filter f l = filter Q l.
Proof.
  intros E. induction l as [|x l IH]; simpl; [done|]. rewrite filter_cons. destruct (decide (Q x)) as [Hq|Hq].
  - rewrite (proj2 (E x) Hq). by rewrite IH.
  - destruct (f x) eqn:Ef; [by apply E in Ef|done].
Qed.

Lemma live_jobs_spec e :
  live_jobs sn instanceId e =
  if decide (er_status e = "RUNNING" ∧ er_step_type e = "SERVICE_TASK") then filter (delivery_of e) (sn_jobs sn) else [].
Proof.
  unfold live_jobs, is_running. case_decide as Hd.
  - destruct Hd as [-> ->]. apply filter_bool. intros j. unfold delivery_of, includes.
    rewrite !andb_true_iff, !String.eqb_eq, bool_decide_eq_true. naive_solver.
  - induction (sn_jobs sn) as [|j l IH]; simpl; [done|]. rewrite IH.
    destruct (String.eqb_spec (er_status e) "RUNNING"), (String.eqb_spec (er_step_type e) "SERVICE_TASK");
      rewrite ?andb_false_r; try done. naive_solver.
Qed.

Lemma open_tasks_spec e :
  open_tasks sn instanceId e =
  if decide (er_status e = "RUNNING" ∧ er_step_type e = "USER_TASK") then filter (task_of e) (sn_tasks sn) else [].
Proof.
  unfold open_tasks, is_running. case_decide as Hd.
  - destruct Hd as [-> ->]. apply filter_bool. intros j. unfold task_of.
    rewrite !andb_true_iff, !String.eqb_eq. naive_solver.
  - induction (sn_tasks sn) as [|j l IH]; simpl; [done|]. rewrite IH.
    destruct (String.eqb_spec (er_status e) "RUNNING"), (String.eqb_spec (er_step_type e) "USER_TASK");
      rewrite ?andb_false_r; try done. naive_solver.
Qed.

Lemma running_count_spec :
  List.filter is_running (step_executions sn instanceId stepId) =
  filter (λ e, er_instance_id e = instanceId ∧ er_step_id e = stepId ∧ er_status e = "RUNNING")
    (db_executions (sn_db sn)).
Proof.
  unfold step_executions, is_running. induction (db_executions (sn_db sn)) as [|e l IH]; simpl; [done|].
  rewrite filter_cons, <- IH.
  destruct (String.eqb_spec (er_instance_id e) instanceId), (String.eqb_spec (er_step_id e) stepId); simpl;
    [destruct (String.eqb_spec (er_status e) "RUNNING"); simpl|..].
  all: case_decide; naive_solver.
Qed.

(** The evidence a reason other than [Unavailable] stands for. *)
Inductive evidence : Reason → option JobRow → option UserTaskRow → Prop :=
| ev_signal e : current e → er_step_type e = "WAIT" → evidence Signal None None
| ev_task e t : current e → er_step_type e = "USER_TASK" → filter (task_of e) (sn_tasks sn) = [t] →
    evidence UserTask None (Some t)
| ev_locked e j : current e → er_step_type e = "SERVICE_TASK" → filter (delivery_of e) (sn_jobs sn) = [j] →
    jr_status j = "LOCKED" → evidence JobLocked (Some j) None
| ev_available e j : current e → er_step_type e = "SERVICE_TASK" → filter (delivery_of e) (sn_jobs sn) = [j] →
    jr_status j = "UNLOCKED" → evidence JobAvailable (Some j) None.

Lemma evidence_unique r j t r' j' t' : evidence r j t → evidence r' j' t' → r = r' ∧ j = j' ∧ t = t'.
Proof.
  intros H1 H2. destruct H1 as [e [E _]|e ? [E _]|e ? [E _]|e ? [E _]], H2 as [e' [E' _]|e' ? [E' _]|e' ? [E' _]|e' ? [E' _]];
    rewrite E in E'; injection E' as <-; simplify_eq; naive_solver congruence.
Qed.

Abbreviation context := (context_of (context_row sn instanceId stepId)).

(** The context of a step with one running execution, by the type of the step. *)
Lemma context_current e :
  current e →
  let jobs := live_jobs sn instanceId e in
  let tasks := open_tasks sn instanceId e in
  (er_step_type e = "WAIT" → ec_reason context = Signal ∧ ec_job context = None ∧ ec_task context = None) ∧
  (er_step_type e = "USER_TASK" →
     match tasks with
     | [t] => ec_reason context = UserTask ∧ ec_job context = None ∧ ec_task context = Some t
     | _ => ec_reason context = Unavailable
     end) ∧
  (er_step_type e = "SERVICE_TASK" →
     match jobs with
     | [j] => ec_reason context = (if String.eqb (jr_status j) "LOCKED" then JobLocked else JobAvailable) ∧
              ec_job context = Some j ∧ ec_task context = None
     | _ => ec_reason context = Unavailable
     end) ∧
  (er_step_type e ≠ "WAIT" → er_step_type e ≠ "USER_TASK" → er_step_type e ≠ "SERVICE_TASK" →
     ec_reason context = Unavailable).
Proof.
  intros (Hl & Hr & Hc) jobs tasks. unfold context_of, context_row. rewrite Hl. fold jobs tasks.
  rewrite running_count_spec.
  unfold classify, row_is, is_running. cbn [cr_running_count cr_job_count cr_task_count cr_execution cr_job cr_task].
  apply Nat.ltb_ge in Hc. rewrite Hc, Hr.
  pose proof (live_jobs_spec e) as Ej. fold jobs in Ej. pose proof (open_tasks_spec e) as Et. fold tasks in Et.
  rewrite Hr in Ej, Et. cbn [orb]. clearbody jobs tasks.
  split_and!.
  - intros Ety. rewrite Ety in *. rewrite Ej, Et. done.
  - intros Ety. rewrite Ety in *. rewrite decide_False in Ej by naive_solver. subst jobs.
    destruct tasks as [|t [|t' tasks]]; repeat split; reflexivity.
  - intros Ety. rewrite Ety in *. rewrite decide_False in Et by naive_solver. subst tasks.
    destruct jobs as [|j [|j' jobs]]; [reflexivity| |reflexivity].
    assert (head (order_desc (λ j : JobRow, (jr_created_at j, jr_id j)) [j]) = Some j) as -> by reflexivity.
    destruct (String.eqb (jr_status j) "LOCKED"); repeat split; reflexivity.
  - intros H1 H2 H3. apply String.eqb_neq in H1 as E1, H2 as E2, H3 as E3. rewrite E1, E2, E3.
    rewrite decide_False in Ej by naive_solver. rewrite decide_False in Et by naive_solver. subst. reflexivity.
Qed.

(** Without a single running execution there is no reason. *)
Lemma context_not_current : (∀ e, ¬ current e) → ec_reason context = Unavailable.
Proof.
  intros Hn. unfold context_of, context_row.
  destruct (latest_execution (sn_db sn) instanceId stepId) as [e|] eqn:El; [|reflexivity].
  rewrite running_count_spec. unfold classify. cbn [cr_running_count cr_job_count cr_task_count cr_execution].
  destruct (Nat.ltb_spec 1 (length (filter (λ e, er_instance_id e = instanceId ∧ er_step_id e = stepId ∧
    er_status e = "RUNNING") (db_executions (sn_db sn))))) as [|Hle]; [reflexivity|].
  unfold is_running. destruct (String.eqb_spec (er_status e) "RUNNING") as [Hr|].
  - by destruct (Hn e).
  - destruct (_ || _); reflexivity.
Qed.

Lemma current_dec : (∃ e, current e) ∨ ∀ e, ¬ current e.
Proof.
  unfold current. destruct (latest_execution (sn_db sn) instanceId stepId) as [e|]; [|right; by intros e (? & _)].
  destruct (decide (er_status e = "RUNNING")); [|right; intros e' (? & ? & _); congruence].
  destruct (decide (length (filter (λ e, er_instance_id e = instanceId ∧ er_step_id e = stepId ∧
    er_status e = "RUNNING") (db_executions (sn_db sn))) ≤ 1)%nat); [left; by exists e|right; by intros e' (_ & _ & ?)].
Qed.
Lemma evidence_sound :
  ec_reason context ≠ Unavailable → evidence (ec_reason context) (ec_job context) (ec_task context).
Proof.
  intros Hr. destruct (current_dec) as [[e He]|Hn]; [|by rewrite context_not_current in Hr].
  destruct (context_current e He) as (Hw & Ht & Hj & Ho).
  pose proof He as (_ & Hrun & _). rewrite live_jobs_spec in Hj. rewrite open_tasks_spec in Ht. rewrite Hrun in *.
  destruct (decide (er_step_type e = "WAIT")) as [Ew|Nw]; [destruct (Hw Ew) as (-> & -> & ->); by econstructor|].
  destruct (decide (er_step_type e = "USER_TASK")) as [Eu|Nu].
  { specialize (Ht Eu). rewrite Eu, decide_True in Ht by done.
  destruct (filter (task_of e) (sn_tasks sn)) as [|t [|]] eqn:Ef; [done| |done].
  destruct Ht as (-> & -> & ->). by econstructor. }
  destruct (decide (er_step_type e = "SERVICE_TASK")) as [Es|Ns]; [|by rewrite Ho in Hr].
  specialize (Hj Es). rewrite Es, decide_True in Hj by done.
  destruct (filter (delivery_of e) (sn_jobs sn)) as [|j [|]] eqn:Ef; [done| |done].
  destruct Hj as (-> & -> & ->). destruct (String.eqb_spec (jr_status j) "LOCKED") as [El|Nl]; [by econstructor|].
  assert (j ∈ filter (delivery_of e) (sn_jobs sn)) as Hin by (rewrite Ef; by left).
  apply list_elem_of_filter in Hin as [(_ & _ & Hst) _]. eapply ev_available; try done. set_solver.
Qed.

Lemma evidence_complete r j t :
  evidence r j t → ec_reason context = r ∧ ec_job context = j ∧ ec_task context = t.
Proof.
  intros H1. destruct H1 as [e He Ety|e t' He Ety Hf|e j' He Ety Hf Hs|e j' He Ety Hf Hs];
    destruct (context_current e He) as (Hw & Ht & Hj & _); pose proof He as (_ & Hrun & _).
  - by apply Hw.
  - specialize (Ht Ety). rewrite open_tasks_spec, decide_True, Hf in Ht by done. done.
  - specialize (Hj Ety). rewrite live_jobs_spec, decide_True, Hf, Hs in Hj by done. done.
  - specialize (Hj Ety). rewrite live_jobs_spec, decide_True, Hf, Hs in Hj by done. done.
Qed.
End meaning.

Lemma classify_unavailable row : (classify row).1 = Unavailable → is_Some (classify row).2.
Proof.
  unfold classify. destruct (_ || _ || _); [by eexists|].
  destruct (cr_execution row) as [e|]; [destruct (is_running e); [|by eexists]|by eexists].
  simpl. intros ->. rewrite bool_decide_true by done. by eexists.
Qed.

(** ** Properties *)

(** C18: the reason the Monitor gives for a step is the evidence in the tables,
    and only that: a reason other than unavailable stands for the latest
    execution of the step, running and the only one that runs, of a type it
    supports, with exactly one open task, or exactly one delivery that is not
    retired, where the type calls for it; that evidence always gives that
    reason, with its job or task; and without it neither is shown. *)
Theorem context_reason_evidence `{Postgres} sn instanceId stepId :
  let c := context_of (context_row sn instanceId stepId) in
  (ec_reason c ≠ Unavailable → evidence sn instanceId stepId (ec_reason c) (ec_job c) (ec_task c)) ∧
  (∀ r j t, evidence sn instanceId stepId r j t → ec_reason c = r ∧ ec_job c = j ∧ ec_task c = t) ∧
  (ec_reason c = Unavailable → ec_job c = None ∧ ec_task c = None ∧ ec_unavailableReason c ≠ None).
Proof.
  cbn zeta. split_and!; [apply evidence_sound|apply evidence_complete|].
  unfold context_of. pose proof (classify_unavailable (context_row sn instanceId stepId)) as Hu.
  destruct (classify (context_row sn instanceId stepId)) as [r u]. simpl in *. intros ->.
  rewrite bool_decide_true by done. simpl. split_and!; [done|done|]. intros ->. by destruct (Hu eq_refl).
Qed.

Section detail_lemmas.
Context `{Postgres}.

Lemma head_sorted {A} (R : A → A → Prop) `{∀ x y, Decision (R x y)} l x :
  head (merge_sort R l) = Some x → x ∈ l.
Proof.
  intros E. rewrite <- (merge_sort_Permutation R l). destruct (merge_sort R l); [done|]. simpl in E. simplify_eq. by left.
Qed.

Lemma head_sorted_some {A} (R : A → A → Prop) `{∀ x y, Decision (R x y)} l x :
  x ∈ l → is_Some (head (merge_sort R l)).
Proof.
  intros Hx. rewrite <- (merge_sort_Permutation R l) in Hx. destruct (merge_sort R l); [by apply elem_of_nil in Hx|].
  by eexists.
Qed.

Lemma latest_execution_in db i s e :
  latest_execution db i s = Some e → e ∈ db_executions db ∧ er_instance_id e = i ∧ er_step_id e = s.
Proof.
  intros Hin%head_sorted. apply list_elem_of_In in Hin. apply List.filter_In in Hin as [Hin Hb].
  bool_hyps. split_and!; [by apply list_elem_of_In|done|done].
Qed.

Lemma latest_execution_some db e :
  e ∈ db_executions db → is_Some (latest_execution db (er_instance_id e) (er_step_id e)).
Proof.
  intros He. apply head_sorted_some with (x := e). apply list_elem_of_In, List.filter_In.
  split; [by apply list_elem_of_In|]. by rewrite !String.eqb_refl.
Qed.

Lemma latest_by_step_in sn i e :
  e ∈ latest_by_step sn i ↔ latest_execution (sn_db sn) i (er_step_id e) = Some e.
Proof.
  unfold latest_by_step. rewrite list_elem_of_omap. split.
  - intros (s & _ & E). pose proof (latest_execution_in _ _ _ _ E) as (_ & _ & <-). done.
  - intros E. exists (er_step_id e). split; [|done]. rewrite merge_sort_Permutation, elem_of_remove_dups.
    apply latest_execution_in in E as (He & Hi & _). apply list_elem_of_fmap_2. apply list_elem_of_In, List.filter_In.
    split; [by apply list_elem_of_In|]. by apply String.eqb_eq.
Qed.

Lemma latest_by_step_NoDup sn i : NoDup (er_step_id <$> latest_by_step sn i).
Proof.
  unfold latest_by_step.
  assert (NoDup (merge_sort text_before (remove_dups (er_step_id <$>
       List.filter (λ e, String.eqb (er_instance_id e) i) (db_executions (sn_db sn)))))) as Hnd
    by (rewrite merge_sort_Permutation; apply NoDup_remove_dups).
  induction Hnd as [|s l Hs _ IH]; simpl; [constructor|].
  destruct (latest_execution (sn_db sn) i s) as [e|] eqn:E; [|done]. simpl. apply NoDup_cons. split; [|done].
  apply latest_execution_in in E as (_ & _ & <-). intros (e' & Ee & Hin)%list_elem_of_fmap.
  apply list_elem_of_omap in Hin as (s' & Hs' & E'). apply latest_execution_in in E' as (_ & _ & <-). congruence.
Qed.
End detail_lemmas.

(** The detail of an instance is consistent: it describes a row of the
    table and exists only together with its definition; tokens and contexts
    are shown, one for one, only for a live instance, a failed step only for a
    failed one; and the overlay has exactly the latest execution of every step
    that was executed, once. *)
Theorem detail_consistent `{Postgres} sn instanceId d :
  detail sn instanceId = Some d →
  ∃ row, row ∈ db_instances (sn_db sn) ∧ ir_id row = instanceId ∧ pd_instance d = list_item row ∧
    (ec_stepId <$> pd_executionContext d) = pd_currentTokenStepIds d ∧
    (pd_currentTokenStepIds d ≠ [] → ir_status row = "ACTIVE" ∨ ir_status row = "WAITING") ∧
    (pd_failedStepId d ≠ None → ir_status row = "FAILED") ∧
    NoDup (ss_stepId <$> pd_latestByStep d) ∧
    (∀ x, x ∈ pd_latestByStep d →
       ∃ e, x = summary e ∧ latest_execution (sn_db sn) instanceId (er_step_id e) = Some e) ∧
    (∀ e, e ∈ db_executions (sn_db sn) → er_instance_id e = instanceId →
       ∃ e', latest_execution (sn_db sn) instanceId (er_step_id e) = Some e' ∧ summary e' ∈ pd_latestByStep d).
Proof.
  unfold detail. destruct (List.find _ (db_instances (sn_db sn))) as [row|] eqn:Er; [|done]. cbn [mbind option_bind].
  destruct (List.find _ (sn_definitions sn)) as [def|]; [|done]. cbn [mbind option_bind]. intros [= <-].
  apply List.find_some in Er as [Hin Hid]. apply String.eqb_eq in Hid. exists row.
  cbn [pd_instance pd_executionContext pd_currentTokenStepIds pd_failedStepId pd_latestByStep].
  split_and!; [by apply list_elem_of_In|done|done|..].
  - simpl. unfold readExecutionContext. rewrite <- list_fmap_compose.
    assert (∀ l, (ec_stepId ∘ λ s, context_of (context_row sn instanceId s)) <$> l = l) as ->; [|done].
    intros l. induction l as [|s l IH]; [done|]. rewrite fmap_cons, IH. f_equal. unfold compose, context_of, context_row.
    destruct (latest_execution (sn_db sn) instanceId s), (classify _); done.
  - simpl. unfold is_live. intros Hne.
    destruct (String.eqb_spec (ir_status row) "ACTIVE"); [by left|].
    destruct (String.eqb_spec (ir_status row) "WAITING"); [by right|done].
  - destruct (String.eqb_spec (ir_status row) "FAILED"); done.
  - rewrite <- list_fmap_compose. apply latest_by_step_NoDup.
  - intros x (e & -> & He)%list_elem_of_fmap. exists e. split; [done|]. by apply latest_by_step_in.
  - intros e He Hi. destruct (latest_execution_some (sn_db sn) e He) as [e' E]. rewrite Hi in E. exists e'.
    split; [done|]. apply list_elem_of_fmap_2, latest_by_step_in.
    by pose proof (latest_execution_in _ _ _ _ E) as (_ & _ & ->).
Qed.

Lemma detail_consistent_witness :
  ∃ d, @detail model_postgres (mkSnapshot (mkDatabase [mkInstanceRow "i" "order" 1 "FAILED" ["pay"] 0 None None None JNull] [])
                 [] [] [] [mkDefinitionRow "order" 1 "Order" []]) "i" = Some d ∧ pd_currentTokenStepIds d = [].
Proof.
  eexists. split; [reflexivity|].
  destruct (@detail_consistent model_postgres (mkSnapshot (mkDatabase [mkInstanceRow "i" "order" 1 "FAILED" ["pay"] 0 None None None JNull] [])
    [] [] [] [mkDefinitionRow "order" 1 "Order" []]) "i" _ eq_refl) as (row & _ & _ & _ & Hctx & _).
  rewrite <- Hctx. reflexivity.
Defined.
