(* ===== verification/Executions.v ===== *)
(** * Listing the executions of an instance
    (workflow-monitor-bff/src/modules/process-instances/process-instance.queries.ts,
    [listStepExecutions])

    The cursor of an execution is bound to its instance; the pages list the
    executions of the instance, newest first. *)

From stdpp Require Import sorting.
From S2P Require Import Prelude JsObject Peg Schema ImportExport Utc Cursor Paging Instances.

#[local] Open Scope Z_scope.

Record StepExecutionListItem := mkExecutionItem {
  si_id : string;
  si_stepId : string;
  si_stepType : string;
  si_attemptNumber : Z;
  si_status : string;
  si_startedAt : Z;
  si_endedAt : option Z;
  si_hasFailure : bool;
  si_hasInputSnapshot : bool;
  si_hasOutputSnapshot : bool
}.

Definition execution_item (row : StepExecutionRow) : StepExecutionListItem :=
  mkExecutionItem (er_id row) (er_step_id row) (er_step_type row) (er_attempt_number row) (er_status row)
    (js_date (er_started_at row)) (js_date <$> er_ended_at row)
    (bool_decide (is_Some (er_failure_reason row)))
    (bool_decide (is_Some (er_input_snapshot row)))
    (bool_decide (is_Some (er_output_snapshot row))).

Definition execution_key (e : StepExecutionRow) : Z * string := (er_started_at e, er_id e).

Section executions.
Context `{JsonText} `{Utf8Text} `{Postgres}.

(** The fields of a cursor: [None] for a text that is not the canonical
    encoding of a JSON object; any other JSON value has no [v]. *)
Definition cursor_object (value : string) : option (obj json) :=
  text ← decode_text value;
  match JSON_parse text with inl (JObj o) => Some o | _ => None end.

Definition encodeStepExecutionCursor (instanceId : string) (item : StepExecutionListItem) : string :=
  encode_text (JSON_stringify (JObj [
    ("v", JNum (num_of_Z 1)); ("startedAt", JStr (toISOString (si_startedAt item))); ("id", JStr (si_id item));
    ("instanceId", JStr instanceId)])).

(** [None] is the [BadRequestException("Invalid cursor")]. *)
Definition decodeStepExecutionCursor (value instanceId : string) : option Cursor :=
  o ← cursor_object value;
  match obj_get o "startedAt", obj_get o "id", obj_get o "instanceId" with
  | Some (JStr at_), Some (JStr id), Some (JStr inst) =>
      if is_one (obj_get o "v") && isUtcTimestamp at_ && negb (Nat.eqb (String.length id) 0) &&
         String.eqb inst instanceId
      then Some (mkCursor at_ id) else None
  | _, _, _ => None
  end.

(** The query; [None] when the database cannot read the time of the cursor. *)
Definition query_executions (db : Database) (instanceId : string) (cursor : option Cursor) (limit : nat) :
    option (list StepExecutionRow) :=
  after ← match cursor with
          | None => Some (λ _, true)
          | Some c => t ← timestamptz (cu_at c); Some (λ e, key_lt (execution_key e) (t, cu_id c))
          end;
  Some (select execution_key (λ e, String.eqb (er_instance_id e) instanceId && after e) limit (db_executions db)).

Definition listStepExecutions (db : Database) (instanceId : string) (size cursor : option string) :
    ListResult StepExecutionListItem :=
  match pageSize size with
  | None => BadRequest "Page size must be between 1 and 100"
  | Some limit =>
      match (match cursor with
             | Some c => if truthy_str c then Some <$> decodeStepExecutionCursor c instanceId else Some None
             | None => Some None
             end) with
      | None => BadRequest "Invalid cursor"
      | Some cursor =>
          match query_executions db instanceId cursor (S limit) with
          | None => DatabaseError
          | Some rows => page_of execution_item (encodeStepExecutionCursor instanceId) limit rows
          end
      end
  end.
End executions.

(** ** Cursors *)

Section cursors.
Context `{J : JsonText} `{!JsonTextLaws J} `{U : Utf8Text} `{!Utf8Laws U}.

Lemma cursor_object_encode o :
  json_wf (JObj o) = true → cursor_object (encode_text (JSON_stringify (JObj o))) = Some o.
Proof.
  intros Hwf. unfold cursor_object. rewrite decode_encode_text by apply stringify_nonempty. cbn [mbind option_bind].
  by rewrite parse_stringify.
Qed.

Lemma decode_encode_execution_cursor i item :
  in_years (si_startedAt item) → si_id item ≠ EmptyString →
  decodeStepExecutionCursor (encodeStepExecutionCursor i item) i =
    Some (mkCursor (toISOString (si_startedAt item)) (si_id item)).
Proof.
  intros Ht Hid. unfold decodeStepExecutionCursor, encodeStepExecutionCursor.
  rewrite cursor_object_encode by done. cbn [mbind option_bind]. set (o := [_; _; _; _]).
  assert (obj_get o "startedAt" = Some (JStr (toISOString (si_startedAt item))) ∧ obj_get o "id" = Some (JStr (si_id item)) ∧
          obj_get o "instanceId" = Some (JStr i) ∧ is_one (obj_get o "v") = true) as (-> & -> & -> & ->) by done.
  rewrite toISOString_accepted, String.eqb_refl by done. by destruct (si_id item).
Qed.

Lemma execution_cursor_truthy i item : truthy_str (encodeStepExecutionCursor i item) = true.
Proof. apply truthy_str_true, encode_text_nonempty, stringify_nonempty. Qed.
End cursors.

(** ** Properties *)

Lemma execution_pages `{J : JsonText} `{!JsonTextLaws J} `{U : Utf8Text} `{!Utf8Laws U}
    `{P : Postgres} `{!PostgresLaws P} db i size limit :
  pageSize size = Some limit → NoDup (er_id <$> db_executions db) →
  (∀ e, e ∈ db_executions db → er_id e ≠ EmptyString ∧ whole_ms (er_started_at e)) →
  ∃ rows, all_pages (S (length (db_executions db))) (listStepExecutions db i size) None =
            Some (execution_item <$> rows) ∧
    distinct execution_key rows ∧ StronglySorted (before execution_key) rows ∧
    (∀ e, e ∈ rows ↔ e ∈ db_executions db ∧ er_instance_id e = i).
Proof.
  intros Hs Hids Hrows. setoid_rewrite <- String.eqb_eq.
  apply (keyset_pages execution_key (db_executions db) (λ e, String.eqb (er_instance_id e) i) limit execution_item
    (encodeStepExecutionCursor i)).
  - apply pageSize_bounds in Hs. lia.
  - apply distinct_filter, (distinct_by _ er_id); [|done]. unfold execution_key. by intros x y [= _ E].
  - unfold listStepExecutions, query_executions, select. rewrite Hs. cbn [mbind option_bind].
    do 3 f_equal. apply List.filter_ext. intros e. by rewrite andb_true_r.
  - intros x Hx _. destruct (Hrows x Hx) as [Hid Hms]. unfold listStepExecutions, query_executions.
    rewrite Hs, execution_cursor_truthy, decode_encode_execution_cursor by (done || apply Hms).
    cbn [fmap option_fmap option_map cu_at cu_id]. simpl si_startedAt. by rewrite (timestamptz_of_date _ Hms).
Qed.

(** The executions of one instance, all of them, newest first: following the
    cursors of [listStepExecutions] lists each execution of the instance once
    and no other, provided start times are whole milliseconds. *)
Theorem execution_pages_cover `{J : JsonText} `{!JsonTextLaws J} `{U : Utf8Text} `{!Utf8Laws U}
    `{P : Postgres} `{!PostgresLaws P} db i size limit :
  pageSize size = Some limit → NoDup (er_id <$> db_executions db) →
  (∀ e, e ∈ db_executions db → er_id e ≠ EmptyString ∧ whole_ms (er_started_at e)) →
  ∃ rows, all_pages (S (length (db_executions db))) (listStepExecutions db i size) None =
            Some (execution_item <$> rows) ∧
    distinct execution_key rows ∧ StronglySorted (before execution_key) rows ∧
    (∀ e, e ∈ rows ↔ e ∈ db_executions db ∧ er_instance_id e = i).
Proof. apply execution_pages. Qed.

(** A cursor of one instance is refused for another: the executions of an
    instance cannot be listed from where those of another one ended. *)
Theorem execution_cursor_bound `{J : JsonText} `{!JsonTextLaws J} `{U : Utf8Text} `{!Utf8Laws U}
    `{P : Postgres} db i i' size item :
  i ≠ i' →
  listStepExecutions db i' size (Some (encodeStepExecutionCursor i item)) =
  BadRequest (match pageSize size with Some _ => "Invalid cursor" | None => "Page size must be between 1 and 100" end).
Proof.
  intros Hne. unfold listStepExecutions. rewrite execution_cursor_truthy. destruct (pageSize size); [|done].
  unfold decodeStepExecutionCursor, encodeStepExecutionCursor. rewrite cursor_object_encode by done.
  cbn [mbind option_bind]. set (o := [_; _; _; _]).
  assert (obj_get o "startedAt" = Some (JStr (toISOString (si_startedAt item))) ∧ obj_get o "id" = Some (JStr (si_id item)) ∧
          obj_get o "instanceId" = Some (JStr i)) as (-> & -> & ->) by done.
  apply String.eqb_neq in Hne. by rewrite Hne, andb_false_r.
Qed.

(** ** Witnesses *)

Definition sample_execution (id instance : string) (micros : Z) : StepExecutionRow :=
  mkExecutionRow id instance "pay" "SERVICE_TASK" 1 "RUNNING" micros None None None None.

Definition sample_executions : Database :=
  mkDatabase [] [sample_execution "e1" "i" 1709210096788000; sample_execution "e2" "j" 1709210096788000;
                 sample_execution "e3" "i" 1709210096789000].

#[local] Existing Instances model_postgres model_postgres_laws.

Lemma execution_pages_cover_witness :
  ∃ rows, all_pages 4 (listStepExecutions sample_executions "i" (Some "1")) None = Some (execution_item <$> rows) ∧
    distinct execution_key rows.
Proof.
  destruct (execution_pages_cover sample_executions "i" (Some "1") 1) as (rows & Hp & Hn & _ & _).
  - reflexivity.
  - apply (bool_decide_unpack _). vm_compute. exact I.
  - intros e He. apply list_elem_of_In in He. unfold whole_ms, in_years.
    destruct He as [<-|[<-|[<-|[]]]]; vm_compute; repeat split; discriminate.
  - exists rows. split; [exact Hp|exact Hn].
Defined.

Lemma execution_cursor_bound_witness :
  listStepExecutions sample_executions "j" None
    (Some (encodeStepExecutionCursor "i" (execution_item (sample_execution "e3" "i" 1709210096789000)))) =
  BadRequest "Invalid cursor".
Proof. exact (execution_cursor_bound sample_executions "i" "j" None _ ltac:(discriminate)). Defined.
