(* ===== verification/Incidents.v ===== *)
(** * Incidents (workflow-monitor-bff/src/modules/incidents/incident.queries.ts,
    dto/incident.dto.ts)

    An incident is a failed execution of an instance that was not cancelled.
    The join of the query over the tables, its conditions and cursor, the list
    and the detail.  [ended_at] may be absent: the database orders such rows
    first, no comparison holds of them, and a cursor made of one is an
    exception. *)

From stdpp Require Import sorting.
From S2P Require Import Prelude JsObject Peg Schema ImportExport Utc Cursor Paging Conditions Instances Context Executions.

#[local] Open Scope Z_scope.

Record IncidentFilters := mkIncidentFilters {
  if_definitionId : option string;
  if_jobType : option string;
  if_from : option string;
  if_to : option string
}.

Record IncidentJob := mkIncidentJob { ij_id : string; ij_type : string; ij_status : string }.

Record LatestAttempt := mkLatestAttempt { la_executionId : string; la_status : string; la_attemptNumber : Z }.

Record IncidentListItem := mkIncident {
  il_latestAttempt : LatestAttempt;
  il_historical : bool;
  il_id : string;
  il_processInstanceId : string;
  il_definitionId : string;
  il_definitionVersion : Z;
  il_definitionName : string;
  il_stepId : string;
  il_stepType : string;
  il_attemptNumber : Z;
  il_occurredAt : option Z;
  il_job : option IncidentJob
}.

Record IncidentDetail := mkIncidentDetail {
  id_item : IncidentListItem;
  id_errorDetails : option string;
  id_instance : string * string * option string
}.

(** The message of the [BadRequestException], if any. *)
Definition validateIncidentFilters (f : IncidentFilters) : option string :=
  if existsb (λ t, truthy_ostr t && negb (isUtcTimestamp (default EmptyString t))) [if_from f; if_to f]
  then Some "Invalid UTC timestamp"
  else if truthy_ostr (if_from f) && truthy_ostr (if_to f) &&
          match date_parse (default EmptyString (if_from f)), date_parse (default EmptyString (if_to f)) with
          | Some a, Some b => b <=? a
          | _, _ => false
          end
  then Some "Occurrence-time range must increase"
  else None.

(** ** The joined rows *)

Record IncidentRow := mkIncidentRow {
  in_execution : StepExecutionRow;
  in_instance : ProcessInstanceRow;
  in_definition : DefinitionRow;
  in_job : option JobRow;
  in_latest : StepExecutionRow
}.

Section rows.
Context `{Postgres}.

(** [SELECT DISTINCT ON (step_execution_id) ... ORDER BY step_execution_id, created_at DESC, id DESC] *)
Definition related_job (sn : Snapshot) (e : StepExecutionRow) : option JobRow :=
  head (order_desc (λ j, (jr_created_at j, jr_id j))
    (List.filter (λ j, String.eqb (jr_step_execution_id j) (er_id e)) (sn_jobs sn))).

(** The rows one execution makes in the join. *)
Definition incident_rows_of (sn : Snapshot) (e : StepExecutionRow) : list IncidentRow :=
  i ← List.filter (λ i, String.eqb (ir_id i) (er_instance_id e)) (db_instances (sn_db sn));
  d ← List.filter (λ d, String.eqb (df_id d) (ir_definition_id i) && (df_version d =? ir_definition_version i))
        (sn_definitions sn);
  l ← option_list (latest_execution (sn_db sn) (er_instance_id e) (er_step_id e));
  [mkIncidentRow e i d (related_job sn e) l].

Definition incident_rows (sn : Snapshot) : list IncidentRow :=
  db_executions (sn_db sn) ≫= incident_rows_of sn.

(** [ORDER BY ended_at DESC, id DESC], where an absent time stands first. *)
Definition nullable_after (k k' : option Z * string) : bool :=
  match k.1, k'.1 with
  | Some t, Some t' => key_lt (t, k.2) (t', k'.2)
  | Some _, None => true
  | None, Some _ => false
  | None, None => text_lt k.2 k'.2
  end.

#[export] Instance latest_ended_first : KeyOrder (option Z * string) := {| comes_after := nullable_after |}.

Definition incident_key (r : IncidentRow) : option Z * string := (er_ended_at (in_execution r), er_id (in_execution r)).

(** ** The conditions *)

Inductive IncidentCondition :=
| IFailed
| INotCancelled
| IDefinitionId (p : nat)
| IJobType (p : nat)
| IFrom (p : nat)
| ITo (p : nat)
| IAfterCursor (p q : nat).

Definition incident_conditions (f : IncidentFilters) (cursor : option Cursor) : list IncidentCondition * list Value :=
  let st := add_if (if_definitionId f) IDefinitionId ([IFailed; INotCancelled], []) in
  let st := add_if (if_jobType f) IJobType st in
  let st := add_if (if_from f) IFrom st in
  let st := add_if (if_to f) ITo st in
  match cursor with
  | Some c => add_cursor IAfterCursor (cu_at c) (cu_id c) st
  | None => st
  end.

(** The test of a row; a comparison with an absent value does not hold. *)
Definition incident_test (values : list Value) (c : IncidentCondition) : option (IncidentRow → bool) :=
  match c with
  | IFailed => Some (λ r, String.eqb (er_status (in_execution r)) "FAILED")
  | INotCancelled => Some (λ r, negb (String.eqb (ir_status (in_instance r)) "CANCELLED"))
  | IDefinitionId p => s ← text_param values p; Some (λ r, String.eqb (ir_definition_id (in_instance r)) s)
  | IJobType p =>
      s ← text_param values p;
      Some (λ r, match in_job r with Some j => String.eqb (jr_job_type j) s | None => false end)
  | IFrom p =>
      t ← time_param values p;
      Some (λ r, match er_ended_at (in_execution r) with Some at_ => t <=? at_ | None => false end)
  | ITo p =>
      t ← time_param values p;
      Some (λ r, match er_ended_at (in_execution r) with Some at_ => at_ <? t | None => false end)
  | IAfterCursor p q =>
      t ← time_param values p; id ← text_param values q;
      Some (λ r, match er_ended_at (in_execution r) with
                 | Some at_ => key_lt (at_, er_id (in_execution r)) (t, id)
                 | None => false
                 end)
  end.

Definition query_incidents (sn : Snapshot) (st : list IncidentCondition * list Value) (limit : nat) :
    option (list IncidentRow) :=
  tests ← mapM (incident_test st.2) st.1;
  Some (select incident_key (λ r, forallb (λ t : IncidentRow → bool, t r) tests) limit (incident_rows sn)).

(** ** Items *)

Definition incident_job (j : option JobRow) : option IncidentJob :=
  match j with
  | Some j =>
      if truthy_str (jr_id j) && truthy_str (jr_job_type j) && truthy_str (jr_status j)
      then Some (mkIncidentJob (jr_id j) (jr_job_type j) (jr_status j)) else None
  | None => None
  end.

Definition mapListItem (row : IncidentRow) : IncidentListItem :=
  let e := in_execution row in let i := in_instance row in let l := in_latest row in
  mkIncident (mkLatestAttempt (er_id l) (er_status l) (er_attempt_number l))
    (negb (String.eqb (er_id e) (er_id l))) (er_id e) (er_instance_id e) (ir_definition_id i) (ir_definition_version i)
    (df_name (in_definition row)) (er_step_id e) (er_step_type e) (er_attempt_number e)
    (js_date <$> er_ended_at e) (incident_job (in_job row)).

(** [detail]: the first row of the query, if any. *)
Definition incident_detail (sn : Snapshot) (incidentId : string) : option IncidentDetail :=
  row ← head (List.filter (λ r, String.eqb (er_id (in_execution r)) incidentId &&
                                String.eqb (er_status (in_execution r)) "FAILED" &&
                                negb (String.eqb (ir_status (in_instance r)) "CANCELLED")) (incident_rows sn));
  Some (mkIncidentDetail (mapListItem row) (er_failure_reason (in_execution row))
    (er_instance_id (in_execution row), ir_status (in_instance row), ir_business_key (in_instance row))).
End rows.

(** ** The list *)

Section list_incidents.
Context `{JsonText} `{Sha256} `{Utf8Text} `{Postgres}.

Definition incidentFingerprint (f : IncidentFilters) : string :=
  sha256_base64url (JSON_stringify (JObj [
    ("definitionId", json_opt (if_definitionId f));
    ("jobType", json_opt (if_jobType f));
    ("from", json_opt (if_from f));
    ("to", json_opt (if_to f))])).

(** The cursor of an item with a time. *)
Definition encodeIncidentCursor (f : IncidentFilters) (occurredAt : Z) (id : string) : string :=
  encode_text (JSON_stringify (JObj [
    ("v", JNum (num_of_Z 1)); ("occurredAt", JStr (toISOString occurredAt)); ("id", JStr id);
    ("filters", JStr (incidentFingerprint f))])).

Definition decodeIncidentCursor (value : string) (f : IncidentFilters) : option Cursor :=
  o ← cursor_object value;
  match obj_get o "occurredAt", obj_get o "id", obj_get o "filters" with
  | Some (JStr at_), Some (JStr id), Some (JStr fp) =>
      if is_one (obj_get o "v") && isUtcTimestamp at_ && negb (Nat.eqb (String.length id) 0) &&
         String.eqb fp (incidentFingerprint f)
      then Some (mkCursor at_ id) else None
  | _, _, _ => None
  end.

(** The page of the rows; [toISOString] of an absent time throws. *)
Definition incident_page (f : IncidentFilters) (limit : nat) (rows : list IncidentRow) : ListResult IncidentListItem :=
  let mapped := mapListItem <$> rows in
  let items := take limit mapped in
  if Nat.ltb limit (length mapped) then
    match last items with
    | Some item =>
        match il_occurredAt item with
        | Some t => Page items (Some (encodeIncidentCursor f t (il_id item)))
        | None => InternalError
        end
    | None => InternalError
    end
  else Page items None.

Definition list_incidents (sn : Snapshot) (f : IncidentFilters) (size cursor : option string) :
    ListResult IncidentListItem :=
  match validateIncidentFilters f with
  | Some message => BadRequest message
  | None =>
      match pageSize size with
      | None => BadRequest "Page size must be between 1 and 100"
      | Some limit =>
          match (match cursor with
                 | Some c => if truthy_str c then Some <$> decodeIncidentCursor c f else Some None
                 | None => Some None
                 end) with
          | None => BadRequest "Invalid cursor"
          | Some cursor =>
              match query_incidents sn (incident_conditions f cursor) (S limit) with
              | None => DatabaseError
              | Some rows => incident_page f limit rows
              end
          end
      end
  end.
End list_incidents.
