(* ===== verification/IncidentsProps.v ===== *)
(** * What the incidents endpoints return

    The join makes at most one row per execution, the conditions mean the
    filters, and the pages cover the incidents; the detail of an incident is
    there exactly when the list has it. *)

From stdpp Require Import sorting.
From S2P Require Import Prelude JsObject Peg Schema ImportExport Utc Cursor Paging Conditions Instances Context Executions Incidents.

#[local] Open Scope Z_scope.

(** ** Incidents *)

Section spec.
Context `{Postgres}.

(** What the filters ask of an execution. *)
Record incident_filters (sn : Snapshot) (f : IncidentFilters) (e : StepExecutionRow) (i : ProcessInstanceRow) : Prop := {
  imf_definition s : given (if_definitionId f) s → ir_definition_id i = s;
  imf_job s : given (if_jobType f) s → ∃ j, related_job sn e = Some j ∧ jr_job_type j = s;
  imf_from s t : given (if_from f) s → timestamptz s = Some t → ∃ at_, er_ended_at e = Some at_ ∧ t ≤ at_;
  imf_to s t : given (if_to f) s → timestamptz s = Some t → ∃ at_, er_ended_at e = Some at_ ∧ at_ < t
}.

(** A failed execution, of an instance that is not cancelled and whose
    definition is there, that the filters ask for. *)
Definition incident (sn : Snapshot) (f : IncidentFilters) (e : StepExecutionRow) : Prop :=
  e ∈ db_executions (sn_db sn) ∧ er_status e = "FAILED" ∧
  ∃ i d, i ∈ db_instances (sn_db sn) ∧ ir_id i = er_instance_id e ∧ ir_status i ≠ "CANCELLED" ∧
    d ∈ sn_definitions sn ∧ df_id d = ir_definition_id i ∧ df_version d = ir_definition_version i ∧
    incident_filters sn f e i.

(** The primary keys of the tables. *)
Record primary_keys (sn : Snapshot) : Prop := {
  pk_executions : NoDup (er_id <$> db_executions (sn_db sn));
  pk_instances : NoDup (ir_id <$> db_instances (sn_db sn));
  pk_definitions : NoDup ((λ d, (df_id d, df_version d)) <$> sn_definitions sn)
}.

(** ** The join *)

(** A row of the join and its execution. *)
Lemma incident_rows_in sn r :
  r ∈ incident_rows sn ↔
  let e := in_execution r in
  e ∈ db_executions (sn_db sn) ∧
  (in_instance r ∈ db_instances (sn_db sn) ∧ ir_id (in_instance r) = er_instance_id e) ∧
  (in_definition r ∈ sn_definitions sn ∧ df_id (in_definition r) = ir_definition_id (in_instance r) ∧
   df_version (in_definition r) = ir_definition_version (in_instance r)) ∧
  in_job r = related_job sn e ∧
  latest_execution (sn_db sn) (er_instance_id e) (er_step_id e) = Some (in_latest r).
Proof.
  unfold incident_rows, incident_rows_of.
  setoid_rewrite list_elem_of_bind. setoid_rewrite list_elem_of_bind. setoid_rewrite list_elem_of_bind.
  setoid_rewrite list_elem_of_bind. setoid_rewrite in_filter. setoid_rewrite andb_true_iff.
  setoid_rewrite String.eqb_eq. setoid_rewrite Z.eqb_eq.
  split.
  - intros (e & (i & (d & (l & Hr & Hl) & Hd) & Hi) & He). apply list_elem_of_singleton in Hr as ->. simpl.
    destruct (latest_execution _ _ _) as [l'|]; simpl in Hl; [|by apply not_elem_of_nil in Hl].
    apply list_elem_of_singleton in Hl as ->. naive_solver.
  - destruct r as [e i d j l]. simpl. intros (He & Hi & Hd & -> & Hl).
    exists e. split; [|done]. exists i. split; [|done]. exists d. split; [|naive_solver].
    exists l. rewrite Hl. simpl. set_solver.
Qed.

Lemma incident_rows_of_length sn e : primary_keys sn → (length (incident_rows_of sn e) ≤ 1)%nat.
Proof.
  intros [_ Hi Hd]. unfold incident_rows_of. apply bind_length.
  { apply (filter_key_length ir_id _ (er_instance_id e)); [done|]. intros x. apply String.eqb_eq. }
  intros i. apply bind_length.
  { apply (filter_key_length (λ d, (df_id d, df_version d)) _ (ir_definition_id i, ir_definition_version i)); [done|].
    intros x. rewrite andb_true_iff, String.eqb_eq, Z.eqb_eq. by intros [-> ->]. }
  intros d. apply bind_length; [|simpl; lia]. destruct (latest_execution _ _ _); simpl; lia.
Qed.

Lemma incident_rows_of_execution sn e r : r ∈ incident_rows_of sn e → in_execution r = e.
Proof.
  unfold incident_rows_of. rewrite list_elem_of_bind. setoid_rewrite list_elem_of_bind. setoid_rewrite list_elem_of_bind.
  intros (i & (d & (l & Hr & _) & _) & _). apply list_elem_of_singleton in Hr as ->. done.
Qed.

Lemma incident_rows_nodup sn : primary_keys sn → NoDup ((λ r, er_id (in_execution r)) <$> incident_rows sn).
Proof.
  intros Hpk. apply (bind_nodup (incident_rows_of sn) (λ r, er_id (in_execution r)) er_id).
  - apply Hpk.
  - intros e. by apply incident_rows_of_length.
  - intros e r Hr. by rewrite (incident_rows_of_execution sn e r Hr).
Qed.

(** The latest execution of the step of an execution is there. *)
Lemma latest_execution_exists db e :
  e ∈ db_executions db → is_Some (latest_execution db (er_instance_id e) (er_step_id e)).
Proof.
  intros He. unfold latest_execution. set (l := List.filter _ _).
  assert (e ∈ l) as Hl by (apply in_filter; by rewrite !String.eqb_refl).
  rewrite <- (merge_sort_Permutation execution_before) in Hl. destruct (merge_sort _ l); [by apply not_elem_of_nil in Hl|].
  by eexists.
Qed.

(** ** The conditions *)

#[export] Instance incident_test_keeps : KeepsPlaces incident_test.
Proof. intros values more c t. destruct c as [| |p|p|p|p|p q]; simpl; keep_places. Qed.

Definition readable_incidents (f : IncidentFilters) : Prop :=
  ∀ o s, o ∈ [if_from f; if_to f] → given o s → is_Some (timestamptz s).

Lemma incident_conditions_mean f :
  readable_incidents f →
  means incident_test (incident_conditions f None) (λ r, (er_status (in_execution r) = "FAILED" ∧
    ir_status (in_instance r) ≠ "CANCELLED") ∧
    (∀ s, given (if_definitionId f) s → ir_definition_id (in_instance r) = s) ∧
    (∀ s, given (if_jobType f) s → ∃ j, in_job r = Some j ∧ jr_job_type j = s) ∧
    (∀ s t, given (if_from f) s → timestamptz s = Some t → ∃ at_, er_ended_at (in_execution r) = Some at_ ∧ t ≤ at_) ∧
    (∀ s t, given (if_to f) s → timestamptz s = Some t → ∃ at_, er_ended_at (in_execution r) = Some at_ ∧ at_ < t)).
Proof.
  intros Hr. unfold incident_conditions. cbn zeta.
  assert (means incident_test ([IFailed; INotCancelled], [])
    (λ r, er_status (in_execution r) = "FAILED" ∧ ir_status (in_instance r) ≠ "CANCELLED")) as H0.
  { eexists. split; [done|]. intros r. simpl. rewrite andb_true_r, andb_true_iff, negb_true_iff, String.eqb_eq, String.eqb_neq.
    done. }
  eapply (means_ext incident_test); [|eapply (means_time incident_test) with
      (f := λ t r, match er_ended_at (in_execution r) with Some a => a <? t | None => false end)
      (Q := λ t r, ∃ a, er_ended_at (in_execution r) = Some a ∧ a < t);
    [eapply (means_time incident_test) with
        (f := λ t r, match er_ended_at (in_execution r) with Some a => t <=? a | None => false end)
        (Q := λ t r, ∃ a, er_ended_at (in_execution r) = Some a ∧ t ≤ a);
      [eapply (means_text incident_test) with
          (f := λ s r, match in_job r with Some j => String.eqb (jr_job_type j) s | None => false end)
          (Q := λ s r, ∃ j, in_job r = Some j ∧ jr_job_type j = s);
        [eapply (means_text incident_test) with (f := λ s r, String.eqb (ir_definition_id (in_instance r)) s)
            (Q := λ s r, ir_definition_id (in_instance r) = s); [exact H0|..]|..]|..]|..]].
  all: try (intros s Hg; refine (Hr _ s _ Hg); set_solver).
  all: try done.
  - naive_solver.
  - intros s r. apply String.eqb_eq.
  - intros s r. destruct (in_job r); [rewrite String.eqb_eq|]; naive_solver.
  - intros t r. destruct (er_ended_at (in_execution r)); [rewrite Z.leb_le|]; naive_solver.
  - intros t r. destruct (er_ended_at (in_execution r)); [rewrite Z.ltb_lt|]; naive_solver.
Qed.
End spec.

(** ** Pages *)

#[export] Instance latest_ended_first_laws `{P : Postgres} `{!PostgresLaws P} : KeyOrderLaws (option Z * string).
Proof.
  split; unfold comes_after; simpl.
  - intros [[t|] i]; unfold nullable_after; simpl; [exact (@comes_after_irrefl _ newest_first _ (t, i))|apply text_lt_irrefl].
  - intros [[t1|] i1] [[t2|] i2] [[t3|] i3]; unfold nullable_after; simpl; try done;
      [exact (@comes_after_trans _ newest_first _ (t1, i1) (t2, i2) (t3, i3))|apply text_lt_trans].
  - intros [[t|] i] [[t'|] i']; unfold nullable_after; simpl; auto.
    + destruct (@comes_after_total _ newest_first _ (t, i) (t', i')) as [?|[[= -> ->]|?]]; auto.
    + destruct (text_lt_total i i') as [?|[->|?]]; auto.
Qed.

Section pages.
Context `{J : JsonText} `{!JsonTextLaws J} `{Sha256} `{U : Utf8Text} `{!Utf8Laws U} `{P : Postgres} `{!PostgresLaws P}.

Lemma decode_encode_incident_cursor f t id :
  in_years t → id ≠ EmptyString →
  decodeIncidentCursor (encodeIncidentCursor f t id) f = Some (mkCursor (toISOString t) id).
Proof.
  intros Ht Hid. unfold decodeIncidentCursor, encodeIncidentCursor.
  rewrite cursor_object_encode by done. cbn [mbind option_bind]. set (o := [_; _; _; _]).
  assert (obj_get o "occurredAt" = Some (JStr (toISOString t)) ∧ obj_get o "id" = Some (JStr id) ∧
          obj_get o "filters" = Some (JStr (incidentFingerprint f)) ∧ is_one (obj_get o "v") = true)
    as (-> & -> & -> & ->) by done.
  rewrite toISOString_accepted, String.eqb_refl by done. by destruct id.
Qed.

Lemma incident_cursor_truthy f t id : truthy_str (encodeIncidentCursor f t id) = true.
Proof using JsonTextLaws0 Utf8Laws0. apply truthy_str_true, encode_text_nonempty, stringify_nonempty. Qed.

Definition item_cursor (f : IncidentFilters) (item : IncidentListItem) : string :=
  encodeIncidentCursor f (default 0 (il_occurredAt item)) (il_id item).

(** When every row has a time no cursor throws. *)
Lemma incident_page_total f limit rows :
  (0 < limit)%nat → (∀ r, r ∈ rows → is_Some (er_ended_at (in_execution r))) →
  incident_page f limit rows = page_of mapListItem (item_cursor f) limit rows.
Proof.
  intros Hl Hrows. unfold incident_page, page_of. set (items := take limit _).
  destruct (Nat.ltb_spec limit (length (mapListItem <$> rows))) as [Hlt|]; [|done].
  destruct (last items) as [item|] eqn:E.
  - assert (is_Some (il_occurredAt item)) as [t Ht].
    { apply last_Some_elem_of in E. unfold items in E. apply elem_of_take in E as (k & E & _).
      apply list_elem_of_lookup_2, list_elem_of_fmap in E as (r & -> & Hr). simpl. by apply fmap_is_Some, Hrows. }
    simpl. unfold item_cursor. by rewrite Ht.
  - apply last_None in E. unfold items in E. apply (f_equal length) in E. rewrite length_take in E. simpl in E. lia.
Qed.

Lemma select_in `{KeyOrder K} {A} (key : A → K) Q n l x : x ∈ select key Q n l → x ∈ l ∧ Q x = true.
Proof.
  unfold select. intros (k & E & _)%elem_of_take. apply list_elem_of_lookup_2 in E.
  by rewrite order_desc_perm, list_elem_of_In, List.filter_In, <- list_elem_of_In in E.
Qed.

Section follow.
Context (sn : Snapshot) (f : IncidentFilters) (size : option string) (limit : nat).
Context (Hf : validateIncidentFilters f = None) (Hsize : pageSize size = Some limit) (Hpk : primary_keys sn).
Context (Hrows : ∀ e, e ∈ db_executions (sn_db sn) → er_status e = "FAILED" →
  er_id e ≠ EmptyString ∧ ∃ t, er_ended_at e = Some t ∧ whole_ms t).
Context (Q : IncidentRow → bool) (HQ : means incident_test (incident_conditions f None) (λ r, Q r = true)).
Context (Hfailed : ∀ r, Q r = true → er_status (in_execution r) = "FAILED").

Lemma incident_time r :
  r ∈ incident_rows sn → Q r = true →
  er_id (in_execution r) ≠ EmptyString ∧ ∃ t, er_ended_at (in_execution r) = Some t ∧ whole_ms t.
Proof using Hrows Hfailed. intros Hr HQr. apply Hrows; [by apply incident_rows_in in Hr as [? _]|by apply Hfailed]. Qed.

Lemma incident_selected Q' n :
  (∀ r, Q' r = true → Q r = true) →
  incident_page f limit (select incident_key Q' n (incident_rows sn)) =
  page_of mapListItem (item_cursor f) limit (select incident_key Q' n (incident_rows sn)).
Proof using Hrows Hfailed Hsize.
  intros HQ'. apply incident_page_total; [apply pageSize_bounds in Hsize; lia|].
  intros r [Hr Hq]%select_in. destruct (incident_time r Hr (HQ' r Hq)) as (_ & t & -> & _). by eexists.
Qed.

Lemma incident_cursor_conditions x t :
  er_ended_at (in_execution x) = Some t → whole_ms t →
  means incident_test (incident_conditions f (Some (mkCursor (toISOString (js_date t)) (er_id (in_execution x)))))
    (λ r, Q r && comes_after (incident_key r) (incident_key x) = true).
Proof using HQ PostgresLaws0.
  intros Et Hms. pose proof (timestamptz_of_date t Hms) as Ht.
  refine (means_ext incident_test _ _ _ _ (means_cursor incident_test (incident_conditions f None) _ IAfterCursor
    (λ t id r, match er_ended_at (in_execution r) with
               | Some a => key_lt (a, er_id (in_execution r)) (t, id) | None => false end)
    (toISOString (js_date t)) t (er_id (in_execution x)) HQ _ Ht)); [|done].
  intros r. rewrite andb_true_iff. unfold comes_after, incident_key. simpl. unfold nullable_after. simpl. rewrite Et.
  by destruct (er_ended_at (in_execution r)).
Qed.

Lemma follow_incidents :
  ∃ rows, all_pages (S (length (incident_rows sn))) (list_incidents sn f size) None = Some (mapListItem <$> rows) ∧
    distinct incident_key rows ∧ StronglySorted (before incident_key) rows ∧ (∀ r, r ∈ rows ↔ r ∈ incident_rows sn ∧ Q r = true).
Proof using All.
  apply (keyset_pages incident_key (incident_rows sn) Q limit mapListItem (item_cursor f)).
  - apply pageSize_bounds in Hsize. lia.
  - apply distinct_filter, (distinct_by _ (λ r, er_id (in_execution r))); [|by apply incident_rows_nodup].
    unfold incident_key. by intros x y [= _ E].
  - unfold list_incidents, query_incidents. rewrite Hf, Hsize, (means_select _ _ _ _ _ _ HQ).
    by apply incident_selected.
  - intros x Hx HQx. destruct (incident_time x Hx HQx) as (Hid & t & Et & Hms).
    unfold list_incidents, item_cursor. simpl il_occurredAt. simpl il_id. rewrite Et. cbn [fmap option_fmap option_map default].
    rewrite Hf, Hsize, incident_cursor_truthy, decode_encode_incident_cursor by (done || apply Hms).
    cbn [fmap option_fmap option_map]. unfold query_incidents.
    rewrite (means_select _ _ _ _ _ _ (incident_cursor_conditions x t Et Hms)).
    apply incident_selected. by intros r [? _]%andb_true_iff.
Qed.
End follow.
End pages.

(** ** Properties *)

(** A row of the join that the conditions ask for is an incident. *)
Lemma incident_of_rows `{Postgres} sn f (Q : IncidentRow → bool) e :
  (∀ r, Q r = true ↔ (er_status (in_execution r) = "FAILED" ∧ ir_status (in_instance r) ≠ "CANCELLED") ∧
    (∀ s, given (if_definitionId f) s → ir_definition_id (in_instance r) = s) ∧
    (∀ s, given (if_jobType f) s → ∃ j, in_job r = Some j ∧ jr_job_type j = s) ∧
    (∀ s t, given (if_from f) s → timestamptz s = Some t → ∃ a, er_ended_at (in_execution r) = Some a ∧ t ≤ a) ∧
    (∀ s t, given (if_to f) s → timestamptz s = Some t → ∃ a, er_ended_at (in_execution r) = Some a ∧ a < t)) →
  (∃ r, in_execution r = e ∧ r ∈ incident_rows sn ∧ Q r = true) ↔ incident sn f e.
Proof.
  intros HQ. unfold incident. split.
  - intros (r & <- & (He & Hi & Hd & Hj & _)%incident_rows_in & ((Hs & Hc) & H1 & H2 & H3 & H4)%HQ).
    split_and!; [done|done|]. exists (in_instance r), (in_definition r). split_and!; try apply Hi; try apply Hd; [done|].
    split; try done. by rewrite <- Hj.
  - intros (He & Hs & i & d & Hi & Hid & Hc & Hd & Hdi & Hdv & [H1 H2 H3 H4]).
    destruct (latest_execution_exists _ _ He) as [l Hl].
    exists (mkIncidentRow e i d (related_job sn e) l). split; [done|]. split.
    + apply incident_rows_in. simpl. naive_solver.
    + apply HQ. simpl. naive_solver.
Qed.

(** The incidents endpoint lists the incidents: following its cursors returns
    each failed execution the filters ask for exactly once, the latest first,
    and marks as historical those that a later attempt of their step replaced,
    provided failed executions have ended at whole milliseconds. *)
Theorem incident_pages_cover `{J : JsonText} `{!JsonTextLaws J} `{Sha256} `{U : Utf8Text} `{!Utf8Laws U}
    `{P : Postgres} `{!PostgresLaws P} sn f size limit :
  validateIncidentFilters f = None → readable_incidents f → pageSize size = Some limit → primary_keys sn →
  (∀ e, e ∈ db_executions (sn_db sn) → er_status e = "FAILED" →
     er_id e ≠ EmptyString ∧ ∃ t, er_ended_at e = Some t ∧ whole_ms t) →
  ∃ rows, all_pages (S (length (incident_rows sn))) (list_incidents sn f size) None = Some (mapListItem <$> rows) ∧
    NoDup (in_execution <$> rows) ∧ StronglySorted (before incident_key) rows ∧
    (∀ e, e ∈ in_execution <$> rows ↔ incident sn f e) ∧
    (∀ r, r ∈ rows → il_id (mapListItem r) = er_id (in_execution r) ∧
       (il_historical (mapListItem r) = false ↔
        er_id <$> latest_execution (sn_db sn) (er_instance_id (in_execution r)) (er_step_id (in_execution r)) =
          Some (er_id (in_execution r)))).
Proof.
  intros Hf Hr Hs Hpk Hrows. destruct (incident_conditions_mean f Hr) as (tests & Hm & HQ).
  set (Q := λ r, forallb (λ t : IncidentRow → bool, t r) tests) in *.
  assert (means incident_test (incident_conditions f None) (λ r, Q r = true)) as HQ' by (by exists tests).
  assert (∀ r, Q r = true → er_status (in_execution r) = "FAILED") as Hfailed by (by intros r [[? _] _]%HQ).
  destruct (follow_incidents sn f size limit Hf Hs Hpk Hrows Q HQ' Hfailed) as (rows & Hp & Hnd & Hsort & Hin).
  exists rows. split_and!; [done| |done|..].
  - apply (NoDup_fmap_1 (λ e, (er_ended_at e, er_id e))). rewrite <- list_fmap_compose. exact Hnd.
  - intros e. rewrite <- (incident_of_rows sn f Q e HQ), list_elem_of_fmap. setoid_rewrite Hin. split.
    + intros (r & -> & Hrow). eauto.
    + intros (r & <- & Hrow). eauto.
  - intros r [(_ & _ & _ & _ & Hl)%incident_rows_in _]%Hin. rewrite Hl. simpl. split; [done|].
    rewrite negb_false_iff, String.eqb_eq. split; [by intros ->|by intros [= ->]].
Qed.

Definition no_incident_filters : IncidentFilters := mkIncidentFilters None None None None.

Lemma incident_detail_spec `{P : Postgres} sn id :
  primary_keys sn →
  (∀ d, incident_detail sn id = Some d →
     ∃ r, r ∈ incident_rows sn ∧ incident sn no_incident_filters (in_execution r) ∧ er_id (in_execution r) = id ∧
       id_item d = mapListItem r ∧ id_errorDetails d = er_failure_reason (in_execution r)) ∧
  (incident_detail sn id = None → ∀ e, incident sn no_incident_filters e → er_id e ≠ id).
Proof.
  intros Hpk. unfold incident_detail.
  pose (Q := λ r : IncidentRow, String.eqb (er_status (in_execution r)) "FAILED" &&
    negb (String.eqb (ir_status (in_instance r)) "CANCELLED")).
  assert (∀ e, (∃ r, in_execution r = e ∧ r ∈ incident_rows sn ∧ Q r = true) ↔ incident sn no_incident_filters e) as HQ.
  { intros e. apply incident_of_rows. intros r. unfold Q, given.
    rewrite andb_true_iff, negb_true_iff, String.eqb_eq, String.eqb_neq. simpl. split; [|by intros [? _]].
    intros ?. split; [done|]. split_and!; intros; destruct_and?; done. }
  destruct (List.filter _ (incident_rows sn)) as [|r rs] eqn:E; simpl.
  - split; [done|]. intros _ e (r & <- & Hr & Hq)%HQ Hid.
    assert (r ∈ @nil IncidentRow) as Hnil; [|by apply not_elem_of_nil in Hnil].
    rewrite <- E. apply in_filter. split; [done|]. rewrite Hid, String.eqb_refl. exact Hq.
  - split; [|done]. intros d [= <-]. simpl.
    assert (r ∈ r :: rs) as Hr by (by left). rewrite <- E in Hr. apply in_filter in Hr as [Hr Hq].
    rewrite <- andb_assoc, andb_true_iff, String.eqb_eq in Hq. destruct Hq as [Hid Hq].
    exists r. split_and!; try done. apply HQ. eauto.
Qed.

(** The detail page of an incident exists exactly when the unfiltered list has
    an incident of that id, and its header is the same item the list shows. *)
Theorem incident_detail_iff `{P : Postgres} sn id :
  primary_keys sn →
  (∀ d, incident_detail sn id = Some d →
     ∃ r, r ∈ incident_rows sn ∧ incident sn no_incident_filters (in_execution r) ∧ er_id (in_execution r) = id ∧
       id_item d = mapListItem r ∧ id_errorDetails d = er_failure_reason (in_execution r)) ∧
  (incident_detail sn id = None → ∀ e, incident sn no_incident_filters e → er_id e ≠ id).
Proof. apply incident_detail_spec. Qed.

(** ** Witnesses *)

#[local] Instance plain_hash : Sha256 := {| sha256_base64url := λ s, s |}.

#[local] Existing Instances model_postgres model_postgres_laws.

Definition failed_execution (id step : string) (attempt : Z) (ended : option Z) : StepExecutionRow :=
  mkExecutionRow id "i" step "SERVICE_TASK" attempt "FAILED" 0 ended (Some "boom") None None.

(** A step that failed twice and another one that failed once. *)
Definition incident_sample (ended : option Z) : Snapshot :=
  mkSnapshot (mkDatabase [mkInstanceRow "i" "order" 1 "FAILED" ["pay"] 0 None None None JNull]
      [failed_execution "e1" "pay" 1 (Some 1709210096787000);
       failed_execution "e2" "pay" 2 ended;
       failed_execution "e3" "ship" 1 (Some 1709210096789000)])
    [mkJobRow "j" "i" "e1" "charge" "FAILED" None None None 0 0] [] [] [mkDefinitionRow "order" 1 "Order" []].

Lemma incident_sample_keys ended : primary_keys (incident_sample ended).
Proof. split; apply (bool_decide_unpack _); vm_compute; exact I. Qed.

Lemma incident_pages_cover_witness :
  ∃ rows, all_pages 4 (list_incidents (incident_sample (Some 1709210096788000)) no_incident_filters (Some "2")) None =
    Some (mapListItem <$> rows) ∧ NoDup (in_execution <$> rows).
Proof.
  destruct (incident_pages_cover (incident_sample (Some 1709210096788000)) no_incident_filters (Some "2") 2)
    as (rows & Hp & Hn & _).
  - reflexivity.
  - intros o s Ho [-> _]. exfalso. apply list_elem_of_In in Ho. simpl in Ho. destruct Ho as [?|[?|[]]]; discriminate.
  - reflexivity.
  - apply incident_sample_keys.
  - intros e He _. apply list_elem_of_In in He. unfold whole_ms, in_years.
    destruct He as [<-|[<-|[<-|[]]]]; (split; [discriminate|]; eexists; split; [reflexivity|];
      vm_compute; repeat split; discriminate).
  - exists rows. split; [exact Hp|exact Hn].
Defined.

Lemma incident_detail_iff_witness :
  ∃ d, incident_detail (incident_sample None) "e1" = Some d ∧ il_historical (id_item d) = true ∧
    ∃ r, r ∈ incident_rows (incident_sample None) ∧ id_item d = mapListItem r.
Proof.
  destruct (incident_detail_iff (incident_sample None) "e1" (incident_sample_keys None)) as [H _].
  eexists. split; [reflexivity|]. split; [reflexivity|].
  destruct (H _ eq_refl) as (r & Hr & _ & _ & E & _). exists r. split; [exact Hr|exact E].
Defined.

(** A failed execution without an end time breaks the list: the row stands
    first, and the page that ends with it answers with an internal error, since
    its cursor is made of a time that is absent. *)
Theorem incident_without_end_breaks_page :
  list_incidents (incident_sample None) no_incident_filters (Some "1") None = InternalError ∧
  incident (incident_sample None) no_incident_filters (failed_execution "e2" "pay" 2 None).
Proof.
  split; [vm_compute; reflexivity|]. unfold incident. split_and!.
  - apply list_elem_of_In. simpl. auto.
  - done.
  - eexists _, _. split_and!; try by left. all: try done. by split; try intros s [? _]; try intros s t [? _].
Qed.
