(* ===== verification/Overview.v ===== *)
(** * The overview (workflow-monitor-bff/src/modules/overview/overview.queries.ts)

    Counts of the retained instances by definition and version, and of the
    live instances by current step, in pages.  A parameter of the request is a
    text or something else ([?a[]=b]); the case mapping of the database is its
    own. *)

From stdpp Require Import sorting pretty.
From S2P Require Import Prelude JsObject Peg Schema ImportExport Utc Cursor Paging Instances Context Executions.

#[local] Open Scope Z_scope.

Inductive QueryValue := QText (s : string) | QOther.

Record OverviewQuery := mkOverviewQuery {
  oq_cursor : option QueryValue;
  oq_pageSize : option QueryValue;
  oq_workflow : option QueryValue;
  oq_definitionId : option QueryValue;
  oq_definitionVersion : option QueryValue;
  oq_minStepAgeSeconds : option QueryValue
}.

Record DefinitionCount := mkDefinitionCount {
  dc_definitionId : string;
  dc_definitionVersion : Z;
  dc_name : string;
  dc_active : nat;
  dc_waiting : nat;
  dc_failed : nat
}.

Record StepCount := mkStepCount {
  sc_stepId : string;
  sc_instances : nat;
  sc_aged : nat;
  sc_ageUnavailable : nat
}.

(** [lower] of the database. *)
Class SqlText := { sql_lower : string → string }.

(** [strpos(s, sub) > 0] *)
Definition strpos_found (s sub : string) : bool := bool_decide (is_Some (String.index 0 sub s)).

(** ** Parameters *)

(** A value, or the message of the [BadRequestException]. *)
Abbreviation Checked A := (string + A)%type.

Definition MAX_SAFE_INTEGER : Z := 9007199254740991.

(** [Number(value)] of a text of digits is exact up to [MAX_SAFE_INTEGER]. *)
Definition positiveInteger (value : option QueryValue) (fallback maximum : Z) (name : string) : Checked Z :=
  let bad := inl (name ⊕ " must be an integer between 1 and " ⊕ pretty maximum) in
  match (match value with
         | None => Some fallback
         | Some (QText s) => if all_digits s then Some (digits_value s) else None
         | Some QOther => None
         end) with
  | Some number =>
      if (MAX_SAFE_INTEGER <? number) || (number <? 1) || (maximum <? number) then bad else inr number
  | None => bad
  end.

(** ** The tables, grouped *)

(** [ORDER BY "definitionId", "definitionVersion"] *)
Definition group_key (i : ProcessInstanceRow) : string * Z := (ir_definition_id i, ir_definition_version i).

Definition count_status (status : string) (l : list ProcessInstanceRow) : nat :=
  length (List.filter (λ i, String.eqb (ir_status i) status) l).

Section overview.
Context `{Postgres} `{SqlText}.

(** [(k.1, k.2) > (k'.1, k'.2)] *)
Definition definition_after (k k' : string * Z) : bool :=
  text_lt k'.1 k.1 || String.eqb k.1 k'.1 && (k'.2 <? k.2).

#[export] Instance by_definition : KeyOrder (string * Z) := {| comes_after := definition_after |}.

(** The counts of one group of the counted rows. *)
Definition group_counts (counted : list ProcessInstanceRow) (k : string * Z) : nat * nat * nat :=
  let group := List.filter (λ i, bool_decide (group_key i = k)) counted in
  (count_status "ACTIVE" group, count_status "WAITING" group, count_status "FAILED" group).

(** [LEFT JOIN workflow_definition]: the names of a group, or none. *)
Definition group_names (defs : list DefinitionRow) (k : string * Z) : list (option string) :=
  match List.filter (λ d, bool_decide ((df_id d, df_version d) = k)) defs with
  | [] => [None]
  | ds => (λ d, Some (df_name d)) <$> ds
  end.

(** The [WHERE] of the page. *)
Definition search_matches (workflow id : string) (name : option string) : bool :=
  String.eqb workflow EmptyString || strpos_found (sql_lower id) (sql_lower workflow) ||
  match name with Some n => strpos_found (sql_lower n) (sql_lower workflow) | None => false end.

Definition definition_rows (sn : Snapshot) (counted : list ProcessInstanceRow) (workflow : string) : list DefinitionCount :=
  k ← remove_dups (group_key <$> counted);
  name ← List.filter (search_matches workflow k.1) (group_names (sn_definitions sn) k);
  let '(active, waiting, failed) := group_counts counted k in
  [mkDefinitionCount k.1 k.2 (default k.1 name) active waiting failed].

Definition count_key (c : DefinitionCount) : string * Z := (dc_definitionId c, dc_definitionVersion c).

Definition query_definitions (sn : Snapshot) (after : string * Z) (limit : nat) (workflow : string) : list DefinitionCount :=
  let counted := List.filter (λ i, String.eqb after.1 EmptyString || comes_after (group_key i) after)
                   (db_instances (sn_db sn)) in
  select count_key (λ _, true) limit (definition_rows sn counted workflow).

(** An instance at one of its current steps, with the latest execution there. *)
Definition step_rows (db : Database) (definitionId : string) (version : Z) (afterStep : string) :
    list (ProcessInstanceRow * string * option StepExecutionRow) :=
  i ← List.filter (λ i, String.eqb (ir_definition_id i) definitionId && (ir_definition_version i =? version) &&
                        includes ["ACTIVE"; "WAITING"] (ir_status i)) (db_instances db);
  (λ s, (i, s, latest_execution db (ir_id i) s)) <$>
    List.filter (λ s, String.eqb afterStep EmptyString || text_lt afterStep s) (ir_current_step_ids i).

Abbreviation StepRow := (ProcessInstanceRow * string * option StepExecutionRow)%type.

(** [count(DISTINCT i.id) FILTER (WHERE P)] in the group of a step. *)
Definition count_instances (rows : list StepRow) (step : string) (P : option StepExecutionRow → bool) : nat :=
  length (remove_dups ((λ r : StepRow, ir_id r.1.1) <$> List.filter (λ r, String.eqb r.1.2 step && P r.2) rows)).

Definition running (e : option StepExecutionRow) : bool :=
  match e with Some e => String.eqb (er_status e) "RUNNING" | None => false end.

Definition started_before (cutoff : Z) (e : option StepExecutionRow) : bool :=
  match e with Some e => er_started_at e <? cutoff | None => false end.

Definition step_count (rows : list StepRow) (cutoff : Z) (step : string) : StepCount :=
  mkStepCount step (count_instances rows step (λ _, true))
    (count_instances rows step (λ e, running e && started_before cutoff e))
    (count_instances rows step (λ e, negb (running e))).

(** The cutoff at the time of the transaction, in microseconds. *)
Definition step_cutoff (now age : Z) : Z := now - age * 1000000.

#[local] Existing Instance alphabetical.

Definition query_steps (sn : Snapshot) (now : Z) (definitionId : string) (version age : Z) (afterStep : string)
    (limit : nat) : list StepCount :=
  let rows := step_rows (sn_db sn) definitionId version afterStep in
  select sc_stepId (λ _, true) limit
    (step_count rows (step_cutoff now age) <$> remove_dups ((λ r : StepRow, r.1.2) <$> rows)).
End overview.

(** ** Endpoints *)

(** What an observation returns besides its page: the time it was made and, for
    the steps, the cutoff, as the driver's [Date]s. *)
Record Observation A := mkObservation {
  ob_observedAt : Z;
  ob_stepStartedBefore : option Z;
  ob_items : list A;
  ob_nextCursor : option string
}.
#[global] Arguments mkObservation {_} _ _ _ _.
#[global] Arguments ob_observedAt {_} _.
#[global] Arguments ob_stepStartedBefore {_} _.
#[global] Arguments ob_items {_} _.
#[global] Arguments ob_nextCursor {_} _.

Section endpoints.
Context `{JsonText} `{Utf8Text} `{Postgres} `{SqlText}.

Definition encodeOverviewCursor (scope id : string) (version : Z) : string :=
  encode_text (JSON_stringify (JObj [
    ("v", JNum (num_of_Z 1)); ("scope", JStr scope); ("id", JStr id); ("version", JNum (num_of_Z version))])).

(** A JSON number that is an integer. *)
Definition num_to_Z (n : jsnum) : option Z :=
  if 0 <=? expo n then Some (mant n * 2 ^ expo n)
  else if mant n mod 2 ^ (- expo n) =? 0 then Some (mant n / 2 ^ (- expo n)) else None.

Definition decodeOverviewCursor (value : option QueryValue) (scope : string) : Checked (string * Z) :=
  match value with
  | None => inr (EmptyString, 0)
  | Some v =>
      match (
        match v with
        | QText text =>
            o ← cursor_object text;
            match obj_get o "scope", obj_get o "id", obj_get o "version" with
            | Some (JStr sc), Some (JStr id), Some (JNum n) =>
                version ← num_to_Z n;
                if String.eqb sc scope && is_one (obj_get o "v") && truthy_str id &&
                   (version <=? MAX_SAFE_INTEGER) && (0 <=? version) && (version <=? 2147483647)
                then Some (id, version) else None
            | _, _, _ => None
            end
        | QOther => None
        end) with
      | Some c => inr c
      | None => inl "Invalid Overview cursor"
      end
  end.

Definition definitions_scope (workflow : string) : string :=
  if truthy_str workflow then JSON_stringify (JArr [JStr "definitions"; JStr workflow]) else "definitions".

Definition definitions (sn : Snapshot) (now : Z) (query : OverviewQuery) : Checked (Observation DefinitionCount) :=
  match positiveInteger (oq_pageSize query) 50 100 "Page size" with
  | inl e => inl e
  | inr limit =>
      match oq_workflow query with
      | Some QOther => inl "Workflow search must be a string"
      | w =>
          let workflow := match w with Some (QText s) => js_trim s | _ => EmptyString end in
          let scope := definitions_scope workflow in
          match decodeOverviewCursor (oq_cursor query) scope with
          | inl e => inl e
          | inr after =>
              let rows := query_definitions sn after (S (Z.to_nat limit)) workflow in
              let items := take (Z.to_nat limit) rows in
              inr (mkObservation (js_date now) None items
                (if Nat.ltb (Z.to_nat limit) (length rows)
                 then (λ l, encodeOverviewCursor scope (dc_definitionId l) (dc_definitionVersion l)) <$> last items
                 else None))
          end
      end
  end.

Definition steps_scope (definitionId : string) (version age : Z) : string :=
  JSON_stringify (JArr [JStr definitionId; JNum (num_of_Z version); JNum (num_of_Z age)]).

Definition steps (sn : Snapshot) (now : Z) (query : OverviewQuery) : Checked (Observation StepCount) :=
  match oq_definitionId query, oq_definitionVersion query with
  | Some (QText definitionId), Some v =>
      if negb (truthy_str definitionId) then inl "Definition ID and version are required"
      else
        match positiveInteger (Some v) 1 2147483647 "Definition version" with
        | inl e => inl e
        | inr version =>
            match positiveInteger (oq_minStepAgeSeconds query) 1800 2147483647 "Minimum step age" with
            | inl e => inl e
            | inr age =>
                match positiveInteger (oq_pageSize query) 50 100 "Page size" with
                | inl e => inl e
                | inr limit =>
                    let scope := steps_scope definitionId version age in
                    match decodeOverviewCursor (oq_cursor query) scope with
                    | inl e => inl e
                    | inr (afterStep, _) =>
                        let rows := query_steps sn now definitionId version age afterStep (S (Z.to_nat limit)) in
                        let items := take (Z.to_nat limit) rows in
                        inr (mkObservation (js_date now) (Some (js_date (step_cutoff now age))) items
                          (if Nat.ltb (Z.to_nat limit) (length rows)
                           then (λ l, encodeOverviewCursor scope (sc_stepId l) 0) <$> last items else None))
                    end
                end
            end
        end
  | _, _ => inl "Definition ID and version are required"
  end.
End endpoints.
