(* ===== verification/OverviewProps.v ===== *)
(** * What the overview counts

    The condition of the cursor stands inside the grouping; filtering before
    or after it is the same, so the pages cover the groups.  Each count is the
    number of instances it names, and the list endpoint finds the same ones. *)

From stdpp Require Import sorting.
From S2P Require Import Prelude JsObject Peg Schema ImportExport Utc Cursor Paging Conditions Instances InstancesProps Context Executions Incidents IncidentsProps Overview.

#[local] Open Scope Z_scope.

(** ** Filtering groups *)

Section groups.
Context {A B K : Type} `{EqDecision K} (key : A → K) (P : K → bool).

Lemma remove_dups_filter l :
  remove_dups (key <$> List.filter (λ x, P (key x)) l) = List.filter P (remove_dups (key <$> l)).
Proof.
  induction l as [|x l IH]; [done|]. cbn [List.filter]. rewrite fmap_cons. destruct (P (key x)) eqn:E; cbn [remove_dups].
  - rewrite fmap_cons. cbn [remove_dups]. assert (key x ∈ key <$> List.filter (λ x, P (key x)) l ↔ key x ∈ key <$> l) as Hiff.
    { rewrite !list_elem_of_fmap. setoid_rewrite in_filter. split.
      - intros (y & Ey & Hy & _). eauto.
      - intros (y & Ey & Hy). exists y. split_and!; [done|done|congruence]. }
    destruct (decide_rel elem_of (key x) (key <$> List.filter (λ x, P (key x)) l)) as [Hin|Hin],
      (decide_rel elem_of (key x) (key <$> l)) as [Hin'|Hin']; try (exfalso; tauto); [exact IH|simpl; rewrite E; f_equal; exact IH].
  - destruct (decide_rel elem_of (key x) (key <$> l)); [done|]. simpl. rewrite E. exact IH.
Qed.

(** A filter on what comes out of a bind whose rows carry their key. *)
Lemma bind_filter (g : K → list B) (g' : K → list B) (key' : B → K) ks :
  (∀ k y, y ∈ g k → key' y = k) → (∀ k, P k = true → g' k = g k) →
  List.filter P ks ≫= g' = List.filter (λ y, P (key' y)) (ks ≫= g).
Proof.
  intros Hk Hg. induction ks as [|k ks IH]; [done|]. rewrite bind_cons, List.filter_app, <- IH. cbn [List.filter].
  assert (List.filter (λ y, P (key' y)) (g k) = if P k then g k else []) as ->.
  { specialize (Hk k). induction (g k) as [|y ys IHy]; simpl; [by destruct (P k)|]. rewrite Hk by (by left).
    rewrite IHy by (intros; apply Hk; by right). by destruct (P k). }
  destruct (P k) eqn:E; [|done]. by rewrite bind_cons, Hg.
Qed.

Lemma filter_filter_key l k :
  P k = true →
  List.filter (λ x, bool_decide (key x = k)) (List.filter (λ x, P (key x)) l) = List.filter (λ x, bool_decide (key x = k)) l.
Proof.
  intros HP. induction l as [|x l IH]; simpl; [done|]. destruct (P (key x)) eqn:E; simpl; rewrite IH.
  - done.
  - case_bool_decide as Ek; [|done]. rewrite Ek in E. congruence.
Qed.
End groups.

#[export] Instance by_definition_laws `{L : Postgres} `{!PostgresLaws L} : KeyOrderLaws (string * Z).
Proof.
  assert (∀ k k', definition_after k k' = true ↔ text_lt k'.1 k.1 = true ∨ k.1 = k'.1 ∧ k'.2 < k.2) as Hs.
  { intros k k'. unfold definition_after. by rewrite orb_true_iff, andb_true_iff, String.eqb_eq, Z.ltb_lt. }
  split; unfold comes_after; simpl.
  - intros k. apply not_true_iff_false. rewrite Hs, text_lt_irrefl. intros [?|[_ ?]]; [done|lia].
  - intros k1 k2 k3. rewrite !Hs. intros [H1|[E1 H1]] [H2|[E2 H2]].
    + left. by eapply text_lt_trans.
    + left. by rewrite <- E2.
    + left. by rewrite E1.
    + right. split; [congruence|lia].
  - intros [a n] [b m]. rewrite !Hs. simpl. destruct (text_lt_total a b) as [?|[->|?]]; auto.
    destruct (Z.lt_trichotomy n m) as [?|[->|?]]; auto.
Qed.

(** ** Cursors and parameters *)

Section cursors.
Context `{J : JsonText} `{!JsonTextLaws J} `{U : Utf8Text} `{!Utf8Laws U}.

Lemma decode_encode_overview_cursor scope id version :
  id ≠ EmptyString → 0 ≤ version ≤ 2147483647 →
  decodeOverviewCursor (Some (QText (encodeOverviewCursor scope id version))) scope = inr (id, version).
Proof.
  intros Hid Hv. unfold decodeOverviewCursor, encodeOverviewCursor.
  rewrite cursor_object_encode by done. cbn [mbind option_bind]. set (o := [_; _; _; _]).
  assert (obj_get o "scope" = Some (JStr scope) ∧ obj_get o "id" = Some (JStr id) ∧
          obj_get o "version" = Some (JNum (num_of_Z version)) ∧ is_one (obj_get o "v") = true)
    as (-> & -> & -> & ->) by done.
  assert (num_to_Z (num_of_Z version) = Some version) as ->.
  { unfold num_to_Z. simpl. change (2 ^ 0) with 1. f_equal. lia. }
  cbn [mbind option_bind]. apply truthy_str_true in Hid. rewrite String.eqb_refl, Hid. unfold MAX_SAFE_INTEGER.
  repeat match goal with |- context [?a <=? ?b] => destruct (Z.leb_spec a b); [|lia] end. done.
Qed.
End cursors.

Lemma positiveInteger_bounds v fallback maximum name n :
  positiveInteger v fallback maximum name = inr n → 1 ≤ n ≤ maximum.
Proof.
  unfold positiveInteger. destruct (match v with None => _ | Some _ => _ end) as [k|]; [|done].
  destruct (Z.ltb_spec MAX_SAFE_INTEGER k); [done|]. destruct (Z.ltb_spec k 1); [done|].
  destruct (Z.ltb_spec maximum k); [done|]. simpl. intros [= <-]. lia.
Qed.

(** The endpoint as pages. *)
Definition overview_page {A} (c : Checked (Observation A)) : ListResult A :=
  match c with inl e => BadRequest e | inr o => Page (ob_items o) (ob_nextCursor o) end.

Definition with_cursor (q : OverviewQuery) (cursor : option string) : OverviewQuery :=
  mkOverviewQuery (QText <$> cursor) (oq_pageSize q) (oq_workflow q) (oq_definitionId q) (oq_definitionVersion q)
    (oq_minStepAgeSeconds q).

(** ** Definitions *)

Section definitions.
Context `{L : Postgres} `{!PostgresLaws L} `{SqlText} (sn : Snapshot).

Lemma definition_rows_key counted workflow k c :
  c ∈ (name ← List.filter (search_matches workflow k.1) (group_names (sn_definitions sn) k);
       let '(active, waiting, failed) := group_counts counted k in
       [mkDefinitionCount k.1 k.2 (default k.1 name) active waiting failed]) →
  count_key c = k.
Proof.
  intros (name & Hc & _)%list_elem_of_bind. unfold group_counts in Hc. apply list_elem_of_singleton in Hc as ->.
  by destruct k.
Qed.

Lemma definition_rows_filter (P : string * Z → bool) workflow l :
  definition_rows sn (List.filter (λ i, P (group_key i)) l) workflow =
  List.filter (λ c, P (count_key c)) (definition_rows sn l workflow).
Proof.
  unfold definition_rows. rewrite remove_dups_filter.
  apply (bind_filter P (λ k, name ← List.filter (search_matches workflow k.1) (group_names (sn_definitions sn) k);
    let '(active, waiting, failed) := group_counts l k in
    [mkDefinitionCount k.1 k.2 (default k.1 name) active waiting failed]) _ count_key).
  - intros k c. apply definition_rows_key.
  - intros k Hk. unfold group_counts. by rewrite filter_filter_key.
Qed.

Lemma group_names_length k :
  NoDup ((λ d, (df_id d, df_version d)) <$> sn_definitions sn) → (length (group_names (sn_definitions sn) k) ≤ 1)%nat.
Proof.
  intros Hnd. unfold group_names.
  pose proof (filter_key_length (λ d, (df_id d, df_version d)) (λ d, bool_decide ((df_id d, df_version d) = k)) k
    (sn_definitions sn) Hnd) as Hl.
  destruct (List.filter _ (sn_definitions sn)); simpl in *; [lia|]. rewrite length_fmap. apply Hl.
  intros x. apply bool_decide_eq_true.
Qed.

Lemma definition_rows_distinct l workflow :
  NoDup ((λ d, (df_id d, df_version d)) <$> sn_definitions sn) → distinct count_key (definition_rows sn l workflow).
Proof.
  intros Hnd. apply (bind_nodup _ count_key id).
  - rewrite list_fmap_id. apply NoDup_remove_dups.
  - intros k. apply bind_length; [|intros name; unfold group_counts; simpl; lia].
    etrans; [apply List.filter_length_le|by apply group_names_length].
  - intros k c. apply definition_rows_key.
Qed.

(** What a row of the groups says. *)
Definition search_hit (workflow : string) (k : string * Z) : Prop :=
  workflow = EmptyString ∨ strpos_found (sql_lower k.1) (sql_lower workflow) = true ∨
  ∃ d, d ∈ sn_definitions sn ∧ (df_id d, df_version d) = k ∧
    strpos_found (sql_lower (df_name d)) (sql_lower workflow) = true.

Definition having (k : string * Z) (status : string) (l : list ProcessInstanceRow) : nat :=
  length (filter (λ i, group_key i = k ∧ ir_status i = status) l).

Lemma count_having k status l :
  count_status status (List.filter (λ i, bool_decide (group_key i = k)) l) = having k status l.
Proof.
  unfold count_status, having. rewrite <- filter_filter_and. f_equal. apply filter_bool. intros i.
  by rewrite andb_true_iff, bool_decide_eq_true, String.eqb_eq.
Qed.

Lemma group_name_in k name :
  name ∈ group_names (sn_definitions sn) k ↔
  match name with
  | Some n => ∃ d, d ∈ sn_definitions sn ∧ (df_id d, df_version d) = k ∧ df_name d = n
  | None => ∀ d, d ∈ sn_definitions sn → (df_id d, df_version d) ≠ k
  end.
Proof.
  unfold group_names.
  assert (∀ d, d ∈ List.filter (λ d, bool_decide ((df_id d, df_version d) = k)) (sn_definitions sn) ↔
    d ∈ sn_definitions sn ∧ (df_id d, df_version d) = k) as Hin by (intros d; by rewrite in_filter, bool_decide_eq_true).
  destruct (List.filter _ (sn_definitions sn)) as [|d ds].
  - rewrite list_elem_of_singleton. destruct name as [n|]; split; try done.
    + intros (d & Hd & Hk & _). by destruct (proj1 (elem_of_nil d) (proj2 (Hin d) (conj Hd Hk))).
    + intros _ d Hd Hk. by destruct (proj1 (elem_of_nil d) (proj2 (Hin d) (conj Hd Hk))).
  - rewrite list_elem_of_fmap. destruct name as [n|]; split.
    + intros (d' & [= ->] & Hd'). exists d'. apply Hin in Hd' as [? ?]. done.
    + intros (d' & Hd' & Hk & <-). exists d'. split; [done|]. by apply Hin.
    + intros (d' & ? & _). done.
    + intros Hno. exfalso. assert (d ∈ d :: ds) as Hd by (by left). apply Hin in Hd as [Hd Hk]. by apply (Hno d).
Qed.

Lemma definition_row_in l workflow c :
  c ∈ definition_rows sn l workflow →
  (∃ i, i ∈ l ∧ group_key i = count_key c) ∧ search_hit workflow (count_key c) ∧
  dc_active c = having (count_key c) "ACTIVE" l ∧ dc_waiting c = having (count_key c) "WAITING" l ∧
  dc_failed c = having (count_key c) "FAILED" l.
Proof.
  unfold definition_rows. intros (k & Hc & Hk)%list_elem_of_bind. pose proof (definition_rows_key _ _ _ _ Hc) as Ek.
  rewrite Ek. apply elem_of_remove_dups, list_elem_of_fmap in Hk as (i & Ei & Hi).
  apply list_elem_of_bind in Hc as (name & Hc & [Hname Hs]%in_filter).
  unfold group_counts in Hc. apply list_elem_of_singleton in Hc as ->. simpl. rewrite !count_having.
  split_and!; [eauto| |done..]. unfold search_matches in Hs. rewrite !orb_true_iff, String.eqb_eq in Hs.
  unfold search_hit. destruct Hs as [[?|?]|Hs]; [auto..|]. right. right.
  destruct name as [n|]; [|done]. apply group_name_in in Hname as (d & Hd & Hdk & <-). eauto.
Qed.

Lemma definition_row_exists l workflow i :
  i ∈ l → search_hit workflow (group_key i) → ∃ c, c ∈ definition_rows sn l workflow ∧ count_key c = group_key i.
Proof.
  intros Hi Hs.
  assert (∃ name, name ∈ List.filter (search_matches workflow (group_key i).1) (group_names (sn_definitions sn) (group_key i)))
    as [name Hname].
  { assert (∃ name, name ∈ group_names (sn_definitions sn) (group_key i)) as [name Hname].
    { unfold group_names. destruct (List.filter _ _) as [|d ds]; eexists; [by left|apply list_elem_of_fmap_2; by left]. }
    unfold search_hit in Hs. destruct Hs as [Hw|[Hs|(d & Hd & Hk & Hs)]].
    - exists name. apply in_filter. split; [done|]. unfold search_matches. by rewrite Hw.
    - exists name. apply in_filter. split; [done|]. unfold search_matches. by rewrite Hs, orb_true_r.
    - exists (Some (df_name d)). apply in_filter. split; [apply group_name_in; eauto|].
      unfold search_matches. by rewrite Hs, orb_true_r. }
  eexists. split.
  - unfold definition_rows. apply list_elem_of_bind. exists (group_key i). split.
    + apply list_elem_of_bind. exists name. split; [unfold group_counts; by left|exact Hname].
    + apply elem_of_remove_dups. by apply list_elem_of_fmap_2.
  - by destruct (group_key i).
Qed.
End definitions.

(** ** Properties *)

(** The search of a request: the text without surrounding space. *)
Definition search_text (q : OverviewQuery) : string :=
  match oq_workflow q with Some (QText s) => js_trim s | _ => EmptyString end.

Lemma select_id {A} `{KeyOrder K} (key : A → K) P n l :
  select key (λ _, true) n (List.filter P l) = select key P n l.
Proof. unfold select. do 2 f_equal. induction (List.filter P l) as [|x r IH]; simpl; [done|by rewrite IH]. Qed.

Lemma page_of_id {A} (cursor : A → string) limit (rows : list A) :
  page_of id cursor limit rows =
  Page (take limit rows) (if Nat.ltb limit (length rows) then cursor <$> last (take limit rows) else None).
Proof. unfold page_of. by rewrite list_fmap_id. Qed.

Section definitions_pages.
Context `{J : JsonText} `{!JsonTextLaws J} `{U : Utf8Text} `{!Utf8Laws U} `{L : Postgres} `{!PostgresLaws L} `{SqlText}.
Context (sn : Snapshot) (now : Z) (q : OverviewQuery) (limit : Z).
Context (Hsize : positiveInteger (oq_pageSize q) 50 100 "Page size" = inr limit) (Hw : oq_workflow q ≠ Some QOther).

Abbreviation scope := (definitions_scope (search_text q)).
Abbreviation cursor_of := (λ c, encodeOverviewCursor scope (dc_definitionId c) (dc_definitionVersion c)).

(** The page a decoded cursor serves. *)
Lemma definitions_page c after :
  decodeOverviewCursor (QText <$> c) scope = inr after →
  overview_page (definitions sn now (with_cursor q c)) =
  page_of id cursor_of (Z.to_nat limit) (query_definitions sn after (S (Z.to_nat limit)) (search_text q)).
Proof using Hsize Hw.
  intros Hd. rewrite page_of_id. unfold definitions, with_cursor. simpl. rewrite Hsize.
  unfold search_text in *. by destruct (oq_workflow q) as [[s|]|]; [rewrite Hd|congruence|rewrite Hd].
Qed.

Lemma query_definitions_after after n :
  after.1 ≠ EmptyString →
  query_definitions sn after n (search_text q) =
  select count_key (λ c, comes_after (count_key c) after) n (definition_rows sn (db_instances (sn_db sn)) (search_text q)).
Proof.
  intros Ha. apply String.eqb_neq in Ha. unfold query_definitions. rewrite Ha. cbn [orb].
  rewrite (definition_rows_filter sn (λ k, comes_after k after)). apply select_id.
Qed.

Lemma query_definitions_all n :
  query_definitions sn (EmptyString, 0) n (search_text q) =
  select count_key (λ _, true) n (definition_rows sn (db_instances (sn_db sn)) (search_text q)).
Proof. unfold query_definitions. simpl. rewrite List.forallb_filter_id; [done|]. by apply List.forallb_forall. Qed.

Lemma definition_pages :
  NoDup ((λ d, (df_id d, df_version d)) <$> sn_definitions sn) →
  (∀ i, i ∈ db_instances (sn_db sn) → ir_definition_id i ≠ EmptyString ∧ 0 ≤ ir_definition_version i ≤ 2147483647) →
  let rows := definition_rows sn (db_instances (sn_db sn)) (search_text q) in
  ∃ items, all_pages (S (length rows)) (λ c, overview_page (definitions sn now (with_cursor q c))) None = Some items ∧
    distinct count_key items ∧ StronglySorted (before count_key) items ∧ (∀ c, c ∈ items ↔ c ∈ rows).
Proof using All.
  intros Hnd Hids rows.
  destruct (keyset_pages count_key rows (λ _, true) (Z.to_nat limit) id cursor_of
    (λ c, overview_page (definitions sn now (with_cursor q c)))) as (items & Hp & Hd & Hs & Hin).
  - apply positiveInteger_bounds in Hsize. lia.
  - apply distinct_filter. by apply definition_rows_distinct.
  - rewrite (definitions_page None (EmptyString, 0) eq_refl). by rewrite query_definitions_all.
  - intros x Hx _. unfold rows in Hx. destruct (definition_row_in _ _ _ _ Hx) as ((i & Hi & Ek) & _).
    destruct (Hids i Hi) as [Hne Hv]. unfold group_key, count_key in Ek. injection Ek as E1 E2.
    rewrite (definitions_page (Some _) (count_key x)).
    + rewrite query_definitions_after by (simpl; congruence). done.
    + unfold id. cbn [fmap option_fmap option_map]. apply decode_encode_overview_cursor; [by rewrite <- E1|by rewrite <- E2].
  - exists items. rewrite list_fmap_id in Hp. split_and!; [done..|]. intros c. rewrite Hin. naive_solver.
Qed.
End definitions_pages.

(** The overview counts every retained instance: following its cursors lists
    each definition version that has instances and that the search finds,
    exactly once, in order, and its three counts are the numbers of its
    instances with these statuses. *)
Theorem definitions_pages_cover `{J : JsonText} `{!JsonTextLaws J} `{U : Utf8Text} `{!Utf8Laws U}
    `{L : Postgres} `{!PostgresLaws L} `{SqlText} sn now q limit :
  positiveInteger (oq_pageSize q) 50 100 "Page size" = inr limit → oq_workflow q ≠ Some QOther →
  NoDup ((λ d, (df_id d, df_version d)) <$> sn_definitions sn) →
  (∀ i, i ∈ db_instances (sn_db sn) → ir_definition_id i ≠ EmptyString ∧ 0 ≤ ir_definition_version i ≤ 2147483647) →
  ∃ fuel items, all_pages fuel (λ c, overview_page (definitions sn now (with_cursor q c))) None = Some items ∧
    NoDup (count_key <$> items) ∧ StronglySorted (before count_key) items ∧
    (∀ k, k ∈ count_key <$> items ↔
       (∃ i, i ∈ db_instances (sn_db sn) ∧ group_key i = k) ∧ search_hit sn (search_text q) k) ∧
    (∀ c, c ∈ items → ∀ n status, (n, status) ∈ [(dc_active c, "ACTIVE"); (dc_waiting c, "WAITING"); (dc_failed c, "FAILED")] →
       n = length (filter (λ i, (ir_definition_id i, ir_definition_version i) = (dc_definitionId c, dc_definitionVersion c) ∧
                                ir_status i = status) (db_instances (sn_db sn)))).
Proof.
  intros Hs Hw Hnd Hids. destruct (definition_pages sn now q limit Hs Hw Hnd Hids) as (items & Hp & Hd & Hsort & Hin).
  eexists _, items. split_and!; [exact Hp|done|done|..].
  - intros k. rewrite list_elem_of_fmap. split.
    + intros (c & -> & Hc). apply Hin, definition_row_in in Hc as (? & ? & _). done.
    + intros [(i & Hi & <-) Hhit]. destruct (definition_row_exists sn _ _ i Hi Hhit) as (c & Hc & Ek).
      exists c. split; [done|]. by apply Hin.
  - intros c Hc n status. apply Hin, definition_row_in in Hc as (_ & _ & Ha & Hwt & Hf).
    rewrite Ha, Hwt, Hf. intros Hn. apply list_elem_of_In in Hn. by destruct Hn as [[= <- <-]|[[= <- <-]|[[= <- <-]|[]]]].
Qed.

(** ** Steps *)

Section steps.
Context `{L : Postgres} `{!PostgresLaws L} (db : Database) (definitionId : string) (version : Z).

#[local] Existing Instance alphabetical.

Abbreviation rows := (step_rows db definitionId version EmptyString).
Abbreviation step_of := (λ r : ProcessInstanceRow * string * option StepExecutionRow, r.1.2).

(** An instance that is live at a step. *)
Definition live_at (step : string) (i : ProcessInstanceRow) : Prop :=
  ir_definition_id i = definitionId ∧ ir_definition_version i = version ∧
  (ir_status i = "ACTIVE" ∨ ir_status i = "WAITING") ∧ step ∈ ir_current_step_ids i.

#[export] Instance live_at_dec step i : Decision (live_at step i).
Proof. unfold live_at. apply _. Defined.

Lemma step_row_in r :
  r ∈ rows ↔ r.1.1 ∈ db_instances db ∧ live_at r.1.2 r.1.1 ∧ r.2 = latest_execution db (ir_id r.1.1) r.1.2.
Proof.
  unfold step_rows, live_at. rewrite list_elem_of_bind. setoid_rewrite list_elem_of_fmap. setoid_rewrite in_filter.
  setoid_rewrite andb_true_iff. setoid_rewrite andb_true_iff. setoid_rewrite String.eqb_eq. setoid_rewrite Z.eqb_eq.
  unfold includes. setoid_rewrite bool_decide_eq_true. destruct r as [[i s] e]. simpl. split.
  - intros (i' & (s' & [= -> -> ->] & Hs & _) & Hi & (Hd & Hv) & Hst). split_and!; try done. set_solver.
  - intros (Hi & (Hd & Hv & Hst & Hs) & ->). exists i. split_and!; try done; [|set_solver]. eauto.
Qed.

(** The rows after a step. *)
Lemma step_rows_after after :
  after ≠ EmptyString →
  step_rows db definitionId version after = List.filter (λ r, comes_after (step_of r) after) rows.
Proof.
  intros Ha. apply String.eqb_neq in Ha. unfold step_rows. rewrite Ha. induction (List.filter _ (db_instances db)) as [|i l IH]; [done|].
  rewrite !bind_cons, List.filter_app, IH. f_equal. cbn [orb String.eqb].
  induction (ir_current_step_ids i) as [|s ss IHs]; [done|]. cbn [List.filter]. rewrite fmap_cons. cbn [List.filter].
  unfold comes_after at 1. simpl. unfold text_after. destruct (text_lt after s); [rewrite fmap_cons; by f_equal|exact IHs].
Qed.

Lemma count_instances_after after step P :
  comes_after step after = true →
  count_instances (List.filter (λ r, comes_after (step_of r) after) rows) step P = count_instances rows step P.
Proof.
  intros Ha. unfold count_instances. do 3 f_equal. induction rows as [|r l IH]; [done|]. cbn [List.filter].
  destruct (comes_after r.1.2 after) eqn:E; cbn [List.filter]; rewrite IH; [done|].
  destruct (String.eqb_spec r.1.2 step) as [Es|]; [|done]. rewrite Es in E. congruence.
Qed.

Lemma step_counts_after after cutoff :
  after ≠ EmptyString →
  let rows' := step_rows db definitionId version after in
  step_count rows' cutoff <$> remove_dups (step_of <$> rows') =
  List.filter (λ c, comes_after (sc_stepId c) after) (step_count rows cutoff <$> remove_dups (step_of <$> rows)).
Proof.
  intros Ha rows'. unfold rows'. rewrite step_rows_after, (remove_dups_filter step_of (λ s, comes_after s after)) by done.
  induction (remove_dups (step_of <$> rows)) as [|s ss IH]; [done|]. cbn [List.filter]. rewrite (fmap_cons (step_count rows cutoff)).
  cbn [List.filter]. simpl sc_stepId.
  destruct (comes_after s after) eqn:E; [|exact IH]. rewrite fmap_cons. f_equal; [|exact IH].
  unfold step_count. by rewrite !count_instances_after.
Qed.

(** A count of distinct instances is the number of live instances of which the
    condition on the latest execution holds. *)
Lemma count_instances_spec step P :
  NoDup (ir_id <$> db_instances db) →
  count_instances rows step P =
  length (filter (λ i, live_at step i ∧ P (latest_execution db (ir_id i) step) = true) (db_instances db)).
Proof.
  intros Hnd. unfold count_instances. rewrite <- (length_fmap ir_id (filter _ _)). apply Permutation_length, NoDup_Permutation.
  - apply NoDup_remove_dups.
  - eapply sublist_NoDup; [done|]. apply fmap_sublist, sublist_filter.
  - intros id. rewrite elem_of_remove_dups, !list_elem_of_fmap. setoid_rewrite list_elem_of_filter. setoid_rewrite in_filter.
    split.
    + intros (r & -> & (Hi & Hl & He)%step_row_in & [Hs Hp]%andb_true_iff). apply String.eqb_eq in Hs as <-.
      rewrite He in Hp. eauto.
    + intros (i & -> & (Hl & Hp) & Hi). exists (i, step, latest_execution db (ir_id i) step). simpl.
      rewrite String.eqb_refl. split_and!; [done|by apply step_row_in|done].
Qed.
End steps.

Section steps_pages.
Context `{J : JsonText} `{!JsonTextLaws J} `{U : Utf8Text} `{!Utf8Laws U} `{L : Postgres} `{!PostgresLaws L}.
Context (sn : Snapshot) (now : Z) (q : OverviewQuery) (definitionId : string) (version age limit : Z) (v : QueryValue).
Context (Hid : oq_definitionId q = Some (QText definitionId)) (Hne : definitionId ≠ EmptyString).
Context (Hv : oq_definitionVersion q = Some v)
  (Hversion : positiveInteger (Some v) 1 2147483647 "Definition version" = inr version).
Context (Hage : positiveInteger (oq_minStepAgeSeconds q) 1800 2147483647 "Minimum step age" = inr age).
Context (Hsize : positiveInteger (oq_pageSize q) 50 100 "Page size" = inr limit).

#[local] Existing Instances alphabetical alphabetical_laws.

Abbreviation scope := (steps_scope definitionId version age).
Abbreviation cursor_of := (λ c, encodeOverviewCursor scope (sc_stepId c) 0).
Abbreviation rows := (step_rows (sn_db sn) definitionId version EmptyString).
Abbreviation counts := (step_count rows (step_cutoff now age) <$>
  remove_dups ((λ r : ProcessInstanceRow * string * option StepExecutionRow, r.1.2) <$> rows)).

Lemma steps_observation c after w :
  decodeOverviewCursor (QText <$> c) scope = inr (after, w) →
  let rows := query_steps sn now definitionId version age after (S (Z.to_nat limit)) in
  steps sn now (with_cursor q c) =
  inr (mkObservation (js_date now) (Some (js_date (step_cutoff now age))) (take (Z.to_nat limit) rows)
    (if Nat.ltb (Z.to_nat limit) (length rows) then cursor_of <$> last (take (Z.to_nat limit) rows) else None)).
Proof using Hid Hne Hv Hversion Hage Hsize.
  intros Hd rows. unfold steps, with_cursor. simpl. apply truthy_str_true in Hne.
  by rewrite Hid, Hv, Hne, Hversion, Hage, Hsize, Hd.
Qed.

Lemma steps_page c after w :
  decodeOverviewCursor (QText <$> c) scope = inr (after, w) →
  overview_page (steps sn now (with_cursor q c)) =
  page_of id cursor_of (Z.to_nat limit) (query_steps sn now definitionId version age after (S (Z.to_nat limit))).
Proof using Hid Hne Hv Hversion Hage Hsize. intros Hd. by rewrite page_of_id, (steps_observation _ _ _ Hd). Qed.

Lemma counts_distinct : distinct sc_stepId counts.
Proof. unfold distinct. rewrite <- list_fmap_compose, list_fmap_id. apply NoDup_remove_dups. Qed.

Lemma counts_in c : c ∈ counts →
  (∃ i, i ∈ db_instances (sn_db sn) ∧ live_at definitionId version (sc_stepId c) i) ∧
  c = step_count rows (step_cutoff now age) (sc_stepId c).
Proof.
  intros (s & -> & Hs)%list_elem_of_fmap. simpl. split; [|done].
  apply elem_of_remove_dups, list_elem_of_fmap in Hs as (r & -> & (Hi & Hl & _)%step_row_in). eauto.
Qed.

Lemma steps_pages :
  (∀ i, i ∈ db_instances (sn_db sn) → EmptyString ∉ ir_current_step_ids i) →
  ∃ items, all_pages (S (length counts)) (λ c, overview_page (steps sn now (with_cursor q c))) None = Some items ∧
    distinct sc_stepId items ∧ StronglySorted (before sc_stepId) items ∧ (∀ c, c ∈ items ↔ c ∈ counts).
Proof using All.
  intros Hsteps.
  destruct (keyset_pages sc_stepId counts (λ _, true) (Z.to_nat limit) id cursor_of
    (λ c, overview_page (steps sn now (with_cursor q c)))) as (items & Hp & Hd & Hs & Hin).
  - apply positiveInteger_bounds in Hsize. lia.
  - apply distinct_filter, counts_distinct.
  - by rewrite (steps_page None EmptyString 0 eq_refl).
  - intros x Hx _. destruct (counts_in x Hx) as ((i & Hi & Hl) & _).
    assert (sc_stepId x ≠ EmptyString) as Hxs by (intros E; rewrite E in Hl; by apply (Hsteps i Hi), Hl).
    rewrite (steps_page (Some _) (sc_stepId x) 0).
    + unfold query_steps. by rewrite step_counts_after, select_id.
    + unfold id. cbn [fmap option_fmap option_map]. by apply decode_encode_overview_cursor.
  - exists items. rewrite list_fmap_id in Hp. split_and!; [done..|]. intros c. rewrite Hin. naive_solver.
Qed.
End steps_pages.

(** The step counts of a definition version: following the cursors lists each
    step at which a live instance stands, exactly once, in order; the counts
    are those of the live instances there, of those among them whose latest
    execution of the step runs since before the cutoff, and of those whose
    latest execution does not run or is missing. *)
Theorem steps_pages_cover `{J : JsonText} `{!JsonTextLaws J} `{U : Utf8Text} `{!Utf8Laws U}
    `{L : Postgres} `{!PostgresLaws L} sn now q definitionId version age limit v :
  oq_definitionId q = Some (QText definitionId) → definitionId ≠ EmptyString → oq_definitionVersion q = Some v →
  positiveInteger (Some v) 1 2147483647 "Definition version" = inr version →
  positiveInteger (oq_minStepAgeSeconds q) 1800 2147483647 "Minimum step age" = inr age →
  positiveInteger (oq_pageSize q) 50 100 "Page size" = inr limit →
  NoDup (ir_id <$> db_instances (sn_db sn)) →
  (∀ i, i ∈ db_instances (sn_db sn) → EmptyString ∉ ir_current_step_ids i) →
  let db := sn_db sn in
  let live := live_at definitionId version in
  let latest i s := latest_execution db (ir_id i) s in
  ∃ fuel items, all_pages fuel (λ c, overview_page (steps sn now (with_cursor q c))) None = Some items ∧
    NoDup (sc_stepId <$> items) ∧
    (∀ s, s ∈ sc_stepId <$> items ↔ ∃ i, i ∈ db_instances db ∧ live s i) ∧
    (∀ c, c ∈ items → let s := sc_stepId c in
       sc_instances c = length (filter (live s) (db_instances db)) ∧
       sc_aged c = length (filter (λ i, live s i ∧ started_before (now - age * 1000000) (latest i s) = true ∧
                                        running (latest i s) = true) (db_instances db)) ∧
       sc_ageUnavailable c = length (filter (λ i, live s i ∧ running (latest i s) = false) (db_instances db))).
Proof.
  intros Hid Hne Hv Hversion Hage Hsize Hnd Hsteps db live latest.
  destruct (steps_pages sn now q definitionId version age limit v Hid Hne Hv Hversion Hage Hsize Hsteps)
    as (items & Hp & Hd & _ & Hin).
  eexists _, items. split_and!; [exact Hp|exact Hd|..].
  - intros s. rewrite list_elem_of_fmap. split.
    + intros (c & -> & Hc). apply Hin, counts_in in Hc as [? _]. done.
    + intros (i & Hi & Hl). exists (step_count (step_rows db definitionId version EmptyString) (step_cutoff now age) s).
      split; [done|]. apply Hin, list_elem_of_fmap_2, elem_of_remove_dups, list_elem_of_fmap.
      exists (i, s, latest i s). split; [done|]. by apply step_row_in.
  - intros c Hc s. apply Hin, counts_in in Hc as [_ ->]. unfold step_count. simpl. fold s.
    rewrite !count_instances_spec by done. split_and!; f_equal; apply list_filter_iff; intros i; fold (latest i s).
    + naive_solver.
    + rewrite andb_true_iff. naive_solver.
    + rewrite negb_true_iff. naive_solver.
Qed.

(** ** The instances behind a count *)

Section behind.
Context `{L : Postgres} (db : Database) (definitionId versionText : string).
Context (Hne : definitionId ≠ EmptyString) (Hversion : all_digits versionText = true).

(** The filters of one status. *)
Lemma matches_status status r :
  matches db (mkFilters (Some definitionId) (Some versionText) None None
    (Some (OneStatus status)) None None None) r ↔
  ir_definition_id r = definitionId ∧ ir_definition_version r = digits_value versionText ∧ ir_status r = status.
Proof using Hne Hversion.
  assert (versionText ≠ EmptyString) as Hvne by (intros ->; done). split.
  - intros [H1 H2 _ _ H5 _ _ _]. simpl in *. split_and!; [by apply H1|by apply H2|]. set_solver.
  - intros (H1 & H2 & H3). split; simpl; unfold given; try (by intros s [? _]); try (by intros s t [? _]).
    + by intros s [[= <-] _].
    + by intros s [[= <-] _].
    + intros _. set_solver.
Qed.
(** The filters of a step, with a cutoff. *)
Lemma matches_live step cutoffText cutoff r :
  step ≠ EmptyString → (∀ t, given cutoffText t → timestamptz t = Some cutoff) →
  matches db (mkFilters (Some definitionId) (Some versionText) (Some step) cutoffText
    (Some (ManyStatuses ["ACTIVE"; "WAITING"])) None None None) r ↔
  live_at definitionId (digits_value versionText) step r ∧
  ((∃ t, given cutoffText t) → running (latest_execution db (ir_id r) step) = true ∧
     started_before cutoff (latest_execution db (ir_id r) step) = true).
Proof using Hne Hversion.
  intros Hs Ht. assert (versionText ≠ EmptyString) as Hvne by (intros ->; done).
  unfold live_at. split.
  - intros [H1 H2 H3 H4 H5 _ _ _]. simpl in *. destruct (H3 step) as [? ?]; [done|]. split.
    + split_and!; [by apply H1|by apply H2|done|done].
    + intros [t Hg]. destruct (H4 t cutoff Hg (Ht t Hg)) as (e & -> & Hr & Hlt). unfold running, started_before.
      split; [by apply String.eqb_eq|by apply Z.ltb_lt].
  - intros ((H1 & H2 & H3 & H4) & H5). split; simpl; unfold given.
    + by intros s [[= <-] _].
    + by intros s [[= <-] _].
    + by intros s [[= <-] _].
    + intros s t [Ho Hn] Hst. assert (given cutoffText s) as Hg by done. rewrite (Ht s Hg) in Hst. injection Hst as <-.
      destruct H5 as [Hr Hb]; [eauto|]. unfold running_since_before. simpl.
      destruct (latest_execution db (ir_id r) step) as [e|]; [|done]. simpl in *.
      exists e. split_and!; [done|by apply String.eqb_eq|by apply Z.ltb_lt].
    + intros _. set_solver.
    + by intros s [? _].
    + by intros s t [? _].
    + by intros s t [? _].
Qed.

End behind.

(** Two ways to list the rows of which something holds have the same length. *)
Lemma length_listing {A} (P : A → Prop) `{∀ x, Decision (P x)} (l rows : list A) :
  NoDup l → NoDup rows → (∀ r, r ∈ rows ↔ r ∈ l ∧ P r) → length rows = length (filter P l).
Proof.
  intros Hl Hr Hin. apply Permutation_length, NoDup_Permutation; [done|by apply NoDup_filter|].
  intros x. rewrite Hin, list_elem_of_filter. tauto.
Qed.

(** ** Witnesses *)

#[local] Existing Instances model_postgres model_postgres_laws.

#[local] Instance plain_lower : SqlText := {| sql_lower := λ s, s |}.

Definition overview_instance (id : string) (version : Z) (status : string) (steps : list string) : ProcessInstanceRow :=
  mkInstanceRow id "order" version status steps 0 None None None JNull.

Definition overview_execution (id instance : string) (started : Z) : StepExecutionRow :=
  mkExecutionRow id instance "pay" "SERVICE_TASK" 1 "RUNNING" started None None None None.

(** Two versions, and two live instances at a step, one of them there for long. *)
Definition overview_sample : Snapshot :=
  mkSnapshot (mkDatabase
      [overview_instance "a" 1 "ACTIVE" ["pay"]; overview_instance "b" 1 "WAITING" ["pay"; "ship"];
       overview_instance "c" 2 "FAILED" ["pay"]]
      [overview_execution "e1" "a" 1700000000000000; overview_execution "e2" "b" 1709210000000000])
    [] [] [] [mkDefinitionRow "order" 1 "Order" []].

Definition overview_query : OverviewQuery :=
  mkOverviewQuery None (Some (QText "1")) None (Some (QText "order")) (Some (QText "1")) None.

Lemma definitions_pages_cover_witness :
  ∃ fuel items, all_pages fuel (λ c, overview_page (definitions overview_sample 1709210096789000 (with_cursor overview_query c)))
      None = Some items ∧ NoDup (count_key <$> items).
Proof.
  destruct (definitions_pages_cover overview_sample 1709210096789000 overview_query 1) as (fuel & items & Hp & Hn & _).
  - reflexivity.
  - discriminate.
  - apply (bool_decide_unpack _). vm_compute. exact I.
  - intros i Hi. apply list_elem_of_In in Hi.
    destruct Hi as [<-|[<-|[<-|[]]]]; vm_compute; repeat split; discriminate.
  - exists fuel, items. split; [exact Hp|exact Hn].
Defined.

Lemma steps_pages_cover_witness :
  ∃ fuel items, all_pages fuel (λ c, overview_page (steps overview_sample 1709210096789000 (with_cursor overview_query c)))
      None = Some items ∧ NoDup (sc_stepId <$> items).
Proof.
  destruct (steps_pages_cover overview_sample 1709210096789000 overview_query "order" 1 1800 1 (QText "1"))
    as (fuel & items & Hp & Hn & _); try reflexivity; try discriminate.
  - apply (bool_decide_unpack _). vm_compute. exact I.
  - intros i Hi. apply list_elem_of_In in Hi. apply (bool_decide_unpack _).
    destruct Hi as [<-|[<-|[<-|[]]]]; vm_compute; exact I.
  - exists fuel, items. split; [exact Hp|exact Hn].
Defined.

(** Both pages of the sample, counted. *)
Example steps_sample :
  all_pages 3 (λ c, overview_page (steps overview_sample 1709210096789000 (with_cursor overview_query c))) None =
  Some [mkStepCount "ship" 1 0 1; mkStepCount "pay" 2 1 0] ∨
  all_pages 3 (λ c, overview_page (steps overview_sample 1709210096789000 (with_cursor overview_query c))) None =
  Some [mkStepCount "pay" 2 1 0; mkStepCount "ship" 1 0 1].
Proof. vm_compute. auto. Qed.
