(* ===== verification/Variables.v ===== *)
(** * Variables, definitions and readiness (workflow-monitor-bff/src/modules/
    process-variables, workflow-definitions, common/database/monitor-database.ts,
    app.ts)

    The variable documents with their size limit, the list of definitions, the
    checks of the environment, and the readiness check of the schema.  What
    the database says about a table is a parameter. *)

From stdpp Require Import sorting pretty.
From S2P Require Import Prelude JsObject Peg Schema ImportExport Utc Cursor Paging Instances Context Executions Overview.

#[local] Open Scope Z_scope.

(** What a handler answers. *)
Inductive Response A := Ok (a : A) | NotFound (message : string) | Unavailable503.
#[global] Arguments Ok {_} _.
#[global] Arguments NotFound {_} _.
#[global] Arguments Unavailable503 {_}.

Definition or_not_found {A} (message : string) (o : option A) : Response A :=
  match o with Some a => Ok a | None => NotFound message end.

(** ** Variable documents *)

Inductive VariableDocument :=
| Present (value : json) (sizeBytes : nat)
| NotRecorded
| ContentTooLarge (sizeBytes : nat).

Inductive OutputInterpretation := VariableDelta | FullState | UnknownInterpretation.

Record RecordedVariables := mkRecorded {
  rv_outputInterpretation : OutputInterpretation;
  rv_recordedInput : VariableDocument;
  rv_recordedOutput : VariableDocument
}.

Section variables.
Context `{JsonText} `{Utf8Text} (maxJsonDocumentBytes : nat).

Definition variableDocument (value : json) : VariableDocument :=
  let sizeBytes := String.length (utf8_encode (JSON_stringify value)) in
  if Nat.ltb maxJsonDocumentBytes sizeBytes then ContentTooLarge sizeBytes else Present value sizeBytes.

Definition current_variables (db : Database) (instanceId : string) : option VariableDocument :=
  row ← head (List.filter (λ i, String.eqb (ir_id i) instanceId) (db_instances db));
  Some (variableDocument (ir_variables row)).

Definition snapshot_document (snapshot : option json) : VariableDocument :=
  match snapshot with Some v => variableDocument v | None => NotRecorded end.

Definition output_interpretation (step_type : string) : OutputInterpretation :=
  if String.eqb step_type "SERVICE_TASK" then VariableDelta
  else if includes ["USER_TASK"; "WAIT"; "TRANSFORMATION"] step_type then FullState else UnknownInterpretation.

Definition recorded_variables (db : Database) (instanceId executionId : string) : option RecordedVariables :=
  row ← head (List.filter (λ e, String.eqb (er_id e) executionId && String.eqb (er_instance_id e) instanceId)
                (db_executions db));
  Some (mkRecorded (output_interpretation (er_step_type row)) (snapshot_document (er_input_snapshot row))
          (snapshot_document (er_output_snapshot row))).

(** The controller. *)
Definition get_current (db : Database) (id : string) : Response VariableDocument :=
  or_not_found "Process Instance not found" (current_variables db id).

Definition get_recorded (db : Database) (id executionId : string) : Response RecordedVariables :=
  or_not_found "Step Execution not found" (recorded_variables db id executionId).
End variables.

(** ** The list of definitions *)

Record WorkflowDefinitionOption := mkDefinitionOption { wo_id : string; wo_name : string }.

Section definitions_list.
Context `{Postgres}.

(** [SELECT DISTINCT ON (id) id, name ... ORDER BY id, version DESC] *)
Definition newer_version (x y : DefinitionRow) : Prop := df_version y ≤ df_version x.

#[export] Instance newer_version_dec x y : Decision (newer_version x y).
Proof. unfold newer_version. apply _. Defined.

Definition latest_definition (defs : list DefinitionRow) (id : string) : option DefinitionRow :=
  head (merge_sort newer_version (List.filter (λ d, String.eqb (df_id d) id) defs)).

Definition workflow_definitions (defs : list DefinitionRow) : list WorkflowDefinitionOption :=
  (λ d, mkDefinitionOption (df_id d) (df_name d)) <$>
    omap (latest_definition defs) (merge_sort text_before (remove_dups (df_id <$> defs))).
End definitions_list.

(** ** The environment *)

(** [positiveInteger] of monitor-database.ts: the value, or the error. *)
Definition env_positiveInteger (env : string → option string) (name : string) (fallback : Z) : Checked Z :=
  match (match env name with Some v => js_Number v | None => Some (fallback, 0) end) ≫= integer_of with
  | Some value =>
      if (MAX_SAFE_INTEGER <? value) || (value <? 1) || (2147483647 <? value)
      then inl (name ⊕ " must be a positive integer no greater than 2147483647") else inr value
  | None => inl (name ⊕ " must be a positive integer no greater than 2147483647")
  end.

Definition DEFAULT_MAX_JSON_DOCUMENT_BYTES : Z := 5 * 1024 * 1024.

Definition read_maxJsonDocumentBytes (env : string → option string) : Checked Z :=
  match env "MONITOR_MAX_JSON_DOCUMENT_BYTES" with
  | None => inr DEFAULT_MAX_JSON_DOCUMENT_BYTES
  | Some configured =>
      match js_Number configured ≫= integer_of with
      | Some parsed => if parsed <? 1 then inl "MONITOR_MAX_JSON_DOCUMENT_BYTES must be a positive integer" else inr parsed
      | None => inl "MONITOR_MAX_JSON_DOCUMENT_BYTES must be a positive integer"
      end
  end.

Record PoolConfig := mkPool {
  pool_connectionString : string;
  pool_max : Z;
  pool_connectionTimeoutMillis : Z;
  pool_statement_timeout : Z
}.

(** The constructor of [MonitorDatabase]: no pool without a DSN. *)
Definition new_database (env : string → option string) (postgresDsn : option string) : Checked (option PoolConfig) :=
  match postgresDsn with
  | Some dsn =>
      if truthy_str dsn then
        match env_positiveInteger env "MONITOR_POSTGRES_POOL_MAX" 5 with
        | inl e => inl e
        | inr max =>
            match env_positiveInteger env "MONITOR_POSTGRES_CONNECTION_TIMEOUT_MS" 2000 with
            | inl e => inl e
            | inr connection =>
                match env_positiveInteger env "MONITOR_POSTGRES_STATEMENT_TIMEOUT_MS" 3000 with
                | inl e => inl e
                | inr statement => inr (Some (mkPool dsn max connection statement))
                end
            end
        end
      else inr None
  | None => inr None
  end.

(** ** The schema check *)

(** The type OIDs of PostgreSQL. *)
Definition TEXT : Z := 25.
Definition INT4 : Z := 23.
Definition JSONB : Z := 3802.
Definition TIMESTAMPTZ : Z := 1184.
Definition BOOL : Z := 16.

Definition REQUIRED_SCHEMA : list (string * list (string * Z)) := [
  ("workflow_instance", [
    ("id", TEXT); ("definition_id", TEXT); ("definition_version", INT4); ("status", TEXT);
    ("current_step_ids", 1009); ("variables", JSONB); ("started_at", TIMESTAMPTZ); ("completed_at", TIMESTAMPTZ);
    ("failure_reason", TEXT); ("business_key", TEXT)]);
  ("workflow_definition", [("id", TEXT); ("version", INT4); ("name", TEXT); ("raw_json", JSONB)]);
  ("step_execution", [
    ("id", TEXT); ("instance_id", TEXT); ("step_id", TEXT); ("step_type", TEXT); ("attempt_number", INT4);
    ("status", TEXT); ("started_at", TIMESTAMPTZ); ("ended_at", TIMESTAMPTZ); ("failure_reason", TEXT);
    ("input_snapshot", JSONB); ("output_snapshot", JSONB)]);
  ("job", [
    ("id", TEXT); ("instance_id", TEXT); ("worker_id", TEXT); ("locked_at", TIMESTAMPTZ);
    ("lock_expires_at", TIMESTAMPTZ); ("retries_remaining", INT4); ("step_execution_id", TEXT); ("job_type", TEXT);
    ("status", TEXT); ("created_at", TIMESTAMPTZ)]);
  ("user_task", [
    ("id", TEXT); ("instance_id", TEXT); ("step_execution_id", TEXT); ("status", TEXT); ("assignee", TEXT);
    ("assignee_group", TEXT); ("created_at", TIMESTAMPTZ)]);
  ("boundary_event_schedule", [
    ("id", TEXT); ("instance_id", TEXT); ("step_execution_id", TEXT); ("target_step_id", TEXT);
    ("fire_at", TIMESTAMPTZ); ("interrupting", BOOL); ("fired", BOOL)])].

(** [SELECT <columns> FROM <table> LIMIT 0]: the names and type OIDs of the
    fields, or the message of the database error. *)
Class SchemaQuery := { select_fields : string → list string → Checked (list (string * Z)) }.

Definition assoc {A} (k : string) (l : list (string * A)) : option A :=
  snd <$> List.find (λ p, String.eqb (fst p) k) l.

Section readiness.
Context `{SchemaQuery}.

(** The first field whose type is not the expected one. *)
Fixpoint check_fields (columns : list (string * Z)) (fields : list (string * Z)) : option string :=
  match fields with
  | [] => None
  | (name, oid) :: fields =>
      if bool_decide (assoc name columns = Some oid) then check_fields columns fields
      else Some ("column " ⊕ name ⊕ " has type OID " ⊕ pretty oid ⊕ "; expected " ⊕
                 match assoc name columns with Some e => pretty e | None => "undefined" end)
  end.

Definition check_table (table : string) (columns : list (string * Z)) : option string :=
  match (match select_fields table columns.*1 with
         | inl message => Some message
         | inr fields => check_fields columns fields
         end) with
  | Some message => Some ("Monitor schema check failed for " ⊕ table ⊕ ": " ⊕ message)
  | None => None
  end.

(** [None] when the check passes, else the message of the error. *)
Fixpoint check_tables (tables : list (string * list (string * Z))) : option string :=
  match tables with
  | [] => None
  | (table, columns) :: tables =>
      match check_table table columns with Some e => Some e | None => check_tables tables end
  end.

(** [assertReady]; without a pool the first query throws. *)
Definition assertReady (pool : option PoolConfig) : option string :=
  match pool with
  | None => Some ("Monitor schema check failed for workflow_instance: PostgreSQL is not configured")
  | Some _ => check_tables REQUIRED_SCHEMA
  end.

(** The bootstrap checks only with a pool. *)
Definition onApplicationBootstrap (pool : option PoolConfig) : option string :=
  match pool with Some _ => assertReady pool | None => None end.

(** [GET /health/ready] *)
Definition ready (pool : option PoolConfig) : Response string :=
  match assertReady pool with None => Ok "ok" | Some _ => Unavailable503 end.
End readiness.

(** ** Requests *)

(** A header that may be given several times. *)
Inductive Header := HOne (s : string) | HMany (l : list string).

(** The id of a request: the first one it carries, or a new one. *)
Definition request_id (header : option Header) (uuid : string) : string :=
  let given := match header with
               | Some (HMany l) => head l
               | Some (HOne s) => Some s
               | None => None
               end in
  match given with Some s => if truthy_str s then s else uuid | None => uuid end.

(** ** What readiness means *)

(** The catalog of a database: the type of a column of a table, if it has it;
    a query that names a column or a table that is not there is an error. *)
Class SchemaQueryLaws (Q : SchemaQuery) (catalog : string → string → option Z) := {
  select_fields_some t cs : (∀ c, c ∈ cs → is_Some (catalog t c)) →
    select_fields t cs = inr ((λ c, (c, default 0 (catalog t c))) <$> cs);
  select_fields_none t cs : ¬ (∀ c, c ∈ cs → is_Some (catalog t c)) → ∃ message, select_fields t cs = inl message
}.

Section readiness_props.
Context `{Q : SchemaQuery} (catalog : string → string → option Z) `{!SchemaQueryLaws Q catalog}.

Lemma check_fields_none columns fields :
  check_fields columns fields = None ↔ ∀ c o, (c, o) ∈ fields → assoc c columns = Some o.
Proof.
  induction fields as [|[c o] fields IH]; simpl; [split; [intros _ ? ? ?%not_elem_of_nil; done|done]|].
  case_bool_decide as E.
  - rewrite IH. split.
    + intros Hf c' o' [[= -> ->]|?]%elem_of_cons; [done|by apply Hf].
    + intros Hf c' o' ?. apply Hf. by right.
  - split; [done|]. intros Hf. destruct E. apply Hf. by left.
Qed.

Lemma assoc_in {A} k (l : list (string * A)) v : NoDup l.*1 → assoc k l = Some v ↔ (k, v) ∈ l.
Proof.
  unfold assoc. induction l as [|[k' v'] l IH]; simpl; [split; [done|by intros ?%not_elem_of_nil]|].
  rewrite NoDup_cons. intros [Hk Hl]. destruct (String.eqb_spec k' k) as [->|Hne]; simpl.
  - split; [intros [= ->]; by left|]. intros [[= ->]|Hin]%elem_of_cons; [done|].
    destruct Hk. by apply (list_elem_of_fmap_2 fst) in Hin.
  - rewrite IH by done. rewrite elem_of_cons. naive_solver.
Qed.

Lemma check_table_none t columns :
  NoDup columns.*1 → check_table t columns = None ↔ ∀ c o, (c, o) ∈ columns → catalog t c = Some o.
Proof using SchemaQueryLaws0.
  intros Hnd. unfold check_table.
  destruct (decide (Forall (λ c, is_Some (catalog t c)) columns.*1)) as [Hall|Hall]; rewrite Forall_forall in Hall.
  - rewrite select_fields_some by done. set (fields := _ <$> columns.*1).
    assert (check_fields columns fields = None ↔ ∀ c o, (c, o) ∈ columns → catalog t c = Some o) as Hc.
    { rewrite check_fields_none. split.
      - intros Hf c o Hin. assert (c ∈ columns.*1) as Hc by (by apply (list_elem_of_fmap_2 fst) in Hin).
        destruct (Hall c Hc) as [o' Ho]. specialize (Hf c o').
        rewrite assoc_in in Hf by done. assert ((c, o') ∈ columns) as Hin'.
        { apply Hf, list_elem_of_fmap. exists c. by rewrite Ho. }
        apply assoc_in in Hin, Hin'; [congruence|done..].
      - intros Hc c o (c' & [= -> ->] & Hc')%list_elem_of_fmap. apply list_elem_of_fmap in Hc' as ([k o'] & -> & Hin).
        simpl. rewrite (Hc k o' Hin). by apply assoc_in. }
    rewrite <- Hc. by destruct (check_fields columns fields).
  - destruct (select_fields_none t columns.*1 Hall) as [m ->]. split; [done|]. intros Hc. destruct Hall.
    intros c (p & -> & Hp)%list_elem_of_fmap. destruct p as [c o]. exists o. exact (Hc c o Hp).
Qed.

Lemma check_tables_none tables :
  (∀ t columns, (t, columns) ∈ tables → NoDup columns.*1) →
  check_tables tables = None ↔
  ∀ t columns c o, (t, columns) ∈ tables → (c, o) ∈ columns → catalog t c = Some o.
Proof using SchemaQueryLaws0.
  induction tables as [|[t columns] tables IH]; intros Hnd; [split; [intros _ ? ? ? ? ?%not_elem_of_nil; done|done]|].
  cbn [check_tables]. assert (NoDup columns.*1) as Hc by (apply (Hnd t); by left).
  assert (∀ t columns, (t, columns) ∈ tables → NoDup columns.*1) as Hts by (intros t' cs Hin; apply (Hnd t'); by right).
  specialize (IH Hts). pose proof (check_table_none t columns Hc) as Ht. destruct (check_table t columns).
  - split; [done|]. intros Hall. exfalso. assert (Some s = None) as [=]. apply Ht. intros c o. apply (Hall t columns). by left.
  - rewrite IH. split.
    + intros Hall t' cs c o [[= -> ->]|Hin]%elem_of_cons Hc'; [by apply (proj1 Ht)|by eapply Hall].
    + intros Hall t' cs c o Hin. apply Hall. by right.
Qed.
End readiness_props.

(** The Monitor reports ready exactly when it is configured and every column
    of its contract is in the database with the type it expects; extra columns
    and tables do not matter. *)
Theorem ready_iff `{Q : SchemaQuery} (catalog : string → string → option Z) `{!SchemaQueryLaws Q catalog} pool :
  ready pool = Ok "ok" ↔
  is_Some pool ∧ ∀ t columns c o, (t, columns) ∈ REQUIRED_SCHEMA → (c, o) ∈ columns → catalog t c = Some o.
Proof.
  rewrite <- (check_tables_none catalog).
  - unfold ready, assertReady. destruct pool as [p|]; [|split; [done|by intros [[? ?] _]]].
    destruct (check_tables REQUIRED_SCHEMA); split; [discriminate|intros [_ ?]; discriminate| |done].
    intros _. split; [by eexists|done].
  - intros t columns Hin. assert (Forall (λ p, NoDup p.2.*1) REQUIRED_SCHEMA) as Hall.
    { apply (bool_decide_unpack _). vm_compute. exact I. }
    rewrite Forall_forall in Hall. by apply (Hall (t, columns)).
Qed.

(** A database made to the contract. *)
Definition contract_catalog (t c : string) : option Z := assoc t REQUIRED_SCHEMA ≫= assoc c.

#[local] Instance contract_query : SchemaQuery := {|
  select_fields t cs :=
    match mapM (contract_catalog t) cs with
    | Some os => inr ((λ c, (c, default 0 (contract_catalog t c))) <$> cs)
    | None => inl "column does not exist"
    end
|}.

#[local] Instance contract_laws : SchemaQueryLaws contract_query contract_catalog.
Proof.
  assert (∀ t cs, is_Some (mapM (contract_catalog t) cs) ↔ ∀ c, c ∈ cs → is_Some (contract_catalog t c)) as Hm.
  { intros t cs. rewrite mapM_is_Some, Forall_forall. done. }
  split; intros t cs Hcs; simpl.
  - apply Hm in Hcs as [os ->]. done.
  - destruct (mapM (contract_catalog t) cs) eqn:E; [|eauto]. destruct Hcs. apply Hm. by eexists.
Qed.

Lemma ready_iff_witness : ready (Some (mkPool "postgres:" 5 2000 3000)) = Ok "ok".
Proof.
  apply (ready_iff contract_catalog (Some (mkPool "postgres:" 5 2000 3000))). split; [eexists; reflexivity|].
  assert (Forall (λ p, Forall (λ q : string * Z, contract_catalog p.1 q.1 = Some q.2) p.2) REQUIRED_SCHEMA) as Hall.
  { apply (bool_decide_unpack _). vm_compute. exact I. }
  intros t columns c o Ht Hc. rewrite Forall_forall in Hall. specialize (Hall _ Ht). simpl in Hall.
  rewrite Forall_forall in Hall. apply (Hall _ Hc).
Defined.

(** ** Variable documents *)

(** A variable document never lies about what is stored: a document that is
    present is the stored value within the limit, a document that is too large
    names the size that exceeds the limit, and a snapshot that was recorded,
    the JSON [null] included, is never reported as not recorded. *)
Theorem recorded_variables_faithful `{JsonText} `{Utf8Text} max db i e :
  NoDup (er_id <$> db_executions db) →
  let size v := String.length (utf8_encode (JSON_stringify v)) in
  let shows (d : VariableDocument) (snapshot : option json) :=
    match d with
    | Present v n => snapshot = Some v ∧ n = size v ∧ (n ≤ max)%nat
    | NotRecorded => snapshot = None
    | ContentTooLarge n => ∃ v, snapshot = Some v ∧ n = size v ∧ (max < n)%nat
    end in
  match get_recorded max db i e with
  | Ok r => ∃ row, row ∈ db_executions db ∧ er_id row = e ∧ er_instance_id row = i ∧
      shows (rv_recordedInput r) (er_input_snapshot row) ∧ shows (rv_recordedOutput r) (er_output_snapshot row) ∧
      (rv_outputInterpretation r = VariableDelta ↔ er_step_type row = "SERVICE_TASK")
  | NotFound _ => ∀ row, row ∈ db_executions db → er_id row = e → er_instance_id row ≠ i
  | Unavailable503 => False
  end.
Proof.
  intros Hnd size shows.
  assert (∀ s, shows (snapshot_document max s) s) as Hshow.
  { intros [v|]; [|done]. simpl. unfold variableDocument. fold (size v). destruct (Nat.ltb_spec max (size v)); simpl; eauto. }
  unfold get_recorded, recorded_variables. set (P := λ e0, _ && _).
  assert (∀ row, row ∈ List.filter P (db_executions db) ↔ row ∈ db_executions db ∧ er_id row = e ∧ er_instance_id row = i)
    as Hin by (intros row; unfold P; by rewrite list_elem_of_In, List.filter_In, <- list_elem_of_In, andb_true_iff, !String.eqb_eq).
  destruct (List.filter P (db_executions db)) as [|row rows]; simpl.
  - intros row Hr He Hi. by destruct (proj1 (elem_of_nil row) (proj2 (Hin row) (conj Hr (conj He Hi)))).
  - destruct (proj1 (Hin row)) as (Hr & He & Hi); [by left|]. exists row. split_and!; [done..|apply Hshow|apply Hshow|].
    unfold output_interpretation. destruct (String.eqb_spec (er_step_type row) "SERVICE_TASK"); [done|].
    destruct (includes _ _); done.
Qed.

Lemma recorded_variables_faithful_witness :
  get_recorded (H := model_text) 3 (mkDatabase [] [mkExecutionRow "e" "i" "s" "WAIT" 1 "RUNNING" 0 None None (Some JNull) None])
    "i" "e" = NotFound EmptyString → False.
Proof.
  intros E. pose proof (recorded_variables_faithful (H := model_text) 3
    (mkDatabase [] [mkExecutionRow "e" "i" "s" "WAIT" 1 "RUNNING" 0 None None (Some JNull) None]) "i" "e") as Hf.
  rewrite E in Hf. apply (Hf ltac:(apply (bool_decide_unpack _); vm_compute; exact I)
    (mkExecutionRow "e" "i" "s" "WAIT" 1 "RUNNING" 0 None None (Some JNull) None)); [apply list_elem_of_In; simpl; auto|reflexivity|reflexivity].
Defined.

(** ** Definitions *)

#[local] Instance newer_version_trans : Transitive newer_version.
Proof. intros x y z. unfold newer_version. lia. Qed.

#[local] Instance newer_version_total : Total newer_version.
Proof. intros x y. unfold newer_version. lia. Qed.

Lemma latest_definition_spec defs id d :
  latest_definition defs id = Some d →
  d ∈ defs ∧ df_id d = id ∧ ∀ d', d' ∈ defs → df_id d' = id → df_version d' ≤ df_version d.
Proof.
  unfold latest_definition. set (l := List.filter _ defs).
  assert (∀ x, x ∈ l ↔ x ∈ defs ∧ df_id x = id) as Hin
    by (intros x; unfold l; by rewrite list_elem_of_In, List.filter_In, <- list_elem_of_In, String.eqb_eq).
  pose proof (merge_sort_Permutation newer_version l) as Hp. pose proof (StronglySorted_merge_sort newer_version l) as Hs.
  destruct (merge_sort newer_version l) as [|x r]; [done|]. intros [= ->].
  assert (d ∈ l) as [? ?]%Hin by (rewrite <- Hp; by left). split_and!; [done..|].
  intros d' Hd' E. assert (d' ∈ d :: r) as Hd by (rewrite Hp; by apply Hin).
  apply StronglySorted_cons in Hs as [Hall _]. rewrite Forall_forall in Hall.
  apply elem_of_cons in Hd as [->|Hd]; [lia|by apply Hall].
Qed.

Lemma latest_definition_exists (defs : list DefinitionRow) (id : string) : id ∈ df_id <$> defs → is_Some (latest_definition defs id).
Proof.
  intros (d & -> & Hd)%list_elem_of_fmap. unfold latest_definition. set (l := List.filter _ defs).
  assert (d ∈ l) as Hl by (unfold l; by rewrite list_elem_of_In, List.filter_In, <- list_elem_of_In, String.eqb_refl).
  rewrite <- (merge_sort_Permutation newer_version) in Hl. destruct (merge_sort _ l); [by apply not_elem_of_nil in Hl|].
  by eexists.
Qed.

Lemma latest_definitions_ids (defs : list DefinitionRow) (ks : list string) :
  (∀ k, k ∈ ks → k ∈ df_id <$> defs) → df_id <$> omap (latest_definition defs) ks = ks.
Proof.
  induction ks as [|k ks IH]; intros Hks; [done|].
  destruct (latest_definition_exists defs k) as [d Hd]; [apply Hks; by left|]. cbn [omap list_omap]. rewrite Hd, fmap_cons.
  destruct (latest_definition_spec _ _ _ Hd) as (_ & -> & _). f_equal. apply IH. intros k' ?. apply Hks. by right.
Qed.

(** The list of definitions names each id once, with the name of its highest
    version. *)
Theorem workflow_definitions_latest `{Postgres} defs :
  NoDup (wo_id <$> workflow_definitions defs) ∧
  (∀ id, id ∈ wo_id <$> workflow_definitions defs ↔ id ∈ df_id <$> defs) ∧
  (∀ o, o ∈ workflow_definitions defs →
     ∃ d, d ∈ defs ∧ wo_id o = df_id d ∧ wo_name o = df_name d ∧
       ∀ d', d' ∈ defs → df_id d' = df_id d → df_version d' ≤ df_version d).
Proof.
  assert (wo_id <$> workflow_definitions defs = merge_sort text_before (remove_dups (df_id <$> defs))) as ->.
  { unfold workflow_definitions. rewrite <- list_fmap_compose. apply (latest_definitions_ids defs). intros k.
    by rewrite (merge_sort_Permutation text_before), elem_of_remove_dups. }
  split_and!.
  - rewrite (merge_sort_Permutation text_before). apply NoDup_remove_dups.
  - intros id. by rewrite (merge_sort_Permutation text_before), elem_of_remove_dups.
  - intros o (d & -> & (k & _ & Hd)%list_elem_of_omap)%list_elem_of_fmap.
    destruct (latest_definition_spec _ _ _ Hd) as (Hin & <- & Hmax). exists d. done.
Qed.

(** ** The environment *)

(** The pool is configured only with limits in range: each of the three
    settings is the number the environment gives, or its default, between 1
    and 2147483647; any other text stops the start with an error that names
    the setting. *)
Theorem new_database_checked env dsn :
  match new_database env dsn with
  | inr (Some p) => dsn = Some (pool_connectionString p) ∧ pool_connectionString p ≠ EmptyString ∧
      Forall (λ n, 1 ≤ n ≤ 2147483647) [pool_max p; pool_connectionTimeoutMillis p; pool_statement_timeout p]
  | inr None => default EmptyString dsn = EmptyString
  | inl e => ∃ name v, env name = Some v ∧ e = name ⊕ " must be a positive integer no greater than 2147483647" ∧
      name ∈ ["MONITOR_POSTGRES_POOL_MAX"; "MONITOR_POSTGRES_CONNECTION_TIMEOUT_MS"; "MONITOR_POSTGRES_STATEMENT_TIMEOUT_MS"]
  end.
Proof.
  assert (∀ name fallback, 1 ≤ fallback ≤ 2147483647 →
    match env_positiveInteger env name fallback with
    | inr n => 1 ≤ n ≤ 2147483647
    | inl e => ∃ v, env name = Some v ∧ e = name ⊕ " must be a positive integer no greater than 2147483647"
    end) as Henv.
  { intros name fallback Hf. unfold env_positiveInteger, MAX_SAFE_INTEGER. destruct (env name) as [v|].
    - destruct (js_Number v ≫= integer_of) as [n|]; [|eauto].
      destruct (Z.ltb_spec 9007199254740991 n); [simpl; eauto|]. destruct (Z.ltb_spec n 1); [simpl; eauto|].
      destruct (Z.ltb_spec 2147483647 n); [simpl; eauto|]. simpl. lia.
    - cbn [mbind option_bind integer_of]. change (0 <=? 0) with true. cbn iota. change (10 ^ 0) with 1.
      destruct (Z.ltb_spec 9007199254740991 (fallback * 1)); [lia|]. destruct (Z.ltb_spec (fallback * 1) 1); [lia|].
      destruct (Z.ltb_spec 2147483647 (fallback * 1)); [lia|]. simpl. lia. }
  unfold new_database. destruct dsn as [dsn|]; [|done]. destruct (truthy_str dsn) eqn:Ed.
  - apply truthy_str_true in Ed.
    pose proof (Henv "MONITOR_POSTGRES_POOL_MAX" 5 ltac:(lia)) as H1.
    pose proof (Henv "MONITOR_POSTGRES_CONNECTION_TIMEOUT_MS" 2000 ltac:(lia)) as H2.
    pose proof (Henv "MONITOR_POSTGRES_STATEMENT_TIMEOUT_MS" 3000 ltac:(lia)) as H3.
    destruct (env_positiveInteger env "MONITOR_POSTGRES_POOL_MAX" 5); [destruct H1 as (v & E & ->); eexists _, v; split_and!; [exact E|done|set_solver]|].
    destruct (env_positiveInteger env "MONITOR_POSTGRES_CONNECTION_TIMEOUT_MS" 2000);
      [destruct H2 as (v & E & ->); eexists _, v; split_and!; [exact E|done|set_solver]|].
    destruct (env_positiveInteger env "MONITOR_POSTGRES_STATEMENT_TIMEOUT_MS" 3000);
      [destruct H3 as (v & E & ->); eexists _, v; split_and!; [exact E|done|set_solver]|].
    simpl. split_and!; [done..|]. repeat constructor; lia.
  - by apply truthy_str_false in Ed.
Qed.
