(* ===== verification/UrlParams.v ===== *)
(** * URLs of the Monitor

    [URLSearchParams] as the pages of workflow-monitor use it: an ordered list
    of names and values with its reading and writing as
    application/x-www-form-urlencoded, and [encodeURIComponent] with its
    inverse for the segments of a path.  UTF-8 is a parameter. *)

From S2P Require Import Prelude Peg Cursor Engine.

#[local] Arguments String.append !_ _ / : simpl nomatch.

(** ** Percent-encoded bytes *)

Definition form_safe (c : ascii) : bool := is_alnum c || existsb (Ascii.eqb c) ["*"; "-"; "."; "_"]%char.

Definition percent_byte (c : ascii) : string := percent (Ascii.nat_of_ascii c).

Definition hex_value (c : ascii) : option nat :=
  let n := Ascii.nat_of_ascii c in
  if in_range "0" "9" c then Some (n - 48)
  else if in_range "A" "F" c then Some (n - 55)
  else if in_range "a" "f" c then Some (n - 87) else None.

(** The byte two hexadecimal digits stand for. *)
Definition hex_byte (a b : ascii) : option ascii :=
  x ← hex_value a; y ← hex_value b; Some (Ascii.ascii_of_nat (16 * x + y)).

(** ** Form encoding *)

Fixpoint form_bytes (s : string) : string :=
  match s with
  | EmptyString => EmptyString
  | String c s =>
      (if Ascii.eqb c " " then "+" else if form_safe c then String c EmptyString else percent_byte c) ⊕ form_bytes s
  end.

(** [+] is a space; a percent sign without two hexadecimal digits is itself. *)
Fixpoint form_unbytes (s : string) : string :=
  match s with
  | EmptyString => EmptyString
  | String c r =>
      if Ascii.eqb c "+" then String " " (form_unbytes r)
      else if Ascii.eqb c "%" then
        match r with
        | String a (String b r') =>
            match hex_byte a b with
            | Some x => String x (form_unbytes r')
            | None => String c (form_unbytes r)
            end
        | _ => String c (form_unbytes r)
        end
      else String c (form_unbytes r)
  end.

Abbreviation Params := (list (string * string)).

(** Cut at the first separator. *)
Fixpoint cut (sep : ascii) (s : string) : string * option string :=
  match s with
  | EmptyString => (EmptyString, None)
  | String c s =>
      if Ascii.eqb c sep then (EmptyString, Some s)
      else let '(a, b) := cut sep s in (String c a, b)
  end.

(** The pieces between separators. *)
Fixpoint pieces (sep : ascii) (s : string) : list string :=
  match s with
  | EmptyString => [EmptyString]
  | String c s =>
      if Ascii.eqb c sep then EmptyString :: pieces sep s
      else match pieces sep s with p :: ps => String c p :: ps | [] => [String c EmptyString] end
  end.

Section form.
Context `{Utf8Text}.

Definition form_write (s : string) : string := form_bytes (utf8_encode s).
Definition form_read (s : string) : string := utf8_decode (form_unbytes s).

Definition write_pair (p : string * string) : string := form_write p.1 ⊕ "=" ⊕ form_write p.2.

(** [URLSearchParams.prototype.toString] *)
Fixpoint params_toString (ps : Params) : string :=
  match ps with
  | [] => EmptyString
  | [p] => write_pair p
  | p :: ps => write_pair p ⊕ "&" ⊕ params_toString ps
  end.

Definition read_pair (piece : string) : string * string :=
  let '(name, value) := cut "=" piece in (form_read name, form_read (default EmptyString value)).

(** [new URLSearchParams(search)] *)
Definition params_parse (search : string) : Params :=
  let s := match search with String c r => if Ascii.eqb c "?" then r else search | _ => search end in
  read_pair <$> List.filter truthy_str (pieces "&" s).
End form.

(** ** The list *)

Definition params_get (name : string) (ps : Params) : option string :=
  snd <$> List.find (λ p, String.eqb p.1 name) ps.

Definition params_getAll (name : string) (ps : Params) : list string :=
  snd <$> List.filter (λ p, String.eqb p.1 name) ps.

Definition params_has (name : string) (ps : Params) : bool := existsb (λ p, String.eqb p.1 name) ps.

Definition params_delete (name : string) (ps : Params) : Params :=
  List.filter (λ p, negb (String.eqb p.1 name)) ps.

Definition params_append (name value : string) (ps : Params) : Params := ps ++ [(name, value)].

(** The first pair of the name gets the value and the others go; without one
    the pair is appended. *)
Fixpoint params_set (name value : string) (ps : Params) : Params :=
  match ps with
  | [] => [(name, value)]
  | p :: ps => if String.eqb p.1 name then (name, value) :: params_delete name ps else p :: params_set name value ps
  end.

(** [params.size > 0 ? `?${params}` : ""] *)
Definition search_of `{Utf8Text} (ps : Params) : string :=
  match ps with [] => EmptyString | _ => "?" ⊕ params_toString ps end.

(** ** Path segments *)

Fixpoint uri_bytes (s : string) : string :=
  match s with
  | EmptyString => EmptyString
  | String c s => (if uri_unreserved c then String c EmptyString else percent_byte c) ⊕ uri_bytes s
  end.

(** [None] for a percent sign without two hexadecimal digits. *)
Fixpoint uri_unbytes (s : string) : option string :=
  match s with
  | EmptyString => Some EmptyString
  | String c r =>
      if Ascii.eqb c "%" then
        match r with
        | String a (String b r') => x ← hex_byte a b; rest ← uri_unbytes r'; Some (String x rest)
        | _ => None
        end
      else rest ← uri_unbytes r; Some (String c rest)
  end.

Section uri.
Context `{Utf8Text}.

(** [encodeURIComponent] *)
Definition uri_encode (s : string) : string := uri_bytes (utf8_encode s).

(** [decodeURIComponent]; [None] is the [URIError], also for bytes that are not
    UTF-8. *)
Definition uri_decode (s : string) : option string :=
  b ← uri_unbytes s;
  let text := utf8_decode b in
  if String.eqb (utf8_encode text) b then Some text else None.
End uri.

(** ** Lemmas *)

Lemma hex_digit_value n : n < 16 → hex_value (hex_digit n) = Some n.
Proof.
  intros Hn. assert (Forall (λ k, hex_value (hex_digit k) = Some k) (seq 0 16)) as Hall by (repeat constructor).
  rewrite Forall_forall in Hall. apply Hall, elem_of_seq. lia.
Qed.

Lemma hex_byte_percent c :
  hex_byte (hex_digit (Ascii.nat_of_ascii c / 16)) (hex_digit (Ascii.nat_of_ascii c mod 16)) = Some c.
Proof.
  pose proof (nat_ascii_bounded c) as Hb. unfold hex_byte.
  rewrite !hex_digit_value by (apply Nat.Div0.div_lt_upper_bound || apply Nat.mod_upper_bound; lia). cbn [mbind option_bind].
  rewrite <- Nat.div_mod_eq. by rewrite ascii_nat_embedding.
Qed.

Lemma form_safe_not c x : form_safe c = true → form_safe x = false → Ascii.eqb c x = false.
Proof. intros Hc Hx. destruct (Ascii.eqb_spec c x); [congruence|done]. Qed.

Lemma form_unbytes_bytes s : form_unbytes (form_bytes s) = s.
Proof.
  induction s as [|c s IH]; [done|]. cbn [form_bytes]. destruct (Ascii.eqb_spec c " ") as [->|Hc]; [simpl; by rewrite IH|].
  destruct (form_safe c) eqn:Es.
  - change (String c EmptyString ⊕ form_bytes s) with (String c (form_bytes s)). cbn [form_unbytes].
    rewrite (form_safe_not c "+"), (form_safe_not c "%") by done. by rewrite IH.
  - change (percent_byte c ⊕ form_bytes s) with (String "%" (String (hex_digit (Ascii.nat_of_ascii c / 16))
      (String (hex_digit (Ascii.nat_of_ascii c mod 16)) (form_bytes s)))).
    cbn [form_unbytes]. change (Ascii.eqb "%" "+") with false. change (Ascii.eqb "%" "%") with true. cbn iota.
    by rewrite hex_byte_percent, IH.
Qed.

(** The characters of an encoded text. *)
Definition form_char_ok (c : ascii) : bool := form_safe c || Ascii.eqb c "+" || Ascii.eqb c "%".

Lemma hex_digit_safe n : n < 16 → form_char_ok (hex_digit n) = true.
Proof.
  intros Hn. assert (Forall (λ k, form_char_ok (hex_digit k) = true) (seq 0 16)) as Hall by (repeat constructor).
  rewrite Forall_forall in Hall. apply Hall, elem_of_seq. lia.
Qed.

Lemma form_bytes_chars s : all_chars form_char_ok (form_bytes s) = true.
Proof.
  induction s as [|c s IH]; [done|]. cbn [form_bytes]. destruct (Ascii.eqb c " "); [simpl; by rewrite IH|].
  destruct (form_safe c) eqn:Es.
  - simpl. unfold form_char_ok at 1. by rewrite Es, IH.
  - pose proof (nat_ascii_bounded c).
    change (percent_byte c ⊕ form_bytes s) with (String "%" (String (hex_digit (Ascii.nat_of_ascii c / 16))
      (String (hex_digit (Ascii.nat_of_ascii c mod 16)) (form_bytes s)))).
    cbn [all_chars]. change (form_char_ok "%") with true.
    rewrite !hex_digit_safe by (apply Nat.Div0.div_lt_upper_bound || apply Nat.mod_upper_bound; lia). by rewrite IH.
Qed.

Lemma all_chars_app f s t : all_chars f (s ⊕ t) = all_chars f s && all_chars f t.
Proof. induction s as [|c s IH]; simpl; [done|]. by rewrite IH, andb_assoc. Qed.

Lemma all_chars_impl (f g : ascii → bool) s : (∀ c, f c = true → g c = true) → all_chars f s = true → all_chars g s = true.
Proof.
  intros Hi. induction s as [|c s IH]; simpl; [done|]. rewrite !andb_true_iff. intros [? ?]. auto.
Qed.

Lemma cut_app sep a b :
  all_chars (λ c, negb (Ascii.eqb c sep)) a = true → cut sep (a ⊕ String sep b) = (a, Some b).
Proof.
  induction a as [|c a IH]; simpl; [by rewrite Ascii.eqb_refl|]. rewrite andb_true_iff, negb_true_iff. intros [-> Ha].
  by rewrite IH.
Qed.

Lemma pieces_app sep a b :
  all_chars (λ c, negb (Ascii.eqb c sep)) a = true → pieces sep (a ⊕ String sep b) = a :: pieces sep b.
Proof.
  induction a as [|c a IH]; simpl; [by rewrite Ascii.eqb_refl|]. rewrite andb_true_iff, negb_true_iff. intros [-> Ha].
  by rewrite IH.
Qed.

Lemma pieces_one sep a : all_chars (λ c, negb (Ascii.eqb c sep)) a = true → pieces sep a = [a].
Proof.
  induction a as [|c a IH]; simpl; [done|]. rewrite andb_true_iff, negb_true_iff. intros [-> Ha]. by rewrite IH.
Qed.

Section roundtrip.
Context `{U : Utf8Text} `{!Utf8Laws U}.

Lemma form_read_write s : form_read (form_write s) = s.
Proof. unfold form_read, form_write. rewrite form_unbytes_bytes. apply utf8_roundtrip. Qed.

Lemma form_write_no sep s : form_char_ok sep = false → all_chars (λ c, negb (Ascii.eqb c sep)) (form_write s) = true.
Proof.
  intros Hs. eapply all_chars_impl; [|apply form_bytes_chars]. intros c Hc. apply negb_true_iff.
  destruct (Ascii.eqb_spec c sep); [congruence|done].
Qed.

Lemma read_write_pair p : read_pair (write_pair p) = p.
Proof.
  unfold read_pair, write_pair. change ("=" ⊕ form_write p.2) with (String "=" (form_write p.2)).
  rewrite cut_app by (by apply form_write_no). simpl. rewrite !form_read_write. by destruct p.
Qed.

Lemma write_pair_pieces p : all_chars (λ c, negb (Ascii.eqb c "&")) (write_pair p) = true ∧ truthy_str (write_pair p) = true.
Proof.
  unfold write_pair. split.
  - change ("=" ⊕ form_write p.2) with (String "=" (form_write p.2)). rewrite all_chars_app. cbn [all_chars].
    by rewrite !form_write_no.
  - by destruct (form_write p.1).
Qed.

Lemma params_pieces p ps :
  pieces "&" (params_toString (p :: ps)) = write_pair <$> p :: ps.
Proof.
  revert p. induction ps as [|p' ps IH]; intros p.
  - simpl. apply pieces_one, write_pair_pieces.
  - change (params_toString (p :: p' :: ps)) with (write_pair p ⊕ String "&" (params_toString (p' :: ps))).
    rewrite pieces_app by apply write_pair_pieces. by rewrite IH.
Qed.

Lemma first_not_question ps : match params_toString ps with String c _ => Ascii.eqb c "?" = false | _ => True end.
Proof.
  destruct ps as [|p ps]; [done|].
  assert (∃ r, params_toString (p :: ps) = form_write p.1 ⊕ String "=" r) as [r ->].
  { destruct ps as [|p' ps]; [by exists (form_write p.2)|]. exists (form_write p.2 ⊕ "&" ⊕ params_toString (p' :: ps)).
    cbn [params_toString]. unfold write_pair. by rewrite !str_app_assoc. }
  pose proof (form_write_no "?" p.1 eq_refl) as Hq. destruct (form_write p.1) as [|c s]; [done|]. simpl in *.
  apply andb_true_iff in Hq as [Hq _]. by apply negb_true_iff in Hq.
Qed.

(** What a page writes into the URL is what it reads from it. *)
Lemma params_parse_toString ps : params_parse (params_toString ps) = ps.
Proof.
  unfold params_parse. pose proof (first_not_question ps) as Hq.
  assert (match params_toString ps with String c r => if Ascii.eqb c "?" then r else params_toString ps | _ => params_toString ps end =
          params_toString ps) as -> by (destruct (params_toString ps); [done|by rewrite Hq]).
  destruct ps as [|p ps]; [done|]. rewrite params_pieces.
  clear Hq. induction (p :: ps) as [|q qs IH]; [done|]. rewrite fmap_cons. cbn [List.filter].
  rewrite (proj2 (write_pair_pieces q)), fmap_cons, read_write_pair. f_equal. exact IH.
Qed.

Lemma params_parse_search ps : params_parse (search_of ps) = ps.
Proof.
  destruct ps as [|p ps]; [done|]. unfold search_of.
  transitivity (params_parse (params_toString (p :: ps))); [|apply params_parse_toString].
  unfold params_parse at 1. change ("?" ⊕ params_toString (p :: ps)) with (String "?" (params_toString (p :: ps))). cbn iota.
  unfold params_parse. pose proof (first_not_question (p :: ps)) as Hq.
  destruct (params_toString (p :: ps)); [done|]. by rewrite Hq.
Qed.
End roundtrip.

(** ** The operations *)

Lemma params_get_set_same n v ps : params_get n (params_set n v ps) = Some v.
Proof.
  unfold params_get. induction ps as [|p ps IH]; simpl; [by rewrite String.eqb_refl|].
  destruct (String.eqb p.1 n) eqn:E; simpl; [by rewrite String.eqb_refl|by rewrite E].
Qed.

Lemma params_get_delete n m ps : params_get n (params_delete m ps) = if String.eqb n m then None else params_get n ps.
Proof.
  unfold params_get. induction ps as [|p ps IH]; simpl; [by destruct (String.eqb n m)|].
  destruct (String.eqb_spec p.1 m) as [Em|Em]; simpl.
  - rewrite IH. destruct (String.eqb_spec n m); [done|]. destruct (String.eqb_spec p.1 n); [congruence|done].
  - destruct (String.eqb_spec p.1 n) as [En|En]; [|exact IH]. destruct (String.eqb_spec n m); [congruence|done].
Qed.

Lemma params_get_set_other n m v ps : n ≠ m → params_get n (params_set m v ps) = params_get n ps.
Proof.
  intros Hne. induction ps as [|p ps IH]; cbn [params_set].
  - unfold params_get. simpl. destruct (String.eqb_spec m n); [congruence|done].
  - destruct (String.eqb_spec p.1 m) as [Em|Em].
    + unfold params_get at 1. simpl. destruct (String.eqb_spec m n); [congruence|].
      change (snd <$> List.find (λ p, String.eqb p.1 n) (params_delete m ps)) with (params_get n (params_delete m ps)).
      rewrite params_get_delete. destruct (String.eqb_spec n m); [congruence|].
      unfold params_get. simpl. destruct (String.eqb_spec p.1 n); [congruence|done].
    + unfold params_get in *. simpl. destruct (String.eqb p.1 n); [done|exact IH].
Qed.

Lemma params_get_app n ps qs :
  params_get n (ps ++ qs) = match params_get n ps with Some v => Some v | None => params_get n qs end.
Proof. unfold params_get. induction ps as [|p ps IH]; simpl; [done|]. by destruct (String.eqb p.1 n). Qed.

Lemma params_getAll_app n ps qs : params_getAll n (ps ++ qs) = params_getAll n ps ++ params_getAll n qs.
Proof. unfold params_getAll. by rewrite List.filter_app, fmap_app. Qed.

Lemma params_getAll_cons n p ps :
  params_getAll n (p :: ps) = if String.eqb p.1 n then p.2 :: params_getAll n ps else params_getAll n ps.
Proof. unfold params_getAll. cbn [List.filter]. by destruct (String.eqb p.1 n). Qed.

Lemma params_getAll_delete n m ps :
  params_getAll n (params_delete m ps) = if String.eqb n m then [] else params_getAll n ps.
Proof.
  unfold params_delete. induction ps as [|p ps IH]; cbn [List.filter]; [by destruct (String.eqb n m)|].
  rewrite params_getAll_cons. destruct (String.eqb_spec p.1 m) as [Em|Em]; cbn [negb].
  - rewrite IH. destruct (String.eqb_spec n m); [done|]. destruct (String.eqb_spec p.1 n); [congruence|done].
  - rewrite params_getAll_cons, IH. destruct (String.eqb_spec n m); [|done].
    destruct (String.eqb_spec p.1 n); [congruence|done].
Qed.

Lemma params_getAll_set n m v ps :
  params_getAll n (params_set m v ps) = if String.eqb n m then [v] else params_getAll n ps.
Proof.
  induction ps as [|p ps IH]; cbn [params_set].
  - rewrite params_getAll_cons. simpl. rewrite (String.eqb_sym m n). by destruct (String.eqb n m).
  - destruct (String.eqb_spec p.1 m) as [Em|Em]; rewrite !params_getAll_cons; cbn [fst snd].
    + rewrite params_getAll_delete, (String.eqb_sym m n). destruct (String.eqb_spec n m); [done|].
      destruct (String.eqb_spec p.1 n); [congruence|done].
    + rewrite IH. destruct (String.eqb_spec p.1 n), (String.eqb_spec n m); congruence.
Qed.

Lemma params_has_get n ps : params_has n ps = bool_decide (is_Some (params_get n ps)).
Proof.
  unfold params_has, params_get. induction ps as [|p ps IH]; simpl; [done|]. destruct (String.eqb p.1 n); [done|exact IH].
Qed.

(** ** Segments *)

Lemma uri_unbytes_bytes s : uri_unbytes (uri_bytes s) = Some s.
Proof.
  induction s as [|c s IH]; [done|]. cbn [uri_bytes]. destruct (uri_unreserved c) eqn:Eu.
  - change (String c EmptyString ⊕ uri_bytes s) with (String c (uri_bytes s)). cbn [uri_unbytes].
    destruct (Ascii.eqb_spec c "%") as [->|_]; [done|]. by rewrite IH.
  - change (percent_byte c ⊕ uri_bytes s) with (String "%" (String (hex_digit (Ascii.nat_of_ascii c / 16))
      (String (hex_digit (Ascii.nat_of_ascii c mod 16)) (uri_bytes s)))).
    cbn [uri_unbytes]. change (Ascii.eqb "%" "%") with true. cbn iota. by rewrite hex_byte_percent, IH.
Qed.

Lemma uri_decode_encode `{U : Utf8Text} `{!Utf8Laws U} s : uri_decode (uri_encode s) = Some s.
Proof.
  unfold uri_decode, uri_encode. rewrite uri_unbytes_bytes. cbn [mbind option_bind]. by rewrite utf8_roundtrip, String.eqb_refl.
Qed.

Lemma uri_bytes_chars s (f : ascii → bool) :
  (∀ c, uri_unreserved c = true → f c = true) → f "%"%char = true → all_chars f (uri_bytes s) = true.
Proof.
  intros Hf Hp. induction s as [|c s IH]; [done|]. cbn [uri_bytes]. rewrite all_chars_app, IH, andb_true_r.
  destruct (uri_unreserved c) eqn:Eu; [cbn [all_chars]; by rewrite (Hf c Eu)|].
  pose proof (nat_ascii_bounded c) as Hb.
  assert (Forall (λ k, uri_unreserved (hex_digit k) = true) (seq 0 16)) as Hall by (repeat constructor).
  rewrite Forall_forall in Hall. unfold percent_byte, percent. cbn [all_chars]. rewrite Hp.
  rewrite !Hf; [done|..]; apply Hall, elem_of_seq; (split; [lia|]);
    apply Nat.Div0.div_lt_upper_bound || apply Nat.mod_upper_bound; lia.
Qed.

Lemma uri_bytes_no sep s : uri_unreserved sep = false → Ascii.eqb "%" sep = false →
  all_chars (λ c, negb (Ascii.eqb c sep)) (uri_bytes s) = true.
Proof.
  intros Hs Hp. apply uri_bytes_chars; [|by rewrite Hp]. intros c Hc. apply negb_true_iff.
  destruct (Ascii.eqb_spec c sep); [congruence|done].
Qed.

(** A form reads what [encodeURIComponent] wrote. *)
Lemma form_unbytes_uri s : form_unbytes (uri_bytes s) = s.
Proof.
  induction s as [|c s IH]; [done|]. cbn [uri_bytes]. destruct (uri_unreserved c) eqn:Eu.
  - change (String c EmptyString ⊕ uri_bytes s) with (String c (uri_bytes s)). cbn [form_unbytes].
    destruct (Ascii.eqb_spec c "+") as [->|_]; [done|]. destruct (Ascii.eqb_spec c "%") as [->|_]; [done|]. by rewrite IH.
  - unfold percent_byte, percent.
    change (form_unbytes (String "%" (String ?a (String ?b EmptyString)) ⊕ uri_bytes s))
      with (form_unbytes (String "%" (String a (String b (uri_bytes s))))).
    cbn [form_unbytes Ascii.eqb Bool.eqb]. rewrite hex_byte_percent. by rewrite IH.
Qed.

Lemma uri_encode_inj `{U : Utf8Text} `{!Utf8Laws U} s t : uri_encode s = uri_encode t → s = t.
Proof. intros E. pose proof (uri_decode_encode s) as H. rewrite E, uri_decode_encode in H. congruence. Qed.
