(* ===== verification/ListFilters.v ===== *)
(** * Filters in the browser (workflow-monitor/src/routes/listFilters.ts)

    The check of a time range before a search is sent, the value of a
    date-time input, and the reading of a list response.  The check and the
    one of the API accept the same times. *)

From S2P Require Import Prelude JsObject Peg Utc Cursor.

#[local] Open Scope Z_scope.
#[local] Arguments String.append !_ _ / : simpl nomatch.

(** [s.slice(0, n)] *)
Definition slice (n : nat) (s : string) : string := String.substring 0 n s.

(** The condition of the first loop on a value that is not empty.  (The text
    of a year above 9999 differs too, it starts with a sign.) *)
Definition bad_time (value : string) : bool :=
  match UTC_TIMESTAMP_PATTERN value with
  | None => true
  | Some _ =>
      match date_parse value with
      | None => true
      | Some t => negb (String.eqb (slice 19 (toISOString t)) (slice 19 value))
      end
  end.

Fixpoint first_bad_time (l : list (string * string)) : option string :=
  match l with
  | [] => None
  | (label, value) :: l =>
      if negb (truthy_str value) then first_bad_time l
      else if bad_time value then Some (label ⊕ " must be a valid UTC date and time.") else first_bad_time l
  end.

(** The message, if any. *)
Definition timeRangeError (from to : string) : option string :=
  match first_bad_time [("From", from); ("To", to)] with
  | Some e => Some e
  | None =>
      if truthy_str from && truthy_str to &&
         match date_parse from, date_parse to with Some a, Some b => b <=? a | _, _ => false end
      then Some "From must be earlier than To (UTC)." else None
  end.

Definition utcInputValue (value : string) : string :=
  if truthy_str value then (if Nat.eqb (String.length value) 16 then value ⊕ ":00" else value) ⊕ "Z" else EmptyString.

(** ** Responses *)

(** A [FilterError] stops the polling of its list; other errors do not. *)
Inductive FetchError := FilterError (message : string) | LoadError (message : string).

Definition fetchList (status : Z) (body : json) (label : string) : FetchError + json :=
  if status =? 400 then
    inl match body with
        | JNull => LoadError "Cannot read properties of null"
        | JObj o => FilterError match obj_get o "message" with
                                | Some (JStr m) => m
                                | _ => "Invalid filters. Check the entered values."
                                end
        | _ => FilterError "Invalid filters. Check the entered values."
        end
  else if negb ((200 <=? status) && (status <=? 299)) then
    inl (LoadError ("Unable to load " ⊕ label ⊕ ". Check the Monitor API connection and try again."))
  else inr body.

(** [refetchInterval]: the next poll, or none after a [FilterError]. *)
Definition refetchInterval (interval : Z) (error : option FetchError) : option Z :=
  match error with Some (FilterError _) => None | _ => Some interval end.

(** ** Lemmas *)

Lemma length_pad k n : String.length (pad k n) = k.
Proof.
  revert n. induction k as [|k IH]; intros n; [done|]. cbn [pad].
  assert (∀ a b, String.length (a ⊕ b) = String.length a + String.length b)%nat as Happ
    by (induction a; intros; simpl; [done|by f_equal]).
  rewrite Happ, IH. simpl. lia.
Qed.

Lemma app_inj_length a a' b b' :
  String.length a = String.length a' → a ⊕ b = a' ⊕ b' → a = a' ∧ b = b'.
Proof.
  revert a'. induction a as [|c a IH]; intros [|c' a']; try done. intros [= Hl] [= -> E].
  destruct (IH a' Hl E) as [-> ->]. done.
Qed.

Lemma slice_app a b : slice (String.length a) (a ⊕ b) = a.
Proof. unfold slice. induction a as [|c a IH]; simpl; [by destruct b|by rewrite IH]. Qed.

Lemma pad_inj k n m : 0 ≤ n < 10 ^ Z.of_nat k → 0 ≤ m < 10 ^ Z.of_nat k → pad k n = pad k m → n = m.
Proof.
  intros Hn Hm E. pose proof (take_digits_pad k 0 n EmptyString) as H1. pose proof (take_digits_pad k 0 m EmptyString) as H2.
  rewrite E in H1. rewrite H1 in H2 by lia. specialize (H2 ltac:(lia)). injection H2. lia.
Qed.

Lemma stamp_text_slice y mo d h mi s tail : slice 19 (stamp_text y mo d h mi s tail) = stamp_text y mo d h mi s EmptyString.
Proof.
  assert (stamp_text y mo d h mi s tail = stamp_text y mo d h mi s EmptyString ⊕ tail) as ->.
  { unfold stamp_text. rewrite !str_app_assoc. simpl. done. }
  assert (String.length (stamp_text y mo d h mi s EmptyString) = 19%nat) as <-; [|apply slice_app].
  unfold stamp_text. cbn [pad]. simpl. done.
Qed.

Lemma stamp_text_inj y mo d h mi s y' mo' d' h' mi' s' :
  stamp_text y mo d h mi s EmptyString = stamp_text y' mo' d' h' mi' s' EmptyString →
  pad 4 y = pad 4 y' ∧ pad 2 mo = pad 2 mo' ∧ pad 2 d = pad 2 d' ∧ pad 2 h = pad 2 h' ∧ pad 2 mi = pad 2 mi' ∧ pad 2 s = pad 2 s'.
Proof.
  unfold stamp_text. intros E.
  apply app_inj_length in E as [E1 E]; [|by rewrite !length_pad]. apply app_inj_length in E as [_ E]; [|done].
  apply app_inj_length in E as [E2 E]; [|by rewrite !length_pad]. apply app_inj_length in E as [_ E]; [|done].
  apply app_inj_length in E as [E3 E]; [|by rewrite !length_pad]. apply app_inj_length in E as [_ E]; [|done].
  apply app_inj_length in E as [E4 E]; [|by rewrite !length_pad]. apply app_inj_length in E as [_ E]; [|done].
  apply app_inj_length in E as [E5 E]; [|by rewrite !length_pad]. apply app_inj_length in E as [_ E]; [|done].
  apply app_inj_length in E as [E6 E]; [|by rewrite !length_pad]. done.
Qed.

(** The browser and the API agree on what a UTC time is. *)
Lemma bad_time_spec value : bad_time value = negb (isUtcTimestamp value).
Proof.
  unfold bad_time, isUtcTimestamp. destruct (UTC_TIMESTAMP_PATTERN value) as [p|] eqn:Ep; [|done].
  destruct (date_parse value) as [t|] eqn:Et; [|done]. f_equal.
  unfold date_parse in Et. rewrite Ep in Et. cbn [mbind option_bind] in Et.
  destruct (pattern_inv value p Ep) as (tail & -> & Hf & Hy & Hmo & Hd & Hh & Hmi & Hs).
  apply stamp_time_inv in Et as [(Bmo & Bd & Bh & Bmi & Bs & Bm) Et]. pose proof (match_fraction_bounds _ _ Hf) as Hms.
  rewrite toISOString_text, !stamp_text_slice. apply eq_true_iff_eq. rewrite !andb_true_iff, !Z.eqb_eq, String.eqb_eq.
  split; [|by intros [[[[[-> ->] ->] ->] ->] ->]]. intros (E1 & E2 & E3 & E4 & E5 & E6)%stamp_text_inj.
  assert (0 ≤ getUTCHours t < 24 ∧ 0 ≤ getUTCMinutes t < 60 ∧ 0 ≤ getUTCSeconds t < 60) as (H4 & H5 & H6)
    by (unfold getUTCHours, getUTCMinutes, getUTCSeconds, MS_PER_DAY; Z.to_euclidean_division_equations; lia).
  change (10 ^ Z.of_nat 2) with 100 in *.
  apply pad_inj in E4, E5, E6; [|change (10 ^ Z.of_nat 2) with 100; lia..].
  assert (in_years t) as Hin by (rewrite Et; apply make_time_in_years; lia).
  destruct (time_fields t Hin) as (F1 & F2 & F3 & _). pose proof (days_in_month_bounds (getUTCFullYear t) (getUTCMonth1 t) F2).
  apply pad_inj in E2, E3; [|change (10 ^ Z.of_nat 2) with 100; lia..].
  apply pad_inj in E1; [|change (10 ^ Z.of_nat 4) with 10000; lia..]. done.
Qed.

(** What [timeRangeError] lets pass. *)
Lemma timeRangeError_none from to :
  timeRangeError from to = None ↔
  (from ≠ EmptyString → isUtcTimestamp from = true) ∧ (to ≠ EmptyString → isUtcTimestamp to = true) ∧
  (from ≠ EmptyString → to ≠ EmptyString → ∃ a b, date_parse from = Some a ∧ date_parse to = Some b ∧ a < b).
Proof.
  unfold timeRangeError. cbn [first_bad_time]. rewrite !bad_time_spec.
  assert (∀ v, isUtcTimestamp v = true → is_Some (date_parse v)) as Hp.
  { intros v. unfold isUtcTimestamp. destruct (UTC_TIMESTAMP_PATTERN v); [|done]. by destruct (date_parse v). }
  destruct (truthy_str from) eqn:Ef; [apply truthy_str_true in Ef|apply truthy_str_false in Ef as ->];
    (destruct (truthy_str to) eqn:Et; [apply truthy_str_true in Et|apply truthy_str_false in Et as ->]); cbn [negb andb].
  - destruct (isUtcTimestamp from) eqn:E1; cbn [negb]; [|split; [done|intros [H _]; by specialize (H Ef)]].
    destruct (isUtcTimestamp to) eqn:E2; cbn [negb]; [|split; [done|intros (_ & H & _); by specialize (H Et)]].
    destruct (Hp _ E1) as [a Ha], (Hp _ E2) as [b Hb]. rewrite Ha, Hb. destruct (Z.leb_spec b a).
    + split; [done|]. intros (_ & _ & H'). destruct (H' Ef Et) as (a' & b' & ? & ? & ?). simplify_eq. lia.
    + split; [|done]. intros _. split_and!; try done. intros _ _. eauto.
  - destruct (isUtcTimestamp from) eqn:E1; cbn [negb]; [|split; [done|intros [H _]; by specialize (H Ef)]].
    split; [|done]. intros _. done.
  - destruct (isUtcTimestamp to) eqn:E2; cbn [negb]; [|split; [done|intros (_ & H & _); by specialize (H Et)]].
    split; [|done]. intros _. done.
  - split; done.
Qed.
