(* ===== verification/SavedFilters.v ===== *)
(** * Saved filters (workflow-monitor/src/saved-filter-storage.ts, SavedFilters.tsx)

    The normal form of a filter URL, the views kept in the browser's storage,
    and the panel that saves, applies, renames and deletes them.  Storage can
    be changed by other tabs, and a write can be refused. *)

From S2P Require Import Prelude JsObject Peg Schema ImportExport Utc Cursor Instances UrlParams ListFilters.

#[local] Arguments String.append !_ _ / : simpl nomatch.

Inductive FilterKind := KInstances | KIncidents.

#[export] Instance FilterKind_eq_dec : EqDecision FilterKind.
Proof. solve_decision. Defined.

Record SavedFilter := mkSaved { sf_id : string; sf_name : string; sf_search : string }.

#[export] Instance SavedFilter_eq_dec : EqDecision SavedFilter.
Proof. solve_decision. Defined.

Definition MAX_FILTERS : nat := 20.
Definition MAX_STORAGE_BYTES : Z := 64 * 1024.

Definition fields (kind : FilterKind) : list string :=
  match kind with
  | KInstances => ["definitionId"; "definitionVersion"; "currentStepId"; "stepStartedBefore"; "businessKey"; "status";
                   "from"; "to"]
  | KIncidents => ["definitionId"; "jobType"; "from"; "to"]
  end.

Definition STATUSES : list string := ["ACTIVE"; "WAITING"; "FAILED"; "COMPLETED"; "CANCELLED"].

(** A result or the message of the error. *)
Abbreviation Result A := (string + A)%type.

(** [source.get(name) ?? ""] *)
Definition get_or (name : string) (ps : Params) : string := default EmptyString (params_get name ps).

(** ** The normal form *)

(** A key that the kind does not know, or one that is repeated. *)
Definition bad_key (kind : FilterKind) (source : Params) (key : string) : bool :=
  negb (includes (fields kind) key) ||
  negb (String.eqb key "status") && Nat.ltb 1 (length (params_getAll key source)).

(** The version with its check: the source with the number written anew. *)
Definition check_version (source : Params) : Result Params :=
  if params_has "definitionVersion" source then
    let version := get_or "definitionVersion" source in
    if negb (all_digits version) || (digits_value version <? 1)%Z || (2147483647 <? digits_value version)%Z ||
       negb (truthy_str (get_or "definitionId" source))
    then inl "Definition version requires a Definition ID and a positive integer."
    else inr (params_set "definitionVersion" (pretty (digits_value version)) source)
  else inr source.

Definition check_step (source : Params) : option string :=
  if params_has "currentStepId" source &&
     (negb (truthy_str (get_or "currentStepId" source)) || negb (truthy_str (get_or "definitionId" source)))
  then Some "Current Step ID requires a Definition ID." else None.

Definition check_cutoff (source : Params) : option string :=
  if params_has "stepStartedBefore" source &&
     (negb (truthy_str (get_or "currentStepId" source)) || negb (truthy_str (get_or "stepStartedBefore" source)) ||
      bool_decide (is_Some (timeRangeError (get_or "stepStartedBefore" source) EmptyString)))
  then Some "Step cutoff requires a Current Step ID and a valid UTC time." else None.

(** [[...new Set(source.getAll("status"))].sort()] *)
Definition statuses_of (source : Params) : list string := sort_texts (remove_dups (params_getAll "status" source)).

(** One field of the result. *)
Definition emit_field (source : Params) (result : Params) (field : string) : Params :=
  if String.eqb field "status" then foldl (λ r s, params_append field s r) result (statuses_of source)
  else if truthy_str (get_or field source) then params_set field (get_or field source) result else result.

Definition emit (kind : FilterKind) (source : Params) : Params := foldl (emit_field source) [] (fields kind).

(** The parameters of the normal form. *)
Definition normalize_params (kind : FilterKind) (ps : Params) : Result Params :=
  let source := params_delete "pageSize" (params_delete "cursor" ps) in
  if existsb (bad_key kind source) source.*1 then inl "Unsupported or repeated filter field."
  else
    match timeRangeError (get_or "from" source) (get_or "to" source) with
    | Some e => inl e
    | None =>
        match check_version source with
        | inl e => inl e
        | inr source =>
            match check_step source with
            | Some e => inl e
            | None =>
                match check_cutoff source with
                | Some e => inl e
                | None =>
                    if existsb (λ s, negb (includes STATUSES s)) (statuses_of source) then inl "Unknown instance status."
                    else inr (emit kind source)
                end
            end
        end
    end.

Section storage.
Context `{JsonText} `{Utf8Text}.

Definition normalizeFilterSearch (kind : FilterKind) (search : string) : Result string :=
  if Nat.ltb 4096 (String.length search) then inl "Filter URL exceeds 4,096 characters."
  else match normalize_params kind (params_parse search) with
       | inl e => inl e
       | inr ps => inr (params_toString ps)
       end.

(** ** Views *)

(** [toLowerCase] on units below 256. *)
Definition lower_char (c : ascii) : ascii :=
  let n := Ascii.nat_of_ascii c in
  if (Nat.leb 65 n && Nat.leb n 90) || (Nat.leb 192 n && Nat.leb n 222 && negb (Nat.eqb n 215))
  then Ascii.ascii_of_nat (n + 32) else c.

Fixpoint toLowerCase (s : string) : string :=
  match s with EmptyString => EmptyString | String c s => String (lower_char c) (toLowerCase s) end.

(** One item of the list, with the ids and names seen before it. *)
Definition validate_view (kind : FilterKind) (ids names : list string) (item : json) : Result SavedFilter :=
  let bad := inl "Saved filters need unique names (1–80 characters); at most 20 per list." in
  match item with
  | JObj o =>
      match obj_get o "id", obj_get o "name", obj_get o "search" with
      | Some (JStr id), Some (JStr name), Some (JStr search) =>
          if negb (truthy_str id) || Nat.ltb 100 (String.length id) || negb (truthy_str (js_trim name)) ||
             Nat.ltb 80 (String.length name) || includes ids id || includes names (toLowerCase (js_trim name))
          then bad
          else match normalizeFilterSearch kind search with
               | inl e => inl e
               | inr search => inr (mkSaved id (js_trim name) search)
               end
      | _, _, _ => bad
      end
  | _ => bad
  end.

Fixpoint validate_views (kind : FilterKind) (ids names : list string) (items : list json) : Result (list SavedFilter) :=
  match items with
  | [] => inr []
  | item :: items =>
      match validate_view kind ids names item with
      | inl e => inl e
      | inr view =>
          match validate_views kind (ids ++ [sf_id view]) (names ++ [toLowerCase (sf_name view)]) items with
          | inl e => inl e
          | inr views => inr (view :: views)
          end
      end
  end.

Definition validateViews (kind : FilterKind) (value : option json) : Result (list SavedFilter) :=
  match value with
  | Some (JArr items) =>
      if Nat.ltb MAX_FILTERS (length items) then inl "Save at most 20 filters per list."
      else validate_views kind [] [] items
  | _ => inl "Invalid saved-filter data. Clear saved filters to reset."
  end.

(** The text the storage holds under the key of the kind. *)
Definition loadSavedFilters (kind : FilterKind) (raw : option string) : Result (list SavedFilter) :=
  match raw with
  | None => inr []
  | Some raw =>
      if (MAX_STORAGE_BYTES <? Z.of_nat (String.length (utf8_encode raw)))%Z
      then inl "Saved filters exceed the 64 KiB storage limit. Clear saved filters to reset."
      else
        match JSON_parse raw with
        | inr _ => inl "Invalid saved-filter data. Clear saved filters to reset."
        | inl (JObj o) =>
            if is_one (obj_get o "version") then validateViews kind (obj_get o "views")
            else inl "Unsupported saved-filter version. Clear saved filters to reset."
        | inl _ => inl "Unsupported saved-filter version. Clear saved filters to reset."
        end
  end.

Definition view_json (v : SavedFilter) : json :=
  JObj [("id", JStr (sf_id v)); ("name", JStr (sf_name v)); ("search", JStr (sf_search v))].

Definition views_text (views : list SavedFilter) : string :=
  JSON_stringify (JObj [("version", JNum (num_of_Z 1)); ("views", JArr (view_json <$> views))]).

(** The text to write and the views it stands for. *)
Definition storeSavedFilters (kind : FilterKind) (views : list SavedFilter) : Result (string * list SavedFilter) :=
  match validateViews kind (Some (JArr (view_json <$> views))) with
  | inl e => inl e
  | inr valid =>
      let raw := views_text valid in
      if (MAX_STORAGE_BYTES <? Z.of_nat (String.length (utf8_encode raw)))%Z
      then inl "Saved filters exceed the 64 KiB storage limit."
      else inr (raw, valid)
  end.
End storage.

(** ** The panel *)

Record Panel := mkPanel {
  pn_views : list SavedFilter;
  pn_error : option string;
  pn_name : string;
  pn_selectedId : string
}.

(** The panel, the storage it shares with other tabs, and the locations it
    pushed, the latest last. *)
Record Session := mkSession { ss_panel : Panel; ss_storage : option string; ss_pushed : list string }.

Inductive PanelAction :=
| PSetName (name : string)
| PSelect (id : string)
| PSave (uuid search : string)
| PApply
| PRename
| PDelete
| PClear
| PForeign (raw : option string).

Section panel.
Context `{JsonText} `{Utf8Text} (kind : FilterKind) (accepts : string → bool).

Definition with_error (e : string) (p : Panel) : Panel := mkPanel (pn_views p) (Some e) (pn_name p) (pn_selectedId p).

Definition with_views (views : list SavedFilter) (p : Panel) : Panel :=
  mkPanel views None (pn_name p) (pn_selectedId p).

(** The panel when it is mounted. *)
Definition mount (search : string) (raw : option string) : Panel :=
  let '(views, error) := match loadSavedFilters kind raw with
                         | inl e => ([], Some e)
                         | inr views => (views, None)
                         end in
  let applied := match normalizeFilterSearch kind search with
                 | inr normalized => List.find (λ v, String.eqb (sf_search v) normalized) views
                 | inl _ => None
                 end in
  mkPanel views error (default EmptyString (sf_name <$> applied)) (default EmptyString (sf_id <$> applied)).

(** [update]: what the storage holds is read, changed, checked and written;
    any error leaves the storage and the views as they are. *)
Definition update (change : list SavedFilter → Result (list SavedFilter)) (s : Session) : Session * bool :=
  let fail e := (mkSession (with_error e (ss_panel s)) (ss_storage s) (ss_pushed s), false) in
  match loadSavedFilters kind (ss_storage s) with
  | inl e => fail e
  | inr views =>
      match change views with
      | inl e => fail e
      | inr views =>
          match storeSavedFilters kind views with
          | inl e => fail e
          | inr (raw, valid) =>
              if accepts raw then (mkSession (with_views valid (ss_panel s)) (Some raw) (ss_pushed s), true)
              else fail "The quota has been exceeded."
          end
      end
  end.

(** [`${kind === "instances" ? "/" : "/incidents"}${query ? `?${query}` : ""}`] *)
Definition list_path (query : string) : string :=
  match kind with KInstances => "/" | KIncidents => "/incidents" end ⊕
  (if truthy_str query then "?" ⊕ query else EmptyString).

Definition apply_saved (s : Session) : Session :=
  let p := ss_panel s in
  let fail e := mkSession (with_error e p) (ss_storage s) (ss_pushed s) in
  match loadSavedFilters kind (ss_storage s) with
  | inl e => fail e
  | inr views =>
      match List.find (λ v, String.eqb (sf_id v) (pn_selectedId p)) views with
      | None => fail "Saved filter no longer exists."
      | Some view =>
          match normalizeFilterSearch kind (sf_search view) with
          | inl e => fail e
          | inr query => mkSession p (ss_storage s) (ss_pushed s ++ [list_path query])
          end
      end
  end.

(** A click; the buttons that need a selection are disabled without one. *)
Definition panel_step (a : PanelAction) (s : Session) : Session :=
  let p := ss_panel s in
  let set p := mkSession p (ss_storage s) (ss_pushed s) in
  match a with
  | PSetName name => set (mkPanel (pn_views p) (pn_error p) name (pn_selectedId p))
  | PSelect id =>
      set (mkPanel (pn_views p) (pn_error p)
        (default EmptyString (sf_name <$> List.find (λ v, String.eqb (sf_id v) id) (pn_views p))) id)
  | PSave uuid search =>
      fst (update (λ views, match normalizeFilterSearch kind search with
                            | inl e => inl e
                            | inr search => inr (views ++ [mkSaved uuid (pn_name p) search])
                            end) s)
  | PApply => if truthy_str (pn_selectedId p) then apply_saved s else s
  | PRename =>
      if truthy_str (pn_selectedId p) then
        fst (update (λ views, inr ((λ v, if String.eqb (sf_id v) (pn_selectedId p)
                                         then mkSaved (sf_id v) (pn_name p) (sf_search v) else v) <$> views)) s)
      else s
  | PDelete =>
      if truthy_str (pn_selectedId p) then
        let '(s, done) := update (λ views, inr (List.filter (λ v, negb (String.eqb (sf_id v) (pn_selectedId p))) views)) s in
        if done then mkSession (mkPanel (pn_views (ss_panel s)) (pn_error (ss_panel s)) EmptyString EmptyString)
                       (ss_storage s) (ss_pushed s)
        else s
      else s
  | PClear => mkSession (mkPanel [] None EmptyString EmptyString) None (ss_pushed s)
  | PForeign raw => mkSession p raw (ss_pushed s)
  end.
End panel.
