(* ===== verification/SavedFiltersProps.v ===== *)
(** * What saved filters keep

    The normal form is a fixed point, stored views are read back, the panel
    keeps the storage readable, and a saved filter is one the API accepts. *)

From stdpp Require Import sorting.
From S2P Require Import Prelude JsObject Peg Schema ImportExport Utc Cursor Instances UrlParams ListFilters SavedFilters.

#[local] Arguments String.append !_ _ / : simpl nomatch.

(** ** Decimal texts *)

Definition digits_from (acc : Z) (s : string) : Z :=
  foldl (λ acc c, 10 * acc + (byte_value c - 48))%Z acc (list_ascii_of_string s).

Lemma pretty_char_digit x : (x < 10)%N → is_digit (pretty_N_char x) = true ∧ byte_value (pretty_N_char x) = (48 + Z.of_N x)%Z.
Proof.
  intros Hx. assert (x = 0 ∨ x = 1 ∨ x = 2 ∨ x = 3 ∨ x = 4 ∨ x = 5 ∨ x = 6 ∨ x = 7 ∨ x = 8 ∨ x = 9)%N as Hc by lia.
  repeat destruct Hc as [->|Hc]; [done..|]. by subst.
Qed.

Lemma pretty_go_digits x s :
  digits_from 0 (pretty_N_go x s) = digits_from (Z.of_N x) s ∧
  (all_chars is_digit s = true → all_chars is_digit (pretty_N_go x s) = true).
Proof.
  revert s. induction (N.lt_wf_0 x) as [x _ IH]; intros s.
  destruct (decide (x = 0)%N) as [->|Hx]; [by rewrite pretty_N_go_0|].
  rewrite pretty_N_go_step by lia.
  assert (x mod 10 < 10)%N as Hm by (apply N.mod_lt; lia).
  destruct (pretty_char_digit _ Hm) as [Hd Hv]. destruct (IH (x / 10)%N) with (s := String (pretty_N_char (x mod 10)) s) as [H1 H2];
    [apply N.div_lt; lia|].
  rewrite H1. split.
  - unfold digits_from. cbn [list_ascii_of_string foldl]. rewrite Hv. f_equal. rewrite N2Z.inj_mod, N2Z.inj_div.
    change (Z.of_N 10) with 10%Z. Z.to_euclidean_division_equations; lia.
  - intros Hs. apply H2. simpl. by rewrite Hd.
Qed.

Lemma pretty_Z_digits n : (0 ≤ n)%Z → digits_value (pretty n) = n ∧ all_digits (pretty n) = true.
Proof.
  intros Hn. assert (pretty n = pretty (Z.to_N n)) as -> by (destruct n; [done|done|lia]).
  destruct (decide (n = 0)%Z) as [->|Hne]; [done|].
  assert (pretty (Z.to_N n) = pretty_N_go (Z.to_N n) EmptyString) as ->.
  { unfold pretty, pretty_N. rewrite decide_False by lia. done. }
  destruct (pretty_go_digits (Z.to_N n) EmptyString) as [H1 H2]. split.
  - change (digits_value (pretty_N_go (Z.to_N n) "")) with (digits_from 0 (pretty_N_go (Z.to_N n) "")). rewrite H1.
    unfold digits_from. simpl. lia.
  - unfold all_digits. rewrite H2 by done. rewrite andb_true_r. apply truthy_str_true. intros E. rewrite E in H1.
    unfold digits_from in H1. simpl in H1. lia.
Qed.

(** ** Sorting *)

Lemma insert_text_perm x l : insert_text x l ≡ₚ x :: l.
Proof. induction l as [|y l IH]; simpl; [done|]. destruct (String.leb x y); [done|]. rewrite IH. apply perm_swap. Qed.

Lemma sort_texts_perm l : sort_texts l ≡ₚ l.
Proof. unfold sort_texts. induction l as [|x l IH]; simpl; [done|]. by rewrite insert_text_perm, IH. Qed.

Definition text_le (a b : string) : Prop := String.leb a b = true.

Lemma insert_text_sorted x l : Sorted text_le l → Sorted text_le (insert_text x l).
Proof.
  induction l as [|y l IH]; simpl; intros Hs; [repeat constructor|].
  destruct (String.leb x y) eqn:E; [by constructor; [|constructor]|].
  inversion Hs as [|? ? Hs' Hhd]; subst. constructor; [by apply IH|].
  assert (text_le y x) as Hyx by (destruct (String.leb_total x y); [congruence|done]).
  destruct l as [|z l]; simpl; [by constructor|]. destruct (String.leb x z); constructor; [done|]. by inversion Hhd.
Qed.

Lemma sort_texts_sorted l : Sorted text_le (sort_texts l).
Proof. unfold sort_texts. induction l as [|x l IH]; simpl; [constructor|]. by apply insert_text_sorted. Qed.

Lemma sort_texts_id l : Sorted text_le l → sort_texts l = l.
Proof.
  unfold sort_texts. induction 1 as [|x l Hs IH Hhd]; [done|]. simpl. rewrite IH. destruct l as [|y l]; [done|]. simpl.
  inversion Hhd as [|? ? E]. unfold text_le in E. by rewrite E.
Qed.

Lemma remove_dups_id {A} `{EqDecision A} (l : list A) : NoDup l → remove_dups l = l.
Proof.
  induction 1 as [|x l Hx _ IH]; [done|]. cbn [remove_dups]. destruct (decide_rel elem_of x l); [done|]. by rewrite IH.
Qed.

Lemma statuses_stable l : sort_texts (remove_dups (sort_texts (remove_dups l))) = sort_texts (remove_dups l).
Proof.
  rewrite (remove_dups_id (sort_texts _)); [apply sort_texts_id, sort_texts_sorted|].
  rewrite sort_texts_perm. apply NoDup_remove_dups.
Qed.

(** ** The fields of the normal form *)

(** The pairs one field makes. *)
Definition block (source : Params) (field : string) : Params :=
  if String.eqb field "status" then pair field <$> statuses_of source
  else if truthy_str (get_or field source) then [(field, get_or field source)] else [].

Lemma params_set_fresh n v ps : n ∉ ps.*1 → params_set n v ps = ps ++ [(n, v)].
Proof.
  induction ps as [|p ps IH]; cbn [params_set fmap list_fmap]; [done|]. intros Hn.
  destruct (String.eqb_spec p.1 n) as [<-|]; [destruct Hn; by left|]. simpl. f_equal. apply IH. intros ?. apply Hn. by right.
Qed.

Lemma foldl_append n l (r : Params) : foldl (λ r s, params_append n s r) r l = r ++ (pair n <$> l).
Proof.
  revert r. induction l as [|s l IH]; intros r; simpl; [by rewrite app_nil_r|]. rewrite IH. unfold params_append.
  by rewrite <- app_assoc.
Qed.

Lemma emit_field_block source r field : field ∉ r.*1 → emit_field source r field = r ++ block source field.
Proof.
  intros Hf. unfold emit_field, block. destruct (String.eqb field "status"); [apply foldl_append|].
  destruct (truthy_str _); [by apply params_set_fresh|by rewrite app_nil_r].
Qed.

Lemma block_keys source field k : k ∈ (block source field).*1 → k = field.
Proof.
  unfold block. destruct (String.eqb field "status").
  - intros (p & -> & (s & -> & _)%list_elem_of_fmap)%list_elem_of_fmap. done.
  - destruct (truthy_str _); simpl; set_solver.
Qed.

Lemma emit_blocks kind source : emit kind source = fields kind ≫= block source.
Proof.
  unfold emit. assert (∀ fs r, NoDup fs → (∀ f, f ∈ fs → f ∉ r.*1) →
    foldl (emit_field source) r fs = r ++ (fs ≫= block source)) as Hgen.
  { induction fs as [|f fs IH]; intros r Hnd Hr; [by rewrite app_nil_r|]. apply NoDup_cons in Hnd as [Hf Hnd].
    cbn [foldl]. rewrite emit_field_block by (apply Hr; by left). rewrite IH; [by rewrite bind_cons, app_assoc|done|].
    intros g Hg. rewrite fmap_app. intros [Hin|Hin]%elem_of_app.
    - apply (Hr g); [by right|done].
    - apply block_keys in Hin as ->. done. }
  rewrite (Hgen (fields kind) []); [done| |set_solver].
  destruct kind; apply (bool_decide_unpack _); vm_compute; exact I.
Qed.

(** Reading a field of the blocks of a list of fields. *)
Lemma getAll_blocks source fs f :
  NoDup fs → params_getAll f (fs ≫= block source) = if decide (f ∈ fs) then (block source f).*2 else [].
Proof.
  assert (∀ g, params_getAll f (block source g) = if String.eqb g f then (block source f).*2 else []) as Hb.
  { intros g. destruct (String.eqb_spec g f) as [->|Hne].
    - unfold params_getAll. f_equal. assert (∀ p, p ∈ block source f → String.eqb p.1 f = true) as Hp.
      { intros p Hp. apply String.eqb_eq. apply (block_keys source). by apply list_elem_of_fmap_2. }
      induction (block source f) as [|p l IH]; [done|]. simpl. rewrite Hp by (by left). f_equal. apply IH.
      intros q Hq. apply Hp. by right.
    - unfold params_getAll. assert (List.filter (λ p, String.eqb p.1 f) (block source g) = []) as ->; [|done].
      assert (∀ p, p ∈ block source g → String.eqb p.1 f = false) as Hp.
      { intros p Hp. apply String.eqb_neq. intros E. apply Hne. rewrite <- E. symmetry. apply (block_keys source).
        by apply list_elem_of_fmap_2. }
      induction (block source g) as [|p l IH]; [done|]. simpl. rewrite Hp by (by left). apply IH.
      intros q Hq. apply Hp. by right. }
  induction fs as [|g fs IH]; intros Hnd; [by rewrite decide_False by set_solver|].
  apply NoDup_cons in Hnd as [Hg Hnd]. rewrite bind_cons, params_getAll_app, Hb, IH by done.
  destruct (String.eqb_spec g f) as [->|Hne].
  - rewrite decide_False by done. rewrite decide_True by (by left). by rewrite app_nil_r.
  - destruct (decide (f ∈ fs)) as [Hin|Hin]; [rewrite decide_True by (by right)|rewrite decide_False by set_solver]; done.
Qed.

Lemma params_get_head n ps : params_get n ps = head (params_getAll n ps).
Proof.
  induction ps as [|p ps IH]; [done|]. rewrite params_getAll_cons. unfold params_get in *. simpl.
  destruct (String.eqb p.1 n); [done|exact IH].
Qed.

Lemma params_getAll_none n ps : n ∉ ps.*1 → params_getAll n ps = [].
Proof.
  induction ps as [|p ps IH]; [done|]. rewrite fmap_cons, not_elem_of_cons, params_getAll_cons. intros [Hp Hn].
  destruct (String.eqb_spec p.1 n); [congruence|by apply IH].
Qed.

Lemma params_set_same n v ps : params_getAll n ps = [v] → params_set n v ps = ps.
Proof.
  induction ps as [|p ps IH]; [done|]. rewrite params_getAll_cons. cbn [params_set].
  destruct (String.eqb_spec p.1 n) as [E|E].
  - intros [= Hv Hn]. destruct p as [k w]. simpl in *. subst. f_equal. unfold params_delete.
    assert (∀ q, q ∈ ps → negb (String.eqb q.1 n) = true) as Hq.
    { intros q Hq. apply negb_true_iff, String.eqb_neq. intros E.
      assert (q.2 ∈ params_getAll n ps) as Hin; [|rewrite Hn in Hin; by apply not_elem_of_nil in Hin].
      unfold params_getAll. apply list_elem_of_fmap_2, list_elem_of_In, List.filter_In. split; [by apply list_elem_of_In|].
      by apply String.eqb_eq. }
    clear -Hq. induction ps as [|q ps IH]; [done|]. simpl. rewrite Hq by (by left). f_equal. apply IH. intros. apply Hq. by right.
  - intros Hg. f_equal. by apply IH.
Qed.

Definition text_fields : list string :=
  ["definitionId"; "definitionVersion"; "currentStepId"; "stepStartedBefore"; "businessKey"; "jobType"; "from"; "to"].

Lemma fields_nodup kind : NoDup (fields kind).
Proof. destruct kind; apply (bool_decide_unpack _); vm_compute; exact I. Qed.

(** What the checks establish of the parameters that are written out. *)
Record filter_ok (kind : FilterKind) (source : Params) : Prop := {
  ok_keys k : k ∈ source.*1 → k ∈ fields kind;
  ok_range : timeRangeError (get_or "from" source) (get_or "to" source) = None;
  ok_version : get_or "definitionVersion" source ≠ EmptyString →
    get_or "definitionId" source ≠ EmptyString ∧
    ∃ n, (1 ≤ n ≤ 2147483647)%Z ∧ get_or "definitionVersion" source = pretty n;
  ok_step : get_or "currentStepId" source ≠ EmptyString → get_or "definitionId" source ≠ EmptyString;
  ok_cutoff : get_or "stepStartedBefore" source ≠ EmptyString →
    get_or "currentStepId" source ≠ EmptyString ∧ timeRangeError (get_or "stepStartedBefore" source) EmptyString = None;
  ok_statuses s : s ∈ params_getAll "status" source → s ∈ STATUSES
}.

Lemma get_or_absent kind source f : (∀ k, k ∈ source.*1 → k ∈ fields kind) → f ∉ fields kind → params_get f source = None.
Proof.
  intros Hk Hf. unfold params_get. destruct (List.find _ source) as [p|] eqn:E; [|done]. exfalso.
  apply List.find_some in E as [Hp Ep]. apply String.eqb_eq in Ep as <-. apply Hf, Hk, list_elem_of_fmap_2. by apply list_elem_of_In.
Qed.

Section emitted.
Context (kind : FilterKind) (source : Params) (Hok : filter_ok kind source).

Lemma emit_getAll f : params_getAll f (emit kind source) = if decide (f ∈ fields kind) then (block source f).*2 else [].
Proof. rewrite emit_blocks. apply getAll_blocks, fields_nodup. Qed.

Lemma emit_get f : f ≠ "status" → get_or f (emit kind source) = get_or f source.
Proof using Hok.
  intros Hf. unfold get_or at 1. rewrite params_get_head, emit_getAll. destruct (decide (f ∈ fields kind)) as [Hin|Hin].
  - unfold block. apply String.eqb_neq in Hf. rewrite Hf. destruct (truthy_str (get_or f source)) eqn:E; [done|].
    by apply truthy_str_false in E.
  - unfold get_or. by rewrite (get_or_absent kind source f (ok_keys _ _ Hok) Hin).
Qed.

Lemma emit_has f : f ≠ "status" → params_has f (emit kind source) = truthy_str (get_or f source).
Proof using Hok.
  intros Hf. rewrite params_has_get, params_get_head, emit_getAll. destruct (decide (f ∈ fields kind)) as [Hin|Hin].
  - unfold block. apply String.eqb_neq in Hf. rewrite Hf. by destruct (truthy_str (get_or f source)).
  - unfold get_or. by rewrite (get_or_absent kind source f (ok_keys _ _ Hok) Hin).
Qed.

Lemma emit_statuses : statuses_of (emit kind source) = statuses_of source.
Proof using Hok.
  unfold statuses_of at 1. rewrite emit_getAll. destruct (decide ("status" ∈ fields kind)) as [Hin|Hin].
  - unfold block. simpl. rewrite <- list_fmap_compose.
    assert ((snd ∘ pair "status") <$> statuses_of source = statuses_of source) as -> by apply list_fmap_id.
    apply statuses_stable.
  - assert (params_getAll "status" source = []) as E.
    { pose proof (get_or_absent kind source "status" (ok_keys _ _ Hok) Hin) as Hg. rewrite params_get_head in Hg.
      by destruct (params_getAll "status" source). }
    unfold statuses_of. by rewrite E.
Qed.

Lemma emit_keys k : k ∈ (emit kind source).*1 → k ∈ fields kind.
Proof.
  rewrite emit_blocks. intros (p & -> & (f & Hp & Hf)%list_elem_of_bind)%list_elem_of_fmap.
  assert (p.1 = f) as -> by (apply (block_keys source); by apply list_elem_of_fmap_2). done.
Qed.

Lemma emit_emit : emit kind (emit kind source) = emit kind source.
Proof using Hok.
  transitivity (fields kind ≫= block source); [|by rewrite emit_blocks]. rewrite (emit_blocks kind (emit kind source)).
  apply list_bind_ext; [|done]. intros f. unfold block. rewrite emit_statuses.
  destruct (String.eqb_spec f "status"); [done|]. by rewrite emit_get.
Qed.

Lemma emit_ok : filter_ok kind (emit kind source).
Proof using Hok.
  split.
  - apply emit_keys.
  - rewrite !emit_get by done. apply Hok.
  - rewrite !emit_get by done. apply Hok.
  - rewrite !emit_get by done. apply Hok.
  - rewrite !emit_get by done. apply Hok.
  - intros s Hs. apply (ok_statuses _ _ Hok). assert (s ∈ statuses_of (emit kind source)) as Hin.
    { unfold statuses_of. by rewrite sort_texts_perm, elem_of_remove_dups. }
    rewrite emit_statuses in Hin. unfold statuses_of in Hin. by rewrite sort_texts_perm, elem_of_remove_dups in Hin.
Qed.
End emitted.

Lemma get_or_set_other n m v ps : n ≠ m → get_or n (params_set m v ps) = get_or n ps.
Proof. intros Hne. unfold get_or. by rewrite params_get_set_other. Qed.

Lemma keys_set n v ps k : k ∈ (params_set n v ps).*1 → k = n ∨ k ∈ ps.*1.
Proof.
  induction ps as [|p ps IH]; cbn [params_set].
  - simpl. set_solver.
  - destruct (String.eqb p.1 n).
    + rewrite fmap_cons, elem_of_cons. intros [->|Hin]; [by left|right]. rewrite fmap_cons. right.
      apply list_elem_of_fmap in Hin as (q & -> & Hq). apply list_elem_of_fmap_2. unfold params_delete in Hq.
      apply list_elem_of_In, List.filter_In in Hq as [Hq _]. by apply list_elem_of_In.
    + rewrite !fmap_cons, !elem_of_cons. intros [->|Hin]; [by right; left|]. destruct (IH Hin); auto.
Qed.

(** A successful normalisation writes out parameters that are in order. *)
Lemma normalize_params_inv kind ps qs (source := params_delete "pageSize" (params_delete "cursor" ps)) :
  normalize_params kind ps = inr qs →
  existsb (bad_key kind source) source.*1 = false ∧
  ∃ source', check_version source = inr source' ∧ filter_ok kind source' ∧ qs = emit kind source'.
Proof.
  unfold normalize_params. fold source. destruct (existsb (bad_key kind source) source.*1) eqn:Ek; [done|].
  assert (∀ k, k ∈ source.*1 → k ∈ fields kind) as Hkeys.
  { intros k Hk. destruct (decide (k ∈ fields kind)) as [|Hn]; [done|]. exfalso.
    assert (existsb (bad_key kind source) source.*1 = true) as Hx; [|congruence]. apply List.existsb_exists. exists k.
    split; [by apply list_elem_of_In|]. unfold bad_key, includes. by rewrite bool_decide_eq_false_2. }
  destruct (timeRangeError _ _) eqn:Er; [done|]. destruct (check_version source) as [e|source'] eqn:Ev; [done|].
  destruct (check_step source') eqn:Es; [done|]. destruct (check_cutoff source') eqn:Ec; [done|].
  destruct (existsb _ (statuses_of source')) eqn:Est; [done|]. intros [= <-]. split; [done|]. exists source'. split; [done|]. split; [|done].
  assert ((∀ k, k ∈ source'.*1 → k ∈ fields kind) ∧ (∀ n, n ≠ "definitionVersion" → get_or n source' = get_or n source) ∧
    (get_or "definitionVersion" source' ≠ EmptyString → get_or "definitionId" source' ≠ EmptyString ∧
       ∃ n, (1 ≤ n ≤ 2147483647)%Z ∧ get_or "definitionVersion" source' = pretty n)) as (Hk & Hsame & Hv).
  { unfold check_version in Ev. destruct (params_has "definitionVersion" source) eqn:Eh.
    - set (v := get_or "definitionVersion" source) in *. destruct (_ || _) eqn:Eb in Ev; [done|]. injection Ev as <-.
      rewrite !orb_false_iff, !negb_false_iff, !Z.ltb_ge in Eb. destruct Eb as (((Hd & H1) & H2) & Hid).
      apply truthy_str_true in Hid. split_and!.
      + intros k [->|Hk]%keys_set; [|by apply Hkeys]. rewrite params_has_get in Eh. apply bool_decide_eq_true in Eh as [w Hw].
        unfold params_get in Hw. destruct (List.find _ source) as [p|] eqn:E; [|done].
        apply List.find_some in E as [Hp Ep]. apply String.eqb_eq in Ep as <-. apply Hkeys, list_elem_of_fmap_2.
        by apply list_elem_of_In.
      + intros n Hn. by apply get_or_set_other.
      + intros _. rewrite get_or_set_other by done. split; [done|]. exists (digits_value v). split; [lia|].
        unfold get_or. by rewrite params_get_set_same.
    - injection Ev as <-. split_and!; try done. intros Hne. destruct Hne. rewrite params_has_get in Eh.
      apply bool_decide_eq_false in Eh. unfold get_or. destruct (params_get "definitionVersion" source); [|done]. destruct Eh. by eexists. }
  assert (∀ f, get_or f source' ≠ EmptyString → params_has f source' = true) as Hhas.
  { intros f Hf. rewrite params_has_get. apply bool_decide_eq_true. unfold get_or in Hf.
    destruct (params_get f source'); [by eexists|done]. }
  split; [done| |done|..].
  - by rewrite !Hsame.
  - intros Hf. unfold check_step in Es. rewrite (Hhas _ Hf) in Es. apply truthy_str_true in Hf. rewrite Hf in Es.
    apply truthy_str_true. by destruct (truthy_str (get_or "definitionId" source')).
  - intros Hf. unfold check_cutoff in Ec. rewrite (Hhas _ Hf) in Ec. apply truthy_str_true in Hf. rewrite Hf in Ec.
    destruct (truthy_str (get_or "currentStepId" source')) eqn:E; [|done]. apply truthy_str_true in E.
    split; [done|]. destruct (timeRangeError (get_or "stepStartedBefore" source') EmptyString) eqn:Et; [|done].
    exfalso. rewrite bool_decide_eq_true_2 in Ec by (by eexists). done.
  - intros s Hs. destruct (decide (s ∈ STATUSES)) as [|Hn]; [done|]. exfalso.
    assert (existsb (λ s, negb (includes STATUSES s)) (statuses_of source') = true) as Hx; [|congruence].
    apply List.existsb_exists. exists s. split; [|unfold includes; by rewrite bool_decide_eq_false_2].
    apply list_elem_of_In. unfold statuses_of. by rewrite sort_texts_perm, elem_of_remove_dups.
Qed.

Lemma normalize_params_ok kind ps qs :
  normalize_params kind ps = inr qs → ∃ source, filter_ok kind source ∧ qs = emit kind source.
Proof. intros (_ & source & _ & ? & ?)%normalize_params_inv. by exists source. Qed.

(** What the normal form writes is what the parameters said. *)
Lemma normalize_params_reads kind ps qs :
  normalize_params kind ps = inr qs →
  ∃ source, filter_ok kind source ∧ qs = emit kind source ∧
    (∀ n, n ∈ fields kind → n ≠ "status" → length (params_getAll n ps) ≤ 1) ∧
    (∀ n, n ∈ fields kind → n ≠ "definitionVersion" → params_getAll n source = params_getAll n ps) ∧
    (get_or "definitionVersion" source = EmptyString ↔ get_or "definitionVersion" ps = EmptyString) ∧
    digits_value (get_or "definitionVersion" source) = digits_value (get_or "definitionVersion" ps).
Proof.
  intros (Hkeys & source & Hv & Hok & ->)%normalize_params_inv. exists source. split; [done|]. split; [done|].
  set (src := params_delete "pageSize" (params_delete "cursor" ps)) in *.
  assert (∀ n, n ≠ "pageSize" → n ≠ "cursor" → params_getAll n src = params_getAll n ps) as Hsrc.
  { intros n H1 H2. unfold src. rewrite !params_getAll_delete. apply String.eqb_neq in H1, H2. by rewrite H1, H2. }
  assert (∀ n, n ∈ fields kind → params_getAll n src = params_getAll n ps) as Hsame
    by (intros n Hn; apply Hsrc; intros ->; destruct kind; simpl in Hn; set_solver).
  split.
  { intros n Hn Hs. rewrite <- Hsame by done. destruct (decide (n ∈ src.*1)) as [Hin|Hin].
    - apply Nat.nlt_ge. intros Hl. apply not_true_iff_false in Hkeys. apply Hkeys, List.existsb_exists. exists n.
      split; [by apply list_elem_of_In|]. unfold bad_key. apply String.eqb_neq in Hs. rewrite Hs.
      apply Nat.ltb_lt in Hl. rewrite Hl. apply orb_true_r.
    - rewrite params_getAll_none; [simpl; lia|done]. }
  assert (get_or "definitionVersion" src = get_or "definitionVersion" ps) as Ever
    by (unfold get_or; rewrite !params_get_head, Hsrc by done; done).
  unfold check_version in Hv. rewrite Ever in Hv. destruct (params_has "definitionVersion" src) eqn:Eh.
  - destruct (_ || _) eqn:Eb in Hv; [done|]. injection Hv as <-.
    rewrite !orb_false_iff, !negb_false_iff, !Z.ltb_ge in Eb. destruct Eb as (((Hd & H1) & H2) & _).
    split; [intros n Hn Hne; rewrite params_getAll_set; apply String.eqb_neq in Hne; rewrite Hne; by apply Hsame|].
    assert (∀ v, get_or "definitionVersion" (params_set "definitionVersion" v src) = v) as ->
      by (intros v; unfold get_or; by rewrite params_get_set_same).
    set (v := get_or "definitionVersion" ps) in *.
    destruct (pretty_Z_digits (digits_value v)) as [Ed Ea]; [lia|]. split; [|done].
    split; intros E; exfalso; [rewrite E in Ea; discriminate Ea|rewrite E in Hd; discriminate Hd].
  - injection Hv as <-. rewrite Ever. split; [|done]. intros n Hn _. by apply Hsame.
Qed.

(** A filter in order is its own normal form. *)
Lemma normalize_params_fixed kind source :
  filter_ok kind source → normalize_params kind (emit kind source) = inr (emit kind source).
Proof.
  intros Hok. set (nf := emit kind source). pose proof (emit_ok kind source Hok) as Hnf. fold nf in Hnf.
  assert (∀ n, n ∉ fields kind → params_delete n nf = nf) as Hdel.
  { intros n Hn. unfold params_delete. assert (∀ p, p ∈ nf → negb (String.eqb p.1 n) = true) as Hp.
    { intros p Hp. apply negb_true_iff, String.eqb_neq. intros <-. apply Hn, (ok_keys _ _ Hnf). by apply list_elem_of_fmap_2. }
    clear -Hp. induction nf as [|p ps IH]; [done|]. simpl. rewrite Hp by (by left). f_equal. apply IH. intros. apply Hp. by right. }
  unfold normalize_params. rewrite (Hdel "cursor"), (Hdel "pageSize") by (destruct kind; simpl; set_solver).
  assert (existsb (bad_key kind nf) nf.*1 = false) as ->.
  { apply not_true_iff_false. intros (k & Hk%list_elem_of_In & Hbad)%List.existsb_exists. unfold bad_key in Hbad.
    apply (ok_keys _ _ Hnf) in Hk. unfold includes in Hbad. rewrite bool_decide_eq_true_2 in Hbad by done. cbn [negb orb] in Hbad.
    apply andb_true_iff in Hbad as [Hs Hl]. apply negb_true_iff in Hs. apply Nat.ltb_lt in Hl.
    unfold nf in Hl. rewrite emit_getAll, decide_True in Hl by done. unfold block in Hl. rewrite Hs in Hl.
    destruct (truthy_str _); simpl in Hl; lia. }
  rewrite (ok_range _ _ Hnf).
  assert (check_version nf = inr nf) as ->.
  { unfold check_version. unfold nf at 1. rewrite (emit_has kind source Hok) by done.
    destruct (truthy_str (get_or "definitionVersion" source)) eqn:Et; [|done].
    assert (params_getAll "definitionVersion" nf = [get_or "definitionVersion" nf]) as Hall.
    { unfold nf at 2. rewrite (emit_get kind source Hok) by done. unfold nf. rewrite emit_getAll.
      destruct (decide _) as [Hin|Hin]; [unfold block; simpl; by rewrite Et|].
      unfold get_or in Et. by rewrite (get_or_absent kind source _ (ok_keys _ _ Hok) Hin) in Et. }
    destruct (ok_version _ _ Hnf) as (Hid & n & Hn & Hv).
    { unfold nf. rewrite (emit_get kind source Hok) by done. by apply truthy_str_true. }
    destruct (pretty_Z_digits n) as [Hd Had]; [lia|]. rewrite Hv, Hd, Had. apply truthy_str_true in Hid. rewrite Hid.
    destruct (Z.ltb_spec n 1); [lia|]. destruct (Z.ltb_spec 2147483647 n); [lia|]. cbn [negb orb]. f_equal.
    apply params_set_same. by rewrite Hall, Hv. }
  assert (check_step nf = None) as ->.
  { unfold check_step. unfold nf at 1. rewrite (emit_has kind source Hok), <- (emit_get kind source Hok) by done. fold nf.
    destruct (truthy_str (get_or "currentStepId" nf)) eqn:Et; [|done]. apply truthy_str_true, (ok_step _ _ Hnf), truthy_str_true in Et.
    by rewrite Et. }
  assert (check_cutoff nf = None) as ->.
  { unfold check_cutoff. unfold nf at 1. rewrite (emit_has kind source Hok), <- (emit_get kind source Hok) by done. fold nf.
    destruct (truthy_str (get_or "stepStartedBefore" nf)) eqn:Et; [|done]. apply truthy_str_true, (ok_cutoff _ _ Hnf) in Et as [E1 E2].
    apply truthy_str_true in E1. by rewrite E1, E2. }
  assert (existsb (λ s, negb (includes STATUSES s)) (statuses_of nf) = false) as ->; [|unfold nf; by rewrite (emit_emit kind source Hok)].
  apply not_true_iff_false. intros (s & Hs%list_elem_of_In & Hbad)%List.existsb_exists.
  unfold statuses_of in Hs. rewrite sort_texts_perm, elem_of_remove_dups in Hs. apply (ok_statuses _ _ Hnf) in Hs.
  unfold includes in Hbad. by rewrite bool_decide_eq_true_2 in Hbad.
Qed.

(** ** Names *)

Lemma trim_start_head s : match trim_start s with String c _ => is_js_space c = false | EmptyString => True end.
Proof. induction s as [|c s IH]; simpl; [done|]. by destruct (is_js_space c) eqn:E. Qed.

Lemma trim_start_id s : match s with String c _ => is_js_space c = false | EmptyString => True end → trim_start s = s.
Proof. destruct s as [|c s]; simpl; [done|]. by intros ->. Qed.

Lemma trim_end_trim_end s : trim_end (trim_end s) = trim_end s.
Proof.
  induction s as [|c s IH]; [done|]. cbn [trim_end]. destruct (trim_end s) as [|c' s'] eqn:E.
  - destruct (is_js_space c) eqn:Es; [done|]. cbn [trim_end]. by rewrite Es.
  - remember (String c' s') as r eqn:Er. cbn [trim_end]. rewrite IH. by subst r.
Qed.

Lemma trim_end_head s :
  match s with String c _ => is_js_space c = false | EmptyString => True end →
  match trim_end s with String c _ => is_js_space c = false | EmptyString => True end.
Proof. destruct s as [|c s]; [done|]. cbn [trim_end]. intros Hc. destruct (trim_end s); [by rewrite Hc|done]. Qed.

Lemma js_trim_trim s : js_trim (js_trim s) = js_trim s.
Proof.
  unfold js_trim. rewrite (trim_start_id (trim_end (trim_start s))); [apply trim_end_trim_end|].
  apply trim_end_head, trim_start_head.
Qed.

Lemma js_trim_length s : String.length (js_trim s) ≤ String.length s.
Proof.
  unfold js_trim. transitivity (String.length (trim_start s)).
  - induction (trim_start s) as [|c r IH]; [done|]. cbn [trim_end]. destruct (trim_end r); [|simpl in *; lia].
    destruct (is_js_space c); simpl; lia.
  - induction s as [|c s IH]; [done|]. simpl. destruct (is_js_space c); simpl; lia.
Qed.

(** ** Views *)

Section views.
Context `{U : Utf8Text} `{!Utf8Laws U} (kind : FilterKind).

(** A search that a normalisation returned. *)
Definition normal (t : string) : Prop := ∃ s, normalizeFilterSearch kind s = inr t.

Lemma normal_params t : normal t → ∃ source, filter_ok kind source ∧ t = params_toString (emit kind source).
Proof.
  intros [s Hs]. unfold normalizeFilterSearch in Hs. destruct (Nat.ltb 4096 (String.length s)); [done|].
  destruct (normalize_params kind (params_parse s)) as [e|ps] eqn:E; [done|]. injection Hs as <-.
  destruct (normalize_params_ok _ _ _ E) as (source & Hok & ->). eauto.
Qed.

Lemma normal_fixed t : normal t → normalizeFilterSearch kind t =
  if Nat.ltb 4096 (String.length t) then inl "Filter URL exceeds 4,096 characters." else inr t.
Proof using Utf8Laws0.
  intros (source & Hok & ->)%normal_params. unfold normalizeFilterSearch.
  destruct (Nat.ltb 4096 _); [done|]. by rewrite params_parse_toString, (normalize_params_fixed kind source Hok).
Qed.

(** A view as the checks leave it. *)
Record valid_view (v : SavedFilter) : Prop := {
  vv_id : sf_id v ≠ EmptyString ∧ String.length (sf_id v) ≤ 100;
  vv_name : sf_name v ≠ EmptyString ∧ js_trim (sf_name v) = sf_name v ∧ String.length (sf_name v) ≤ 80;
  vv_search : normal (sf_search v)
}.

(** The views of a list: at most twenty, of distinct ids, and of names that
    differ in more than case. *)
Record valid_views (vs : list SavedFilter) : Prop := {
  vvs_all : Forall valid_view vs;
  vvs_ids : NoDup (sf_id <$> vs);
  vvs_names : NoDup (toLowerCase <$> (sf_name <$> vs));
  vvs_length : length vs ≤ MAX_FILTERS
}.

Definition fits (v : SavedFilter) : Prop := String.length (sf_search v) ≤ 4096.

Lemma validate_view_ok ids names item v :
  validate_view kind ids names item = inr v →
  valid_view v ∧ sf_id v ∉ ids ∧ toLowerCase (sf_name v) ∉ names ∧
  ∃ o name search, item = JObj o ∧ obj_get o "id" = Some (JStr (sf_id v)) ∧ obj_get o "name" = Some (JStr name) ∧
    obj_get o "search" = Some (JStr search) ∧ sf_name v = js_trim name ∧ normalizeFilterSearch kind search = inr (sf_search v).
Proof.
  unfold validate_view. destruct item as [| | | | |o]; try done.
  destruct (obj_get o "id") as [[| | |id| |]|] eqn:Ei; try done.
  destruct (obj_get o "name") as [[| | |name| |]|] eqn:En; try done.
  destruct (obj_get o "search") as [[| | |search| |]|] eqn:Es; try done.
  destruct (_ || _) eqn:Eb; [done|]. rewrite !orb_false_iff, !negb_false_iff, !Nat.ltb_ge in Eb.
  destruct Eb as (((((H1 & H2) & H3) & H4) & H5) & H6). destruct (normalizeFilterSearch kind search) as [e|t] eqn:E; [done|].
  intros [= <-]. simpl. apply truthy_str_true in H1, H3. unfold includes in *. rewrite bool_decide_eq_false in H5, H6.
  pose proof (js_trim_length name). split_and!; try done.
  - split; simpl; [done| |by exists search]. split_and!; [done|apply js_trim_trim|lia].
  - exists o, name, search. done.
Qed.

Lemma validate_views_ok ids names items vs :
  validate_views kind ids names items = inr vs →
  Forall valid_view vs ∧ length vs = length items ∧ (∀ x, x ∈ sf_id <$> vs → x ∉ ids) ∧ NoDup (sf_id <$> vs) ∧
  (∀ x, x ∈ toLowerCase <$> (sf_name <$> vs) → x ∉ names) ∧ NoDup (toLowerCase <$> (sf_name <$> vs)).
Proof.
  revert ids names vs. induction items as [|item items IH]; intros ids names vs; cbn [validate_views].
  { intros [= <-]. split_and!; try constructor; set_solver. }
  destruct (validate_view kind ids names item) as [e|v] eqn:Ev; [done|].
  destruct (validate_views _ _ _ items) as [e|vs'] eqn:E; [done|]. intros [= <-].
  destruct (validate_view_ok _ _ _ _ Ev) as (Hv & Hid & Hn & _).
  destruct (IH _ _ _ E) as (Hall & Hlen & Hids & Hnd & Hnames & Hnd').
  rewrite !fmap_cons. split_and!.
  - by constructor.
  - simpl. by rewrite Hlen.
  - intros x [->|Hx]%elem_of_cons; [done|]. specialize (Hids x Hx). set_solver.
  - apply NoDup_cons. split; [|done]. intros Hx. specialize (Hids _ Hx). set_solver.
  - intros x [->|Hx]%elem_of_cons; [done|]. specialize (Hnames x Hx). set_solver.
  - apply NoDup_cons. split; [|done]. intros Hx. specialize (Hnames _ Hx). set_solver.
Qed.

Lemma validateViews_ok value vs : validateViews kind value = inr vs → valid_views vs.
Proof.
  unfold validateViews. destruct value as [[| | | |items|]|]; try done. destruct (Nat.ltb_spec MAX_FILTERS (length items)); [done|].
  intros (Hall & Hlen & _ & Hnd & _ & Hnd')%validate_views_ok. split; [done..|lia].
Qed.

(** Views in order pass the checks, with their names trimmed. *)
Lemma validate_views_complete ids names vs :
  Forall valid_view vs → Forall fits vs → NoDup (sf_id <$> vs) → NoDup (toLowerCase <$> (sf_name <$> vs)) →
  (∀ x, x ∈ sf_id <$> vs → x ∉ ids) → (∀ x, x ∈ toLowerCase <$> (sf_name <$> vs) → x ∉ names) →
  validate_views kind ids names (view_json <$> vs) = inr vs.
Proof using Utf8Laws0.
  revert ids names. induction vs as [|v vs IH]; intros ids names Hall Hfit Hnd Hnd' Hids Hnames; [done|].
  apply Forall_cons in Hall as [Hv Hall], Hfit as [Hf Hfit]. rewrite !fmap_cons in *. apply NoDup_cons in Hnd as [Hi Hnd], Hnd' as [Hn Hnd'].
  cbn [validate_views].
  assert (validate_view kind ids names (view_json v) = inr v) as ->.
  { unfold validate_view, view_json. set (o := [_; _; _]).
    assert (obj_get o "id" = Some (JStr (sf_id v)) ∧ obj_get o "name" = Some (JStr (sf_name v)) ∧
            obj_get o "search" = Some (JStr (sf_search v))) as (-> & -> & ->) by done.
    destruct Hv as [[H1 H2] (H3 & H4 & H5) H6]. rewrite H4. apply truthy_str_true in H1, H3. rewrite H1, H3.
    destruct (Nat.ltb_spec 100 (String.length (sf_id v))); [lia|]. destruct (Nat.ltb_spec 80 (String.length (sf_name v))); [lia|].
    unfold includes. rewrite !bool_decide_eq_false_2; [|apply Hnames; by left|apply Hids; by left]. cbn [negb orb].
    rewrite (normal_fixed _ H6). unfold fits in Hf. destruct (Nat.ltb_spec 4096 (String.length (sf_search v))); [lia|].
    by destruct v. }
  rewrite IH; [done..| |].
  - intros x Hx [?|?]%elem_of_app; [by apply (Hids x); [right|]|]. set_solver.
  - intros x Hx [?|?]%elem_of_app; [by apply (Hnames x); [right|]|]. set_solver.
Qed.

Context `{J : JsonText} `{!JsonTextLaws J}.

Lemma load_views_text vs :
  valid_views vs → Forall fits vs → (Z.of_nat (String.length (utf8_encode (views_text vs))) ≤ MAX_STORAGE_BYTES)%Z →
  loadSavedFilters kind (Some (views_text vs)) = inr vs.
Proof using All.
  intros [Hall Hi Hn Hl] Hf Hsize. unfold loadSavedFilters. destruct (Z.ltb_spec MAX_STORAGE_BYTES
    (Z.of_nat (String.length (utf8_encode (views_text vs))))); [lia|].
  unfold views_text. rewrite parse_stringify.
  - set (o := [_; _]). assert (obj_get o "views" = Some (JArr (view_json <$> vs)) ∧ is_one (obj_get o "version") = true)
      as [-> ->] by done.
    unfold validateViews. rewrite length_fmap. destruct (Nat.ltb_spec MAX_FILTERS (length vs)); [lia|].
    apply validate_views_complete; try done; intros x _; apply not_elem_of_nil.
  - clear. cbn. rewrite andb_true_r. induction vs as [|v vs IH]; [done|]. simpl. done.
Qed.

(** [storeSavedFilters] succeeds with the views it was given, their names
    trimmed; the text it writes is read back as these. *)
Lemma store_ok vs raw valid :
  Forall (λ v, normal (sf_search v)) vs → storeSavedFilters kind vs = inr (raw, valid) →
  valid = (λ v, mkSaved (sf_id v) (js_trim (sf_name v)) (sf_search v)) <$> vs ∧
  valid_views valid ∧ loadSavedFilters kind (Some raw) = inr valid.
Proof using All.
  intros Hnormal. unfold storeSavedFilters. destruct (validateViews kind _) as [e|vs'] eqn:Ev; [done|].
  destruct (Z.ltb_spec MAX_STORAGE_BYTES (Z.of_nat (String.length (utf8_encode (views_text vs'))))); [done|].
  intros [= <- <-]. pose proof (validateViews_ok _ _ Ev) as Hvalid.
  assert (vs' = (λ v, mkSaved (sf_id v) (js_trim (sf_name v)) (sf_search v)) <$> vs ∧ Forall fits vs') as [-> Hfits].
  { unfold validateViews in Ev. destruct (Nat.ltb _ _); [done|]. clear Hvalid H. revert Ev.
    generalize (@nil string) at 1 as ids. generalize (@nil string) as names. revert vs'.
    induction vs as [|v vs IH]; intros vs' names ids; cbn [validate_views fmap list_fmap]; [intros [= <-]; by split|].
    apply Forall_cons in Hnormal as [Hn Hnormal].
    destruct (validate_view kind ids names (view_json v)) as [e|w] eqn:Ew; [done|].
    destruct (validate_views _ _ _ _) as [e|ws] eqn:E; [done|]. intros [= <-].
    destruct (IH Hnormal _ _ _ E) as [-> Hf].
    destruct (validate_view_ok _ _ _ _ Ew) as (_ & _ & _ & o & name & search & [= <-] & Hi & Hnm & Hs & Hname & Hsearch).
    injection Hi as Hi. injection Hnm as Hnm. injection Hs as Hs. subst name search.
    rewrite (normal_fixed _ Hn) in Hsearch. destruct (Nat.ltb_spec 4096 (String.length (sf_search v))); [done|].
    injection Hsearch as Hsearch. split; [destruct w; simpl in *; congruence|].
    constructor; [|done]. unfold fits. by rewrite <- Hsearch. }
  split_and!; [done|done|]. apply load_views_text; [done|done|lia].
Qed.
End views.

(** ** The panel *)

Section panel.
Context `{U : Utf8Text} `{!Utf8Laws U} `{J : JsonText} `{!JsonTextLaws J} (kind : FilterKind) (accepts : string → bool).

Lemma valid_views_nil : valid_views kind [].
Proof. split; simpl; [constructor..|lia]. Qed.

Lemma load_ok raw vs : loadSavedFilters kind raw = inr vs → valid_views kind vs.
Proof.
  unfold loadSavedFilters. destruct raw as [raw|]; [|intros [= <-]; apply valid_views_nil].
  destruct (_ <? _)%Z; [done|]. destruct (JSON_parse raw) as [[| | | | |o]|]; try done.
  destruct (is_one _); [|done]. apply validateViews_ok.
Qed.

(** A change that keeps the searches in normal form. *)
Definition keeps_normal (change : list SavedFilter → Result (list SavedFilter)) : Prop :=
  ∀ vs vs', Forall (λ v, normal kind (sf_search v)) vs → change vs = inr vs' → Forall (λ v, normal kind (sf_search v)) vs'.

Lemma views_normal vs : valid_views kind vs → Forall (λ v, normal kind (sf_search v)) vs.
Proof. intros [Hall _ _ _]. eapply Forall_impl; [exact Hall|]. by intros v [_ _ ?]. Qed.

(** An update either changes nothing but the error shown, or leaves the
    storage and the panel with the same views. *)
Lemma update_spec change s :
  keeps_normal change →
  let '(s', ok) := update kind accepts change s in
  ss_pushed s' = ss_pushed s ∧
  if ok then
    ∃ vs vs', loadSavedFilters kind (ss_storage s) = inr vs ∧ change vs = inr vs' ∧
      pn_views (ss_panel s') = (λ v, mkSaved (sf_id v) (js_trim (sf_name v)) (sf_search v)) <$> vs' ∧
      valid_views kind (pn_views (ss_panel s')) ∧
      loadSavedFilters kind (ss_storage s') = inr (pn_views (ss_panel s')) ∧ pn_error (ss_panel s') = None
  else ss_storage s' = ss_storage s ∧ pn_views (ss_panel s') = pn_views (ss_panel s) ∧ is_Some (pn_error (ss_panel s')).
Proof using All.
  intros Hc. unfold update. destruct (loadSavedFilters kind (ss_storage s)) as [e|vs] eqn:El.
  { simpl. split_and!; (done || by eexists). }
  destruct (change vs) as [e|vs'] eqn:Ec; [simpl; split_and!; (done || by eexists)|].
  destruct (storeSavedFilters kind vs') as [e|[raw valid]] eqn:Es; [simpl; split_and!; (done || by eexists)|].
  destruct (accepts raw); simpl; [|split_and!; (done || by eexists)].
  split; [done|]. pose proof (Hc vs vs' (views_normal _ (load_ok _ _ El)) Ec) as Hn.
  destruct (store_ok kind vs' raw valid Hn Es) as (-> & Hv & Hl). exists vs, vs'. done.
Qed.

Lemma save_keeps_normal uuid name search :
  keeps_normal (λ views, match normalizeFilterSearch kind search with
                         | inl e => inl e
                         | inr search => inr (views ++ [mkSaved uuid name search])
                         end).
Proof.
  intros vs vs' Hvs. destruct (normalizeFilterSearch kind search) as [e|t] eqn:E; [done|]. intros [= <-].
  apply Forall_app. split; [done|]. apply Forall_singleton. by exists search.
Qed.

Lemma rename_keeps_normal id name :
  keeps_normal (λ views, inr ((λ v, if String.eqb (sf_id v) id then mkSaved (sf_id v) name (sf_search v) else v) <$> views)).
Proof.
  intros vs vs' Hvs [= <-]. apply Forall_fmap. eapply Forall_impl; [exact Hvs|]. intros v ?. simpl.
  by destruct (String.eqb (sf_id v) id).
Qed.

Lemma delete_keeps_normal id : keeps_normal (λ views, inr (List.filter (λ v, negb (String.eqb (sf_id v) id)) views)).
Proof.
  intros vs vs' Hvs [= <-]. rewrite Forall_forall in *. intros v Hv. apply Hvs.
  apply list_elem_of_In, List.filter_In in Hv as [Hv _]. by apply list_elem_of_In.
Qed.

(** One step of the panel. *)
Lemma panel_step_spec a s :
  valid_views kind (pn_views (ss_panel s)) →
  let s' := panel_step kind accepts a s in
  valid_views kind (pn_views (ss_panel s')) ∧
  ((∃ raw, a = PForeign raw) ∨ ss_storage s' = ss_storage s ∨
   loadSavedFilters kind (ss_storage s') = inr (pn_views (ss_panel s')) ∧ pn_error (ss_panel s') = None).
Proof using All.
  intros Hv. destruct a as [name|id|uuid search| | | | |raw]; cbn zeta; unfold panel_step.
  - split; [done|auto].
  - split; [done|auto].
  - pose proof (update_spec _ s (save_keeps_normal uuid (pn_name (ss_panel s)) search)) as Hu.
    destruct (update kind accepts _ s) as [s' [|]]; destruct Hu as [_ Hu]; simpl.
    + destruct Hu as (vs & vs' & _ & _ & _ & ? & ? & ?). auto.
    + destruct Hu as (? & -> & _). auto.
  - destruct (truthy_str _); [|auto]. unfold apply_saved.
    destruct (loadSavedFilters kind (ss_storage s)); [simpl; auto|]. destruct (List.find _ _); [|simpl; auto].
    destruct (normalizeFilterSearch _ _); simpl; auto.
  - destruct (truthy_str _); [|auto].
    pose proof (update_spec _ s (rename_keeps_normal (pn_selectedId (ss_panel s)) (pn_name (ss_panel s)))) as Hu.
    destruct (update kind accepts _ s) as [s' [|]]; destruct Hu as [_ Hu]; simpl.
    + destruct Hu as (vs & vs' & _ & _ & _ & ? & ? & ?). auto.
    + destruct Hu as (? & -> & _). auto.
  - destruct (truthy_str _); [|auto]. pose proof (update_spec _ s (delete_keeps_normal (pn_selectedId (ss_panel s)))) as Hu.
    destruct (update kind accepts _ s) as [s' [|]]; destruct Hu as [_ Hu]; simpl.
    + destruct Hu as (vs & vs' & _ & _ & _ & ? & ? & ?). auto.
    + destruct Hu as (? & -> & _). auto.
  - simpl. split; [apply valid_views_nil|]. right. right. done.
  - split; [done|]. left. by exists raw.
Qed.

(** The sessions a panel goes through, other tabs included. *)
Inductive panel_reachable : Session → Prop :=
| reach_mount search raw : panel_reachable (mkSession (mount kind search raw) raw [])
| reach_step a s : panel_reachable s → panel_reachable (panel_step kind accepts a s).

Lemma mount_valid search raw : valid_views kind (pn_views (mount kind search raw)).
Proof.
  unfold mount. destruct (loadSavedFilters kind raw) as [e|vs] eqn:E; simpl; [apply valid_views_nil|by eapply load_ok].
Qed.

Lemma reachable_valid s : panel_reachable s → valid_views kind (pn_views (ss_panel s)).
Proof using All. induction 1 as [search raw|a s _ IH]; [apply mount_valid|]. by apply panel_step_spec. Qed.
End panel.

(** ** Properties *)

(** The normal form of a filter URL is a fixed point: normalising it again
    changes nothing, unless writing it out made it longer than the limit. *)
Theorem normalize_idempotent `{U : Utf8Text} `{!Utf8Laws U} kind s t :
  normalizeFilterSearch kind s = inr t → String.length t ≤ 4096 → normalizeFilterSearch kind t = inr t.
Proof.
  intros Hs Hl. rewrite (normal_fixed kind t) by (by exists s). by destruct (Nat.ltb_spec 4096 (String.length t)); [lia|].
Qed.

(** C10: the saved filters panel, whatever is clicked and whatever other tabs write
    to the storage in between: the views it shows always have distinct ids,
    names that differ in more than case, at most 20 of them, in normal form;
    and after each click the storage is either untouched or loads exactly the
    views shown, without an error. *)
Theorem saved_filters_invariant `{U : Utf8Text} `{!Utf8Laws U} `{J : JsonText} `{!JsonTextLaws J} kind accepts s :
  panel_reachable kind accepts s →
  valid_views kind (pn_views (ss_panel s)) ∧
  ∀ a, (∀ raw, a ≠ PForeign raw) → let s' := panel_step kind accepts a s in
    ss_storage s' = ss_storage s ∨
    loadSavedFilters kind (ss_storage s') = inr (pn_views (ss_panel s')) ∧ pn_error (ss_panel s') = None.
Proof.
  intros Hr. pose proof (reachable_valid kind accepts s Hr) as Hv. split; [done|]. intros a Ha s'.
  destruct (panel_step_spec kind accepts a s Hv) as (_ & [[raw ->]|[?|?]]); [by destruct (Ha raw)|by left|by right].
Qed.

(** Saving keeps what other tabs saved: the new filter is added to the views
    the storage holds at that moment, all of which stay, or nothing is written
    and the error is shown. *)
Theorem save_keeps_others `{U : Utf8Text} `{!Utf8Laws U} `{J : JsonText} `{!JsonTextLaws J} kind accepts uuid search s vs :
  loadSavedFilters kind (ss_storage s) = inr vs →
  let s' := panel_step kind accepts (PSave uuid search) s in
  (ss_storage s' = ss_storage s ∧ is_Some (pn_error (ss_panel s'))) ∨
  ∃ t, normalizeFilterSearch kind search = inr t ∧
    loadSavedFilters kind (ss_storage s') = inr (vs ++ [mkSaved uuid (js_trim (pn_name (ss_panel s))) t]).
Proof.
  intros Hl. unfold panel_step.
  pose proof (update_spec kind accepts _ s (save_keeps_normal kind uuid (pn_name (ss_panel s)) search)) as Hu.
  destruct (update kind accepts _ s) as [s' [|]]; destruct Hu as [_ Hu]; simpl; [|by destruct Hu as (? & _ & ?); left].
  right. destruct Hu as (vs0 & vs' & Hl' & Hc & Hviews & _ & Hload & _). rewrite Hl in Hl'. injection Hl' as <-.
  destruct (normalizeFilterSearch kind search) as [e|t]; [done|]. injection Hc as <-. exists t. split; [done|].
  rewrite Hload, Hviews, fmap_app. do 2 f_equal. destruct (load_ok kind _ _ Hl) as [Hall _ _ _].
  clear -Hall. induction Hall as [|v vs Hv _ IH]; [done|]. rewrite fmap_cons, IH. destruct Hv as [_ (_ & -> & _) _].
  by destruct v.
Qed.

(** ** Witnesses *)

Lemma normalize_idempotent_witness :
  normalizeFilterSearch KInstances "definitionId=order&definitionVersion=2&status=ACTIVE&status=FAILED" =
  inr "definitionId=order&definitionVersion=2&status=ACTIVE&status=FAILED".
Proof.
  apply (normalize_idempotent KInstances "?status=FAILED&cursor=x&definitionVersion=002&definitionId=order&status=ACTIVE&status=FAILED").
  - vm_compute. reflexivity.
  - simpl. lia.
Defined.

Definition sample_session : Session := mkSession (mkPanel [] None " Open " EmptyString) None [].

Lemma save_keeps_others_witness :
  let s' := panel_step KInstances (λ _, true) (PSave "u" "?status=ACTIVE") sample_session in
  (ss_storage s' = ss_storage sample_session ∧ is_Some (pn_error (ss_panel s'))) ∨
  ∃ t, normalizeFilterSearch KInstances "?status=ACTIVE" = inr t ∧
    loadSavedFilters KInstances (ss_storage s') = inr ([] ++ [mkSaved "u" (js_trim " Open ") t]).
Proof. exact (save_keeps_others KInstances (λ _, true) "u" "?status=ACTIVE" sample_session [] eq_refl). Defined.

Lemma saved_filters_invariant_witness :
  valid_views KInstances (pn_views (mount KInstances "?status=ACTIVE" None)).
Proof.
  exact (proj1 (saved_filters_invariant KInstances (λ _, true) _ (reach_mount KInstances (λ _, true) "?status=ACTIVE" None))).
Defined.

(** The save goes through and the other branch is not taken. *)
Example save_sample :
  pn_views (ss_panel (panel_step KInstances (λ _, true) (PSave "u" "?status=ACTIVE") sample_session)) =
  [mkSaved "u" "Open" "status=ACTIVE"].
Proof. vm_compute. reflexivity. Qed.
