(* ===== verification/Routes.v ===== *)
(** * The list pages of the Monitor (workflow-monitor/src/App.tsx,
    routes/ProcessInstancesRoute.tsx, IncidentsRoute.tsx, OverviewRoute.tsx)

    The locations the pages push, the view a location opens, the requests the
    pages send, and the parameters the API reads from them.  The markup is not
    modelled. *)

From S2P Require Import Prelude JsObject Peg ImportExport Utc Cursor Paging Instances Context Incidents Overview UrlParams ListFilters.

#[local] Arguments String.append !_ _ / : simpl nomatch.

(** ** Locations *)

Record Location := mkLocation { lo_pathname : string; lo_search : string }.

(** The segments a browser drops or resolves in a path. *)
Definition single_dot (s : string) : bool := includes ["."; "%2e"; "%2E"] s.

Definition double_dot (s : string) : bool :=
  existsb (λ a, existsb (λ b, String.eqb s (a ⊕ b)) ["."; "%2e"; "%2E"]) ["."; "%2e"; "%2E"].

Fixpoint resolve (acc segments : list string) : list string :=
  match segments with
  | [] => acc
  | s :: rest =>
      let tail := match rest with [] => [EmptyString] | _ => [] end in
      if single_dot s then resolve (acc ++ tail) rest
      else if double_dot s then resolve (removelast acc ++ tail) rest
      else resolve (acc ++ [s]) rest
  end.

Definition join_path (segments : list string) : string := foldr (λ s r, "/" ⊕ s ⊕ r) EmptyString segments.

(** [pushState] with a target that starts with a slash and has no fragment. *)
Definition location_of (target : string) : Location :=
  let '(path, query) := cut "?" target in
  mkLocation (join_path (resolve [] (tail (pieces "/" path))))
    (match query with Some q => if truthy_str q then "?" ⊕ q else EmptyString | None => EmptyString end).

(** The browser: the locations before, the latest last, and the current one. *)
Record Browser := mkBrowser { br_past : list Location; br_current : Location }.

Definition push (target : string) (b : Browser) : Browser :=
  mkBrowser (br_past b ++ [br_current b]) (location_of target).

Definition back (b : Browser) : Browser :=
  match last (br_past b) with
  | Some l => mkBrowser (removelast (br_past b)) l
  | None => b
  end.

(** ** The view of a location *)

Inductive View :=
| ProcessInstances (search : string)
| OverviewPage (search : string)
| ProcessInstance (instanceId search : string)
| IncidentsPage (search : string)
| IncidentPage (incidentId : string)
| NotFoundPage
| Crashed.

(** [/^<prefix>([^/]+)$/] *)
Definition match_segment (prefix path : string) : option string :=
  if String.prefix prefix path then
    let rest := String.substring (String.length prefix) (String.length path - String.length prefix) path in
    if truthy_str rest && all_chars (λ c, negb (Ascii.eqb c "/")) rest then Some rest else None
  else None.

Section views.
Context `{Utf8Text}.

(** The content of [App]; [decodeURIComponent] of a malformed id throws. *)
Definition app_view (l : Location) : View :=
  let path := lo_pathname l in
  if String.eqb path "/" then ProcessInstances (lo_search l)
  else if String.eqb path "/overview" then OverviewPage (lo_search l)
  else
    match match_segment "/process-instances/" path with
    | Some s => match uri_decode s with Some id => ProcessInstance id (lo_search l) | None => Crashed end
    | None =>
        if String.eqb path "/incidents" then IncidentsPage (lo_search l)
        else
          match match_segment "/incidents/" path with
          | Some s => match uri_decode s with Some id => IncidentPage id | None => Crashed end
          | None => NotFoundPage
          end
    end.

Definition instance_path (id : string) : string := "/process-instances/" ⊕ uri_encode id.

Definition incident_path (id : string) : string := "/incidents/" ⊕ uri_encode id.

(** ** Process instances *)

Record InstanceFilters := mkInstanceFilters {
  f_definitionVersion : string;
  f_currentStepId : string;
  f_stepStartedBefore : string;
  f_businessKey : string;
  f_definitionId : string;
  f_from : string;
  f_statuses : list string;
  f_to : string
}.

Definition text_of (name : string) (ps : Params) : string := default EmptyString (params_get name ps).

Definition filtersFromSearch (search : string) : InstanceFilters :=
  let ps := params_parse search in
  mkInstanceFilters (text_of "definitionVersion" ps) (text_of "currentStepId" ps) (text_of "stepStartedBefore" ps)
    (text_of "businessKey" ps) (text_of "definitionId" ps) (text_of "from" ps) (params_getAll "status" ps)
    (text_of "to" ps).

Definition set_if (name value : string) (ps : Params) : Params :=
  if truthy_str value then params_set name value ps else ps.

Definition filter_params (f : InstanceFilters) : Params :=
  let ps := set_if "definitionId" (f_definitionId f) [] in
  let ps := set_if "definitionVersion" (f_definitionVersion f) ps in
  let ps := set_if "currentStepId" (f_currentStepId f) ps in
  let ps := set_if "stepStartedBefore" (f_stepStartedBefore f) ps in
  let ps := foldl (λ ps s, params_append "status" s ps) ps (f_statuses f) in
  let ps := set_if "businessKey" (f_businessKey f) ps in
  let ps := set_if "from" (f_from f) ps in
  set_if "to" (f_to f) ps.

(** What the page keeps, besides its query. *)
Record ListPage := mkListPage {
  lp_lookupId : string;
  lp_lookupError : option string;
  lp_filters : InstanceFilters;
  lp_filterError : option string
}.

(** [applyFilters]: the page after it and the location it pushes, if any. *)
Definition applyFilters (p : ListPage) : ListPage * option string :=
  let f := lp_filters p in
  let error := timeRangeError (f_from f) (f_to f) in
  let p := mkListPage (lp_lookupId p) (lp_lookupError p) f error in
  match error with
  | Some _ => (p, None)
  | None => (p, Some ("/" ⊕ search_of (filter_params f)))
  end.

Definition cursor_params (search : string) (cursor : option string) : Params :=
  let ps := params_parse search in
  match cursor with
  | Some c => if truthy_str c then params_set "cursor" c ps else params_delete "cursor" ps
  | None => params_delete "cursor" ps
  end.

Definition moveToCursor (search : string) (cursor : option string) : string := "/" ⊕ search_of (cursor_params search cursor).

Definition hasCursor (search : string) : bool := params_has "cursor" (params_parse search).

(** The box of a status, checked or not. *)
Definition toggle_status (status : string) (checked : bool) (f : InstanceFilters) : InstanceFilters :=
  mkInstanceFilters (f_definitionVersion f) (f_currentStepId f) (f_stepStartedBefore f) (f_businessKey f)
    (f_definitionId f) (f_from f)
    (if checked then f_statuses f ++ [status] else List.filter (λ s, negb (String.eqb s status)) (f_statuses f)) (f_to f).

(** The form that opens an instance by its id. *)
Definition lookup_instance (p : ListPage) : ListPage * option string :=
  let id := js_trim (lp_lookupId p) in
  if negb (truthy_str id) then
    (mkListPage (lp_lookupId p) (Some "Enter an Instance ID.") (lp_filters p) (lp_filterError p), None)
  else (mkListPage (lp_lookupId p) None (lp_filters p) (lp_filterError p), Some (instance_path id)).

(** ** Incidents *)

Record IncidentForm := mkIncidentForm { g_definitionId : string; g_from : string; g_jobType : string; g_to : string }.

Definition incidentFiltersFromSearch (search : string) : IncidentForm :=
  let ps := params_parse search in
  mkIncidentForm (text_of "definitionId" ps) (text_of "from" ps) (text_of "jobType" ps) (text_of "to" ps).

Definition incident_params (f : IncidentForm) : Params :=
  let ps := set_if "definitionId" (g_definitionId f) [] in
  let ps := set_if "jobType" (g_jobType f) ps in
  let ps := set_if "from" (g_from f) ps in
  set_if "to" (g_to f) ps.

(** The error, or the location pushed. *)
Definition applyIncidentFilters (f : IncidentForm) : string + string :=
  match timeRangeError (g_from f) (g_to f) with
  | Some e => inl e
  | None => inr ("/incidents" ⊕ search_of (incident_params f))
  end.

Definition moveToIncidentCursor (search : string) (cursor : option string) : string :=
  "/incidents" ⊕ search_of (cursor_params search cursor).

(** The link of an incident to its instance. *)
Definition processInstancePath (instanceId stepId : string) : string :=
  instance_path instanceId ⊕ "?stepId=" ⊕ uri_encode stepId.

(** ** The overview *)

Definition definitions_request (search : string) : Params :=
  let ps := params_parse search in
  let q := set_if "workflow" (text_of "workflow" ps) [] in
  set_if "cursor" (text_of "cursor" ps) q.

Definition steps_request (search : string) : Params :=
  let ps := params_parse search in
  let q := [("definitionId", text_of "definitionId" ps); ("definitionVersion", text_of "definitionVersion" ps);
            ("minStepAgeSeconds", default "1800" (params_get "minStepAgeSeconds" ps))] in
  set_if "cursor" (text_of "stepCursor" ps) q.

Definition updateLocation (search : string) (updates : list (string * option string)) : string :=
  let next := foldl (λ ps u, match u.2 with None => params_delete u.1 ps | Some v => params_set u.1 v ps end)
                (params_parse search) updates in
  "/overview?" ⊕ params_toString next.

Definition searchWorkflows (search value : string) : string :=
  let next := js_trim value in
  updateLocation search [("workflow", if truthy_str next then Some next else None); ("cursor", None);
    ("definitionId", None); ("definitionVersion", None); ("stepCursor", None)].

Definition instanceLink (id version : string) (statuses : list string) (stepId cutoff : option string) : string :=
  let q := [("definitionId", id); ("definitionVersion", version)] in
  let q := foldl (λ q s, params_append "status" s q) q statuses in
  let q := set_if "currentStepId" (default EmptyString stepId) q in
  let q := set_if "stepStartedBefore" (default EmptyString cutoff) q in
  "/?" ⊕ params_toString q.
End views.

(** ** What the API reads *)

(** The query of a request as the server parses it: a name that is given once
    is a text, one that is repeated a list (only [status] may be, by the types). *)
Definition text_query (name : string) (ps : Params) : option string :=
  match params_getAll name ps with [v] => Some v | _ => None end.

Definition status_query (ps : Params) : option StatusParam :=
  match params_getAll "status" ps with
  | [] => None
  | [v] => Some (OneStatus v)
  | l => Some (ManyStatuses l)
  end.

Definition server_filters (ps : Params) : ProcessInstanceFilters :=
  mkFilters (text_query "definitionId" ps) (text_query "definitionVersion" ps) (text_query "currentStepId" ps)
    (text_query "stepStartedBefore" ps) (status_query ps) (text_query "businessKey" ps) (text_query "from" ps)
    (text_query "to" ps).

Definition server_incident_filters (ps : Params) : IncidentFilters :=
  mkIncidentFilters (text_query "definitionId" ps) (text_query "jobType" ps) (text_query "from" ps) (text_query "to" ps).

Section requests.
Context `{JsonText} `{Sha256} `{Utf8Text} `{DateText} `{Postgres}.

(** What the page of instances shows at a location: [listProcessInstances(search)]. *)
Definition instances_at (db : Database) (search : string) : ListResult ProcessInstanceListItem :=
  let ps := params_parse search in
  list_instances db (server_filters ps) (text_query "pageSize" ps) (text_query "cursor" ps).

Definition incidents_at (sn : Snapshot) (search : string) : ListResult IncidentListItem :=
  let ps := params_parse search in
  list_incidents sn (server_incident_filters ps) (text_query "pageSize" ps) (text_query "cursor" ps).

(** Clicking Next until there is no next page: the items shown. *)
Fixpoint browse {Item} (fetch : string → ListResult Item) (next : string → option string → string)
    (fuel : nat) (search : string) : option (list Item) :=
  match fuel with
  | O => None
  | S fuel =>
      match fetch search with
      | Page items None => Some items
      | Page items (Some c) =>
          rest ← browse fetch next fuel (lo_search (location_of (next search (Some c)))); Some (items ++ rest)
      | _ => None
      end
  end.
End requests.
