(* ===== verification/RoutesProps.v ===== *)
(** * What the list pages of the Monitor promise

    What a page writes into the URL it reads back; Next asks for the same
    filters from where the page ended, so that clicking through shows what the
    API lists; a count of the overview is the number of instances its link
    opens; and a saved filter is one the API accepts.  The frame of
    App.tsx around the pages is at the end. *)

From stdpp Require Import sorting.
From S2P Require Import Prelude JsObject Peg Schema ImportExport Utc Cursor Paging Conditions Instances InstancesProps Context Executions Incidents IncidentsProps Overview OverviewProps UrlParams ListFilters SavedFilters SavedFiltersProps Routes.

#[local] Arguments String.append !_ _ / : simpl nomatch.

(** ** Parameters in a URL *)

Definition opt_pair (n v : string) : Params := if truthy_str v then [(n, v)] else [].

Lemma set_if_fresh n v ps : n ∉ ps.*1 → set_if n v ps = ps ++ opt_pair n v.
Proof.
  intros Hn. unfold set_if, opt_pair. destruct (truthy_str v); [by apply params_set_fresh|by rewrite app_nil_r].
Qed.

Lemma getAll_opt n m v : params_getAll n (opt_pair m v) = if String.eqb m n then (if truthy_str v then [v] else []) else [].
Proof.
  unfold opt_pair. destruct (truthy_str v); [|by destruct (String.eqb m n)]. rewrite params_getAll_cons. done.
Qed.

Lemma getAll_pairs n m l : params_getAll n (pair m <$> l) = if String.eqb m n then l else [].
Proof.
  induction l as [|v l IH]; [by destruct (String.eqb m n)|]. rewrite fmap_cons, params_getAll_cons, IH. simpl.
  by destruct (String.eqb m n).
Qed.

Lemma opt_keys (n v k : string) : k ∈ (opt_pair n v).*1 → k = n.
Proof. unfold opt_pair. destruct (truthy_str v); simpl; set_solver. Qed.

Lemma pairs_keys (n k : string) (l : list string) : k ∈ (pair n <$> l).*1 → k = n.
Proof. by intros (p & -> & (v & -> & _)%list_elem_of_fmap)%list_elem_of_fmap. Qed.

Ltac fresh_key :=
  let H := fresh in rewrite ?fmap_app; intros H; repeat (apply elem_of_app in H as [H|H]);
  first [by apply not_elem_of_nil in H|apply opt_keys in H|apply pairs_keys in H]; discriminate.

(** The parameters the form writes. *)
Lemma filter_params_list f :
  filter_params f =
  opt_pair "definitionId" (f_definitionId f) ++ opt_pair "definitionVersion" (f_definitionVersion f) ++
  opt_pair "currentStepId" (f_currentStepId f) ++ opt_pair "stepStartedBefore" (f_stepStartedBefore f) ++
  (pair "status" <$> f_statuses f) ++ opt_pair "businessKey" (f_businessKey f) ++ opt_pair "from" (f_from f) ++
  opt_pair "to" (f_to f).
Proof.
  unfold filter_params. rewrite foldl_append.
  rewrite (set_if_fresh "definitionId"), app_nil_l by apply not_elem_of_nil.
  rewrite (set_if_fresh "definitionVersion") by fresh_key.
  rewrite (set_if_fresh "currentStepId") by fresh_key.
  rewrite (set_if_fresh "stepStartedBefore") by fresh_key.
  rewrite (set_if_fresh "businessKey") by fresh_key.
  rewrite (set_if_fresh "from") by fresh_key.
  rewrite (set_if_fresh "to") by fresh_key.
  by rewrite !app_assoc.
Qed.

Lemma text_of_getAll n ps : text_of n ps = default EmptyString (head (params_getAll n ps)).
Proof. unfold text_of. by rewrite params_get_head. Qed.

Lemma default_opt v : default EmptyString (head (if truthy_str v then [v] else [])) = v.
Proof. destruct (truthy_str v) eqn:E; [done|]. by apply truthy_str_false in E. Qed.

(** Reads one name off parameters that are written out. *)
Ltac read_name := rewrite ?params_getAll_app, ?getAll_opt, ?getAll_pairs; cbn; rewrite ?app_nil_r.

Section urls.
Context `{U : Utf8Text} `{!Utf8Laws U}.

Lemma toString_nonempty p ps : truthy_str (params_toString (p :: ps)) = true.
Proof.
  assert (∃ a b, params_toString (p :: ps) = a ⊕ String "=" b) as (a & b & ->).
  { destruct ps as [|q ps]; [by exists (form_write p.1), (form_write p.2)|].
    exists (form_write p.1), (form_write p.2 ⊕ "&" ⊕ params_toString (q :: ps)).
    cbn [params_toString]. unfold write_pair. by rewrite !str_app_assoc. }
  by destruct a.
Qed.

(** The search of a location that was pushed. *)
Lemma location_search path ps :
  all_chars (λ c, negb (Ascii.eqb c "?")) path = true → lo_search (location_of (path ⊕ search_of ps)) = search_of ps.
Proof.
  intros Hp. unfold location_of. destruct ps as [|p ps].
  - simpl. rewrite str_app_nil_r. assert (cut "?" path = (path, None)) as ->; [|done].
    clear -Hp. induction path as [|c path IH]; [done|]. simpl in *. apply andb_true_iff in Hp as [Hc Hp].
    apply negb_true_iff in Hc. rewrite Hc. by rewrite IH.
  - unfold search_of. change ("?" ⊕ params_toString (p :: ps)) with (String "?" (params_toString (p :: ps))).
    rewrite cut_app by done. cbn [lo_search]. by rewrite toString_nonempty.
Qed.

Lemma parse_location path ps :
  all_chars (λ c, negb (Ascii.eqb c "?")) path = true → params_parse (lo_search (location_of (path ⊕ search_of ps))) = ps.
Proof. intros Hp. rewrite location_search by done. apply params_parse_search. Qed.
End urls.

(** ** Clicking Next *)

Lemma text_query_set n c ps : n ≠ "cursor" → text_query n (params_set "cursor" c ps) = text_query n ps.
Proof. intros Hn. unfold text_query. rewrite params_getAll_set. apply String.eqb_neq in Hn. by rewrite Hn. Qed.

Lemma server_filters_cursor c ps : server_filters (params_set "cursor" c ps) = server_filters ps.
Proof.
  unfold server_filters, status_query. rewrite !text_query_set by done. by rewrite params_getAll_set.
Qed.

(** Clicking through the pages asks the endpoint for page after page. *)
Lemma browse_pages `{U : Utf8Text} {Item} (fetch : string → ListResult Item) next (page : option string → ListResult Item)
    (at_ : option string → string → Prop) :
  (∀ c s, at_ c s → fetch s = page c) →
  (∀ c s items n, at_ c s → page c = Page items (Some n) → at_ (Some n) (lo_search (location_of (next s (Some n))))) →
  ∀ fuel c s, at_ c s → browse fetch next fuel s = all_pages fuel page c.
Proof.
  intros Hf Hn. induction fuel as [|fuel IH]; intros c s Ha; [done|]. cbn [browse all_pages]. rewrite (Hf c s Ha).
  destruct (page c) as [| | |items [n|]] eqn:E; try done. by rewrite (IH (Some n) _ (Hn c s items n Ha E)).
Qed.

Section browsing.
Context `{J : JsonText} `{!JsonTextLaws J} `{Sha256} `{U : Utf8Text} `{!Utf8Laws U} `{D : DateText} `{P : Postgres}.

(** A location that asks for the filters and page size of [ps] from a cursor. *)
Definition asks (ps : Params) (c : option string) (s : string) : Prop :=
  server_filters (params_parse s) = server_filters ps ∧ text_query "pageSize" (params_parse s) = text_query "pageSize" ps ∧
  text_query "cursor" (params_parse s) = c.

Lemma next_cursor_nonempty db f size c items n :
  list_instances db f size c = Page items (Some n) → n ≠ EmptyString.
Proof using JsonTextLaws0 Utf8Laws0.
  unfold list_instances. destruct (validateFilters f); [done|]. destruct (pageSize size) as [limit|]; [|done].
  destruct (match c with Some _ => _ | None => _ end); [|done]. destruct (query_instances _ _ _); [|done].
  unfold page_of. intros [= _ Hn]. destruct (Nat.ltb _ _); [|done]. destruct (last _) as [item|]; [|done]. injection Hn as <-.
  apply encode_text_nonempty, stringify_nonempty.
Qed.

(** Clicking Next shows what the API lists for the filters of the location. *)
Lemma browse_instances db fuel search :
  let ps := params_parse search in
  browse (instances_at db) moveToCursor fuel search =
  all_pages fuel (list_instances db (server_filters ps) (text_query "pageSize" ps)) (text_query "cursor" ps).
Proof using JsonTextLaws0 Utf8Laws0.
  intros ps. apply (browse_pages _ _ _ (asks ps)).
  - intros c s (Hf & Hp & Hc). unfold instances_at. by rewrite Hf, Hp, Hc.
  - intros c s items n (Hf & Hp & Hc) Hpage. apply next_cursor_nonempty, truthy_str_true in Hpage.
    unfold asks, moveToCursor. rewrite parse_location by done. unfold cursor_params. rewrite Hpage.
    rewrite server_filters_cursor, text_query_set by done. split_and!; [done..|].
    unfold text_query. by rewrite params_getAll_set.
  - done.
Qed.
End browsing.

(** ** Links of the overview *)

Section links.
Context `{J : JsonText} `{!JsonTextLaws J} `{Sha256} `{U : Utf8Text} `{!Utf8Laws U} `{D : DateText} `{!DateTextLaws D}
  `{P : Postgres} `{!PostgresLaws P}.

Definition link_params (id version : string) (statuses : list string) (stepId cutoff : option string) : Params :=
  [("definitionId", id); ("definitionVersion", version)] ++ (pair "status" <$> statuses) ++
  opt_pair "currentStepId" (default EmptyString stepId) ++ opt_pair "stepStartedBefore" (default EmptyString cutoff).

Lemma instanceLink_params id version statuses stepId cutoff :
  params_parse (lo_search (location_of (instanceLink id version statuses stepId cutoff))) =
  link_params id version statuses stepId cutoff.
Proof.
  unfold instanceLink. rewrite foldl_append.
  rewrite (set_if_fresh "currentStepId") by (rewrite fmap_app; intros [Hk|Hk]%elem_of_app; [set_solver|apply pairs_keys in Hk; done]).
  rewrite (set_if_fresh "stepStartedBefore")
    by (rewrite !fmap_app; intros [[Hk|Hk]%elem_of_app|Hk]%elem_of_app; [set_solver|apply pairs_keys in Hk; done|apply opt_keys in Hk; done]).
  rewrite <- !app_assoc. exact (parse_location "/" (link_params id version statuses stepId cutoff) eq_refl).
Qed.

(** The rows a location without a cursor shows, clicked through. *)
Lemma browse_filters db search f :
  server_filters (params_parse search) = f → text_query "pageSize" (params_parse search) = None →
  text_query "cursor" (params_parse search) = None →
  validateFilters f = None → readable f → NoDup (ir_id <$> db_instances db) →
  (∀ r, r ∈ db_instances db → ir_id r ≠ EmptyString) → whole_milliseconds db →
  ∃ rows, browse (instances_at db) moveToCursor (S (length (db_instances db))) search = Some (list_item <$> rows) ∧
    NoDup rows ∧ (∀ r, r ∈ rows ↔ r ∈ db_instances db ∧ matches db f r).
Proof using All.
  intros Hsf Hsize Hcursor Hf Hr Hids Hne Hms.
  destruct (instance_pages db f None 50 Hf Hr eq_refl Hids Hne Hms) as (rows & Hp & Hn & _ & Hin).
  exists rows. split_and!; [|done|done]. rewrite browse_instances, Hsf, Hsize, Hcursor. exact Hp.
Qed.

(** Tables the counts and the lists agree on. *)
Record listed_tables (db : Database) : Prop := {
  lt_ids : NoDup (ir_id <$> db_instances db);
  lt_nonempty r : r ∈ db_instances db → ir_id r ≠ EmptyString;
  lt_definitions r : r ∈ db_instances db → ir_definition_id r ≠ EmptyString ∧ (1 ≤ ir_definition_version r ≤ 2147483647)%Z;
  lt_steps r : r ∈ db_instances db → EmptyString ∉ ir_current_step_ids r;
  lt_times : whole_milliseconds db
}.

Lemma link_version n : (1 ≤ n ≤ 2147483647)%Z →
  negb (all_digits (pretty n)) || (digits_value (pretty n) <? 1)%Z || (2147483647 <? digits_value (pretty n))%Z = false.
Proof.
  intros Hn. destruct (pretty_Z_digits n) as [-> ->]; [lia|]. destruct (Z.ltb_spec n 1); [lia|].
  by destruct (Z.ltb_spec 2147483647 n); [lia|].
Qed.

(** The list behind the count of a status. *)
Lemma browse_status db id version status :
  listed_tables db → id ≠ EmptyString → (1 ≤ version ≤ 2147483647)%Z → status ∈ PROCESS_INSTANCE_STATUSES →
  ∃ items, browse (instances_at db) moveToCursor (S (length (db_instances db)))
      (lo_search (location_of (instanceLink id (pretty version) [status] None None))) = Some items ∧
    length items = length (filter (λ i, (ir_definition_id i, ir_definition_version i) = (id, version) ∧ ir_status i = status)
      (db_instances db)).
Proof using All.
  intros Ht Hid Hv Hs. set (f := mkFilters (Some id) (Some (pretty version)) None None (Some (OneStatus status)) None None None).
  destruct (browse_filters db (lo_search (location_of (instanceLink id (pretty version) [status] None None))) f)
    as (rows & Hb & Hn & Hin); try apply Ht.
  1-3: rewrite instanceLink_params; done.
  - unfold validateFilters. simpl. rewrite link_version by done. apply truthy_str_true in Hid. unfold truthy_ostr. rewrite Hid.
    unfold includes. rewrite (bool_decide_eq_true_2 _ Hs). done.
  - intros o s Ho [-> _]. exfalso. simpl in Ho. set_solver.
  - exists (list_item <$> rows). split; [done|]. rewrite length_fmap.
    apply length_listing; [by apply (NoDup_fmap_1 ir_id), Ht|done|]. intros r. rewrite Hin.
    destruct (pretty_Z_digits version) as [Hd Had]; [lia|]. unfold f. rewrite matches_status by done. rewrite Hd. naive_solver.
Qed.

(** The list behind the counts of a step. *)
Lemma browse_step db id version step cutoff :
  listed_tables db → id ≠ EmptyString → (1 ≤ version ≤ 2147483647)%Z → step ≠ EmptyString →
  (∀ c, cutoff = Some c → whole_ms c) →
  ∃ items, browse (instances_at db) moveToCursor (S (length (db_instances db)))
      (lo_search (location_of (instanceLink id (pretty version) ["ACTIVE"; "WAITING"] (Some step)
        ((λ c, toISOString (js_date c)) <$> cutoff)))) = Some items ∧
    length items = length (filter (λ i, live_at id version step i ∧
      match cutoff with
      | Some c => running (latest_execution db (ir_id i) step) && started_before c (latest_execution db (ir_id i) step)
      | None => true
      end = true) (db_instances db)).
Proof using All.
  intros Ht Hid Hv Hs Hc. set (text := (λ c, toISOString (js_date c)) <$> cutoff).
  assert (∀ c, cutoff = Some c → isUtcTimestamp (toISOString (js_date c)) = true) as Hutc
    by (intros c E; apply toISOString_accepted, (Hc c E)).
  assert (∀ c, cutoff = Some c → truthy_str (toISOString (js_date c)) = true) as Htr.
  { intros c E. apply truthy_str_true. intros E'. specialize (Hutc c E). by rewrite E' in Hutc. }
  set (f := mkFilters (Some id) (Some (pretty version)) (Some step) text (Some (ManyStatuses ["ACTIVE"; "WAITING"])) None None None).
  destruct (browse_filters db (lo_search (location_of (instanceLink id (pretty version) ["ACTIVE"; "WAITING"] (Some step) text))) f)
    as (rows & Hb & Hn & Hin); try apply Ht.
  - rewrite instanceLink_params. unfold link_params, server_filters, status_query, text_query. apply truthy_str_true in Hs.
    rewrite !params_getAll_app, !getAll_opt, !getAll_pairs. unfold f.
    assert (∀ t, text = Some t → truthy_str t = true) as Htext
      by (unfold text; intros t E; destruct cutoff as [c|]; [|done]; injection E as <-; by apply Htr).
    destruct text as [t|]; [specialize (Htext t eq_refl)|]; cbn; rewrite Hs; [by rewrite Htext|done].
  - rewrite instanceLink_params. unfold link_params, text_query. rewrite !params_getAll_app, !getAll_opt, !getAll_pairs. done.
  - rewrite instanceLink_params. unfold link_params, text_query. rewrite !params_getAll_app, !getAll_opt, !getAll_pairs. done.
  - unfold validateFilters, f. cbn [pf_definitionVersion pf_definitionId pf_currentStepId pf_stepStartedBefore pf_status pf_from pf_to].
    rewrite link_version by done. apply truthy_str_true in Hid, Hs. unfold truthy_ostr. rewrite Hid, Hs.
    unfold text. destruct cutoff as [c|]; cbn [fmap option_fmap option_map]; [rewrite (Hutc c eq_refl)|]; done.
  - intros o s Ho [-> _]. assert (Some s = text) as E by (simpl in Ho; set_solver). unfold text in E.
    destruct cutoff as [c|]; [|done]. injection E as ->. rewrite timestamptz_of_date by (by apply Hc). by eexists.
  - exists (list_item <$> rows). split; [done|]. rewrite length_fmap.
    apply length_listing; [by apply (NoDup_fmap_1 ir_id), Ht|done|]. intros r. rewrite Hin.
    destruct (pretty_Z_digits version) as [Hd Had]; [lia|]. unfold f.
    rewrite (matches_live db id (pretty version) Hid Had step text (default 0%Z cutoff)).
    + rewrite Hd. assert ((∃ t, given text t) ↔ is_Some cutoff) as Hg.
      { unfold text, given. destruct cutoff as [c|]; simpl; [|split; [by intros (? & ? & _)|by intros [? ?]]].
        split; [by eexists|]. intros _. eexists. split; [done|]. apply truthy_str_true. by apply Htr. }
      destruct cutoff as [c|]; cbn [default].
      * rewrite andb_true_iff. split; [intros (? & ? & Hx)|intros (? & ? & Hx)]; split_and!; try done; apply Hx, Hg; by eexists.
      * split; [intros (? & ? & _)|intros (? & ? & _)]; split_and!; try done. intros Hx%Hg. by destruct Hx.
    + done.
    + intros t [Ht' _]. unfold text in Ht'. destruct cutoff as [c|]; [|done]. injection Ht' as <-.
      apply timestamptz_of_date. by apply Hc.
Qed.
End links.

(** ** Saved filters and the API *)

Lemma given_query n v ps :
  params_getAll n ps = (if truthy_str v then [v] else []) → ∀ s, given (text_query n ps) s ↔ s = v ∧ s ≠ EmptyString.
Proof.
  intros Hall s. unfold given, text_query. rewrite Hall. destruct (truthy_str v) eqn:Ev.
  - apply truthy_str_true in Ev. naive_solver.
  - apply truthy_str_false in Ev as ->. naive_solver.
Qed.

(** A name that is given at most once. *)
Lemma query_once n ps : length (params_getAll n ps) ≤ 1 →
  (∀ s, given (text_query n ps) s ↔ s = get_or n ps ∧ s ≠ EmptyString) ∧ default EmptyString (text_query n ps) = get_or n ps.
Proof.
  intros Hl. unfold given, text_query, get_or. rewrite params_get_head. destruct (params_getAll n ps) as [|v [|w l]]; simpl in *.
  - naive_solver.
  - naive_solver.
  - lia.
Qed.

Lemma status_values ps : statusValues (pf_status (server_filters ps)) = params_getAll "status" ps.
Proof. unfold server_filters, status_query. cbn [pf_status]. by destruct (params_getAll "status" ps) as [|a [|b l]]. Qed.

(** The parameters that decide which instances a query asks for. *)
Definition same_query (ps qs : Params) : Prop :=
  (∀ n, n ∈ ["definitionId"; "definitionVersion"; "currentStepId"; "stepStartedBefore"; "businessKey"; "from"; "to"] →
     length (params_getAll n ps) ≤ 1 ∧ length (params_getAll n qs) ≤ 1) ∧
  (∀ n, n ∈ ["definitionId"; "currentStepId"; "stepStartedBefore"; "businessKey"; "from"; "to"] → get_or n ps = get_or n qs) ∧
  (get_or "definitionVersion" ps = EmptyString ↔ get_or "definitionVersion" qs = EmptyString) ∧
  digits_value (get_or "definitionVersion" ps) = digits_value (get_or "definitionVersion" qs) ∧
  (∀ s, s ∈ params_getAll "status" ps ↔ s ∈ params_getAll "status" qs).

Lemma same_query_sym ps qs : same_query ps qs → same_query qs ps.
Proof.
  intros (H1 & H2 & H3 & H4 & H5). split_and!; try (symmetry; auto).
  intros n Hn. specialize (H1 n Hn). tauto.
Qed.

Lemma same_query_matches `{Postgres} db ps qs r :
  same_query ps qs → matches db (server_filters ps) r → matches db (server_filters qs) r.
Proof.
  intros (Hone & Hsame & Hv & Hd & Hst) [M1 M2 M3 M4 M5 M6 M7 M8].
  assert (∀ n, n ∈ ["definitionId"; "currentStepId"; "stepStartedBefore"; "businessKey"; "from"; "to"] →
    ∀ s, given (text_query n qs) s → given (text_query n ps) s) as Hg.
  { intros n Hn s. destruct (Hone n) as [H1 H2]; [set_solver|].
    rewrite (proj1 (query_once n qs H2)), (proj1 (query_once n ps H1)), (Hsame n Hn). done. }
  split; unfold server_filters in *; cbn [pf_definitionId pf_definitionVersion pf_currentStepId pf_stepStartedBefore
    pf_status pf_businessKey pf_from pf_to] in *.
  - intros s Hs. apply M1, Hg; [set_solver|done].
  - intros s Hs. destruct (Hone "definitionVersion") as [H1 H2]; [set_solver|].
    apply (proj1 (query_once _ qs H2)) in Hs as [-> Hne]. rewrite <- Hd. apply M2, (proj1 (query_once _ ps H1)). split; [done|].
    by rewrite Hv.
  - intros s Hs. apply M3, Hg; [set_solver|done].
  - intros s t Hs Ht. destruct (Hone "currentStepId") as [H1 H2]; [set_solver|].
    rewrite (proj2 (query_once _ qs H2)), <- (Hsame "currentStepId"), <- (proj2 (query_once _ ps H1)) by set_solver.
    apply (M4 s t); [|done]. apply Hg; [set_solver|done].
  - change (status_query ?p) with (pf_status (server_filters p)) in *.
    rewrite (status_values ps) in M5. rewrite (status_values qs), <- Hst. intros Hne. apply M5. intros E. apply Hne.
    destruct (params_getAll "status" qs) as [|s l]; [done|]. exfalso. apply (not_elem_of_nil s). rewrite <- E, Hst. by left.
  - intros s Hs. apply M6, Hg; [set_solver|done].
  - intros s t Hs. apply M7, Hg; [set_solver|done].
  - intros s t Hs. apply M8, Hg; [set_solver|done].
Qed.

(** The normal form of the parameters of a list of instances. *)
Lemma emit_once source n : n ≠ "status" → n ∈ fields KInstances →
  params_getAll n (emit KInstances source) = if truthy_str (get_or n source) then [get_or n source] else [].
Proof.
  intros Hs Hn. rewrite emit_getAll, decide_True by done. unfold block. apply String.eqb_neq in Hs. rewrite Hs.
  by destruct (truthy_str _).
Qed.

Lemma emitted_query source n : filter_ok KInstances source → n ≠ "status" → n ∈ fields KInstances →
  text_query n (emit KInstances source) = if truthy_str (get_or n source) then Some (get_or n source) else None.
Proof. intros Hok Hs Hn. unfold text_query. rewrite emit_once by done. by destruct (truthy_str _). Qed.

(** Filters that pass every check. *)
Lemma validateFilters_accepts f :
  (∀ v, pf_definitionVersion f = Some v →
     negb (all_digits v) || (digits_value v <? 1)%Z || (2147483647 <? digits_value v)%Z = false ∧
     truthy_ostr (pf_definitionId f) = true) →
  (∀ s, pf_currentStepId f = Some s → s ≠ EmptyString ∧ truthy_ostr (pf_definitionId f) = true) →
  (∀ t, pf_stepStartedBefore f = Some t → truthy_ostr (pf_currentStepId f) = true ∧ isUtcTimestamp t = true) →
  (∀ s, s ∈ statusValues (pf_status f) → s ∈ PROCESS_INSTANCE_STATUSES) →
  timeRangeError (default EmptyString (pf_from f)) (default EmptyString (pf_to f)) = None →
  validateFilters f = None.
Proof.
  intros Hv Hs Hc Hst (Hfrom & Hto & Hlt)%timeRangeError_none. unfold validateFilters.
  assert (∀ o, truthy_ostr o = true → default EmptyString o ≠ EmptyString) as Hne
    by (intros [v|]; [by intros E%truthy_str_true|done]).
  destruct (pf_definitionVersion f) as [v|]; [destruct (Hv v eq_refl) as [-> ->]|]; cbn [negb orb];
    (destruct (pf_currentStepId f) as [s|]; [destruct (Hs s eq_refl) as [Hs'%truthy_str_true Hi]; rewrite Hs', ?Hi|]; cbn [negb orb]);
    (destruct (pf_stepStartedBefore f) as [t|]; [destruct (Hc t eq_refl) as [Hc1 Hc2]; try discriminate Hc1; rewrite ?Hc1, ?Hc2|]; cbn [negb orb]).
  all: rewrite existsb_none by (intros s0 Hin%Hst; unfold includes; by rewrite bool_decide_eq_true_2).
  all: rewrite existsb_none by (intros o [->|[->|[]%not_elem_of_nil]%elem_of_cons]%elem_of_cons;
    (match goal with |- truthy_ostr ?o && _ = false => destruct (truthy_ostr o) eqn:E; [apply Hne in E|done] end);
    cbn [andb]; [by rewrite (Hfrom E)|by rewrite (Hto E)]).
  all: destruct (truthy_ostr (pf_from f)) eqn:E1; [|done]; destruct (truthy_ostr (pf_to f)) eqn:E2; [|done].
  all: destruct (Hlt (Hne _ E1) (Hne _ E2)) as (a & b & -> & -> & Hab); cbn [andb]; by destruct (Z.leb_spec b a); [lia|].
Qed.

Lemma emit_accepted source :
  filter_ok KInstances source → validateFilters (server_filters (emit KInstances source)) = None.
Proof.
  intros Hok. pose proof (ok_statuses _ _ (emit_ok _ _ Hok)) as Hst.
  assert (∀ v, truthy_ostr (if truthy_str v then Some v else None) = truthy_str v) as Ho by (intros v; by destruct (truthy_str v) eqn:?).
  assert (∀ v, default EmptyString (if truthy_str v then Some v else None) = v) as Hdf
    by (intros v; destruct (truthy_str v) eqn:Ev; [done|by apply truthy_str_false in Ev]).
  assert (∀ v s, (if truthy_str v then Some v else None) = Some s → s = v ∧ v ≠ EmptyString) as Hsome
    by (intros v s; destruct (truthy_str v) eqn:Ev; [intros [= <-]; by apply truthy_str_true in Ev|done]).
  apply validateFilters_accepts; try (rewrite status_values; intros s Hin%Hst; unfold STATUSES, PROCESS_INSTANCE_STATUSES in *; set_solver).
  all: unfold server_filters; cbn [pf_definitionId pf_definitionVersion pf_currentStepId pf_stepStartedBefore pf_from pf_to].
  all: rewrite !emitted_query by (done || simpl; set_solver); rewrite ?Ho, ?Hdf.
  - intros v [-> Hne]%Hsome. destruct (ok_version _ _ Hok Hne) as (Hid & n & Hn & ->).
    split; [by apply link_version|by apply truthy_str_true].
  - intros s [-> Hne]%Hsome. split; [done|]. apply truthy_str_true. by apply (ok_step _ _ Hok).
  - intros t [-> Hne]%Hsome. destruct (ok_cutoff _ _ Hok Hne) as [Hs (Hu & _)%timeRangeError_none].
    split; [by apply truthy_str_true|by apply Hu].
  - apply Hok.
Qed.

Lemma normalize_same_query ps qs :
  normalize_params KInstances ps = inr qs → validateFilters (server_filters qs) = None ∧ same_query qs ps.
Proof.
  intros (source & Hok & -> & Hone & Hsame & Hv & Hd)%normalize_params_reads. split; [by apply emit_accepted|].
  split_and!.
  - intros n Hn. assert (n ≠ "status") as Hs by set_solver. assert (n ∈ fields KInstances) as Hf by (simpl; set_solver).
    split; [|by apply Hone]. rewrite emit_once by done. destruct (truthy_str _); simpl; lia.
  - intros n Hn. assert (n ≠ "status") as Hs by set_solver. rewrite (emit_get _ _ Hok) by done.
    unfold get_or. rewrite !params_get_head, Hsame; [done|simpl; set_solver|set_solver].
  - by rewrite (emit_get _ _ Hok).
  - by rewrite (emit_get _ _ Hok).
  - intros s. rewrite <- (Hsame "status") by (done || simpl; set_solver). rewrite emit_getAll, decide_True by (simpl; set_solver).
    unfold block. simpl. rewrite <- list_fmap_compose.
    assert ((snd ∘ pair "status") <$> statuses_of source = statuses_of source) as -> by apply list_fmap_id.
    unfold statuses_of. by rewrite sort_texts_perm, elem_of_remove_dups.
Qed.

Lemma list_path_search `{U : Utf8Text} `{!Utf8Laws U} qs :
  params_parse (lo_search (location_of (list_path KInstances (params_toString qs)))) = qs.
Proof.
  assert (list_path KInstances (params_toString qs) = "/" ⊕ search_of qs) as ->; [|by apply parse_location].
  unfold list_path, search_of. destruct qs as [|p qs]; [done|]. by rewrite toString_nonempty.
Qed.

(** What is saved: parameters the API accepts and that ask for the same
    instances, without a cursor or a page size. *)
Lemma saved_filter_faithful `{U : Utf8Text} `{!Utf8Laws U} `{Postgres} search saved :
  normalizeFilterSearch KInstances search = inr saved →
  ∃ qs, saved = params_toString qs ∧ params_parse saved = qs ∧
    params_parse (lo_search (location_of (list_path KInstances saved))) = qs ∧
    validateFilters (server_filters qs) = None ∧
    (text_query "pageSize" qs = None ∧ text_query "cursor" qs = None) ∧
    ∀ db r, matches db (server_filters qs) r ↔ matches db (server_filters (params_parse search)) r.
Proof.
  unfold normalizeFilterSearch. destruct (Nat.ltb _ _); [done|]. destruct (normalize_params _ _) as [e|qs] eqn:En; [done|].
  intros [= <-]. exists qs. split; [done|]. split; [apply params_parse_toString|]. split; [apply list_path_search|].
  destruct (normalize_same_query _ _ En) as [Hv Hs]. split; [done|]. split.
  - apply normalize_params_ok in En as (source & Hok & ->). unfold text_query.
    by rewrite !emit_getAll, !decide_False by (simpl; set_solver).
  - intros db r. split; apply same_query_matches; [done|by apply same_query_sym].
Qed.

(** ** Links to an instance or an incident *)

Section segments.
Context `{U : Utf8Text} `{!Utf8Laws U}.

Lemma utf8_decode_ascii s : all_chars (λ c, Nat.ltb (Ascii.nat_of_ascii c) 128) s = true → utf8_decode s = s.
Proof. intros Hs. rewrite <- (utf8_ascii s Hs) at 1. apply utf8_roundtrip. Qed.

Lemma uri_decode_ascii s b : uri_unbytes s = Some b → all_chars (λ c, Nat.ltb (Ascii.nat_of_ascii c) 128) b = true →
  uri_decode s = Some b.
Proof.
  intros Hb Ha. unfold uri_decode. rewrite Hb. cbn [mbind option_bind].
  by rewrite (utf8_decode_ascii b Ha), (utf8_ascii b Ha), String.eqb_refl.
Qed.

Lemma encoded_is id s b : uri_encode id = s → uri_unbytes s = Some b →
  all_chars (λ c, Nat.ltb (Ascii.nat_of_ascii c) 128) b = true → id = b.
Proof.
  intros E Hb Ha. pose proof (uri_decode_encode id) as Hd. rewrite E, (uri_decode_ascii s b Hb Ha) in Hd. congruence.
Qed.

(** Only the ids "." and ".." are encoded as segments a browser resolves. *)
Lemma encoded_dots id : id ≠ "." → id ≠ ".." → single_dot (uri_encode id) = false ∧ double_dot (uri_encode id) = false.
Proof.
  intros H1 H2. split; apply not_true_iff_false.
  - unfold single_dot. intros Hin%includes_true. apply list_elem_of_In in Hin.
    destruct Hin as [E|[E|[E|[]]]]; symmetry in E; apply H1; by apply (encoded_is _ _ "." E).
  - unfold double_dot. intros (a & Ha & (b & Hb & E%String.eqb_eq)%List.existsb_exists)%List.existsb_exists.
    destruct Ha as [<-|[<-|[<-|[]]]], Hb as [<-|[<-|[<-|[]]]]; apply H2; by apply (encoded_is _ _ ".." E).
Qed.

Lemma cut_none sep s : all_chars (λ c, negb (Ascii.eqb c sep)) s = true → cut sep s = (s, None).
Proof.
  induction s as [|c s IH]; simpl; [done|]. rewrite andb_true_iff, negb_true_iff. intros [-> Hs]. by rewrite IH.
Qed.

(** The location of a path of two segments, the second one encoded. *)
Lemma location_segment root id q :
  all_chars (λ c, negb (Ascii.eqb c "?") && negb (Ascii.eqb c "/")) root = true →
  single_dot root = false → double_dot root = false → id ≠ "." → id ≠ ".." →
  location_of (("/" ⊕ root ⊕ "/" ⊕ uri_encode id) ⊕ default EmptyString (append "?" <$> q)) =
  mkLocation ("/" ⊕ root ⊕ "/" ⊕ uri_encode id)
    (match q with Some x => if truthy_str x then "?" ⊕ x else EmptyString | None => EmptyString end).
Proof.
  intros Hroot Hs Hd H1 H2. set (path := "/" ⊕ root ⊕ "/" ⊕ uri_encode id).
  assert (all_chars (λ c, negb (Ascii.eqb c "?")) root = true ∧ all_chars (λ c, negb (Ascii.eqb c "/")) root = true) as [Hq Hsl]
    by (split; eapply all_chars_impl; try exact Hroot; intros c; simpl; rewrite andb_true_iff; tauto).
  assert (all_chars (λ c, negb (Ascii.eqb c "?")) path = true) as Hpath.
  { unfold path. rewrite !all_chars_app, Hq. unfold uri_encode. by rewrite uri_bytes_no. }
  assert (tail (pieces "/" path) = [root; uri_encode id]) as Hpieces.
  { unfold path. change (("/" ⊕ root ⊕ "/" ⊕ uri_encode id)) with (EmptyString ⊕ String "/" (root ⊕ String "/" (uri_encode id))).
    rewrite (pieces_app "/" EmptyString) by done. cbn [tail]. rewrite pieces_app by done.
    rewrite pieces_one; [done|]. by apply uri_bytes_no. }
  destruct (encoded_dots id H1 H2) as [Hs' Hd'].
  assert (join_path (resolve [] [root; uri_encode id]) = path) as Hjoin.
  { cbn [resolve]. rewrite Hs, Hd. cbn [app resolve]. rewrite Hs', Hd'. cbn [app resolve]. unfold join_path, path. simpl.
    by rewrite str_app_nil_r. }
  unfold location_of. destruct q as [x|]; cbn [default from_option fmap option_fmap option_map]; unfold Datatypes.id.
  - change ("?" ⊕ x) with (String "?" x). rewrite cut_app by done. by rewrite Hpieces, Hjoin.
  - rewrite str_app_nil_r, cut_none by done. by rewrite Hpieces, Hjoin.
Qed.
Lemma match_segment_app prefix x :
  x ≠ EmptyString → all_chars (λ c, negb (Ascii.eqb c "/")) x = true → match_segment prefix (prefix ⊕ x) = Some x.
Proof.
  intros Hx Hs. unfold match_segment.
  assert (String.prefix prefix (prefix ⊕ x) = true) as ->
    by (clear; induction prefix as [|c p IH]; simpl; [by destruct x|]; by destruct (ascii_dec c c)).
  rewrite length_str_app, Nat.add_comm, Nat.add_sub.
  assert (String.substring (String.length prefix) (String.length x) (prefix ⊕ x) = x) as ->.
  { clear. induction prefix as [|c p IH]; simpl; [|done]. induction x as [|c x IH]; simpl; [done|by rewrite IH]. }
  apply truthy_str_true in Hx. by rewrite Hx, Hs.
Qed.

Lemma encoded_segment id : id ≠ EmptyString →
  uri_encode id ≠ EmptyString ∧ all_chars (λ c, negb (Ascii.eqb c "/")) (uri_encode id) = true.
Proof.
  intros Hid. split; [|by apply uri_bytes_no]. intros E. by apply Hid, (encoded_is id _ EmptyString E).
Qed.

Lemma link_opens id q :
  id ∉ [EmptyString; "."; ".."] →
  let search := match q with Some x => if truthy_str x then "?" ⊕ x else EmptyString | None => EmptyString end in
  app_view (location_of (instance_path id ⊕ default EmptyString (append "?" <$> q))) = ProcessInstance id search ∧
  app_view (location_of (incident_path id ⊕ default EmptyString (append "?" <$> q))) = IncidentPage id.
Proof.
  rewrite !not_elem_of_cons. intros (Hne & H1 & H2 & _) search. destruct (encoded_segment id Hne) as [He Hsl]. unfold instance_path, incident_path.
  split.
  - change ("/process-instances/" ⊕ uri_encode id) with ("/" ⊕ "process-instances" ⊕ "/" ⊕ uri_encode id).
    rewrite location_segment by done. unfold app_view. cbn [lo_pathname lo_search]. fold search.
    change ("/" ⊕ "process-instances" ⊕ "/" ⊕ uri_encode id) with ("/process-instances/" ⊕ uri_encode id).
    rewrite match_segment_app by done. by rewrite uri_decode_encode.
  - change ("/incidents/" ⊕ uri_encode id) with ("/" ⊕ "incidents" ⊕ "/" ⊕ uri_encode id).
    rewrite location_segment by done. unfold app_view. cbn [lo_pathname lo_search].
    change ("/" ⊕ "incidents" ⊕ "/" ⊕ uri_encode id) with ("/incidents/" ⊕ uri_encode id).
    rewrite match_segment_app by done. by rewrite uri_decode_encode.
Qed.

(** The parameter a link gives, encoded as a segment. *)
Lemma parse_encoded n v :
  all_chars form_char_ok n = true → form_read n = n → truthy_str n = true →
  params_parse ("?" ⊕ n ⊕ "=" ⊕ uri_encode v) = [(n, v)].
Proof.
  intros Hn Hr Ht. assert (∀ sep, form_char_ok sep = false → all_chars (λ c, negb (Ascii.eqb c sep)) n = true) as Hno.
  { intros sep Hs. eapply all_chars_impl; [|exact Hn]. intros c Hc. apply negb_true_iff.
    destruct (Ascii.eqb_spec c sep); [congruence|done]. }
  unfold params_parse. change ("?" ⊕ n ⊕ "=" ⊕ uri_encode v) with (String "?" (n ⊕ String "=" (uri_encode v))).
  cbn [Ascii.eqb Bool.eqb]. rewrite pieces_one.
  - cbn [List.filter]. assert (truthy_str (n ⊕ String "=" (uri_encode v)) = true) as -> by (by destruct n).
    rewrite fmap_cons. unfold read_pair. rewrite cut_app by (by apply Hno). cbn. unfold Datatypes.id. rewrite Hr.
    unfold form_read, uri_encode. by rewrite form_unbytes_uri, utf8_roundtrip.
  - rewrite all_chars_app. rewrite Hno by done. cbn [all_chars]. unfold uri_encode. by rewrite uri_bytes_no.
Qed.
End segments.

(** ** Properties *)

Section observed.
Context `{J : JsonText} `{!JsonTextLaws J} `{U : Utf8Text} `{!Utf8Laws U} `{P : Postgres} `{!PostgresLaws P}.

(** An item of an observation is a group of the whole table. *)
Lemma observed_definition `{SqlText} sn now q obs c :
  definitions sn now q = inr obs → c ∈ ob_items obs →
  c ∈ definition_rows sn (db_instances (sn_db sn)) (search_text q).
Proof.
  unfold definitions. destruct (positiveInteger _ _ _ _) as [e|limit]; [done|].
  assert (∀ after, c ∈ take (Z.to_nat limit) (query_definitions sn after (S (Z.to_nat limit)) (search_text q)) →
    c ∈ definition_rows sn (db_instances (sn_db sn)) (search_text q)) as Hin.
  { intros after (k & Hk & _)%elem_of_take. apply list_elem_of_lookup_2 in Hk. unfold query_definitions in Hk.
    apply select_in in Hk as [Hk _]. rewrite (definition_rows_filter sn (λ k, String.eqb after.1 EmptyString || comes_after k after)) in Hk.
    by apply in_filter in Hk as [Hk _]. }
  unfold search_text in *. destruct (oq_workflow q) as [[s|]|]; [|done|];
    (destruct (decodeOverviewCursor _ _) as [e|after]; [done|]; intros [= <-]; apply Hin).
Qed.

Lemma observed_step sn now q obs c :
  steps sn now q = inr obs → c ∈ ob_items obs →
  ∃ definitionId v version age, oq_definitionId q = Some (QText definitionId) ∧ definitionId ≠ EmptyString ∧
    oq_definitionVersion q = Some v ∧ positiveInteger (Some v) 1 2147483647 "Definition version" = inr version ∧
    ob_stepStartedBefore obs = Some (js_date (step_cutoff now age)) ∧
    positiveInteger (oq_minStepAgeSeconds q) 1800 2147483647 "Minimum step age" = inr age ∧
    c ∈ (step_count (step_rows (sn_db sn) definitionId version EmptyString) (step_cutoff now age) <$>
      remove_dups ((λ r : ProcessInstanceRow * string * option StepExecutionRow, r.1.2) <$>
        step_rows (sn_db sn) definitionId version EmptyString)).
Proof.
  unfold steps. destruct (oq_definitionId q) as [[definitionId|]|]; try done. destruct (oq_definitionVersion q) as [v|]; [|done].
  destruct (truthy_str definitionId) eqn:Ht; [|done]. apply truthy_str_true in Ht. cbn [negb].
  destruct (positiveInteger (Some v) _ _ _) as [e|version] eqn:Ev; [done|].
  destruct (positiveInteger (oq_minStepAgeSeconds q) _ _ _) as [e|age] eqn:Ea; [done|].
  destruct (positiveInteger (oq_pageSize q) _ _ _) as [e|limit]; [done|].
  destruct (decodeOverviewCursor _ _) as [e|[after w]]; [done|]. intros [= <-].
  intros (k & Hk & _)%elem_of_take. apply list_elem_of_lookup_2 in Hk. unfold query_steps in Hk.
  apply select_in in Hk as [Hk _]. exists definitionId, v, version, age. split_and!; try done.
  destruct (String.eqb_spec after EmptyString) as [->|Hne]; [done|]. rewrite step_counts_after in Hk by done.
  by apply in_filter in Hk as [Hk _].
Qed.
End observed.

(** A count of the overview is the number of instances its link opens: for
    every row of any page of the overview, clicking through the list that the
    link of a status opens shows as many instances as the row counts. *)
Theorem overview_status_links `{J : JsonText} `{!JsonTextLaws J} `{Sha256} `{U : Utf8Text} `{!Utf8Laws U}
    `{D : DateText} `{!DateTextLaws D} `{P : Postgres} `{!PostgresLaws P} `{SqlText} sn now q obs c status count :
  listed_tables (sn_db sn) → definitions sn now q = inr obs → c ∈ ob_items obs →
  (status, count) ∈ [("ACTIVE", dc_active c); ("WAITING", dc_waiting c); ("FAILED", dc_failed c)] →
  let link := instanceLink (dc_definitionId c) (pretty (dc_definitionVersion c)) [status] None None in
  ∃ items, browse (instances_at (sn_db sn)) moveToCursor (S (length (db_instances (sn_db sn)))) (lo_search (location_of link)) =
    Some items ∧ length items = count.
Proof.
  intros Ht Ho Hc Hs link. apply (observed_definition _ _ _ _ _ Ho), definition_row_in in Hc as ((i & Hi & Ek) & _ & Ha & Hw & Hf).
  unfold group_key, count_key in Ek. injection Ek as E1 E2. destruct (lt_definitions _ Ht i Hi) as [Hne Hv]. rewrite E1, E2 in *.
  destruct (browse_status (sn_db sn) (dc_definitionId c) (dc_definitionVersion c) status Ht Hne Hv) as (items & Hb & Hl).
  { apply list_elem_of_In in Hs. destruct Hs as [[= <- _]|[[= <- _]|[[= <- _]|[]]]]; unfold PROCESS_INSTANCE_STATUSES; set_solver. }
  exists items. split; [exact Hb|]. rewrite Hl. apply list_elem_of_In in Hs.
  by destruct Hs as [[= <- <-]|[[= <- <-]|[[= <- <-]|[]]]]; rewrite ?Ha, ?Hw, ?Hf.
Qed.

(** The same for the counts of a step: the link of the step opens as many
    instances as the row counts, and the link with the age cutoff as many as
    the row counts above the age threshold, when the cutoff is a whole number
    of milliseconds. *)
Theorem overview_step_links `{J : JsonText} `{!JsonTextLaws J} `{Sha256} `{U : Utf8Text} `{!Utf8Laws U}
    `{D : DateText} `{!DateTextLaws D} `{P : Postgres} `{!PostgresLaws P} sn now q obs c definitionId (version : Z) :
  listed_tables (sn_db sn) → steps sn now q = inr obs → c ∈ ob_items obs →
  oq_definitionId q = Some (QText definitionId) → oq_definitionVersion q = Some (QText (pretty version)) →
  let shown link := browse (instances_at (sn_db sn)) moveToCursor (S (length (db_instances (sn_db sn)))) (lo_search (location_of link)) in
  let link := instanceLink definitionId (pretty version) ["ACTIVE"; "WAITING"] (Some (sc_stepId c)) in
  (∃ items, shown (link None) = Some items ∧ length items = sc_instances c) ∧
  (∀ age, positiveInteger (oq_minStepAgeSeconds q) 1800 2147483647 "Minimum step age" = inr age →
     whole_ms (now - age * 1000000)%Z →
     ∃ items, shown (link (toISOString <$> ob_stepStartedBefore obs)) = Some items ∧ length items = sc_aged c).
Proof.
  intros Ht Ho Hc Hid Hv shown link.
  destruct (observed_step _ _ _ _ _ Ho Hc) as (id & v & ver & age & Eid & Hne & Ev & Ever & Ecut & Eage & Hin).
  rewrite Eid in Hid. injection Hid as ->. rewrite Ev in Hv. injection Hv as ->.
  pose proof (positiveInteger_bounds _ _ _ _ _ Ever) as Hver.
  assert (ver = version) as ->.
  { unfold positiveInteger in Ever. destruct (all_digits (pretty version)) eqn:Ed; [|done].
    destruct (_ || _) in Ever; [done|]. injection Ever as <-.
    destruct (decide (0 ≤ version)%Z) as [Hge|Hlt]; [by destruct (pretty_Z_digits version Hge) as [-> _]|].
    exfalso. destruct version; [lia|lia|]. done. }
  destruct (counts_in _ _ _ _ _ _ Hin) as ((i & Hi & Hl) & Ec).
  assert (sc_stepId c ≠ EmptyString) as Hstep by (intros E; rewrite E in Hl; apply (lt_steps _ Ht i Hi), Hl).
  rewrite Ec. unfold step_count. cbn [sc_instances sc_aged]. rewrite !count_instances_spec by apply Ht. split.
  - destruct (browse_step (sn_db sn) definitionId version (sc_stepId c) None Ht Hne Hver Hstep) as (items & Hb & Hlen); [done|].
    exists items. split; [exact Hb|exact Hlen].
  - intros age' Ha Hms. rewrite Eage in Ha. injection Ha as <-. rewrite Ecut.
    destruct (browse_step (sn_db sn) definitionId version (sc_stepId c) (Some (step_cutoff now age)) Ht Hne Hver Hstep)
      as (items & Hb & Hlen); [by intros ? [= <-]|]. exists items. split; [exact Hb|exact Hlen].
Qed.

(** What the filter form applies is what the page then shows in its form and
    what the API filters by: the location it pushes reads back as the same
    filters, and the API gets exactly those that are not empty. *)
Theorem filters_roundtrip `{U : Utf8Text} `{!Utf8Laws U} p p' target :
  applyFilters p = (p', Some target) →
  let f := lp_filters p in
  let ps := params_parse (lo_search (location_of target)) in
  lp_filterError p' = None ∧ filtersFromSearch (lo_search (location_of target)) = f ∧
  text_query "cursor" ps = None ∧
  statusValues (pf_status (server_filters ps)) = f_statuses f ∧
  (∀ s, given (pf_definitionId (server_filters ps)) s ↔ s = f_definitionId f ∧ s ≠ EmptyString) ∧
  (∀ s, given (pf_definitionVersion (server_filters ps)) s ↔ s = f_definitionVersion f ∧ s ≠ EmptyString) ∧
  (∀ s, given (pf_currentStepId (server_filters ps)) s ↔ s = f_currentStepId f ∧ s ≠ EmptyString) ∧
  (∀ s, given (pf_stepStartedBefore (server_filters ps)) s ↔ s = f_stepStartedBefore f ∧ s ≠ EmptyString) ∧
  (∀ s, given (pf_businessKey (server_filters ps)) s ↔ s = f_businessKey f ∧ s ≠ EmptyString) ∧
  (∀ s, given (pf_from (server_filters ps)) s ↔ s = f_from f ∧ s ≠ EmptyString) ∧
  (∀ s, given (pf_to (server_filters ps)) s ↔ s = f_to f ∧ s ≠ EmptyString).
Proof.
  intros Ha f ps. unfold applyFilters in Ha. destruct (timeRangeError _ _) eqn:Et; [done|].
  apply pair_equal_spec in Ha as [<- Ht]. apply (inj Some) in Ht.
  assert (ps = filter_params f) as Hps by (unfold ps; rewrite <- Ht; by rewrite (parse_location "/")).
  rewrite filter_params_list in Hps. split; [done|].
  split; [|split; [|split; [|split_and!; apply given_query; rewrite Hps; by read_name]]].
  - unfold filtersFromSearch. fold ps. rewrite !text_of_getAll, Hps. read_name. rewrite !default_opt. by destruct f.
  - unfold text_query. rewrite Hps. read_name. done.
  - unfold server_filters, status_query. cbn [pf_status]. rewrite Hps. read_name. by destruct (f_statuses f) as [|a [|b l]].
Qed.

(** C9: a filter that was saved is one the API accepts, and opening it shows, page
    after page, exactly the instances the location it was saved from asks for,
    as long as the database can read its times and start times are whole
    milliseconds: the checks of the browser and of the API agree. *)
Theorem saved_filter_opens `{J : JsonText} `{!JsonTextLaws J} `{Sha256} `{U : Utf8Text} `{!Utf8Laws U}
    `{D : DateText} `{!DateTextLaws D} `{P : Postgres} `{!PostgresLaws P} db search saved :
  normalizeFilterSearch KInstances search = inr saved →
  readable (server_filters (params_parse saved)) →
  NoDup (ir_id <$> db_instances db) → (∀ r, r ∈ db_instances db → ir_id r ≠ EmptyString) → whole_milliseconds db →
  ∃ rows, browse (instances_at db) moveToCursor (S (length (db_instances db)))
      (lo_search (location_of (list_path KInstances saved))) = Some (list_item <$> rows) ∧
    NoDup rows ∧
    ∀ r, r ∈ rows ↔ r ∈ db_instances db ∧ matches db (server_filters (params_parse search)) r.
Proof.
  intros Hn Hr Hids Hne Hms. destruct (saved_filter_faithful search saved Hn) as (qs & -> & Hps & Hloc & Hv & Hno & Hm).
  rewrite Hps in Hr. destruct (browse_filters db (lo_search (location_of (list_path KInstances (params_toString qs)))) (server_filters qs))
    as (rows & Hb & Hd & Hin); rewrite ?Hloc; try done; try apply Hno.
  exists rows. split_and!; [done|done|]. intros r. by rewrite Hin, Hm.
Qed.

(** A link opens what it names: the path of an instance id, or of an incident
    id, is routed back to that id, except when the id is empty or a segment
    the browser resolves; and the link of an incident to its step selects
    that step. *)
Theorem links_open `{U : Utf8Text} `{!Utf8Laws U} id step :
  (app_view (location_of (instance_path id)) = ProcessInstance id EmptyString ↔ id ∉ [EmptyString; "."; ".."]) ∧
  (app_view (location_of (incident_path id)) = IncidentPage id ↔ id ∉ [EmptyString; "."; ".."]) ∧
  (id ∉ [EmptyString; "."; ".."] →
   ∃ search, app_view (location_of (processInstancePath id step)) = ProcessInstance id search ∧
     params_get "stepId" (params_parse search) = Some step).
Proof.
  assert (id ∈ [EmptyString; "."; ".."] → uri_encode id = id) as Hdots.
  { intros Hin%list_elem_of_In. unfold uri_encode. rewrite utf8_ascii; by destruct Hin as [<-|[<-|[<-|[]]]]. }
  split_and!.
  - split; [|intros Hid; pose proof (link_opens id None Hid) as [H _]; by rewrite str_app_nil_r in H].
    intros Hv Hin. unfold instance_path in Hv. rewrite (Hdots Hin) in Hv. apply list_elem_of_In in Hin.
    by destruct Hin as [<-|[<-|[<-|[]]]].
  - split; [|intros Hid; pose proof (link_opens id None Hid) as [_ H]; by rewrite str_app_nil_r in H].
    intros Hv Hin. unfold incident_path in Hv. rewrite (Hdots Hin) in Hv. apply list_elem_of_In in Hin.
    by destruct Hin as [<-|[<-|[<-|[]]]].
  - intros Hid. exists ("?stepId=" ⊕ uri_encode step).
    pose proof (link_opens id (Some ("stepId=" ⊕ uri_encode step)) Hid) as [H _]. split; [exact H|].
    change ("?stepId=" ⊕ uri_encode step) with ("?" ⊕ "stepId" ⊕ "=" ⊕ uri_encode step).
    rewrite parse_encoded; [done|done| |done]. unfold form_read. by rewrite utf8_decode_ascii.
Qed.

(** ** Witnesses *)

#[local] Existing Instances model_postgres model_postgres_laws utc_dates utc_dates_laws.

#[local] Instance plain_hash : Sha256 := {| sha256_base64url := λ s, s |}.

#[local] Instance plain_lower : SqlText := {| sql_lower := λ s, s |}.

Lemma sample_tables : listed_tables (sn_db overview_sample).
Proof.
  split.
  - apply (bool_decide_unpack _). vm_compute. exact I.
  - intros r Hr. apply list_elem_of_In in Hr. by destruct Hr as [<-|[<-|[<-|[]]]].
  - intros r Hr. apply list_elem_of_In in Hr. by destruct Hr as [<-|[<-|[<-|[]]]].
  - intros r Hr. apply list_elem_of_In in Hr. apply (bool_decide_unpack _).
    destruct Hr as [<-|[<-|[<-|[]]]]; vm_compute; exact I.
  - intros r Hr. apply list_elem_of_In in Hr. unfold in_years.
    destruct Hr as [<-|[<-|[<-|[]]]]; vm_compute; repeat split; discriminate.
Qed.

Definition all_definitions : OverviewQuery := mkOverviewQuery None None None None None None.

Definition step_query : OverviewQuery :=
  mkOverviewQuery None None None (Some (QText "order")) (Some (QText "1")) None.

Lemma overview_status_links_witness :
  ∃ items, browse (instances_at (sn_db overview_sample)) moveToCursor 4
      (lo_search (location_of (instanceLink "order" "1" ["WAITING"] None None))) = Some items ∧ length items = 1.
Proof.
  destruct (definitions overview_sample 1709210096789000 all_definitions) as [e|obs] eqn:E; [vm_compute in E; discriminate E|].
  apply (overview_status_links overview_sample 1709210096789000 all_definitions obs
    (mkDefinitionCount "order" 1 "Order" 1 1 0) "WAITING" 1 sample_tables E).
  - vm_compute in E. injection E as <-. vm_compute. left.
  - vm_compute. right. left.
Defined.

Lemma overview_step_links_witness :
  let shown link := browse (instances_at (sn_db overview_sample)) moveToCursor 4 (lo_search (location_of link)) in
  (∃ items, shown (instanceLink "order" "1" ["ACTIVE"; "WAITING"] (Some "pay") None) = Some items ∧ length items = 2) ∧
  (∃ items, shown (instanceLink "order" "1" ["ACTIVE"; "WAITING"] (Some "pay") (Some "2024-02-29T12:04:56.789Z")) = Some items ∧
     length items = 1).
Proof.
  destruct (steps overview_sample 1709210096789000 step_query) as [e|obs] eqn:E; [vm_compute in E; discriminate E|].
  destruct (overview_step_links overview_sample 1709210096789000 step_query obs (mkStepCount "pay" 2 1 0) "order" 1 sample_tables E)
    as [H1 H2].
  - vm_compute in E. injection E as <-. vm_compute. left.
  - reflexivity.
  - reflexivity.
  - split; [exact H1|]. destruct (H2 1800%Z) as (items & Hb & Hl).
    + vm_compute. reflexivity.
    + unfold whole_ms, in_years. vm_compute. repeat split; discriminate.
    + exists items. split; [|exact Hl]. rewrite <- Hb. vm_compute in E. injection E as <-. reflexivity.
Defined.

Lemma filters_roundtrip_witness :
  let f := mkInstanceFilters "2" EmptyString EmptyString "a&b" "order" "2024-02-29T12:34:56Z" ["ACTIVE"; "FAILED"] EmptyString in
  let p := mkListPage EmptyString None f (Some "old") in
  ∃ p' target, applyFilters p = (p', Some target) ∧ filtersFromSearch (lo_search (location_of target)) = f.
Proof.
  intros f p. destruct (applyFilters p) as [p' [target|]] eqn:E; [|vm_compute in E; discriminate E].
  exists p', target. split; [reflexivity|]. exact (proj1 (proj2 (filters_roundtrip p p' target E))).
Defined.

Lemma saved_filter_opens_witness :
  ∃ rows, browse (instances_at (sn_db overview_sample)) moveToCursor 4
      (lo_search (location_of (list_path KInstances "definitionId=order&definitionVersion=1&status=ACTIVE&status=WAITING"))) =
      Some (list_item <$> rows) ∧ NoDup rows.
Proof.
  destruct (saved_filter_opens (sn_db overview_sample)
    "?status=WAITING&cursor=x&definitionVersion=01&definitionId=order&status=ACTIVE&status=WAITING"
    "definitionId=order&definitionVersion=1&status=ACTIVE&status=WAITING") as (rows & Hb & Hn & _).
  - vm_compute. reflexivity.
  - intros o s Ho [-> _]. exfalso. apply list_elem_of_In in Ho. vm_compute in Ho. destruct Ho as [?|[?|[?|[]]]]; discriminate.
  - apply sample_tables.
  - apply sample_tables.
  - apply sample_tables.
  - exists rows. split; [exact Hb|exact Hn].
Defined.

Lemma links_open_witness :
  app_view (location_of (instance_path "a/b")) = ProcessInstance "a/b" EmptyString ∧
  app_view (location_of (incident_path "..")) ≠ IncidentPage "..".
Proof.
  split.
  - apply (links_open "a/b" EmptyString). apply (bool_decide_unpack _). vm_compute. exact I.
  - intros H. apply (links_open ".." EmptyString) in H. apply H. apply (bool_decide_unpack _). vm_compute. exact I.
Defined.

(** * The shell of the Monitor (workflow-monitor/src/App.tsx)

    The frame around the pages: the sidebar, the sections with the current one
    marked, the breadcrumb, and the page of the location inside.  Rendering can
    throw: [decodeURIComponent] refuses a malformed segment, and there is no error
    boundary, so that nothing is shown then. *)

#[local] Arguments String.append !_ _ / : simpl nomatch.

Record Shell := mkShell { sh_browser : Browser; sh_sidebarOpen : bool }.

(** The sidebar starts open on a wide window. *)
Definition mount_shell (l : Location) (innerWidth : Z) : Shell := mkShell (mkBrowser [] l) (1024 <=? innerWidth)%Z.

Definition incidentsActive (l : Location) : bool := String.prefix "/incidents" (lo_pathname l).

Definition processInstancesActive (l : Location) : bool :=
  String.eqb (lo_pathname l) "/" || String.prefix "/process-instances" (lo_pathname l).

Definition overviewActive (l : Location) : bool := String.eqb (lo_pathname l) "/overview".

(** [location.pathname.split("/")[2]], where it is not empty *)
Definition detailId (l : Location) : option string :=
  match pieces "/" (lo_pathname l) !! 2 with Some s => if truthy_str s then Some s else None | None => None end.

(** The first link of the breadcrumb: its target and its text. *)
Definition crumb (l : Location) : string * string :=
  if overviewActive l then ("/overview", "Overview")
  else if incidentsActive l then ("/incidents", "Incidents") else ("/", "Process Instances").

Record ShellView := mkShellView {
  sv_sidebar : bool;
  sv_sidebarLabel : string;
  sv_overview : bool;                   (* [aria-current] of the sections *)
  sv_instances : bool;
  sv_incidents : bool;
  sv_crumb : string * string;
  sv_detail : option string;
  sv_content : View
}.

Inductive ShellAction :=
| ToggleSidebar
| GoOverview
| GoInstances
| GoIncidents
| GoCrumb
| Navigate (target : string)            (* [navigation.push] of a page *)
| GoBack.

Definition with_browser (b : Browser) (s : Shell) : Shell := mkShell b (sh_sidebarOpen s).

Definition shell_step (a : ShellAction) (s : Shell) : Shell :=
  let go := λ target, with_browser (push target (sh_browser s)) s in
  match a with
  | ToggleSidebar => mkShell (sh_browser s) (negb (sh_sidebarOpen s))
  | GoOverview => go "/overview"
  | GoInstances => go "/"
  | GoIncidents => go "/incidents"
  | GoCrumb => go (crumb (br_current (sh_browser s))).1
  | Navigate target => go target
  | GoBack => with_browser (back (sh_browser s)) s
  end.

Section shell.
Context `{Utf8Text}.

(** What is rendered; [None] when rendering throws. *)
Definition shell_view (s : Shell) : option ShellView :=
  let l := br_current (sh_browser s) in
  match app_view l with
  | Crashed => None
  | content =>
      detail ← match detailId l with
               | None => Some None
               | Some d => Some <$> uri_decode d
               end;
      Some (mkShellView (sh_sidebarOpen s) (if sh_sidebarOpen s then "Collapse sidebar" else "Expand sidebar")
              (overviewActive l) (processInstancesActive l) (incidentsActive l) (crumb l) detail content)
  end.

(** ** Properties *)

(** The frame a page belongs in: its section, the breadcrumb and the id in it. *)
Definition frame_of (v : View) : option (string * option string) :=
  match v with
  | OverviewPage _ => Some ("/overview", None)
  | ProcessInstances _ => Some ("/", None)
  | ProcessInstance id _ => Some ("/", Some id)
  | IncidentsPage _ => Some ("/incidents", None)
  | IncidentPage id => Some ("/incidents", Some id)
  | NotFoundPage | Crashed => None
  end.

Lemma crumb_texts l :
  ((crumb l).1 = "/" → crumb l = ("/", "Process Instances")) ∧ ((crumb l).1 = "/incidents" → crumb l = ("/incidents", "Incidents")).
Proof. unfold crumb. by destruct (overviewActive l), (incidentsActive l). Qed.

Lemma prefix_substring prefix path : String.prefix prefix path = true →
  path = prefix ⊕ String.substring (String.length prefix) (String.length path - String.length prefix) path.
Proof.
  revert path. induction prefix as [|c prefix IH]; intros path Hp.
  - cbn [String.length]. rewrite Nat.sub_0_r. clear. induction path as [|c path IH]; simpl; [done|]. f_equal. exact IH.
  - destruct path as [|c' path]; [done|]. cbn [String.prefix] in Hp. destruct (ascii_dec c c') as [->|]; [|done].
    simpl. f_equal. by apply IH.
Qed.

Lemma match_segment_inv prefix path s : match_segment prefix path = Some s →
  path = prefix ⊕ s ∧ s ≠ EmptyString ∧ all_chars (λ c, negb (Ascii.eqb c "/")) s = true.
Proof.
  unfold match_segment. destruct (String.prefix prefix path) eqn:Ep; [|done]. destruct (_ && _) eqn:Eb; [|done]. intros [= <-].
  apply andb_true_iff in Eb as [Ht%truthy_str_true Hs]. split; [by apply prefix_substring|by split].
Qed.

Lemma prefix_app p s : String.prefix p (p ⊕ s) = true.
Proof. induction p as [|c p IH]; simpl; [by destruct s|]. by destruct (ascii_dec c c). Qed.

(** The second segment of a path the pages of instances and incidents match. *)
Lemma second_segment root s search :
  all_chars (λ c, negb (Ascii.eqb c "/")) root = true → all_chars (λ c, negb (Ascii.eqb c "/")) s = true → s ≠ EmptyString →
  detailId (mkLocation ("/" ⊕ root ⊕ "/" ⊕ s) search) = Some s.
Proof.
  intros Hroot Hs Hne. unfold detailId. cbn [lo_pathname].
  change ("/" ⊕ root ⊕ "/" ⊕ s) with (EmptyString ⊕ String "/" (root ⊕ String "/" s)).
  rewrite (pieces_app "/" EmptyString) by done. rewrite pieces_app, pieces_one by done. cbn [lookup list_lookup].
  apply truthy_str_true in Hne. by rewrite Hne.
Qed.

(** The segment that is shown in the breadcrumb is the one the page decodes. *)
Lemma segment_frame l root s :
  all_chars (λ c, negb (Ascii.eqb c "/")) root = true →
  match_segment ("/" ⊕ root ⊕ "/") (lo_pathname l) = Some s →
  detailId l = Some s ∧ ∃ rest, lo_pathname l = ("/" ⊕ root) ⊕ rest.
Proof.
  intros Hroot (Hp & Hne & Hs)%match_segment_inv. destruct l as [path search]. cbn [lo_pathname] in *. subst path.
  assert (("/" ⊕ root ⊕ "/") ⊕ s = "/" ⊕ root ⊕ "/" ⊕ s) as E by (by rewrite !str_app_assoc).
  rewrite E. split; [by apply second_segment|]. exists ("/" ⊕ s). by rewrite str_app_assoc.
Qed.

(** What the frame is at the location of a page. *)
Definition framed (l : Location) (v : View) : Prop :=
  ∃ target id, frame_of v = Some (target, id) ∧ (crumb l).1 = target ∧
    match detailId l with None => Some None | Some d => Some <$> uri_decode d end = Some id ∧
    overviewActive l = String.eqb target "/overview" ∧ processInstancesActive l = String.eqb target "/" ∧
    incidentsActive l = String.eqb target "/incidents".

Lemma framed_segment l root s id v :
  lo_pathname l = ("/" ⊕ root) ⊕ s → root ∈ ["process-instances"; "incidents"] →
  frame_of v = Some (if String.eqb root "incidents" then "/incidents" else "/", Some id) →
  detailId l ≫= uri_decode = Some id → framed l v.
Proof.
  destruct l as [path search]. cbn [lo_pathname]. intros -> Hroot Hf Hd. exists (if String.eqb root "incidents" then "/incidents" else "/"), (Some id).
  split; [exact Hf|]. assert (match detailId (mkLocation (("/" ⊕ root) ⊕ s) search) with
    | Some d => Some <$> uri_decode d | None => Some None end = Some (Some id)) as Hd'.
  { destruct (detailId _) as [d|]; [|done]. cbn [mbind option_bind] in Hd. by rewrite Hd. }
  apply list_elem_of_In in Hroot. destruct Hroot as [<-|[<-|[]]];
    unfold crumb, overviewActive, processInstancesActive, incidentsActive; cbn [lo_pathname];
    [change (("/" ⊕ "process-instances") ⊕ s) with ("/process-instances" ⊕ s) in *; rewrite (prefix_app "/process-instances" s)
    |change (("/" ⊕ "incidents") ⊕ s) with ("/incidents" ⊕ s) in *; rewrite (prefix_app "/incidents" s)];
    (split; [reflexivity|split; [exact Hd'|]]); split_and!; reflexivity.
Qed.

Lemma view_framed l :
  match app_view l with
  | Crashed => ∃ d, detailId l = Some d ∧ uri_decode d = None
  | NotFoundPage => True
  | v => framed l v
  end.
Proof.
  unfold app_view. destruct (String.eqb_spec (lo_pathname l) "/") as [E|_].
  { destruct l as [path search]. cbn [lo_pathname] in *. subst path. by exists "/", None. }
  destruct (String.eqb_spec (lo_pathname l) "/overview") as [E|_].
  { destruct l as [path search]. cbn [lo_pathname] in *. subst path. by exists "/overview", None. }
  destruct (match_segment "/process-instances/" (lo_pathname l)) as [s|] eqn:Em.
  { destruct (segment_frame l "process-instances" s eq_refl Em) as [Hd [rest Hp]]. destruct (uri_decode s) as [id|] eqn:Es; [|by exists s].
    apply (framed_segment l "process-instances" rest id); [exact Hp|by left|reflexivity|]. by rewrite Hd. }
  destruct (String.eqb_spec (lo_pathname l) "/incidents") as [E|_].
  { destruct l as [path search]. cbn [lo_pathname] in *. subst path. by exists "/incidents", None. }
  destruct (match_segment "/incidents/" (lo_pathname l)) as [s|] eqn:Ei; [|done].
  destruct (segment_frame l "incidents" s eq_refl Ei) as [Hd [rest Hp]]. destruct (uri_decode s) as [id|] eqn:Es; [|by exists s].
  apply (framed_segment l "incidents" rest id); [exact Hp|by right; left|reflexivity|]. by rewrite Hd.
Qed.
End shell.

(** The frame fits the page, at every location: at most one section is marked; the
    breadcrumb leads to the section of the page and names the instance or incident
    the page shows; and nothing is rendered exactly when the second segment of the
    path cannot be decoded, also where no page has an id. *)
Theorem shell_frames_page `{U : Utf8Text} s :
  let l := br_current (sh_browser s) in
  (shell_view s = None ↔ ∃ d, detailId l = Some d ∧ uri_decode d = None) ∧
  ∀ v, shell_view s = Some v →
    sv_content v = app_view l ∧
    (∀ target id, frame_of (sv_content v) = Some (target, id) → (sv_crumb v).1 = target ∧ sv_detail v = id ∧
       sv_overview v = String.eqb target "/overview" ∧ sv_instances v = String.eqb target "/" ∧
       sv_incidents v = String.eqb target "/incidents").
Proof.
  intros l. pose proof (view_framed l) as Hl. unfold shell_view. fold l.
  destruct (app_view l) eqn:Ev; cbn [mbind option_bind]; try destruct Hl as (target & id & Hf & Hc & Hd & H1 & H2 & H3).
  all: try (rewrite Hd; cbn; split;
    [split; [done|]; intros (d & E & En); rewrite E in Hd; cbn in Hd; by rewrite En in Hd
    |intros v [= <-]; cbn [sv_content sv_crumb sv_detail sv_overview sv_instances sv_incidents]; split; [done|];
     intros target' id' Hf'; rewrite Hf in Hf'; injection Hf' as <- <-; by split_and!]).
  - destruct (detailId l) as [d|]; [destruct (uri_decode d) eqn:Eu|]; cbn.
    + split; [split; [done|intros (d' & [= <-] & En); congruence]|]. intros v [= <-]. by split.
    + split; [split; [by eauto|done]|done].
    + split; [split; [done|by intros (? & [=] & _)]|]. intros v [= <-]. by split.
  - split; [|done]. by split.
Qed.

(** Every section opens from anywhere: a click on a section, on the breadcrumb of
    a section or on a link to an instance shows that page in its frame, and going
    back shows what was shown before. *)
Theorem shell_navigation `{U : Utf8Text} `{!Utf8Laws U} s id :
  id ∉ [EmptyString; "."; ".."] →
  sv_content <$> shell_view (shell_step GoOverview s) = Some (OverviewPage EmptyString) ∧
  sv_content <$> shell_view (shell_step GoInstances s) = Some (ProcessInstances EmptyString) ∧
  sv_content <$> shell_view (shell_step GoIncidents s) = Some (IncidentsPage EmptyString) ∧
  (∃ v, shell_view (shell_step (Navigate (instance_path id)) s) = Some v ∧ sv_content v = ProcessInstance id EmptyString ∧
     sv_crumb v = ("/", "Process Instances") ∧ sv_detail v = Some id ∧ sv_instances v = true) ∧
  (∃ v, shell_view (shell_step (Navigate (incident_path id)) s) = Some v ∧ sv_content v = IncidentPage id ∧
     sv_crumb v = ("/incidents", "Incidents") ∧ sv_detail v = Some id ∧ sv_incidents v = true) ∧
  ∀ target, shell_view (shell_step GoBack (shell_step (Navigate target) s)) = shell_view s.
Proof.
  intros Hid. split; [reflexivity|]. split; [reflexivity|]. split; [reflexivity|].
  destruct (link_opens id None Hid) as [H1 H2]. cbn [default from_option fmap option_fmap option_map] in H1, H2.
  unfold Datatypes.id in H1, H2. rewrite str_app_nil_r in H1, H2.
  assert (∀ path v target, app_view (location_of path) = v → frame_of v = Some (target, Some id) →
    ∃ w, shell_view (shell_step (Navigate path) s) = Some w ∧ sv_content w = v ∧ sv_detail w = Some id ∧ (sv_crumb w).1 = target ∧
      sv_crumb w = crumb (location_of path) ∧ sv_overview w = String.eqb target "/overview" ∧
      sv_instances w = String.eqb target "/" ∧ sv_incidents w = String.eqb target "/incidents") as Hgo.
  { intros path v target Hv Hf. pose proof (view_framed (location_of path)) as Hl. rewrite Hv in Hl.
    assert (framed (location_of path) v) as (t & i & Hf' & Hc & Hd & Ha1 & Ha2 & Ha3) by (destruct v; done).
    rewrite Hf in Hf'. injection Hf' as <- <-. unfold shell_view, shell_step, with_browser, push. cbn [sh_browser br_current]. rewrite Hv, Hd.
    eexists. split; [destruct v; cbn; try done; reflexivity|]. cbn. by split_and!. }
  split; [|split].
  - destruct (Hgo _ _ "/" H1 eq_refl) as (w & Hw & Hc & Hd & H3 & Hcr & H4 & H5 & H6). exists w. split_and!; try done.
    rewrite Hcr in H3 |- *. by apply crumb_texts.
  - destruct (Hgo _ _ "/incidents" H2 eq_refl) as (w & Hw & Hc & Hd & H3 & Hcr & H4 & H5 & H6). exists w. split_and!; try done.
    rewrite Hcr in H3 |- *. by apply crumb_texts.
  - intros target. unfold shell_step, with_browser, back, push. cbn [sh_browser br_past]. rewrite last_snoc, removelast_last.
    by destruct s as [[past current] open].
Qed.

Lemma shell_navigation_witness :
  ∃ v, shell_view (shell_step (Navigate (instance_path "a/b")) (mount_shell (mkLocation "/" EmptyString) 800)) = Some v ∧
    sv_content v = ProcessInstance "a/b" EmptyString ∧ sv_detail v = Some "a/b".
Proof.
  destruct (shell_navigation (mount_shell (mkLocation "/" EmptyString) 800) "a/b") as (_ & _ & _ & (v & Hv & Hc & _ & Hd & _) & _).
  - apply (bool_decide_unpack _). vm_compute. exact I.
  - exists v. split; [exact Hv|]. by split.
Defined.

(** A path that is no page of the Monitor, and that it does not say is not found. *)
Example malformed_crash open :
  app_view (mkLocation "/reports/100%" EmptyString) = NotFoundPage ∧
  shell_view (mkShell (mkBrowser [] (mkLocation "/reports/100%" EmptyString)) open) = None.
Proof. by split. Qed.
