(* ===== verification/InstancePage.v ===== *)
(** * The page of a process instance
    (workflow-monitor/src/routes/ProcessInstanceRoute.tsx)

    The requests of the page and how it reads the responses; the pages of step
    executions with their history of cursors; the links to incidents; and the
    refresh that polls while something may still change.  What the page shows
    of this state is in InstanceView.v.  The queries are the query library's, a
    class with its documented behaviour: a query keeps its last data when a
    fetch fails, and a refetch replaces a running fetch, unless it is told to
    join it or the query has no data yet. *)

From S2P Require Import Prelude JsObject Peg Utc Cursor Paging Instances Context Executions Incidents UrlParams ListFilters Routes.

#[local] Arguments String.append !_ _ / : simpl nomatch.

(** ** Requests *)

Section requests.
Context `{Utf8Text}.

Definition detail_request (instanceId : string) : string := "/api/v1/process-instances/" ⊕ uri_encode instanceId.

Definition executions_request (instanceId : string) (cursor : option string) : string :=
  let parameters := match cursor with
                    | Some c => if truthy_str c then params_set "cursor" c [] else []
                    | None => []
                    end in
  detail_request instanceId ⊕ "/step-executions" ⊕ search_of parameters.

Definition variables_request (instanceId : string) : string := detail_request instanceId ⊕ "/variables".
End requests.

Inductive PageError := InstanceNotFound | LoadFailed (message : string).

Definition ok_status (status : Z) : bool := ((200 <=? status) && (status <=? 299))%Z.

Definition getProcessInstanceDetail {A} (status : Z) (body : A) : PageError + A :=
  if (status =? 404)%Z then inl InstanceNotFound
  else if negb (ok_status status) then inl (LoadFailed "Unable to load Process Instance") else inr body.

Definition getStepExecutions {A} (status : Z) (body : A) : PageError + A :=
  if negb (ok_status status) then inl (LoadFailed "Unable to load Step Executions") else inr body.

Definition getCurrentVariables {A} (status : Z) (body : A) : PageError + A :=
  if negb (ok_status status) then inl (LoadFailed "Unable to load Current Variables") else inr body.

(** ** What the page keeps *)

Inductive HistoryView := HTable | HTimeline.
Inductive DetailView := VOverview | VVariables.

Record PageState := mkPage {
  pg_selectedStepId : option string;
  pg_cursor : option string;
  pg_history : list (option string);
  pg_historyView : HistoryView;
  pg_inspected : option string;
  pg_detailView : DetailView
}.

Section pages.
Context `{Utf8Text}.

(** [new URLSearchParams(search).get("stepId")] *)
Definition step_of_search (search : string) : option string := params_get "stepId" (params_parse search).

Definition mount_page (search : string) : PageState := mkPage (step_of_search search) None [] HTable None VOverview.

Inductive PageAction :=
| ASearch (search : string)
| ASelectStep (stepId : string)
| AClearStep
| AInspect (stepId executionId : string)
| AHistoryView (v : HistoryView)
| ADetailView (v : DetailView)
| ANewest
| APrevious
| ANext.

Definition with_selected (s : option string) (p : PageState) : PageState :=
  mkPage s (pg_cursor p) (pg_history p) (pg_historyView p) (pg_inspected p) (pg_detailView p).

Definition with_cursor_history (c : option string) (h : list (option string)) (p : PageState) : PageState :=
  mkPage (pg_selectedStepId p) c h (pg_historyView p) (pg_inspected p) (pg_detailView p).

(** A click, given the [nextCursor] of the executions that are loaded, if they
    are.  A button that is disabled or not rendered does nothing. *)
Definition page_step (data : option (option string)) (a : PageAction) (p : PageState) : PageState :=
  match a with
  | ASearch search => with_selected (step_of_search search) p
  | ADetailView v => mkPage (pg_selectedStepId p) (pg_cursor p) (pg_history p) (pg_historyView p) (pg_inspected p) v
  | _ =>
      match pg_detailView p, a with
      | VVariables, _ => p
      | VOverview, ASelectStep s => with_selected (Some s) p
      | VOverview, AClearStep => with_selected None p
      | VOverview, AHistoryView v =>
          mkPage (pg_selectedStepId p) (pg_cursor p) (pg_history p) v (pg_inspected p) (pg_detailView p)
      | VOverview, AInspect step execution =>
          match data, pg_historyView p with
          | Some _, HTimeline => mkPage (Some step) (pg_cursor p) (pg_history p) HTimeline (Some execution) (pg_detailView p)
          | _, _ => p
          end
      | VOverview, ANewest =>
          match data, pg_cursor p with
          | Some _, Some _ => with_cursor_history None [] p
          | _, _ => p
          end
      | VOverview, APrevious =>
          match data, pg_history p with
          | Some _, _ :: _ => with_cursor_history (default None (last (pg_history p))) (removelast (pg_history p)) p
          | _, _ => p
          end
      | VOverview, ANext =>
          match data with
          | Some (Some n) => if truthy_str n then with_cursor_history (Some n) (pg_history p ++ [pg_cursor p]) p else p
          | _ => p
          end
      | _, _ => p
      end
  end.
End pages.

(** ** What the page shows *)

Inductive Shown := SLoading | SError (heading hint : string) | SDetail (d : ProcessInstanceDetail).

Definition page_shown (data : option ProcessInstanceDetail) (error : option PageError) : Shown :=
  match data, error with
  | Some d, _ => SDetail d
  | None, None => SLoading
  | None, Some InstanceNotFound => SError "Process Instance not found" "Check the Instance ID and try again."
  | None, Some _ => SError "Unable to load Process Instance" "Check the Monitor API connection and try again."
  end.

(** The failed latest execution of the selected step. *)
Definition selectedFailedExecution (d : ProcessInstanceDetail) (selected : option string) : option StepExecutionSummary :=
  if negb (String.eqb (pi_status (pd_instance d)) "CANCELLED")
  then List.find (λ x, bool_decide (Some (ss_stepId x) = selected) && String.eqb (ss_status x) "FAILED") (pd_latestByStep d)
  else None.

(** The failure cell of an execution. *)
Inductive FailureCell := FLink (executionId : string) | FPresent | FNone.

Definition failure_cell (d : ProcessInstanceDetail) (x : StepExecutionListItem) : FailureCell :=
  if String.eqb (si_status x) "FAILED" && negb (String.eqb (pi_status (pd_instance d)) "CANCELLED") then FLink (si_id x)
  else if si_hasFailure x then FPresent else FNone.

Definition inspectedExecution (items : list StepExecutionListItem) (inspected : option string) : option StepExecutionListItem :=
  List.find (λ x, bool_decide (Some (si_id x) = inspected)) items.

(** The timeline is partial unless the one page holds everything. *)
Definition partial (p : PageState) (nextCursor : option string) : bool := truthy_ostr (pg_cursor p) || truthy_ostr nextCursor.

(** ** The query library

    A query over the moments of the server: when its data was read, whether the
    last fetch failed, whether it is paused, and when the running fetch was
    sent. *)

Class FetchLibrary := {
  Query : Type;
  query_data : Query → option nat;
  query_error : Query → bool;
  query_paused : Query → bool;
  query_running : Query → option nat;
  query_new : Query;
  query_fetch : bool → nat → Query → Query;       (* [cancelRefetch], the time *)
  query_settle : option nat → Query → Query;      (* what was read, or the error *)
  query_pause : bool → Query → Query
}.

Class FetchLaws (L : FetchLibrary) := {
  new_data : query_data query_new = None;
  new_running : query_running query_new = None;
  fetch_data cancel now q : query_data (query_fetch cancel now q) = query_data q;
  fetch_sends cancel now q : query_running q = None → query_running (query_fetch cancel now q) = Some now;
  fetch_replaces now q : is_Some (query_data q) → query_running (query_fetch true now q) = Some now;
  fetch_joins cancel now q :
    is_Some (query_running q) → cancel = false ∨ query_data q = None → query_fetch cancel now q = q;
  settle_running r q : query_running (query_settle r q) = None;
  settle_data r q : query_data (query_settle r q) = match r with Some t => Some t | None => query_data q end;
  settle_error r q : query_error (query_settle r q) = match r with Some _ => false | None => true end;
  pause_data b q : query_data (query_pause b q) = query_data q;
  pause_error b q : query_error (query_pause b q) = query_error q;
  pause_running b q : query_running (query_pause b q) = query_running q
}.

(** An implementation. *)
Record Fetch := mkFetch { fe_data : option nat; fe_error : bool; fe_paused : bool; fe_running : option nat }.

#[export] Instance fetch_library : FetchLibrary := {
  Query := Fetch;
  query_data := fe_data;
  query_error := fe_error;
  query_paused := fe_paused;
  query_running := fe_running;
  query_new := mkFetch None false false None;
  query_fetch cancel now f :=
    match fe_running f, cancel && match fe_data f with Some _ => true | None => false end with
    | Some _, false => f
    | _, _ => mkFetch (fe_data f) (match fe_data f with Some _ => fe_error f | None => false end) false (Some now)
    end;
  query_settle r f :=
    match r with
    | Some t => mkFetch (Some t) false false None
    | None => mkFetch (fe_data f) true false None
    end;
  query_pause b f :=
    match fe_running f with
    | Some sent => mkFetch (fe_data f) (fe_error f) b (Some sent)
    | None => f
    end
}.

#[export] Instance fetch_laws : FetchLaws fetch_library.
Proof.
  split; try done.
  - intros [] now [[d|] e p [r|]]; done.
  - by intros cancel now [d e p r] Hr; simpl in *; subst r.
  - by intros now [[d|] e p [r|]] [x [=]].
  - intros cancel now [d e p r] [t Ht] Hc; simpl in *; subst r. by destruct Hc as [->| ->]; simpl; rewrite ?andb_false_r.
  - by intros [t|].
  - by intros [t|].
  - by intros [t|].
  - by intros b [d e p [r|]].
  - by intros b [d e p [r|]].
  - by intros b [d e p [r|]].
Qed.

(** ** Refreshing *)

(** [refresh] is waiting for the detail, or for the executions and, when they
    were shown, the variables. *)
Inductive Phase := PIdle | PDetail (variables : bool) | POthers (executions variables : bool).

Section sync.
Context `{FetchLibrary}.

(** [isError || fetchStatus === "paused"] *)
Definition stale (q : Query) : bool := query_error q || query_paused q.

(** The executions are the query of the page of executions on display. *)
Record Sync := mkSync {
  sy_now : nat;
  sy_view : DetailView;
  sy_detail : Query;
  sy_executions : Query;
  sy_variables : Query;
  sy_phase : Phase;
  sy_refreshed : nat              (* the refreshes that have gone through *)
}.

(** The status of the instance on the server over time. *)
Context (status_at : nat → string).

Definition shown_status (s : Sync) : option string := status_at <$> query_data (sy_detail s).

Definition shouldPoll (s : Sync) : bool :=
  bool_decide (shown_status s = Some "ACTIVE") || bool_decide (shown_status s = Some "WAITING") ||
  stale (sy_detail s) || stale (sy_executions s) ||
  match sy_view s with VVariables => stale (sy_variables s) | VOverview => false end.

(** The page is mounted: both queries fetch. *)
Definition mount_sync : Sync :=
  mkSync 0 VOverview (query_fetch false 0 query_new) (query_fetch false 0 query_new) query_new PIdle 0.

(** [refresh]: nothing while one is under way; a running fetch of the detail is
    joined. *)
Definition begin_refresh (s : Sync) : Sync :=
  match sy_phase s with
  | PIdle =>
      mkSync (sy_now s) (sy_view s) (query_fetch false (sy_now s) (sy_detail s)) (sy_executions s) (sy_variables s)
        (PDetail (match sy_view s with VVariables => true | VOverview => false end)) (sy_refreshed s)
  | _ => s
  end.

(** After [await refetchDetail]. *)
Definition after_detail (s : Sync) : Sync :=
  match sy_phase s with
  | PDetail variables =>
      mkSync (sy_now s) (sy_view s) (sy_detail s) (query_fetch true (sy_now s) (sy_executions s))
        (if variables then query_fetch true (sy_now s) (sy_variables s) else sy_variables s)
        (POthers true variables) (sy_refreshed s)
  | _ => s
  end.

(** [finally]: the guard is released when everything awaited has settled. *)
Definition release (executions variables : bool) (s : Sync) : Sync :=
  if executions || variables
  then mkSync (sy_now s) (sy_view s) (sy_detail s) (sy_executions s) (sy_variables s) (POthers executions variables) (sy_refreshed s)
  else mkSync (sy_now s) (sy_view s) (sy_detail s) (sy_executions s) (sy_variables s) PIdle (S (sy_refreshed s)).

Definition with_detail (q : Query) (s : Sync) : Sync :=
  mkSync (sy_now s) (sy_view s) q (sy_executions s) (sy_variables s) (sy_phase s) (sy_refreshed s).

Definition with_executions (q : Query) (s : Sync) : Sync :=
  mkSync (sy_now s) (sy_view s) (sy_detail s) q (sy_variables s) (sy_phase s) (sy_refreshed s).

Definition with_variables (q : Query) (s : Sync) : Sync :=
  mkSync (sy_now s) (sy_view s) (sy_detail s) (sy_executions s) q (sy_phase s) (sy_refreshed s).

(** [EPage]: another page of executions is on display, with whatever its query
    holds and has under way; its data is out of date, so it fetches.  The page
    turns here while no refresh is under way. *)
Inductive SyncEvent :=
| EAdvance
| ETimer (visible : bool)
| EVisible (visible : bool)
| ERefresh
| EView (v : DetailView)
| EPage (cached : Query)
| EDetail (result : option nat)
| EExecutions (result : option nat)
| EVariables (result : option nat)
| EPaused (detail executions variables : bool).

(** A response is of a moment between its request and now. *)
Definition answers (q : Query) (now : nat) (result : option nat) : bool :=
  match query_running q, result with
  | None, _ => false
  | Some _, None => true
  | Some sent, Some t => Nat.leb sent t && Nat.leb t now
  end.

(** One thing that happens on the page; [None] when it cannot. *)
Definition sync_step (e : SyncEvent) (s : Sync) : option Sync :=
  match e with
  | EAdvance => Some (mkSync (S (sy_now s)) (sy_view s) (sy_detail s) (sy_executions s) (sy_variables s) (sy_phase s) (sy_refreshed s))
  | ETimer visible => if shouldPoll s then Some (if visible then begin_refresh s else s) else None
  | EVisible visible => Some (if visible then begin_refresh s else s)
  | ERefresh => Some (begin_refresh s)
  | EView v =>
      (* the query of the variables is enabled with its tab; its data, if any, is out of date *)
      let variables := match v, sy_view s with
                       | VVariables, VOverview => query_fetch false (sy_now s) (sy_variables s)
                       | _, _ => sy_variables s
                       end in
      Some (mkSync (sy_now s) v (sy_detail s) (sy_executions s) variables (sy_phase s) (sy_refreshed s))
  | EPage cached =>
      match sy_phase s with
      | PIdle => Some (with_executions (query_fetch false (sy_now s) cached) s)
      | _ => None
      end
  | EDetail r =>
      if answers (sy_detail s) (sy_now s) r then Some (after_detail (with_detail (query_settle r (sy_detail s)) s)) else None
  | EExecutions r =>
      if answers (sy_executions s) (sy_now s) r then
        let s' := with_executions (query_settle r (sy_executions s)) s in
        Some (match sy_phase s with POthers true variables => release false variables s' | _ => s' end)
      else None
  | EVariables r =>
      if answers (sy_variables s) (sy_now s) r then
        let s' := with_variables (query_settle r (sy_variables s)) s in
        Some (match sy_phase s with POthers executions true => release executions false s' | _ => s' end)
      else None
  | EPaused d x v =>
      Some (mkSync (sy_now s) (sy_view s) (query_pause d (sy_detail s)) (query_pause x (sy_executions s))
              (query_pause v (sy_variables s)) (sy_phase s) (sy_refreshed s))
  end.

Inductive sync_reachable : Sync → Prop :=
| sync_mount : sync_reachable mount_sync
| sync_next s e s' : sync_reachable s → sync_step e s = Some s' → sync_reachable s'.

Fixpoint sync_run (es : list SyncEvent) (s : Sync) : option Sync :=
  match es with [] => Some s | e :: es => s' ← sync_step e s; sync_run es s' end.

Definition page_turn (e : SyncEvent) : bool := match e with EPage _ => true | _ => false end.
End sync.

Arguments Sync {_}.
Arguments SyncEvent {_}.

(** ** The refresh *)

Section refresh.
Context `{QL : FetchLaws} (status_at : nat → string).

(** What holds in every state: data was read in the past and the phase has its
    fetches running.  [A]: since the [n]th refresh the page was not turned and
    before the next one its executions had answered, so a refresh sends its own
    request for them; then, once another has gone through, the executions are
    those of a moment at or after the one of the detail, unless their fetch
    failed. *)
Record sync_ok (A : Prop) (n : nat) (s : Sync) : Prop := {
  so_detail_data t : query_data (sy_detail s) = Some t → t ≤ sy_now s;
  so_phase_detail v : sy_phase s = PDetail v → is_Some (query_running (sy_detail s));
  so_phase_others v : sy_phase s = POthers true v → is_Some (query_running (sy_executions s));
  so_phase_variables x : sy_phase s = POthers x true → is_Some (query_running (sy_variables s));
  so_phase_waits x v : sy_phase s = POthers x v → x || v = true;
  so_detail_done x v : sy_phase s = POthers x v → query_running (sy_detail s) = None;
  so_sent v d sent : A → sy_phase s = POthers true v → query_data (sy_detail s) = Some d →
    query_running (sy_executions s) = Some sent → d ≤ sent;
  so_settled : A → (sy_phase s = PIdle ∧ n < sy_refreshed s) ∨ (∃ v, sy_phase s = POthers false v) →
    query_running (sy_detail s) = None ∧
    (query_error (sy_executions s) = false →
     ∀ d x, query_data (sy_detail s) = Some d → query_data (sy_executions s) = Some x → d ≤ x);
  so_had : A → (∀ v, sy_phase s ≠ POthers true v) → query_running (sy_executions s) = None
}.

Lemma mount_ok n : sync_ok False n mount_sync.
Proof. split; try done. simpl. intros t. by rewrite fetch_data, new_data. Qed.

(** A fetch leaves something running. *)
Lemma fetch_runs cancel now q : is_Some (query_running (query_fetch cancel now q)).
Proof.
  destruct (query_running q) as [sent|] eqn:E; [|rewrite fetch_sends by done; eauto].
  destruct (query_data q) as [d|] eqn:Ed; [destruct cancel; [rewrite fetch_replaces by (by rewrite Ed); eauto|]|];
    (rewrite fetch_joins; [by rewrite E|by rewrite E|auto]).
Qed.

Lemma begin_refresh_ok A n s : sync_ok A n s → sync_ok A n (begin_refresh s).
Proof.
  intros Hok. unfold begin_refresh. destruct (sy_phase s) eqn:Ep; try exact Hok. destruct Hok as [H1 H2 H3 H4 H5 H6 H7 H8 H9].
  split; cbn [sy_now sy_detail sy_executions sy_variables sy_phase sy_refreshed]; try done.
  - by rewrite fetch_data.
  - intros v _. apply fetch_runs.
  - intros _ [[[=] _]|[v [=]]].
  - intros HA _. apply H9; [done|]. by rewrite Ep.
Qed.

Lemma answers_inv q now r : answers q now r = true →
  ∃ sent, query_running q = Some sent ∧ ∀ t, r = Some t → sent ≤ t ≤ now.
Proof.
  unfold answers. destruct (query_running q) as [sent|]; [|done]. intros Hr. exists sent. split; [done|]. intros t ->.
  apply andb_true_iff in Hr as [?%Nat.leb_le ?%Nat.leb_le]. lia.
Qed.

Lemma detail_ok A n r s : sync_ok A n s → answers (sy_detail s) (sy_now s) r = true →
  sync_ok A n (after_detail (with_detail (query_settle r (sy_detail s)) s)).
Proof.
  intros [H1 H2 H3 H4 H5 H6 H7 H8 H9] (sent & Hrun & Ht)%answers_inv.
  assert (∀ t, query_data (query_settle r (sy_detail s)) = Some t → t ≤ sy_now s) as Hdata.
  { intros t. rewrite settle_data. destruct r as [t'|]; [|apply H1]. intros [= ->]. by apply Ht. }
  unfold after_detail, with_detail. cbn [sy_phase]. destruct (sy_phase s) as [|v|x v] eqn:Ep.
  - split; cbn [sy_now sy_detail sy_executions sy_variables sy_phase sy_refreshed]; try (rewrite Ep; done); try done.
    intros HA [[_ Hr]|[v E]]; [|congruence]. exfalso. destruct (H8 HA (or_introl (conj eq_refl Hr))) as [E _]. congruence.
  - split; cbn [sy_now sy_detail sy_executions sy_variables sy_phase sy_refreshed]; try done.
    + intros _ _. apply fetch_runs.
    + intros x [= <- ->]. apply fetch_runs.
    + by intros x v' [= <- <-].
    + intros x v' _. apply settle_running.
    + intros v' d sent' HA _ Hd. rewrite fetch_sends by (by apply H9). intros [= <-]. by apply Hdata.
    + intros _ [[[=] _]|[v' [=]]].
    + intros _ Hn. by destruct (Hn v).
  - exfalso. rewrite (H6 x v eq_refl) in Hrun. done.
Qed.

Lemma executions_ok A n r s : sync_ok A n s → answers (sy_executions s) (sy_now s) r = true →
  let s' := with_executions (query_settle r (sy_executions s)) s in
  sync_ok A n (match sy_phase s with POthers true variables => release false variables s' | _ => s' end).
Proof.
  intros [H1 H2 H3 H4 H5 H6 H7 H8 H9] (sent & Hrun & Ht)%answers_inv s'.
  assert (A → ∀ v, sy_phase s = POthers true v →
    query_running (sy_detail s) = None ∧
    (query_error (query_settle r (sy_executions s)) = false →
     ∀ d x, query_data (sy_detail s) = Some d → query_data (query_settle r (sy_executions s)) = Some x → d ≤ x)) as Hdone.
  { intros HA v E. split; [by apply (H6 _ _ E)|]. rewrite settle_error, settle_data. destruct r as [t|]; [|done].
    intros _ d x Hd [= <-]. pose proof (H7 v d sent HA E Hd Hrun). specialize (Ht t eq_refl). lia. }
  assert (A → (∀ v, sy_phase s ≠ POthers true v) → False) as Hno by (intros HA Hn; specialize (H9 HA Hn); congruence).
  unfold s'. destruct (sy_phase s) as [|v|[|] v] eqn:Ep.
  - split; cbn [sy_now sy_detail sy_executions sy_variables sy_phase sy_refreshed with_executions]; rewrite ?Ep; try done;
      intros HA; by destruct (Hno HA).
  - split; cbn [sy_now sy_detail sy_executions sy_variables sy_phase sy_refreshed with_executions]; rewrite ?Ep; try done;
      intros HA; by destruct (Hno HA).
  - unfold release. cbn [orb].
    destruct v; split; cbn [sy_now sy_detail sy_executions sy_variables sy_phase sy_refreshed with_executions]; try done.
    + intros x _. by apply (H4 true).
    + by intros x v [= <- <-].
    + intros x v _. by apply (H6 true true).
    + intros HA _. by apply (Hdone HA true).
    + intros _ _. apply settle_running.
    + intros HA _. by apply (Hdone HA false).
    + intros _ _. apply settle_running.
  - split; cbn [sy_now sy_detail sy_executions sy_variables sy_phase sy_refreshed with_executions]; rewrite ?Ep; try done;
      intros HA; by destruct (Hno HA).
Qed.

Lemma variables_ok A n r s : sync_ok A n s → answers (sy_variables s) (sy_now s) r = true →
  let s' := with_variables (query_settle r (sy_variables s)) s in
  sync_ok A n (match sy_phase s with POthers executions true => release executions false s' | _ => s' end).
Proof.
  intros [H1 H2 H3 H4 H5 H6 H7 H8 H9] _ s'. unfold s'. destruct (sy_phase s) as [|v|x [|]] eqn:Ep.
  - split; cbn [sy_now sy_detail sy_executions sy_variables sy_phase sy_refreshed with_variables]; rewrite ?Ep; done.
  - split; cbn [sy_now sy_detail sy_executions sy_variables sy_phase sy_refreshed with_variables]; rewrite ?Ep; done.
  - unfold release. destruct x; cbn [orb].
    + split; cbn [sy_now sy_detail sy_executions sy_variables sy_phase sy_refreshed with_variables]; try done.
      * intros v _. by apply (H3 true).
      * by intros x v [= <- <-].
      * intros x v _. by apply (H6 true true).
      * intros v d sent HA _. by apply (H7 true).
      * intros _ [[[=] _]|[v [=]]].
      * intros _ Hn. by destruct (Hn false).
    + split; cbn [sy_now sy_detail sy_executions sy_variables sy_phase sy_refreshed with_variables]; try done.
      * intros HA _. apply H8; [done|]. right. by eexists.
      * intros HA _. by apply H9.
  - split; cbn [sy_now sy_detail sy_executions sy_variables sy_phase sy_refreshed with_variables]; rewrite ?Ep; done.
Qed.

Lemma sync_step_ok A n e s s' : (A → page_turn e = false) → sync_ok A n s → sync_step status_at e s = Some s' → sync_ok A n s'.
Proof.
  intros Hturn Hok. destruct e as [|v|v| |v|q|r|r|r|d x v]; cbn [sync_step].
  - intros [= <-]. destruct Hok as [H1 H2 H3 H4 H5 H6 H7 H8 H9]. split; try done.
    cbn [sy_detail sy_now]. intros t Ht%H1. lia.
  - destruct (shouldPoll status_at s); [|done]. intros [= <-]. destruct v; [by apply begin_refresh_ok|done].
  - intros [= <-]. destruct v; [by apply begin_refresh_ok|done].
  - intros [= <-]. by apply begin_refresh_ok.
  - intros [= <-]. destruct Hok as [H1 H2 H3 H4 H5 H6 H7 H8 H9]. split; try done.
    cbn [sy_phase sy_variables]. intros x Hx%H4. destruct v; [done|]. destruct (sy_view s); [apply fetch_runs|done].
  - destruct (sy_phase s) eqn:Ep; try done. intros [= <-]. destruct Hok as [H1 H2 H3 H4 H5 H6 H7 H8 H9].
    split; cbn [sy_now sy_detail sy_executions sy_variables sy_phase sy_refreshed with_executions]; rewrite ?Ep; try done;
      intros HA; by specialize (Hturn HA).
  - destruct (answers _ _ _) eqn:Ea; [|done]. intros [= <-]. by apply detail_ok.
  - destruct (answers _ _ _) eqn:Ea; [|done]. intros [= <-]. by apply executions_ok.
  - destruct (answers _ _ _) eqn:Ea; [|done]. intros [= <-]. by apply variables_ok.
  - intros [= <-]. destruct Hok as [H1 H2 H3 H4 H5 H6 H7 H8 H9].
    split; cbn [sy_now sy_detail sy_executions sy_variables sy_phase sy_refreshed];
      rewrite ?pause_data, ?pause_running, ?pause_error; done.
Qed.

Lemma sync_reachable_ok n s : sync_reachable status_at s → sync_ok False n s.
Proof. induction 1 as [|s e s' _ IH Hs]; [apply mount_ok|by apply (sync_step_ok False n e s)]. Qed.

Lemma sync_run_reachable es s s' : sync_reachable status_at s → sync_run status_at es s = Some s' → sync_reachable status_at s'.
Proof.
  revert s. induction es as [|e es IH]; intros s Hr; cbn [sync_run]; [by intros [= <-]|].
  destruct (sync_step status_at e s) as [s1|] eqn:E; [|done]. cbn [mbind option_bind]. apply IH. by apply (sync_next _ s e).
Qed.

(** From a moment with no refresh under way and the executions answered. *)
Lemma sync_run_ok es s s' :
  sync_reachable status_at s → sy_phase s = PIdle → query_running (sy_executions s) = None →
  forallb (λ e, negb (page_turn e)) es = true → sync_run status_at es s = Some s' → sync_ok True (sy_refreshed s) s'.
Proof.
  intros Hr Hp Hx Hes. assert (sync_ok True (sy_refreshed s) s) as Hok.
  { destruct (sync_reachable_ok 0 s Hr) as [H1 H2 H3 H4 H5 H6 _ _ _]. split; try done; rewrite ?Hp; try done.
    intros _ [[_ Hn]|[v [=]]]. lia. }
  clear Hr Hp Hx. revert Hok. generalize (sy_refreshed s) as n. revert s. induction es as [|e es IH]; intros s n Hok; cbn [sync_run].
  { by intros [= <-]. }
  simpl in Hes. apply andb_true_iff in Hes as [He Hes]. apply negb_true_iff in He.
  destruct (sync_step status_at e s) as [s1|] eqn:E; [|done]. cbn [mbind option_bind]. apply IH; [done|].
  by apply (sync_step_ok True n e s).
Qed.

(** Whatever is under way, its responses, good or bad, release the guard. *)
Definition awaited (s : Sync) (results : option nat * option nat * option nat) : list SyncEvent :=
  let '(d, x, v) := results in
  match sy_phase s with
  | PIdle => []
  | PDetail variables => EDetail d :: EExecutions x :: (if variables then [EVariables v] else [])
  | POthers executions variables =>
      (if executions then [EExecutions x] else []) ++ (if variables then [EVariables v] else [])
  end.

Lemma answers_error q now : is_Some (query_running q) → answers q now None = true.
Proof. unfold answers. by intros [t ->]. Qed.

Lemma awaited_others s x v :
  sy_phase s = POthers x v → x || v = true →
  (x = true → is_Some (query_running (sy_executions s))) → (v = true → is_Some (query_running (sy_variables s))) →
  ∃ s', sync_run status_at ((if x then [EExecutions None] else []) ++ (if v then [EVariables None] else [])) s = Some s' ∧
        sy_phase s' = PIdle.
Proof.
  intros Hp Hw Hx Hv. destruct x, v; cbn [app sync_run sync_step]; try done.
  - rewrite (answers_error (sy_executions s)), Hp by auto. cbn [mbind option_bind sync_step release orb sy_variables sy_now with_executions].
    rewrite answers_error by auto. by eexists.
  - rewrite answers_error, Hp by auto. by eexists.
  - rewrite answers_error, Hp by auto. by eexists.
Qed.

Lemma awaited_release s : sync_ok False 0 s →
  ∃ s', sync_run status_at (awaited s (None, None, None)) s = Some s' ∧ sy_phase s' = PIdle.
Proof.
  intros Hok. pose proof (so_phase_detail _ _ _ Hok) as H2. pose proof (so_phase_others _ _ _ Hok) as H3.
  pose proof (so_phase_variables _ _ _ Hok) as H4. pose proof (so_phase_waits _ _ _ Hok) as H5.
  unfold awaited. destruct (sy_phase s) as [|w|x v] eqn:Ep.
  - by exists s.
  - cbn [sync_run sync_step]. rewrite answers_error by (by eapply H2). cbn [mbind option_bind].
    set (s1 := after_detail _).
    assert (sy_phase s1 = POthers true w) as Hp1 by (unfold s1, after_detail, with_detail; cbn [sy_phase]; by rewrite Ep).
    assert (is_Some (query_running (sy_executions s1)) ∧ (w = true → is_Some (query_running (sy_variables s1)))) as [Hx Hv].
    { unfold s1, after_detail, with_detail. cbn [sy_phase]. rewrite Ep. cbn [sy_executions sy_variables]. split; [apply fetch_runs|].
      intros ->. apply fetch_runs. }
    apply (awaited_others s1 true w); auto.
  - apply awaited_others; [done|by apply H5|intros ->; by eapply H3|intros ->; by eapply H4].
Qed.
End refresh.
