(* ===== verification/InstancePageProps.v ===== *)
(** * What the page of a process instance promises

    The pages of executions are those of the API, in order, with the ones
    before in the history; a link to an incident is shown exactly when the
    incident exists; and a refresh reads the history after the status. *)

From stdpp Require Import sorting.
From S2P Require Import Prelude JsObject Peg Schema ImportExport Utc Cursor Paging Conditions Instances InstancesProps Context Executions Incidents IncidentsProps UrlParams ListFilters Routes InstancePage.

(** ** Pages of executions *)

Section history.
Context `{Utf8Text} (pages : option string → ListResult StepExecutionListItem).

(** The [nextCursor] of the page that is shown, once it is loaded. *)
Definition loaded (p : PageState) : option (option string) :=
  match pages (pg_cursor p) with Page _ n => Some n | _ => None end.

Inductive page_reachable : PageState → Prop :=
| reach_page search : page_reachable (mount_page search)
| reach_click p a : page_reachable p → page_reachable (page_step (loaded p) a p)
| reach_early p a : page_reachable p → page_reachable (page_step None a p).

(** The cursors that lead from the first page to a page. *)
Inductive trail : list (option string) → option string → Prop :=
| trail_start : trail [] None
| trail_next hist c items n : trail hist c → pages c = Page items (Some n) → n ≠ EmptyString → trail (hist ++ [c]) (Some n).

Lemma trail_last hist c : trail hist c → hist ≠ [] → trail (removelast hist) (default None (last hist)).
Proof.
  inversion 1 as [|hist' c' items n Ht _ _]; [done|]. intros _. subst. by rewrite removelast_last, last_snoc.
Qed.

Lemma click_trail data a p : (data = loaded p ∨ data = None) →
  trail (pg_history p) (pg_cursor p) →
  trail (pg_history (page_step data a p)) (pg_cursor (page_step data a p)).
Proof.
  intros Hd Ht. destruct a; cbn [page_step]; try exact Ht; destruct (pg_detailView p); try exact Ht.
  - destruct data; [|exact Ht]. by destruct (pg_historyView p).
  - destruct data; [|exact Ht]. destruct (pg_cursor p) eqn:E; [apply trail_start|by rewrite E].
  - destruct data; [|exact Ht]. destruct (pg_history p) as [|c h] eqn:E; [by rewrite E|]. cbn [pg_history pg_cursor with_cursor_history].
    by apply (trail_last _ (pg_cursor p)).
  - destruct data as [[n|]|]; [|exact Ht..]. destruct (truthy_str n) eqn:En; [|exact Ht]. apply truthy_str_true in En.
    destruct Hd as [Hd|[=]]. unfold loaded in Hd. destruct (pages (pg_cursor p)) as [| | |items n'] eqn:Ep; try done.
    injection Hd as <-. cbn [pg_history pg_cursor with_cursor_history]. by apply (trail_next _ _ items).
Qed.

Lemma reachable_trail p : page_reachable p → trail (pg_history p) (pg_cursor p).
Proof. induction 1; [constructor|apply click_trail; auto..]. Qed.

Definition page_items (c : option string) : list StepExecutionListItem :=
  match pages c with Page items _ => items | _ => [] end.

Lemma trail_pages hist c fuel all : trail hist c → all_pages fuel pages None = Some all →
  ∃ fuel' rest, all = concat (page_items <$> hist) ++ rest ∧ all_pages fuel' pages c = Some rest.
Proof.
  intros Ht Hall. induction Ht as [|hist c items n _ (fuel' & rest & -> & Hr) Hp _]; [by exists fuel, all|].
  destruct fuel' as [|fuel']; [done|]. cbn [all_pages] in Hr. rewrite Hp in Hr.
  destruct (all_pages fuel' pages (Some n)) as [rest'|] eqn:E; [|done]. injection Hr as <-.
  exists fuel', rest'. split; [|done]. rewrite fmap_app, concat_app. simpl. unfold page_items at 3. rewrite Hp.
  by rewrite app_nil_r, app_assoc.
Qed.
End history.

(** ** Links to incidents *)

Lemma key_unique {A} (f : A → string) (l : list A) x y : NoDup (f <$> l) → x ∈ l → y ∈ l → f x = f y → x = y.
Proof.
  intros Hn [i Hi]%list_elem_of_lookup [j Hj]%list_elem_of_lookup E.
  assert (i = j) as <-; [|congruence]. eapply (NoDup_lookup (f <$> l) i j (f x)); [done|..];
    by rewrite list_lookup_fmap, ?Hi, ?Hj; simpl; rewrite ?E.
Qed.

Section links.
Context `{P : Postgres} (sn : Snapshot) (Hpk : primary_keys sn).

(** The incident of an execution of an instance that has its definition. *)
Lemma incident_exists instanceId d e :
  detail sn instanceId = Some d → e ∈ db_executions (sn_db sn) → er_instance_id e = instanceId →
  is_Some (incident_detail sn (er_id e)) ↔ er_status e = "FAILED" ∧ pi_status (pd_instance d) ≠ "CANCELLED".
Proof using Hpk.
  intros Hd He Hi. unfold detail in Hd.
  destruct (List.find _ (db_instances (sn_db sn))) as [row|] eqn:Er; [|done]. cbn [mbind option_bind] in Hd.
  destruct (List.find _ (sn_definitions sn)) as [df|] eqn:Ed; [|done]. cbn [mbind option_bind] in Hd. injection Hd as <-.
  apply List.find_some in Er as [Hr%list_elem_of_In Er%String.eqb_eq]. apply List.find_some in Ed as [Hdf%list_elem_of_In Ed].
  apply andb_true_iff in Ed as [Ed1%String.eqb_eq Ed2%Z.eqb_eq]. cbn [pd_instance list_item pi_status].
  destruct (incident_detail_spec sn (er_id e) Hpk) as [Hsome Hnone]. split.
  - intros [inc Hinc]. destruct (Hsome inc Hinc) as (r & _ & (Hx & Hst & i & d' & Hin & Hid & Hc & _) & Eid & _).
    assert (in_execution r = e) as Ee by (by apply (key_unique er_id _ _ _ (pk_executions _ Hpk))). rewrite Ee in *.
    split; [done|]. assert (i = row) as <-; [|done]. apply (key_unique ir_id _ _ _ (pk_instances _ Hpk)); congruence.
  - intros [Hst Hc]. destruct (incident_detail sn (er_id e)) eqn:E; [by eexists|]. exfalso.
    apply (Hnone eq_refl e); [|done]. split_and!; [done|done|]. exists row, df. split_and!; try done; [congruence|].
    by split; try intros s [? _]; try intros s t [? _].
Qed.
End links.

(** ** Properties *)

(** C11: the pages of step executions, whatever is clicked, as long as the
    database stays as it is, its executions have distinct ids that are not
    empty and started on whole milliseconds: the page shown is a page of the
    executions of the instance, newest first; the pages in the history are
    exactly those before it; Previous is offered exactly when there is one; and
    on the last page there is nothing after it. *)
Theorem execution_history `{J : JsonText} `{!JsonTextLaws J} `{U : Utf8Text} `{!Utf8Laws U}
    `{P : Postgres} `{!PostgresLaws P} db i p (pages := listStepExecutions db i None) :
  NoDup (er_id <$> db_executions db) →
  (∀ e, e ∈ db_executions db → er_id e ≠ EmptyString ∧ whole_ms (er_started_at e)) →
  page_reachable pages p →
  (pg_history p = [] ↔ pg_cursor p = None) ∧
  ∃ rows items next rest,
    StronglySorted (before execution_key) rows ∧ (∀ e, e ∈ rows ↔ e ∈ db_executions db ∧ er_instance_id e = i) ∧
    pages (pg_cursor p) = Page items next ∧
    execution_item <$> rows = concat (page_items pages <$> pg_history p) ++ items ++ rest ∧
    (next = None → rest = []).
Proof.
  intros Hids Hrows Hr. apply reachable_trail in Hr as Ht. split; [by destruct Ht as [|[|]]|].
  destruct (execution_pages db i None 50 eq_refl Hids Hrows) as (rows & Hp & _ & Hs & Hin).
  destruct (trail_pages pages _ _ _ _ Ht Hp) as (fuel & rest & E & Hall). destruct fuel as [|fuel]; [done|].
  cbn [all_pages] in Hall. destruct (pages (pg_cursor p)) as [| | |items [n|]] eqn:Epage; try done.
  - destruct (all_pages fuel pages (Some n)) as [rest'|]; [|done]. injection Hall as <-. by exists rows, items, (Some n), rest'.
  - injection Hall as <-. exists rows, items, None, []. by rewrite app_nil_r.
Qed.

(** The page links to an incident exactly when there is one: the failure cell
    of an execution is a link if and only if the incident of that id exists,
    and the link of the selected step leads to an incident of that step. *)
Theorem incident_links_exact `{P : Postgres} sn instanceId d :
  primary_keys sn → detail sn instanceId = Some d →
  (∀ e, e ∈ db_executions (sn_db sn) → er_instance_id e = instanceId →
     (failure_cell d (execution_item e) = FLink (er_id e) ↔ is_Some (incident_detail sn (er_id e)))) ∧
  (∀ step x, selectedFailedExecution d (Some step) = Some x →
     ∃ inc, incident_detail sn (ss_executionId x) = Some inc ∧ il_stepId (id_item inc) = step ∧
       il_id (id_item inc) = ss_executionId x).
Proof.
  intros Hpk Hd. split.
  - intros e He Hi. rewrite (incident_exists sn Hpk instanceId d e Hd He Hi). unfold failure_cell. cbn [execution_item si_status si_id si_hasFailure].
    destruct (String.eqb_spec (er_status e) "FAILED"), (String.eqb_spec (pi_status (pd_instance d)) "CANCELLED"); cbn [andb negb];
      try (destruct (bool_decide (is_Some (er_failure_reason e)))); naive_solver.
  - intros step x. unfold selectedFailedExecution. destruct (String.eqb_spec (pi_status (pd_instance d)) "CANCELLED") as [|Hc]; [done|].
    cbn [negb]. intros [Hx Hb]%List.find_some. apply andb_true_iff in Hb as [[= Hs]%bool_decide_eq_true Hst%String.eqb_eq].
    assert (∃ e, x = summary e ∧ e ∈ latest_by_step sn instanceId) as (e & -> & He).
    { unfold detail in Hd. destruct (List.find _ _); [|done]. cbn [mbind option_bind] in Hd. destruct (List.find _ _); [|done].
      injection Hd as <-. cbn [pd_latestByStep] in Hx. apply list_elem_of_In, list_elem_of_fmap in Hx as (e & -> & He). eauto. }
    apply latest_by_step_in, latest_execution_in in He as (He & Hi & _). cbn [summary ss_executionId ss_stepId ss_status] in *.
    destruct (proj2 (incident_exists sn Hpk instanceId d e Hd He Hi) (conj Hst Hc)) as [inc Hinc]. exists inc. split; [done|].
    destruct (proj1 (incident_detail_spec sn (er_id e) Hpk) inc Hinc) as (r & _ & (Hr & _) & Eid & -> & _).
    assert (in_execution r = e) as Ee by (by apply (key_unique er_id _ _ _ (pk_executions _ Hpk))).
    unfold mapListItem. cbn. by rewrite Ee.
Qed.

(** C28: refreshing reads the history after the status.  Take a moment when no
    refresh is under way and the executions on display have been answered, well
    or not, and the user stays on that page of them: once a later refresh has
    gone through and the page has stopped polling, the executions shown are the
    ones the server has now, provided an instance that has ended gets no
    further executions. *)
Theorem refreshed_history_final `{QL : FetchLaws} {Row} (status_at : nat → string) (executions_at : nat → list Row)
    es s0 s d x :
  (∀ t t', t ≤ t' → status_at t ≠ "ACTIVE" → status_at t ≠ "WAITING" → executions_at t' = executions_at t) →
  sync_reachable status_at s0 → sy_phase s0 = PIdle → query_running (sy_executions s0) = None →
  forallb (λ e, negb (page_turn e)) es = true → sync_run status_at es s0 = Some s →
  sy_refreshed s0 < sy_refreshed s → sy_phase s = PIdle → shouldPoll status_at s = false →
  query_data (sy_detail s) = Some d → query_data (sy_executions s) = Some x →
  executions_at x = executions_at (sy_now s).
Proof.
  intros Hend Hr H0 Hx0 Hes Hrun Hn Hp Hpoll Hd Hx. pose proof (sync_run_ok status_at es s0 s Hr H0 Hx0 Hes Hrun) as Hok.
  unfold shouldPoll, shown_status in Hpoll. rewrite !orb_false_iff, Hd in Hpoll. destruct Hpoll as ((((H1 & H2) & _) & Hs) & _).
  apply bool_decide_eq_false in H1, H2. cbn in H1, H2. unfold stale in Hs. apply orb_false_iff in Hs as [He _].
  destruct (so_settled _ _ _ Hok I) as (_ & Hle); [by left|]. specialize (Hle He d x Hd Hx).
  pose proof (so_detail_data _ _ _ Hok d Hd). rewrite (Hend d x), (Hend d (sy_now s)); try done; congruence.
Qed.

(** The guard of [refresh] never sticks: from every state, the responses that
    are awaited let the next refresh start, even when all of them are errors. *)
Theorem refresh_guard_released `{QL : FetchLaws} (status_at : nat → string) s :
  sync_reachable status_at s →
  ∃ s' s'', sync_run status_at (awaited s (None, None, None)) s = Some s' ∧
    sync_step status_at ERefresh s' = Some s'' ∧ is_Some (query_running (sy_detail s'')).
Proof.
  intros Hr. apply (sync_reachable_ok status_at 0) in Hr. destruct (awaited_release status_at s Hr) as (s' & Hs & Hp).
  exists s', (begin_refresh s'). split; [done|]. split; [done|]. unfold begin_refresh. rewrite Hp. cbn [sy_detail]. apply fetch_runs.
Qed.

(** An instance that ends while its page loads. *)
Definition ending_status (t : nat) : string := if Nat.eqb t 0 then "ACTIVE" else "COMPLETED".
Definition ending_executions (t : nat) : list string := if Nat.eqb t 0 then ["pay"] else ["pay"; "done"].

Lemma ending_final t t' :
  t ≤ t' → ending_status t ≠ "ACTIVE" → ending_status t ≠ "WAITING" → ending_executions t' = ending_executions t.
Proof. intros Ht. unfold ending_status, ending_executions. destruct (Nat.eqb_spec t 0), (Nat.eqb_spec t' 0); [done|done|lia|done]. Qed.

(** The first load does not have this order: the executions can be read before
    the instance ends and the status after it, and then the page neither polls
    nor shows the last executions.  Nor does a refresh during the first load,
    which joins the request that is out. *)
Theorem first_load_history_stale :
  (∀ t t', t ≤ t' → ending_status t ≠ "ACTIVE" → ending_status t ≠ "WAITING" → ending_executions t' = ending_executions t) ∧
  (∃ s x, sync_run ending_status [EExecutions (Some 0); EAdvance; EDetail (Some 1)] mount_sync = Some s ∧
    sy_phase s = PIdle ∧ shouldPoll ending_status s = false ∧
    query_data (sy_executions s) = Some x ∧ ending_executions x ≠ ending_executions (sy_now s)) ∧
  (∃ s x, sync_run ending_status [ERefresh; EAdvance; EDetail (Some 1); EExecutions (Some 0)] mount_sync = Some s ∧
    sy_phase s = PIdle ∧ sy_refreshed s = 1 ∧ shouldPoll ending_status s = false ∧
    query_data (sy_executions s) = Some x ∧ ending_executions x ≠ ending_executions (sy_now s)).
Proof.
  split_and!; [apply ending_final|..]; (eexists _, _; split; [reflexivity|]; split_and!; done).
Qed.

(** ** Witnesses *)

#[local] Existing Instances model_postgres model_postgres_laws.

(** Fifty-one executions, one more than a page holds, one per millisecond. *)
Definition long_history : Database :=
  mkDatabase [] ((λ n, sample_execution (pretty n) "i" (1709210096788000 + 1000 * Z.of_nat n)%Z) <$> seq 0 51).

#[local] Instance whole_ms_decision micros : Decision (whole_ms micros).
Proof. unfold whole_ms, in_years. apply _. Defined.

Definition long_pages : option string → ListResult StepExecutionListItem := listStepExecutions long_history "i" None.

Definition second_page : PageState :=
  page_step (loaded long_pages (mount_page EmptyString)) ANext (mount_page EmptyString).

(** Next leads to the oldest execution, with the first page before it. *)
Lemma execution_history_witness :
  length (page_items long_pages None) = 50 ∧ (si_id <$> page_items long_pages (pg_cursor second_page)) = ["0"] ∧
  ∃ rows, execution_item <$> rows = page_items long_pages None ++ page_items long_pages (pg_cursor second_page) ∧
    (∀ e, e ∈ rows ↔ e ∈ db_executions long_history ∧ er_instance_id e = "i").
Proof.
  split; [vm_compute; reflexivity|]. split; [vm_compute; reflexivity|].
  destruct (execution_history long_history "i" second_page) as (_ & rows & items & next & rest & _ & Hin & Hp & Hrows & Hlast).
  - apply (bool_decide_unpack _). vm_compute. exact I.
  - apply Forall_forall. apply (bool_decide_unpack _). vm_compute. exact I.
  - apply reach_click, reach_page.
  - exists rows. split; [|exact Hin]. assert (next = None) as -> by (vm_compute in Hp; congruence).
    rewrite (Hlast eq_refl), app_nil_r in Hrows. unfold page_items at 2, long_pages. rewrite Hp, Hrows.
    vm_compute (pg_history second_page). cbn. by rewrite app_nil_r.
Defined.

Lemma incident_links_exact_witness :
  ∃ d, detail (incident_sample None) "i" = Some d ∧ ∃ inc, incident_detail (incident_sample None) "e2" = Some inc ∧ il_stepId (id_item inc) = "pay".
Proof.
  destruct (detail (incident_sample None) "i") as [d|] eqn:E; [|vm_compute in E; discriminate E].
  exists d. split; [reflexivity|].
  destruct (proj2 (incident_links_exact (incident_sample None) "i" d (incident_sample_keys None) E) "pay"
    (mkSummary "e2" "pay" "FAILED" 2)) as (inc & Hi & Hs & _).
  - vm_compute in E. injection E as <-. vm_compute. reflexivity.
  - exists inc. split; [exact Hi|exact Hs].
Defined.

(** The page loads while the instance is active; it ends, and the next poll
    reads the status and then the executions. *)
Definition loaded_page : Sync :=
  default mount_sync (sync_run ending_status [EExecutions (Some 0); EDetail (Some 0)] mount_sync).

Definition polled_page : Sync :=
  default mount_sync (sync_run ending_status [EAdvance; ETimer true; EDetail (Some 1); EExecutions (Some 1)] loaded_page).

Lemma refreshed_history_final_witness :
  query_data (sy_executions loaded_page) = Some 0 ∧ shouldPoll ending_status polled_page = false ∧
  ending_executions 1 = ending_executions (sy_now polled_page).
Proof.
  split; [reflexivity|]. split; [reflexivity|].
  apply (refreshed_history_final ending_status ending_executions
    [EAdvance; ETimer true; EDetail (Some 1); EExecutions (Some 1)] loaded_page polled_page 1 1 ending_final); try reflexivity.
  - apply (sync_run_reachable ending_status [EExecutions (Some 0); EDetail (Some 0)] mount_sync); [apply sync_mount|reflexivity].
  - apply Nat.lt_0_succ.
Defined.

Lemma refresh_guard_released_witness :
  ∃ s' s'', sync_run ending_status (awaited (begin_refresh mount_sync) (None, None, None)) (begin_refresh mount_sync) = Some s' ∧
    sync_step ending_status ERefresh s' = Some s'' ∧ is_Some (query_running (sy_detail s'')).
Proof.
  apply (refresh_guard_released ending_status (begin_refresh mount_sync)).
  apply (sync_next _ mount_sync ERefresh); [apply sync_mount|reflexivity].
Defined.
