(* ===== verification/Comparison.v ===== *)
(** * Comparing snapshots
    (workflow-monitor/src/process-variables/SnapshotComparison.tsx,
    VariableSnapshotInspector.tsx)

    The limits on what is compared, the equality of JSON values, the changes
    between a recorded input and output, and how the values of a change are
    rendered.  Values come from [JSON.parse], so no two of them share an
    object, and each object inherits the members of [Object.prototype]. *)

From Stdlib Require Import Sorted.
From S2P Require Import Prelude JsObject Peg Schema ImportExport Utc Cursor Paging Instances Variables UrlParams ListFilters SavedFilters SavedFiltersProps.

(** ** Limits *)

Definition MAX_BYTES : Z := 256 * 1024.
Definition MAX_NODES : Z := 10000.
Definition MAX_CHANGES : nat := 100.
Definition MAX_DEPTH : nat := 64.

(** [Object.values(value)] of an array or an object. *)
Definition children (v : json) : list json :=
  match v with JArr l => l | JObj o => obj_values o | _ => [] end.

Definition is_record (v : json) : bool := match v with JObj _ => true | _ => false end.

(** The loop over the stack [pending], its top first. *)
Fixpoint limits_loop (fuel : nat) (pending : list (json * nat)) (visited : Z) : option bool :=
  match fuel with
  | O => None
  | S fuel =>
      match pending with
      | [] => Some true
      | (v, depth) :: pending =>
          let visited := (visited + 1)%Z in
          if (MAX_NODES <? visited)%Z || Nat.ltb MAX_DEPTH depth then Some false
          else
            match v with
            | JArr _ | JObj _ =>
                if (MAX_NODES <? Z.of_nat (length (children v)) + Z.of_nat (length pending) + visited)%Z then Some false
                else limits_loop fuel (rev ((λ c, (c, S depth)) <$> children v) ++ pending) visited
            | _ => limits_loop fuel pending visited
            end
      end
  end.

Definition withinLimits (values : list json) : option bool :=
  limits_loop (Z.to_nat MAX_NODES + 2) (rev ((λ v, (v, O)) <$> values)) 0.

(** ** Equality *)

(** [===] on numbers: the same value. *)
Definition num_eqb (a b : jsnum) : bool :=
  let m := Z.min (expo a) (expo b) in
  (mant a * 2 ^ (expo a - m) =? mant b * 2 ^ (expo b - m))%Z.

Fixpoint equal (a b : json) {struct a} : bool :=
  match a, b with
  | JNull, JNull => true
  | JBool x, JBool y => Bool.eqb x y
  | JNum x, JNum y => num_eqb x y
  | JStr x, JStr y => String.eqb x y
  | JArr l, JArr m =>
      Nat.eqb (length l) (length m) &&
      (fix every (l m : list json) : bool :=
         match l, m with x :: l, y :: m => equal x y && every l m | _, _ => true end) l m
  | JObj o, JObj p =>
      Nat.eqb (length o) (length p) &&
      forallb (λ kv, match obj_get p kv.1 with Some w => equal kv.2 w | None => false end) o
  | _, _ => false
  end.

(** ** Changes *)

Inductive Member := MValue (v : json) | MUndefined | MFunction | MPrototype.

(** [o[key]] *)
Definition member (o : obj json) (key : string) : Member :=
  match obj_get o key with
  | Some v => MValue v
  | None =>
      if includes PROTOTYPE_METHODS key then MFunction
      else if String.eqb key "__proto__" then MPrototype else MUndefined
  end.

Inductive ChangeKind := Added | Removed | Changed.

Record Change := mkChange { ch_key : string; ch_before : Member; ch_after : Member; ch_kind : ChangeKind }.

Record Comparison := mkComparison { co_changes : list Change; co_truncated : bool; co_unavailable : option string }.

Definition unavailable (message : string) : Comparison := mkComparison [] false (Some message).

(** The change of one key, if any. *)
Definition change_of (before after : obj json) (key : string) : list Change :=
  let had := obj_has before key in
  let has := obj_has after key in
  if had && has && match obj_get before key, obj_get after key with Some v, Some w => equal v w | _, _ => false end then []
  else [mkChange key (member before key) (member after key) (if negb had then Added else if negb has then Removed else Changed)].

Definition compared_keys (interpretation : OutputInterpretation) (before after : obj json) : list string :=
  match interpretation with
  | VariableDelta => obj_keys after
  | _ => remove_dups (obj_keys before ++ obj_keys after)
  end.

Definition all_changes (interpretation : OutputInterpretation) (input output : json) : list Change :=
  match input, output with
  | JObj before, JObj after => sort_texts (compared_keys interpretation before after) ≫= change_of before after
  | _, _ => if equal input output then [] else [mkChange "Value" (MValue input) (MValue output) Changed]
  end.

Definition compareSnapshots (input output : VariableDocument) (interpretation : OutputInterpretation) : option Comparison :=
  match input, output with
  | Present i isize, Present o osize =>
      if (MAX_BYTES <? Z.of_nat isize + Z.of_nat osize)%Z then
        Some (unavailable "Comparison exceeds the 256 KiB, 10,000-value or 64-level processing limit. Raw snapshots remain available.")
      else
        within ← withinLimits [i; o];
        Some
          (if negb within then
             unavailable "Comparison exceeds the 256 KiB, 10,000-value or 64-level processing limit. Raw snapshots remain available."
           else if match interpretation with VariableDelta => negb (is_record i) || negb (is_record o) | _ => false end then
             unavailable "Returned-variable comparison requires object snapshots. Inspect the raw values."
           else
             let changes := all_changes interpretation i o in
             mkComparison (take MAX_CHANGES changes) (Nat.ltb MAX_CHANGES (length changes)) None)
  | _, _ => Some (unavailable "Both snapshots must be recorded and within the document size limit.")
  end.

(** ** Rendering *)

Section rendering.
Context `{JsonText}.

(** What [Value] renders; [None] when it throws, since [JSON.stringify] of a
    function is undefined. *)
Definition render_value (m : Member) : option string :=
  match m with
  | MUndefined => Some "Missing"
  | MValue v => Some (JSON_stringify v)
  | MPrototype => Some "{}"
  | MFunction => None
  end.

Definition render_change (c : Change) : option (string * string) :=
  before ← render_value (ch_before c); after ← render_value (ch_after c); Some (before, after).

Definition jsonType (v : json) : string :=
  match v with
  | JNull => "null"
  | JArr _ => "array"
  | JBool _ => "boolean"
  | JNum _ => "number"
  | JStr _ => "string"
  | JObj _ => "object"
  end.

(** The rows of [VariableTable]. *)
Definition variable_rows (value : json) : list (string * string * string) :=
  (λ p, (p.1, JSON_stringify p.2, jsonType p.2)) <$> match value with JObj o => o | _ => [("Value", value)] end.
End rendering.

(** * What the comparison of snapshots promises

    The check of the limits is exact and ends; equality is that of JSON values
    up to the order of keys; the changes are exactly the keys that differ. *)

(** ** Limits *)

(** The values of a document, and the depth of the deepest one. *)
Fixpoint nodes (v : json) : nat :=
  match v with
  | JArr l => S (foldr (λ c n, nodes c + n) 0 l)
  | JObj o => S (foldr (λ p n, nodes p.2 + n) 0 o)
  | _ => 1
  end.

Fixpoint height (v : json) : nat :=
  match v with
  | JArr l => foldr (λ c h, Nat.max (S (height c)) h) 0 l
  | JObj o => foldr (λ p h, Nat.max (S (height p.2)) h) 0 o
  | _ => 0
  end.

Definition total_nodes (l : list json) : nat := foldr (λ v n, nodes v + n) 0 l.

Lemma nodes_children v : nodes v = S (total_nodes (children v)).
Proof.
  destruct v as [| | | |l|o]; try done. simpl. f_equal. unfold total_nodes, obj_values.
  induction o as [|p o IH]; [done|]. simpl. by rewrite IH.
Qed.

Lemma height_children v k : height v ≤ k ↔ ∀ c, c ∈ children v → S (height c) ≤ k.
Proof.
  assert (∀ l : list json, foldr (λ c h, Nat.max (S (height c)) h) 0 l ≤ k ↔ ∀ c, c ∈ l → S (height c) ≤ k) as Hl.
  { induction l as [|c l IH]; simpl; [set_solver by lia|]. rewrite Nat.max_lub_iff, IH. set_solver. }
  destruct v as [| | | |l|o]; simpl; try (set_solver by lia).
  unfold obj_values. rewrite <- Hl. f_equiv. induction o as [|p o IH]; [done|]. simpl. by rewrite IH.
Qed.

Lemma total_nodes_cons v l : total_nodes (v :: l) = nodes v + total_nodes l.
Proof. done. Qed.

Lemma total_nodes_app l m : total_nodes (l ++ m) = total_nodes l + total_nodes m.
Proof. unfold total_nodes. induction l as [|v l IH]; simpl; [done|]. rewrite IH. lia. Qed.

Lemma total_nodes_rev l : total_nodes (rev l) = total_nodes l.
Proof. induction l as [|v l IH]; [done|]. simpl. rewrite total_nodes_app, IH. simpl. lia. Qed.

Lemma total_nodes_length l : length l ≤ total_nodes l.
Proof.
  induction l as [|v l IH]; [done|]. simpl. pose proof (nodes_children v). lia.
Qed.

(** What the loop decides: the values seen and still to see, and their depth. *)
Definition limits (pending : list (json * nat)) (visited : Z) : Prop :=
  (visited + Z.of_nat (total_nodes pending.*1) ≤ MAX_NODES)%Z ∧
  ∀ p, p ∈ pending → p.2 + height p.1 ≤ MAX_DEPTH.

Lemma limits_leaf v depth pending visited : children v = [] → (depth ≤ MAX_DEPTH)%nat →
  limits ((v, depth) :: pending) visited ↔ limits pending (visited + 1).
Proof.
  intros Hc Hd. unfold limits. rewrite fmap_cons. simpl. rewrite nodes_children, Hc.
  assert (height v = 0) as Hh by (assert (height v ≤ 0); [apply height_children; rewrite Hc; set_solver|lia]).
  setoid_rewrite elem_of_cons. split.
  - intros [H1 H2]. split; [simpl in H1; lia|]. auto.
  - intros [H1 H2]. split; [simpl; lia|]. intros p [->|Hp]; [simpl; lia|auto].
Qed.

Lemma limits_push v depth pending visited : (depth ≤ MAX_DEPTH)%nat →
  limits ((v, depth) :: pending) visited ↔
  limits (rev ((λ c, (c, S depth)) <$> children v) ++ pending) (visited + 1).
Proof.
  intros Hd. unfold limits. rewrite fmap_cons, fmap_app, total_nodes_app. simpl.
  assert ((rev ((λ c, (c, S depth)) <$> children v)).*1 = rev (children v)) as ->.
  { induction (children v) as [|c l IH]; [done|]. rewrite fmap_cons. cbn [rev]. by rewrite fmap_app, IH. }
  rewrite total_nodes_rev, nodes_children. setoid_rewrite elem_of_cons. setoid_rewrite elem_of_app.
  assert (depth + height v ≤ MAX_DEPTH ↔ ∀ c, c ∈ children v → S depth + height c ≤ MAX_DEPTH) as Hh.
  { assert (depth + height v ≤ MAX_DEPTH ↔ height v ≤ MAX_DEPTH - depth) as -> by lia. rewrite height_children.
    split; intros H c Hc%H; lia. }
  split.
  - intros [H1 H2]. split; [simpl in *; lia|]. intros p [Hp|Hp]; [|auto].
    apply list_elem_of_In, in_rev, list_elem_of_In, list_elem_of_fmap in Hp as (c & -> & Hc). simpl.
    apply Hh; [|done]. apply (H2 (v, depth)). by left.
  - intros [H1 H2]. split; [simpl in *; lia|]. intros p [->|Hp]; [|auto]. simpl. apply Hh. intros c Hc.
    apply (H2 (c, S depth)). left. apply list_elem_of_In, in_rev. rewrite rev_involutive. apply list_elem_of_In.
    by apply (list_elem_of_fmap_2 (λ c, (c, S depth))).
Qed.

(** The loop decides the limits, with fuel for as many turns as there may be
    values. *)
Lemma limits_loop_spec fuel pending visited :
  (0 ≤ visited ≤ MAX_NODES)%Z → (MAX_NODES - visited < Z.of_nat fuel)%Z →
  ∃ b, limits_loop (S fuel) pending visited = Some b ∧ (b = true ↔ limits pending visited).
Proof.
  revert pending visited. induction fuel as [|fuel IH]; intros pending visited Hv Hf; [lia|].
  cbn [limits_loop]. destruct pending as [|[v depth] pending].
  { exists true. split; [done|]. split; [|done]. intros _. split; [simpl; lia|]. set_solver. }
  pose proof (nodes_children v) as Hn. pose proof (total_nodes_length (children v)) as Hc.
  pose proof (total_nodes_length pending.*1) as Hp. rewrite length_fmap in Hp.
  destruct (Z.ltb_spec MAX_NODES (visited + 1)); cbn [orb].
  { exists false. split; [done|]. split; [done|]. intros [Hx _]. rewrite fmap_cons, total_nodes_cons in Hx. cbn [fst] in Hx. lia. }
  destruct (Nat.ltb_spec MAX_DEPTH depth).
  { exists false. split; [done|]. split; [done|]. intros [_ Hx]. specialize (Hx (v, depth) ltac:(by left)). simpl in Hx. lia. }
  assert (∃ b, (if (MAX_NODES <? Z.of_nat (length (children v)) + Z.of_nat (length pending) + (visited + 1))%Z then Some false
     else limits_loop (S fuel) (rev ((λ c, (c, S depth)) <$> children v) ++ pending) (visited + 1)) = Some b ∧
     (b = true ↔ limits ((v, depth) :: pending) visited)) as Hcompound.
  { destruct (Z.ltb_spec MAX_NODES (Z.of_nat (length (children v)) + Z.of_nat (length pending) + (visited + 1))).
    - exists false. split; [done|]. split; [done|]. intros [Hx _]. rewrite fmap_cons, total_nodes_cons in Hx. cbn [fst] in Hx. lia.
    - destruct (IH (rev ((λ c, (c, S depth)) <$> children v) ++ pending) (visited + 1)%Z) as (b & Hb & E); [lia|lia|].
      exists b. split; [done|]. by rewrite E, limits_push. }
  assert (∃ b, limits_loop (S fuel) pending (visited + 1) = Some b ∧
    (children v = [] → b = true ↔ limits ((v, depth) :: pending) visited)) as (b & Hb & Hleaf).
  { destruct (IH pending (visited + 1)%Z) as (b & Hb & E); [lia|lia|]. exists b. split; [done|]. intros Hnil.
    by rewrite limits_leaf. }
  destruct v; try exact Hcompound; exists b; (split; [exact Hb|by apply Hleaf]).
Qed.

Lemma withinLimits_spec values :
  ∃ b, withinLimits values = Some b ∧
    (b = true ↔ (Z.of_nat (total_nodes values) ≤ MAX_NODES)%Z ∧ ∀ v, v ∈ values → height v ≤ MAX_DEPTH).
Proof.
  unfold withinLimits. assert (Z.to_nat MAX_NODES + 2 = S (S (Z.to_nat MAX_NODES))) as -> by lia.
  destruct (limits_loop_spec (S (Z.to_nat MAX_NODES)) (rev ((λ v, (v, 0)) <$> values)) 0) as (b & Hb & E).
  { unfold MAX_NODES. lia. } { unfold MAX_NODES. lia. }
  exists b. split; [done|]. rewrite E. unfold limits.
  assert ((rev ((λ v, (v, 0)) <$> values)).*1 = rev values) as ->.
  { clear. induction values as [|c l IH]; [done|]. rewrite fmap_cons. cbn [rev]. by rewrite fmap_app, IH. }
  rewrite total_nodes_rev, Z.add_0_l. apply and_iff_compat_l. split.
  - intros H v Hv. apply (H (v, 0)). apply list_elem_of_In, in_rev. rewrite rev_involutive. apply list_elem_of_In.
    by apply (list_elem_of_fmap_2 (λ v, (v, 0))).
  - intros H p Hp. apply list_elem_of_In, in_rev, list_elem_of_In, list_elem_of_fmap in Hp as (v & -> & Hv). simpl. by apply H.
Qed.

(** ** Equality *)

Definition num_same (a b : jsnum) : Prop :=
  ∀ m, (m ≤ expo a)%Z → (m ≤ expo b)%Z → (mant a * 2 ^ (expo a - m) = mant b * 2 ^ (expo b - m))%Z.

Lemma num_eqb_iff a b : num_eqb a b = true ↔ num_same a b.
Proof.
  unfold num_eqb, num_same. rewrite Z.eqb_eq. set (m := Z.min (expo a) (expo b)). split; [|intros H; apply H; lia].
  intros E m' Ha Hb. assert (∀ e, (m ≤ e)%Z → 2 ^ (e - m') = 2 ^ (e - m) * 2 ^ (m - m'))%Z as Hp
    by (intros e He; rewrite <- Z.pow_add_r by lia; f_equal; lia).
  rewrite (Hp (expo a)), (Hp (expo b)), !Z.mul_assoc, E by lia. done.
Qed.

(** Equal JSON values: numbers by value, objects by their members in any order. *)
Inductive same : json → json → Prop :=
| same_null : same JNull JNull
| same_bool b : same (JBool b) (JBool b)
| same_num a b : num_same a b → same (JNum a) (JNum b)
| same_str s : same (JStr s) (JStr s)
| same_arr l m : length l = length m → (∀ i v w, l !! i = Some v → m !! i = Some w → same v w) → same (JArr l) (JArr m)
| same_obj o p : (∀ k, k ∈ obj_keys o ↔ k ∈ obj_keys p) →
    (∀ k v w, obj_get o k = Some v → obj_get p k = Some w → same v w) → same (JObj o) (JObj p).

Lemma same_sym a : ∀ b, same a b → same b a.
Proof.
  induction a as [| | | |l IH|o IH] using json_ind; intros c Hs;
    inversion Hs as [|?|? ? Hn|?|? ? Hl Hi|? ? Hk Hg]; subst; constructor; try done.
  - intros m' ? ?. symmetry. by apply Hn.
  - intros i v w Hv Hw. rewrite Forall_lookup in IH. eauto.
  - intros k v w Hv Hw. rewrite Forall_forall in IH. apply (IH (k, w)); [by apply obj_get_Some_elem|eauto].
Qed.

Lemma equal_arr l m : equal (JArr l) (JArr m) = true ↔
  length l = length m ∧ ∀ i v w, l !! i = Some v → m !! i = Some w → equal v w = true.
Proof.
  cbn [equal]. rewrite andb_true_iff, Nat.eqb_eq. apply and_iff_compat_l.
  revert m. induction l as [|x l IH]; intros [|y m]; try (split; [intros _ i v w; by rewrite ?lookup_nil|done]).
  rewrite andb_true_iff, IH. split.
  - intros [H1 H2] [|i] v w; simpl; [by intros [= <-] [= <-]|apply H2].
  - intros H. split; [by apply (H 0)|]. intros i v w. apply (H (S i)).
Qed.

Lemma obj_get_elem (o : obj json) k v : NoDup (obj_keys o) → (k, v) ∈ o → obj_get o k = Some v.
Proof.
  induction o as [|[k' v'] o IH]; [set_solver|]. simpl. intros [Hk Hn]%NoDup_cons [[= -> ->]|Hin]%elem_of_cons.
  - by rewrite String.eqb_refl.
  - destruct (String.eqb_spec k k') as [->|]; [|by apply IH]. destruct Hk. by apply (list_elem_of_fmap_2 fst) in Hin.
Qed.

Lemma obj_get_key (o : obj json) k : k ∈ obj_keys o ↔ is_Some (obj_get o k).
Proof.
  destruct (obj_get o k) eqn:E; [|by rewrite obj_get_None in E; split; [done|intros [? ?]]].
  split; [by eexists|]. intros _. apply obj_get_Some_elem in E. by apply (list_elem_of_fmap_2 fst) in E.
Qed.

Lemma equal_obj o p : NoDup (obj_keys o) → NoDup (obj_keys p) →
  equal (JObj o) (JObj p) = true ↔
  (∀ k, k ∈ obj_keys o ↔ k ∈ obj_keys p) ∧ ∀ k v w, obj_get o k = Some v → obj_get p k = Some w → equal v w = true.
Proof.
  intros Ho Hp. cbn [equal]. rewrite andb_true_iff, Nat.eqb_eq, forallb_forall. setoid_rewrite <- list_elem_of_In. split.
  - intros [Hlen H]. assert (∀ k v, obj_get o k = Some v → ∃ w, obj_get p k = Some w ∧ equal v w = true) as Hget.
    { intros k v Hv%obj_get_Some_elem. specialize (H _ Hv). simpl in H. destruct (obj_get p k) as [w|]; [eauto|done]. }
    assert (obj_keys o ≡ₚ obj_keys p) as Hperm.
    { apply submseteq_length_Permutation; [apply NoDup_submseteq; [done|]|unfold obj_keys; rewrite !length_fmap; lia].
      intros k [v Hv]%obj_get_key. destruct (Hget k v Hv) as (w & Hw & _). apply obj_get_key. by eexists. }
    split; [intros k; by rewrite Hperm|]. intros k v w Hv Hw. destruct (Hget k v Hv) as (w' & Hw' & E). congruence.
  - intros [Hk H]. split.
    + assert (obj_keys o ≡ₚ obj_keys p) as Hperm by (by apply NoDup_Permutation).
      apply Permutation_length in Hperm. unfold obj_keys in Hperm. by rewrite !length_fmap in Hperm.
    + intros [k v] Hv. cbn [fst snd]. apply (obj_get_elem o k v Ho) in Hv.
      assert (k ∈ obj_keys p) as [w Hw]%obj_get_key by (apply Hk, obj_get_key; by eexists). rewrite Hw. by apply (H k).
Qed.

Lemma json_wf_keys o : json_wf (JObj o) = true → NoDup (obj_keys o).
Proof. simpl. rewrite andb_true_iff. intros [Hk _]. by apply keys_ok_NoDup. Qed.

Lemma json_wf_elem l i v : json_wf (JArr l) = true → l !! i = Some v → json_wf v = true.
Proof.
  simpl. rewrite forallb_forall. intros H Hv. apply H, list_elem_of_In. by apply list_elem_of_lookup_2 in Hv.
Qed.

Lemma equal_same a : ∀ b, json_wf a = true → json_wf b = true → equal a b = true ↔ same a b.
Proof.
  induction a as [|x|x|x|l IH|o IH] using json_ind; intros [|y|y|y|m|p] Ha Hb;
    try (split; [done|intros H; by inversion H]).
  - split; [constructor|done].
  - cbn [equal]. rewrite Bool.eqb_true_iff. split; [intros ->; constructor|by inversion 1].
  - cbn [equal]. rewrite num_eqb_iff. split; [by constructor|by inversion 1].
  - cbn [equal]. rewrite String.eqb_eq. split; [intros ->; constructor|by inversion 1].
  - rewrite equal_arr. rewrite Forall_lookup in IH. split.
    + intros [Hl H]. constructor; [done|]. intros i v w Hv Hw. apply (IH i v Hv); eauto using json_wf_elem.
    + inversion 1 as [| | | |? ? Hl Hs|]; subst. split; [done|]. intros i v w Hv Hw. apply (IH i v Hv); eauto using json_wf_elem.
  - rewrite equal_obj by (by apply json_wf_keys). rewrite Forall_forall in IH. split.
    + intros [Hk H]. constructor; [done|]. intros k v w Hv Hw.
      apply (IH (k, v)); eauto using json_wf_get, obj_get_Some_elem.
    + inversion 1 as [| | | | |? ? Hk Hs]; subst. split; [done|]. intros k v w Hv Hw.
      apply (IH (k, v)); eauto using json_wf_get, obj_get_Some_elem.
Qed.

(** ** Changes *)

Lemma obj_has_is_Some (o : obj json) k : obj_has o k = bool_decide (is_Some (obj_get o k)).
Proof. unfold obj_has. by destruct (obj_get o k). Qed.

(** A key makes a change unless both documents have it with the same value. *)
Lemma change_of_spec before after k :
  json_wf (JObj before) = true → json_wf (JObj after) = true →
  change_of before after k = [] ∧ (∃ v w, obj_get before k = Some v ∧ obj_get after k = Some w ∧ same v w) ∨
  (∃ c, change_of before after k = [c] ∧ ch_key c = k ∧ ch_before c = member before k ∧ ch_after c = member after k ∧
     ch_kind c = if obj_has before k then (if obj_has after k then Changed else Removed) else Added) ∧
  ¬ ∃ v w, obj_get before k = Some v ∧ obj_get after k = Some w ∧ same v w.
Proof.
  intros Hb Ha. unfold change_of. rewrite !obj_has_is_Some.
  destruct (obj_get before k) as [v|] eqn:Ev, (obj_get after k) as [w|] eqn:Ew.
  - rewrite !bool_decide_eq_true_2 by (by eexists). cbn [andb negb].
    pose proof (equal_same v w (json_wf_get _ _ _ Hb Ev) (json_wf_get _ _ _ Ha Ew)) as E.
    destruct (equal v w); [left|right].
    + split; [done|]. exists v, w. split_and!; try done. by apply E.
    + split; [by eexists|]. intros (? & ? & [= <-] & [= <-] & Hs). by apply E in Hs.
  - right. rewrite bool_decide_eq_true_2 by (by eexists). rewrite bool_decide_eq_false_2 by (by intros [? [=]]). cbn [andb negb].
    split; [by eexists|]. by intros (? & ? & _ & [=] & _).
  - right. rewrite bool_decide_eq_false_2 by (by intros [? [=]]). cbn [andb negb].
    split; [by eexists|]. by intros (? & ? & [=] & _).
  - right. rewrite bool_decide_eq_false_2 by (by intros [? [=]]). cbn [andb negb].
    split; [by eexists|]. by intros (? & ? & [=] & _).
Qed.

Lemma compared_keys_nodup i before after : NoDup (obj_keys after) → NoDup (compared_keys i before after).
Proof. destruct i; simpl; [done|intros _; apply NoDup_remove_dups..]. Qed.

Lemma compared_keys_in i before after k :
  k ∈ compared_keys i before after ↔ k ∈ obj_keys after ∨ i ≠ VariableDelta ∧ k ∈ obj_keys before.
Proof. destruct i; simpl; rewrite ?elem_of_remove_dups, ?elem_of_app; naive_solver. Qed.

(** What is collected from sorted keys is sorted by key. *)
Lemma changes_sublist before after ks :
  json_wf (JObj before) = true → json_wf (JObj after) = true →
  sublist (ch_key <$> (ks ≫= change_of before after)) ks.
Proof.
  intros Hb Ha. induction ks as [|k ks IH]; [constructor|]. rewrite bind_cons, fmap_app.
  destruct (change_of_spec before after k Hb Ha) as [[-> _]|[(c & -> & <- & _) _]]; simpl; by constructor.
Qed.

#[local] Instance text_le_trans : Transitive text_le.
Proof. intros a b c. apply leb_trans. Qed.

(** ** Properties *)

(** The check before a comparison is exact and ends: it passes just when the
    documents have at most 10,000 values in all and none deeper than 64
    levels, and it looks at no more values than that. *)
Theorem limits_exact values :
  ∃ b, withinLimits values = Some b ∧
    (b = true ↔ (Z.of_nat (total_nodes values) ≤ 10000)%Z ∧ ∀ v, v ∈ values → height v ≤ 64).
Proof. apply withinLimits_spec. Qed.

(** C27: the comparison of two recorded objects lists exactly the names whose
    values differ, in order and once each, the first 100 of them, and says
    whether there are more; a name the output leaves out is reported only when
    the output is a whole state. *)
Theorem comparison_exact i before after isize osize :
  json_wf (JObj before) = true → json_wf (JObj after) = true →
  (Z.of_nat isize + Z.of_nat osize ≤ 262144)%Z →
  (Z.of_nat (total_nodes [JObj before; JObj after]) ≤ 10000)%Z → height (JObj before) ≤ 64 → height (JObj after) ≤ 64 →
  ∃ all, compareSnapshots (Present (JObj before) isize) (Present (JObj after) osize) i =
      Some (mkComparison (take 100 all) (Nat.ltb 100 (length all)) None) ∧
    StronglySorted text_le (ch_key <$> all) ∧ NoDup (ch_key <$> all) ∧
    (∀ k, k ∈ ch_key <$> all ↔
       (k ∈ obj_keys after ∨ i ≠ VariableDelta ∧ k ∈ obj_keys before) ∧
       ¬ ∃ v w, obj_get before k = Some v ∧ obj_get after k = Some w ∧ same v w) ∧
    ∀ c, c ∈ all →
      match ch_kind c with
      | Added => ch_key c ∉ obj_keys before
      | Removed => ch_key c ∉ obj_keys after ∧ i ≠ VariableDelta
      | Changed => ch_key c ∈ obj_keys before ∧ ch_key c ∈ obj_keys after
      end.
Proof.
  intros Hb Ha Hsize Hn Hh1 Hh2. exists (all_changes i (JObj before) (JObj after)).
  split.
  { unfold compareSnapshots. destruct (Z.ltb_spec MAX_BYTES (Z.of_nat isize + Z.of_nat osize)); [unfold MAX_BYTES in *; lia|].
    destruct (withinLimits_spec [JObj before; JObj after]) as (b & -> & E). cbn [mbind option_bind].
    assert (b = true) as ->. { apply E. split; [done|]. intros v [->|[->|[]%not_elem_of_nil]%elem_of_cons]%elem_of_cons; done. }
    by destruct i. }
  unfold all_changes. set (ks := sort_texts (compared_keys i before after)).
  assert (∀ k, k ∈ ks ↔ k ∈ obj_keys after ∨ i ≠ VariableDelta ∧ k ∈ obj_keys before) as Hks
    by (intros k; unfold ks; rewrite sort_texts_perm; apply compared_keys_in).
  assert (NoDup ks) as Hnd by (unfold ks; rewrite sort_texts_perm; apply compared_keys_nodup; by apply json_wf_keys).
  pose proof (changes_sublist before after ks Hb Ha) as Hsub. split_and!.
  - eapply sublist_sorted; [done|]. apply Sorted_StronglySorted; [exact text_le_trans|apply sort_texts_sorted].
  - eapply sublist_NoDup; done.
  - intros k. rewrite <- Hks, list_elem_of_fmap. setoid_rewrite list_elem_of_bind. split.
    + intros (c & -> & k' & Hc & Hk). destruct (change_of_spec before after k' Hb Ha) as [[E _]|[(c' & E & Ek & _) Hno]];
        rewrite E in Hc; [by apply not_elem_of_nil in Hc|]. apply list_elem_of_singleton in Hc as ->. by rewrite Ek.
    + intros [Hk Hno]. destruct (change_of_spec before after k Hb Ha) as [[_ Hyes]|[(c & E & Ek & _) _]]; [done|].
      exists c. split; [done|]. exists k. split; [|done]. rewrite E. by left.
  - intros c (k & Hc & Hk)%list_elem_of_bind.
    destruct (change_of_spec before after k Hb Ha) as [[E _]|[(c' & E & <- & _ & _ & Hkind) _]]; rewrite E in Hc; [by apply not_elem_of_nil in Hc|].
    apply list_elem_of_singleton in Hc as ->. rewrite Hkind, !obj_has_is_Some. apply Hks in Hk. rewrite !obj_get_key in *.
    repeat case_bool_decide; rewrite ?obj_get_key; tauto.
Qed.

Lemma render_member `{JsonText} o k : render_value (member o k) = None ↔ k ∈ PROTOTYPE_METHODS ∧ ¬ is_Some (obj_get o k).
Proof.
  unfold member. destruct (obj_get o k) as [v|]; [split; [done|]; intros [_ []]; by eexists|].
  destruct (includes PROTOTYPE_METHODS k) eqn:Ei; [apply includes_true in Ei|apply includes_false in Ei].
  - split; [|done]. intros _. split; [done|]. by intros [? [=]].
  - destruct (String.eqb k "__proto__"); (split; [done|by intros [? _]]).
Qed.

(** A change cannot be rendered exactly when its name is that of a method all
    objects inherit and one of the documents does not have it: the missing
    side is then a function, whose text is undefined. *)
Theorem change_render_fails_iff `{JsonText} before after k c :
  c ∈ change_of before after k →
  (render_change c = None ↔ k ∈ PROTOTYPE_METHODS ∧ ch_kind c ≠ Changed).
Proof.
  unfold change_of. rewrite !obj_has_is_Some. pose proof (render_member before k) as Hb. pose proof (render_member after k) as Ha.
  destruct (bool_decide_reflect (is_Some (obj_get before k))), (bool_decide_reflect (is_Some (obj_get after k))); cbn [andb negb].
  1: destruct (match obj_get before k with Some _ => _ | None => _ end); [by intros Hc%not_elem_of_nil|].
  all: intros ->%list_elem_of_singleton; unfold render_change; cbn [ch_before ch_after ch_kind];
    destruct (render_value (member before k)), (render_value (member after k)); naive_solver.
Qed.

(** ** Witnesses *)

Definition snapshot_before : obj json := [("amount", JNum (num_of_Z 5)); ("who", JObj [("a", JNull); ("b", JBool true)])].
Definition snapshot_after : obj json :=
  [("who", JObj [("b", JBool true); ("a", JNull)]); ("amount", JNum (num_of_Z 6)); ("valueOf", JStr "x")].

Example comparison_sample :
  compareSnapshots (Present (JObj snapshot_before) 10) (Present (JObj snapshot_after) 10) FullState =
  Some (mkComparison
    [mkChange "amount" (MValue (JNum (num_of_Z 5))) (MValue (JNum (num_of_Z 6))) Changed;
     mkChange "valueOf" MFunction (MValue (JStr "x")) Added] false None).
Proof. vm_compute. reflexivity. Qed.

Lemma comparison_exact_witness :
  ∃ all, compareSnapshots (Present (JObj snapshot_before) 10) (Present (JObj snapshot_after) 10) FullState =
    Some (mkComparison (take 100 all) (Nat.ltb 100 (length all)) None) ∧ NoDup (ch_key <$> all).
Proof.
  destruct (comparison_exact FullState snapshot_before snapshot_after 10 10) as (all & Hc & _ & Hn & _).
  - reflexivity.
  - reflexivity.
  - vm_compute. discriminate.
  - vm_compute. discriminate.
  - apply Nat.leb_le. vm_compute. reflexivity.
  - apply Nat.leb_le. vm_compute. reflexivity.
  - exists all. split; [exact Hc|exact Hn].
Defined.

Lemma change_render_fails_iff_witness :
  ∃ c, c ∈ change_of snapshot_before snapshot_after "valueOf" ∧ @render_change model_text c = None.
Proof.
  exists (mkChange "valueOf" MFunction (MValue (JStr "x")) Added).
  assert (mkChange "valueOf" MFunction (MValue (JStr "x")) Added ∈ change_of snapshot_before snapshot_after "valueOf") as Hc
    by (vm_compute; left).
  split; [exact Hc|]. apply (@change_render_fails_iff model_text _ _ _ _ Hc). split; [|discriminate].
  apply (bool_decide_unpack _). vm_compute. exact I.
Defined.
