(* ===== verification/Diagram.v ===== *)
(** * The execution diagram (workflow-monitor/src/ExecutionDiagram.tsx)

    The edges the Monitor draws from the JSON of a definition, and what it
    says of a step from the overlay.  The placement of nodes is the layout
    library's; the component around it is at the end.  The edges are those of the modeller's graph
    view whose target exists. *)

From S2P Require Import Prelude JsObject Types Graph Peg Schema ImportExport Utc Cursor Paging Instances Context UrlParams ListFilters SavedFilters.

#[local] Arguments String.append !_ _ / : simpl nomatch.

(** ** Steps *)

Record DiagramStep := mkDiagramStep {
  ds_id : string;
  ds_name : string;
  ds_type : string;
  ds_nextStep : option string;
  ds_members : obj json
}.

(** A member that is a text. *)
Definition text_member (o : obj json) (k : string) : option string :=
  match obj_get o k with Some (JStr s) => Some s | _ => None end.

(** A step of a response, at the type the page gives it. *)
Definition diagram_step (o : obj json) : DiagramStep :=
  mkDiagramStep (default EmptyString (text_member o "id")) (default EmptyString (text_member o "name"))
    (default EmptyString (text_member o "type")) (text_member o "nextStep") o.

(** [new Map(steps.map((step) => [step.id, step]))] *)
Definition stepById (steps : list DiagramStep) : gmap string DiagramStep :=
  fold_left (λ m s, <[ds_id s := s]> m) steps ∅.

(** ** Edges *)

Record DiagramEdge := mkDiagramEdge {
  de_id : string;
  de_source : string;
  de_target : string;
  de_sourceName : string;
  de_targetName : string;
  de_variant : string
}.

Definition addEdge (m : gmap string DiagramStep) (source : DiagramStep) (targetId variant discriminator : string) :
    list DiagramEdge :=
  match m !! targetId with
  | None => []
  | Some target =>
      [mkDiagramEdge (ds_id source ⊕ "--" ⊕ discriminator ⊕ "-->" ⊕ ds_id target) (ds_id source) (ds_id target)
         (ds_name source) (ds_name target) variant]
  end.

Definition next_edges (m : gmap string DiagramStep) (step : DiagramStep) : list DiagramEdge :=
  match ds_nextStep step with
  | Some n =>
      if truthy_str n then
        let variant := if String.eqb (ds_type step) "JOIN_GATEWAY" then "join-out"
                       else if bool_decide (ds_type <$> m !! n = Some "JOIN_GATEWAY") then "join-target"
                       else "sequential" in
        addEdge m step n variant variant
      else []
  | None => []
  end.

Definition conditional_edges (m : gmap string DiagramStep) (step : DiagramStep) : list DiagramEdge :=
  if String.eqb (ds_type step) "DECISION" then
    match obj_get (ds_members step) "conditionalNextSteps" with
    | Some v =>
        if is_object v then
          entries v ≫= λ p, match p.2 with
                            | JStr t => addEdge m step t "conditional" ("conditional:" ⊕ p.1)
                            | _ => []
                            end
        else []
    | None => []
    end
  else [].

Definition parallel_edges (m : gmap string DiagramStep) (step : DiagramStep) : list DiagramEdge :=
  if String.eqb (ds_type step) "PARALLEL_GATEWAY" then
    match obj_get (ds_members step) "parallelNextSteps" with
    | Some (JArr l) =>
        indexed l ≫= λ p, match p.2 with
                          | JStr t => addEdge m step t "parallel" ("parallel:" ⊕ str_of_nat p.1)
                          | _ => []
                          end
    | _ => []
    end
  else [].

Definition boundary_edges (m : gmap string DiagramStep) (step : DiagramStep) : list DiagramEdge :=
  match obj_get (ds_members step) "boundaryEvents" with
  | Some (JArr l) =>
      indexed l ≫= λ p, match p.2 with
                        | JObj e =>
                            match obj_get e "targetStepId" with
                            | Some (JStr t) => addEdge m step t "boundary" ("boundary:" ⊕ str_of_nat p.1)
                            | _ => []
                            end
                        | _ => []
                        end
  | _ => []
  end.

Definition buildEdges (steps : list DiagramStep) (m : gmap string DiagramStep) : list DiagramEdge :=
  steps ≫= λ step, next_edges m step ++ conditional_edges m step ++ parallel_edges m step ++ boundary_edges m step.

(** ** Nodes *)

Record Overlay := mkOverlay {
  ov_currentTokenStepIds : list string;
  ov_failedStepId : option string;
  ov_latestByStep : list StepExecutionSummary
}.

Section node.
Context (overlay : Overlay) (step : DiagramStep).

Definition isCurrent : bool := includes (ov_currentTokenStepIds overlay) (ds_id step).
Definition isFailed : bool := bool_decide (ov_failedStepId overlay = Some (ds_id step)).

Definition node_execution : option StepExecutionSummary :=
  List.find (λ x, String.eqb (ss_stepId x) (ds_id step)) (ov_latestByStep overlay).

Definition attempt_text (x : StepExecutionSummary) : string := ", attempt " ⊕ pretty (ss_attemptNumber x).

Definition stateLabel : option string :=
  if isFailed then Some ("Failed marker" ⊕ match node_execution with Some x => attempt_text x | None => EmptyString end)
  else if isCurrent then
    Some ("Current Token Position" ⊕
          match node_execution with Some x => ", " ⊕ ss_status x ⊕ attempt_text x | None => EmptyString end)
  else (λ x, ss_status x ⊕ attempt_text x) <$> node_execution.

Definition node_label : string :=
  match stateLabel with
  | Some l => if truthy_str l then ds_name step ⊕ ", " ⊕ l else ds_name step
  | None => ds_name step
  end.

Definition visualStateLabel : string :=
  match node_execution with
  | Some x => ss_status x ⊕ " · attempt " ⊕ pretty (ss_attemptNumber x)
  | None => if isFailed then "Failed" else if isCurrent then "Current Token Position" else ds_type step
  end.

Definition stateClass : string :=
  if isFailed then "failed" else if isCurrent then "current"
  else match node_execution with Some x => toLowerCase (ss_status x) | None => "idle" end.
End node.

(** ** The diagram of a definition *)

(** The steps of the JSON of a definition. *)
Definition diagram_of (s : Step) : DiagramStep := diagram_step (step_obj s).

Definition diagram_steps (def : WorkflowDefinition) : list DiagramStep := diagram_of <$> wd_steps def.

(** The members the diagram reads are declared ones. *)
Definition plain (s : Step) : Prop :=
  ∀ k, k ∈ ["nextStep"; "conditionalNextSteps"; "parallelNextSteps"; "boundaryEvents"] → obj_get (step_extra s) k = None.

Lemma common_get c t k :
  obj_get (common_obj c t) k =
  if String.eqb k "id" then Some (JStr (sc_id c)) else if String.eqb k "name" then Some (JStr (sc_name c))
  else if String.eqb k "description" then JStr <$> sc_description c
  else if String.eqb k "type" then Some (JStr t) else None.
Proof.
  unfold common_obj. simpl. destruct (String.eqb k "id"); [done|]. destruct (String.eqb k "name"); [done|].
  rewrite obj_get_app, obj_get_ofield. destruct (String.eqb k "description") eqn:E; [|done].
  destruct (sc_description c); [done|]. simpl. apply String.eqb_eq in E as ->. done.
Qed.

Lemma diagram_id s : ds_id (diagram_of s) = step_id s.
Proof. unfold diagram_of, diagram_step, text_member, step_obj. cbn [ds_id]. by rewrite obj_get_app, common_get. Qed.

Lemma diagram_type s : ds_type (diagram_of s) = step_type s.
Proof. unfold diagram_of, diagram_step, text_member, step_obj. cbn [ds_type]. by rewrite obj_get_app, common_get. Qed.

Lemma stepById_lookup def x : stepById (diagram_steps def) !! x = diagram_of <$> indexSteps def !! x.
Proof.
  unfold stepById, indexSteps, diagram_steps.
  assert (∀ l (m : gmap string DiagramStep) (m' : gmap StepId Step), (∀ y, m !! y = diagram_of <$> m' !! y) →
    fold_left (λ m s, <[ds_id s := s]> m) (diagram_of <$> l) m !! x =
    diagram_of <$> fold_left (λ m step, <[step_id step := step]> m) l m' !! x) as Hg.
  { induction l as [|s l IH]; intros m m' Hm; [apply Hm|]. rewrite fmap_cons. cbn [fold_left]. apply IH. intros y.
    rewrite diagram_id. destruct (decide (step_id s = y)) as [->|Hne]; [by rewrite !lookup_insert_eq|by rewrite !lookup_insert_ne]. }
  apply Hg. intros y. by rewrite !lookup_empty.
Qed.

(** ** Edges of one step *)

Section edges.
Context (def : WorkflowDefinition) (m := stepById (diagram_steps def)).

(** The kind the Monitor gives an edge of the modeller's graph: the modeller's
    own, but for a sequential edge into a join gateway. *)
Definition monitor_variant (e : GraphEdge) : string :=
  match ge_variant e with
  | Sequential =>
      if bool_decide (step_type <$> indexSteps def !! ge_to e = Some "JOIN_GATEWAY") then "join-target"
      else variant_kind Sequential
  | v => variant_kind v
  end.

Definition drawn (e : DiagramEdge) : string * string * string := (de_source e, de_target e, de_variant e).
Definition meant (e : GraphEdge) : string * string * string := (ge_from e, ge_to e, monitor_variant e).
Definition resolved (e : GraphEdge) : bool := bool_decide (is_Some (indexSteps def !! ge_to e)).

Lemma drawn_edge s t v d :
  drawn <$> addEdge m (diagram_of s) t v d = if bool_decide (is_Some (indexSteps def !! t)) then [(step_id s, t, v)] else [].
Proof.
  unfold addEdge, m. rewrite stepById_lookup. destruct (indexSteps def !! t) as [s'|] eqn:E; [|done].
  cbn [fmap option_fmap option_map]. rewrite bool_decide_eq_true_2 by (by eexists).
  cbn [list_fmap]. unfold drawn. cbn [de_source de_target de_variant]. rewrite !diagram_id. by apply indexSteps_Some in E as [_ ->].
Qed.

Lemma meant_edge e :
  meant <$> List.filter resolved [e] =
  if bool_decide (is_Some (indexSteps def !! ge_to e)) then [(ge_from e, ge_to e, monitor_variant e)] else [].
Proof. unfold resolved. simpl. by destruct (bool_decide _). Qed.

(** Edges that correspond one for one. *)
Lemma drawn_list {A B} s (f : B → list DiagramEdge) (g : A → GraphEdge) (h : A → B) (l : list A) :
  (∀ x, x ∈ l → ∃ t v d, f (h x) = addEdge m (diagram_of s) t v d ∧ ge_from (g x) = step_id s ∧ ge_to (g x) = t ∧
     monitor_variant (g x) = v) →
  drawn <$> ((h <$> l) ≫= f) = meant <$> List.filter resolved (g <$> l).
Proof.
  induction l as [|x l IH]; intros Hx; [done|]. rewrite !fmap_cons, bind_cons, fmap_app, IH by (intros y Hy; apply Hx; by right).
  change (g x :: (g <$> l)) with ([g x] ++ (g <$> l)). rewrite List.filter_app, fmap_app, meant_edge. f_equal.
  destruct (Hx x) as (t & v & d & -> & -> & -> & ->); [by left|]. apply drawn_edge.
Qed.

Lemma next_drawn s n (e : GraphEdge) :
  n ≠ EmptyString ∨ EmptyString ∉ step_ids def → ds_nextStep (diagram_of s) = Some n → ge_from e = step_id s → ge_to e = n →
  ge_variant e = (if String.eqb (step_type s) "JOIN_GATEWAY" then JoinOut else Sequential) →
  drawn <$> next_edges m (diagram_of s) = meant <$> List.filter resolved [e].
Proof.
  intros Hn Hnext Hf Ht Hv. unfold next_edges. rewrite Hnext, meant_edge, Hf, Ht. destruct (truthy_str n) eqn:E.
  - rewrite drawn_edge. destruct (bool_decide _); [|done]. repeat f_equal. unfold monitor_variant. rewrite Hv, Ht, diagram_type.
    destruct (String.eqb (step_type s) "JOIN_GATEWAY"); [done|]. unfold m. rewrite stepById_lookup, <- option_fmap_compose.
    assert (∀ o : option Step, (ds_type ∘ diagram_of) <$> o = step_type <$> o) as ->
      by (intros [s'|]; [|done]; cbn [fmap option_fmap option_map]; f_equal; apply diagram_type). done.
  - apply truthy_str_false in E as ->. destruct Hn as [?|Hn]; [done|]. rewrite bool_decide_eq_false_2; [done|].
    by rewrite indexSteps_is_Some.
Qed.

(** The members of the JSON of a step. *)
Lemma member_get s k : plain s → k ∈ ["nextStep"; "conditionalNextSteps"; "parallelNextSteps"; "boundaryEvents"] →
  obj_get (step_obj s) k =
  match s with
  | ServiceTaskStep _ n _ _ _ b | UserTaskStep _ n _ b =>
      if String.eqb k "nextStep" then JStr <$> n else if String.eqb k "boundaryEvents" then events_json <$> b else None
  | DecisionStep _ b => if String.eqb k "conditionalNextSteps" then Some (record_json JStr b) else None
  | DecisionTableStep _ _ n _ | TransformationStep _ n _ | JoinGatewayStep _ n =>
      if String.eqb k "nextStep" then Some (JStr n) else None
  | WaitStep _ n b =>
      if String.eqb k "nextStep" then Some (JStr n) else if String.eqb k "boundaryEvents" then events_json <$> b else None
  | ParallelGatewayStep _ p _ => if String.eqb k "parallelNextSteps" then Some (JArr (JStr <$> p)) else None
  | EndStep _ | UnknownTypeStep _ _ => None
  end.
Proof.
  intros Hp Hk. specialize (Hp k Hk). unfold step_obj. rewrite !obj_get_app, common_get, Hp. clear Hp.
  apply list_elem_of_In in Hk. destruct Hk as [<-|[<-|[<-|[<-|[]]]]]; cbn [String.eqb Ascii.eqb Bool.eqb];
    destruct s; cbn [app]; rewrite ?obj_get_app, ?obj_get_ofield; simpl; try done;
    repeat match goal with o : option _ |- _ => destruct o end; done.
Qed.

Lemma boundary_drawn s b id : plain s → id = step_id s →
  obj_get (step_obj s) "boundaryEvents" = events_json <$> b →
  drawn <$> boundary_edges m (diagram_of s) = meant <$> List.filter resolved (pushBoundaryEdges id b []).
Proof.
  intros Hp -> Hb. unfold boundary_edges, diagram_of, diagram_step. cbn [ds_members]. rewrite Hb.
  destruct b as [events|]; [|done]. cbn [fmap option_fmap option_map events_json pushBoundaryEdges].
  assert (indexed (event_json <$> events) = (λ p : nat * BoundaryEvent, (p.1, event_json p.2)) <$> indexed events) as Hi.
  { unfold indexed. rewrite fmap_imap. apply imap_fmap. }
  unfold events_json. rewrite Hi. rewrite app_nil_l.
  apply (drawn_list s _ (λ p, makeEdge (step_id s) (be_targetStepId p.2) (Boundary p.1))).
  intros p _. eexists (be_targetStepId p.2), "boundary", _. split_and!; done.
Qed.

Lemma boundary_none s : obj_get (step_obj s) "boundaryEvents" = None → boundary_edges m (diagram_of s) = [].
Proof. intros Hb. unfold boundary_edges, diagram_of, diagram_step. cbn [ds_members]. by rewrite Hb. Qed.

Lemma conditional_none s : step_type s ≠ "DECISION" → conditional_edges m (diagram_of s) = [].
Proof. intros Ht%String.eqb_neq. unfold conditional_edges. by rewrite diagram_type, Ht. Qed.

Lemma parallel_none s : step_type s ≠ "PARALLEL_GATEWAY" → parallel_edges m (diagram_of s) = [].
Proof. intros Ht%String.eqb_neq. unfold parallel_edges. by rewrite diagram_type, Ht. Qed.

Lemma conditional_drawn c b : plain (DecisionStep c b) →
  drawn <$> conditional_edges m (diagram_of (DecisionStep c b)) =
  meant <$> List.filter resolved (step_edges (DecisionStep c b)).
Proof.
  intros Hp. unfold conditional_edges. rewrite diagram_type. unfold diagram_of at 1, diagram_step. cbn [ds_members step_type step_type_str].
  rewrite (member_get _ _ Hp) by set_solver. cbn [String.eqb Ascii.eqb Bool.eqb]. unfold record_json. cbn [is_object entries].
  unfold step_edges. cbn [pushStepEdges]. rewrite app_nil_l.
  apply (drawn_list (DecisionStep c b) _ (λ p, with_handle ("branch:" ⊕ p.1) (makeEdge (step_id (DecisionStep c b)) p.2 (Conditional p.1)))).
  intros p _. eexists p.2, "conditional", _. split_and!; done.
Qed.

Lemma parallel_drawn c p j : plain (ParallelGatewayStep c p j) →
  drawn <$> parallel_edges m (diagram_of (ParallelGatewayStep c p j)) =
  meant <$> List.filter resolved (step_edges (ParallelGatewayStep c p j)).
Proof.
  intros Hp. unfold parallel_edges. rewrite diagram_type. unfold diagram_of at 1, diagram_step. cbn [ds_members step_type step_type_str].
  rewrite (member_get _ _ Hp) by set_solver. cbn [String.eqb Ascii.eqb Bool.eqb].
  assert (indexed (JStr <$> p) = (λ q : nat * string, (q.1, JStr q.2)) <$> indexed p) as ->
    by (unfold indexed; rewrite fmap_imap; apply imap_fmap).
  unfold step_edges. cbn [pushStepEdges]. rewrite app_nil_l.
  apply (drawn_list (ParallelGatewayStep c p j) _
    (λ q, with_handle ("parallel:" ⊕ str_of_nat q.1) (makeEdge (step_id (ParallelGatewayStep c p j)) q.2 Parallel))).
  intros q _. eexists q.2, "parallel", _. split_and!; done.
Qed.

(** The edge of [nextStep], where a step has one. *)
Lemma next_of s n : plain s → EmptyString ∉ step_ids def → obj_get (step_obj s) "nextStep" = Some (JStr n) →
  drawn <$> next_edges m (diagram_of s) =
  meant <$> List.filter resolved [makeEdge (step_id s) n (if String.eqb (step_type s) "JOIN_GATEWAY" then JoinOut else Sequential)].
Proof.
  intros Hp Hne Hn. apply (next_drawn s n); [by right| |done..].
  unfold diagram_of, diagram_step, text_member. cbn [ds_nextStep]. by rewrite Hn.
Qed.

Lemma next_none s : obj_get (step_obj s) "nextStep" = None → next_edges m (diagram_of s) = [].
Proof.
  intros Hn. unfold next_edges, diagram_of, diagram_step, text_member. cbn [ds_nextStep]. by rewrite Hn.
Qed.

(** The [nextStep] of a task, absent or empty or not. *)
Lemma next_optional s (n : option string) : plain s → EmptyString ∉ step_ids def → step_type s ≠ "JOIN_GATEWAY" →
  obj_get (step_obj s) "nextStep" = JStr <$> n →
  drawn <$> next_edges m (diagram_of s) =
  meant <$> List.filter resolved
    (match n with Some n => if truthy_str n then [makeEdge (step_id s) n Sequential] else [] | None => [] end).
Proof.
  intros Hp Hne Ht%String.eqb_neq Hn. destruct n as [n|]; [|by rewrite next_none].
  rewrite (next_of s n Hp Hne Hn), Ht. destruct (truthy_str n) eqn:E; [done|]. apply truthy_str_false in E as ->.
  rewrite meant_edge. cbn [ge_to makeEdge]. rewrite bool_decide_eq_false_2; [done|]. by rewrite indexSteps_is_Some.
Qed.

(** One step draws its edges of the graph view, those that resolve. *)
Lemma step_drawn s : plain s → step_wf s = true → EmptyString ∉ step_ids def →
  drawn <$> (next_edges m (diagram_of s) ++ conditional_edges m (diagram_of s) ++ parallel_edges m (diagram_of s) ++
    boundary_edges m (diagram_of s)) =
  meant <$> List.filter resolved (step_edges s).
Proof.
  intros Hp Hwf Hne. pose proof (member_get s "nextStep" Hp ltac:(set_solver)) as Hn.
  pose proof (member_get s "boundaryEvents" Hp ltac:(set_solver)) as Hb. rewrite !fmap_app.
  destruct s as [c n jt dc rc b|c n jt b|c br|c h n t|c n t|c n b|c p j|c n|c|t c]; cbn in Hn, Hb;
    try rewrite (conditional_none _) by done; try rewrite (parallel_none _) by done.
  1-2: rewrite (next_optional _ n), (boundary_drawn _ b _ Hp eq_refl Hb) by done; unfold step_edges; cbn [pushStepEdges fmap list_fmap app];
    by rewrite (pushBoundaryEdges_app _ _ (match n with Some _ => _ | None => _ end)), List.filter_app, fmap_app.
  - rewrite next_none, boundary_none by done. rewrite (conditional_drawn c br Hp). by rewrite !app_nil_r.
  - rewrite (next_of _ n), boundary_none by done. cbn [fmap list_fmap app]. by rewrite app_nil_r.
  - rewrite (next_of _ n), boundary_none by done. cbn [fmap list_fmap app]. by rewrite app_nil_r.
  - rewrite (next_of _ n), (boundary_drawn _ b _ Hp eq_refl Hb) by done. unfold step_edges. cbn [pushStepEdges app].
    by rewrite (pushBoundaryEdges_app _ _ [_]), List.filter_app, fmap_app.
  - rewrite next_none, boundary_none by done. rewrite (parallel_drawn c p j Hp). by rewrite !app_nil_r.
  - rewrite (next_of _ n), boundary_none by done. cbn [fmap list_fmap app]. by rewrite app_nil_r.
  - by rewrite next_none, boundary_none.
  - simpl in Hwf. apply negb_true_iff, includes_false in Hwf.
    rewrite next_none, boundary_none, conditional_none, parallel_none; try done;
      cbn [step_type]; intros ->; apply Hwf; apply (bool_decide_unpack _); vm_compute; exact I.
Qed.
End edges.

(** ** Properties *)

(** C19: the Monitor draws what the modeller shows: for a definition with
    well-formed steps, none with an empty id, whose members the diagram reads
    are the declared ones, the edges of the diagram are those of the modeller's
    graph view whose target is a step, in the same order and from and to the
    same steps.  Their kind is the modeller's, except that an edge the modeller
    calls sequential is called join-target where it leads into a join gateway. *)
Theorem diagram_edges_match def :
  def_wf def = true → EmptyString ∉ step_ids def → (∀ s, s ∈ wd_steps def → plain s) →
  (λ d, (de_source d, de_target d, de_variant d)) <$> buildEdges (diagram_steps def) (stepById (diagram_steps def)) =
  (λ e, (ge_from e, ge_to e,
         if bool_decide (ge_variant e = Sequential ∧ step_type <$> indexSteps def !! ge_to e = Some "JOIN_GATEWAY")
         then "join-target" else variant_kind (ge_variant e))) <$>
  List.filter (λ e, bool_decide (is_Some (indexSteps def !! ge_to e))) (toEdges def).
Proof.
  intros Hwf Hne Hp. fold drawn. fold (resolved def). transitivity (meant def <$> List.filter (resolved def) (toEdges def)).
  2:{ apply list_fmap_ext. intros _ e _. unfold meant, monitor_variant. do 2 f_equal.
      destruct (ge_variant e); try (rewrite bool_decide_eq_false_2; [done|naive_solver]).
      repeat case_bool_decide; naive_solver. }
  rewrite toEdges_flat.
  pose proof (λ s, step_drawn def s) as Hd. set (m := stepById (diagram_steps def)) in *.
  unfold buildEdges, diagram_steps. unfold def_wf in Hwf.
  rewrite forallb_forall in Hwf. assert (∀ s, s ∈ wd_steps def → step_wf s = true ∧ plain s) as Hs
    by (intros s Hs; split; [apply Hwf; by apply list_elem_of_In|by apply Hp]). clear Hwf Hp.
  clearbody m. induction (wd_steps def) as [|s l IH]; [done|].
  rewrite fmap_cons, !bind_cons, List.filter_app, (fmap_app (meant def)), (fmap_app drawn). f_equal.
  - destruct (Hs s) as [Hw Hp]; [by left|]. by rewrite <- (Hd s Hp Hw Hne).
  - apply IH. intros s' Hs'. apply Hs. by right.
Qed.

(** A definition whose steps are complete and one whose decision goes nowhere. *)
Definition diagram_sample : WorkflowDefinition :=
  mkDef "order" None "Order" None None None
    [ServiceTaskStep (mkCommon "pay" "Pay" None []) (Some "check") None None None
       (Some [mkBoundaryEvent "TIMER" "PT1H" true "end" []]);
     DecisionStep (mkCommon "check" "Check" None []) [("#ok", "fork"); ("#no", "missing")];
     ParallelGatewayStep (mkCommon "fork" "Fork" None []) ["a"; "b"] "join";
     TransformationStep (mkCommon "a" "A" None []) "join" [];
     WaitStep (mkCommon "b" "B" None []) "join" None;
     JoinGatewayStep (mkCommon "join" "Join" None []) "end";
     EndStep (mkCommon "end" "End" None [])] None [].

Lemma diagram_edges_match_witness :
  (λ d, (de_source d, de_target d, de_variant d)) <$> buildEdges (diagram_steps diagram_sample) (stepById (diagram_steps diagram_sample)) =
    [("pay", "check", "sequential"); ("pay", "end", "boundary"); ("check", "fork", "conditional");
     ("fork", "a", "parallel"); ("fork", "b", "parallel"); ("a", "join", "join-target"); ("b", "join", "join-target");
     ("join", "end", "join-out")].
Proof.
  rewrite (diagram_edges_match diagram_sample).
  - vm_compute. reflexivity.
  - reflexivity.
  - apply (bool_decide_unpack _). vm_compute. exact I.
  - intros s Hs k _. apply list_elem_of_In in Hs. destruct Hs as [<-|[<-|[<-|[<-|[<-|[<-|[<-|[]]]]]]]]; reflexivity.
Defined.

(** * The execution diagram on the page (workflow-monitor/src/ExecutionDiagram.tsx)

    The component around the edges and labels of Diagram.v: the effect that asks
    the layout library for a placement whenever the steps change and drops the
    answers that come too late, and what is drawn of a placement, the paths of
    the edges included.  The layout library is a parameter: it places the graph
    it is given, or fails. *)

#[local] Arguments String.append !_ _ / : simpl nomatch.

(** ** The layout library *)

(** Numbers of a placement: what the component does with them. *)
Class Coordinates := {
  Coord : Type;
  coord_of : Z → Coord;
  coord_max : Coord → Coord → Coord;
  coord_text : Coord → string
}.

Section elk.
Context `{Coordinates}.

Record PlacedNode := mkPlacedNode {
  pn_id : string;
  pn_x : option Coord;
  pn_y : option Coord;
  pn_width : Coord;
  pn_height : Coord
}.

Record Section_ := mkSection {
  sec_startPoint : Coord * Coord;
  sec_bendPoints : option (list (Coord * Coord));
  sec_endPoint : Coord * Coord
}.

Record RoutedEdge := mkRouted { re_edge : DiagramEdge; re_sections : option (list Section_) }.

Record DiagramLayout := mkLayout {
  dl_width : option Coord;
  dl_height : option Coord;
  dl_children : list PlacedNode;
  dl_edges : list RoutedEdge
}.

(** The graph the effect builds. *)
Definition diagram_graph (steps : list DiagramStep) : DiagramLayout :=
  mkLayout None None
    ((λ step, mkPlacedNode (ds_id step) None None (coord_of 180) (coord_of 70)) <$> steps)
    ((λ e, mkRouted e None) <$> buildEdges steps (stepById steps)).
End elk.

(** [elk.layout]: the placed graph, or a rejected promise. *)
Class ElkLibrary `{Coordinates} := elk_layout : DiagramLayout → option DiagramLayout.

(** It answers the graph it was given with coordinates added: the nodes and edges
    are the same, in the same order. *)
Class ElkLaws `{C : Coordinates} (E : @ElkLibrary C) : Prop := {
  elk_children g l : elk_layout g = Some l → pn_id <$> dl_children l = pn_id <$> dl_children g;
  elk_edges_kept g l : elk_layout g = Some l → re_edge <$> dl_edges l = re_edge <$> dl_edges g
}.

(** ** The effect *)

Section effect.
Context `{ElkLibrary}.

(** A request for a placement that has not been answered. *)
Record Run := mkRun { run_graph : DiagramLayout; run_cancelled : bool }.

(** The steps of the properties, the layout in the state of the component, and
    the requests so far: [None] once answered. *)
Record DiagramState := mkDiagramState {
  dg_steps : list DiagramStep;
  dg_layout : option DiagramLayout;
  dg_runs : list (option Run)
}.

(** The cleanup of the last effect: the flag of the last request, if it is still
    waited for. *)
Definition cleanup (runs : list (option Run)) : list (option Run) :=
  match last runs with
  | Some (Some r) => removelast runs ++ [Some (mkRun (run_graph r) true)]
  | _ => runs
  end.

Definition mount_diagram (steps : list DiagramStep) : DiagramState :=
  mkDiagramState steps None [Some (mkRun (diagram_graph steps) false)].

(** The steps are others: the effect is cleaned up and runs again. *)
Definition set_steps (steps : list DiagramStep) (s : DiagramState) : DiagramState :=
  mkDiagramState steps (dg_layout s) (cleanup (dg_runs s) ++ [Some (mkRun (diagram_graph steps) false)]).

(** The promise of the [i]th request settles. *)
Definition settle_run (i : nat) (s : DiagramState) : DiagramState :=
  match dg_runs s !! i with
  | Some (Some r) =>
      mkDiagramState (dg_steps s)
        (match elk_layout (run_graph r) with
         | Some result => if run_cancelled r then dg_layout s else Some result
         | None => dg_layout s
         end)
        (<[i := None]> (dg_runs s))
  | _ => s
  end.

Inductive DiagramEvent := DSteps (steps : list DiagramStep) | DSettles (i : nat).

Definition diagram_event (e : DiagramEvent) (s : DiagramState) : DiagramState :=
  match e with DSteps steps => set_steps steps s | DSettles i => settle_run i s end.
End effect.

(** ** What is drawn *)

Section drawing.
Context `{Coordinates}.

Definition point_text (command : string) (p : Coord * Coord) : string :=
  command ⊕ " " ⊕ coord_text p.1 ⊕ " " ⊕ coord_text p.2.

Definition edgePath (e : RoutedEdge) : string :=
  match re_sections e with
  | Some (section :: _) =>
      let points := [sec_startPoint section] ++ default [] (sec_bendPoints section) ++ [sec_endPoint section] in
      String.concat " " (imap (λ index point, point_text (match index with O => "M" | S _ => "L" end) point) points)
  | _ => EmptyString
  end.

Record EdgeView := mkEdgeView { ew_label : string; ew_class : string; ew_path : string }.

Record NodeView := mkNodeView {
  nw_step : string;             (* selected by a click, Enter or the space bar *)
  nw_label : string;
  nw_class : string;
  nw_pressed : option bool;
  nw_transform : string;
  nw_width : Coord;
  nw_height : Coord;
  nw_title : string;
  nw_meta : string
}.

Record DiagramView := mkDiagramView {
  dw_count : string;
  dw_width : Coord;
  dw_height : Coord;
  dw_edges : list EdgeView;
  dw_nodes : list NodeView
}.

Definition edge_view (e : RoutedEdge) : EdgeView :=
  let d := re_edge e in
  mkEdgeView (de_sourceName d ⊕ " to " ⊕ de_targetName d ⊕ ", " ⊕ de_variant d ⊕ " edge")
    ("rm-diagram-edge rm-diagram-edge--" ⊕ de_variant d) (edgePath e).

Definition node_view (overlay : Overlay) (selectedStepId : option string) (selectable : bool) (node : PlacedNode)
    (step : DiagramStep) : NodeView :=
  let isSelected := bool_decide (selectedStepId = Some (ds_id step)) in
  mkNodeView (ds_id step) (node_label overlay step)
    ("rm-diagram-node rm-diagram-node--" ⊕ stateClass overlay step ⊕ (if isSelected then " rm-diagram-node--selected" else EmptyString))
    (if selectable then Some isSelected else None)
    ("translate(" ⊕ coord_text (default (coord_of 0) (pn_x node)) ⊕ " " ⊕ coord_text (default (coord_of 0) (pn_y node)) ⊕ ")")
    (pn_width node) (pn_height node) (ds_name step) (visualStateLabel overlay step).

(** [None] while there is no layout. *)
Definition ExecutionDiagram (overlay : Overlay) (selectedStepId : option string) (selectable : bool) (s : DiagramState) :
    option DiagramView :=
  layout ← dg_layout s;
  let byId := stepById (dg_steps s) in
  Some (mkDiagramView (str_of_nat (length (dg_steps s)) ⊕ " steps")
    (coord_max (default (coord_of 1) (dl_width layout)) (coord_of 1200))
    (coord_max (default (coord_of 1) (dl_height layout)) (coord_of 280))
    (edge_view <$> dl_edges layout)
    (dl_children layout ≫= λ node,
       match byId !! pn_id node with
       | Some step => [node_view overlay selectedStepId selectable node step]
       | None => []
       end)).
End drawing.

(** ** Properties *)

Lemma stepById_fold steps (m : gmap string DiagramStep) x :
  (∀ y s, m !! y = Some s → ds_id s = y) →
  (∀ s, fold_left (λ m s, <[ds_id s := s]> m) steps m !! x = Some s → ds_id s = x ∧ (s ∈ steps ∨ m !! x = Some s)) ∧
  (x ∈ ds_id <$> steps ∨ is_Some (m !! x) → is_Some (fold_left (λ m s, <[ds_id s := s]> m) steps m !! x)).
Proof.
  revert m. induction steps as [|t steps IH]; intros m Hm; cbn [fold_left].
  { split; [intros s Hs; split; [by apply Hm|by right]|]. intros [Hx|Hx]; [by apply elem_of_nil in Hx|exact Hx]. }
  assert (∀ y s, <[ds_id t := t]> m !! y = Some s → ds_id s = y) as Hm'.
  { intros y s. destruct (decide (ds_id t = y)) as [<-|Hne]; [rewrite lookup_insert_eq; by intros [= <-]|].
    rewrite lookup_insert_ne by done. apply Hm. }
  destruct (IH _ Hm') as [IH1 IH2]. split.
  - intros s Hs. destruct (IH1 s Hs) as [E [Hin|Hl]]; [split; [done|left; by right]|]. split; [done|].
    destruct (decide (ds_id t = x)) as [Et|Hne]; [rewrite Et, lookup_insert_eq in Hl|rewrite lookup_insert_ne in Hl by done; by right].
    injection Hl as <-. left. by left.
  - intros Hx. apply IH2. rewrite fmap_cons, elem_of_cons in Hx. destruct (decide (ds_id t = x)) as [<-|Hne].
    + right. by rewrite lookup_insert_eq.
    + rewrite lookup_insert_ne by done. destruct Hx as [[->|Hx]|Hx]; [done|by left|by right].
Qed.

Lemma stepById_some steps x s : stepById steps !! x = Some s → s ∈ steps ∧ ds_id s = x.
Proof.
  intros Hs. destruct (proj1 (stepById_fold steps ∅ x ltac:(intros y t; by rewrite lookup_empty)) s Hs) as [E [?|Hn]]; [done|].
  by rewrite lookup_empty in Hn.
Qed.

Lemma stepById_in steps s : s ∈ steps → is_Some (stepById steps !! ds_id s).
Proof.
  intros Hs. apply (stepById_fold steps ∅ (ds_id s)); [intros y t; by rewrite lookup_empty|]. left. by apply list_elem_of_fmap_2.
Qed.

Lemma id_unique steps s t : NoDup (ds_id <$> steps) → s ∈ steps → t ∈ steps → ds_id s = ds_id t → s = t.
Proof.
  intros Hn Hs Ht E. apply list_elem_of_lookup in Hs as [i Hi]. apply list_elem_of_lookup in Ht as [j Hj].
  assert (i = j) as <-; [|congruence]. eapply (NoDup_lookup (ds_id <$> steps) i j (ds_id s)); [done|..];
    rewrite list_lookup_fmap, ?Hi, ?Hj; simpl; by rewrite ?E.
Qed.

Section props.
Context `{C : Coordinates} `{E : !ElkLibrary}.

Inductive diagram_reachable : DiagramState → Prop :=
| reach_mounted steps : diagram_reachable (mount_diagram steps)
| reach_event e s : diagram_reachable s → diagram_reachable (diagram_event e s).

(** Every request but the last is answered or cancelled; the last is the one for
    the steps of now; once it is answered, the layout is its answer. *)
Record diagram_ok (s : DiagramState) : Prop := {
  dk_runs : ∃ old latest, dg_runs s = old ++ [latest] ∧
    Forall (λ r, match r with Some r => run_cancelled r = true | None => True end) old ∧
    match latest with
    | Some r => r = mkRun (diagram_graph (dg_steps s)) false
    | None => ∀ l, elk_layout (diagram_graph (dg_steps s)) = Some l → dg_layout s = Some l
    end;
  dk_layout : ∀ l, dg_layout s = Some l → ∃ steps, elk_layout (diagram_graph steps) = Some l
}.

Lemma cleanup_snoc old latest :
  cleanup (old ++ [latest]) = old ++ [(λ r, mkRun (run_graph r) true) <$> latest].
Proof. unfold cleanup. rewrite last_snoc, removelast_last. by destruct latest. Qed.

Lemma diagram_reachable_ok s : diagram_reachable s → diagram_ok s.
Proof.
  induction 1 as [steps|[steps|i] s _ [(old & latest & Hr & Hold & Hlast) Hl]].
  - split; [|done]. by exists [], (Some (mkRun (diagram_graph steps) false)).
  - split; [|done]. cbn [diagram_event set_steps dg_runs dg_steps]. rewrite Hr, cleanup_snoc. eexists _, _. split; [reflexivity|]. split; [|done].
    apply Forall_app. split; [done|]. constructor; [by destruct latest|constructor].
  - cbn [diagram_event]. unfold settle_run. destruct (dg_runs s !! i) as [[r|]|] eqn:Ei; [|split; [by exists old, latest|done]..].
    rewrite Hr in Ei. destruct (decide (i = length old)) as [->|Hne].
    + rewrite lookup_app_r, Nat.sub_diag in Ei by done. injection Ei as ->. subst r. cbn [run_graph run_cancelled]. split.
      * cbn [dg_runs dg_steps dg_layout]. rewrite Hr. exists old, None. rewrite insert_app_r_alt, Nat.sub_diag by done. split; [done|].
        split; [done|]. intros l ->. done.
      * cbn [dg_layout]. intros l. destruct (elk_layout (diagram_graph (dg_steps s))) as [l'|] eqn:Ee; [|apply Hl]. intros [= ->]. eauto.
    + assert (i < length old) as Hlt.
      { apply lookup_lt_Some in Ei. rewrite length_app in Ei. simpl in Ei. lia. }
      rewrite lookup_app_l in Ei by done. assert (run_cancelled r = true) as ->
        by (exact (proj1 (Forall_lookup _ old) Hold i _ Ei)).
      replace (match elk_layout (run_graph r) with Some _ => dg_layout s | None => dg_layout s end) with (dg_layout s)
        by (destruct (elk_layout (run_graph r)); reflexivity).
      split; [|done]. cbn [dg_runs dg_steps dg_layout]. rewrite Hr. exists (<[i:=None]> old), latest. rewrite insert_app_l by done.
      split; [done|]. split; [|done]. by apply Forall_insert.
Qed.

Lemma bind_singletons {A B D} (l : list A) (f : A → option B) (g : A → B → D) (h : D → string) (k : A → string) :
  (∀ x, x ∈ l → ∃ y, f x = Some y ∧ h (g x y) = k x) →
  h <$> (l ≫= λ x, match f x with Some y => [g x y] | None => [] end) = k <$> l.
Proof.
  induction l as [|x l IH]; intros Hf; [done|]. rewrite bind_cons, fmap_app, IH by (intros z Hz; apply Hf; by right).
  destruct (Hf x) as (y & -> & Hy); [by left|]. cbn. by rewrite Hy.
Qed.

(** The answer of the last request is what is shown. *)
Lemma settle_latest s l : diagram_ok s → elk_layout (diagram_graph (dg_steps s)) = Some l →
  let done := settle_run (pred (length (dg_runs s))) s in dg_layout done = Some l ∧ dg_steps done = dg_steps s.
Proof.
  intros [(old & latest & Hruns & _ & Hlast) _] Hl. unfold settle_run. rewrite Hruns, length_app, Nat.add_1_r. cbn [pred].
  rewrite lookup_app_r, Nat.sub_diag by lia. cbn [lookup list_lookup].
  destruct latest as [r|]; [|by split; [apply Hlast|]]. subst r. cbn [run_graph run_cancelled dg_layout dg_steps]. by rewrite Hl.
Qed.

Lemma late_answer i s : diagram_ok s → S i < length (dg_runs s) → dg_layout (settle_run i s) = dg_layout s.
Proof.
  intros [(old & latest & Hruns & Hold & _) _] Hi. rewrite Hruns, length_app in Hi. simpl in Hi.
  unfold settle_run. rewrite Hruns, lookup_app_l by lia. destruct (old !! i) as [[r|]|] eqn:Ei; [|done..]. cbn [dg_layout].
  assert (run_cancelled r = true) as -> by (exact (proj1 (Forall_lookup _ old) Hold i _ Ei)).
  destruct (elk_layout (run_graph r)); reflexivity.
Qed.

Context `{!ElkLaws E}.

(** The nodes of a placement of the steps are the steps. *)
Lemma placed_ids steps l : elk_layout (diagram_graph steps) = Some l → pn_id <$> dl_children l = ds_id <$> steps.
Proof.
  intros Hl. rewrite (elk_children _ _ Hl). cbn [diagram_graph dl_children]. by rewrite <- list_fmap_compose.
Qed.

Lemma placed_step steps l node : elk_layout (diagram_graph steps) = Some l → node ∈ dl_children l →
  ∃ step, stepById steps !! pn_id node = Some step ∧ step ∈ steps ∧ ds_id step = pn_id node.
Proof.
  intros Hl Hn. assert (pn_id node ∈ ds_id <$> steps) as (step & Ei & Hin)%list_elem_of_fmap
    by (rewrite <- (placed_ids _ _ Hl); by apply list_elem_of_fmap_2).
  destruct (stepById_in _ _ Hin) as [step' Hs']. rewrite <- Ei in Hs'. exists step'. split; [done|]. by apply stepById_some.
Qed.

Lemma names_by_id steps : NoDup (ds_id <$> steps) →
  ds_name <$> steps = (λ i, default EmptyString (ds_name <$> stepById steps !! i)) <$> (ds_id <$> steps).
Proof.
  intros Hnd. rewrite <- list_fmap_compose. apply list_fmap_ext. intros i x Hx%list_elem_of_lookup_2. unfold compose.
  destruct (stepById_in _ _ Hx) as [x' Hx']. rewrite Hx'. apply stepById_some in Hx' as [Hin Ei].
  cbn. by rewrite (id_unique _ x' x Hnd Hin Hx Ei).
Qed.
End props.

(** Whatever the order in which steps change and placements arrive: the diagram
    draws steps of the definition it shows now and no others; an answer that
    comes late changes nothing; and when the last request is answered, every step
    is drawn once, in order, selectable under its own id and with its own name,
    and the edges are those of the definition. *)
Theorem diagram_current `{C : Coordinates} `{E : !ElkLibrary} `{!ElkLaws E} overlay selected selectable s :
  diagram_reachable s →
  (∀ v n, ExecutionDiagram overlay selected selectable s = Some v → n ∈ dw_nodes v →
     ∃ step, step ∈ dg_steps s ∧ nw_step n = ds_id step ∧ nw_title n = ds_name step ∧ nw_label n = node_label overlay step) ∧
  (∀ i, S i < length (dg_runs s) → dg_layout (settle_run i s) = dg_layout s) ∧
  let done := settle_run (pred (length (dg_runs s))) s in
  (is_Some (elk_layout (diagram_graph (dg_steps s))) →
   ∃ v, ExecutionDiagram overlay selected selectable done = Some v ∧
     nw_step <$> dw_nodes v = ds_id <$> dg_steps s ∧
     (NoDup (ds_id <$> dg_steps s) → nw_title <$> dw_nodes v = ds_name <$> dg_steps s) ∧
     ew_label <$> dw_edges v =
       (λ d, de_sourceName d ⊕ " to " ⊕ de_targetName d ⊕ ", " ⊕ de_variant d ⊕ " edge")
         <$> buildEdges (dg_steps s) (stepById (dg_steps s))).
Proof.
  intros Hr. apply diagram_reachable_ok in Hr as Hok. split_and!.
  - intros v n Hv Hn. unfold ExecutionDiagram in Hv. destruct (dg_layout s) as [l|]; [|done]. cbn [mbind option_bind] in Hv.
    injection Hv as <-. cbn [dw_nodes] in Hn. apply list_elem_of_bind in Hn as (node & Hn & _).
    destruct (stepById (dg_steps s) !! pn_id node) as [step|] eqn:Es; [|by apply elem_of_nil in Hn].
    apply list_elem_of_singleton in Hn as ->. apply stepById_some in Es as [Hin _]. by exists step.
  - intros i. by apply late_answer.
  - intros done [l Hl]. destruct (settle_latest s l Hok Hl) as [Hd Hs]. fold done in Hd, Hs.
    unfold ExecutionDiagram. rewrite Hd, Hs. cbn [mbind option_bind]. eexists. split; [reflexivity|]. cbn [dw_nodes dw_edges].
    pose proof (placed_ids _ _ Hl) as Hc. split_and!.
    + rewrite <- Hc. apply bind_singletons. intros node Hn. destruct (placed_step _ _ _ Hl Hn) as (step & Hst & _ & Hid).
      exists step. by split.
    + intros Hnd. rewrite (names_by_id _ Hnd), <- Hc, <- list_fmap_compose. unfold compose. apply bind_singletons. intros node Hn.
      destruct (placed_step _ _ _ Hl Hn) as (step & Hst & _). exists step. rewrite Hst. by split.
    + rewrite <- list_fmap_compose. pose proof (elk_edges_kept _ _ Hl) as He. cbn [diagram_graph dl_edges] in He.
      rewrite <- list_fmap_compose in He. unfold compose in He. cbn [re_edge] in He. rewrite list_fmap_id in He.
      rewrite <- He, <- list_fmap_compose. done.
Qed.

(** ** Samples *)

Definition whole_coordinates : Coordinates := {| Coord := Z; coord_of := id; coord_max := Z.max; coord_text := pretty |}.

#[local] Existing Instance whole_coordinates.

(** A library that puts the nodes in a row and fails on an empty graph. *)
Definition row_layout : ElkLibrary := λ g,
  match dl_children g with
  | [] => None
  | _ => Some (mkLayout (Some (200 * Z.of_nat (length (dl_children g)))%Z) (Some 70%Z)
                (imap (λ i n, mkPlacedNode (pn_id n) (Some (200 * Z.of_nat i)%Z) (Some 0%Z) (pn_width n) (pn_height n)) (dl_children g))
                ((λ e, mkRouted (re_edge e) (Some [mkSection (180, 35)%Z None (200, 35)%Z])) <$> dl_edges g))
  end.

#[local] Existing Instance row_layout.

Lemma row_laws : ElkLaws row_layout.
Proof.
  split; intros g l; unfold elk_layout, row_layout; destruct (dl_children g) as [|n ns] eqn:Ec; try done; intros [= <-];
    cbn [dl_children dl_edges].
  - rewrite !fmap_cons. cbn [pn_id]. f_equal. apply list_eq. intros i. rewrite !list_lookup_fmap, list_lookup_imap.
    by destruct (ns !! i).
  - by rewrite <- list_fmap_compose.
Qed.

Definition two_steps : list DiagramStep :=
  [mkDiagramStep "a" "First" "WAIT" (Some "b") []; mkDiagramStep "b" "Last" "END" None []].

(** The steps change before the first placement arrives, which is then dropped. *)
Definition late_sample : DiagramState :=
  diagram_event (DSettles 0) (diagram_event (DSteps two_steps) (mount_diagram (take 1 two_steps))).

Lemma diagram_current_witness :
  dg_layout late_sample = None ∧
  ∃ v, ExecutionDiagram (mkOverlay ["a"] None []) (Some "b") true (settle_run 1 late_sample) = Some v ∧
    nw_step <$> dw_nodes v = ["a"; "b"] ∧ nw_title <$> dw_nodes v = ["First"; "Last"] ∧
    ew_path <$> dw_edges v = ["M 180 35 L 200 35"].
Proof.
  split; [reflexivity|].
  pose proof (diagram_current (ElkLaws0 := row_laws) (mkOverlay ["a"] None []) (Some "b") true late_sample) as H.
  destruct H as (_ & _ & H); [apply reach_event, reach_event, reach_mounted|].
  destruct H as (v & Hv & H1 & H2 & _); [by eexists|]. exists v. split; [exact Hv|]. split; [exact H1|]. split.
  - apply H2. repeat constructor; set_solver.
  - vm_compute in Hv. injection Hv as <-. reflexivity.
Defined.
