(* ===== verification/Timeline.v ===== *)
(** * Times on the pages of the Monitor
    (workflow-monitor/src/ExecutionTimeline.tsx, ExecutionContextPanel.tsx,
    DataFreshness.tsx, routes/ProcessInstancesRoute.tsx)

    The order and the bars of the timeline, the age of data, elapsed times,
    and what the context panel says of leases and timers.  Times are the
    milliseconds [Date.parse] reads from the texts of the API. *)

From stdpp Require Import sorting.
From S2P Require Import Prelude JsObject Peg Utc Cursor Paging Instances Context Executions.

#[local] Open Scope Z_scope.
#[local] Arguments String.append !_ _ / : simpl nomatch.

(** ** Elapsed time *)

(** [None] is a time that cannot be read; the end is absent while it runs. *)
Definition elapsedTime (start : option Z) (ended : option (option Z)) (observedAt : Z) : string :=
  match start, match ended with Some e => e | None => Some observedAt end with
  | Some s, Some e =>
      let seconds := Z.max 0 ((e - s) / 1000) in
      let days := seconds / 86400 in
      let hours := seconds mod 86400 / 3600 in
      let minutes := seconds mod 3600 / 60 in
      (if days =? 0 then EmptyString else pretty days ⊕ "d ") ⊕ pretty hours ⊕ "h " ⊕ pretty minutes ⊕ "m " ⊕
      pretty (seconds mod 60) ⊕ "s"
  | _, _ => "Not recorded"
  end.

(** The age [DataFreshness] shows; nothing before the first update. *)
Definition data_age (now updatedAt : Z) : option Z :=
  if updatedAt =? 0 then None else Some (Z.max 0 ((now - updatedAt) / 1000)).

(** ** The timeline *)

(** The comparison of the sort. *)
Definition earlier (x y : StepExecutionListItem) : Prop :=
  si_startedAt x < si_startedAt y ∨
  si_startedAt x = si_startedAt y ∧ String.leb (si_id x) (si_id y) = true.

#[export] Instance earlier_dec : RelDecision earlier.
Proof. intros x y. unfold earlier. apply _. Defined.

Definition sorted_executions (executions : list StepExecutionListItem) : list StepExecutionListItem :=
  merge_sort earlier executions.

Section bars.
Context (observedAt : Z) (active : bool).

Definition finish (x : StepExecutionListItem) : option Z :=
  match si_endedAt x with
  | Some e => Some e
  | None => if active && String.eqb (si_status x) "RUNNING" then Some observedAt else None
  end.

Definition last_moment (x : StepExecutionListItem) : Z := default (si_startedAt x) (finish x).

(** [Math.min(...)], [Math.max(...)] of one number or more. *)
Definition minimum (l : list Z) : Z := match l with [] => 0 | x :: l => foldr Z.min x l end.
Definition maximum (l : list Z) : Z := match l with [] => 0 | x :: l => foldr Z.max x l end.

Definition first_start (l : list StepExecutionListItem) : Z := minimum (si_startedAt <$> l).
Definition span (l : list StepExecutionListItem) : Z := Z.max 1 (maximum (last_moment <$> l) - first_start l).

Definition duration (x : StepExecutionListItem) : option Z :=
  match finish x with Some f => Some (Z.max 0 (f - si_startedAt x)) | None => None end.

(** The bar of an execution: where it starts and how long it is, of [span]. *)
Definition bar (l : list StepExecutionListItem) (x : StepExecutionListItem) : Z * Z :=
  (Z.max 0 (si_startedAt x - first_start l), default 0 (duration x)).
End bars.

(** ** The context panel *)

Definition visible_contexts (contexts : list ExecutionContext) (selectedStepId : option string) : list ExecutionContext :=
  List.filter (λ c, negb (truthy_ostr selectedStepId) || bool_decide (Some (ec_stepId c) = selectedStepId)) contexts.

Definition seconds_elapsed (observed started : Z) : Z := Z.max 0 ((observed - started) / 1000).

Definition passed (observed t : Z) : bool := t <=? observed.

(** ** Lemmas *)

Lemma minimum_le l x : x ∈ l → minimum l ≤ x.
Proof.
  destruct l as [|y l]; [set_solver|]. simpl. intros Hx.
  assert (foldr Z.min y l ≤ y ∧ ∀ z, z ∈ l → foldr Z.min y l ≤ z) as [H1 H2].
  { clear. induction l as [|z l [IH1 IH2]]; simpl; [split; [lia|set_solver]|]. split; [lia|].
    intros w [->|Hw]%elem_of_cons; [lia|]. specialize (IH2 w Hw). lia. }
  apply elem_of_cons in Hx as [->|Hx]; auto.
Qed.

Lemma maximum_ge l x : x ∈ l → x ≤ maximum l.
Proof.
  destruct l as [|y l]; [set_solver|]. simpl. intros Hx.
  assert (y ≤ foldr Z.max y l ∧ ∀ z, z ∈ l → z ≤ foldr Z.max y l) as [H1 H2].
  { clear. induction l as [|z l [IH1 IH2]]; simpl; [split; [lia|set_solver]|]. split; [lia|].
    intros w [->|Hw]%elem_of_cons; [lia|]. specialize (IH2 w Hw). lia. }
  apply elem_of_cons in Hx as [->|Hx]; auto.
Qed.

#[export] Instance earlier_trans : Transitive earlier.
Proof.
  intros x y z [H1|[H1 H1']] [H2|[H2 H2']]; unfold earlier; [left; lia..|]. right. split; [lia|]. by eapply leb_trans.
Qed.

#[export] Instance earlier_total : Total earlier.
Proof.
  intros x y. unfold earlier. destruct (Z.lt_total (si_startedAt x) (si_startedAt y)) as [?|[E|?]]; [left; by left| |right; by left].
  rewrite E. destruct (String.leb_total (si_id x) (si_id y)); [left|right]; by right.
Qed.

(** ** Properties *)

(** The timeline shows every execution of the page once, in the order they
    started; a bar starts no earlier than the track and ends within it, when
    the execution did not end, and was not observed, before it started. *)
Theorem timeline_bars observedAt active l :
  sorted_executions l ≡ₚ l ∧ StronglySorted earlier (sorted_executions l) ∧
  ∀ x, x ∈ l →
    let '(offset, length) := bar observedAt active l x in
    0 ≤ offset ∧ 0 ≤ length ∧
    ((∀ f, finish observedAt active x = Some f → si_startedAt x ≤ f) → offset + length ≤ span observedAt active l).
Proof.
  split; [apply merge_sort_Permutation|]. split; [apply (StronglySorted_merge_sort earlier)|].
  intros x Hx. unfold bar. pose proof (minimum_le (si_startedAt <$> l) (si_startedAt x)) as Hmin.
  specialize (Hmin ltac:(by apply list_elem_of_fmap_2)).
  pose proof (maximum_ge (last_moment observedAt active <$> l) (last_moment observedAt active x)) as Hmax.
  specialize (Hmax ltac:(by apply list_elem_of_fmap_2)). fold (first_start l) in Hmin.
  unfold span, duration, last_moment in *. destruct (finish observedAt active x) as [f|] eqn:Ef; cbn [default from_option] in *;
    unfold id in *; (split; [lia|]; split; [lia|]).
  - intros Hf. specialize (Hf f eq_refl). lia.
  - intros _. lia.
Qed.

(** The text of an elapsed time gives its whole seconds back: days, hours,
    minutes and seconds within their ranges; a time in the future is zero. *)
Theorem elapsed_time_exact s e :
  ∃ days hours minutes seconds,
    elapsedTime (Some s) (Some (Some e)) 0 =
      (if days =? 0 then EmptyString else pretty days ⊕ "d ") ⊕ pretty hours ⊕ "h " ⊕ pretty minutes ⊕ "m " ⊕ pretty seconds ⊕ "s" ∧
    0 ≤ days ∧ 0 ≤ hours < 24 ∧ 0 ≤ minutes < 60 ∧ 0 ≤ seconds < 60 ∧
    86400 * days + 3600 * hours + 60 * minutes + seconds = Z.max 0 ((e - s) / 1000).
Proof.
  unfold elapsedTime. set (n := Z.max 0 ((e - s) / 1000)). assert (0 ≤ n) as Hn by lia. clearbody n.
  exists (n / 86400), (n mod 86400 / 3600), (n mod 3600 / 60), (n mod 60). split; [done|].
  Z.to_euclidean_division_equations. lia.
Qed.
