(* ===== verification/DeleteDialog.v ===== *)
(** * Deleting a step from the panel (workflow-modeller/src/panels/DeleteStepDialog.tsx)

    The references the dialog lists, the rewriting of one step and the two
    buttons.  The dialog renders again whenever the definition changes, so the
    definition its handlers close over is the one of the store. *)

From S2P Require Import Prelude JsObject Types Graph Rename Validate Schema ImportExport Store StoreProps.

(** ** The references shown *)

Definition event_hits (stepId id : StepId) (events : option (list BoundaryEvent)) : list string :=
  match events with
  | None => []
  | Some evs =>
      indexed evs ≫= λ p,
        if String.eqb (be_targetStepId p.2) id
        then [stepId ⊕ ".boundaryEvents[" ⊕ str_of_nat p.1 ⊕ "].targetStepId"] else []
  end.

Definition next_hits (stepId id : StepId) (nextStep : option StepId) : list string :=
  match nextStep with
  | Some n => if String.eqb n id then [stepId ⊕ ".nextStep"] else []
  | None => []
  end.

Definition step_hits (id : StepId) (step : Step) : list string :=
  let sid := step_id step in
  match step with
  | ServiceTaskStep _ n _ _ _ b | UserTaskStep _ n _ b => next_hits sid id n ++ event_hits sid id b
  | WaitStep _ n b => next_hits sid id (Some n) ++ event_hits sid id b
  | TransformationStep _ n _ | JoinGatewayStep _ n | DecisionTableStep _ _ n _ => next_hits sid id (Some n)
  | DecisionStep _ m =>
      m ≫= λ p : string * StepId,
        if String.eqb p.2 id then [sid ⊕ ".conditionalNextSteps[" ⊕ quoted p.1 ⊕ "]"] else []
  | ParallelGatewayStep _ targets joinStep =>
      (indexed targets ≫= λ p,
         if String.eqb p.2 id then [sid ⊕ ".parallelNextSteps[" ⊕ str_of_nat p.1 ⊕ "]"] else []) ++
      (if String.eqb joinStep id then [sid ⊕ ".joinStep"] else [])
  | EndStep _ | UnknownTypeStep _ _ => []
  end.

Definition findReferences (def : WorkflowDefinition) (id : StepId) : list string :=
  wd_steps def ≫= step_hits id.

(** ** Rewriting *)

Definition rewriteEvents (oldId newId : StepId) (events : option (list BoundaryEvent)) :
    option (list BoundaryEvent) :=
  match events with
  | Some evs =>
      Some ((λ e, if String.eqb (be_targetStepId e) oldId
                  then mkBoundaryEvent (be_type e) (be_duration e) (be_interrupting e) newId (be_extra e)
                  else e) <$> evs)
  | None => None
  end.

(** [None] is the [undefined] a step of unknown type becomes. *)
Definition rewriteRefs (oldId newId : StepId) (step : Step) : option Step :=
  let swap x := if String.eqb x oldId then newId else x in
  match step with
  | ServiceTaskStep c n j d r b => Some (ServiceTaskStep c (swap <$> n) j d r (rewriteEvents oldId newId b))
  | UserTaskStep c n j b => Some (UserTaskStep c (swap <$> n) j (rewriteEvents oldId newId b))
  | WaitStep c n b => Some (WaitStep c (swap n) (rewriteEvents oldId newId b))
  | TransformationStep c n t => Some (TransformationStep c (swap n) t)
  | JoinGatewayStep c n => Some (JoinGatewayStep c (swap n))
  | DecisionStep c m =>
      Some (DecisionStep c (fold_left (λ next p, obj_assign p.1 (swap p.2) next) m []))
  | DecisionTableStep c h n t => Some (DecisionTableStep c h (swap n) t)
  | ParallelGatewayStep c p j => Some (ParallelGatewayStep c (swap <$> p) (swap j))
  | EndStep c => Some (EndStep c)
  | UnknownTypeStep _ _ => None
  end.

(** ** The buttons *)

Definition handleDeleteOnly (stepId : StepId) (st : WorkflowState) : Result WorkflowState :=
  if truthy_str stepId then deleteStep stepId None st else Ok st.

Definition handleReplaceAndDelete (stepId replacement : StepId) (st : WorkflowState) : Result WorkflowState :=
  if (negb (truthy_str stepId) || negb (truthy_str replacement))%bool then Ok st
  else
    match mapM (rewriteRefs stepId replacement) (wd_steps (ws_definition st)) with
    | Some steps => deleteStep stepId None (edit (with_steps steps (ws_definition st)) st)
    | None => IllTyped
    end.

(** The button for replacing is shown. *)
Definition offers_replacement (stepId replacement : StepId) (st : WorkflowState) : bool :=
  Nat.ltb 0 (length (findReferences (ws_definition st) stepId)) && truthy_str replacement.

(** ** Lemmas *)

(** One test per element lists one text per match. *)
Lemma hits_length {A} (f : A → StepId) (g : A → string) (id : StepId) (l : list A) :
  length (l ≫= λ x, if String.eqb (f x) id then [g x] else []) =
  length (List.filter (λ r, String.eqb r id) (f <$> l)).
Proof.
  induction l as [|x l IH]; [done|]. rewrite bind_cons, length_app, IH. csimpl.
  by destruct (String.eqb (f x) id).
Qed.

Lemma event_hits_length sid id b :
  length (event_hits sid id b) = length (List.filter (λ r, String.eqb r id) (boundary_refs b)).
Proof.
  destruct b as [evs|]; [|done]. unfold event_hits, boundary_refs. cbn [events_of default].
  rewrite (hits_length (λ p : nat * BoundaryEvent, be_targetStepId p.2)).
  change ((λ p : nat * BoundaryEvent, be_targetStepId p.2) <$> indexed evs) with ((be_targetStepId ∘ snd) <$> indexed evs).
  by rewrite list_fmap_compose, indexed_snd.
Qed.

Lemma step_hits_length id s :
  length (step_hits id s) = length (List.filter (λ r, String.eqb r id) (step_refs s)).
Proof.
  destruct s as [c n j d rc b|c n j b|c m|c h n t|c n t|c n b|c p j|c n|c|t c]; cbn [step_hits step_refs];
    rewrite ?length_app, ?List.filter_app, ?event_hits_length; try done.
  1,2: rewrite length_app; f_equal; destruct n as [n|]; csimpl; [|done]; by destruct (String.eqb n id).
  - by rewrite (hits_length snd).
  - csimpl. by destruct (String.eqb n id).
  - csimpl. by destruct (String.eqb n id).
  - csimpl. by destruct (String.eqb n id).
  - rewrite length_app, (hits_length snd), indexed_snd. csimpl. by destruct (String.eqb j id).
  - csimpl. by destruct (String.eqb n id).
Qed.

Lemma rewriteEvents_refs o n b :
  boundary_refs (rewriteEvents o n b) = remap o n <$> boundary_refs b.
Proof.
  destruct b as [evs|]; [|done]. unfold boundary_refs. simpl.
  rewrite <- !list_fmap_compose. apply list_fmap_ext. intros _ e _. unfold remap. simpl.
  by destruct (String.eqb (be_targetStepId e) o).
Qed.

(** What a rewritten step is. *)
Definition redirected (o n : StepId) (s s' : Step) : Prop :=
  step_common s' = step_common s ∧ step_type s' = step_type s ∧ step_wf s' = true ∧
  step_refs s' = remap o n <$> step_refs s.

Lemma rewriteRefs_spec o n s s' :
  step_wf s = true → rewriteRefs o n s = Some s' → redirected o n s s'.
Proof.
  intros Hwf. assert (∀ x, (if String.eqb x o then n else x) = remap o n x) as Hs by done.
  destruct s as [c nx j d rc b|c nx j b|c m|c h nx t|c nx t|c nx b|c p j|c nx|c|t c]; cbn [rewriteRefs];
    intros [= <-]; unfold redirected; cbn [step_common step_type step_refs step_wf];
    rewrite ?fmap_app, ?rewriteEvents_refs; split_and!; try done; try (by destruct nx).
  all: simpl in Hwf; bool_hyps; rewrite obj_has_false in *;
    rewrite (obj_assign_all (remap o n)) by done.
  - unfold obj_wf, obj_keys in *. rewrite <- list_fmap_compose.
    apply andb_true_iff. split; [done|]. rewrite negb_true_iff, obj_has_false. unfold obj_keys.
    by rewrite <- list_fmap_compose.
  - unfold obj_values. by rewrite <- !list_fmap_compose.
Qed.

Lemma scrub_other removed x : x ≠ removed → scrub removed x = x.
Proof. unfold scrub. by destruct (String.eqb_spec x removed). Qed.

Lemma filter_others removed (l : list StepId) :
  removed ∉ l → List.filter (λ t, negb (String.eqb t removed)) l = l.
Proof.
  intros Hl. apply filter_all, forallb_forall. intros x Hx%list_elem_of_In.
  apply negb_true_iff, String.eqb_neq. by intros ->.
Qed.

Lemma filter_by_image {A} (f : A → StepId) removed (l : list A) :
  removed ∉ f <$> l → List.filter (λ x, negb (String.eqb (f x) removed)) l = l.
Proof.
  intros Hl. apply filter_all, forallb_forall. intros x Hx%list_elem_of_In.
  apply negb_true_iff, String.eqb_neq. intros <-. apply Hl. by apply list_elem_of_fmap_2.
Qed.

(** Scrubbing an id a step does not refer to changes no reference. *)
Lemma scrubStep_unreferenced removed s s' :
  step_wf s = true → removed ∉ step_refs s → scrubStep removed s = Some s' → step_refs s' = step_refs s.
Proof.
  intros Hwf. assert (∀ b, removed ∉ boundary_refs b → boundary_refs (scrubEvents removed b) = boundary_refs b) as Hb.
  { intros [evs|]; [|done]. unfold boundary_refs. simpl. intros H. by rewrite (filter_by_image be_targetStepId). }
  destruct s as [c n j d rc b|c n j b|c m|c h n t|c n t|c n b|c p j|c n|c|t c]; cbn [step_refs scrubStep];
    intros Hr [= <-]; cbn [step_refs]; rewrite ?not_elem_of_app, ?not_elem_of_cons in Hr.
  1,2: destruct Hr as [Hn ?]; rewrite Hb by done; destruct n as [n|]; csimpl in *; [|done];
    rewrite scrub_other by set_solver; done.
  - destruct (scrub_branches removed c m Hwf) as [-> _]. by rewrite (filter_by_image snd).
  - by rewrite scrub_other by set_solver.
  - by rewrite scrub_other by set_solver.
  - rewrite scrub_other, Hb by set_solver. done.
  - rewrite filter_others, scrub_other by set_solver. done.
  - by rewrite scrub_other by set_solver.
  - done.
Qed.

Lemma redirect_steps o n l l' :
  Forall (λ s, step_wf s = true) l → mapM (rewriteRefs o n) l = Some l' → Forall2 (redirected o n) l l'.
Proof.
  intros Hl H%mapM_Some. induction H as [|s s' l l' Hs _ IH]; constructor; inversion_clear Hl;
    [by apply rewriteRefs_spec|by apply IH].
Qed.

Lemma rewriteRefs_known o n s : step_wf s = true → known_type s = true → is_Some (rewriteRefs o n s).
Proof. intros Hwf Hk. pose proof (proj1 (known_type_wf s Hwf) Hk). destruct s; simpl; eauto; naive_solver. Qed.

(** Steps that keep their id are kept or left out together. *)
Lemma Forall2_remaining (R : Step → Step → Prop) id l l' :
  (∀ s s', R s s' → step_id s' = step_id s) → Forall2 R l l' →
  Forall2 R (List.filter (λ s, negb (String.eqb (step_id s) id)) l)
            (List.filter (λ s, negb (String.eqb (step_id s) id)) l').
Proof.
  intros HR. induction 1 as [|s s' l l' Hs _ IH]; simpl; [constructor|].
  rewrite (HR _ _ Hs). destruct (String.eqb (step_id s) id); simpl; [done|by constructor].
Qed.

Lemma redirected_scrubbed o n s s' s'' :
  o ≠ n → o ≠ EmptyString → redirected o n s s' → scrubStep o s' = Some s'' →
  step_common s'' = step_common s ∧ step_type s'' = step_type s ∧ step_refs s'' = remap o n <$> step_refs s.
Proof.
  intros Hon Hne (Hc & Ht & Hw & Hr) Hs. destruct (scrubbed_common _ _ _ (scrubStep_spec _ _ _ Hw Hs)) as (Hc' & Ht' & _).
  split_and!; [congruence|congruence|]. rewrite <- Hr. eapply scrubStep_unreferenced; [done| |done].
  rewrite Hr. intros (x & Hx & _)%list_elem_of_fmap. symmetry in Hx. by apply remap_never_old in Hx.
Qed.

(** ** Properties *)

(** The dialog lists one line for every reference to the step, in every place
    a step can refer to another. *)
Theorem references_listed def id :
  length (findReferences def id) = length (List.filter (λ r, String.eqb r id) (wd_steps def ≫= step_refs)).
Proof.
  unfold findReferences. induction (wd_steps def) as [|s l IH]; [done|].
  by rewrite !bind_cons, List.filter_app, !length_app, step_hits_length, IH.
Qed.


