(* ===== verification/StepEdits.v ===== *)
(** * Typed edits of a step (workflow-modeller/src/store/workflowStore.ts)

    [updateStepProperty] writes one member of the object a step is.  When the
    member is one the step's type declares and the value has its type, the
    result is the step with that field replaced: the panels and the canvas are
    verified against these equations. *)

From S2P Require Import Prelude JsObject Types Validate Schema ImportExport Store StoreProps StoreInv.

(** ** Objects that decode alike *)

Lemma zStepObj_ext zod o o' t :
  obj_get o "type" = Some (JStr t) → (∀ k, obj_get o k = obj_get o' k) →
  passthrough (shape_keys t) o = passthrough (shape_keys t) o' → zStepObj zod o = zStepObj zod o'.
Proof.
  intros Ht Hg Hp. unfold zStepObj, zCommon, req, opt, dflt.
  rewrite <- (Hg "type"), Ht. cbn [z_string mbind option_bind]. rewrite Hp, !Hg. done.
Qed.

Lemma zStepObj_extra zod o s :
  zStepObj zod o = Some s → step_extra s = passthrough (shape_keys (step_type s)) o.
Proof.
  intros H. pose proof (zStepObj_type _ _ _ H) as Ht. revert H. unfold zStepObj. rewrite Ht. cbn [mbind option_bind].
  intros H. apply bind_Some in H as (c & Hc & H). unfold zCommon in Hc.
  apply bind_Some in Hc as (? & _ & Hc). apply bind_Some in Hc as (? & _ & Hc). apply bind_Some in Hc as (? & _ & Hc).
  assert (step_common s = c) as Hs; [|unfold step_extra; rewrite Hs; apply (inj Some) in Hc; by rewrite <- Hc]. clear Hc Ht.
  generalize dependent (step_type s). intros type H.
  repeat match type of H with
  | (if String.eqb type ?t then _ else _) = _ => destruct (String.eqb type t)
  end; try (destruct zod; [discriminate H|]); inv_binds; done.
Qed.

Lemma passthrough_set declared key v o :
  includes declared key = true → passthrough declared (obj_set key v o) = passthrough declared o.
Proof.
  intros Hk. unfold passthrough, no_proto, obj_delete, obj_set. rewrite !filter_filter.
  destruct (obj_has o key).
  - induction o as [|[k w] o IH]; [done|]. cbn [obj_replace]. destruct (String.eqb_spec key k) as [->|]; cbn [List.filter fst].
    + by rewrite Hk, andb_false_r.
    + by rewrite IH.
  - induction o as [|[k w] o IH]; cbn [obj_insert_new List.filter fst]; [by rewrite Hk, andb_false_r|].
    destruct (key_before key k); cbn [List.filter fst]; [by rewrite Hk, andb_false_r|]. by rewrite IH.
Qed.

Lemma passthrough_put declared key v o :
  includes declared key = true → passthrough declared (put key v o) = passthrough declared o.
Proof.
  intros Hk. destruct v as [v|]; simpl; [by apply passthrough_set|].
  unfold passthrough, no_proto, obj_delete. rewrite !filter_filter.
  induction o as [|[k w] o IH]; cbn [List.filter fst]; [done|]. rewrite IH.
  destruct (String.eqb_spec key k) as [->|]; cbn [negb andb]; [|done]. by rewrite Hk, andb_false_r.
Qed.

(** ** The result of an edit *)

Lemma updateStep_typed key v s s' :
  step_schema false s = true → step_schema false s' = true →
  step_type s' = step_type s → step_extra s' = step_extra s →
  key ≠ "type" → includes (shape_keys (step_type s)) key = true →
  obj_get (step_obj s') key = v → (∀ k, k ≠ key → obj_get (step_obj s') k = obj_get (step_obj s) k) →
  updateStep key v s = Some s'.
Proof.
  intros Hs%step_roundtrip Hs'%step_roundtrip Ht He Hty Hk Hv Hg. unfold updateStep.
  simpl in Hs, Hs'. rewrite <- Hs'. pose proof (step_obj_type s) as Hso. unfold req, z_string in Hso.
  destruct (obj_get (step_obj s) "type") as [j|] eqn:Ej; [|done]. destruct j; simplify_eq.
  apply (zStepObj_ext _ _ _ (step_type s)).
  - by rewrite put_get.
  - intros k. destruct (decide (k = key)) as [->|Hne]; [by rewrite put_get_eq|]. by rewrite put_get, Hg.
  - rewrite passthrough_put by done. apply zStepObj_extra in Hs, Hs'. rewrite Ht in Hs'. congruence.
Qed.

Lemma updateStepProperty_typed id key v st (f : Step → Step) :
  (∀ s, s ∈ wd_steps (ws_definition st) → step_id s = id → updateStep key v s = Some (f s)) →
  updateStepProperty id key v st =
  Ok (edit (with_steps ((λ s, if String.eqb (step_id s) id then f s else s) <$> wd_steps (ws_definition st))
              (ws_definition st)) st).
Proof.
  intros Hf. unfold updateStepProperty.
  replace (mapM _ _) with (Some ((λ s, if String.eqb (step_id s) id then f s else s) <$> wd_steps (ws_definition st)));
    [done|]. symmetry. apply mapM_Some, Forall2_fmap_r, Forall2_same_length_lookup_2; [done|].
  intros i s s' Hs Hs'. assert (s' = s) as -> by congruence. apply list_elem_of_lookup_2 in Hs.
  destruct (String.eqb (step_id s) id) eqn:E; simpl; rewrite E; [by apply Hf, String.eqb_eq|done].
Qed.

(** ** The fields the canvas and the panels write *)

(** [{ ...step, nextStep }]; a step without the member is left alone here. *)
Definition with_next (n : StepId) (s : Step) : Step :=
  match s with
  | ServiceTaskStep c _ j d r b => ServiceTaskStep c (Some n) j d r b
  | UserTaskStep c _ j b => UserTaskStep c (Some n) j b
  | WaitStep c _ b => WaitStep c n b
  | DecisionTableStep c h _ t => DecisionTableStep c h n t
  | TransformationStep c _ t => TransformationStep c n t
  | JoinGatewayStep c _ => JoinGatewayStep c n
  | _ => s
  end.

Definition has_next (s : Step) : bool :=
  match s with
  | ServiceTaskStep _ _ _ _ _ _ | UserTaskStep _ _ _ _ | WaitStep _ _ _ | DecisionTableStep _ _ _ _
  | TransformationStep _ _ _ | JoinGatewayStep _ _ => true
  | _ => false
  end.

(** Read a member of the object of a step. *)
Ltac step_member :=
  unfold step_obj, step_extra, common_obj; cbn [step_common step_type step_type_str];
  rewrite ?obj_get_app, ?obj_get_ofield.

Ltac other_members :=
  intros k Hk; step_member; cbn [obj_get];
  rewrite ?(proj2 (String.eqb_neq k _) Hk); reflexivity.

Lemma update_nextStep n s :
  step_schema false s = true → has_next s = true →
  updateStep "nextStep" (Some (JStr n)) s = Some (with_next n s).
Proof.
  intros Hs Hn. destruct s as [c nx j d rc b|c nx j b|c m|c h nx t|c nx t|c nx b|c p j|c nx|c|t c]; try done;
    (apply updateStep_typed; [done|done|done|done|done|by vm_compute| |]).
  all: cbn [with_next]; try other_members.
  all: step_member; destruct (sc_description c); try destruct h; reflexivity.
Qed.

Lemma update_branches c m m' :
  step_schema false (DecisionStep c m) = true → no_proto_key m' = true →
  updateStep "conditionalNextSteps" (Some (record_json JStr m')) (DecisionStep c m) = Some (DecisionStep c m').
Proof.
  intros Hs Hm. apply updateStep_typed; try done; [| |other_members].
  - unfold step_schema in *. bool_hyps. apply andb_true_iff. done.
  - step_member. by destruct (sc_description c).
Qed.

Lemma update_targets c p j p' :
  step_schema false (ParallelGatewayStep c p j) = true →
  updateStep "parallelNextSteps" (Some (JArr (JStr <$> p'))) (ParallelGatewayStep c p j) = Some (ParallelGatewayStep c p' j).
Proof.
  intros Hs. apply updateStep_typed; try done; [|other_members].
  step_member. by destruct (sc_description c).
Qed.

Lemma update_table c h n t t' :
  step_schema false (DecisionTableStep c h n t) = true → table_schema false t' = true →
  updateStep "decisionTable" (Some (table_json t')) (DecisionTableStep c h n t) = Some (DecisionTableStep c h n t').
Proof.
  intros Hs Ht. apply updateStep_typed; try done; [| |other_members].
  - unfold step_schema in *. bool_hyps. rewrite !andb_true_iff. done.
  - step_member. by destruct (sc_description c), h.
Qed.

Lemma update_transformations c n t t' :
  step_schema false (TransformationStep c n t) = true → no_proto_key t' = true →
  updateStep "transformations" (Some (record_json id t')) (TransformationStep c n t) = Some (TransformationStep c n t').
Proof.
  intros Hs Ht. apply updateStep_typed; try done; [| |other_members].
  - unfold step_schema in *. bool_hyps. apply andb_true_iff. done.
  - step_member. by destruct (sc_description c).
Qed.

(** [{ ...step, boundaryEvents }] *)
Definition with_events (b : option (list BoundaryEvent)) (s : Step) : Step :=
  match s with
  | ServiceTaskStep c n j d r _ => ServiceTaskStep c n j d r b
  | UserTaskStep c n j _ => UserTaskStep c n j b
  | WaitStep c n _ => WaitStep c n b
  | _ => s
  end.

Definition has_events (s : Step) : bool :=
  match s with ServiceTaskStep _ _ _ _ _ _ | UserTaskStep _ _ _ _ | WaitStep _ _ _ => true | _ => false end.

Lemma update_events b s :
  step_schema false s = true → has_events s = true → events_schema false b = true →
  updateStep "boundaryEvents" (events_json <$> b) s = Some (with_events b s).
Proof.
  intros Hs Hh Hb.
  assert (clean (shape_keys (step_type s)) (step_extra s) = true) as Hc by (unfold step_schema in Hs; by bool_hyps).
  destruct s as [c n j d rc b0|c n j b0| | | |c n b0| | | |]; try done;
    (apply updateStep_typed; [done| |done|done|done|by vm_compute| |]); cbn [with_events]; try other_members.
  all: try (unfold step_schema in *; bool_hyps; rewrite ?andb_true_iff; done).
  all: step_member; destruct (sc_description c), b as [evs|]; try destruct n; try destruct j; try destruct d;
    try destruct rc; cbn -[events_json]; try done.
  all: apply (clean_get _ _ "boundaryEvents") in Hc; [|by vm_compute]; exact Hc.
Qed.
