(* ===== verification/Layout.v ===== *)
(** * What the canvas hands to the layout engine and to the drawing library
    (workflow-modeller/src/canvas/layout.ts, canvas/Canvas.tsx, canvas/nodes/)

    The graph given to ELK, with its ports; the positions read from its
    answer; the nodes and edges given to React Flow, and the handles the node
    components render.  ELK itself is a parameter. *)

From S2P Require Import Prelude JsObject Types Graph Rename Schema ImportExport.

(** ** The input of ELK *)

Inductive Side := WEST | EAST.

Record ElkPort := mkPort { ep_id : string; ep_side : Side }.
Record ElkChild := mkChild { el_id : string; el_width : Z; el_height : Z; el_ports : list ElkPort }.
Record ElkEdge := mkElkEdge { ee_id : string; ee_source : string; ee_target : string }.
Record ElkGraph := mkElkGraph { eg_children : list ElkChild; eg_edges : list ElkEdge }.

(** A child of the answer: [x] and [y] may be missing. *)
Record LaidChild := mkLaid { lc_id : string; lc_x : option jsnum; lc_y : option jsnum }.

Definition NODE_WIDTH : Z := 180.

Definition nodeHeight (node : GraphNode) : Z :=
  match gn_step node with
  | DecisionStep _ m => Z.max 70 (Z.of_nat (length (obj_keys m)) * 28)
  | ParallelGatewayStep _ targets _ => Z.max 70 (Z.of_nat (length targets) * 28)
  | _ => 70
  end.

Definition in_port (id : StepId) : string := id ⊕ "__in".
Definition out_port (id : StepId) : string := id ⊕ "__out".
Definition branch_port (id : StepId) (i : nat) : string := id ⊕ "__branch_" ⊕ str_of_nat i.
Definition parallel_port (id : StepId) (i : string) : string := id ⊕ "__parallel_" ⊕ i.

Definition nodePorts (node : GraphNode) : list ElkPort :=
  mkPort (in_port (gn_id node)) WEST ::
  match gn_step node with
  | DecisionStep _ m => (λ p, mkPort (branch_port (gn_id node) p.1) EAST) <$> indexed (obj_keys m)
  | ParallelGatewayStep _ targets _ =>
      (λ p, mkPort (parallel_port (gn_id node) (str_of_nat p.1)) EAST) <$> indexed targets
  | EndStep _ => []
  | _ => [mkPort (out_port (gn_id node)) EAST]
  end.

(** [arr.indexOf(x)] *)
Fixpoint index_of (l : list string) (x : string) : option nat :=
  match l with
  | [] => None
  | y :: l => if String.eqb y x then Some O else S <$> index_of l x
  end.

Fixpoint str_drop (n : nat) (s : string) : string :=
  match n, s with
  | O, _ => s
  | S n, String _ s => str_drop n s
  | S _, EmptyString => EmptyString
  end.

(** [s.replace(pattern, '')] with a text for pattern: its first occurrence. *)
Fixpoint remove_first (pattern s : string) : string :=
  if String.prefix pattern s then str_drop (String.length pattern) s
  else match s with EmptyString => EmptyString | String c s' => String c (remove_first pattern s') end.

Definition elkSourcePort (edge : GraphEdge) (source : GraphNode) : string :=
  match ge_variant edge, gn_step source with
  | Conditional expression, DecisionStep _ m =>
      branch_port (ge_from edge) (default O (index_of (obj_keys m) expression))
  | Parallel, _ =>
      parallel_port (ge_from edge)
        (match ge_sourceHandle edge with
         | Some h => if truthy_str h then remove_first "parallel:" h else "0"
         | None => "0"
         end)
  | _, _ => out_port (ge_from edge)
  end.

(** [new Map(nodes.map((n) => [n.id, n]))]: the last node of an id wins. *)
Definition nodeById (nodes : list GraphNode) (id : StepId) : option GraphNode :=
  last (List.filter (λ n, String.eqb (gn_id n) id) nodes).

Definition elk_edges (nodes : list GraphNode) (edges : list GraphEdge) : list ElkEdge :=
  edges ≫= λ e,
    match nodeById nodes (ge_from e), nodeById nodes (ge_to e) with
    | Some src, Some _ => [mkElkEdge (ge_id e) (elkSourcePort e src) (in_port (ge_to e))]
    | _, _ => []
    end.

Definition elk_graph (nodes : list GraphNode) (edges : list GraphEdge) : ElkGraph :=
  mkElkGraph ((λ n, mkChild (gn_id n) NODE_WIDTH (nodeHeight n) (nodePorts n)) <$> nodes)
    (elk_edges nodes edges).

Definition read_positions (laid : option (list LaidChild)) : Layout :=
  fold_left
    (λ positions child,
       match lc_x child, lc_y child with
       | Some x, Some y => obj_assign (lc_id child) (mkPos x y) positions
       | _, _ => positions
       end)
    (default [] laid) [].

Definition layoutWithElk (elk_layout : ElkGraph → option (list LaidChild)) (nodes : list GraphNode)
    (edges : list GraphEdge) : Layout :=
  match nodes with
  | [] => []
  | _ => read_positions (elk_layout (elk_graph nodes edges))
  end.

(** ** The nodes and edges of React Flow *)

(** The position is [None] when what is read from the layout is a member every
    object inherits, which has no coordinates. *)
Record FlowNode := mkFlowNode {
  fn_id : string; fn_type : string; fn_position : option Pos; fn_step : Step; fn_isEntry : bool
}.

Record FlowEdge := mkFlowEdge {
  fe_id : string; fe_source : string; fe_target : string; fe_type : string;
  fe_sourceHandle : option string; fe_data : obj json
}.

Definition origin : Pos := mkPos (num_of_Z 0) (num_of_Z 0).

(** [layout[id] ?? { x: 0, y: 0 }] *)
Definition position_of (layout : Layout) (id : StepId) : option Pos :=
  match obj_get layout id with
  | Some p => Some p
  | None => if inherited id then None else Some origin
  end.

Definition mapToFlowNodes (nodes : list GraphNode) (layout : Layout) : list FlowNode :=
  (λ n, mkFlowNode (gn_id n) (gn_type n) (position_of layout (gn_id n)) (gn_step n) (gn_isEntry n)) <$> nodes.

Definition boundaryEventFor (step : Step) (index : nat) : option BoundaryEvent :=
  match step with
  | ServiceTaskStep _ _ _ _ _ b | UserTaskStep _ _ _ b | WaitStep _ _ b => events_of b !! index
  | _ => None
  end.

Definition flow_data (nodes : list GraphNode) (e : GraphEdge) : obj json :=
  match ge_variant e with
  | Conditional expression => [("expression", JStr expression)]
  | Boundary index =>
      match (source ← nodeById nodes (ge_from e); boundaryEventFor (gn_step source) index) with
      | Some evt => [("duration", JStr (be_duration evt)); ("interrupting", JBool (be_interrupting evt))]
      | None => [("interrupting", JBool false)]
      end
  | _ => []
  end.

Definition mapToFlowEdges (edges : list GraphEdge) (nodes : list GraphNode) : list FlowEdge :=
  (λ e, mkFlowEdge (ge_id e) (ge_from e) (ge_to e) (variant_kind (ge_variant e)) (ge_sourceHandle e)
          (flow_data nodes e)) <$> edges.

(** ** The handles a node renders *)

Inductive Shape := Rect | Circle | Diamond | DiamondSm.

Definition isDiamond (s : Shape) : bool := match s with Diamond | DiamondSm => true | _ => false end.

Definition target_handles (shape : Shape) : list string :=
  "in" :: (if isDiamond shape then [] else ["in-top"]) ++ ["in-right"; "in-bottom"] ++
  (if isDiamond shape then ["in-edge-tl"; "in-c-right"; "in-c-bottom"; "in-c-left"] else []).

Definition isSingleOut (source : list string) : bool :=
  match source with [s] => String.eqb s "out" | _ => false end.

Definition source_handles (shape : Shape) (source : list string) : list string :=
  source ++
  (if (isSingleOut source && negb (isDiamond shape))%bool then ["out-top"; "out-bottom"; "out-left"] else []) ++
  (if isDiamond shape
   then ["out-c-top"; "out-c-right"; "out-c-left"; "out-edge-tl"; "out-edge-tr"; "out-edge-br"; "out-edge-bl"]
   else []).

(** The main source handles of the nodes with branches. *)
Definition decision_source (m : obj StepId) : list string :=
  match obj_keys m with [] => ["out"] | ks => (λ expr, "branch:" ⊕ expr) <$> ks end.

Definition parallel_source (targets : list StepId) : list string :=
  match targets with [] => ["out"] | _ => (λ p, "parallel:" ⊕ str_of_nat p.1) <$> indexed targets end.

(** The shape and the main source handles each node component passes on. *)
Definition node_shell (step : Step) : Shape * list string :=
  match step with
  | DecisionStep _ m => (Diamond, decision_source m)
  | ParallelGatewayStep _ targets _ => (DiamondSm, parallel_source targets)
  | JoinGatewayStep _ _ => (DiamondSm, ["out"])
  | WaitStep _ _ _ => (Circle, ["out"])
  | EndStep _ => (Rect, [])
  | _ => (Rect, ["out"])
  end.

(** ** Port ids

    The suffixes of port ids have no two underscores in a row, so that the
    step and the suffix can be read back from a port id. *)

Fixpoint no_double (s : string) : bool :=
  match s with
  | String c (String d _ as s') =>
      negb (Ascii.eqb c "_" && Ascii.eqb d "_") && no_double s'
  | _ => true
  end.

Lemma no_double_cons c s : no_double (String c s) = true → no_double s = true.
Proof. destruct s; simpl; [done|]. intros [_ ?]%andb_true_iff. done. Qed.

Lemma double_inside s t : no_double (s ⊕ "__" ⊕ t) = false.
Proof.
  apply not_true_iff_false. induction s as [|c s IH]; [done|].
  cbn [String.append]. intros H%no_double_cons. by apply IH.
Qed.

Lemma port_id_inj x y a b :
  no_double ("_" ⊕ a) = true → no_double ("_" ⊕ b) = true →
  x ⊕ "__" ⊕ a = y ⊕ "__" ⊕ b → x = y ∧ a = b.
Proof.
  intros Ha Hb. revert y. induction x as [|c x IH]; intros [|d y] H; cbn [String.append] in H.
  - split; [done|]. by apply (append_inj_r "__").
  - injection H as _ H. pose proof (double_inside y b) as Hd. change (("_" ⊕ a) = y ⊕ "__" ⊕ b) in H. congruence.
  - injection H as _ H. pose proof (double_inside x a) as Hd. change (x ⊕ "__" ⊕ a = ("_" ⊕ b)) in H. congruence.
  - injection H as -> H. destruct (IH _ H) as [-> ->]. done.
Qed.

Definition not_underscore (c : ascii) : bool := negb (Ascii.eqb c "_").

Lemma str_of_nat_no_underscore n : all_chars not_underscore (str_of_nat n) = true.
Proof. by apply str_of_nat_chars. Qed.

Lemma no_double_plain s : all_chars not_underscore s = true → no_double (String "_" s) = true.
Proof.
  assert (∀ s, all_chars not_underscore s = true → no_double s = true) as Hp.
  { clear. induction s as [|c [|d s] IH]; [done|done|]. intros H. change (negb (Ascii.eqb c "_" && Ascii.eqb d "_") && no_double (String d s) = true)%bool.
    cbn [all_chars] in *. apply andb_true_iff in H as [Hc%negb_true_iff H]. rewrite Hc. by apply IH. }
  intros H. destruct s as [|d s]; [done|].
  change (negb (Ascii.eqb "_" "_" && Ascii.eqb d "_") && no_double (String d s) = true)%bool.
  rewrite (Hp _ H), andb_true_r. cbn [all_chars] in H. apply andb_true_iff in H as [Hd%negb_true_iff _]. by rewrite Hd.
Qed.

Lemma remove_first_prefix p t : remove_first p (p ⊕ t) = t.
Proof.
  assert (String.prefix p (p ⊕ t) = true) as Hp.
  { induction p as [|c p IH]; [by destruct t|]. simpl. destruct (ascii_dec c c); done. }
  assert (str_drop (String.length p) (p ⊕ t) = t) as Hd by (clear; induction p; done).
  destruct (p ⊕ t) eqn:E; cbn [remove_first]; rewrite Hp; done.
Qed.

Definition port_suffixes (s : Step) : list string :=
  "in" ::
  match s with
  | DecisionStep _ m => (λ p, "branch_" ⊕ str_of_nat p.1) <$> indexed (obj_keys m)
  | ParallelGatewayStep _ targets _ => (λ p, "parallel_" ⊕ str_of_nat p.1) <$> indexed targets
  | EndStep _ => []
  | _ => ["out"]
  end.

Lemma nodePorts_ids n : ep_id <$> nodePorts n = (λ s, gn_id n ⊕ "__" ⊕ s) <$> port_suffixes (gn_step n).
Proof.
  unfold nodePorts, port_suffixes. rewrite !fmap_cons. f_equal.
  destruct (gn_step n); rewrite <- ?list_fmap_compose; done.
Qed.

Lemma indexed_fst_NoDup {A} (l : list A) : NoDup (indexed l).*1.
Proof.
  unfold indexed. assert ((imap pair l).*1 = seq 0 (length l)) as ->; [|apply NoDup_ListNoDup, List.seq_NoDup].
  apply list_eq. intros i. rewrite list_lookup_fmap, list_lookup_imap.
  destruct (l !! i) eqn:E; simpl.
  - symmetry. apply lookup_seq. split; [done|]. by apply lookup_lt_Some in E.
  - symmetry. apply lookup_seq_ge. by apply lookup_ge_None in E.
Qed.

Lemma numbered_NoDup {A} (prefix : string) (l : list A) :
  NoDup ((λ p, prefix ⊕ str_of_nat p.1) <$> indexed l).
Proof.
  change (λ p : nat * A, prefix ⊕ str_of_nat p.1) with ((λ i, prefix ⊕ str_of_nat i) ∘ @fst nat A).
  rewrite list_fmap_compose. apply NoDup_fmap_2; [|apply indexed_fst_NoDup].
  intros i j H%append_inj_r. by apply str_of_nat_inj.
Qed.

Lemma numbered_starts {A} c (prefix : string) (l : list A) x :
  x ∈ (λ p, String c prefix ⊕ str_of_nat p.1) <$> indexed l → ∃ t, x = String c t.
Proof. intros (p & -> & _)%list_elem_of_fmap. eexists. reflexivity. Qed.

Lemma port_suffixes_NoDup s : NoDup (port_suffixes s).
Proof.
  destruct s; unfold port_suffixes; try (apply (bool_decide_unpack _); vm_compute; exact I);
    (constructor; [|apply numbered_NoDup]);
    intros H; apply (numbered_starts _ _ _ _) in H as [t Ht]; discriminate Ht.
Qed.

Lemma port_suffixes_plain s x : x ∈ port_suffixes s → no_double ("_" ⊕ x) = true.
Proof.
  unfold port_suffixes. rewrite elem_of_cons. intros [->|H]; [done|].
  destruct s; try (apply list_elem_of_singleton in H as ->; done); try set_solver;
    apply list_elem_of_fmap in H as ([i y] & -> & _);
    pose proof (no_double_plain _ (str_of_nat_no_underscore i)) as Hd; exact Hd.
Qed.

Lemma ports_NoDup (nodes : list GraphNode) :
  NoDup (gn_id <$> nodes) → NoDup (ep_id <$> (nodes ≫= nodePorts)).
Proof.
  intros Hnd.
  assert (ep_id <$> (nodes ≫= nodePorts) = nodes ≫= λ n, (λ s, gn_id n ⊕ "__" ⊕ s) <$> port_suffixes (gn_step n)) as Hb.
  { clear. induction nodes as [|n l IH]; [done|]. by rewrite !bind_cons, fmap_app, nodePorts_ids, IH. }
  rewrite Hb. apply NoDup_bind.
  - intros n m y Hn Hm (a & -> & Ha)%list_elem_of_fmap (b & Hy & Hb')%list_elem_of_fmap.
    apply port_id_inj in Hy as [Hid _]; [|by eapply port_suffixes_plain..].
    apply list_elem_of_lookup in Hn as [i Hi], Hm as [j Hj].
    assert (i = j); [|congruence].
    eapply (NoDup_lookup _ i j (gn_id n)); [exact Hnd| |]; rewrite list_lookup_fmap, ?Hi, ?Hj; simpl; congruence.
  - intros n _. apply NoDup_fmap_2; [|apply port_suffixes_NoDup]. intros a b H%append_inj_r.
    by apply (append_inj_r "__").
  - by eapply NoDup_fmap_1.
Qed.

(** ** Ports and edges *)

Lemma index_of_lookup l i x : NoDup l → l !! i = Some x → index_of l x = Some i.
Proof.
  revert i. induction l as [|y l IH]; intros i Hnd Hi; [done|]. apply NoDup_cons in Hnd as [Hy Hnd]. simpl.
  destruct (String.eqb_spec y x) as [->|Hne].
  - destruct i as [|i]; [done|]. destruct Hy. simpl in Hi. by eapply list_elem_of_lookup_2.
  - destruct i as [|i]; [naive_solver|]. by rewrite (IH i).
Qed.

(** The east ports of a node, in order. *)
Definition east_ports (n : GraphNode) : list string := ep_id <$> tail (nodePorts n).

(** The edges of a decision and of a parallel gateway take its ports one by
    one, in order. *)
Lemma branch_edges_ports n c m :
  gn_step n = DecisionStep c m → gn_id n = sc_id c → obj_wf m = true →
  (λ e, elkSourcePort e n) <$> step_edges (DecisionStep c m) = east_ports n.
Proof.
  intros Hs Hid Hwf%keys_ok_NoDup. unfold step_edges, east_ports, nodePorts. cbn [pushStepEdges tail]. rewrite Hs, app_nil_l.
  rewrite <- !list_fmap_compose. apply list_eq. intros i. rewrite !list_lookup_fmap. unfold indexed.
  rewrite list_lookup_imap. unfold obj_keys at 1. rewrite list_lookup_fmap.
  destruct (m !! i) as [[k v]|] eqn:E; [|done]. simpl. unfold elkSourcePort. simpl. rewrite Hs, Hid.
  rewrite (index_of_lookup _ i); [done|done|]. unfold obj_keys. by rewrite list_lookup_fmap, E.
Qed.

Lemma parallel_edges_ports n c p j :
  gn_step n = ParallelGatewayStep c p j → gn_id n = sc_id c →
  (λ e, elkSourcePort e n) <$> step_edges (ParallelGatewayStep c p j) = east_ports n.
Proof.
  intros Hs Hid. unfold step_edges, east_ports, nodePorts. cbn [pushStepEdges tail]. rewrite Hs, app_nil_l.
  rewrite <- !list_fmap_compose. apply list_fmap_ext. intros _ [i t] _.
  unfold elkSourcePort. cbn -[remove_first str_of_nat]. rewrite Hid.
  change (truthy_str ("parallel:" ⊕ str_of_nat i)) with true. cbn iota.
  by rewrite remove_first_prefix.
Qed.

Lemma boundary_edges id b e :
  e ∈ pushBoundaryEdges id b [] → ∃ i t, e = makeEdge id t (Boundary i).
Proof.
  destruct b as [evs|]; simpl; [|set_solver]. intros ([i t] & -> & _)%list_elem_of_fmap. eauto.
Qed.

Lemma step_edge_port n e :
  gn_id n = step_id (gn_step n) → step_wf (gn_step n) = true → e ∈ step_edges (gn_step n) →
  ge_from e = gn_id n ∧ elkSourcePort e n ∈ east_ports n.
Proof.
  intros Hid Hwf He. destruct (gn_step n) as [c nx j d rc b|c nx j b|c m|c h nx t|c nx t|c nx b|c p j|c nx|c|t c] eqn:Hs.
  3: { split; [|rewrite <- (branch_edges_ports n c m); [|done|done|simpl in Hwf; by bool_hyps]; by apply (list_elem_of_fmap_2 (λ e, elkSourcePort e n))].
       unfold step_edges in He. cbn [pushStepEdges] in He. rewrite app_nil_l in He. by apply list_elem_of_fmap in He as ([k v] & -> & _). }
  6: { split; [|rewrite <- (parallel_edges_ports n c p j) by done; by apply (list_elem_of_fmap_2 (λ e, elkSourcePort e n))].
       unfold step_edges in He. cbn [pushStepEdges] in He. rewrite app_nil_l in He. by apply list_elem_of_fmap in He as ([k v] & -> & _). }
  all: unfold step_edges in He; cbn [pushStepEdges] in He; rewrite ?app_nil_l in He; try set_solver.
  all: unfold east_ports, nodePorts; rewrite Hs; cbn [tail fmap list_fmap ep_id].
  all: assert ((∃ t v, e = makeEdge (gn_id n) t v ∧ match v with Parallel | Conditional _ => False | _ => True end)
               → ge_from e = gn_id n ∧ elkSourcePort e n ∈ [out_port (gn_id n)]) as Hout
    by (intros (t' & v & -> & Hv); split; [done|]; destruct v; try done; unfold elkSourcePort; simpl; set_solver).
  all: apply Hout; rewrite Hid; try (apply list_elem_of_singleton in He as ->; by do 2 eexists).
  all: rewrite pushBoundaryEdges_app in He; apply elem_of_app in He as [He|He];
    [|destruct (boundary_edges _ _ _ He) as (i & t' & ->); by do 2 eexists].
  1,2: destruct nx as [nx|]; [|set_solver]; destruct (truthy_str nx); [|set_solver].
  all: apply list_elem_of_singleton in He as ->; by do 2 eexists.
Qed.

(** ** The nodes of a definition *)

Lemma toNodes_steps def : gn_step <$> toNodes def = wd_steps def.
Proof.
  unfold toNodes. rewrite <- list_fmap_compose. apply list_eq. intros i. unfold indexed.
  rewrite list_lookup_fmap, list_lookup_imap. by destruct (wd_steps def !! i).
Qed.

Lemma toNodes_elem def n :
  n ∈ toNodes def → gn_id n = step_id (gn_step n) ∧ gn_step n ∈ wd_steps def.
Proof.
  intros Hn. split.
  - unfold toNodes in Hn. by apply list_elem_of_fmap in Hn as ([i s] & -> & _).
  - rewrite <- toNodes_steps. by apply list_elem_of_fmap_2.
Qed.

Lemma toNodes_ids def : gn_id <$> toNodes def = step_ids def.
Proof.
  unfold step_ids. rewrite <- toNodes_steps, <- list_fmap_compose. apply list_fmap_ext.
  intros i n Hn%list_elem_of_lookup_2. by apply toNodes_elem in Hn as [-> _].
Qed.

Lemma nodeById_Some nodes id n : nodeById nodes id = Some n → n ∈ nodes ∧ gn_id n = id.
Proof.
  unfold nodeById. intros H%last_Some_elem_of. apply list_elem_of_In, List.filter_In in H as [Hn Hid].
  by apply list_elem_of_In in Hn; apply String.eqb_eq in Hid.
Qed.

Lemma nodeById_is_Some nodes id : is_Some (nodeById nodes id) ↔ id ∈ gn_id <$> nodes.
Proof.
  split.
  - intros [n Hn]. apply nodeById_Some in Hn as [Hn <-]. by apply list_elem_of_fmap_2.
  - intros (n & -> & Hn)%list_elem_of_fmap. unfold nodeById. rewrite last_is_Some. intros H.
    apply (filter_nil_Forall (λ m, String.eqb (gn_id m) (gn_id n))) in H. rewrite Forall_forall in H.
    specialize (H _ Hn). by rewrite String.eqb_refl in H.
Qed.

Lemma toEdges_elem def e : e ∈ toEdges def ↔ ∃ s, e ∈ step_edges s ∧ s ∈ wd_steps def.
Proof. by rewrite toEdges_flat, list_elem_of_bind. Qed.

(** With unique ids the node of an edge is the node of the step it came from. *)
Lemma edge_node def e s n :
  NoDup (step_ids def) → s ∈ wd_steps def → ge_from e = step_id s →
  nodeById (toNodes def) (ge_from e) = Some n → gn_step n = s.
Proof.
  intros Hnd Hs Hf [Hn Hid]%nodeById_Some. destruct (toNodes_elem _ _ Hn) as [Hid' Hs'].
  apply list_elem_of_lookup in Hs as [i Hi], Hs' as [j Hj]. unfold step_ids in Hnd.
  assert (i = j); [|congruence].
  eapply (NoDup_lookup _ i j (step_id s)); [exact Hnd| |]; rewrite list_lookup_fmap, ?Hi, ?Hj; simpl; congruence.
Qed.

Lemma step_edges_from s e : e ∈ step_edges s → ge_from e = step_id s.
Proof.
  unfold step_edges. intros He.
  destruct s as [c nx j d rc b|c nx j b|c m|c h nx t|c nx t|c nx b|c p j|c nx|c|t c]; cbn [pushStepEdges] in He;
    rewrite ?app_nil_l in He; try set_solver;
    try (rewrite pushBoundaryEdges_app in He; apply elem_of_app in He as [He|He];
         [|by destruct (boundary_edges _ _ _ He) as (i & t' & ->)]).
  1,2: destruct nx as [nx|]; [|set_solver]; destruct (truthy_str nx); [|set_solver].
  all: try by apply list_elem_of_singleton in He as ->.
  all: by apply list_elem_of_fmap in He as ([k v] & -> & _).
Qed.

(** The children and ports of the graph are those of the nodes. *)
Lemma graph_ports nodes edges :
  eg_children (elk_graph nodes edges) ≫= el_ports = nodes ≫= nodePorts.
Proof. simpl. induction nodes as [|n l IH]; [done|]. by rewrite fmap_cons, !bind_cons, IH. Qed.

Lemma east_port_of n x :
  x ∈ east_ports n → ∃ p, p ∈ nodePorts n ∧ ep_side p = EAST ∧ ep_id p = x.
Proof.
  unfold east_ports. intros (p & -> & Hp)%list_elem_of_fmap. exists p. split; [unfold nodePorts in *; set_solver|].
  split; [|done]. unfold nodePorts in Hp. cbn [tail] in Hp.
  destruct (gn_step n); try (apply list_elem_of_singleton in Hp as ->; done); try set_solver;
    by apply list_elem_of_fmap in Hp as ([i y] & -> & _).
Qed.

Section connected.
Context (def : WorkflowDefinition) (Hwf : Forall (λ s, step_wf s = true) (wd_steps def)) (Hnd : NoDup (step_ids def)).

(** What becomes of one edge of the definition. *)
Lemma elk_edge_of e :
  e ∈ toEdges def →
  ∃ n, n ∈ toNodes def ∧ nodeById (toNodes def) (ge_from e) = Some n ∧ elkSourcePort e n ∈ east_ports n.
Proof.
  intros (s & He & Hs)%toEdges_elem. pose proof (step_edges_from _ _ He) as Hf.
  assert (is_Some (nodeById (toNodes def) (ge_from e))) as [n Hn].
  { apply nodeById_is_Some. rewrite toNodes_ids, Hf. by apply list_elem_of_fmap_2. }
  exists n. pose proof (edge_node _ _ _ _ Hnd Hs Hf Hn) as Hst. apply nodeById_Some in Hn as Hn'. destruct Hn' as [Hin _].
  split; [done|]. split; [done|]. destruct (toNodes_elem _ _ Hin) as [Hid _].
  apply step_edge_port; [done| |by rewrite Hst]. rewrite Hst. rewrite Forall_forall in Hwf. by apply Hwf.
Qed.

Lemma target_known e : is_Some (nodeById (toNodes def) (ge_to e)) ↔ includes (step_ids def) (ge_to e) = true.
Proof. by rewrite nodeById_is_Some, toNodes_ids, includes_true. Qed.

Lemma elk_edges_ids l :
  (∀ e, e ∈ l → e ∈ toEdges def) →
  ee_id <$> elk_edges (toNodes def) l = ge_id <$> List.filter (λ e, includes (step_ids def) (ge_to e)) l.
Proof.
  induction l as [|e l IH]; intros Hl; [done|]. unfold elk_edges in *. rewrite bind_cons, fmap_app, IH by set_solver.
  destruct (elk_edge_of e) as (n & _ & -> & _); [set_solver|].
  pose proof (target_known e) as Ht. simpl. destruct (nodeById _ (ge_to e)) as [m|], (includes _ (ge_to e)); try done.
  - discriminate (proj1 Ht (mk_is_Some _ _ eq_refl)).
  - destruct (proj2 Ht eq_refl) as [? [=]].
Qed.
End connected.

(** ** Properties *)

(** The graph handed to the layout engine is connected as the definition
    is: port ids are distinct; every edge leaves an east port of a node and
    enters a west port; and the edges are those of the definition, in order,
    without exactly those whose target is no step of the definition. *)
Theorem layout_input_connected def :
  def_wf def = true → NoDup (step_ids def) →
  let g := elk_graph (toNodes def) (toEdges def) in
  NoDup (ep_id <$> (eg_children g ≫= el_ports)) ∧
  ee_id <$> eg_edges g = ge_id <$> List.filter (λ e, includes (step_ids def) (ge_to e)) (toEdges def) ∧
  ∀ e, e ∈ eg_edges g →
    (∃ c p, c ∈ eg_children g ∧ p ∈ el_ports c ∧ ep_side p = EAST ∧ ep_id p = ee_source e) ∧
    (∃ c p, c ∈ eg_children g ∧ p ∈ el_ports c ∧ ep_side p = WEST ∧ ep_id p = ee_target e).
Proof.
  intros HF%def_wf_Forall Hnd g.
  split; [unfold g; rewrite graph_ports; apply ports_NoDup; by rewrite toNodes_ids|].
  split; [by apply elk_edges_ids|]. intros e (e0 & He & Hin)%list_elem_of_bind.
  destruct (elk_edge_of def HF Hnd e0 Hin) as (n & Hn & Hfrom & Hport). rewrite Hfrom in He.
  destruct (nodeById _ (ge_to e0)) as [m|] eqn:Hto; [|set_solver]. apply list_elem_of_singleton in He as ->.
  apply nodeById_Some in Hto as [Hm Hmid]. split.
  - destruct (east_port_of _ _ Hport) as (p & Hp & Hside & Hid).
    exists (mkChild (gn_id n) NODE_WIDTH (nodeHeight n) (nodePorts n)), p. split_and!; try done.
    simpl. by apply (list_elem_of_fmap_2 (λ n, mkChild (gn_id n) NODE_WIDTH (nodeHeight n) (nodePorts n))).
  - exists (mkChild (gn_id m) NODE_WIDTH (nodeHeight m) (nodePorts m)), (mkPort (in_port (gn_id m)) WEST).
    split_and!; [|by left|done|simpl; by rewrite Hmid].
    by apply (list_elem_of_fmap_2 (λ n, mkChild (gn_id n) NODE_WIDTH (nodeHeight n) (nodePorts n))).
Qed.

Lemma layout_input_connected_witness :
  NoDup (ep_id <$> (eg_children (elk_graph (toNodes order_def) (toEdges order_def)) ≫= el_ports)) ∧
  ee_source <$> eg_edges (elk_graph (toNodes order_def) (toEdges order_def)) =
    ["reserve__out"; "reserve__out"; "enrich__out"; "score__out"; "check__branch_0"; "check__branch_1";
     "split__parallel_0"; "split__parallel_1"; "pay__out"; "pack__out"; "merge__out"].
Proof.
  destruct (layout_input_connected order_def) as (H & _).
  - vm_compute; reflexivity.
  - apply (bool_decide_unpack _). vm_compute. exact I.
  - split; [exact H|vm_compute; reflexivity].
Defined.

(** The branches of a decision and of a parallel gateway leave by one port
    each, from top to bottom in the order of the definition, so no two
    branches share a port and no port is left over. *)
Theorem branch_ports_in_order n :
  gn_id n = step_id (gn_step n) → step_wf (gn_step n) = true →
  match gn_step n with DecisionStep _ _ | ParallelGatewayStep _ _ _ => True | _ => False end →
  (λ e, elkSourcePort e n) <$> step_edges (gn_step n) = east_ports n.
Proof.
  intros Hid Hwf Hs. destruct (gn_step n) as [| |c m| | | |c p j| | |] eqn:E; try done.
  - apply branch_edges_ports; [done|done|]. simpl in Hwf. by bool_hyps.
  - by apply parallel_edges_ports.
Qed.

Lemma branch_ports_in_order_witness :
  (λ e, elkSourcePort e (mkNode "check" "DECISION" "Check" false (DecisionStep (common "check" "Check") [("a", "x"); ("b", "x")])))
    <$> step_edges (DecisionStep (common "check" "Check") [("a", "x"); ("b", "x")]) = ["check__branch_0"; "check__branch_1"].
Proof.
  refine (branch_ports_in_order
    (mkNode "check" "DECISION" "Check" false (DecisionStep (common "check" "Check") [("a", "x"); ("b", "x")])) _ _ _);
    [reflexivity|vm_compute; reflexivity|exact I].
Defined.

Lemma step_edge_handle s e :
  e ∈ step_edges s →
  match ge_sourceHandle e with Some h => h ∈ (node_shell s).2 | None => (node_shell s).2 = ["out"] end.
Proof.
  unfold step_edges. intros He.
  destruct s as [c nx j d rc b|c nx j b|c m|c h nx t|c nx t|c nx b|c p j|c nx|c|t c]; cbn [pushStepEdges] in He;
    rewrite ?app_nil_l in He; try set_solver;
    try (rewrite pushBoundaryEdges_app in He; apply elem_of_app in He as [He|He];
         [|by destruct (boundary_edges _ _ _ He) as (i & t' & ->)]).
  1,2: destruct nx as [nx|]; [|set_solver]; destruct (truthy_str nx); [|set_solver].
  all: try by apply list_elem_of_singleton in He as ->.
  - apply list_elem_of_fmap in He as ([k v] & -> & Hin). cbn [node_shell decision_source parallel_source snd ge_sourceHandle with_handle].
    destruct m as [|p m]; [set_solver|].
    change (("branch:" ⊕ k) ∈ ((λ expr, "branch:" ⊕ expr) <$> (p :: m).*1)).
    apply (list_elem_of_fmap_2 (λ expr, "branch:" ⊕ expr)). by apply (list_elem_of_fmap_2 fst) in Hin.
  - apply list_elem_of_fmap in He as ([i v] & -> & Hin). cbn [node_shell decision_source parallel_source snd ge_sourceHandle with_handle].
    destruct p as [|q p]; [by apply elem_of_indexed in Hin|].
    by apply (list_elem_of_fmap_2 (λ p : nat * StepId, "parallel:" ⊕ str_of_nat p.1)) in Hin.
Qed.

(** Every edge given to the drawing library names a handle the node of its
    source renders; an edge that names none comes from a node with the single
    handle "out". *)
Theorem edges_have_handles def e :
  e ∈ mapToFlowEdges (toEdges def) (toNodes def) →
  ∃ s, s ∈ wd_steps def ∧ step_id s = fe_source e ∧
    match fe_sourceHandle e with Some h => h ∈ (node_shell s).2 | None => (node_shell s).2 = ["out"] end.
Proof.
  intros (e0 & -> & (s & He & Hs)%toEdges_elem)%list_elem_of_fmap. exists s. split; [done|].
  split; [simpl; symmetry; by apply step_edges_from|]. simpl. by apply step_edge_handle.
Qed.
