(* ===== verification/Canvas.v ===== *)
(** * The canvas (workflow-modeller/src/canvas/Canvas.tsx)

    The handlers that change the store: dropping a step from the palette,
    connecting two nodes, rerouting an edge, dragging a node.  Connecting from
    a decision asks for the branch expression; [between] is what happens to
    the store while the prompt is open.

    The effect that asks ELK for missing positions is a state machine: it runs
    again whenever one of its dependencies is another object than before, and
    running it again cancels the request under way. *)

From S2P Require Import Prelude JsObject Types Graph Rename Validate Schema ImportExport Store StoreProps StoreInv StepEdits Layout.

(** ** Handlers *)

Definition parse_step_type (raw : string) : option StepType :=
  List.find (λ t, String.eqb (step_type_str t) raw)
    [SERVICE_TASK; USER_TASK; DECISION; DECISION_TABLE; TRANSFORMATION; WAIT; PARALLEL_GATEWAY; JOIN_GATEWAY; END_].

Definition onDrop (raw : string) (position : Pos) (st : WorkflowState) : Result WorkflowState :=
  if negb (truthy_str raw) then Ok st
  else
    match parse_step_type raw with
    | None => Ok st
    | Some type =>
        match addStep (mkTemplate type None None) st with
        | Some (st, id) => Ok (setLayout id position st)
        | None => IllTyped
        end
    end.

Definition find_step (id : StepId) (def : WorkflowDefinition) : option Step :=
  List.find (λ s, String.eqb (step_id s) id) (wd_steps def).

(** [answer] is what the prompt resolves to. *)
Definition onConnect (source target : option string) (answer : option string)
    (between : WorkflowState → WorkflowState) (st : WorkflowState) : Result WorkflowState :=
  match source, target with
  | Some source, Some target =>
      if (negb (truthy_str source) || negb (truthy_str target) || String.eqb source target)%bool then Ok st
      else
        match find_step source (ws_definition st) with
        | None => Ok st
        | Some src =>
            match src with
            | ServiceTaskStep _ _ _ _ _ _ | UserTaskStep _ _ _ _ | WaitStep _ _ _ | TransformationStep _ _ _
            | JoinGatewayStep _ _ | DecisionTableStep _ _ _ _ =>
                updateStepProperty source "nextStep" (Some (JStr target)) st
            | DecisionStep _ m =>
                if truthy_ostr answer
                then updateStepProperty source "conditionalNextSteps"
                       (Some (record_json JStr (obj_set (default EmptyString answer) target m))) (between st)
                else Ok (between st)
            | ParallelGatewayStep _ targets _ =>
                if includes targets target then Ok st
                else updateStepProperty source "parallelNextSteps" (Some (JArr (JStr <$> (targets ++ [target])))) st
            | EndStep _ | UnknownTypeStep _ _ => Ok st
            end
        end
  | _, _ => Ok st
  end.

(** [onReconnect]: the handles of the edge are overridden. *)
Definition onReconnect (edge : string) (sourceHandle targetHandle : json) (st : WorkflowState) : WorkflowState :=
  setEdgeHandle edge (JObj [("sourceHandle", sourceHandle); ("targetHandle", targetHandle)]) st.

Definition onNodeClick (id : StepId) : WorkflowState → WorkflowState := select (SelStep id).
Definition onPaneClick : WorkflowState → WorkflowState := select SelNone.
Definition onNodeDragStop (id : StepId) (position : Pos) : WorkflowState → WorkflowState := setLayout id position.

(** ** The effect that lays out new nodes *)

(** The effect runs again when one of its dependencies is another object than at
    its last run, so the objects have an identity beside their contents. *)
Record CanvasState := mkCanvas {
  cv_nodes : list GraphNode;
  cv_edges : list GraphEdge;
  cv_graph_ref : nat;          (* [nodes] and [edges], made together of a definition *)
  cv_stored : Layout;          (* the layout of the store *)
  cv_stored_ref : nat;
  cv_elk : Layout;             (* elkLayout *)
  cv_elk_ref : nat;
  cv_next : nat;               (* the identity of the next object made *)
  cv_ran : option (nat * nat * nat);   (* the dependencies of the last run *)
  cv_request : option (list GraphNode * list GraphEdge)
                               (* the input of a request that is not cancelled *)
}.

Definition deps (c : CanvasState) : nat * nat * nat := (cv_graph_ref c, cv_stored_ref c, cv_elk_ref c).

(** Whether React runs the effect. *)
Definition changed (c : CanvasState) : bool := negb (bool_decide (cv_ran c = Some (deps c))).

Definition missing (c : CanvasState) : bool :=
  existsb (λ n, negb (obj_in (gn_id n) (cv_stored c)) && negb (obj_in (gn_id n) (cv_elk c)))%bool (cv_nodes c).

(** [setElkLayout(positions)], with an object made just now *)
Definition setElkLayout (positions : Layout) (c : CanvasState) : CanvasState :=
  mkCanvas (cv_nodes c) (cv_edges c) (cv_graph_ref c) (cv_stored c) (cv_stored_ref c) positions (cv_next c) (S (cv_next c))
    (cv_ran c) (cv_request c).

(** The effect has run with the dependencies of this render; the request of the
    run before is cancelled. *)
Definition ran (request : option (list GraphNode * list GraphEdge)) (c : CanvasState) : CanvasState :=
  mkCanvas (cv_nodes c) (cv_edges c) (cv_graph_ref c) (cv_stored c) (cv_stored_ref c) (cv_elk c) (cv_elk_ref c) (cv_next c)
    (Some (deps c)) request.

(** One run of the effect. *)
Definition run_effect (c : CanvasState) : CanvasState :=
  match cv_nodes c with
  | [] => setElkLayout [] (ran None c)
  | _ => ran (if missing c then Some (cv_nodes c, cv_edges c) else None) c
  end.

(** The positions to add to the store. *)
Definition toSave (positions current : Layout) : Layout :=
  obj_from_entries (List.filter (λ p, negb (obj_in p.1 current)) positions).

(** The layout of the store is another object. *)
Definition layout_set (layout : Layout) (c : CanvasState) : CanvasState :=
  mkCanvas (cv_nodes c) (cv_edges c) (cv_graph_ref c) layout (cv_next c) (cv_elk c) (cv_elk_ref c) (S (cv_next c))
    (cv_ran c) (cv_request c).

(** So is the definition. *)
Definition definition_set (def : WorkflowDefinition) (c : CanvasState) : CanvasState :=
  mkCanvas (toNodes def) (toEdges def) (cv_next c) (cv_stored c) (cv_stored_ref c) (cv_elk c) (cv_elk_ref c) (S (cv_next c))
    (cv_ran c) (cv_request c).

Definition answered (c : CanvasState) : CanvasState :=
  mkCanvas (cv_nodes c) (cv_edges c) (cv_graph_ref c) (cv_stored c) (cv_stored_ref c) (cv_elk c) (cv_elk_ref c) (cv_next c)
    (cv_ran c) None.

(** The continuation of [layoutWithElk]. *)
Definition layout_done (positions : Layout) (c : CanvasState) : CanvasState :=
  let c := setElkLayout positions (answered c) in
  let saved := toSave positions (cv_stored c) in
  if Nat.ltb 0 (length (obj_keys saved)) then layout_set (obj_spread (cv_stored c) saved) c else c.

Inductive CanvasEvent :=
| EffectRun
| LayoutDone
| DefinitionSet (def : WorkflowDefinition)
| LayoutSet (layout : Layout).

Section effect.
Context (elk_layout : ElkGraph → option (list LaidChild)).

(** React runs the effect only when a dependency has changed, and an answer
    comes only to a request that was not cancelled. *)
Definition canvas_step (e : CanvasEvent) (c : CanvasState) : CanvasState :=
  match e with
  | EffectRun => if changed c then run_effect c else c
  | LayoutDone =>
      match cv_request c with
      | Some (nodes, edges) => layout_done (layoutWithElk elk_layout nodes edges) c
      | None => c
      end
  | DefinitionSet def => definition_set def c
  | LayoutSet layout => layout_set layout c
  end.

(** [const layout = { ...elkLayout, ...storedLayout }] *)
Definition shown_layout (c : CanvasState) : Layout := obj_spread (cv_elk c) (cv_stored c).

Definition mounted (def : WorkflowDefinition) (layout : Layout) : CanvasState :=
  mkCanvas (toNodes def) (toEdges def) 0 layout 1 [] 2 3 None None.

Definition run_events (es : list CanvasEvent) (c : CanvasState) : CanvasState :=
  fold_left (λ c e, canvas_step e c) es c.

(** What the canvas does by itself: the runs of the effect and the answers. *)
Definition own_event (e : CanvasEvent) : bool := match e with EffectRun | LayoutDone => true | _ => false end.

(** Whether the event is due, and how many due ones there are in a run. *)
Definition due (e : CanvasEvent) (c : CanvasState) : bool :=
  match e with
  | EffectRun => changed c
  | LayoutDone => match cv_request c with Some _ => true | None => false end
  | _ => true
  end.

Fixpoint work (es : list CanvasEvent) (c : CanvasState) : nat :=
  match es with
  | [] => 0
  | e :: es => (if due e c then 1 else 0) + work es (canvas_step e c)
  end.
End effect.

Definition settled (c : CanvasState) : Prop := changed c = false ∧ cv_request c = None.

(** ** Lemmas on the layout *)

Lemma toSave_keys positions current k :
  k ∈ obj_keys (toSave positions current) ↔ k ∈ obj_keys positions ∧ obj_in k current = false.
Proof.
  unfold toSave. rewrite obj_from_entries_keys. unfold obj_keys. rewrite !list_elem_of_fmap. split.
  - intros (p & -> & [Hp Hn%negb_true_iff]%filter_elem). eauto.
  - intros [(p & -> & Hp) Hn]. exists p. split; [done|]. apply filter_elem. by rewrite Hn.
Qed.

(** The answer has a position for every child whose id is not "__proto__". *)
Lemma read_positions_keys l acc k :
  Forall (λ c, is_Some (lc_x c) ∧ is_Some (lc_y c)) l →
  k ∈ obj_keys (fold_left (λ positions child,
       match lc_x child, lc_y child with
       | Some x, Some y => obj_assign (lc_id child) (mkPos x y) positions
       | _, _ => positions
       end) l acc) ↔ k ∈ obj_keys acc ∨ (k ∈ lc_id <$> l ∧ k ≠ "__proto__").
Proof.
  revert acc. induction l as [|c l IH]; intros acc; [set_solver|]. intros [[[x Hx] [y Hy]] Hl]%Forall_cons.
  cbn [fold_left]. rewrite Hx, Hy, IH by done. rewrite fmap_cons, elem_of_cons. unfold obj_assign.
  destruct (String.eqb_spec (lc_id c) "__proto__") as [E|]; [|rewrite obj_set_keys]; naive_solver.
Qed.

Lemma missing_false c :
  missing c = false ↔ ∀ n, n ∈ cv_nodes c → obj_in (gn_id n) (cv_stored c) = true ∨ obj_in (gn_id n) (cv_elk c) = true.
Proof.
  unfold missing. split.
  - intros H n Hn. destruct (obj_in _ (cv_stored c)) eqn:E1, (obj_in _ (cv_elk c)) eqn:E2; auto.
    assert (existsb (λ n, negb (obj_in (gn_id n) (cv_stored c)) && negb (obj_in (gn_id n) (cv_elk c)))%bool (cv_nodes c) = true);
      [|congruence]. apply existsb_exists. exists n. rewrite E1, E2. split; [by apply list_elem_of_In|done].
  - intros H. apply existsb_none. intros n Hn. by destruct (H n Hn) as [-> | ->]; rewrite ?andb_false_r.
Qed.

Section effect_lemmas.
Context (elk_layout : ElkGraph → option (list LaidChild)).

(** The objects there are were made, and so were those of the last run. *)
Definition refs_ok (c : CanvasState) : Prop :=
  cv_graph_ref c < cv_next c ∧ cv_stored_ref c < cv_next c ∧ cv_elk_ref c < cv_next c ∧
  match cv_ran c with Some (g, s, e) => g < cv_next c ∧ s < cv_next c ∧ e < cv_next c | None => True end.

Lemma ran_unchanged request c : changed (ran request c) = false.
Proof. unfold changed. by rewrite bool_decide_eq_true_2. Qed.

Lemma set_elk_changed positions c : refs_ok c → changed (setElkLayout positions c) = true.
Proof.
  intros (_ & _ & _ & Hr). unfold changed. rewrite bool_decide_eq_false_2; [done|]. unfold deps. simpl. intros He.
  rewrite He in Hr. lia.
Qed.

Lemma layout_set_changed layout c : refs_ok c → changed (layout_set layout c) = true.
Proof.
  intros (_ & _ & _ & Hr). unfold changed. rewrite bool_decide_eq_false_2; [done|]. unfold deps. simpl. intros He.
  rewrite He in Hr. lia.
Qed.

Lemma definition_set_changed def c : refs_ok c → changed (definition_set def c) = true.
Proof.
  intros (_ & _ & _ & Hr). unfold changed. rewrite bool_decide_eq_false_2; [done|]. unfold deps. simpl. intros He.
  rewrite He in Hr. lia.
Qed.

Lemma set_elk_refs positions c : refs_ok c → refs_ok (setElkLayout positions c).
Proof. unfold refs_ok. simpl. destruct (cv_ran c) as [[[g s] e]|]; lia. Qed.
Lemma layout_set_refs layout c : refs_ok c → refs_ok (layout_set layout c).
Proof. unfold refs_ok. simpl. destruct (cv_ran c) as [[[g s] e]|]; lia. Qed.
Lemma definition_set_refs def c : refs_ok c → refs_ok (definition_set def c).
Proof. unfold refs_ok. simpl. destruct (cv_ran c) as [[[g s] e]|]; lia. Qed.
Lemma ran_refs request c : refs_ok c → refs_ok (ran request c).
Proof. unfold refs_ok. simpl. lia. Qed.

Lemma run_effect_refs c : refs_ok c → refs_ok (run_effect c).
Proof. intros Hc. unfold run_effect. destruct (cv_nodes c); [apply set_elk_refs|]; by apply ran_refs. Qed.

Lemma layout_done_facts positions c :
  refs_ok c →
  refs_ok (layout_done positions c) ∧ changed (layout_done positions c) = true ∧ cv_request (layout_done positions c) = None ∧
  cv_nodes (layout_done positions c) = cv_nodes c ∧ cv_elk (layout_done positions c) = positions ∧
  cv_stored (layout_done positions c) =
    (if Nat.ltb 0 (length (obj_keys (toSave positions (cv_stored c)))) then obj_spread (cv_stored c) (toSave positions (cv_stored c))
     else cv_stored c).
Proof.
  intros Hc. assert (refs_ok (answered c)) as Ha by done. pose proof (set_elk_refs positions _ Ha) as Hs.
  unfold layout_done. cbn [cv_stored setElkLayout answered]. destruct (Nat.ltb 0 _).
  - split_and!; [by apply layout_set_refs|by apply layout_set_changed|done..].
  - split_and!; [done|by apply set_elk_changed|done..].
Qed.

(** When neither the effect nor a request is due, no node is missing. *)
Definition canvas_ok (c : CanvasState) : Prop := refs_ok c ∧ (settled c → missing c = false).

Lemma canvas_step_ok e c : canvas_ok c → canvas_ok (canvas_step elk_layout e c).
Proof.
  intros [Hr Hc]. destruct e; cbn [canvas_step].
  - destruct (changed c) eqn:E; [|done]. split; [by apply run_effect_refs|]. unfold run_effect, settled.
    destruct (cv_nodes c) as [|n l] eqn:En; [rewrite set_elk_changed by (by apply ran_refs); naive_solver|].
    intros [_ Hq]. simpl in Hq. destruct (missing c) eqn:Em; [done|]. exact Em.
  - destruct (cv_request c) as [[nodes edges]|]; [|done].
    destruct (layout_done_facts (layoutWithElk elk_layout nodes edges) c Hr) as (H1 & H2 & _). split; [done|]. intros [? _]. congruence.
  - split; [by apply definition_set_refs|]. intros [H _]. rewrite definition_set_changed in H; done.
  - split; [by apply layout_set_refs|]. intros [H _]. rewrite layout_set_changed in H; done.
Qed.

Lemma mounted_ok def layout : canvas_ok (mounted def layout).
Proof. split; [unfold refs_ok; simpl; lia|]. by intros [? _]. Qed.

Lemma run_events_ok es c : canvas_ok c → canvas_ok (run_events elk_layout es c).
Proof. unfold run_events. revert c. induction es as [|e es IH]; intros c Hc; [done|]. by apply IH, canvas_step_ok. Qed.

Lemma layout_done_keeps positions c k p :
  refs_ok c → obj_get (cv_stored c) k = Some p → obj_get (cv_stored (layout_done positions c)) k = Some p.
Proof.
  intros Hr H. destruct (layout_done_facts positions c Hr) as (_ & _ & _ & _ & _ & ->). destruct (Nat.ltb _ _); [|done].
  rewrite obj_spread_get; [done|].
  rewrite toSave_keys. intros [_ Hn]. assert (obj_in k (cv_stored c) = true); [|congruence].
  apply obj_in_true. left. apply obj_has_true. unfold obj_has. by rewrite H.
Qed.

Lemma layout_done_stores positions c k :
  refs_ok c → k ∈ obj_keys positions → obj_in k (cv_stored (layout_done positions c)) = true.
Proof.
  intros Hr Hk. destruct (layout_done_facts positions c Hr) as (_ & _ & _ & _ & _ & ->). destruct (obj_in k (cv_stored c)) eqn:E.
  - apply obj_in_true in E as [E|E]; [|by apply obj_in_true; right].
    destruct (Nat.ltb _ _); apply obj_in_true; left; [apply obj_spread_keys|]; auto.
  - assert (k ∈ obj_keys (toSave positions (cv_stored c))) as Hs by (by apply toSave_keys).
    replace (Nat.ltb 0 _) with true.
    + apply obj_in_true. left. apply obj_spread_keys. by right.
    + symmetry. apply Nat.ltb_lt. destruct (obj_keys (toSave _ _)); [by apply not_elem_of_nil in Hs|simpl; lia].
Qed.

(** *** A canvas without nodes *)

Lemma empty_step e c :
  own_event e = true → refs_ok c → cv_nodes c = [] → changed c = true → cv_request c = None →
  let c' := canvas_step elk_layout e c in
  refs_ok c' ∧ cv_nodes c' = [] ∧ changed c' = true ∧ cv_request c' = None.
Proof.
  intros He Hr Hn Hc Hq. destruct e; try done; cbn [canvas_step]; [|by rewrite Hq].
  rewrite Hc. unfold run_effect. rewrite Hn. pose proof (ran_refs None c Hr).
  split_and!; [by apply set_elk_refs|done|by apply set_elk_changed|done].
Qed.

(** ELK answers with the children it was given, each with coordinates. *)
Context (elk_complete : ∀ g, ∃ laid, elk_layout g = Some laid ∧ lc_id <$> laid = el_id <$> eg_children g ∧
                                     Forall (λ c, is_Some (lc_x c) ∧ is_Some (lc_y c)) laid).

Lemma layoutWithElk_keys nodes edges n :
  n ∈ nodes → inherited (gn_id n) = false → gn_id n ∈ obj_keys (layoutWithElk elk_layout nodes edges).
Proof.
  intros Hn Hi. unfold layoutWithElk. destruct nodes as [|m l] eqn:E; [set_solver|]. rewrite <- E in *.
  destruct (elk_complete (elk_graph nodes edges)) as (laid & -> & Hids & Hpos).
  unfold read_positions. cbn [default from_option id]. apply read_positions_keys; [done|]. right. rewrite Hids. split.
  - simpl. rewrite <- list_fmap_compose. by apply list_elem_of_fmap_2.
  - intros Heq. rewrite Heq in Hi. discriminate Hi.
Qed.

(** *** A canvas with nodes

    How much is left to do: a run of the effect, an answer, a second run. *)
Definition left_over (n : nat) (c : CanvasState) : Prop :=
  refs_ok c ∧ cv_nodes c ≠ [] ∧
  match n with
  | 0 => settled c
  | 1 => changed c = true ∧ cv_request c = None ∧ missing c = false
  | 2 => changed c = false ∧ ∃ edges, cv_request c = Some (cv_nodes c, edges)
  | _ => changed c = true ∧ cv_request c = None
  end.

Lemma answer_places c edges :
  refs_ok c → missing (layout_done (layoutWithElk elk_layout (cv_nodes c) edges) c) = false.
Proof.
  intros Hr. apply missing_false. intros n Hn. left.
  destruct (layout_done_facts (layoutWithElk elk_layout (cv_nodes c) edges) c Hr) as (_ & _ & _ & Hnodes & _). rewrite Hnodes in Hn.
  destruct (inherited (gn_id n)) eqn:Ei; [by apply obj_in_true; right|]. apply layout_done_stores; [done|].
  by apply layoutWithElk_keys.
Qed.

Lemma ran_missing request c : missing (ran request c) = missing c.
Proof. done. Qed.

Lemma left_over_step n e c :
  own_event e = true → n ≤ 3 → left_over n c →
  ∃ n', n' + (if due e c then 1 else 0) ≤ n ∧ left_over n' (canvas_step elk_layout e c).
Proof.
  intros He Hn3 (Hr & Hn & Hc).
  assert (∀ n', n' = (if missing c then 2 else 0) → changed c = true → left_over n' (canvas_step elk_layout EffectRun c)) as Hrun.
  { intros n' -> Hch. cbn [canvas_step]. rewrite Hch. unfold run_effect. destruct (cv_nodes c) as [|x l] eqn:En; [done|]. rewrite <- En in *.
    split; [by apply ran_refs|]. split; [done|]. destruct (missing c); [|split; [apply ran_unchanged|done]].
    split; [apply ran_unchanged|by eexists]. }
  destruct n as [|[|[|n]]].
  - destruct Hc as [Hch Hq]. exists 0. destruct e; try done; cbn [due canvas_step]; rewrite ?Hch, ?Hq; split; try lia; by split_and!.
  - destruct Hc as (Hch & Hq & Hm). destruct e; try done.
    + exists 0. cbn [due]. rewrite Hch. split; [lia|]. apply Hrun; [by rewrite Hm|done].
    + exists 1. cbn [due canvas_step]. rewrite Hq. split; [lia|]. by split_and!.
  - destruct Hc as (Hch & edges & Hq). destruct e; try done.
    + exists 2. cbn [due canvas_step]. rewrite Hch. split; [lia|]. split; [done|]. split; [done|]. split; [done|by eexists].
    + exists 1. cbn [due canvas_step]. rewrite Hq. split; [lia|].
      destruct (layout_done_facts (layoutWithElk elk_layout (cv_nodes c) edges) c Hr) as (H1 & H2 & H3 & H4 & _).
      split; [done|]. split; [by rewrite H4|]. split_and!; [done|done|by apply answer_places].
  - destruct Hc as (Hch & Hq). destruct e; try done.
    + exists (if missing c then 2 else 0). cbn [due]. rewrite Hch. split; [destruct (missing c); lia|]. by apply Hrun.
    + exists (S (S (S n))). cbn [due canvas_step]. rewrite Hq. split; [lia|]. by split_and!.
Qed.

Lemma left_over_work n es c : forallb own_event es = true → n ≤ 3 → left_over n c → work elk_layout es c ≤ n.
Proof.
  revert n c. induction es as [|e es IH]; intros n c Hes Hn Hc; simpl in *; [lia|]. apply andb_true_iff in Hes as [He Hes].
  destruct (left_over_step n e c He Hn Hc) as (n' & Hle & Hc'). specialize (IH n' _ Hes ltac:(lia) Hc'). lia.
Qed.
End effect_lemmas.

(** ** Properties *)

(** C24: after any sequence of runs of the effect, answers of the layout engine
    and changes of the definition and the layout of the store, when neither a
    run nor an answer is due every node of the canvas has a position of its own
    in the store or in the last answer, or an id that every object inherits
    (such as constructor), which the effect takes for positioned; and whatever
    is due, an answer overwrites no position the store has. *)
Theorem canvas_positions elk_layout def layout es :
  let c := run_events elk_layout es (mounted def layout) in
  (changed c = false → cv_request c = None →
   ∀ n, n ∈ cv_nodes c →
     gn_id n ∈ obj_keys (cv_stored c) ∨ gn_id n ∈ obj_keys (cv_elk c) ∨ inherited (gn_id n) = true) ∧
  (∀ k p, obj_get (cv_stored c) k = Some p →
          obj_get (cv_stored (canvas_step elk_layout LayoutDone c)) k = Some p).
Proof.
  intros c. assert (canvas_ok c) as [Hr Hc] by (apply run_events_ok, mounted_ok). split.
  - intros Hch Hrq n Hn. destruct (proj1 (missing_false c) (Hc (conj Hch Hrq)) n Hn) as [H|H]; apply obj_in_true in H; tauto.
  - intros k p Hk. cbn [canvas_step]. destruct (cv_request c) as [[nodes edges]|]; [|done]. by apply layout_done_keeps.
Qed.

(** C25: left alone, a canvas settles exactly when the definition has steps.
    With a layout engine that places every child, at most two runs of the
    effect and one answer are due in any order of events, and then nothing is;
    without steps the effect is due after every run, for ever, since each run
    stores a fresh object that is one of its dependencies. *)
Theorem canvas_settles_iff elk_layout def layout :
  (∀ g, ∃ laid, elk_layout g = Some laid ∧ lc_id <$> laid = el_id <$> eg_children g ∧
                Forall (λ c, is_Some (lc_x c) ∧ is_Some (lc_y c)) laid) →
  (wd_steps def ≠ [] →
   (∀ es, forallb own_event es = true → work elk_layout es (mounted def layout) ≤ 3) ∧
   settled (run_events elk_layout [EffectRun; LayoutDone; EffectRun] (mounted def layout))) ∧
  (wd_steps def = [] →
   ∀ es, forallb own_event es = true → ¬ settled (run_events elk_layout es (mounted def layout))).
Proof.
  intros Helk. split.
  - intros Hne. assert (left_over 3 (mounted def layout)) as H3.
    { split; [apply mounted_ok|]. split; [|done]. intros E. destruct Hne. rewrite <- toNodes_steps. simpl in E. by rewrite E. }
    split; [intros es Hes; by apply left_over_work|].
    destruct (left_over_step elk_layout Helk 3 EffectRun _ eq_refl ltac:(lia) H3) as (n1 & Hn1 & H1). cbn [due] in Hn1.
    change (changed (mounted def layout)) with true in Hn1. cbv iota in Hn1. unfold run_events. cbn [fold_left].
    set (c1 := canvas_step elk_layout EffectRun (mounted def layout)) in *.
    destruct (left_over_step elk_layout Helk n1 LayoutDone c1 eq_refl ltac:(lia) H1) as (n2 & Hn2 & H2).
    set (c2 := canvas_step elk_layout LayoutDone c1) in *.
    destruct (left_over_step elk_layout Helk n2 EffectRun c2 eq_refl ltac:(destruct (due LayoutDone c1); lia) H2) as (n4 & Hn4 & H4).
    assert (n4 = 0) as ->; [|by destruct H4 as (_ & _ & ?)].
    assert (n2 ≤ n1 ∧ n4 ≤ n2) as [Hn21 Hn42] by (split; [destruct (due LayoutDone c1)|destruct (due EffectRun c2)]; lia).
    destruct n1 as [|[|[|n1]]]; [lia| | |lia].
    + destruct H1 as (_ & _ & Hch & _). unfold c1 in Hch. cbn [canvas_step] in Hch. change (changed (mounted def layout)) with true in Hch.
      unfold run_effect in Hch. destruct H3 as (_ & Hn & _). destruct (cv_nodes (mounted def layout)); [done|].
      by rewrite ran_unchanged in Hch.
    + destruct H1 as (_ & _ & _ & edges & Hq). cbn [due] in Hn2. rewrite Hq in Hn2. destruct n2 as [|[|n2]]; [lia| |lia].
      destruct H2 as (_ & _ & Hch & _). cbn [due] in Hn4. rewrite Hch in Hn4. lia.
  - intros Hs es Hes. assert (cv_nodes (mounted def layout) = []) as Hn by (simpl; unfold toNodes; by rewrite Hs).
    assert (∀ c, refs_ok c ∧ cv_nodes c = [] ∧ changed c = true ∧ cv_request c = None →
      changed (run_events elk_layout es c) = true) as H.
    { unfold run_events. clear -Hes. induction es as [|e es IH]; intros c (Hr & Hn & Hc & Hq); [done|]. simpl in *.
      apply andb_true_iff in Hes as [He Hes]. apply IH; [done|]. by apply empty_step. }
    intros [Hc _]. rewrite H in Hc; [done|]. split; [apply mounted_ok|]. done.
Qed.

(** Once settled every step has a position in the store, the ones it had before
    unchanged. *)
Theorem canvas_settles elk_layout def layout :
  (∀ g, ∃ laid, elk_layout g = Some laid ∧ lc_id <$> laid = el_id <$> eg_children g ∧
                Forall (λ c, is_Some (lc_x c) ∧ is_Some (lc_y c)) laid) →
  wd_steps def ≠ [] →
  let c := run_events elk_layout [EffectRun; LayoutDone; EffectRun] (mounted def layout) in
  (∀ s, s ∈ wd_steps def → obj_in (step_id s) (cv_stored c) = true) ∧
  (∀ k p, obj_get layout k = Some p → obj_get (cv_stored c) k = Some p).
Proof.
  intros Helk Hne. assert (toNodes def ≠ []) as Hn.
  { intros E. destruct Hne. by rewrite <- toNodes_steps, E. }
  assert (∀ s, s ∈ wd_steps def → ∃ n, n ∈ toNodes def ∧ gn_id n = step_id s) as Hnode.
  { intros s Hs. rewrite <- toNodes_steps in Hs. apply list_elem_of_fmap in Hs as (n & -> & Hin).
    exists n. split; [done|]. by apply (toNodes_elem def). }
  assert (∀ c, cv_nodes c ≠ [] → cv_stored (canvas_step elk_layout EffectRun c) = cv_stored c) as Hrun.
  { intros c Hc. cbn [canvas_step]. destruct (changed c); [|done]. unfold run_effect. by destruct (cv_nodes c). }
  pose proof (proj1 (mounted_ok def layout)) as Hr.
  unfold run_events. cbn [fold_left]. set (c0 := mounted def layout) in *.
  assert (canvas_step elk_layout EffectRun c0 = ran (if missing c0 then Some (toNodes def, toEdges def) else None) c0) as ->.
  { cbn [canvas_step]. change (changed c0) with true. unfold run_effect. change (cv_nodes c0) with (toNodes def).
    change (cv_edges c0) with (toEdges def). by destruct (toNodes def). }
  set (c1 := ran _ c0). assert (refs_ok c1) as Hr1 by (by apply ran_refs). cbn [canvas_step]. destruct (missing c0) eqn:Em.
  - cbn [c1 cv_request ran]. set (c2 := layout_done _ _).
    assert (cv_nodes c2 = toNodes def) as Hn2 by (unfold c2; by destruct (layout_done_facts (layoutWithElk elk_layout (toNodes def) (toEdges def)) c1 Hr1) as (_ & _ & _ & -> & _)).
    change (if changed c2 then run_effect c2 else c2) with (canvas_step elk_layout EffectRun c2).
    rewrite (Hrun c2) by (by rewrite Hn2). split.
    + intros s Hs. destruct (Hnode s Hs) as (n & Hin & <-). destruct (inherited (gn_id n)) eqn:Ei; [by apply obj_in_true; right|].
      apply layout_done_stores; [done|]. by apply layoutWithElk_keys.
    + intros k p Hk. by apply (layout_done_keeps _ c1).
  - cbn [c1 cv_request ran]. change (if changed c1 then run_effect c1 else c1) with (canvas_step elk_layout EffectRun c1).
    rewrite (Hrun c1) by done. split; [|done]. intros s Hs. destruct (Hnode s Hs) as (n & Hin & <-).
    destruct (proj1 (missing_false _) Em n Hin) as [H|H]; [done|]. apply obj_in_true in H as [H|H]; [set_solver|].
    apply obj_in_true. by right.
Qed.

(** An engine that puts the children side by side. *)
Definition side_by_side (g : ElkGraph) : option (list LaidChild) :=
  Some ((λ p : nat * ElkChild, mkLaid (el_id p.2) (Some (num_of_Z (Z.of_nat p.1 * 200))) (Some (num_of_Z 0))) <$> indexed (eg_children g)).

Lemma side_by_side_complete g :
  ∃ laid, side_by_side g = Some laid ∧ lc_id <$> laid = el_id <$> eg_children g ∧
          Forall (λ c, is_Some (lc_x c) ∧ is_Some (lc_y c)) laid.
Proof.
  eexists. split; [reflexivity|]. split.
  - rewrite <- list_fmap_compose. transitivity (el_id <$> (indexed (eg_children g)).*2).
    + rewrite <- list_fmap_compose. reflexivity.
    + f_equal. apply list_eq. intros i. unfold indexed. rewrite list_lookup_fmap, list_lookup_imap.
      destruct (eg_children g !! i); reflexivity.
  - apply Forall_fmap, Forall_forall. intros [i ch] _. split; eexists; reflexivity.
Qed.

Lemma canvas_settles_witness :
  let c := run_events side_by_side [EffectRun; LayoutDone; EffectRun] (mounted order_def []) in
  ∀ s, s ∈ sample_steps → obj_in (step_id s) (cv_stored c) = true.
Proof. apply (canvas_settles side_by_side order_def [] side_by_side_complete). discriminate. Defined.

Lemma canvas_settles_iff_witness :
  work side_by_side (concat (replicate 50 [EffectRun; LayoutDone])) (mounted order_def []) ≤ 3 ∧
  ¬ settled (run_events side_by_side (replicate 1000 EffectRun) (mounted emptyDefinition [])).
Proof.
  split.
  - destruct (canvas_settles_iff side_by_side order_def [] side_by_side_complete) as [H _].
    apply H; [discriminate|vm_compute; reflexivity].
  - destruct (canvas_settles_iff side_by_side emptyDefinition [] side_by_side_complete) as [_ H].
    apply H; [reflexivity|vm_compute; reflexivity].
Defined.

(** ** Connecting two nodes *)

(** The source of a new connection, as it should become. *)
Definition connected (target expr : StepId) (s : Step) : Step :=
  match s with
  | DecisionStep c m => DecisionStep c (obj_set expr target m)
  | ParallelGatewayStep c p j => ParallelGatewayStep c (p ++ [target]) j
  | _ => with_next target s
  end.

Definition connectable (s : Step) : bool :=
  match s with EndStep _ | UnknownTypeStep _ _ => false | _ => true end.

(** The edges a new connection from their source does not replace. *)
Definition survives (expr : string) (e : GraphEdge) : Prop :=
  match ge_variant e with Conditional k => k ≠ expr | Parallel | Boundary _ => True | _ => False end.

Lemma connected_common target expr s : step_common (connected target expr s) = step_common s.
Proof. by destruct s. Qed.

Lemma connected_edge target expr s :
  connectable s = true → target ≠ EmptyString →
  ∃ e, e ∈ step_edges (connected target expr s) ∧ ge_from e = step_id s ∧ ge_to e = target.
Proof.
  intros Hc Ht%truthy_str_true. unfold step_edges.
  destruct s as [c n j d rc b|c n j b|c m|c h n t|c n t|c n b|c p j|c n|c|t c]; try done;
    cbn [connected with_next pushStepEdges]; rewrite ?Ht, ?app_nil_l.
  1,2,6: rewrite pushBoundaryEdges_app; eexists; split; [apply elem_of_app; left; by left|done].
  2,3,5: eexists; split; [by left|done].
  - eexists. split; [apply (list_elem_of_fmap_2 _ _ (expr, target)); apply obj_get_Some_elem, obj_get_set_eq|done].
  - eexists. split; [apply (list_elem_of_fmap_2 _ _ (length p, target)); apply elem_of_indexed|done].
    by rewrite list_lookup_middle.
Qed.

Lemma connected_keeps target expr s e :
  step_wf s = true → e ∈ step_edges s → survives expr e → e ∈ step_edges (connected target expr s).
Proof.
  unfold step_edges. intros Hwf He Hs.
  destruct s as [c n j d rc b|c n j b|c m|c h n t|c n t|c n b|c p j|c n|c|t c];
    cbn [connected with_next pushStepEdges] in *; rewrite ?app_nil_l in *; try done;
    try (by apply list_elem_of_singleton in He as ->);
    try (rewrite pushBoundaryEdges_app in *; rewrite elem_of_app in *; destruct He as [He|He]; [|by right]).
  1,2: destruct n as [n|]; [|set_solver]; destruct (truthy_str n); [|set_solver].
  all: try (by apply list_elem_of_singleton in He as ->).
  - apply list_elem_of_fmap in He as ([k v] & -> & Hin). simpl in Hs, Hwf. bool_hyps.
    apply (list_elem_of_fmap_2 (λ p : string * StepId, with_handle ("branch:" ⊕ p.1) (makeEdge (step_id (DecisionStep c m)) p.2 (Conditional p.1))) _ (k, v)).
    apply obj_get_Some_elem. rewrite obj_get_set_ne by done. apply obj_elem_get; [by apply keys_ok_NoDup|done].
  - apply list_elem_of_fmap in He as ([i v] & -> & Hin%elem_of_indexed).
    apply (list_elem_of_fmap_2 (λ q : nat * StepId, with_handle ("parallel:" ⊕ str_of_nat q.1) (makeEdge (step_id (ParallelGatewayStep c p j)) q.2 Parallel)) _ (i, v)).
    apply elem_of_indexed. by rewrite lookup_app_l by (by eapply lookup_lt_Some).
Qed.

Lemma find_step_Some id def s : find_step id def = Some s → s ∈ wd_steps def ∧ step_id s = id.
Proof. unfold find_step. intros [Hs Hid%String.eqb_eq]%List.find_some. by apply list_elem_of_In in Hs. Qed.

(** Replacing the one step of an id by one with the same id. *)
Lemma replace_step_edges def s s' def' :
  NoDup (step_ids def) → s ∈ wd_steps def → step_id s' = step_id s →
  def' = with_steps ((λ x, if String.eqb (step_id x) (step_id s) then s' else x) <$> wd_steps def) def →
  step_ids def' = step_ids def ∧
  (∀ e, e ∈ step_edges s' → e ∈ toEdges def') ∧
  (∀ e, e ∈ toEdges def → (e ∈ step_edges s → e ∈ step_edges s') → e ∈ toEdges def').
Proof.
  intros Hnd Hs Hid ->. split_and!.
  - unfold step_ids. simpl. rewrite <- list_fmap_compose. apply list_fmap_ext. intros _ x _. simpl.
    by destruct (String.eqb_spec (step_id x) (step_id s)) as [->|].
  - intros e He. apply toEdges_elem. exists s'. split; [done|]. simpl. apply list_elem_of_fmap. exists s.
    by rewrite String.eqb_refl.
  - intros e (x & He & Hx)%toEdges_elem Hk. apply toEdges_elem.
    destruct (String.eqb_spec (step_id x) (step_id s)) as [Heq|Hne].
    + assert (x = s) as ->.
      { pose proof (indexSteps_unique _ _ Hnd Hs). pose proof (indexSteps_unique _ _ Hnd Hx). congruence. }
      exists s'. split; [by apply Hk|]. simpl. apply list_elem_of_fmap. exists s. by rewrite String.eqb_refl.
    + exists x. split; [done|]. simpl. apply list_elem_of_fmap. exists x. split; [|done].
      by destruct (String.eqb_spec (step_id x) (step_id s)).
Qed.

(** An edge was drawn: the ids are the same, the edge is there, and so is every
    edge that the connection does not replace. *)
Definition drawn (source target : StepId) (expr : string) (def def' : WorkflowDefinition) : Prop :=
  step_ids def' = step_ids def ∧
  (∃ e, e ∈ toEdges def' ∧ ge_from e = source ∧ ge_to e = target) ∧
  (∀ e, e ∈ toEdges def → (ge_from e = source → survives expr e) → e ∈ toEdges def').

(** An update that makes the source [connected] draws the edge. *)
Lemma update_draws st s target expr key v :
  def_wf (ws_definition st) = true → NoDup (step_ids (ws_definition st)) → s ∈ wd_steps (ws_definition st) →
  connectable s = true → target ≠ EmptyString → updateStep key v s = Some (connected target expr s) →
  ∃ st', updateStepProperty (step_id s) key v st = Ok st' ∧
    drawn (step_id s) target expr (ws_definition st) (ws_definition st').
Proof.
  intros Hwf Hnd Hs Hc Ht Hu. rewrite (updateStepProperty_typed _ _ _ _ (λ _, connected target expr s)).
  2: { intros x Hx Hxid. pose proof (indexSteps_unique _ _ Hnd Hs). pose proof (indexSteps_unique _ _ Hnd Hx). congruence. }
  eexists. split; [done|]. cbn [ws_definition edit].
  destruct (replace_step_edges (ws_definition st) s (connected target expr s) _ Hnd Hs
              ltac:(unfold step_id; by rewrite connected_common) eq_refl) as (Hids & Hnew & Hold).
  split; [done|]. split.
  - destruct (connected_edge target expr s Hc Ht) as (e & He & Hf & Htgt). eauto.
  - intros e He Hsv. apply Hold; [done|]. intros Hse. apply connected_keeps; [|done|apply Hsv; by apply step_edges_from].
    apply def_wf_Forall in Hwf. rewrite Forall_forall in Hwf. by apply Hwf.
Qed.

(** A target a parallel gateway has already is one of its edges. *)
Lemma parallel_already_drawn def c p j target expr :
  ParallelGatewayStep c p j ∈ wd_steps def → target ∈ p → drawn (sc_id c) target expr def def.
Proof.
  intros Hs [i Hi]%list_elem_of_lookup. split; [done|]. split; [|tauto].
  exists (with_handle ("parallel:" ⊕ str_of_nat i) (makeEdge (sc_id c) target Parallel)). split; [|done].
  apply toEdges_elem. exists (ParallelGatewayStep c p j). split; [|done].
  unfold step_edges. cbn [pushStepEdges]. rewrite app_nil_l.
  apply list_elem_of_fmap. exists (i, target). split; [done|]. by apply elem_of_indexed.
Qed.

(** C22: connecting one node to another draws the edge: the definition gets an
    edge from the source to the target, no step is added, removed or renamed,
    and every other edge stays, but for the outgoing edge that the new one
    replaces (the next step, or the branch of a decision with the same
    expression). *)
Theorem connect_draws_edge st source target expr s :
  def_schema false (ws_definition st) = true → def_wf (ws_definition st) = true →
  NoDup (step_ids (ws_definition st)) →
  find_step source (ws_definition st) = Some s → connectable s = true →
  source ≠ EmptyString → target ≠ EmptyString → source ≠ target → expr ≠ EmptyString → expr ≠ "__proto__" →
  ∃ st', onConnect (Some source) (Some target) (Some expr) id st = Ok st' ∧
    drawn source target expr (ws_definition st) (ws_definition st').
Proof.
  intros Hsch Hwf Hnd Hfind Hc Hsrc Htgt Hne Hexpr Hproto.
  destruct (find_step_Some _ _ _ Hfind) as [Hs <-].
  assert (step_wf s = true) as Hws.
  { pose proof Hwf as Hwf'. apply def_wf_Forall in Hwf'. rewrite Forall_forall in Hwf'. by apply Hwf'. }
  assert (step_schema false s = true) as Hss.
  { unfold def_schema in Hsch. bool_hyps. rewrite forallb_forall in *. by apply H, list_elem_of_In. }
  pose proof (λ key v, update_draws st s target expr key v Hwf Hnd Hs Hc Htgt) as Hupd.
  unfold onConnect. rewrite (proj2 (truthy_str_true (step_id s))), (proj2 (truthy_str_true target)) by done. simpl.
  destruct (String.eqb_spec (step_id s) target) as [|_]; [done|]. rewrite Hfind.
  destruct s as [c n j d rc b|c n j b|c m|c h n t|c n t|c n b|c p j|c n|c|t c]; try done;
    try (apply Hupd, update_nextStep; done).
  - rewrite (proj2 (truthy_str_true expr)) by done. simpl. apply Hupd, update_branches; [done|].
    unfold no_proto_key. rewrite negb_true_iff, obj_has_false, obj_set_keys. intros [?|Hp]; [done|].
    simpl in Hws. bool_hyps. by apply obj_has_false in H0.
  - destruct (includes p target) eqn:Ei; [|by apply Hupd, update_targets].
    apply includes_true in Ei. exists st. split; [done|]. by apply (parallel_already_drawn _ c p j).
Qed.

Lemma connect_draws_edge_witness :
  ∃ st', onConnect (Some "check") (Some "pack") (Some "#total > 99") id (edit order_def initialState) = Ok st' ∧
    drawn "check" "pack" "#total > 99" order_def (ws_definition st').
Proof.
  eapply (connect_draws_edge (edit order_def initialState) "check" "pack" "#total > 99").
  - vm_compute; reflexivity.
  - vm_compute; reflexivity.
  - apply (bool_decide_unpack _). vm_compute. exact I.
  - vm_compute; reflexivity.
  - reflexivity.
  - discriminate.
  - discriminate.
  - discriminate.
  - discriminate.
  - discriminate.
Defined.

(** Dropping a palette entry adds one step of its type with a new id at the
    place of the drop; anything else dropped changes nothing. *)
Theorem drop_adds_step raw pos st :
  match parse_step_type raw with
  | Some type =>
      ∃ s st', onDrop raw pos st = Ok st' ∧ step_type s = raw ∧ step_id s ∉ step_ids (ws_definition st) ∧
        wd_steps (ws_definition st') = wd_steps (ws_definition st) ++ [s] ∧
        obj_get (ws_layout st') (step_id s) = Some pos ∧ ws_dirty st' = true
  | None => onDrop raw pos st = Ok st
  end.
Proof.
  unfold onDrop. destruct (parse_step_type raw) as [type|] eqn:E; [|by destruct (truthy_str raw)].
  unfold parse_step_type in E. apply List.find_some in E as [_ <-%String.eqb_eq].
  replace (truthy_str (step_type_str type)) with true by (by destruct type). simpl.
  unfold addStep, newStep. simpl.
  destruct (uniqueStepId_spec (ws_definition st) (defaultStepId type)) as (id & -> & Hid).
  exists (newStepOf type id (defaultStepName type)). eexists. split; [done|].
  split_and!; [apply newStepOf_type|by rewrite newStepOf_id|done|apply obj_get_set_eq|done].
Qed.

(** The user places a step; the effect asks for positions, the answer leaves
    that step where it is and places the others, and then nothing is due. *)
Lemma canvas_positions_witness :
  let asked := run_events side_by_side [EffectRun; LayoutSet [("pay", origin)]; EffectRun] (mounted order_def []) in
  let c := run_events side_by_side [EffectRun; LayoutSet [("pay", origin)]; EffectRun; LayoutDone; EffectRun] (mounted order_def []) in
  is_Some (cv_request asked) ∧
  obj_get (cv_stored (canvas_step side_by_side LayoutDone asked)) "pay" = Some origin ∧
  changed c = false ∧ cv_request c = None ∧
  (∀ n, n ∈ cv_nodes c →
     gn_id n ∈ obj_keys (cv_stored c) ∨ gn_id n ∈ obj_keys (cv_elk c) ∨ inherited (gn_id n) = true).
Proof.
  intros asked c. assert (is_Some (cv_request asked)) as Hq by (vm_compute; eexists; reflexivity). split; [exact Hq|].
  assert (changed c = false) as Hc by (vm_compute; reflexivity).
  assert (cv_request c = None) as Hr by (vm_compute; reflexivity). split.
  - apply (canvas_positions side_by_side order_def [] [EffectRun; LayoutSet [("pay", origin)]; EffectRun]). reflexivity.
  - split; [exact Hc|]. split; [exact Hr|].
    exact (proj1 (canvas_positions side_by_side order_def [] [EffectRun; LayoutSet [("pay", origin)]; EffectRun; LayoutDone; EffectRun]) Hc Hr).
Defined.
