(* ===== verification/Dialogs.v ===== *)
(** * Prompts and confirmations (workflow-modeller/src/panels/useDialogs.tsx)

    The hook keeps the resolver of the promise under way; every call of
    [prompt] or [confirm] gets a promise, numbered here in the order of the
    calls.  The log lists the promises as they are resolved. *)

From S2P Require Import Prelude.

Inductive Kind := KPrompt | KConfirm.

Record Request := mkRequest {
  rq_kind : Kind;
  rq_initial : string;
  rq_validate : string → option string     (* the complaint about a text *)
}.

Record DialogState := mkDialog {
  ds_calls : nat;                                (* calls of show so far *)
  ds_pending : option (nat * Request);           (* pending.current and request *)
  ds_typed : string;                             (* the value of the input *)
  ds_error : option string;
  ds_log : list (nat * option string)            (* resolved promises, oldest first *)
}.

Definition no_dialog : DialogState := mkDialog 0 None EmptyString None [].

(** [finish(value)] *)
Definition finish (value : option string) (s : DialogState) : DialogState :=
  mkDialog (ds_calls s) None EmptyString None
    (ds_log s ++ match ds_pending s with Some (id, _) => [(id, value)] | None => [] end).

(** [show(next)]: a second dialog resolves to null at once. *)
Definition show (next : Request) (s : DialogState) : DialogState :=
  match ds_pending s with
  | Some _ => mkDialog (S (ds_calls s)) (ds_pending s) (ds_typed s) (ds_error s) (ds_log s ++ [(ds_calls s, None)])
  | None => mkDialog (S (ds_calls s)) (Some (ds_calls s, next)) (rq_initial next) None (ds_log s)
  end.

Inductive DialogEvent :=
| Show (r : Request)
| Type_ (value : string)
| Cancel          (* the button and the cancel event of the element *)
| Submit
| Unmount.

Definition dialog_step (e : DialogEvent) (s : DialogState) : DialogState :=
  match e with
  | Show r => show r s
  | Type_ v =>
      match ds_pending s with
      | Some (id, r) => mkDialog (ds_calls s) (ds_pending s) v None (ds_log s)
      | None => s
      end
  | Cancel => finish None s
  | Submit =>
      match ds_pending s with
      | None => s
      | Some (id, r) =>
          if match rq_kind r with KPrompt => String.eqb (js_trim (ds_typed s)) EmptyString | KConfirm => false end
          then s   (* the button is disabled *)
          else match rq_validate r (ds_typed s) with
               | Some complaint =>
                   if truthy_str complaint
                   then mkDialog (ds_calls s) (ds_pending s) (ds_typed s) (Some complaint) (ds_log s)
                   else finish (Some (ds_typed s)) s
               | None => finish (Some (ds_typed s)) s
               end
      end
  | Unmount => finish None s
  end.

Definition run_dialog (es : list DialogEvent) (s : DialogState) : DialogState :=
  fold_left (λ s e, dialog_step e s) es s.

(** ** The invariant *)

Definition waiting (s : DialogState) : list nat :=
  match ds_pending s with Some (id, _) => [id] | None => [] end.

(** Every call is either resolved, once, or the one that is waited for. *)
Definition dialog_ok (s : DialogState) : Prop := (ds_log s).*1 ++ waiting s ≡ₚ seq 0 (ds_calls s).

Lemma finish_ok v s : dialog_ok s → dialog_ok (finish v s).
Proof.
  unfold dialog_ok, waiting. simpl. rewrite app_nil_r, fmap_app.
  by destruct (ds_pending s) as [[id r]|].
Qed.

Lemma dialog_step_ok e s : dialog_ok s → dialog_ok (dialog_step e s).
Proof.
  intros Hs. destruct e; simpl; try by apply finish_ok.
  - unfold show, dialog_ok, waiting in *. destruct (ds_pending s) as [[id rq]|]; cbn [ds_log ds_calls ds_pending];
      rewrite seq_S; simpl.
    + rewrite fmap_app. simpl. rewrite <- Hs. rewrite <- !app_assoc. f_equiv. apply Permutation_swap.
    + rewrite app_nil_r in Hs. by rewrite Hs.
  - unfold dialog_ok, waiting in *. by destruct (ds_pending s) as [[id r]|] eqn:E; simpl; rewrite ?E.
  - destruct (ds_pending s) as [[id r]|] eqn:E; [|done]. case_match; [done|].
    destruct (rq_validate r (ds_typed s)) as [c|]; [|by apply finish_ok]. destruct (truthy_str c); [|by apply finish_ok].
    unfold dialog_ok, waiting in *. simpl. by rewrite E in *.
Qed.

Lemma run_dialog_ok es s : dialog_ok s → dialog_ok (run_dialog es s).
Proof. unfold run_dialog. revert s. induction es as [|e es IH]; intros s Hs; [done|]. by apply IH, dialog_step_ok. Qed.

(** ** Properties *)

(** Whatever is clicked and however often a dialog is asked for while one
    is open, every prompt is resolved at most once, at any time all but the
    open one are resolved, and after the component is gone every one is: no
    caller waits for ever. *)
Theorem prompts_resolve_once es :
  let s := run_dialog es no_dialog in
  NoDup (ds_log s).*1 ∧
  (∀ i, i < ds_calls s → i ∈ (ds_log s).*1 ∨ i ∈ waiting s) ∧
  (∀ i, i < ds_calls s → i ∈ (ds_log (dialog_step Unmount s)).*1).
Proof.
  intros s. assert (dialog_ok s) as Hs by (apply run_dialog_ok; constructor). pose proof (finish_ok None s Hs) as Hf.
  unfold dialog_ok in *. split_and!.
  - assert (NoDup ((ds_log s).*1 ++ waiting s)) as Hn
      by (rewrite Hs; apply NoDup_ListNoDup, List.seq_NoDup). by apply NoDup_app in Hn as [? _].
  - intros i Hi. apply elem_of_app. rewrite Hs. apply elem_of_seq. lia.
  - intros i Hi. simpl in *. rewrite app_nil_r in Hf. rewrite Hf. apply elem_of_seq. lia.
Qed.

(** A submitted text reaches the caller unchanged, is not blank for a prompt
    and has no complaint; a text with a complaint keeps the dialog open. *)
Theorem submit_checked s id r :
  ds_pending s = Some (id, r) →
  let s' := dialog_step Submit s in
  (ds_pending s' = None ∧ ds_log s' = ds_log s ++ [(id, Some (ds_typed s))] ∧
   (rq_kind r = KPrompt → js_trim (ds_typed s) ≠ EmptyString) ∧ truthy_ostr (rq_validate r (ds_typed s)) = false) ∨
  (ds_pending s' = Some (id, r) ∧ ds_log s' = ds_log s).
Proof.
  intros Hp. simpl. rewrite Hp. destruct (rq_kind r) eqn:Ek.
  - destruct (String.eqb_spec (js_trim (ds_typed s)) EmptyString); [by right|].
    destruct (rq_validate r (ds_typed s)) as [c|] eqn:Ev; [destruct (truthy_str c) eqn:Et|].
    + by right.
    + left. unfold finish. rewrite Hp. done.
    + left. unfold finish. rewrite Hp. done.
  - destruct (rq_validate r (ds_typed s)) as [c|] eqn:Ev; [destruct (truthy_str c) eqn:Et|].
    + by right.
    + left. unfold finish. rewrite Hp. done.
    + left. unfold finish. rewrite Hp. done.
Qed.
