(* ===== verification/Forms.v ===== *)
(** * The forms of the property panel (workflow-modeller/src/panels/property-forms/)

    The editing functions of the forms: each computes the next value of one
    member of the step it shows and commits it with [updateStepProperty].  A
    form renders again when the store changes, so the step its handlers close
    over is the one of the store. *)

From S2P Require Import Prelude JsObject Types Graph Rename Validate Schema ImportExport Store StoreProps StoreInv StepEdits Layout Canvas.

(** ** Editing a list at an index *)

Section lists.
Context {A : Type}.

(** [l.map((x, idx) => idx === i ? f(x) : x)] *)
Definition patch_at (i : nat) (f : A → A) (l : list A) : list A := imap (λ idx x, if Nat.eqb idx i then f x else x) l.

(** [l.filter((_, idx) => idx !== i)] *)
Definition remove_at (i : nat) (l : list A) : list A :=
  snd <$> List.filter (λ p, negb (Nat.eqb p.1 i)) (indexed l).

(** [move(i, dir)]: the next list, or [None] when nothing is committed. *)
Definition move (i : nat) (up : bool) (l : list A) : option (list A) :=
  let target := (Z.of_nat i + if up then -1 else 1)%Z in
  if ((target <? 0) || (Z.of_nat (length l) <=? target))%Z%bool then None
  else
    match l !! i, l !! Z.to_nat target with
    | Some a, Some b => Some (<[i := b]> (<[Z.to_nat target := a]> l))
    | _, _ => None
    end.
End lists.

(** ** CommonFields *)

(** The new state and the error shown. *)
Definition handleRename (step : Step) (newId : string) (st : WorkflowState) :
    Result (WorkflowState * option string) :=
  let trimmed := js_trim newId in
  if (String.eqb trimmed EmptyString || String.eqb trimmed (step_id step))%bool then Ok (st, None)
  else
    match renameStep (step_id step) trimmed st with
    | Ok st' => Ok (select (SelStep trimmed) st', None)
    | Throws message => Ok (st, Some message)
    | IllTyped => IllTyped
    end.

(** [v || undefined] *)
Definition or_undefined (v : string) : option json := if truthy_str v then Some (JStr v) else None.

Definition commit_name (id : StepId) (v : string) := updateStepProperty id "name" (Some (JStr v)).
Definition commit_description (id : StepId) (v : string) := updateStepProperty id "description" (or_undefined v).

(** [TextInput]: leaving the field commits only another text. *)
Definition text_blur (value typed : string) (onCommit : string → WorkflowState → Result WorkflowState)
    (st : WorkflowState) : Result WorkflowState :=
  if String.eqb typed value then Ok st else onCommit typed st.

(** The candidates of [StepPicker]. *)
Definition candidates (keep : Step → bool) (excludeIds : list StepId) (def : WorkflowDefinition) : list Step :=
  List.filter (λ s, keep s && negb (includes excludeIds (step_id s)))%bool (wd_steps def).

(** The values [StepPicker] offers. *)
Definition picker_options (value : string) (keep : Step → bool) (excludeIds : list StepId) (allowEmpty : bool)
    (def : WorkflowDefinition) : list string :=
  let cs := step_id <$> candidates keep excludeIds def in
  (if allowEmpty then [EmptyString] else []) ++ cs ++
  (if (truthy_str value && negb (includes cs value))%bool then [value] else []).

(** ** ServiceTaskForm, UserTaskForm, WaitForm, JoinGatewayForm *)

Definition commit_jobType (id : StepId) (v : string) := updateStepProperty id "jobType" (or_undefined v).
Definition commit_retryCount (id : StepId) (v : option jsnum) := updateStepProperty id "retryCount" (JNum <$> v).
Definition commit_optional_next (id : StepId) (v : string) := updateStepProperty id "nextStep" (or_undefined v).
Definition commit_next (id : StepId) (v : string) := updateStepProperty id "nextStep" (Some (JStr v)).

(** ** BoundaryEventsEditor *)

Definition commit_events (id : StepId) (next : list BoundaryEvent) :=
  updateStepProperty id "boundaryEvents" (match next with [] => None | _ => Some (events_json next) end).

Definition new_timer : BoundaryEvent := mkBoundaryEvent "TIMER" "PT1H" false EmptyString [].

(** [{ ...e, ...partial }] for the members the editor writes. *)
Inductive EventPatch := PDuration (v : string) | PTarget (v : StepId) | PInterrupting (b : bool).

Definition patched_event (p : EventPatch) (e : BoundaryEvent) : BoundaryEvent :=
  match p with
  | PDuration v => mkBoundaryEvent (be_type e) v (be_interrupting e) (be_targetStepId e) (be_extra e)
  | PTarget v => mkBoundaryEvent (be_type e) (be_duration e) (be_interrupting e) v (be_extra e)
  | PInterrupting b => mkBoundaryEvent (be_type e) (be_duration e) b (be_targetStepId e) (be_extra e)
  end.

Inductive EventEdit := EventPatchAt (i : nat) (p : EventPatch) | EventRemove (i : nat) | EventAdd.

Definition edited_events (e : EventEdit) (events : list BoundaryEvent) : list BoundaryEvent :=
  match e with
  | EventPatchAt i p => patch_at i (patched_event p) events
  | EventRemove i => remove_at i events
  | EventAdd => events ++ [new_timer]
  end.

Definition edit_events (e : EventEdit) (step : Step) (events : list BoundaryEvent) :=
  commit_events (step_id step) (edited_events e events).

(** ** ParallelGatewayForm *)

Inductive TargetEdit := TargetPatch (i : nat) (v : StepId) | TargetAdd | TargetRemove (i : nat).

Definition edited_targets (e : TargetEdit) (targets : list StepId) : list StepId :=
  match e with
  | TargetPatch i v => patch_at i (λ _, v) targets
  | TargetAdd => targets ++ [EmptyString]
  | TargetRemove i => remove_at i targets
  end.

Definition edit_targets (e : TargetEdit) (id : StepId) (targets : list StepId) :=
  updateStepProperty id "parallelNextSteps" (Some (JArr (JStr <$> edited_targets e targets))).

Definition commit_join (id : StepId) (v : string) := updateStepProperty id "joinStep" (Some (JStr v)).

(** ** DecisionForm *)

Inductive BranchEdit :=
| PatchKey (i : nat) (key : string)
| PatchValue (i : nat) (value : StepId)
| BranchRemove (i : nat)
| BranchMove (i : nat) (up : bool)
| BranchAdd.

(** The entries the form commits; [None] when it commits nothing. *)
Definition edited_entries (e : BranchEdit) (entries : list (string * StepId)) : option (list (string * StepId)) :=
  match e with
  | PatchKey i key => Some (patch_at i (λ p, (key, p.2)) entries)
  | PatchValue i value => Some (patch_at i (λ p, (p.1, value)) entries)
  | BranchRemove i => Some (remove_at i entries)
  | BranchMove i up => move i up entries
  | BranchAdd => Some (entries ++ [(EmptyString, EmptyString)])
  end.

Definition edited_branches (e : BranchEdit) (m : obj StepId) : option (obj StepId) :=
  match edited_entries e m with Some next => Some (obj_from_entries next) | None => None end.

Definition edit_branches (e : BranchEdit) (id : StepId) (m : obj StepId) (st : WorkflowState) : Result WorkflowState :=
  match edited_branches e m with
  | Some next => updateStepProperty id "conditionalNextSteps" (Some (record_json JStr next)) st
  | None => Ok st
  end.

(** ** The panel of an END step (panels/PropertyPanel.tsx) *)

(** Unlike [handleRename], the text is neither trimmed nor refused when blank,
    and nothing catches what the rename throws. *)
Definition end_form_rename (step : Step) (v : string) (st : WorkflowState) : Result WorkflowState :=
  if String.eqb v (step_id step) then Ok st else renameStep (step_id step) v st.

(** ** Lemmas on lists and objects *)

Lemma patch_at_lookup {A} i (f : A → A) l j :
  patch_at i f l !! j = if Nat.eqb j i then f <$> l !! j else l !! j.
Proof. unfold patch_at. rewrite list_lookup_imap. by destruct (Nat.eqb j i), (l !! j). Qed.

Lemma remove_at_sublist {A} i (l : list A) : sublist (remove_at i l) l.
Proof.
  unfold remove_at. rewrite <- (indexed_snd l) at 2.
  assert (∀ k : list (nat * A), sublist (List.filter (λ p, negb (Nat.eqb p.1 i)) k).*2 k.*2) as H; [|apply H].
  induction k as [|p k IH]; simpl; [done|]. destruct (Nat.eqb p.1 i); simpl; by constructor.
Qed.


(** Swapping two neighbours. *)
Lemma move_spec {A} i up (l l' : list A) :
  move i up l = Some l' →
  ∃ j a b, j = (if up then Nat.pred i else S i) ∧ (up = true → 0 < i) ∧ l !! i = Some a ∧ l !! j = Some b ∧
    l' = <[i := b]> (<[j := a]> l).
Proof.
  unfold move. destruct (orb _ _) eqn:E; [done|]. apply orb_false_iff in E as [E1%Z.ltb_ge E2%Z.leb_gt].
  destruct (l !! i) as [a|] eqn:Ea; [|done]. destruct (l !! Z.to_nat _) as [b|] eqn:Eb; [|done]. intros [= <-].
  exists (Z.to_nat (Z.of_nat i + if up then -1 else 1)), a, b. split_and!; try done; destruct up; lia.
Qed.

Lemma move_perm {A} i up (l l' : list A) : move i up l = Some l' → l' ≡ₚ l.
Proof. intros (j & a & b & _ & _ & Ha & Hb & ->)%move_spec. by apply Permutation_insert_swap. Qed.

Lemma patch_at_fmap {A B} i (f : A → A) (g : A → B) (h : B → B) (l : list A) :
  (∀ x, g (f x) = h (g x)) → g <$> patch_at i f l = patch_at i h (g <$> l).
Proof.
  intros Hg. apply list_eq. intros j. rewrite list_lookup_fmap, !patch_at_lookup, list_lookup_fmap.
  destruct (Nat.eqb j i), (l !! j); simpl; congruence.
Qed.

(** ** Branches of a decision *)

(** The edits after which two branches have the same expression. *)
Definition conflicts (e : BranchEdit) (m : obj StepId) : Prop :=
  match e with
  | PatchKey i key => is_Some (m !! i) ∧ ∃ j, j ≠ i ∧ obj_keys m !! j = Some key
  | BranchAdd => EmptyString ∈ obj_keys m
  | _ => False
  end.

Lemma patch_key_NoDup i key (ks : list string) :
  NoDup ks → NoDup (patch_at i (λ _, key) ks) ↔ ¬ (is_Some (ks !! i) ∧ ∃ j, j ≠ i ∧ ks !! j = Some key).
Proof.
  intros Hnd. rewrite NoDup_alt in *. setoid_rewrite patch_at_lookup. split.
  - intros H [[x Hi] (j & Hj & Hk)]. apply Hj. apply (H j i key).
    + apply Nat.eqb_neq in Hj. by rewrite Hj.
    + by rewrite Nat.eqb_refl, Hi.
  - intros H a b x Ha Hb. destruct (Nat.eqb_spec a i) as [->|Ea], (Nat.eqb_spec b i) as [->|Eb]; [done| | |eauto].
    + destruct (ks !! i) as [y|] eqn:E; [|done]. simplify_eq/=. destruct H. eauto.
    + destruct (ks !! i) as [y|] eqn:E; [|done]. simplify_eq/=. destruct H. eauto.
Qed.

Lemma edited_NoDup e m next :
  NoDup (obj_keys m) → edited_entries e m = Some next → NoDup next.*1 ↔ ¬ conflicts e m.
Proof.
  unfold obj_keys. intros Hnd. destruct e; simpl; intros Hn; simplify_eq.
  - rewrite (patch_at_fmap _ _ fst (λ _, key)) by done. rewrite patch_key_NoDup by done.
    unfold obj_keys. by rewrite list_lookup_fmap, fmap_is_Some.
  - split; [tauto|]. intros _. assert ((patch_at i (λ p, (p.1, value)) m).*1 = m.*1) as ->; [|done].
    apply list_eq. intros j. rewrite !list_lookup_fmap, patch_at_lookup. by destruct (Nat.eqb j i), (m !! j).
  - split; [tauto|]. intros _. eapply sublist_NoDup; [exact Hnd|]. apply fmap_sublist, remove_at_sublist.
  - split; [tauto|]. intros _. by rewrite (move_perm _ _ _ _ Hn).
  - rewrite fmap_app. simpl. rewrite NoDup_app. unfold obj_keys. split.
    + intros (_ & Hd & _) He. apply (Hd _ He). by left.
    + intros Hc. split_and!; [done| |apply NoDup_singleton]. intros x Hx ->%list_elem_of_singleton. done.
Qed.

(** An edit in the form of a decision commits exactly the branches the
    form shows after it (an object orders its keys itself), unless the edit
    gives two of them the same expression, by typing the expression of another
    branch or by adding a branch while one has none: then a branch is lost
    without a word. *)
Theorem branch_edit_exact e m next :
  obj_wf m = true → edited_entries e m = Some next →
  (¬ conflicts e m → edited_branches e m = Some (obj_from_entries next) ∧ obj_from_entries next ≡ₚ next) ∧
  (conflicts e m → ∃ m', edited_branches e m = Some m' ∧ length m' < length next).
Proof.
  intros Hwf%keys_ok_NoDup He. unfold edited_branches. rewrite He.
  pose proof (edited_NoDup _ _ _ Hwf He) as Hd. split.
  - intros Hc. split; [done|]. by apply from_entries_perm, Hd.
  - intros Hc. eexists. split; [done|]. apply from_entries_loses. rewrite Hd. tauto.
Qed.

Lemma branch_edit_exact_witness :
  obj_from_entries [("a", "x"); ("c", "y")] ≡ₚ [("a", "x"); ("c", "y")] ∧
  (∃ m', edited_branches (PatchKey 1 "a") [("a", "x"); ("b", "y")] = Some m' ∧ length m' < 2).
Proof.
  split.
  - apply (branch_edit_exact (PatchKey 1 "c") [("a", "x"); ("b", "y")]); [vm_compute; reflexivity|reflexivity|].
    intros [_ (j & Hj & Hk)]. destruct j as [|[|j]]; [discriminate Hk|exact (Hj eq_refl)|discriminate Hk].
  - apply (branch_edit_exact (PatchKey 1 "a") [("a", "x"); ("b", "y")] [("a", "x"); ("a", "y")]);
      [vm_compute; reflexivity|reflexivity|].
    split; [eexists; reflexivity|]. exists 0. split; [discriminate|reflexivity].
Defined.

(** Moving a row and moving it back restores the order. *)
Theorem move_back {A} i up (l l' : list A) :
  move i up l = Some l' → move (if up then Nat.pred i else S i) (negb up) l' = Some l.
Proof.
  intros (j & a & b & Hj & Hup & Ha & Hb & ->)%move_spec. rewrite <- Hj.
  assert (i ≠ j) as Hne by (destruct up; [specialize (Hup eq_refl)|]; lia).
  unfold move. rewrite !length_insert.
  replace (Z.of_nat j + (if negb up then -1 else 1))%Z with (Z.of_nat i)
    by (destruct up; [specialize (Hup eq_refl)|]; simpl; lia).
  rewrite Nat2Z.id. pose proof (lookup_lt_Some _ _ _ Ha). pose proof (lookup_lt_Some _ _ _ Hb).
  replace (orb _ _) with false by (symmetry; apply orb_false_iff; rewrite Z.ltb_ge, Z.leb_gt; lia).
  rewrite list_lookup_insert_ne by done. rewrite list_lookup_insert_eq by done.
  rewrite list_lookup_insert_eq by (by rewrite length_insert). f_equal.
  apply list_eq. intros k. destruct (decide (k = j)) as [->|]; [rewrite list_lookup_insert_eq by (by rewrite !length_insert); done|].
  rewrite list_lookup_insert_ne by done. destruct (decide (k = i)) as [->|];
    [rewrite list_lookup_insert_eq by (by rewrite !length_insert); done|].
  by rewrite !list_lookup_insert_ne by done.
Qed.

(** ** Renaming from the panel *)

(** Renaming in a state whose steps are all well formed never leaves a hole. *)
Lemma renameStep_cases o n st :
  store_ok st → o ≠ n →
  (n ∉ step_ids (ws_definition st) ∧ ∃ l, Forall2 (renamed_step o n) (wd_steps (ws_definition st)) l ∧
     renameStep o n st = Ok (edit (with_steps l (ws_definition st)) st)) ∨
  (n ∈ step_ids (ws_definition st) ∧ ∃ m, renameStep o n st = Throws m).
Proof.
  intros Hok Hne. unfold renameStep.
  destruct (renameStepId_cases (ws_definition st) o n) as [[? _]|[(_&Hin&m&->)|(_&Hin&[(l&Hl&->)|(l&Hl&Hr)])]]; [done| | |].
  - right. eauto.
  - left. split; [done|]. exists l. split; [|done]. unfold store_ok in Hok. revert Hok.
    induction Hl as [|s s' k k' Hs _ IH]; intros Hok; inversion_clear Hok as [|? ? [Hw Hk] Hr]; constructor; [|by apply IH].
    by apply remapStep_spec.
  - exfalso. apply (rename_no_holes (ws_definition st) o n l); [by apply steps_ok_wf| |done].
    apply forallb_forall. intros s Hs%list_elem_of_In. unfold store_ok, steps_ok in Hok. rewrite Forall_forall in Hok.
    by apply Hok.
Qed.

(** Renaming from the panel never fails in a well-formed state: a blank
    text or the id itself changes nothing, a free id is given to the step and
    all its references and stays selected, and a taken id is refused with a
    message and no change. *)
Theorem panel_rename step newId st :
  store_ok st → step ∈ wd_steps (ws_definition st) →
  let n := js_trim newId in
  ∃ st' err, handleRename step newId st = Ok (st', err) ∧
    (n = EmptyString ∨ n = step_id step → st' = st ∧ err = None) ∧
    (n ≠ EmptyString → n ≠ step_id step → n ∈ step_ids (ws_definition st) → st' = st ∧ is_Some err) ∧
    (n ≠ EmptyString → n ∉ step_ids (ws_definition st) →
       err = None ∧ ws_selection st' = SelStep n ∧
       Forall2 (renamed_step (step_id step) n) (wd_steps (ws_definition st)) (wd_steps (ws_definition st'))).
Proof.
  intros Hok Hs n. unfold handleRename. fold n. 
  destruct (orb _ _) eqn:E.
  - exists st, None. split; [done|]. split; [done|]. apply orb_true_iff in E as [E|E]; apply String.eqb_eq in E.
    + naive_solver.
    + split; [done|]. intros _ Hn. destruct Hn. rewrite E. by apply list_elem_of_fmap_2.
  - apply orb_false_iff in E as [E1 E2]. apply String.eqb_neq in E1, E2.
    destruct (renameStep_cases (step_id step) n st Hok ltac:(done)) as [(Hn & l & Hl & ->)|(Hn & m & ->)].
    + eexists _, None. split; [done|]. naive_solver.
    + eexists st, (Some m). split; [done|]. naive_solver.
Qed.

Lemma panel_rename_witness :
  ∃ st' err, handleRename (EndStep (common "done" "Done")) " finished " (edit order_def initialState) = Ok (st', err) ∧
    err = None ∧ ws_selection st' = SelStep "finished".
Proof.
  destruct (panel_rename (EndStep (common "done" "Done")) " finished " (edit order_def initialState))
    as (st' & err & H & _ & _ & H3).
  - unfold store_ok, steps_ok. repeat constructor.
  - apply list_elem_of_In. simpl. tauto.
  - exists st', err. split; [exact H|].
    assert (js_trim " finished " ≠ EmptyString) as Hn by (vm_compute; discriminate).
    destruct (H3 Hn) as (H4 & H5 & _); [|split; assumption].
    apply includes_false. vm_compute. reflexivity.
Defined.

(** The panel of an END step has none of these guards: leaving its id
    field empty gives the step the empty id, and a taken id throws. *)
Theorem end_form_unguarded step st :
  store_ok st → step ∈ wd_steps (ws_definition st) → step_id step ≠ EmptyString →
  (EmptyString ∉ step_ids (ws_definition st) →
     ∃ st', end_form_rename step EmptyString st = Ok st' ∧ EmptyString ∈ step_ids (ws_definition st')) ∧
  (∀ v, v ≠ step_id step → v ∈ step_ids (ws_definition st) → ∃ m, end_form_rename step v st = Throws m).
Proof.
  intros Hok Hs Hne. unfold end_form_rename. split.
  - intros Hn. destruct (String.eqb_spec EmptyString (step_id step)) as [|_]; [congruence|].
    destruct (renameStep_cases (step_id step) EmptyString st Hok Hne) as [(_ & l & Hl & ->)|[? _]]; [|done].
    eexists. split; [done|]. simpl. unfold step_ids. simpl.
    apply list_elem_of_lookup in Hs as [i Hi]. destruct (Forall2_lookup_l _ _ _ _ _ Hl Hi) as (s' & Hs' & Hid & _).
    apply list_elem_of_fmap. exists s'. split; [|by eapply list_elem_of_lookup_2]. by rewrite Hid, remap_old.
  - intros v Hv Hin. destruct (String.eqb_spec v (step_id step)) as [|_]; [done|].
    destruct (renameStep_cases (step_id step) v st Hok ltac:(done)) as [[? _]|[_ ?]]; done.
Qed.

Lemma end_form_unguarded_witness :
  ∃ st', end_form_rename (EndStep (common "done" "Done")) EmptyString (edit order_def initialState) = Ok st' ∧
    EmptyString ∈ step_ids (ws_definition st').
Proof.
  apply (end_form_unguarded (EndStep (common "done" "Done")) (edit order_def initialState)).
  - unfold store_ok, steps_ok. repeat constructor.
  - apply list_elem_of_In. simpl. tauto.
  - discriminate.
  - apply includes_false. vm_compute. reflexivity.
Defined.
