(* ===== verification/TableForm.v ===== *)
(** * Literals, transformations and decision tables in the property panel
    (workflow-modeller/src/panels/property-forms/TransformationForm.tsx,
    DecisionTableForm.tsx, FormPrimitives.tsx)

    How a text typed into a cell becomes a JSON value and back, the rows of the
    list of transformations, every edit of a decision table, and the
    fields its cells are shown in. *)

From S2P Require Import Prelude JsObject Types Graph Rename Validate Schema ImportExport Store StoreProps StoreInv StepEdits Layout Canvas Forms.

(** ** Decimal numbers

    [Number(text)] of a text that matches [/^-?\d+(\.\d+)?$/]: the double
    nearest to the decimal, ties to even. *)

(** The digits at the front of a text, as a number with their count, and the rest. *)
Fixpoint take_digits (acc : N) (count : nat) (s : string) : N * nat * string :=
  match s with
  | String c s' => match digit_val c with
                   | Some d => take_digits (acc * 10 + d) (S count) s'
                   | None => (acc, count, s)
                   end
  | EmptyString => (acc, count, s)
  end.

(** The decimal [(-1)^neg * n / 10^k]. *)
Record Decimal := mkDecimal { dec_neg : bool; dec_n : N; dec_k : nat }.

Definition read_decimal (s : string) : option Decimal :=
  let '(neg, body) := match s with String "-" s' => (true, s') | _ => (false, s) end in
  match take_digits 0 0 body with
  | (_, O, _) => None
  | (n, _, EmptyString) => Some (mkDecimal neg n 0)
  | (n, _, String "." frac) =>
      match take_digits n 0 frac with
      | (_, O, _) => None
      | (n, k, EmptyString) => Some (mkDecimal neg n k)
      | _ => None
      end
  | _ => None
  end.

(** [a / b] to the nearest integer, ties to even. *)
Definition round_div (a b : Z) : Z :=
  let q := (a / b)%Z in
  let r := (2 * (a mod b))%Z in
  if (r <? b)%Z then q else if (b <? r)%Z then (q + 1)%Z else if Z.even q then q else (q + 1)%Z.

(** [a / (b * 2^e)] to the nearest integer. *)
Definition scaled (a b e : Z) : Z :=
  if (0 <=? e)%Z then round_div a (b * 2 ^ e) else round_div (a * 2 ^ (- e)) b.

(** Factors of two taken out of the mantissa, down to exponent 0. *)
Fixpoint shrink (fuel : nat) (m e : Z) : jsnum :=
  match fuel with
  | O => JsNum m e
  | S fuel => if ((e <? 0) && Z.even m)%Z%bool then shrink fuel (m / 2) (e + 1) else JsNum m e
  end.

(** [None] is infinity. *)
Definition to_double (d : Decimal) : option jsnum :=
  let a := Z.of_N (dec_n d) in
  let b := (10 ^ Z.of_nat (dec_k d))%Z in
  if (a =? 0)%Z then Some (num_of_Z 0)
  else
    let e0 := (Z.log2 a - Z.log2 b - 53)%Z in
    let e1 := if (a <? b * 2 ^ 53 * 2 ^ e0)%Z && (0 <=? e0)%Z || (a * 2 ^ (- e0) <? b * 2 ^ 53)%Z && (e0 <? 0)%Z
              then e0 else (e0 + 1)%Z in
    let e := Z.max e1 (-1074) in
    let m := scaled a b e in
    if (2 ^ 1024 <=? m * 2 ^ e)%Z && (0 <=? e)%Z then None
    else Some (let x := shrink 1100 m e in JsNum (if dec_neg d then - mant x else mant x)%Z (expo x)).

(** ** Literals *)

Definition starts_with (p s : string) : bool := String.prefix p s.

Fixpoint ends_with_char (c : ascii) (s : string) : bool :=
  match s with
  | EmptyString => false
  | String d EmptyString => Ascii.eqb d c
  | String _ s' => ends_with_char c s'
  end.

(** What a typed text becomes: a JSON value, or a number too large for JSON. *)
Inductive Typed := TJson (v : json) | TInfinity.

Section literals.
Context `{JsonText}.

Definition parseOutputValue (raw : string) : Typed :=
  let trimmed := js_trim raw in
  if (starts_with "${" trimmed && ends_with_char "}" trimmed)%bool then TJson (JStr raw)
  else if String.eqb trimmed "true" then TJson (JBool true)
  else if String.eqb trimmed "false" then TJson (JBool false)
  else if String.eqb trimmed "null" then TJson JNull
  else
    match read_decimal trimmed with
    | Some d => match to_double d with Some n => TJson (JNum n) | None => TInfinity end
    | None =>
        if (starts_with dq trimmed && ends_with_char (chr 34) trimmed
            || starts_with "[" trimmed && ends_with_char "]" trimmed
            || starts_with "{" trimmed && ends_with_char "}" trimmed)%bool
        then match JSON_parse trimmed with inl v => TJson v | inr _ => TJson (JStr raw) end
        else TJson (JStr raw)
    end.

(** The copy in TransformationForm.tsx. *)
Definition maybeParseLiteral (raw : string) : Typed := parseOutputValue raw.

Definition renderOutputValue (value : option json) : string :=
  match value with
  | None => EmptyString
  | Some (JStr s) => s
  | Some v => JSON_stringify v
  end.

(** ** TransformationForm and its KeyValueList *)

(** The rows shown: keys with the texts of their values. *)
Definition rows_of (t : obj json) : list (string * string) := (λ p, (p.1, renderOutputValue (Some p.2))) <$> t.

Inductive RowEdit :=
| RowKey (i : nat) (key : string)
| RowValue (i : nat) (value : string)
| RowRemove (i : nat)
| RowMove (i : nat) (up : bool)
| RowAdd.

Definition edited_rows (e : RowEdit) (rows : list (string * string)) : option (list (string * string)) :=
  match e with
  | RowKey i key => Some (patch_at i (λ r, (key, r.2)) rows)
  | RowValue i value => Some (patch_at i (λ r, (r.1, value)) rows)
  | RowRemove i => Some (remove_at i rows)
  | RowMove i up => move i up rows
  | RowAdd => Some (rows ++ [(EmptyString, EmptyString)])
  end.

Definition parse_row (r : string * string) : option (string * json) :=
  match maybeParseLiteral r.2 with TJson v => Some (r.1, v) | TInfinity => None end.

(** The object [commit] builds: rows without a key are skipped.  [None] when a
    value is infinite and the object is no JSON value. *)
Definition committed (rows : list (string * string)) : option (obj json) :=
  match mapM parse_row (List.filter (λ r, truthy_str r.1) rows) with
  | Some l => Some (fold_left (λ o r, obj_assign r.1 r.2 o) l [])
  | None => None
  end.

(** What an edit makes of the transformations; the second [option] is [None]
    when the edit commits nothing. *)
Definition edited_transformations (e : RowEdit) (t : obj json) : option (option (obj json)) :=
  match edited_rows e (rows_of t) with
  | Some rows => match committed rows with Some o => Some (Some o) | None => None end
  | None => Some None
  end.

Definition edit_transformations (e : RowEdit) (id : StepId) (t : obj json) (st : WorkflowState) :
    Result WorkflowState :=
  match edited_transformations e t with
  | Some (Some o) => updateStepProperty id "transformations" (Some (JObj o)) st
  | Some None => Ok st
  | None => IllTyped
  end.

(** The transformations after a sequence of edits. *)
Fixpoint run_row_edits (es : list RowEdit) (t : obj json) : option (obj json) :=
  match es with
  | [] => Some t
  | e :: es =>
      match edited_transformations e t with
      | Some (Some o) => run_row_edits es o
      | Some None => run_row_edits es t
      | None => None
      end
  end.
End literals.

(** ** Rows *)

Section rows.
Context `{JsonText}.

Lemma assign_all_keys (l : list (string * json)) acc k :
  k ∈ obj_keys (fold_left (λ o r, obj_assign r.1 r.2 o) l acc) → k ∈ obj_keys acc ∨ k ∈ l.*1.
Proof.
  revert acc. induction l as [|[k' v] l IH]; intros acc Hk; [by left|]. cbn [fold_left fst snd] in Hk.
  apply IH in Hk as [Hk|Hk]; [|right; by right]. unfold obj_assign in Hk.
  destruct (String.eqb k' "__proto__"); [by left|]. apply obj_set_keys in Hk as [->|Hk]; [right; by left|by left].
Qed.

Lemma assign_all_NoDup (l : list (string * json)) acc :
  NoDup (obj_keys acc) → NoDup (obj_keys (fold_left (λ o r, obj_assign r.1 r.2 o) l acc)).
Proof.
  revert acc. induction l as [|[k v] l IH]; intros acc Ha; [done|]. cbn [fold_left fst snd]. apply IH.
  unfold obj_assign. destruct (String.eqb k "__proto__"); [done|by apply obj_set_NoDup].
Qed.

Lemma parse_rows_keys rows l : mapM parse_row rows = Some l → l.*1 = rows.*1.
Proof.
  intros Hm%mapM_Some. induction Hm as [|[k s] y rows l Hy _ IH]; [done|]. rewrite !fmap_cons, IH.
  unfold parse_row in Hy. destruct (maybeParseLiteral _); simplify_eq. done.
Qed.

(** A commit has at most one member for each row with a key. *)
Lemma committed_length rows o :
  committed rows = Some o → length o ≤ length (List.filter (λ r, truthy_str r.1) rows).
Proof.
  unfold committed. destruct (mapM _ _) as [l|] eqn:E; [|done]. intros [= <-].
  pose proof (parse_rows_keys _ _ E) as Hk. rewrite <- (length_fmap fst), <- (length_fmap fst (List.filter _ _)), <- Hk.
  apply submseteq_length, NoDup_submseteq; [apply assign_all_NoDup; constructor|].
  intros k Hin. by apply assign_all_keys in Hin as [?%not_elem_of_nil|].
Qed.

Lemma edited_rows_length e rows rows' :
  edited_rows e rows = Some rows' →
  length (List.filter (λ r, truthy_str r.1) rows') ≤ length rows.
Proof.
  assert (∀ k : list (string * string), length (List.filter (λ r, truthy_str r.1) k) ≤ length k) as Hf
    by (intros k; apply List.filter_length_le).
  destruct e; simpl; intros He; simplify_eq.
  - etransitivity; [apply Hf|]. unfold patch_at. by rewrite length_imap.
  - etransitivity; [apply Hf|]. unfold patch_at. by rewrite length_imap.
  - etransitivity; [apply Hf|]. by apply sublist_length, remove_at_sublist.
  - etransitivity; [apply Hf|]. by rewrite (move_perm _ _ _ _ He).
  - rewrite List.filter_app, length_app. simpl. specialize (Hf rows). lia.
Qed.

Lemma edited_length e t o : edited_transformations e t = Some (Some o) → length o ≤ length t.
Proof.
  unfold edited_transformations. destruct (edited_rows e (rows_of t)) as [rows|] eqn:E; [|done].
  destruct (committed rows) as [o'|] eqn:Ec; [|done]. intros [= <-].
  pose proof (committed_length _ _ Ec). pose proof (edited_rows_length _ _ _ E).
  unfold rows_of in *. rewrite length_fmap in *. lia.
Qed.

(** A value that reads back from its text. *)
Definition stable (v : json) : Prop := maybeParseLiteral (renderOutputValue (Some v)) = TJson v.

Lemma committed_unedited t :
  obj_wf t = true → "__proto__" ∉ obj_keys t → EmptyString ∉ obj_keys t →
  committed (rows_of t) = Some t ↔ Forall (λ p, stable p.2) t.
Proof.
  intros Hwf Hp He. unfold committed.
  replace (List.filter _ (rows_of t)) with (rows_of t).
  2: { symmetry. apply filter_all, forallb_forall. intros r Hr%list_elem_of_In. apply truthy_str_true. intros Hk.
       apply He. unfold rows_of in Hr. apply list_elem_of_fmap in Hr as (p & -> & Hin). simpl in Hk. rewrite <- Hk.
       by apply (list_elem_of_fmap_2 fst). }
  assert (mapM parse_row (rows_of t) = Some t ↔ Forall (λ p, stable p.2) t) as Hm.
  { rewrite mapM_Some. unfold rows_of. rewrite Forall2_fmap_l. clear. induction t as [|[k v] t IH]; [by split; constructor|].
    rewrite Forall2_cons, Forall_cons, IH. unfold parse_row, stable. simpl.
    destruct (maybeParseLiteral _); naive_solver. }
  split.
  - destruct (mapM _ _) as [l|] eqn:E; [|done]. intros [= Heq]. apply Hm. f_equal. rewrite <- Heq.
    pose proof (parse_rows_keys _ _ E) as Hk. assert (l.*1 = obj_keys t) as Hl.
    { rewrite Hk. unfold rows_of, obj_keys. by rewrite <- list_fmap_compose. }
    symmetry. etransitivity; [apply (obj_assign_all (λ v : json, v) l)|].
    + unfold obj_wf, obj_keys. rewrite Hl. exact Hwf.
    + unfold obj_keys. by rewrite Hl.
    + clear. induction l as [|[k v] l IH]; [done|]. by rewrite fmap_cons, IH.
  - intros Hs%Hm. rewrite Hs. f_equal. etransitivity; [apply (obj_assign_all (λ v : json, v) t)|]; [done|done|].
    clear. induction t as [|[k v] l IH]; [done|]. by rewrite fmap_cons, IH.
Qed.
End rows.

(** C26: no sequence of edits in the form of a transformation step, "add row"
    included, ever gives it more transformations than it had: a row without a
    key is dropped by the commit that would show it. *)
Theorem transformations_never_grow `{JsonText} es t t' :
  run_row_edits es t = Some t' → length t' ≤ length t.
Proof.
  revert t. induction es as [|e es IH]; intros t Hr; simpl in Hr; [by simplify_eq|].
  destruct (edited_transformations e t) as [[o|]|] eqn:E; [|by apply IH|done].
  apply edited_length in E. apply IH in Hr. lia.
Qed.

Lemma transformations_never_grow_witness :
  ∃ t', run_row_edits [RowAdd; RowKey 0 "total"; RowValue 0 "1"] [] = Some t' ∧ length t' ≤ 0.
Proof.
  exists []. split; [vm_compute; reflexivity|].
  apply (transformations_never_grow [RowAdd; RowKey 0 "total"; RowValue 0 "1"] []). vm_compute. reflexivity.
Defined.

Lemma patch_same {A} i (f : A → A) (l : list A) x : l !! i = Some x → f x = x → patch_at i f l = l.
Proof.
  intros Hi Hf. apply list_eq. intros j. rewrite patch_at_lookup. destruct (Nat.eqb_spec j i) as [->|]; [|done].
  rewrite Hi. simpl. by rewrite Hf.
Qed.

(** Leaving a field of the form without a change commits all rows again:
    the transformations stay as they are exactly when every value reads back
    from its text, which texts like "true", "42" or "007" do not. *)
Theorem transformation_blur_iff `{JsonText} t i k s :
  obj_wf t = true → "__proto__" ∉ obj_keys t → EmptyString ∉ obj_keys t → rows_of t !! i = Some (k, s) →
  edited_transformations (RowValue i s) t = edited_transformations (RowKey i k) t ∧
  (edited_transformations (RowValue i s) t = Some (Some t) ↔ Forall (λ p, stable p.2) t).
Proof.
  intros Hwf Hp He Hi. unfold edited_transformations. cbn [edited_rows].
  rewrite (patch_same _ (λ r, (r.1, s)) _ _ Hi), (patch_same _ (λ r, (k, r.2)) _ _ Hi) by done.
  split; [done|]. rewrite <- committed_unedited by done. destruct (committed (rows_of t)); naive_solver.
Qed.

Lemma transformation_blur_iff_witness :
  edited_transformations (RowValue 0 "007") [("code", JStr "007")] = Some (Some [("code", JNum (num_of_Z 7))]) ∧
  edited_transformations (RowValue 0 "${a + 1}") [("b", JStr "${a + 1}")] = Some (Some [("b", JStr "${a + 1}")]).
Proof.
  split; [vm_compute; reflexivity|].
  apply (transformation_blur_iff [("b", JStr "${a + 1}")] 0 "b" "${a + 1}").
  - vm_compute; reflexivity.
  - apply includes_false. vm_compute. reflexivity.
  - apply includes_false. vm_compute. reflexivity.
  - reflexivity.
  - constructor; [vm_compute; reflexivity|constructor].
Defined.

(** ** DecisionTableForm *)

Abbreviation Rule := DecisionTableRule.

Definition with_when (w : obj string) (r : Rule) : Rule := mkRule w (r_outputs r) (r_extra r).
Definition with_outputs (o : obj json) (r : Rule) : Rule := mkRule (r_when r) o (r_extra r).

(** [if (!seen.includes(key)) seen.push(key)] *)
Definition push_new (seen : list string) (key : string) : list string :=
  if includes seen key then seen else seen ++ [key].

Definition collectInputColumns (rules : list Rule) : list string :=
  fold_left push_new (rules ≫= λ r, obj_keys (r_when r)) [].

Definition collectOutputColumns (rules : list Rule) : list string :=
  fold_left push_new (rules ≫= λ r, obj_keys (r_outputs r)) [].

(** What the dialog resolves to when a text is submitted: a blank text cannot
    be submitted and one [validate] complains about keeps it open. *)
Definition prompted (taken : string → bool) (value : string) : option string :=
  if (String.eqb (js_trim value) EmptyString || taken value)%bool then None else Some value.

Inductive TableEdit :=
| CellPatch (i : nat) (column expr : string)
| OutputPatch (i : nat) (column raw : string)
| RuleMove (i : nat) (up : bool)
| RuleRemove (i : nat)
| RuleAdd
| InputAdd (typed : string)
| InputRename (oldName typed : string)
| InputRemove (name : string)
| OutputAdd (typed : string)
| OutputRename (oldName typed : string)
| OutputRemove (name : string).

(** Nothing is committed, the rules committed, or a value that is no JSON. *)
Inductive Committed := NoCommit | Commit (rules : list Rule) | NotJson.

(** [for (const [k, v] of Object.entries(o)) next[k === oldName ? newName : k] = v] *)
Definition rename_key {V} (oldName newName : string) (o : obj V) : obj V :=
  fold_left (λ next p, obj_assign (if String.eqb p.1 oldName then newName else p.1) p.2 next) o [].

Definition blank_cells {V} (blank : V) (columns : list string) : obj V :=
  fold_left (λ o col, obj_assign col blank o) columns [].

Section table.
Context `{JsonText}.

Definition edited_rules (e : TableEdit) (rules : list Rule) : Committed :=
  match e with
  | CellPatch i column expr =>
      match rules !! i with
      | None => NoCommit
      | Some rule =>
          let w := if String.eqb expr EmptyString then obj_delete column (r_when rule)
                   else obj_assign column expr (r_when rule) in
          Commit (patch_at i (with_when w) rules)
      end
  | OutputPatch i column raw =>
      match rules !! i with
      | None => NoCommit
      | Some rule =>
          if String.eqb raw EmptyString
          then Commit (patch_at i (with_outputs (obj_delete column (r_outputs rule))) rules)
          else match parseOutputValue raw with
               | TJson v => Commit (patch_at i (with_outputs (obj_assign column v (r_outputs rule))) rules)
               | TInfinity => NotJson
               end
      end
  | RuleMove i up => match move i up rules with Some next => Commit next | None => NoCommit end
  | RuleRemove i => Commit (remove_at i rules)
  | RuleAdd =>
      Commit (rules ++ [mkRule (blank_cells EmptyString (collectInputColumns rules))
                               (blank_cells (JStr EmptyString) (collectOutputColumns rules)) []])
  | InputAdd typed =>
      match prompted (includes (collectInputColumns rules)) typed with
      | Some name => Commit ((λ r, with_when (obj_set name EmptyString (r_when r)) r) <$> rules)
      | None => NoCommit
      end
  | InputRename oldName typed =>
      match prompted (λ v, negb (String.eqb v oldName) && includes (collectInputColumns rules) v)%bool typed with
      | Some newName =>
          if String.eqb newName oldName then NoCommit
          else Commit ((λ r, if obj_in oldName (r_when r)
                             then with_when (rename_key oldName newName (r_when r)) r else r) <$> rules)
      | None => NoCommit
      end
  | InputRemove name =>
      Commit ((λ r, if obj_in name (r_when r) then with_when (obj_delete name (r_when r)) r else r) <$> rules)
  | OutputAdd typed =>
      match prompted (includes (collectOutputColumns rules)) typed with
      | Some name =>
          if Nat.eqb (length rules) 0 then NoCommit
          else Commit ((λ r, with_outputs (obj_set name (JStr EmptyString) (r_outputs r)) r) <$> rules)
      | None => NoCommit
      end
  | OutputRename oldName typed =>
      match prompted (λ v, negb (String.eqb v oldName) && includes (collectOutputColumns rules) v)%bool typed with
      | Some newName =>
          if String.eqb newName oldName then NoCommit
          else Commit ((λ r, if obj_in oldName (r_outputs r)
                             then with_outputs (rename_key oldName newName (r_outputs r)) r else r) <$> rules)
      | None => NoCommit
      end
  | OutputRemove name =>
      Commit ((λ r, if obj_in name (r_outputs r) then with_outputs (obj_delete name (r_outputs r)) r else r) <$> rules)
  end.

(** [commitRules]: the other members of the table are kept. *)
Definition edit_table (e : TableEdit) (id : StepId) (t : DecisionTable) (st : WorkflowState) : Result WorkflowState :=
  match edited_rules e (dt_rules t) with
  | Commit next => updateStepProperty id "decisionTable" (Some (table_json (mkTable next (dt_extra t)))) st
  | NoCommit => Ok st
  | NotJson => IllTyped
  end.

Definition commitHitPolicy (id : StepId) (value : string) := updateStepProperty id "hitPolicy" (Some (JStr value)).
Definition commitNextStep (id : StepId) (value : string) := updateStepProperty id "nextStep" (Some (JStr value)).
End table.

(** ** Columns *)

Lemma push_all_spec ks seen :
  NoDup seen → NoDup (fold_left push_new ks seen) ∧ ∀ k, k ∈ fold_left push_new ks seen ↔ k ∈ seen ∨ k ∈ ks.
Proof.
  revert seen. induction ks as [|x ks IH]; intros seen Hnd; [set_solver|]. cbn [fold_left].
  destruct (includes seen x) eqn:E.
  - replace (push_new seen x) with seen by (unfold push_new; by rewrite E). apply includes_true in E. destruct (IH seen Hnd) as [? Hk]. split; [done|]. intros k. rewrite Hk. set_solver.
  - replace (push_new seen x) with (seen ++ [x]) by (unfold push_new; by rewrite E).
    apply includes_false in E. destruct (IH (seen ++ [x])) as [? Hk]; [apply NoDup_app; split_and!; [done|set_solver|apply NoDup_singleton]|].
    split; [done|]. intros k. rewrite Hk. set_solver.
Qed.

Lemma input_columns_elem rules k :
  k ∈ collectInputColumns rules ↔ ∃ r, r ∈ rules ∧ k ∈ obj_keys (r_when r).
Proof.
  unfold collectInputColumns. destruct (push_all_spec (rules ≫= λ r, obj_keys (r_when r)) []) as [_ Hk]; [constructor|].
  rewrite Hk, list_elem_of_bind. set_solver.
Qed.

Lemma obj_spread_lookup {V} (a l : obj V) k :
  NoDup l.*1 → obj_get (obj_spread a l) k = match obj_get l k with Some v => Some v | None => obj_get a k end.
Proof.
  unfold obj_spread. revert a. induction l as [|[x v] l IH]; intros a Hnd; [done|].
  rewrite fmap_cons in Hnd. apply NoDup_cons in Hnd as [Hx Hnd]. simpl in Hx. cbn [fold_left fst snd obj_get]. rewrite IH, obj_get_set by done.
  destruct (String.eqb_spec k x) as [->|]; [|done]. apply obj_get_None in Hx. by rewrite Hx.
Qed.

Section rename_key.
Context {V : Type} (o n : string) (w : obj V).
Context (Hp : "__proto__" ∉ obj_keys w) (Hnp : n ≠ "__proto__").
Let f (x : string) : string := if String.eqb x o then n else x.

Lemma rename_key_spread : rename_key o n w = obj_spread [] (prod_map f id <$> w).
Proof using Hp Hnp.
  unfold rename_key, obj_spread. generalize (@nil (string * V)). clear -Hp Hnp.
  induction w as [|[x v] l IH]; intros acc; [done|].
  unfold obj_keys in Hp. rewrite fmap_cons, not_elem_of_cons in Hp. destruct Hp as [Hx Hp'].
  rewrite fmap_cons. cbn [fold_left]. rewrite <- IH by done. f_equal. unfold obj_assign. simpl. unfold f.
  destruct (String.eqb_spec x o) as [->|].
  - by destruct (String.eqb_spec n "__proto__").
  - destruct (String.eqb_spec x "__proto__"); [naive_solver|done].
Qed.

Context (Hnd : NoDup (obj_keys w)) (Hn : n ∉ obj_keys w).

Lemma renamed_keys_NoDup : NoDup (prod_map f id <$> w).*1.
Proof using Hnd Hn.
  clear -Hnd Hn. unfold obj_keys in *. induction w as [|[x v] l IH]; [constructor|].
  rewrite fmap_cons, not_elem_of_cons in Hn. destruct Hn as [Hx Hn']. rewrite fmap_cons in Hnd.
  apply NoDup_cons in Hnd as [Hxl Hnd']. rewrite !fmap_cons. constructor; [|by apply IH].
  intros (q & Hq & (p & -> & Hin)%list_elem_of_fmap)%list_elem_of_fmap. simpl in *. unfold f in Hq.
  apply (list_elem_of_fmap_2 fst) in Hin. simpl in Hin.
  destruct (String.eqb_spec x o), (String.eqb_spec p.1 o); congruence.
Qed.

Lemma renamed_lookup k :
  o ≠ n → obj_get (prod_map f id <$> w) k =
  if String.eqb k n then obj_get w o else if String.eqb k o then None else obj_get w k.
Proof using Hn.
  clear -Hn. intros Hon. unfold obj_keys in Hn. induction w as [|[x v] l IH].
  - simpl. by repeat destruct (String.eqb _ _).
  - rewrite fmap_cons, not_elem_of_cons in Hn. destruct Hn as [Hx Hn']. specialize (IH Hn').
    rewrite fmap_cons. cbn [obj_get prod_map fst snd]. rewrite IH. unfold f. simpl in Hx.
    destruct (String.eqb_spec x o) as [->|Hxo].
    + rewrite String.eqb_refl. by destruct (String.eqb_spec k n), (String.eqb_spec k o).
    + destruct (String.eqb_spec k x) as [->|], (String.eqb_spec o x) as [->|]; try done.
      by destruct (String.eqb_spec x n), (String.eqb_spec x o).
Qed.

(** Renaming a key of an object to one it does not have. *)
Lemma rename_key_get k :
  o ≠ n → obj_get (rename_key o n w) k =
  if String.eqb k n then obj_get w o else if String.eqb k o then None else obj_get w k.
Proof using Hp Hnp Hnd Hn.
  intros Hon. rewrite rename_key_spread, obj_spread_lookup by apply renamed_keys_NoDup.
  rewrite renamed_lookup by done. by destruct (if String.eqb k n then _ else _).
Qed.
End rename_key.

(** One cell row with a column renamed, as the form computes it. *)
Definition renamed_row {V} (o n : string) (w : obj V) : obj V := if obj_in o w then rename_key o n w else w.

(** Distinct columns, none of them [__proto__]. *)
Definition row_ok {V} (w : obj V) : Prop := NoDup (obj_keys w) ∧ "__proto__" ∉ obj_keys w.

Lemma renamed_row_get {V} o n (w : obj V) k :
  row_ok w → n ∉ obj_keys w → n ≠ "__proto__" → o ≠ n →
  obj_get (renamed_row o n w) k =
  if String.eqb k n then obj_get w o else if String.eqb k o then None else obj_get w k.
Proof.
  intros [Hnd Hp] Hn Hnp Hon. unfold renamed_row. destruct (obj_in o w) eqn:E; [by apply rename_key_get|].
  unfold obj_in in E. apply orb_false_iff in E as [Ho _]. apply obj_has_false, obj_get_None in Ho.
  apply obj_get_None in Hn. destruct (String.eqb_spec k n) as [->|]; [congruence|].
  by destruct (String.eqb_spec k o) as [->|].
Qed.

Lemma renamed_row_ok {V} o n (w : obj V) :
  row_ok w → n ∉ obj_keys w → n ≠ "__proto__" → o ≠ n → row_ok (renamed_row o n w).
Proof.
  intros Hw Hn Hnp Hon. split.
  - destruct Hw as [Hnd Hp]. unfold renamed_row. destruct (obj_in o w); [|done]. rewrite rename_key_spread by done.
    apply from_entries_NoDup.
  - apply obj_get_None. rewrite renamed_row_get by done. destruct (String.eqb_spec "__proto__" n); [done|].
    destruct (String.eqb "__proto__" o); [done|]. by apply obj_get_None, Hw.
Qed.

Lemma prompted_Some taken v name : prompted taken v = Some name → name = v ∧ taken v = false ∧ js_trim v ≠ EmptyString.
Proof.
  unfold prompted. destruct (String.eqb_spec (js_trim v) EmptyString); [done|]. simpl.
  destruct (taken v) eqn:E; [done|]. naive_solver.
Qed.

Section table_props.
Context `{JsonText}.

(** The rules after a rename of an input column. *)
Lemma input_rename_rules o typed rules next :
  edited_rules (InputRename o typed) rules = Commit next →
  o ≠ typed ∧ typed ∉ collectInputColumns rules ∧
  next = (λ r, with_when (renamed_row o typed (r_when r)) r) <$> rules.
Proof.
  unfold edited_rules. destruct (prompted _ typed) as [name|] eqn:E; [|done].
  apply prompted_Some in E as (-> & Ht & _). destruct (String.eqb_spec typed o) as [|Hne]; [done|]. simpl in Ht.
  intros [= <-]. split; [done|]. split; [by apply includes_false|]. apply list_fmap_ext. intros _ r _.
  unfold renamed_row, with_when. destruct (obj_in o (r_when r)); [done|]. by destruct r.
Qed.

(** Renaming an input column moves every cell of the column under the new
    name and touches nothing else: same rules in the same order, every other
    cell, every output and every other member as before. *)
Theorem column_rename_exact o typed rules next :
  Forall (λ r, row_ok (r_when r)) rules → typed ≠ "__proto__" →
  edited_rules (InputRename o typed) rules = Commit next →
  Forall2 (λ r r', r_outputs r' = r_outputs r ∧ r_extra r' = r_extra r ∧
                   obj_get (r_when r') typed = obj_get (r_when r) o ∧ obj_get (r_when r') o = None ∧
                   (∀ k, k ≠ o → k ≠ typed → obj_get (r_when r') k = obj_get (r_when r) k)) rules next.
Proof.
  intros Hok Hnp (Hne & Hcol & ->)%input_rename_rules. rewrite Forall_forall in Hok.
  apply Forall2_fmap_r. apply Forall2_same_length_lookup_2; [done|]. intros i r r' Hr Hr'.
  assert (r' = r) as -> by congruence. apply list_elem_of_lookup_2 in Hr.
  assert (typed ∉ obj_keys (r_when r)) as Hn by (intros Hin; apply Hcol, input_columns_elem; eauto).
  pose proof (λ k, renamed_row_get o typed (r_when r) k (Hok _ Hr) Hn Hnp Hne) as Hg. simpl.
  split_and!; [done|done| | |]; intros; rewrite Hg.
  - by rewrite String.eqb_refl.
  - rewrite String.eqb_refl. by destruct (String.eqb_spec o typed).
  - by destruct (String.eqb_spec k typed), (String.eqb_spec k o).
Qed.

(** Renaming an input column and renaming it back restores every cell. *)
Theorem column_rename_roundtrip o typed rules next next' :
  Forall (λ r, row_ok (r_when r)) rules → typed ≠ "__proto__" → o ≠ "__proto__" →
  edited_rules (InputRename o typed) rules = Commit next →
  edited_rules (InputRename typed o) next = Commit next' →
  Forall2 (λ r r', r_outputs r' = r_outputs r ∧ r_extra r' = r_extra r ∧
                   ∀ k, obj_get (r_when r') k = obj_get (r_when r) k) rules next'.
Proof.
  intros Hok Hnp Hop (Hne & Hcol & ->)%input_rename_rules (_ & Hcol' & ->)%input_rename_rules.
  rewrite Forall_forall in Hok. rewrite <- list_fmap_compose.
  apply Forall2_fmap_r, Forall2_same_length_lookup_2; [done|]. intros i r r' Hr Hr'.
  assert (r' = r) as -> by congruence. apply list_elem_of_lookup_2 in Hr.
  assert (typed ∉ obj_keys (r_when r)) as Hn by (intros Hin; apply Hcol, input_columns_elem; eauto).
  assert (o ∉ obj_keys (renamed_row o typed (r_when r))) as Ho.
  { apply obj_get_None. rewrite renamed_row_get by auto. rewrite String.eqb_refl. by destruct (String.eqb_spec o typed). }
  simpl. split_and!; [done|done|]. intros k.
  rewrite renamed_row_get by (auto using renamed_row_ok). rewrite !renamed_row_get by auto.
  rewrite String.eqb_refl. apply obj_get_None in Hn.
  destruct (String.eqb_spec k o) as [->|]; [done|]. by destruct (String.eqb_spec k typed) as [->|].
Qed.

(** Typing into a cell sets exactly that cell, or clears it for an empty text. *)
Theorem cell_patch_exact i column expr rules next :
  column ≠ "__proto__" → edited_rules (CellPatch i column expr) rules = Commit next →
  length next = length rules ∧
  ∀ j r r', rules !! j = Some r → next !! j = Some r' →
    r_outputs r' = r_outputs r ∧ r_extra r' = r_extra r ∧
    ∀ k, obj_get (r_when r') k =
         if (Nat.eqb j i && String.eqb k column)%bool
         then (if truthy_str expr then Some expr else None) else obj_get (r_when r) k.
Proof.
  intros Hp. unfold edited_rules. destruct (rules !! i) as [rule|] eqn:E; [|done]. intros [= <-].
  split; [unfold patch_at; by rewrite length_imap|]. intros j r r' Hr. rewrite patch_at_lookup, Hr.
  destruct (Nat.eqb_spec j i) as [->|]; [|by intros [= <-]]. simplify_eq/=. intros [= <-]. simpl.
  split_and!; [done|done|]. intros k. unfold truthy_str. destruct (String.eqb_spec expr EmptyString) as [->|]; simpl.
  - apply obj_get_delete.
  - unfold obj_assign. destruct (String.eqb_spec column "__proto__"); [done|]. apply obj_get_set.
Qed.
End table_props.

Definition two_rules : list Rule :=
  [mkRule [("total", "total > 100"); ("vip", "vip == true")] [("tier", JStr "gold")] []; mkRule [("vip", "true")] [] []].

Lemma two_rules_ok : Forall (λ r, row_ok (r_when r)) two_rules.
Proof.
  repeat constructor; cbn; try apply includes_false; vm_compute; try reflexivity; try tauto; apply (bool_decide_unpack _); exact I.
Qed.

Lemma column_rename_exact_witness :
  ∃ next, edited_rules (InputRename "vip" "member") two_rules = Commit next ∧
    Forall2 (λ r r', r_outputs r' = r_outputs r ∧ r_extra r' = r_extra r ∧
                     obj_get (r_when r') "member" = obj_get (r_when r) "vip" ∧ obj_get (r_when r') "vip" = None ∧
                     (∀ k, k ≠ "vip" → k ≠ "member" → obj_get (r_when r') k = obj_get (r_when r) k)) two_rules next.
Proof.
  eexists. split; [vm_compute; reflexivity|].
  apply (column_rename_exact "vip" "member" two_rules); [exact two_rules_ok|discriminate|vm_compute; reflexivity].
Defined.

Lemma column_rename_roundtrip_witness :
  ∃ next next', edited_rules (InputRename "vip" "member") two_rules = Commit next ∧
    edited_rules (InputRename "member" "vip") next = Commit next' ∧
    Forall2 (λ r r', r_outputs r' = r_outputs r ∧ r_extra r' = r_extra r ∧
                     ∀ k, obj_get (r_when r') k = obj_get (r_when r) k) two_rules next'.
Proof.
  set (renamed := [mkRule [("total", "total > 100"); ("member", "vip == true")] [("tier", JStr "gold")] [];
                   mkRule [("member", "true")] [] []]).
  exists renamed, two_rules. split; [vm_compute; reflexivity|]. split; [vm_compute; reflexivity|].
  apply (column_rename_roundtrip "vip" "member" two_rules renamed two_rules).
  - exact two_rules_ok.
  - discriminate.
  - discriminate.
  - vm_compute; reflexivity.
  - vm_compute; reflexivity.
Defined.

(** ** Committing the rules *)

(** The rules the forms write keep the typed shape. *)
Definition typed_names_ok (e : TableEdit) : Prop :=
  match e with
  | CellPatch _ c _ | OutputPatch _ c _ => c ≠ "__proto__"
  | InputAdd n | InputRename _ n | OutputAdd n | OutputRename _ n => n ≠ "__proto__"
  | _ => True
  end.

Lemma no_proto_iff {V} (o : obj V) : no_proto_key o = true ↔ "__proto__" ∉ obj_keys o.
Proof. unfold no_proto_key. by rewrite negb_true_iff, obj_has_false. Qed.

Lemma assign_no_proto {V} k (v : V) o : no_proto_key o = true → no_proto_key (obj_assign k v o) = true.
Proof.
  rewrite !no_proto_iff. unfold obj_assign. destruct (String.eqb_spec k "__proto__"); [done|].
  rewrite obj_set_keys. naive_solver.
Qed.

Lemma set_no_proto {V} k (v : V) o : k ≠ "__proto__" → no_proto_key o = true → no_proto_key (obj_set k v o) = true.
Proof. rewrite !no_proto_iff, obj_set_keys. naive_solver. Qed.

Lemma delete_no_proto {V} k (o : obj V) : no_proto_key o = true → no_proto_key (obj_delete k o) = true.
Proof.
  rewrite !no_proto_iff, <- !obj_get_None, obj_get_delete. intros H. by destruct (String.eqb "__proto__" k).
Qed.

Lemma rename_no_proto {V} o n (w : obj V) : no_proto_key (rename_key o n w) = true.
Proof.
  unfold rename_key. assert (no_proto_key (@nil (string * V)) = true) as H by done. revert H.
  generalize (@nil (string * V)). induction w as [|p w IH]; intros acc Ha; [done|]. by apply IH, assign_no_proto.
Qed.

Lemma blank_no_proto {V} (b : V) columns : no_proto_key (blank_cells b columns) = true.
Proof.
  unfold blank_cells. assert (no_proto_key (@nil (string * V)) = true) as H by done. revert H.
  generalize (@nil (string * V)). induction columns as [|p w IH]; intros acc Ha; [done|]. by apply IH, assign_no_proto.
Qed.

#[local] Hint Resolve assign_no_proto set_no_proto delete_no_proto rename_no_proto blank_no_proto : roch.

Lemma rule_schema_iff r :
  rule_schema r = true ↔
  no_proto_key (r_when r) = true ∧ no_proto_key (r_outputs r) = true ∧ clean rule_keys (r_extra r) = true.
Proof. unfold rule_schema. rewrite !andb_true_iff. tauto. Qed.

Lemma patch_at_Forall {A} (P : A → Prop) i f l : (∀ x, P x → P (f x)) → Forall P l → Forall P (patch_at i f l).
Proof.
  intros Hf. rewrite !Forall_lookup. intros Hl j x. rewrite patch_at_lookup. destruct (Nat.eqb j i); [|apply Hl].
  destruct (l !! j) as [y|] eqn:E; [|done]. intros [= <-]. eauto.
Qed.

Lemma schema_with_when w r : no_proto_key w = true → rule_schema r = true → rule_schema (with_when w r) = true.
Proof. rewrite !rule_schema_iff. simpl. tauto. Qed.

Lemma schema_with_outputs o r : no_proto_key o = true → rule_schema r = true → rule_schema (with_outputs o r) = true.
Proof. rewrite !rule_schema_iff. simpl. tauto. Qed.

Lemma fmap_rules (f : Rule → Rule) rules :
  (∀ r, rule_schema r = true → rule_schema (f r) = true) →
  Forall (λ r, rule_schema r = true) rules → Forall (λ r, rule_schema r = true) (f <$> rules).
Proof. intros Hf Hr. apply Forall_fmap. eapply Forall_impl; [exact Hr|]. exact Hf. Qed.

Lemma edited_rules_schema `{JsonText} e rules next :
  typed_names_ok e → Forall (λ r, rule_schema r = true) rules → edited_rules e rules = Commit next →
  Forall (λ r, rule_schema r = true) next.
Proof.
  intros Hn Hr. assert (∀ i r, rules !! i = Some r → no_proto_key (r_when r) = true ∧ no_proto_key (r_outputs r) = true) as Hi.
  { intros i r Hin. rewrite Forall_lookup in Hr. apply Hr, rule_schema_iff in Hin. tauto. }
  assert (∀ r, rule_schema r = true → no_proto_key (r_when r) = true ∧ no_proto_key (r_outputs r) = true) as Hs
    by (intros r Hx%rule_schema_iff; tauto).
  destruct e; unfold edited_rules; cbn [typed_names_ok] in Hn.
  - destruct (rules !! i) as [r|] eqn:E; [|done]. destruct (Hi _ _ E) as [Hw _]. intros [= <-].
    apply patch_at_Forall; [|done]. intros x. apply schema_with_when. destruct (String.eqb expr EmptyString); auto with roch.
  - destruct (rules !! i) as [r|] eqn:E; [|done]. destruct (Hi _ _ E) as [_ Ho].
    destruct (String.eqb raw EmptyString); [|destruct (parseOutputValue raw); [|done]]; intros [= <-];
      (apply patch_at_Forall; [|done]); intros x; apply schema_with_outputs; auto with roch.
  - destruct (move i up rules) as [l|] eqn:E; [|done]. intros [= <-]. by rewrite (move_perm _ _ _ _ E).
  - intros [= <-]. rewrite Forall_forall in *. intros r Hin. apply Hr.
    eapply elem_of_submseteq; [exact Hin|apply sublist_submseteq, remove_at_sublist].
  - intros [= <-]. apply Forall_app. split; [done|]. constructor; [|constructor]. apply rule_schema_iff.
    split_and!; [apply blank_no_proto|apply blank_no_proto|done].
  - destruct (prompted _ _) eqn:E; [|done]. apply prompted_Some in E as (-> & _). intros [= <-].
    apply fmap_rules; [|done]. intros r Hx. apply schema_with_when; [|done]. apply set_no_proto; naive_solver.
  - destruct (prompted _ _) eqn:E; [|done]. destruct (String.eqb _ _); [done|]. intros [= <-].
    apply fmap_rules; [|done]. intros r Hx. destruct (obj_in _ _); [|done]. apply schema_with_when; [apply rename_no_proto|done].
  - intros [= <-]. apply fmap_rules; [|done]. intros r Hx. destruct (obj_in _ _); [|done].
    apply schema_with_when; [apply delete_no_proto; naive_solver|done].
  - destruct (prompted _ _) eqn:E; [|done]. apply prompted_Some in E as (-> & _). destruct (Nat.eqb _ _); [done|]. intros [= <-].
    apply fmap_rules; [|done]. intros r Hx. apply schema_with_outputs; [|done]. apply set_no_proto; naive_solver.
  - destruct (prompted _ _) eqn:E; [|done]. destruct (String.eqb _ _); [done|]. intros [= <-].
    apply fmap_rules; [|done]. intros r Hx. destruct (obj_in _ _); [|done]. apply schema_with_outputs; [apply rename_no_proto|done].
  - intros [= <-]. apply fmap_rules; [|done]. intros r Hx. destruct (obj_in _ _); [|done].
    apply schema_with_outputs; [apply delete_no_proto; naive_solver|done].
Qed.

Lemma edited_table_schema `{JsonText} e t next :
  typed_names_ok e → table_schema false t = true → edited_rules e (dt_rules t) = Commit next →
  table_schema false (mkTable next (dt_extra t)) = true.
Proof.
  unfold table_schema. simpl. rewrite !andb_true_iff. intros Hn [Hr Hc] He. split; [|done].
  rewrite forallb_forall in Hr. assert (Forall (λ r, rule_schema r = true) (dt_rules t)) as HF.
  { apply Forall_forall. intros r Hin%list_elem_of_In. auto. }
  pose proof (edited_rules_schema _ _ _ Hn HF He) as Hx. rewrite Forall_forall in Hx.
  apply forallb_forall. intros r Hin%list_elem_of_In. auto.
Qed.

(** An edit of a decision table that commits gives the step exactly the
    rules the form computed and changes nothing else in the definition. *)
Theorem table_edit_commits `{JsonText} e c h n t st next :
  def_schema false (ws_definition st) = true → NoDup (step_ids (ws_definition st)) →
  DecisionTableStep c h n t ∈ wd_steps (ws_definition st) → typed_names_ok e →
  edited_rules e (dt_rules t) = Commit next →
  edit_table e (sc_id c) t st =
  Ok (edit (with_steps ((λ s, if String.eqb (step_id s) (sc_id c)
                              then DecisionTableStep c h n (mkTable next (dt_extra t)) else s)
                        <$> wd_steps (ws_definition st)) (ws_definition st)) st).
Proof.
  intros Hsch Hnd Hs Hn He. unfold edit_table. rewrite He.
  apply (updateStepProperty_typed _ _ _ _ (λ _, DecisionTableStep c h n (mkTable next (dt_extra t)))).
  intros x Hx Hid. assert (x = DecisionTableStep c h n t) as ->.
  { pose proof (indexSteps_unique _ _ Hnd Hs) as H1. pose proof (indexSteps_unique _ _ Hnd Hx) as H2.
    rewrite Hid in H2. change (step_id (DecisionTableStep c h n t)) with (sc_id c) in H1. congruence. }
  assert (step_schema false (DecisionTableStep c h n t) = true) as Hss.
  { unfold def_schema in Hsch. bool_hyps. rewrite forallb_forall in *. by apply H0, list_elem_of_In. }
  apply update_table; [done|]. eapply edited_table_schema; [done| |done].
  unfold step_schema in Hss. by bool_hyps.
Qed.

Lemma table_edit_commits_witness :
  ∃ st', edit_table (InputRename "total" "sum") "score"
           (mkTable [mkRule [("total", "total > 100")] [("tier", JStr "gold")] []; mkRule [] [("tier", JStr "basic")] []] [])
           (edit order_def initialState) = Ok st' ∧ ws_dirty st' = true.
Proof.
  eexists. split.
  - apply (table_edit_commits (InputRename "total" "sum") (common "score" "Score") (Some "F") "check"
      (mkTable [mkRule [("total", "total > 100")] [("tier", JStr "gold")] []; mkRule [] [("tier", JStr "basic")] []] [])
      (edit order_def initialState) [mkRule [("sum", "total > 100")] [("tier", JStr "gold")] []; mkRule [] [("tier", JStr "basic")] []]).
    + vm_compute; reflexivity.
    + apply (bool_decide_unpack _). vm_compute. exact I.
    + apply list_elem_of_In. simpl. tauto.
    + discriminate.
    + vm_compute; reflexivity.
  - reflexivity.
Defined.

(** * The cells of a decision table on the screen
    (workflow-modeller/src/panels/property-forms/DecisionTableForm.tsx)

    The cells are text fields with a [defaultValue]: React mounts a field with
    that text and from then on the field keeps a text of its own.  A field belongs
    to its key, which is the number of the rule and the name of the column, not
    the rule: the form has no key of its own, so that another step with a table
    takes the same fields over.  Leaving a field commits its text when it differs
    from what the rule holds.  What React does with a later [defaultValue] is a
    class. *)

(** Whether a field follows a new [defaultValue], given the text it was mounted
    with and whether something was typed into it. *)
Class InputLibrary := follows : string → bool → bool.

(** A field that was mounted with a text, or typed into, keeps its own. *)
Class InputLaws (I : InputLibrary) : Prop :=
  keeps_text initial typed : initial ≠ EmptyString ∨ typed = true → follows initial typed = false.

(** ** The fields *)

(** The fields of conditions and of outputs: the rule and the column. *)
Abbreviation CellKey := (bool * nat * string)%type.

Record Cell := mkCell { cl_initial : string; cl_typed : bool; cl_text : string }.

Section form.
Context `{JsonText} `{InputLibrary}.

(** The [defaultValue] of a field. *)
Definition cell_text (rules : list Rule) (k : CellKey) : string :=
  match rules !! k.1.2 with
  | None => EmptyString
  | Some rule => if k.1.1 then renderOutputValue (obj_get (r_outputs rule) k.2) else default EmptyString (obj_get (r_when rule) k.2)
  end.

(** The fields the form renders. *)
Definition displayed (rules : list Rule) : list CellKey :=
  seq 0 (length rules) ≫= λ i,
    ((λ col, (false, i, col)) <$> collectInputColumns rules) ++ ((λ col, (true, i, col)) <$> collectOutputColumns rules).

(** Rendering: fields that are no longer there go, new ones are mounted. *)
Definition render_cell (rules : list Rule) (cells : gmap CellKey Cell) (k : CellKey) : Cell :=
  match cells !! k with
  | Some c => if follows (cl_initial c) (cl_typed c) then mkCell (cl_initial c) (cl_typed c) (cell_text rules k) else c
  | None => mkCell (cell_text rules k) false (cell_text rules k)
  end.

Definition render (rules : list Rule) (cells : gmap CellKey Cell) : gmap CellKey Cell :=
  list_to_map ((λ k, (k, render_cell rules cells k)) <$> displayed rules).

Record TableView := mkTableView { tw_rules : list Rule; tw_cells : gmap CellKey Cell }.

Definition mount_table (rules : list Rule) : TableView := mkTableView rules (render rules ∅).

(** The rules are others: an edit, another step, an undo. *)
Definition show_rules (rules : list Rule) (v : TableView) : TableView := mkTableView rules (render rules (tw_cells v)).

Definition type_into (k : CellKey) (text : string) (v : TableView) : TableView :=
  match tw_cells v !! k with
  | Some c => mkTableView (tw_rules v) (<[k := mkCell (cl_initial c) true text]> (tw_cells v))
  | None => v
  end.

Definition commit_edit (e : TableEdit) (v : TableView) : option TableView :=
  match edited_rules e (tw_rules v) with
  | Commit next => Some (show_rules next v)
  | NoCommit => Some v
  | NotJson => None
  end.

(** [onBlur] *)
Definition leave (k : CellKey) (v : TableView) : option TableView :=
  match tw_cells v !! k with
  | None => Some v
  | Some c =>
      if String.eqb (cell_text (tw_rules v) k) (cl_text c) then Some v
      else commit_edit (if k.1.1 then OutputPatch k.1.2 k.2 (cl_text c) else CellPatch k.1.2 k.2 (cl_text c)) v
  end.

(** ** Properties *)

Lemma keyed_lookup {A} (f : CellKey → A) l k :
  (list_to_map ((λ k, (k, f k)) <$> l) : gmap CellKey A) !! k = if decide (k ∈ l) then Some (f k) else None.
Proof.
  induction l as [|x l IH]; [done|]. rewrite fmap_cons, list_to_map_cons. destruct (decide (x = k)) as [->|Hne].
  - rewrite lookup_insert_eq. by rewrite decide_True by left.
  - rewrite lookup_insert_ne, IH by done.
    destruct (decide (k ∈ l)); [by rewrite decide_True by (by right)|]. rewrite decide_False; [done|]. rewrite elem_of_cons. naive_solver.
Qed.

(** Every field shows what its rule holds. *)
Definition faithful (v : TableView) : Prop := ∀ k c, tw_cells v !! k = Some c → cl_text c = cell_text (tw_rules v) k.

Lemma render_lookup rules cells k c : render rules cells !! k = Some c → k ∈ displayed rules ∧ c = render_cell rules cells k.
Proof. unfold render. rewrite keyed_lookup. destruct (decide _); [|done]. by intros [= <-]. Qed.

Lemma mounted_faithful rules : faithful (mount_table rules).
Proof. intros k c [_ ->]%render_lookup. unfold render_cell. by rewrite lookup_empty. Qed.

(** An edit that leaves every field's text alone keeps the form faithful. *)
Lemma show_faithful rules v : faithful v →
  (∀ k c, tw_cells v !! k = Some c → k ∈ displayed rules → cell_text rules k = cell_text (tw_rules v) k) →
  faithful (show_rules rules v).
Proof.
  intros Hv Hsame k c [Hk ->]%render_lookup. cbn [show_rules tw_rules]. unfold render_cell.
  destruct (tw_cells v !! k) as [c|] eqn:E; [|done]. destruct (follows (cl_initial c) (cl_typed c)); [done|].
  rewrite (Hv k c E). symmetry. by apply (Hsame k c).
Qed.

(** What a committed condition changes: the text of its own field. *)
Lemma patched_text i col text rules : i < length rules → col ≠ "__proto__" →
  ∃ next, edited_rules (CellPatch i col text) rules = Commit next ∧
    ∀ k, cell_text next k = if decide (k = (false, i, col)) then text else cell_text rules k.
Proof.
  intros [r Hr]%lookup_lt_is_Some_2 Hp. cbn [edited_rules]. rewrite Hr. eexists. split; [reflexivity|].
  intros [[b j] col']. unfold cell_text. cbn [fst snd]. rewrite patch_at_lookup.
  destruct (Nat.eqb_spec j i) as [->|Hne].
  - rewrite Hr. cbn [fmap option_fmap option_map with_when r_when r_outputs]. destruct b; [by rewrite decide_False by congruence|].
    destruct (String.eqb_spec text EmptyString) as [->|Ht].
    + rewrite obj_get_delete. destruct (String.eqb_spec col' col) as [->|]; [by rewrite decide_True|by rewrite decide_False by congruence].
    + unfold obj_assign. destruct (String.eqb_spec col "__proto__"); [done|]. rewrite obj_get_set.
      destruct (String.eqb_spec col' col) as [->|]; [by rewrite decide_True|by rewrite decide_False by congruence].
  - rewrite decide_False by congruence. by destruct (rules !! j).
Qed.
End form.

(** Typing a condition and leaving its field: the rule holds the text, every other
    field and what the rules hold for it stay, and the form shows what the rules
    hold. *)
Theorem cell_edit_shown `{J : JsonText} `{I : InputLibrary} `{!InputLaws I} i col text v :
  faithful v → i < length (tw_rules v) → col ≠ "__proto__" → is_Some (tw_cells v !! (false, i, col)) →
  ∃ v', leave (false, i, col) (type_into (false, i, col) text v) = Some v' ∧ faithful v' ∧
    ∀ k, cell_text (tw_rules v') k = if decide (k = (false, i, col)) then text else cell_text (tw_rules v) k.
Proof.
  intros Hv Hi Hp [c Hc]. unfold type_into. rewrite Hc. unfold leave. cbn [tw_cells tw_rules fst snd]. rewrite lookup_insert_eq. cbn [cl_text].
  destruct (String.eqb_spec (cell_text (tw_rules v) (false, i, col)) text) as [E|Hne].
  - eexists. split; [reflexivity|]. split.
    + intros k c'. cbn [tw_cells tw_rules]. destruct (decide ((false, i, col) = k)) as [<-|Hk]; [rewrite lookup_insert_eq; by intros [= <-]|].
      rewrite lookup_insert_ne by done. apply Hv.
    + intros k. cbn [tw_rules]. by destruct (decide (k = (false, i, col))) as [->|].
  - destruct (patched_text i col text (tw_rules v) Hi Hp) as (next & En & Hn). unfold commit_edit. cbn [tw_rules]. rewrite En.
    eexists. split; [reflexivity|]. split; [|exact Hn]. intros k c' [Hk ->]%render_lookup. cbn [show_rules tw_rules tw_cells]. unfold render_cell.
    rewrite Hn. destruct (decide (k = (false, i, col))) as [->|Hkk].
    + rewrite lookup_insert_eq. cbn [cl_initial cl_typed]. rewrite keeps_text by (by right). done.
    + rewrite lookup_insert_ne by congruence. destruct (tw_cells v !! k) as [c'|] eqn:E; [|done].
      destruct (follows (cl_initial c') (cl_typed c')); cbn [cl_text]; [done|by apply Hv].
Qed.

(** When the rules change under a field (a rule is moved or removed, an edit is
    undone, another step with a table is selected), the field goes on showing its
    old text, and leaving it, without a key pressed, writes that text into the rule
    that is there now. *)
Theorem stale_cell_overwrites `{J : JsonText} `{I : InputLibrary} `{!InputLaws I} i col v rules c :
  tw_cells v !! (false, i, col) = Some c → cl_initial c ≠ EmptyString ∨ cl_typed c = true → col ≠ "__proto__" →
  (false, i, col) ∈ displayed rules → i < length rules → cell_text rules (false, i, col) ≠ cl_text c →
  tw_cells (show_rules rules v) !! (false, i, col) = Some c ∧
  ∃ v', leave (false, i, col) (show_rules rules v) = Some v' ∧
    ∀ k, cell_text (tw_rules v') k = if decide (k = (false, i, col)) then cl_text c else cell_text rules k.
Proof.
  intros Hc Ho Hp Hd Hi Hne.
  assert (tw_cells (show_rules rules v) !! (false, i, col) = Some c) as Hk.
  { cbn [show_rules tw_cells]. unfold render. rewrite keyed_lookup, decide_True by done. unfold render_cell. rewrite Hc.
    by rewrite keeps_text. }
  split; [done|]. destruct (patched_text i col (cl_text c) rules Hi Hp) as (next & En & Hn).
  unfold leave. rewrite Hk. apply String.eqb_neq in Hne. cbn [show_rules tw_rules fst snd]. rewrite Hne. unfold commit_edit. cbn [show_rules tw_rules fst snd].
  rewrite En. eexists. split; [reflexivity|exact Hn].
Qed.

(** ** Samples *)

(** A field that never follows, as documented. *)
#[local] Instance never_follows : InputLibrary := λ _ _, false.

#[local] Instance never_follows_laws : InputLaws never_follows.
Proof. done. Qed.

Definition vip_rules : list Rule := [mkRule [("vip", "vip == true")] [] []; mkRule [("vip", "vip == false")] [] []].

Lemma cell_edit_shown_witness :
  ∃ v', leave (false, 0, "vip") (type_into (false, 0, "vip") "true" (mount_table vip_rules)) = Some v' ∧ faithful v' ∧
    cell_text (tw_rules v') (false, 0, "vip") = "true".
Proof.
  destruct (cell_edit_shown 0 "vip" "true" (mount_table vip_rules)) as (v' & H1 & H2 & H3).
  - apply mounted_faithful.
  - simpl. lia.
  - discriminate.
  - eexists. vm_compute. reflexivity.
  - exists v'. split; [exact H1|]. split; [exact H2|]. rewrite H3. reflexivity.
Defined.

(** Moving the first rule down and passing through its old field gives both rules
    the same condition. *)
Lemma stale_cell_overwrites_witness :
  ∃ v', leave (false, 0, "vip") (show_rules (reverse vip_rules) (mount_table vip_rules)) = Some v' ∧
    cell_text (tw_rules v') (false, 0, "vip") = "vip == true" ∧ cell_text (tw_rules v') (false, 1, "vip") = "vip == true".
Proof.
  destruct (stale_cell_overwrites 0 "vip" (mount_table vip_rules) (reverse vip_rules) (mkCell "vip == true" false "vip == true"))
    as (_ & v' & H1 & H2).
  - vm_compute. reflexivity.
  - left. discriminate.
  - discriminate.
  - left.
  - simpl. lia.
  - vm_compute. discriminate.
  - exists v'. split; [exact H1|]. rewrite !H2. split; vm_compute; reflexivity.
Defined.
