(* ===== verification/JsonEditor.v ===== *)
(** * The JSON editor (workflow-modeller/src/panels/JsonEditor.tsx)

    The panel shows the exported text of the workflow, lets the user edit it
    and applies it when the text area loses the focus.  A step of the machine
    is one event of the panel, or any change of the store by the rest of the
    application, followed by the render and the effect on [currentJson]. *)

From S2P Require Import Prelude JsObject Types Schema ImportExport Store.

Record Editor := mkEditor {
  ed_text : string;
  ed_parseError : option string;
  ed_schemaErrors : list string;
  ed_focused : bool;             (* focusedRef *)
  ed_lastSynced : string;        (* lastSyncedRef *)
  ed_rendered : string           (* currentJson of the last render, the dependency of the effect *)
}.

Section editor.
Context `{JsonText}.

Definition currentJson (st : WorkflowState) : string := exportToJson true st.

Definition mount (st : WorkflowState) : Editor :=
  mkEditor (currentJson st) None [] false (currentJson st) (currentJson st).

(** The effect runs when [currentJson] is another text than before. *)
Definition sync (st : WorkflowState) (ed : Editor) : Editor :=
  let json := currentJson st in
  if String.eqb json (ed_rendered ed) then ed
  else if ed_focused ed
       then mkEditor (ed_text ed) (ed_parseError ed) (ed_schemaErrors ed) true (ed_lastSynced ed) json
       else mkEditor json None [] false json json.

Definition parse_message (value : string) : option string :=
  match JSON_parse value with inl _ => None | inr message => Some message end.

Definition tryApply (value : string) (ed : Editor) (st : WorkflowState) : Editor * WorkflowState :=
  match parse_message value with
  | Some message =>
      (mkEditor (ed_text ed) (Some message) (ed_schemaErrors ed) (ed_focused ed) (ed_lastSynced ed) (ed_rendered ed), st)
  | None =>
      let '(st', result) := applyDefinitionFromJson value st in
      (mkEditor (ed_text ed) None (match result with ImportErr errors => errors | ImportOk _ _ => [] end)
         (ed_focused ed) (ed_lastSynced ed) (ed_rendered ed), st')
  end.

(** Only the syntax is checked while the user types. *)
Definition handleChange (value : string) (ed : Editor) : Editor :=
  mkEditor value (parse_message value) (ed_schemaErrors ed) (ed_focused ed) (ed_lastSynced ed) (ed_rendered ed).

Definition set_focused (b : bool) (ed : Editor) : Editor :=
  mkEditor (ed_text ed) (ed_parseError ed) (ed_schemaErrors ed) b (ed_lastSynced ed) (ed_rendered ed).

Definition handleBlur (ed : Editor) (st : WorkflowState) : Editor * WorkflowState :=
  let ed := set_focused false ed in
  if String.eqb (ed_text ed) (ed_lastSynced ed) then (ed, st) else tryApply (ed_text ed) ed st.

Definition allErrors (ed : Editor) : list string :=
  (match ed_parseError ed with Some e => if truthy_str e then [e] else [] | None => [] end) ++ ed_schemaErrors ed.

Inductive EditorEvent :=
| EdFocus
| EdType (value : string)
| EdBlur
| EdStore (change : WorkflowState → WorkflowState).   (* another part of the application *)

Definition editor_event (e : EditorEvent) (s : Editor * WorkflowState) : Editor * WorkflowState :=
  match e with
  | EdFocus => (set_focused true s.1, s.2)
  | EdType v => (handleChange v s.1, s.2)
  | EdBlur => handleBlur s.1 s.2
  | EdStore f => (s.1, f s.2)
  end.

Definition editor_step (s : Editor * WorkflowState) (e : EditorEvent) : Editor * WorkflowState :=
  let '(ed, st) := editor_event e s in (sync st ed, st).

Definition run_editor (es : list EditorEvent) (s : Editor * WorkflowState) : Editor * WorkflowState :=
  fold_left editor_step es s.
End editor.

(** ** Lemmas *)

(** Embedding a layout and handles over others leaves only the last ones; a
    workflow without handles leaves the embedded ones alone. *)
Lemma embedLayout_again d layout handles layout' handles' :
  handles' = [] ∨ handles ≠ [] →
  embedLayout (embedLayout d layout' handles') layout handles = embedLayout d layout handles.
Proof.
  intros Hh. unfold embedLayout. simpl. f_equal. f_equal. rewrite obj_get_set_eq, obj_set_twice. simpl.
  f_equal. f_equal. set (wm := entries _). unfold obj_assign. simpl (String.eqb _ _).
  assert (∀ a, obj_has (obj_set "layout" a wm) "layout" = true) as Hlay by (intros; unfold obj_has; by rewrite obj_get_set_eq).
  destruct handles as [|h hs], handles' as [|h' hs']; simpl; rewrite ?obj_set_twice; try done.
  - by destruct Hh.
  - rewrite (obj_set_comm "layout" _ "edgeHandles") by done. by rewrite !obj_set_twice.
Qed.

Section lemmas.
Context `{JsonText}.
Implicit Types (ed : Editor) (st : WorkflowState).

Lemma sync_clean st ed : ed_text ed = ed_lastSynced ed → ed_text (sync st ed) = ed_lastSynced (sync st ed).
Proof. unfold sync. by repeat case_match. Qed.

Lemma sync_rendered st ed : ed_rendered (sync st ed) = currentJson st.
Proof. unfold sync. destruct (String.eqb_spec (currentJson st) (ed_rendered ed)); [done|]. by case_match. Qed.

Lemma sync_same st ed : ed_rendered ed = currentJson st → sync st ed = ed.
Proof. intros Hr. unfold sync. by rewrite Hr, String.eqb_refl. Qed.

(** The positions [applyDefinitionFromJson] keeps. *)
Lemma preserved_layout (layout : Layout) ids :
  obj_wf layout = true →
  obj_from_entries (List.filter (λ p, bool_decide (p.1 ∈ (list_to_set ids : gset StepId))) layout) =
  List.filter (λ p, includes ids p.1) layout.
Proof.
  intros Hwf. rewrite obj_from_entries_wf by (by apply obj_wf_filter). apply filter_ext. intros [id pos]. simpl.
  apply Bool.eq_iff_eq_true. rewrite bool_decide_eq_true, includes_true. set_solver.
Qed.

(** What the store does in a run, without the editor. *)
Definition store_only (es : list EditorEvent) (st : WorkflowState) : WorkflowState :=
  fold_left (λ st e, match e with EdStore f => f st | _ => st end) es st.

Definition is_typing (e : EditorEvent) : bool := match e with EdType _ => true | _ => false end.

Lemma clean_step ed st e :
  is_typing e = false → ed_text ed = ed_lastSynced ed →
  (editor_step (ed, st) e).2 = (match e with EdStore f => f st | _ => st end) ∧
  ed_text (editor_step (ed, st) e).1 = ed_lastSynced (editor_step (ed, st) e).1.
Proof.
  intros Ht Hc. unfold editor_step. destruct e; simpl in *; try done.
  - split; [done|]. by apply sync_clean.
  - unfold handleBlur. simpl. rewrite Hc, String.eqb_refl. split; [done|]. by apply sync_clean.
  - split; [done|]. by apply sync_clean.
Qed.

Lemma clean_run es ed st :
  existsb is_typing es = false → ed_text ed = ed_lastSynced ed →
  (run_editor es (ed, st)).2 = store_only es st ∧
  ed_text (run_editor es (ed, st)).1 = ed_lastSynced (run_editor es (ed, st)).1.
Proof.
  revert ed st. induction es as [|e es IH]; intros ed st Ht Hc; [done|]. simpl in Ht. apply orb_false_iff in Ht as [He Hes].
  unfold run_editor, store_only in *. simpl. destruct (clean_step ed st e He Hc) as [Hst Hcl].
  destruct (editor_step (ed, st) e) as [ed1 st1]. simpl in *. subst st1. by apply IH.
Qed.
End lemmas.

(** ** Properties *)

Section properties.
Context `{JsonText}.

(** However the panel is focused and left and whatever the rest of the
    application does meanwhile, a user who does not type changes nothing: the
    store ends up exactly where it would without the panel. *)
Theorem editor_passive es st :
  existsb is_typing es = false →
  (run_editor es (mount st, st)).2 = store_only es st ∧
  ed_text (run_editor es (mount st, st)).1 = ed_lastSynced (run_editor es (mount st, st)).1.
Proof. intros. by apply clean_run. Qed.

(** C34: leaving the text area with an edited text has exactly three outcomes.  A
    text that is no JSON and a value the schema refuses leave the store and the
    text as they are and show their messages (after a syntax error beside the
    schema's messages of the last attempt); a definition replaces the one of
    the store, with the positions of its steps, the handles, the connection and
    the source kept, and clears the messages. *)
Theorem blur_outcomes ed st :
  ed_rendered ed = currentJson st → obj_wf (ws_layout st) = true → ed_text ed ≠ ed_lastSynced ed →
  let ed' := (editor_step (ed, st) EdBlur).1 in
  let st' := (editor_step (ed, st) EdBlur).2 in
  match JSON_parse (ed_text ed) with
  | inr message =>
      st' = st ∧ ed_text ed' = ed_text ed ∧ ed_parseError ed' = Some message ∧
      allErrors ed' = (if truthy_str message then [message] else []) ++ ed_schemaErrors ed
  | inl raw =>
      match safeParse raw with
      | inr issues =>
          st' = st ∧ ed_text ed' = ed_text ed ∧ allErrors ed' = issue_message <$> issues
      | inl def =>
          ws_definition st' = def ∧ ws_dirty st' = true ∧ ws_selection st' = SelNone ∧
          v_diagnostics (ws_validation st') = [] ∧
          ws_layout st' = List.filter (λ p, includes (step_ids def) p.1) (ws_layout st) ∧
          ws_edgeHandles st' = ws_edgeHandles st ∧ ws_engine st' = ws_engine st ∧ ws_source st' = ws_source st ∧
          ws_importWarnings st' = collectUnknownFieldWarnings def ∧ allErrors ed' = []
      end
  end.
Proof.
  intros Hr Hwf Hne. unfold editor_step. simpl. unfold handleBlur. simpl.
  destruct (String.eqb_spec (ed_text ed) (ed_lastSynced ed)) as [|_]; [done|].
  unfold tryApply, parse_message, applyDefinitionFromJson, importJson.
  destruct (JSON_parse (ed_text ed)) as [raw|message].
  2:{ simpl. rewrite sync_same by done. done. }
  destruct (safeParse raw) as [def|issues].
  2:{ simpl. rewrite sync_same by done. done. }
  simpl. split_and!; try done.
  - by apply preserved_layout.
  - unfold sync. by repeat case_match.
Qed.
End properties.

Section text_laws.
Context `{JsonTextLaws}.
Implicit Types (ed : Editor) (st : WorkflowState).

(** Applying an exported text: the definition it embeds arrives in the store,
    and all positions stay when it has all their steps. *)
Lemma apply_exported d layout handles st :
  let d' := embedLayout d layout handles in
  def_schema true d' = true → json_wf (def_json d') = true →
  obj_wf (ws_layout st) = true → forallb (includes (step_ids d)) (obj_keys (ws_layout st)) = true →
  parse_message (exportJson d true layout handles) = None ∧
  applyDefinitionFromJson (exportJson d true layout handles) st =
    (mkState d' (ws_layout st) (ws_edgeHandles st) SelNone (mkValidation None []) true
       (collectUnknownFieldWarnings d') (ws_engine st) (ws_source st), ImportOk d' (collectUnknownFieldWarnings d')).
Proof.
  intros d' Hs Hw Hwf Hin. split; [unfold parse_message, exportJson; by rewrite parse_stringify|].
  unfold applyDefinitionFromJson. rewrite (import_exported d true) by done. rewrite preserved_layout by done.
  do 2 f_equal. apply List.forallb_filter_id. apply forallb_forall. intros [k p] Hk.
  rewrite forallb_forall in Hin. apply Hin. apply list_elem_of_In, (list_elem_of_fmap_2 fst _ (k, p)), list_elem_of_In, Hk.
Qed.

Lemma type_and_blur v ed st :
  ed_rendered ed = currentJson st → v ≠ ed_lastSynced ed →
  run_editor [EdType v; EdBlur] (ed, st) =
    let '(ed', st') := tryApply v (set_focused false (handleChange v ed)) st in (sync st' ed', st').
Proof.
  intros Hr Hne. unfold run_editor. simpl. unfold editor_step at 2. simpl. rewrite sync_same by done.
  unfold editor_step. simpl. unfold handleBlur. simpl. by destruct (String.eqb_spec v (ed_lastSynced ed)).
Qed.

(** Editing the definition inside the exported text and leaving the panel puts
    exactly that definition into the store, without a complaint, and the panel
    then shows the text of the store: what was typed. *)
Theorem edited_text_applied d ed st :
  let v := exportJson d true (ws_layout st) (ws_edgeHandles st) in
  let d' := embedLayout d (ws_layout st) (ws_edgeHandles st) in
  ed_rendered ed = currentJson st → v ≠ ed_lastSynced ed →
  def_schema true d' = true → json_wf (def_json d') = true →
  obj_wf (ws_layout st) = true → forallb (includes (step_ids d)) (obj_keys (ws_layout st)) = true →
  let '(ed', st') := run_editor [EdType v; EdBlur] (ed, st) in
  ws_definition st' = d' ∧ ws_layout st' = ws_layout st ∧ wd_steps (ws_definition st') = wd_steps d ∧
  ed_text ed' = v ∧ currentJson st' = v ∧ allErrors ed' = [].
Proof.
  intros v d' Hr Hne Hs Hw Hwf Hin. rewrite type_and_blur by done.
  destruct (apply_exported d (ws_layout st) (ws_edgeHandles st) st Hs Hw Hwf Hin) as [Hp Ha].
  fold v in Hp, Ha. unfold tryApply. rewrite Hp, Ha. cbv zeta beta iota.
  set (st' := mkState _ _ _ _ _ _ _ _ _). assert (currentJson st' = v) as Hc.
  { unfold currentJson, exportToJson, v, exportJson. simpl. rewrite embedLayout_again; [done|].
    destruct (ws_edgeHandles st); naive_solver. }
  split_and!; try done; unfold sync; rewrite Hc; by repeat case_match.
Qed.

(** Editing positions in the text is lost without a word: the store keeps its
    own positions and is marked as changed, while the panel goes on showing
    the text the user typed, which is not what the store holds. *)
Theorem typed_positions_ignored layout st :
  let v := exportJson (ws_definition st) true layout (ws_edgeHandles st) in
  let d' := embedLayout (ws_definition st) layout (ws_edgeHandles st) in
  v ≠ currentJson st → def_schema true d' = true → json_wf (def_json d') = true →
  obj_wf (ws_layout st) = true → forallb (includes (step_ids (ws_definition st))) (obj_keys (ws_layout st)) = true →
  let '(ed', st') := run_editor [EdFocus; EdType v; EdBlur] (mount st, st) in
  ws_layout st' = ws_layout st ∧ ws_dirty st' = true ∧ currentJson st' = currentJson st ∧
  ed_text ed' = v ∧ ed_text ed' ≠ currentJson st' ∧ allErrors ed' = [].
Proof.
  intros v d' Hne Hs Hw Hwf Hin.
  change (run_editor [EdFocus; EdType v; EdBlur] (mount st, st))
    with (run_editor [EdType v; EdBlur] (editor_step (mount st, st) EdFocus)).
  assert (editor_step (mount st, st) EdFocus = (set_focused true (mount st), st)) as ->
    by (unfold editor_step; simpl; by rewrite sync_same).
  rewrite type_and_blur by done.
  destruct (apply_exported (ws_definition st) layout (ws_edgeHandles st) st Hs Hw Hwf Hin) as [Hp Ha].
  fold v in Hp, Ha. unfold tryApply. rewrite Hp, Ha. cbv zeta beta iota.
  set (st' := mkState _ _ _ _ _ _ _ _ _). assert (currentJson st' = currentJson st) as Hc.
  { unfold currentJson, exportToJson, exportJson. simpl. rewrite embedLayout_again; [done|].
    destruct (ws_edgeHandles st); naive_solver. }
  rewrite sync_same by done. rewrite Hc. done.
Qed.
End text_laws.

(** A change of the store while the text area has the focus is not shown when
    the area is left without an edit: the panel keeps a text that is no longer
    the store's until the next change. *)
Theorem unedited_blur_stays_stale `{JsonText} st f :
  currentJson (f st) ≠ currentJson st →
  let '(ed', st') := run_editor [EdFocus; EdStore f; EdBlur] (mount st, st) in
  st' = f st ∧ ed_focused ed' = false ∧ ed_text ed' = currentJson st ∧ ed_text ed' ≠ currentJson st'.
Proof.
  intros Hne. unfold run_editor. simpl. unfold editor_step at 3. simpl. rewrite sync_same by done.
  unfold editor_step at 2. simpl. unfold sync at 1. simpl. destruct (String.eqb_spec (currentJson (f st)) (currentJson st)); [done|].
  unfold editor_step. simpl. unfold handleBlur. simpl. rewrite String.eqb_refl, sync_same by done. simpl. naive_solver.
Qed.

(** ** Witnesses *)

Ltac texts :=
  match goal with
  | |- not _ => apply String.eqb_neq; vm_compute; reflexivity
  | _ => vm_compute; reflexivity
  end.

Definition shown : WorkflowState :=
  setLayout "e" (mkPos (num_of_Z 5) (num_of_Z 5)) (edit tiny_def initialState).

Definition renamed_def : WorkflowDefinition :=
  mkDef "w" None "Renamed" None None None [EndStep (common "e" "E")] None [].

Lemma editor_passive_witness :
  (run_editor [EdFocus; EdStore (edit renamed_def); EdBlur] (mount shown, shown)).2 = edit renamed_def shown.
Proof. apply (editor_passive [EdFocus; EdStore (edit renamed_def); EdBlur] shown). reflexivity. Defined.

Lemma blur_outcomes_witness :
  ∃ message, JSON_parse "{" = inr message ∧
    (editor_step (handleChange "{" (mount shown), shown) EdBlur).2 = shown.
Proof.
  destruct (JSON_parse "{") as [raw|message] eqn:E; [by vm_compute in E|]. exists message. split; [done|].
  pose proof (blur_outcomes (handleChange "{" (mount shown)) shown) as Hb. simpl ed_text in Hb. rewrite E in Hb.
  apply Hb; texts.
Defined.

Lemma edited_text_applied_witness :
  let v := exportJson renamed_def true (ws_layout shown) (ws_edgeHandles shown) in
  ∃ ed' st', run_editor [EdType v; EdBlur] (set_focused true (mount shown), shown) = (ed', st') ∧
    wd_name (ws_definition st') = "Renamed" ∧ ed_text ed' = v.
Proof.
  intros v. pose proof (edited_text_applied renamed_def (set_focused true (mount shown)) shown) as He. cbv zeta in He.
  fold v in He. destruct (run_editor _ _) as [ed' st'] eqn:E. exists ed', st'. split; [reflexivity|].
  destruct He as (-> & _ & _ & -> & _);
    [texts..|]. split; reflexivity.
Defined.

Definition moved : Layout := [("e", mkPos (num_of_Z 90) (num_of_Z 5))].

Lemma typed_positions_ignored_witness :
  let v := exportJson tiny_def true moved [] in
  ∃ ed' st', run_editor [EdFocus; EdType v; EdBlur] (mount shown, shown) = (ed', st') ∧
    ws_layout st' = ws_layout shown ∧ ed_text ed' ≠ currentJson st'.
Proof.
  intros v. pose proof (typed_positions_ignored moved shown) as He. cbv zeta in He.
  change (exportJson (ws_definition shown) true moved (ws_edgeHandles shown)) with v in He.
  destruct (run_editor _ _) as [ed' st'] eqn:E. exists ed', st'. split; [reflexivity|].
  destruct He as (-> & _ & _ & _ & Hne & _);
    [texts..|]. split; [reflexivity|exact Hne].
Defined.

Lemma unedited_blur_stays_stale_witness :
  ∃ ed' st', run_editor [EdFocus; EdStore (edit renamed_def); EdBlur] (mount shown, shown) = (ed', st') ∧
    ed_text ed' ≠ currentJson st'.
Proof.
  pose proof (unedited_blur_stays_stale shown (edit renamed_def)) as He.
  destruct (run_editor _ _) as [ed' st'] eqn:E. exists ed', st'. split; [reflexivity|].
  destruct He as (_ & _ & _ & Hne); [texts|]. exact Hne.
Defined.
