(* ===== verification/EngineBrowser.v ===== *)
(** * The engine browser (workflow-modeller/src/panels/EngineBrowser.tsx)

    The dialog lists the definitions of the engine page by page.  Every change
    of the keyword, of the page or of the connection sends a request; the
    answers arrive in any order.  A step of the machine is an event of the
    dialog or an answer, followed by the render and the effect on
    [open] and [refresh]. *)

From S2P Require Import Prelude JsObject Types Schema ImportExport Store Engine.

Definition PAGE_SIZE : nat := 20.

Record DefinitionSummary := mkDefSummary { dsum_id : string; dsum_name : string; dsum_versions : list nat }.

(** What a request for a page comes to. *)
Inductive ListAnswer :=
| Listed (items : option (list DefinitionSummary)) (total : option nat)
| ListEngineError (message : string)       (* an [EngineError] *)
| ListOtherError.                          (* anything else that is thrown *)

Inductive LoadAnswer := LoadOk | LoadEngineError (message : string) | LoadOtherError.

Abbreviation Query := (string * nat)%type.  (* the keyword and the page a request was made with *)

Record Browser := mkBrowser {
  br_open : bool;
  br_client : nat;                          (* counts the connections the client was made from *)
  br_items : list DefinitionSummary;
  br_page : nat;
  br_total : nat;
  br_keyword : string;
  br_loading : bool;
  br_error : option string;
  br_selected : option (string * option nat);
  br_pending : list Query;                  (* requests under way, oldest first *)
  br_loads : nat                            (* times a definition was loaded: onLoaded *)
}.

Definition no_browser : Browser := mkBrowser false 0 [] 0 0 EmptyString false None None [] 0.

Definition query (b : Browser) : Query := (br_keyword b, br_page b).

Definition set_query (k : string) (p : nat) (b : Browser) : Browser :=
  mkBrowser (br_open b) (br_client b) (br_items b) p (br_total b) k (br_loading b) (br_error b) (br_selected b)
    (br_pending b) (br_loads b).

Definition set_open (o : bool) (b : Browser) : Browser :=
  mkBrowser o (br_client b) (br_items b) (br_page b) (br_total b) (br_keyword b) (br_loading b) (br_error b)
    (br_selected b) (br_pending b) (br_loads b).

Definition set_status (loading : bool) (error : option string) (b : Browser) : Browser :=
  mkBrowser (br_open b) (br_client b) (br_items b) (br_page b) (br_total b) (br_keyword b) loading error
    (br_selected b) (br_pending b) (br_loads b).

Definition set_selected (sel : option (string * option nat)) (b : Browser) : Browser :=
  mkBrowser (br_open b) (br_client b) (br_items b) (br_page b) (br_total b) (br_keyword b) (br_loading b) (br_error b)
    sel (br_pending b) (br_loads b).

Definition set_pending (l : list Query) (b : Browser) : Browser :=
  mkBrowser (br_open b) (br_client b) (br_items b) (br_page b) (br_total b) (br_keyword b) (br_loading b) (br_error b)
    (br_selected b) l (br_loads b).

Definition set_listed (items : list DefinitionSummary) (total : nat) (b : Browser) : Browser :=
  mkBrowser (br_open b) (br_client b) items (br_page b) total (br_keyword b) (br_loading b) (br_error b)
    (br_selected b) (br_pending b) (br_loads b).

(** [refresh()] up to its [await]: the request carries the keyword and the page
    of the render the function belongs to. *)
Definition refresh (b : Browser) : Browser :=
  set_status true None (set_pending (br_pending b ++ [query b]) b).

(** The rest of [refresh], when the request is answered. *)
Definition answered (a : ListAnswer) (b : Browser) : Browser :=
  match a with
  | Listed items total => set_status false (br_error b) (set_listed (default [] items) (default 0 total) b)
  | ListEngineError message => set_status false (Some message) b
  | ListOtherError => set_status false (Some "Unable to list definitions") b
  end.

(** [load()] around its [await]. *)
Definition load_start (b : Browser) : Browser :=
  match br_selected b with None => b | Some _ => set_status true None b end.

Definition load_end (a : LoadAnswer) (b : Browser) : Browser :=
  match a with
  | LoadOk =>
      mkBrowser false (br_client b) (br_items b) (br_page b) (br_total b) (br_keyword b) false (br_error b)
        (br_selected b) (br_pending b) (S (br_loads b))
  | LoadEngineError message => set_status false (Some message) b
  | LoadOtherError => set_status false (Some "Load failed") b
  end.

Definition totalPages (total : nat) : nat := Nat.max 1 ((total + (PAGE_SIZE - 1)) / PAGE_SIZE).

Inductive BrowserEvent :=
| BOpen
| BClose
| BKeyword (k : string)
| BSearch                                      (* the button, or the Enter key *)
| BPrev
| BNext
| BSelect (id : string) (version : option nat)
| BReconnect                                   (* the connection of the store changed *)
| BAnswer (n : nat) (a : ListAnswer)           (* the n-th request under way is answered *)
| BLoad
| BLoaded (a : LoadAnswer).

(** The handlers; a button that is disabled does nothing, a closed dialog has
    no buttons. *)
Definition browser_event (e : BrowserEvent) (b : Browser) : Browser :=
  match e with
  | BOpen => set_open true b
  | BClose => set_open false b
  | BKeyword k => if br_open b then set_query k (br_page b) b else b
  | BSearch => if br_open b then set_query (br_keyword b) 0 (refresh b) else b
  | BPrev => if (br_open b && negb (Nat.eqb (br_page b) 0))%bool then set_query (br_keyword b) (br_page b - 1) b else b
  | BNext => if (br_open b && Nat.ltb (br_page b + 1) (totalPages (br_total b)))%bool
             then set_query (br_keyword b) (br_page b + 1) b else b
  | BSelect id v => if br_open b then set_selected (Some (id, v)) b else b
  | BReconnect =>
      mkBrowser (br_open b) (S (br_client b)) (br_items b) (br_page b) (br_total b) (br_keyword b) (br_loading b)
        (br_error b) (br_selected b) (br_pending b) (br_loads b)
  | BAnswer n a =>
      match br_pending b !! n with
      | Some _ => answered a (set_pending (delete n (br_pending b)) b)
      | None => b
      end
  | BLoad => if (br_open b && negb (br_loading b))%bool then load_start b else b
  | BLoaded a => load_end a b
  end.

(** [useEffect(() => { if (open) refresh(); }, [open, refresh])] *)
Definition browser_effect (before after : Browser) : Browser :=
  if (br_open after &&
      (negb (br_open before) || negb (bool_decide (query before = query after)) ||
       negb (Nat.eqb (br_client before) (br_client after))))%bool
  then refresh after else after.

Definition browser_step (b : Browser) (e : BrowserEvent) : Browser := browser_effect b (browser_event e b).

Definition run_browser (es : list BrowserEvent) (b : Browser) : Browser := fold_left browser_step es b.

(** The line shown when there is nothing to list. *)
Definition shows_empty (b : Browser) : bool :=
  negb (br_loading b) && match br_error b with Some e => negb (truthy_str e) | None => true end &&
  match br_items b with [] => true | _ => false end.

(** [load()] with the store.  [between] is what the application does to the
    store while the request is under way; no answer is given for a body that is
    no definition, which the store does not check. *)
Definition load `{JsonText} (fetch : Request → Response + string) (between : WorkflowState → WorkflowState)
    (b : Browser) (st : WorkflowState) : option (Browser * WorkflowState) :=
  match br_selected b with
  | None => Some (b, st)
  | Some (id, version) =>
      match loadFromEngine fetch id version between st with
      | Ok st' => Some (load_end LoadOk (load_start b), st')
      | Throws message => Some (load_end (LoadEngineError message) (load_start b), between st)
      | IllTyped => None
      end
  end.

(** ** Requests and answers *)

(** The dialog is settled on what an engine [lookup] lists: the request made
    last is the one for the keyword and the page shown, and without requests
    under way its answer is what is listed. *)
Definition settled (lookup : Query → ListAnswer) (b : Browser) : Prop :=
  match br_pending b with
  | [] => match lookup (query b) with
          | Listed items total => br_items b = default [] items ∧ br_total b = default 0 total
          | _ => True
          end
  | _ => last (br_pending b) = Some (query b)
  end.

(** Answers come in the order of the requests and are those of [lookup]. *)
Definition in_order (lookup : Query → ListAnswer) (b : Browser) (e : BrowserEvent) : Prop :=
  match e with
  | BAnswer n a => n = 0 ∧ match br_pending b with q :: _ => a = lookup q | [] => True end
  | _ => True
  end.

Inductive ordered_run (lookup : Query → ListAnswer) : list BrowserEvent → Browser → Prop :=
| ordered_nil b : ordered_run lookup [] b
| ordered_cons e es b : in_order lookup b e → ordered_run lookup es (browser_step b e) → ordered_run lookup (e :: es) b.

Lemma settled_refresh lookup b : settled lookup (refresh b).
Proof.
  unfold settled. simpl. destruct (br_pending b ++ [query b]) as [|q l] eqn:E; [by destruct (br_pending b)|].
  rewrite <- E. by rewrite last_snoc.
Qed.

(** What does not touch requests, query and list does not matter. *)
Lemma settled_frame lookup b b' :
  br_pending b' = br_pending b → query b' = query b → br_items b' = br_items b → br_total b' = br_total b →
  settled lookup b → settled lookup b'.
Proof. unfold settled. by intros -> -> -> ->. Qed.

Lemma effect_settled lookup b b' :
  (br_open b' = true → br_open b = true → query b = query b' → settled lookup b') →
  (br_open b' = false → settled lookup b') →
  settled lookup (browser_effect b b').
Proof.
  intros Ho Hc. unfold browser_effect. destruct (br_open b') eqn:E; [|by apply Hc]. simpl.
  destruct (br_open b) eqn:E'; [|apply settled_refresh]. simpl.
  destruct (bool_decide_reflect (query b = query b')); [|apply settled_refresh]. simpl.
  destruct (Nat.eqb _ _); [by apply Ho|apply settled_refresh].
Qed.

Lemma settled_answer lookup b q l :
  br_pending b = q :: l → settled lookup b → settled lookup (answered (lookup q) (set_pending l b)).
Proof.
  intros Hp. unfold settled. rewrite Hp. intros Hlast. destruct l as [|q' l'].
  - simpl in Hlast. injection Hlast as ->. by destruct (lookup (query b)) eqn:E; simpl; unfold query in *; simpl; rewrite E.
  - by destruct (lookup q).
Qed.

(** Moving to another query from an open dialog sends a request. *)
Lemma moved_settled lookup b b' k p :
  br_open b = true → settled lookup b' → query b' = query b → br_open b' = true →
  settled lookup (browser_effect b (set_query k p b')).
Proof.
  intros Ho Hs Hq Ho'. apply effect_settled; simpl; [|congruence]. intros _ _ Heq.
  apply (settled_frame lookup b'); try done. unfold query in *. simpl in *. congruence.
Qed.

Lemma kept_settled lookup b b' : query b' = query b → settled lookup b' → settled lookup (browser_effect b b').
Proof. intros Hq Hs. by apply effect_settled. Qed.

Lemma settled_step lookup b e : in_order lookup b e → settled lookup b → settled lookup (browser_step b e).
Proof.
  intros Hin Hs. assert (∀ b', query b' = query b → br_pending b' = br_pending b → br_items b' = br_items b →
    br_total b' = br_total b → settled lookup (browser_effect b b')) as Hframe
    by (intros; apply kept_settled; [done|by apply (settled_frame lookup b)]).
  unfold browser_step. destruct e; simpl; try (by apply Hframe).
  - destruct (br_open b) eqn:Ho; [by apply moved_settled|by apply Hframe].
  - destruct (br_open b) eqn:Ho; [|by apply Hframe]. apply moved_settled; try done. apply settled_refresh.
  - destruct (br_open b) eqn:Ho, (Nat.eqb (br_page b) 0); simpl; try (by apply Hframe). by apply moved_settled.
  - destruct (br_open b) eqn:Ho, (Nat.ltb _ _); simpl; try (by apply Hframe). by apply moved_settled.
  - by destruct (br_open b); apply Hframe.
  - destruct Hin as [-> Ha]. destruct (br_pending b) as [|q l] eqn:E; simpl; [by apply Hframe|]. subst a.
    apply kept_settled; [by destruct (lookup q)|]. by apply settled_answer.
  - unfold load_start. destruct (br_open b && negb (br_loading b))%bool, (br_selected b); by apply Hframe.
  - destruct a; by apply Hframe.
Qed.

(** An answer changes neither the query nor the connection: no request follows. *)
Lemma answer_step b n a q :
  br_open b = true → br_pending b !! n = Some q →
  browser_step b (BAnswer n a) = answered a (set_pending (delete n (br_pending b)) b).
Proof.
  intros Hb Hn. unfold browser_step. simpl. rewrite Hn. unfold browser_effect.
  assert (query (answered a (set_pending (delete n (br_pending b)) b)) = query b) as Hq by (by destruct a).
  assert (br_client (answered a (set_pending (delete n (br_pending b)) b)) = br_client b) as -> by (by destruct a).
  rewrite Hq, Hb, Nat.eqb_refl, bool_decide_eq_true_2 by done. simpl. by rewrite andb_false_r.
Qed.

(** A step to another query of an open dialog. *)
Lemma query_step b b' k p :
  br_open b = true → query b ≠ (k, p) → br_open b' = true → browser_effect b (set_query k p b') = refresh (set_query k p b').
Proof.
  intros Ho Hq Ho'. unfold browser_effect. rewrite Ho. simpl. rewrite Ho', bool_decide_eq_false_2 by done. done.
Qed.

Lemma settled_run lookup es b : ordered_run lookup es b → settled lookup b → settled lookup (run_browser es b).
Proof.
  intros Hr. induction Hr as [|e es b Hin _ IH]; intros Hs; [done|]. unfold run_browser in *. simpl. by apply IH, settled_step.
Qed.

Lemma totalPages_le total p : total ≤ PAGE_SIZE * S p → totalPages total ≤ S p.
Proof.
  unfold totalPages. intros Ht. apply Nat.max_lub; [lia|]. apply Nat.lt_succ_r, Nat.Div0.div_lt_upper_bound. simpl. simpl in Ht. lia.
Qed.

Lemma effect_page b b' : br_page (browser_effect b b') = br_page b'.
Proof. unfold browser_effect. by case_match. Qed.

Lemma browser_page_step b e : br_page (browser_step b e) = br_page (browser_event e b).
Proof. apply effect_page. Qed.

Lemma next_step b :
  br_open b = true → br_page b + 1 < totalPages (br_total b) →
  browser_step b BNext = refresh (set_query (br_keyword b) (br_page b + 1) b).
Proof.
  intros Ho Hlt. unfold browser_step. simpl. rewrite Ho. destruct (Nat.ltb_spec (br_page b + 1) (totalPages (br_total b))); [|lia].
  simpl. apply query_step; [done| |done]. unfold query. intros [= Hq]. lia.
Qed.

(** ** Properties *)

(** C36: an engine that answers in the order it is asked is listed faithfully:
    however the user types, searches, turns pages, reconnects and reopens the
    dialog, once nothing is under way the list and the count are those of the
    keyword and the page on display. *)
Theorem browser_settles lookup es :
  let opened := browser_step no_browser BOpen in
  ordered_run lookup es opened →
  let b := run_browser es opened in
  br_pending b = [] → ∀ items total, lookup (query b) = Listed items total →
  br_items b = default [] items ∧ br_total b = default 0 total.
Proof.
  intros opened Hr b Hp items total Hl. assert (settled lookup b) as Hs by (apply settled_run; [done|apply settled_refresh]).
  unfold settled in Hs. by rewrite Hp, Hl in Hs.
Qed.

(** A search from a later page sends two requests, one for that page and one
    for the first; when the first page is answered first, the dialog ends up
    showing the later page as page one. *)
Theorem search_shows_wrong_page b k p first later total :
  br_open b = true → query b = (k, S p) → br_pending b = [] →
  let b' := run_browser [BSearch; BAnswer 1 (Listed (Some first) total); BAnswer 0 (Listed (Some later) total)] b in
  br_pending (browser_step b BSearch) = [(k, S p); (k, 0)] ∧
  br_page b' = 0 ∧ br_pending b' = [] ∧ br_loading b' = false ∧ br_items b' = later.
Proof.
  intros Ho Hq Hp. unfold query in Hq. injection Hq as Hk Hpg.
  assert (browser_step b BSearch = refresh (set_query k 0 (refresh b))) as E.
  { unfold browser_step. simpl. rewrite Ho, Hk. apply query_step; [done| |done]. unfold query. congruence. }
  unfold run_browser. cbn [fold_left]. rewrite E.
  assert (br_pending (refresh (set_query k 0 (refresh b))) = [(k, S p); (k, 0)]) as Hpend
    by (simpl; rewrite Hp; unfold query; simpl; congruence).
  rewrite (answer_step _ 1 _ (k, 0)) by (done || by rewrite Hpend). rewrite Hpend.
  by rewrite (answer_step _ 0 _ (k, S p)).
Qed.

(** Typing a keyword on a later page asks for that page of the new matches:
    when they fit on the earlier pages the dialog says that there are none. *)
Theorem keyword_keeps_page b k p :
  br_open b = true → br_page b = S p → br_keyword b ≠ k → br_pending b = [] →
  br_pending (browser_step b (BKeyword k)) = [(k, S p)] ∧
  (∀ total, total ≤ PAGE_SIZE * S p →
   let b' := run_browser [BKeyword k; BAnswer 0 (Listed (Some []) (Some total))] b in
   br_page b' = S p ∧ br_total b' = total ∧ shows_empty b' = true ∧ totalPages total ≤ br_page b').
Proof.
  intros Ho Hpg Hk Hp. assert (browser_step b (BKeyword k) = refresh (set_query k (S p) b)) as E.
  { unfold browser_step. simpl. rewrite Ho, Hpg. apply query_step; [done| |done]. unfold query. congruence. }
  unfold run_browser. cbn [fold_left]. rewrite E. split; [simpl; by rewrite Hp|]. intros total Ht.
  rewrite (answer_step _ 0 _ (k, S p)) by (done || by simpl; rewrite Hp). split_and!; try done.
  by apply totalPages_le.
Qed.

(** The pages offered are exactly those with something on them: every item has
    its page, the last page is not empty, and the buttons never leave the
    range. *)
Theorem browser_pages total :
  (∀ i, i < total → i / PAGE_SIZE < totalPages total) ∧
  (0 < total → (totalPages total - 1) * PAGE_SIZE < total) ∧
  (∀ b e, br_total b = total → br_page b < totalPages total → e = BPrev ∨ e = BNext →
     br_page (browser_step b e) < totalPages total) ∧
  (∀ b, br_open b = true → br_total b = total → br_page b = 0 → ∀ p, p < totalPages total →
     br_page (run_browser (repeat BNext p) b) = p).
Proof.
  split_and!.
  - intros i Hi. unfold totalPages. apply Nat.max_lt_iff. right. apply Nat.Div0.div_lt_upper_bound.
    pose proof (Nat.div_mod_eq (total + (PAGE_SIZE - 1)) PAGE_SIZE).
    pose proof (Nat.mod_upper_bound (total + (PAGE_SIZE - 1)) PAGE_SIZE). unfold PAGE_SIZE in *. lia.
  - intros Ht. unfold totalPages.
    pose proof (Nat.div_mod_eq (total + (PAGE_SIZE - 1)) PAGE_SIZE). unfold PAGE_SIZE in *. lia.
  - intros b e <- Hp [-> | ->]; rewrite browser_page_step; simpl.
    + destruct (br_open b), (Nat.eqb (br_page b) 0); simpl; lia.
    + destruct (br_open b), (Nat.ltb_spec (br_page b + 1) (totalPages (br_total b))); simpl; lia.
  - intros b Ho Ht H0 p. revert b Ho Ht H0.
    enough (∀ b q, br_open b = true → br_total b = total → br_page b = q → q + p < totalPages total →
      br_page (run_browser (repeat BNext p) b) = q + p) as H by (intros b ? ? ? ?; by apply (H b 0)).
    induction p as [|p IH]; intros b q Ho Ht Hq Hlt; [simpl; lia|].
    change (run_browser (repeat BNext (S p)) b) with (run_browser (repeat BNext p) (browser_step b BNext)).
    rewrite next_step by (done || rewrite Ht, Hq; lia). rewrite (IH _ (S q)); simpl; lia || done.
Qed.

(** Loading the selected definition: when it is there it replaces the workflow,
    unmodified, and the dialog closes; when the engine refuses, the store is as
    the rest of the application left it, and the dialog stays open with the
    reason. *)
Theorem browser_load `{JsonText} fetch between b st b' st' id version :
  br_selected b = Some (id, version) → load fetch between b st = Some (b', st') →
  (br_open b' = false ∧ br_loads b' = S (br_loads b) ∧ br_loading b' = false ∧ ws_dirty st' = false ∧
   ws_engine st' = ws_engine (between st) ∧ ∃ v, ws_source st' = SrcEngine id v) ∨
  (br_open b' = br_open b ∧ br_loads b' = br_loads b ∧ br_loading b' = false ∧ st' = between st ∧
   ∃ message, br_error b' = Some message).
Proof.
  intros Hs. unfold load. rewrite Hs. destruct (loadFromEngine fetch id version between st) as [st''|m|] eqn:E; intros Hl; simplify_eq.
  - left. unfold load_start. rewrite Hs. simpl. unfold loadFromEngine in E.
    destruct (match version with None => _ | Some _ => _ end) as [[j|]|]; [|done|done].
    destruct (zWorkflowDefinition false j); [|done]. destruct (extractEmbeddedModeller _). simplify_eq. simpl. eauto 10.
  - right. unfold load_start. rewrite Hs. simpl. eauto 10.
Qed.

(** ** Witnesses *)

Definition entry (id : string) : DefinitionSummary := mkDefSummary id id [1].

(** An engine with 45 definitions for every keyword. *)
Definition three_pages (q : Query) : ListAnswer := Listed (Some [entry (q.1 ⊕ "-" ⊕ str_of_nat q.2)]) (Some 45).

Lemma browser_settles_witness :
  let b := run_browser [BAnswer 0 (three_pages (EmptyString, 0)); BNext; BKeyword "loan";
                        BAnswer 0 (three_pages (EmptyString, 1)); BAnswer 0 (three_pages ("loan", 1))]
             (browser_step no_browser BOpen) in
  br_items b = [entry "loan-1"] ∧ br_total b = 45.
Proof.
  apply (browser_settles three_pages
    [BAnswer 0 (three_pages (EmptyString, 0)); BNext; BKeyword "loan";
     BAnswer 0 (three_pages (EmptyString, 1)); BAnswer 0 (three_pages ("loan", 1))]) with (items := Some [entry "loan-1"]) (total := Some 45).
  - repeat (constructor; [first [exact I | split; reflexivity]|]). constructor.
  - reflexivity.
  - reflexivity.
Defined.

Definition on_page_two : Browser := set_query "loan" 1 (set_open true no_browser).

Lemma search_shows_wrong_page_witness :
  let b' := run_browser [BSearch; BAnswer 1 (Listed (Some [entry "a"]) (Some 21)); BAnswer 0 (Listed (Some [entry "z"]) (Some 21))]
              on_page_two in
  br_page b' = 0 ∧ br_items b' = [entry "z"].
Proof.
  destruct (search_shows_wrong_page on_page_two "loan" 0 [entry "a"] [entry "z"] (Some 21)) as (_ & ? & _ & _ & ?);
    [reflexivity..|]. split; assumption.
Defined.

Lemma keyword_keeps_page_witness :
  shows_empty (run_browser [BKeyword "loans"; BAnswer 0 (Listed (Some []) (Some 7))] on_page_two) = true.
Proof.
  destruct (keyword_keeps_page on_page_two "loans" 0) as [_ H]; [reflexivity|reflexivity|discriminate|reflexivity|].
  apply (H 7). unfold PAGE_SIZE. lia.
Defined.

Lemma browser_load_witness :
  let fetch (_ : Request) : Response + string := inr EmptyString in
  ∃ b' st', load fetch (λ s, s) (set_selected (Some ("loan", None)) on_page_two) initialState = Some (b', st') ∧
    st' = initialState ∧ br_error b' = Some "Network error".
Proof.
  intros fetch. eexists _, _. split; [reflexivity|].
  destruct (browser_load fetch (λ s, s) (set_selected (Some ("loan", None)) on_page_two) initialState
    (set_status false (Some "Network error") (set_status true None (set_selected (Some ("loan", None)) on_page_two)))
    initialState "loan" None) as [(? & _)|(_ & _ & _ & ? & _)]; [reflexivity|reflexivity|discriminate|]. split; reflexivity.
Defined.
