(* ===== verification/DraftsDialog.v ===== *)
(** * The drafts dialog (workflow-modeller/src/panels/DraftsDialog.tsx)

    The dialog keeps a copy of the list of drafts, read when it opens and after
    every change it makes.  The machine runs it over the store and the
    storage.  Confirmations are modal: the answer comes with the click. *)

From Stdlib Require Import Sorting.Sorted.
From S2P Require Import Prelude JsObject Types Schema ImportExport Store Drafts.

Inductive Tone := ToneInfo | ToneError | ToneWarning.

Record DraftsPanel := mkPanel {
  dp_open : bool;
  dp_drafts : list DraftSummary;
  dp_name : string;
  dp_error : option string;
  dp_messages : list (Tone * string)       (* the calls of onMessage, newest last *)
}.

Definition no_panel : DraftsPanel := mkPanel false [] EmptyString None [].

Record Desk := mkDesk { dk_panel : DraftsPanel; dk_state : WorkflowState; dk_storage : Storage }.

Definition reasonMessage (reason : SaveDraftResult) : string :=
  match reason with
  | NAME_REQUIRED_ => "Please enter a name for the draft."
  | CAP_REACHED =>
      "You already have " ⊕ str_of_nat DRAFTS_LIMIT ⊕ " drafts. Delete one before saving a new one."
  | STORAGE_FAILED => "Could not save to local storage. It may be full or blocked."
  | SaveOk _ => EmptyString
  end.

Definition atCap (p : DraftsPanel) : bool := Nat.leb DRAFTS_LIMIT (length (dp_drafts p)).

Definition stepCount (st : WorkflowState) : nat := length (wd_steps (ws_definition st)).

Definition canSave (p : DraftsPanel) (st : WorkflowState) : bool :=
  truthy_str (js_trim (dp_name p)) && negb (atCap p) && Nat.ltb 0 (stepCount st).

(** ** The order of the list: newest first *)

(** The difference of two saving times, as far as its sign goes. *)
Definition num_compare (a b : jsnum) : comparison :=
  let e := Z.min (expo a) (expo b) in
  Z.compare (mant a * 2 ^ (expo a - e)) (mant b * 2 ^ (expo b - e)).

Definition saved_at (d : DraftSummary) : jsnum :=
  match sm_savedAt d with Some (JNum n) => n | _ => num_of_Z 0 end.

(** [b.savedAt - a.savedAt <= 0]: [a] may stay in front of [b]. *)
Definition not_older (a b : DraftSummary) : bool :=
  match num_compare (saved_at b) (saved_at a) with Gt => false | _ => true end.

Fixpoint insert_draft (d : DraftSummary) (l : list DraftSummary) : list DraftSummary :=
  match l with
  | [] => [d]
  | x :: l' => if not_older d x then d :: l else x :: insert_draft d l'
  end.

(** [[...drafts].sort((a, b) => b.savedAt - a.savedAt)], which is stable *)
Definition sorted (drafts : list DraftSummary) : list DraftSummary := foldr insert_draft [] drafts.

(** ** The handlers *)

Section dialog.
Context `{JsonText} (accepts : string → bool).

Definition draft_name (d : Draft) : string := match obj_get d "name" with Some (JStr s) => s | _ => EmptyString end.

Definition say (tone : Tone) (text : string) (p : DraftsPanel) : DraftsPanel :=
  mkPanel (dp_open p) (dp_drafts p) (dp_name p) (dp_error p) (dp_messages p ++ [(tone, text)]).

Definition with_drafts (l : list DraftSummary) (p : DraftsPanel) : DraftsPanel :=
  mkPanel (dp_open p) l (dp_name p) (dp_error p) (dp_messages p).

Definition with_error (e : option string) (p : DraftsPanel) : DraftsPanel :=
  mkPanel (dp_open p) (dp_drafts p) (dp_name p) e (dp_messages p).

Definition close_panel (p : DraftsPanel) : DraftsPanel :=
  mkPanel false (dp_drafts p) (dp_name p) (dp_error p) (dp_messages p).

Definition handleSave (freshId : string) (now : Z) (k : Desk) : Desk :=
  let p := dk_panel k in
  let '(s', result) := saveDraftAction accepts freshId now (dp_name p) (dk_state k) (dk_storage k) in
  match result with
  | SaveOk draft =>
      mkDesk (say ToneInfo ("Draft " ⊕ quoted (draft_name draft) ⊕ " saved.") (with_drafts (listDrafts s') (with_error None p)))
        (dk_state k) s'
  | reason => mkDesk (say ToneError (reasonMessage reason) (with_error (Some (reasonMessage reason)) p)) (dk_state k) s'
  end.

(** [None]: the stored objects are no workflow, and the store would hold them. *)
Definition handleRestore (id name : string) (confirmed : bool) (k : Desk) : option Desk :=
  if (ws_dirty (dk_state k) && negb confirmed)%bool then Some k
  else match loadDraft id (dk_storage k) (dk_state k) with
       | Some (Ok st') =>
           Some (mkDesk (close_panel (say ToneInfo ("Restored draft " ⊕ quoted name ⊕ ".") (dk_panel k))) st' (dk_storage k))
       | Some _ => None
       | None =>
           Some (mkDesk (with_drafts (listDrafts (dk_storage k))
                           (say ToneError "Draft not found (it may have been deleted)." (dk_panel k)))
                   (dk_state k) (dk_storage k))
       end.

Definition handleDelete (id : string) (confirmed : bool) (k : Desk) : Desk :=
  if confirmed
  then let s' := deleteDraft accepts id (dk_storage k) in
       mkDesk (with_error None (with_drafts (listDrafts s') (dk_panel k))) (dk_state k) s'
  else k.

Inductive DraftsEvent :=
| DOpen
| DClose
| DName (v : string)
| DSave (freshId : string) (now : Z)
| DRestore (id name : string) (confirmed : bool)
| DDelete (id name : string) (confirmed : bool)
| DStore (change : WorkflowState → WorkflowState).

Definition set_panel (p : DraftsPanel) (k : Desk) : Desk := mkDesk p (dk_state k) (dk_storage k).

(** A closed dialog has no controls; a disabled one does nothing. *)
Definition drafts_event (e : DraftsEvent) (k : Desk) : option Desk :=
  let p := dk_panel k in
  match e with
  | DOpen => Some (set_panel (mkPanel true (dp_drafts p) (dp_name p) (dp_error p) (dp_messages p)) k)
  | DClose => Some (set_panel (close_panel p) k)
  | DName v =>
      Some (if (dp_open p && negb (atCap p) && Nat.ltb 0 (stepCount (dk_state k)))%bool
            then set_panel (mkPanel (dp_open p) (dp_drafts p) v (dp_error p) (dp_messages p)) k else k)
  | DSave freshId now =>
      Some (if (dp_open p && canSave p (dk_state k))%bool then handleSave freshId now k else k)
  | DRestore id name c => if dp_open p then handleRestore id name c k else Some k
  | DDelete id name c => Some (if dp_open p then handleDelete id c k else k)
  | DStore f => Some (mkDesk p (f (dk_state k)) (dk_storage k))
  end.

Definition workflow_name (k : Desk) : string := wd_name (ws_definition (dk_state k)).

(** The effect on [open] and [workflowName]. *)
Definition drafts_effect (before after : Desk) : Desk :=
  let p := dk_panel after in
  if (dp_open p && (negb (dp_open (dk_panel before)) || negb (String.eqb (workflow_name before) (workflow_name after))))%bool
  then set_panel (mkPanel true (listDrafts (dk_storage after)) (workflow_name after) None (dp_messages p)) after
  else after.

Definition drafts_step (e : DraftsEvent) (k : Desk) : option Desk :=
  drafts_effect k <$> drafts_event e k.

Fixpoint run_drafts (es : list DraftsEvent) (k : Desk) : option Desk :=
  match es with
  | [] => Some k
  | e :: es => drafts_step e k ≫= run_drafts es
  end.
End dialog.

(** ** Lemmas *)

(** Two numbers compare as at any common exponent. *)
Lemma num_compare_at e a b :
  (e ≤ expo a)%Z → (e ≤ expo b)%Z →
  num_compare a b = Z.compare (mant a * 2 ^ (expo a - e)) (mant b * 2 ^ (expo b - e)).
Proof.
  intros Ha Hb. unfold num_compare. set (m := Z.min (expo a) (expo b)).
  assert (e ≤ m ∧ m ≤ expo a ∧ m ≤ expo b)%Z as (Hm & Hma & Hmb) by lia.
  replace (expo a - e)%Z with ((expo a - m) + (m - e))%Z by lia.
  replace (expo b - e)%Z with ((expo b - m) + (m - e))%Z by lia.
  rewrite !Z.pow_add_r, !Z.mul_assoc by lia. apply Zmult_compare_compat_r.
  pose proof (Z.pow_pos_nonneg 2 (m - e)). lia.
Qed.

Lemma not_older_le e a b :
  (e ≤ expo (saved_at a))%Z → (e ≤ expo (saved_at b))%Z →
  not_older a b = (mant (saved_at b) * 2 ^ (expo (saved_at b) - e) <=? mant (saved_at a) * 2 ^ (expo (saved_at a) - e))%Z.
Proof. intros. unfold not_older. rewrite (num_compare_at e) by done. unfold Z.leb. by destruct (Z.compare _ _). Qed.

Lemma not_older_total a b : not_older a b = false → not_older b a = true.
Proof.
  set (e := Z.min (expo (saved_at a)) (expo (saved_at b))). rewrite !(not_older_le e) by lia. lia.
Qed.

Lemma not_older_trans a b c : not_older a b = true → not_older b c = true → not_older a c = true.
Proof.
  set (e := Z.min (expo (saved_at a)) (Z.min (expo (saved_at b)) (expo (saved_at c)))).
  rewrite !(not_older_le e) by lia. lia.
Qed.

Lemma insert_draft_perm d l : insert_draft d l ≡ₚ d :: l.
Proof. induction l as [|x l IH]; simpl; [done|]. case_match; [done|]. rewrite IH. apply Permutation_swap. Qed.

Lemma sorted_perm l : sorted l ≡ₚ l.
Proof. induction l as [|d l IH]; simpl; [done|]. unfold sorted in *. simpl. by rewrite insert_draft_perm, IH. Qed.

Lemma insert_draft_sorted d l :
  StronglySorted (λ a b, not_older a b = true) l → StronglySorted (λ a b, not_older a b = true) (insert_draft d l).
Proof.
  induction 1 as [|x l Hl IH Hx]; simpl; [repeat constructor|]. destruct (not_older d x) eqn:E.
  - constructor; [by constructor|]. constructor; [done|]. eapply Forall_impl; [exact Hx|]. simpl. intros y Hy. by apply (not_older_trans d x y).
  - constructor; [done|]. rewrite insert_draft_perm. constructor; [by apply not_older_total|done].
Qed.

Lemma sorted_sorted l : StronglySorted (λ a b, not_older a b = true) (sorted l).
Proof. induction l as [|d l IH]; [constructor|]. by apply insert_draft_sorted. Qed.

(** Drafts of the same time as [t]. *)
Definition same_time (t : jsnum) (d : DraftSummary) : bool :=
  match num_compare (saved_at d) t with Eq => true | _ => false end.

Lemma insert_draft_stable t d l :
  List.filter (same_time t) (insert_draft d l) = List.filter (same_time t) (d :: l).
Proof.
  induction l as [|x l IH]; [done|]. cbn [insert_draft]. destruct (not_older d x) eqn:E; [done|].
  cbn [List.filter] in *. rewrite IH. destruct (same_time t d) eqn:Ed, (same_time t x) eqn:Ex; try done. exfalso.
  unfold same_time, not_older in *. set (e := Z.min (expo t) (Z.min (expo (saved_at d)) (expo (saved_at x)))).
  rewrite !(num_compare_at e) in * by lia.
  repeat match goal with H : context [Z.compare ?a ?b] |- _ => destruct (Z.compare_spec a b); try done end. lia.
Qed.

Lemma sorted_stable t l : List.filter (same_time t) (sorted l) = List.filter (same_time t) l.
Proof.
  induction l as [|d l IH]; [done|]. change (sorted (d :: l)) with (insert_draft d (sorted l)).
  rewrite insert_draft_stable. cbn [List.filter]. by rewrite IH.
Qed.

(** The list on display is the stored one. *)
Definition panel_ok `{JsonText} (k : Desk) : Prop :=
  dp_open (dk_panel k) = true → dp_drafts (dk_panel k) = listDrafts (dk_storage k).

Section machine.
Context `{JsonText} (accepts : string → bool).
Implicit Types (k : Desk).

Lemma effect_ok k k' :
  (dp_open (dk_panel k) = true → dp_open (dk_panel k') = true → dp_drafts (dk_panel k') = listDrafts (dk_storage k')) →
  panel_ok (drafts_effect k k').
Proof.
  intros H0. unfold drafts_effect, panel_ok. destruct (dp_open (dk_panel k')) eqn:Eo; simpl; [|by rewrite Eo].
  destruct (dp_open (dk_panel k)) eqn:E; simpl; [|done]. destruct (String.eqb _ _); simpl; auto.
Qed.

Lemma save_storage freshId now name st s :
  let '(s', r) := saveDraftAction accepts freshId now name st s in
  match r with SaveOk _ => True | _ => s' = s end.
Proof.
  unfold saveDraftAction, saveDraft, writeRaw. by repeat case_match; simplify_eq.
Qed.

Lemma handleSave_ok freshId now k :
  panel_ok k → dp_open (dk_panel k) = true →
  dp_drafts (dk_panel (handleSave accepts freshId now k)) = listDrafts (dk_storage (handleSave accepts freshId now k)).
Proof.
  intros Hk Ho. specialize (Hk Ho). unfold handleSave.
  pose proof (save_storage freshId now (dp_name (dk_panel k)) (dk_state k) (dk_storage k)) as Hs.
  destruct (saveDraftAction _ _ _ _ _ _) as [s' []]; simpl; subst; done.
Qed.

Lemma drafts_step_ok e k k' : panel_ok k → drafts_step accepts e k = Some k' → panel_ok k'.
Proof.
  intros Hk Hs. unfold drafts_step in Hs. apply fmap_Some in Hs as (k1 & He & ->). apply effect_ok. intros Ho.
  specialize (Hk Ho) as Hd. destruct e; simpl in He; rewrite ?Ho in He; simplify_eq; simpl; auto.
  - destruct (_ && _)%bool; simplify_eq; auto.
  - destruct (canSave _ _); simplify_eq; auto. intros _. by apply handleSave_ok.
  - unfold handleRestore in He. destruct (_ && _)%bool; simplify_eq; auto.
    destruct (loadDraft _ _ _) as [[]|]; simplify_eq; simpl; auto.
  - unfold handleDelete. by destruct confirmed.
Qed.

(** Whatever is clicked, an open dialog shows the drafts that are stored. *)
Theorem drafts_on_display es st s k :
  run_drafts accepts es (mkDesk no_panel st s) = Some k → panel_ok k.
Proof.
  assert (∀ es k0, panel_ok k0 → run_drafts accepts es k0 = Some k → panel_ok k) as Hrun.
  { clear es. induction es as [|e es IH]; intros k0 Hk Hr; simpl in Hr; [by simplify_eq|].
    apply bind_Some in Hr as (k1 & Hs & Hr). eapply IH; [|exact Hr]. by eapply drafts_step_ok. }
  apply Hrun. unfold panel_ok. done.
Qed.

(** Restoring replaces the workflow only when there is nothing unsaved or the
    user agreed; otherwise the store is untouched. *)
Theorem restore_asks_first id name confirmed k k' :
  handleRestore id name confirmed k = Some k' →
  dk_storage k' = dk_storage k ∧
  (dk_state k' = dk_state k ∨
   (ws_dirty (dk_state k) = false ∨ confirmed = true) ∧ dp_open (dk_panel k') = false ∧
   ws_dirty (dk_state k') = false ∧ loadDraft id (dk_storage k) (dk_state k) = Some (Ok (dk_state k'))) ∧
  (dk_state k' ≠ dk_state k → is_Some (getDraft id (dk_storage k))).
Proof.
  unfold handleRestore. destruct (ws_dirty (dk_state k) && negb confirmed)%bool eqn:Ed; [intros; simplify_eq; split_and!; [done|by left|done]|].
  destruct (loadDraft id (dk_storage k) (dk_state k)) as [[st'| |]|] eqn:El; intros; simplify_eq; simpl;
    [|by split_and!; [|left|]].
  split_and!; [done| |].
  - right. split_and!; [|done| |done].
    + destruct (ws_dirty _), confirmed; simpl in Ed; auto.
    + unfold loadDraft in El. repeat case_match; simplify_eq; done.
  - intros _. unfold loadDraft in El. destruct (getDraft _ _); [eauto|done].
Qed.
End machine.

(** ** Properties that rely on the text level *)

Section saving.
Context `{JsonTextLaws} (accepts : string → bool).

(** C35: when the list on display is the stored one and the button is enabled,
    only the storage itself can refuse.  If it takes the text, the draft with
    the trimmed name and the workflow, layout and edge handles of the editor is
    appended to the others as they were, found under its id when that is new,
    within the cap, the list is refreshed, the error cleared and the draft
    announced by name; if it does not, the storage and the list stay and the
    failure is shown and announced.  The editor is left alone. *)
Theorem enabled_save freshId now k :
  panel_ok k → dp_open (dk_panel k) = true → canSave (dk_panel k) (dk_state k) = true →
  input_wf (mkDraftInput (dp_name (dk_panel k)) (ws_definition (dk_state k)) (ws_layout (dk_state k))
              (ws_edgeHandles (dk_state k))) = true →
  let k' := handleSave accepts freshId now k in
  let p := dk_panel k in
  let drafts := readRaw (dk_storage k) in
  let name := js_trim (dp_name p) in
  let d := [("id", JStr freshId); ("name", JStr name); ("savedAt", JNum (num_of_Z now));
            ("definition", def_json (ws_definition (dk_state k))); ("layout", layout_json (ws_layout (dk_state k)));
            ("edgeHandles", JObj (ws_edgeHandles (dk_state k)))] in
  dk_state k' = dk_state k ∧ panel_ok k' ∧
  if accepts (JSON_stringify (JArr (JObj <$> drafts ++ [d])))
  then readRaw (dk_storage k') = drafts ++ [d] ∧ length (drafts ++ [d]) ≤ DRAFTS_LIMIT ∧
       (getDraft freshId (dk_storage k) = None → getDraft freshId (dk_storage k') = Some d) ∧
       dk_panel k' = mkPanel true (listDrafts (dk_storage k')) (dp_name p) None
                       (dp_messages p ++ [(ToneInfo, "Draft " ⊕ quoted name ⊕ " saved.")])
  else dk_storage k' = dk_storage k ∧
       dk_panel k' = mkPanel true (dp_drafts p) (dp_name p) (Some (reasonMessage STORAGE_FAILED))
                       (dp_messages p ++ [(ToneError, reasonMessage STORAGE_FAILED)]).
Proof.
  intros Hk Ho Hc Hin k' p drafts name d. split_and!.
  { unfold k', handleSave. by destruct (saveDraftAction _ _ _ _ _ _) as [s' []]. }
  { intros _. by apply handleSave_ok. }
  specialize (Hk Ho). unfold canSave, atCap in Hc. apply andb_true_iff in Hc as [[Hn Hcap]%andb_true_iff _].
  apply negb_true_iff, Nat.leb_gt in Hcap. rewrite Hk in Hcap. unfold listDrafts in Hcap. rewrite length_fmap in Hcap.
  pose proof (saveDraft_cases accepts freshId now _ (dk_storage k) Hin) as Hcs.
  unfold k', handleSave, saveDraftAction. unfold saveDraft in *. cbn [di_name] in *.
  change (draft_obj freshId _ now _) with d in *. fold p name drafts in Hn, Hcap, Hcs |- *.
  rewrite Hn in *. cbn [negb] in *. rewrite (proj2 (Nat.leb_gt _ _) Hcap) in *. unfold writeRaw in *.
  destruct (accepts _); cbn [negb] in *.
  - destruct Hcs as (_ & Hr & Hlen & _ & Hg). cbn [dk_storage dk_panel]. rewrite Hr in Hlen. split_and!; try done.
    unfold say, with_drafts, with_error. cbn [dp_open dp_name dp_drafts dp_error dp_messages]. by rewrite <- Ho.
  - split; [done|]. unfold say, with_error. cbn [dp_open dp_name dp_drafts dp_error dp_messages dk_panel]. by rewrite <- Ho.
Qed.
End saving.

(** The drafts are listed newest first, all of them, and drafts of the same
    time in the order they were saved. *)
Theorem drafts_sorted l :
  sorted l ≡ₚ l ∧ StronglySorted (λ a b, not_older a b = true) (sorted l) ∧
  (∀ t, List.filter (same_time t) (sorted l) = List.filter (same_time t) l).
Proof. split_and!; [apply sorted_perm|apply sorted_sorted|intros; apply sorted_stable]. Qed.

(** ** Witnesses *)

Definition desk : Desk := mkDesk no_panel (edit tiny_def initialState) None.

Lemma drafts_on_display_witness :
  ∃ k, run_drafts (λ _, true) [DOpen; DName " first "; DSave "id-1" 7; DDelete "id-0" "x" true] desk = Some k ∧
    dp_drafts (dk_panel k) = listDrafts (dk_storage k) ∧ length (dp_drafts (dk_panel k)) = 1.
Proof.
  destruct (run_drafts (λ _, true) [DOpen; DName " first "; DSave "id-1" 7; DDelete "id-0" "x" true] desk) as [k|] eqn:E;
    [|by vm_compute in E].
  exists k. split; [reflexivity|]. pose proof (drafts_on_display (λ _, true) _ _ _ _ E) as Hk.
  vm_compute in E. injection E as <-. split; [|reflexivity]. apply Hk. reflexivity.
Defined.

Lemma restore_asks_first_witness :
  handleRestore "id-1" "first" false desk = Some desk ∧
  (dk_state desk = dk_state desk ∨ ws_dirty (dk_state desk) = false ∨ false = true).
Proof.
  split; [reflexivity|]. destruct (restore_asks_first "id-1" "first" false desk desk) as (_ & [?|[? _]] & _);
    [reflexivity|left; assumption|right; assumption].
Defined.

Definition ready : Desk := default desk (run_drafts (λ _, true) [DOpen; DName " first "] desk).

(** Saved, and refused by a full storage. *)
Lemma enabled_save_witness :
  let saved := handleSave (λ _, true) "id-1" 7 ready in
  let refused := handleSave (λ _, false) "id-1" 7 ready in
  (∃ d, readRaw (dk_storage saved) = [d] ∧ obj_get d "definition" = Some (def_json tiny_def) ∧
     dp_messages (dk_panel saved) = [(ToneInfo, "Draft " ⊕ quoted "first" ⊕ " saved.")]) ∧
  dk_storage refused = None ∧ dp_error (dk_panel refused) = Some (reasonMessage STORAGE_FAILED).
Proof.
  assert (panel_ok ready) as Hok by (intros _; vm_compute; reflexivity).
  destruct (enabled_save (λ _, true) "id-1" 7 ready Hok) as (_ & _ & Hr & _ & _ & Hp); [vm_compute; reflexivity..|].
  destruct (enabled_save (λ _, false) "id-1" 7 ready Hok) as (_ & _ & Hs & Hq); [vm_compute; reflexivity..|].
  split; [|split; [exact Hs|rewrite Hq; reflexivity]].
  eexists. split; [exact Hr|]. split; [reflexivity|]. rewrite Hp. vm_compute. reflexivity.
Defined.
