(* ===== verification/History.v ===== *)
(** * Undo and redo
    (workflow-modeller/src/store/workflowStore.ts, the middleware of the store;
    Toolbar.tsx, the keyboard shortcut)

    The store of [Store.v] wrapped by its two middlewares.  [temporal] (zundo)
    keeps the definitions before and after the current one; it compares
    definitions as objects, so every definition here has the identity of its
    object beside it.  [persist] (zustand) writes a part of the state to the
    browser's storage and reads it back when the editor starts ([Persist.v]).
    Both are library code: classes of operations with the documented behaviour
    as laws, and an instance of each.

    The workspace is the editor with the stored drafts; its events are the
    actions, undo and redo, the drafts and the answers of the engine. *)

From S2P Require Import Prelude JsObject Types Graph Rename Validate Schema ImportExport Store StoreProps StoreInv Drafts Engine GoDefinition DraftsDialog.

(** ** The undo library *)

Record TemporalOptions (D : Type) := mkTemporalOptions {
  to_equality : D → D → bool;
  to_limit : nat
}.
Arguments mkTemporalOptions {D} _ _.
Arguments to_equality {D} _ _ _.
Arguments to_limit {D} _.

Class TemporalLibrary (D : Type) := {
  Temporal : Type;
  pastStates : Temporal → list D;
  futureStates : Temporal → list D;
  temporal_init : Temporal;
  temporal_set : TemporalOptions D → D → D → Temporal → Temporal;   (* the tracked part before and after a [set] *)
  temporal_undo : D → Temporal → Temporal * option D;               (* the current part; the one to apply *)
  temporal_redo : D → Temporal → Temporal * option D
}.

(** A [set] between parts that the options call equal is not recorded; another
    one pushes the part before it, makes room for it when the limit is
    reached, and forgets what was undone.  [undo] and [redo] move one state
    between the two lists, through the current one. *)
Class TemporalLaws (D : Type) (T : TemporalLibrary D) := {
  init_past : pastStates temporal_init = [];
  init_future : futureStates temporal_init = [];
  set_equal : ∀ o p c t, to_equality o p c = true → temporal_set o p c t = t;
  set_past : ∀ o p c t, to_equality o p c = false →
    pastStates (temporal_set o p c t) =
    (if Nat.leb (to_limit o) (length (pastStates t)) then tail (pastStates t) else pastStates t) ++ [p];
  set_future : ∀ o p c t, to_equality o p c = false → futureStates (temporal_set o p c t) = [];
  undo_none : ∀ c t, pastStates t = [] → temporal_undo c t = (t, None);
  undo_some : ∀ c t l d, pastStates t = l ++ [d] →
    (temporal_undo c t).2 = Some d ∧ pastStates (temporal_undo c t).1 = l ∧
    futureStates (temporal_undo c t).1 = futureStates t ++ [c];
  redo_none : ∀ c t, futureStates t = [] → temporal_redo c t = (t, None);
  redo_some : ∀ c t l d, futureStates t = l ++ [d] →
    (temporal_redo c t).2 = Some d ∧ pastStates (temporal_redo c t).1 = pastStates t ++ [c] ∧
    futureStates (temporal_redo c t).1 = l
}.

(** ** The store inside its history *)

(** A definition object: its identity and what it holds. *)
Abbreviation DefObject := (nat * WorkflowDefinition)%type.

(** [partialize], [equality] (of objects) and [limit] of the store's [temporal]. *)
Definition temporal_options : TemporalOptions DefObject :=
  mkTemporalOptions (λ a b, Nat.eqb a.1 b.1) 100.

Definition with_definition (d : WorkflowDefinition) (st : WorkflowState) : WorkflowState :=
  mkState d (ws_layout st) (ws_edgeHandles st) (ws_selection st) (ws_validation st) (ws_dirty st)
    (ws_importWarnings st) (ws_engine st) (ws_source st).

(** Everything that calls [set]: the actions, and what the asynchronous ones do
    once they are answered. *)
Inductive StoreEvent :=
| SAct (a : Action)
| SLoadDraft (id : string) (storage : Storage)
| SLoaded (id : string) (version : option nat) (def : WorkflowDefinition)
| SUploaded (now : Z) (summary : UploadSummary)
| SUploadFailed (now : Z) (e : EngineError)
| STested (now : Z) (status : EngineStatus)
| SUndo
| SRedo.

Section history.
Context `{TextOps : JsonText} (peg_message : string → string).
Context `{TemporalLibrary DefObject}.

Record Editor := mkEditor {
  ed_state : WorkflowState;
  ed_ref : nat;                    (* the object under [definition] *)
  ed_next : nat;                   (* the identity of the next object made *)
  ed_temporal : Temporal
}.

Definition tracked (ed : Editor) : DefObject := (ed_ref ed, ws_definition (ed_state ed)).

Definition new_editor (st : WorkflowState) : Editor := mkEditor st 0 1 temporal_init.

(** The [set] of [loadFromEngine], with the definition the engine answered. *)
Definition load_done (id : string) (version : option nat) (def : WorkflowDefinition) (st : WorkflowState) :
    WorkflowState :=
  let '(layout, handles) := extractEmbeddedModeller def in
  let v := match wd_version def, version with
           | Some v, _ => v
           | None, Some v => num_of_nat v
           | None, None => num_of_nat 0
           end in
  replace_workflow def layout handles [] (SrcEngine id v) st.

Definition perform_event (e : StoreEvent) (st : WorkflowState) : Result WorkflowState :=
  match e with
  | SAct a => perform peg_message a st
  | SLoadDraft id s => match loadDraft id s st with Some r => r | None => Ok st end
  | SLoaded id version def => Ok (load_done id version def st)
  | SUploaded now summary => Ok (upload_done now summary st)
  | SUploadFailed now err => Ok (upload_failed now err st)
  | STested now status => Ok (with_engine (with_status status (Some now) (ws_engine st)) st)
  | SUndo | SRedo => Ok st
  end.

(** Whether [definition] is another object afterwards: the actions build one,
    but for a rename to the same id and a text or a draft that cannot be read. *)
Definition makes_object (e : StoreEvent) (st : WorkflowState) : bool :=
  match e with
  | SAct (AAdd _) | SAct (ADelete _ _) | SAct (AUpdate _ _ _) | SAct (AMeta _) | SAct ANew | SAct AReset => true
  | SAct (ARename o n) => negb (String.eqb o n)
  | SAct (AImport text _) | SAct (AApply text) => match importJson text with ImportOk _ _ => true | ImportErr _ => false end
  | SAct _ => false
  | SLoadDraft id s => match loadDraft id s st with Some _ => true | None => false end
  | SLoaded _ _ _ | SUploaded _ _ => true
  | SUploadFailed _ _ | STested _ _ | SUndo | SRedo => false
  end.

(** [set] through the middleware. *)
Definition set_store (fresh : bool) (st' : WorkflowState) (ed : Editor) : Editor :=
  let ref := if fresh then ed_next ed else ed_ref ed in
  mkEditor st' ref (if fresh then S (ed_next ed) else ed_next ed)
    (temporal_set temporal_options (tracked ed) (ref, ws_definition st') (ed_temporal ed)).

(** [undo] and [redo] set the tracked part and nothing else. *)
Definition apply_tracked (ed : Editor) (r : Temporal * option DefObject) : Editor :=
  match r with
  | (t, Some (ref, def)) => mkEditor (with_definition def (ed_state ed)) ref (ed_next ed) t
  | (t, None) => mkEditor (ed_state ed) (ed_ref ed) (ed_next ed) t
  end.

Definition undo (ed : Editor) : Editor := apply_tracked ed (temporal_undo (tracked ed) (ed_temporal ed)).
Definition redo (ed : Editor) : Editor := apply_tracked ed (temporal_redo (tracked ed) (ed_temporal ed)).

Definition editor_step (e : StoreEvent) (ed : Editor) : Result Editor :=
  match e with
  | SUndo => Ok (undo ed)
  | SRedo => Ok (redo ed)
  | _ =>
      match perform_event e (ed_state ed) with
      | Ok st' => Ok (set_store (makes_object e (ed_state ed)) st' ed)
      | Throws m => Throws m
      | IllTyped => IllTyped
      end
  end.

(** A run; an action that throws leaves the editor as it was. *)
Fixpoint run_editor (es : list StoreEvent) (ed : Editor) : Result Editor :=
  match es with
  | [] => Ok ed
  | e :: es =>
      match editor_step e ed with
      | Ok ed' => run_editor es ed'
      | Throws _ => run_editor es ed
      | IllTyped => IllTyped
      end
  end.
End history.

Arguments Editor {_}.

(** ** The keyboard shortcut *)

Record KeyEvent := mkKey {
  k_meta : bool;
  k_ctrl : bool;
  k_alt : bool;
  k_shift : bool;
  k_key : string;
  k_in_field : bool;           (* the target is inside an input, textarea, select or editable element *)
  k_dialog_open : bool         (* [dialog[open]] is in the document *)
}.

(** The call the handler makes, if any; it calls [preventDefault] exactly then. *)
Definition handleHistory (ev : KeyEvent) : option StoreEvent :=
  if (negb (k_meta ev || k_ctrl ev) || k_alt ev || negb (String.eqb (str_map ascii_lower (k_key ev)) "z"))%bool
  then None
  else if k_in_field ev then None
  else if k_dialog_open ev then None
  else Some (if k_shift ev then SRedo else SUndo).

(** ** The timeline, what undo and redo promise

    The definitions the user has been through, oldest first, with a cursor. *)

Record Timeline := mkTimeline {
  tl_before : list DefObject;
  tl_now : DefObject;
  tl_after : list DefObject
}.

Inductive TimelineOp := TlEdit (d : DefObject) | TlUndo | TlRedo | TlStay.

Definition trim (limit : nat) (l : list DefObject) : list DefObject :=
  if Nat.leb limit (length l) then tail l else l.

Definition timeline_step (limit : nat) (op : TimelineOp) (z : Timeline) : Timeline :=
  match op with
  | TlStay => z
  | TlEdit d => mkTimeline (trim limit (tl_before z) ++ [tl_now z]) d []
  | TlUndo =>
      match rev (tl_before z) with
      | [] => z
      | d :: l => mkTimeline (rev l) d (tl_now z :: tl_after z)
      end
  | TlRedo =>
      match tl_after z with
      | [] => z
      | d :: l => mkTimeline (tl_before z ++ [tl_now z]) d l
      end
  end.

(** The whole line; with the length of the first part it determines the timeline. *)
Definition whole (z : Timeline) : list DefObject := tl_before z ++ tl_now z :: tl_after z.

Lemma timeline_ext z1 z2 : whole z1 = whole z2 → length (tl_before z1) = length (tl_before z2) → z1 = z2.
Proof.
  destruct z1 as [b1 n1 a1], z2 as [b2 n2 a2]. unfold whole. simpl. intros Hw Hl.
  apply app_inj_1 in Hw as [-> [= -> ->]]; done.
Qed.

Lemma undo_whole limit z :
  whole (timeline_step limit TlUndo z) = whole z ∧
  length (tl_before (timeline_step limit TlUndo z)) = length (tl_before z) - 1.
Proof.
  unfold whole. simpl. destruct (rev (tl_before z)) as [|d l] eqn:E; simpl.
  - apply (f_equal (@rev _)) in E. rewrite rev_involutive in E. rewrite E. done.
  - apply (f_equal (@rev _)) in E. rewrite rev_involutive in E. simpl in E. rewrite E, <- app_assoc, length_app. simpl. split; [done|lia].
Qed.

Lemma redo_whole limit z :
  whole (timeline_step limit TlRedo z) = whole z ∧
  length (tl_before (timeline_step limit TlRedo z)) = length (tl_before z) + (if tl_after z is [] then 0 else 1).
Proof.
  unfold whole. simpl. destruct (tl_after z) as [|d l] eqn:E; simpl; rewrite ?E; [split; [done|lia]|].
  rewrite <- app_assoc, length_app. done.
Qed.

Lemma undos_whole limit k z :
  whole (Nat.iter k (timeline_step limit TlUndo) z) = whole z ∧
  length (tl_before (Nat.iter k (timeline_step limit TlUndo) z)) = length (tl_before z) - k.
Proof.
  induction k as [|k [IH1 IH2]]; [split; [done|simpl; lia]|]. rewrite !Nat.iter_succ.
  destruct (undo_whole limit (Nat.iter k (timeline_step limit TlUndo) z)) as [H1 H2].
  split; [by rewrite H1|]. rewrite H2, IH2. lia.
Qed.

Lemma redos_whole limit k z :
  k ≤ length (tl_after z) →
  whole (Nat.iter k (timeline_step limit TlRedo) z) = whole z ∧
  length (tl_before (Nat.iter k (timeline_step limit TlRedo) z)) = length (tl_before z) + k.
Proof.
  induction k as [|k IH]; intros Hk; [split; [done|simpl; lia]|]. destruct (IH ltac:(lia)) as [IH1 IH2].
  rewrite !Nat.iter_succ. destruct (redo_whole limit (Nat.iter k (timeline_step limit TlRedo) z)) as [H1 H2].
  split; [by rewrite H1|]. rewrite H2, IH2.
  apply (f_equal length) in IH1. unfold whole in IH1. rewrite !length_app in IH1. simpl in IH1.
  destruct (tl_after (Nat.iter k _ z)); simpl in *; lia.
Qed.

(** As many redos as undos give the timeline back. *)
Lemma undos_redos limit k z :
  k ≤ length (tl_before z) →
  Nat.iter k (timeline_step limit TlRedo) (Nat.iter k (timeline_step limit TlUndo) z) = z.
Proof.
  intros Hk. destruct (undos_whole limit k z) as [U1 U2].
  assert (k ≤ length (tl_after (Nat.iter k (timeline_step limit TlUndo) z))) as Ha.
  { apply (f_equal length) in U1. unfold whole in U1. rewrite !length_app in U1. simpl in U1. lia. }
  destruct (redos_whole limit k _ Ha) as [R1 R2]. apply timeline_ext; [by rewrite R1|]. rewrite R2, U2. lia.
Qed.

(** [z0] is [k] edits before the cursor of [z]. *)
Definition behind (k : nat) (z0 z : Timeline) : Prop :=
  ∃ q r, tl_before z ++ [tl_now z] = q ++ tl_now z0 :: r ∧ length r = k.

Lemma behind_refl z : behind 0 z z.
Proof. exists (tl_before z), []. done. Qed.

Lemma behind_edit limit k z0 z d :
  behind k z0 z → k < limit → behind (S k) z0 (timeline_step limit (TlEdit d) z).
Proof.
  intros (q & r & Hq & Hr) Hk. simpl. unfold behind, trim. simpl. destruct (Nat.leb_spec limit (length (tl_before z))) as [Hl|Hl].
  - destruct q as [|x q].
    { apply (f_equal length) in Hq. rewrite length_app in Hq. simpl in Hq. lia. }
    destruct (tl_before z) as [|y l]; [simpl in Hl; lia|]. simpl in *. injection Hq as -> Hq.
    exists q, (r ++ [d]). rewrite Hq, <- app_assoc. simpl. rewrite length_app. simpl. split; [done|lia].
  - exists q, (r ++ [d]). rewrite Hq, <- app_assoc. simpl. rewrite length_app. simpl. split; [done|lia].
Qed.

Lemma behind_undos limit k z0 z :
  behind k z0 z → k ≤ length (tl_before z) ∧ tl_now (Nat.iter k (timeline_step limit TlUndo) z) = tl_now z0.
Proof.
  intros (q & r & Hq & Hr). assert (length (tl_before z) = length q + k) as Hl.
  { apply (f_equal length) in Hq. rewrite !length_app in Hq. simpl in Hq. lia. }
  split; [lia|]. destruct (undos_whole limit k z) as [U1 U2]. set (u := Nat.iter k (timeline_step limit TlUndo) z) in *.
  assert (tl_before u ++ tl_now u :: tl_after u = q ++ tl_now z0 :: r ++ tl_after z) as Hu.
  { fold (whole u). rewrite U1. unfold whole. rewrite app_comm_cons, app_assoc, <- Hq, <- app_assoc. done. }
  apply app_inj_1 in Hu as [_ [=]]; [done|]. lia.
Qed.

(** ** The editor refines the timeline *)

Lemma makes_no_object `{JsonText} m e st st' :
  perform_event m e st = Ok st' → makes_object e st = false → ws_definition st' = ws_definition st.
Proof.
  destruct e as [[]| | | |now err| | |]; simpl; intros Hp Hm; simplify_eq; try done.
  - apply negb_false_iff, String.eqb_eq in Hm as ->. unfold renameStep, renameStepId in Hp. rewrite String.eqb_refl in Hp. by simplify_eq.
  - unfold importFromJson. by destruct (importJson text).
  - unfold applyDefinitionFromJson. by destruct (importJson text).
  - destruct (loadDraft id storage st); by simplify_eq.
  - unfold upload_failed. by repeat case_match.
Qed.

Section refinement.
Context `{TextOps : JsonText} (peg_message : string → string).
Context `{TL : TemporalLaws DefObject}.

Definition timeline (ed : Editor) : Timeline :=
  mkTimeline (pastStates (ed_temporal ed)) (tracked ed) (rev (futureStates (ed_temporal ed))).

(** What an event does to the timeline. *)
Definition op_of (e : StoreEvent) (ed ed' : Editor) : TimelineOp :=
  match e with
  | SUndo => TlUndo
  | SRedo => TlRedo
  | _ => if makes_object e (ed_state ed) then TlEdit (tracked ed') else TlStay
  end.

Lemma undo_refines ed : timeline (undo ed) = timeline_step 100 TlUndo (timeline ed).
Proof.
  unfold undo, timeline at 2, timeline_step. cbn [tl_before tl_now tl_after].
  destruct (rev (pastStates (ed_temporal ed))) as [|d l] eqn:E;
    apply (f_equal (@rev _)) in E; rewrite rev_involutive in E; simpl in E.
  - rewrite undo_none by done. done.
  - destruct (undo_some (tracked ed) _ _ _ E) as (H1 & H2 & H3).
    destruct (temporal_undo (tracked ed) (ed_temporal ed)) as [t o]. simpl in *. subst o. destruct d as [r d].
    unfold timeline, tracked. simpl. by rewrite H2, H3, rev_app_distr.
Qed.

Lemma redo_refines ed : timeline (redo ed) = timeline_step 100 TlRedo (timeline ed).
Proof.
  unfold redo, timeline at 2, timeline_step. cbn [tl_before tl_now tl_after].
  destruct (rev (futureStates (ed_temporal ed))) as [|d l] eqn:E;
    apply (f_equal (@rev _)) in E; rewrite rev_involutive in E; simpl in E.
  - rewrite redo_none by done. unfold timeline, tracked. simpl. by rewrite E.
  - destruct (redo_some (tracked ed) _ _ _ E) as (H1 & H2 & H3).
    destruct (temporal_redo (tracked ed) (ed_temporal ed)) as [t o]. simpl in *. subst o. destruct d as [r d].
    unfold timeline, tracked. simpl. by rewrite H2, H3, rev_involutive.
Qed.

(** The object under [definition] is not one still to be made. *)
Definition ref_made (ed : Editor) : Prop := ed_ref ed < ed_next ed.

Lemma set_refines fresh st' ed :
  ref_made ed → (fresh = false → ws_definition st' = ws_definition (ed_state ed)) →
  timeline (set_store fresh st' ed) =
  timeline_step 100 (if fresh then TlEdit (tracked (set_store fresh st' ed)) else TlStay) (timeline ed).
Proof.
  unfold ref_made. intros Hr Hd. unfold set_store. destruct fresh; simpl.
  - assert (to_equality temporal_options (tracked ed) (ed_next ed, ws_definition st') = false) as Hne.
    { simpl. apply Nat.eqb_neq. lia. }
    unfold timeline, tracked. simpl. by rewrite set_past, set_future.
  - rewrite set_equal by apply Nat.eqb_refl. unfold timeline, tracked. simpl. by rewrite Hd.
Qed.

(** One event of the editor is one move on the timeline. *)
Lemma step_refines e ed ed' :
  ref_made ed → editor_step peg_message e ed = Ok ed' →
  timeline ed' = timeline_step 100 (op_of e ed ed') (timeline ed).
Proof.
  intros Hr Hs. assert ((e = SUndo ∧ ed' = undo ed) ∨ (e = SRedo ∧ ed' = redo ed) ∨
    ∃ st', perform_event peg_message e (ed_state ed) = Ok st' ∧
           ed' = set_store (makes_object e (ed_state ed)) st' ed ∧
           op_of e ed ed' = if makes_object e (ed_state ed) then TlEdit (tracked ed') else TlStay) as Hc.
  { unfold editor_step in Hs. destruct e; simplify_eq; auto; right; right;
      (destruct (perform_event _ _ _); simplify_eq; eauto). }
  destruct Hc as [[-> ->]|[[-> ->]|(st' & Hp & -> & ->)]].
  - apply undo_refines.
  - apply redo_refines.
  - apply set_refines; [done|]. by apply makes_no_object with peg_message.
Qed.
End refinement.

(** ** The invariant of the history *)

Section history_invariant.
Context `{TextOps : JsonText} (peg_message : string → string).
Context `{TL : TemporalLaws DefObject}.

(** The definitions on the timeline are different objects that were all made,
    and there are at most a hundred besides the current one. *)
Definition editor_ok (ed : Editor) : Prop :=
  NoDup (whole (timeline ed)).*1 ∧ Forall (λ o : DefObject, o.1 < ed_next ed) (whole (timeline ed)) ∧
  length (tl_before (timeline ed)) + length (tl_after (timeline ed)) ≤ 100.

(** The editors reached from any state it may start in, by any events. *)
Inductive editor_reachable : Editor → Prop :=
| editor_start st : editor_reachable (new_editor st)
| editor_event e ed ed' : editor_reachable ed → editor_step peg_message e ed = Ok ed' → editor_reachable ed'.

Lemma trim_sub limit l : trim limit l `suffix_of` l.
Proof. unfold trim. destruct (Nat.leb _ _); [|done]. destruct l as [|x l]; [done|]. by exists [x]. Qed.

Lemma trim_length limit l : 0 < limit → length l ≤ limit → length (trim limit l) < limit.
Proof. unfold trim. intros H1 H2. destruct (Nat.leb_spec limit (length l)); [|lia]. destruct l; simpl in *; lia. Qed.

(** An edit cuts the line behind the cursor, and perhaps at its start. *)
Lemma edit_whole z d :
  ∃ dropped, dropped ++ whole (timeline_step 100 (TlEdit d) z) = tl_before z ++ [tl_now z; d].
Proof.
  destruct (trim_sub 100 (tl_before z)) as [dropped Hd]. exists dropped. unfold whole. simpl.
  rewrite <- app_assoc. simpl. by rewrite app_assoc, <- Hd.
Qed.

Lemma whole_after z : whole z = (tl_before z ++ [tl_now z]) ++ tl_after z.
Proof. unfold whole. by rewrite <- app_assoc. Qed.

(** What holds of all definitions on the line and of the new one holds of all
    on the line after an edit. *)
Lemma edit_line_Forall (P : DefObject → Prop) z d :
  Forall P (whole z) → P d → Forall P (whole (timeline_step 100 (TlEdit d) z)).
Proof.
  intros Hf Hd. destruct (edit_whole z d) as [dropped He]. rewrite whole_after in Hf. apply Forall_app in Hf as [Hf _].
  eapply (Forall_app P dropped). rewrite He. change [tl_now z; d] with ([tl_now z] ++ [d]). rewrite app_assoc.
  apply Forall_app. split; [done|by constructor].
Qed.

Lemma edit_line_NoDup n z d :
  NoDup (whole z).*1 → Forall (λ o : DefObject, o.1 < n) (whole z) → d.1 = n →
  NoDup (whole (timeline_step 100 (TlEdit d) z)).*1.
Proof.
  intros Hn Hf Hd. destruct (edit_whole z d) as [dropped He]. set (z' := timeline_step 100 (TlEdit d) z) in *. clearbody z'.
  rewrite whole_after in Hn, Hf. apply Forall_app in Hf as [Hf _]. rewrite fmap_app in Hn. apply NoDup_app in Hn as (Hn & _ & _).
  assert (NoDup (dropped ++ whole z').*1) as Hn'; [|rewrite fmap_app in Hn'; by apply NoDup_app in Hn' as (_ & _ & ?)].
  rewrite He. change [tl_now z; d] with ([tl_now z] ++ [d]). rewrite app_assoc, fmap_app. apply NoDup_app.
  split_and!; [done| |apply NoDup_singleton]. intros r (o & -> & Ho)%list_elem_of_fmap. simpl.
  rewrite Forall_forall in Hf. specialize (Hf o Ho). rewrite list_elem_of_singleton. lia.
Qed.

Lemma editor_ok_made ed : editor_ok ed → ref_made ed.
Proof.
  intros (_ & Hf & _). rewrite whole_after in Hf. apply Forall_app in Hf as [Hf _]. apply Forall_app in Hf as [_ Hf].
  by apply Forall_cons in Hf as [? _].
Qed.

Lemma set_store_ok fresh st' ed :
  (fresh = false → ws_definition st' = ws_definition (ed_state ed)) → editor_ok ed → editor_ok (set_store fresh st' ed).
Proof.
  intros Hd Hok. pose proof (editor_ok_made ed Hok) as Hm. destruct Hok as (Hn & Hf & Hl).
  unfold editor_ok. rewrite (set_refines fresh st' ed Hm Hd). destruct fresh; [|done]. split_and!.
  - by apply (edit_line_NoDup (ed_next ed)).
  - apply edit_line_Forall; [|simpl; lia]. eapply Forall_impl; [exact Hf|]. simpl. lia.
  - cbn [timeline_step tl_before tl_after]. rewrite length_app. simpl in *.
    pose proof (trim_length 100 (pastStates (ed_temporal ed)) ltac:(lia) ltac:(lia)). lia.
Qed.

(** Undo and redo keep the line and only move the cursor. *)
Lemma moved_ok ed ed' :
  whole (timeline ed') = whole (timeline ed) → ed_next ed' = ed_next ed → editor_ok ed → editor_ok ed'.
Proof.
  unfold editor_ok. intros Hw Hx (Hn & Hf & Hl). rewrite Hw, Hx. split_and!; [done|done|].
  apply (f_equal length) in Hw. unfold whole in Hw. rewrite !length_app in Hw. cbn [length] in Hw. lia.
Qed.

Lemma undo_next ed : ed_next (undo ed) = ed_next ed.
Proof. unfold undo, apply_tracked. by repeat case_match. Qed.
Lemma redo_next ed : ed_next (redo ed) = ed_next ed.
Proof. unfold redo, apply_tracked. by repeat case_match. Qed.

(** A step moves the cursor or sets the state of its event. *)
Lemma step_cases e ed ed' :
  editor_step peg_message e ed = Ok ed' →
  (ed' = undo ed) ∨ (ed' = redo ed) ∨
  ∃ st', perform_event peg_message e (ed_state ed) = Ok st' ∧ ed' = set_store (makes_object e (ed_state ed)) st' ed.
Proof.
  unfold editor_step. intros Hs. destruct e; simplify_eq; auto; right; right; (destruct (perform_event _ _ _); simplify_eq; eauto).
Qed.

Lemma editor_step_ok e ed ed' : editor_step peg_message e ed = Ok ed' → editor_ok ed → editor_ok ed'.
Proof.
  intros Hs Hok. destruct (step_cases e ed ed' Hs) as [->|[->|(st' & Hp & ->)]].
  - apply (moved_ok ed); [|apply undo_next|done]. rewrite undo_refines. apply undo_whole.
  - apply (moved_ok ed); [|apply redo_next|done]. rewrite redo_refines. apply redo_whole.
  - apply set_store_ok; [by apply makes_no_object with peg_message|done].
Qed.

Lemma new_editor_whole st : whole (timeline (new_editor st)) = [(0, ws_definition st)].
Proof. unfold timeline, whole. simpl. by rewrite init_past, init_future. Qed.

Lemma new_editor_ok st : editor_ok (new_editor st).
Proof.
  unfold editor_ok. rewrite new_editor_whole. split_and!; [apply NoDup_singleton|by repeat constructor|].
  unfold timeline. simpl. rewrite init_past, init_future. simpl. lia.
Qed.

Lemma editor_reachable_ok ed : editor_reachable ed → editor_ok ed.
Proof. induction 1; [apply new_editor_ok|by eapply editor_step_ok]. Qed.

(** A property of definitions that a step's new one has stays one of the whole line. *)
Lemma step_line_Forall (P : WorkflowDefinition → Prop) e ed ed' :
  editor_ok ed → editor_step peg_message e ed = Ok ed' →
  (∀ st', perform_event peg_message e (ed_state ed) = Ok st' → P (ws_definition st')) →
  Forall (λ o : DefObject, P o.2) (whole (timeline ed)) → Forall (λ o : DefObject, P o.2) (whole (timeline ed')).
Proof.
  intros Hok%editor_ok_made Hs HP Hf. destruct (step_cases e ed ed' Hs) as [->|[->|(st' & Hp & ->)]].
  - rewrite undo_refines. by rewrite (proj1 (undo_whole 100 (timeline ed))).
  - rewrite redo_refines. by rewrite (proj1 (redo_whole 100 (timeline ed))).
  - rewrite set_refines by (try done; by apply makes_no_object with peg_message). destruct (makes_object e (ed_state ed)); [|done].
    apply edit_line_Forall; [done|]. simpl. by apply HP.
Qed.

(** C5: whatever is done in the editor (every action, loads of drafts and of
    definitions of the engine whatever they hold, uploads, undo and redo, from
    any state it starts in), the definitions it can return to and the current
    one are different objects and at most a hundred are kept besides it; each
    event moves along the timeline exactly as editing, undoing and redoing
    should: a new definition object cuts off what was undone and is added, and
    an event that makes none leaves the timeline alone. *)
Theorem history_refines_timeline ed :
  editor_reachable ed →
  NoDup (whole (timeline ed)).*1 ∧
  length (tl_before (timeline ed)) + length (tl_after (timeline ed)) ≤ 100 ∧
  tl_now (timeline ed) = (ed_ref ed, ws_definition (ed_state ed)) ∧
  (∀ e ed', editor_step peg_message e ed = Ok ed' →
     timeline ed' = timeline_step 100 (op_of e ed ed') (timeline ed)).
Proof.
  intros Hr. pose proof (editor_reachable_ok ed Hr) as Hok. pose proof (editor_ok_made ed Hok) as Hm.
  destruct Hok as (Hn & _ & Hl). split_and!; [done|done|done|].
  intros e ed' He. by apply step_refines with peg_message.
Qed.

(** *** Undoing a run of edits *)

Definition is_edit (e : StoreEvent) : bool := match e with SUndo | SRedo => false | _ => true end.

Lemma step_edit e ed ed' :
  is_edit e = true → editor_step peg_message e ed = Ok ed' →
  ∃ st', perform_event peg_message e (ed_state ed) = Ok st' ∧ ed' = set_store (makes_object e (ed_state ed)) st' ed.
Proof. intros He Hs. unfold editor_step in Hs. destruct e; try done; (destruct (perform_event _ _ _); simplify_eq; eauto). Qed.

Lemma run_next es ed ed' :
  forallb is_edit es = true → run_editor peg_message es ed = Ok ed' → ed_next ed ≤ ed_next ed'.
Proof.
  revert ed. induction es as [|e es IH]; intros ed Hes Hr; simpl in *; [by simplify_eq|].
  apply andb_true_iff in Hes as [He Hes].
  destruct (editor_step peg_message e ed) as [ed1| |] eqn:E; [|by apply IH|done].
  specialize (IH _ Hes Hr). destruct (step_edit e ed ed1 He E) as (st1 & _ & ->). simpl in IH. case_match; lia.
Qed.

Lemma run_behind es z0 ed ed' k :
  forallb is_edit es = true → run_editor peg_message es ed = Ok ed' → ref_made ed →
  behind k z0 (timeline ed) → k + (ed_next ed' - ed_next ed) ≤ 100 →
  behind (k + (ed_next ed' - ed_next ed)) z0 (timeline ed') ∧ ref_made ed' ∧ ed_next ed ≤ ed_next ed'.
Proof.
  revert ed k. induction es as [|e es IH]; intros ed k Hes Hr Hm Hb Hk; simpl in Hr.
  { simplify_eq. rewrite Nat.sub_diag, Nat.add_0_r. done. }
  simpl in Hes. apply andb_true_iff in Hes as [He Hes].
  destruct (editor_step peg_message e ed) as [ed1| |] eqn:E; [|by apply IH|done].
  destruct (step_edit e ed ed1 He E) as (st' & Hp & ->). set (fresh := makes_object e (ed_state ed)) in *.
  assert (ws_definition st' = ws_definition (ed_state ed) ∨ fresh = true) as Hd.
  { destruct fresh eqn:Ef; [by right|left]. by apply makes_no_object with peg_message e. }
  pose proof (set_refines fresh st' ed Hm ltac:(by intros ->; destruct Hd)) as Ht.
  assert (ref_made (set_store fresh st' ed)) as Hm1.
  { unfold ref_made, set_store in *. simpl. destruct fresh; lia. }
  destruct fresh.
  - pose proof (run_next es _ _ Hes Hr) as Hle.
    simpl in Hle. destruct (IH (set_store true st' ed) (S k) Hes Hr Hm1) as (H1 & H2 & H3).
    + rewrite Ht. apply behind_edit; [done|lia].
    + simpl. lia.
    + split_and!; [|done|simpl in H3; lia]. simpl in H1. replace (k + (ed_next ed' - ed_next ed)) with (S k + (ed_next ed' - S (ed_next ed))) by lia. done.
  - apply (IH (set_store false st' ed) k Hes Hr Hm1); [by rewrite Ht|done].
Qed.

Lemma undos_refine k ed : timeline (Nat.iter k undo ed) = Nat.iter k (timeline_step 100 TlUndo) (timeline ed).
Proof. induction k as [|k IH]; [done|]. rewrite !Nat.iter_succ, undo_refines. by rewrite IH. Qed.
Lemma redos_refine k ed : timeline (Nat.iter k redo ed) = Nat.iter k (timeline_step 100 TlRedo) (timeline ed).
Proof. induction k as [|k IH]; [done|]. rewrite !Nat.iter_succ, redo_refines. by rewrite IH. Qed.

(** Undo and redo touch nothing but the definition. *)
Definition same_rest (st st' : WorkflowState) : Prop := with_definition (ws_definition st) st' = st.

Lemma undo_rest ed : same_rest (ed_state (undo ed)) (ed_state ed).
Proof. unfold same_rest, undo, apply_tracked. destruct (temporal_undo _ _) as [t [[r d]|]]; simpl; by destruct (ed_state ed). Qed.
Lemma redo_rest ed : same_rest (ed_state (redo ed)) (ed_state ed).
Proof. unfold same_rest, redo, apply_tracked. destruct (temporal_redo _ _) as [t [[r d]|]]; simpl; by destruct (ed_state ed). Qed.

Lemma same_rest_trans st1 st2 st3 : same_rest st1 st2 → same_rest st2 st3 → same_rest st1 st3.
Proof. unfold same_rest. intros <- <-. done. Qed.

Lemma iter_rest (f : Editor → Editor) k ed :
  (∀ ed, same_rest (ed_state (f ed)) (ed_state ed)) → same_rest (ed_state (Nat.iter k f ed)) (ed_state ed).
Proof.
  intros Hf. induction k as [|k IH]; [unfold same_rest; simpl; by destruct (ed_state ed)|]. rewrite Nat.iter_succ.
  eapply same_rest_trans; [apply Hf|apply IH].
Qed.

(** C6: a run of at most a hundred edits can be undone one by one to the very
    definition it started from, and redone to exactly the state it ended in;
    an action that sets no new definition needs no undo. *)
Theorem undo_redo_roundtrip es ed ed' :
  editor_reachable ed → forallb is_edit es = true → run_editor peg_message es ed = Ok ed' →
  let k := ed_next ed' - ed_next ed in
  k ≤ 100 →
  tracked (Nat.iter k undo ed') = tracked ed ∧
  same_rest (ed_state (Nat.iter k undo ed')) (ed_state ed') ∧
  ed_state (Nat.iter k redo (Nat.iter k undo ed')) = ed_state ed' ∧
  timeline (Nat.iter k redo (Nat.iter k undo ed')) = timeline ed'.
Proof.
  intros Hre Hes Hrun k Hk. pose proof (editor_ok_made ed (editor_reachable_ok ed Hre)) as Hm.
  destruct (run_behind es (timeline ed) ed ed' 0 Hes Hrun Hm (behind_refl _) Hk) as (Hb & _ & _).
  simpl in Hb. fold k in Hb. destruct (behind_undos 100 k _ _ Hb) as [Hkl Hn].
  assert (timeline (Nat.iter k redo (Nat.iter k undo ed')) = timeline ed') as Ht
    by (rewrite redos_refine, undos_refine; by apply undos_redos).
  split_and!.
  - rewrite <- undos_refine in Hn. exact Hn.
  - apply iter_rest, undo_rest.
  - assert (same_rest (ed_state (Nat.iter k redo (Nat.iter k undo ed'))) (ed_state ed')) as Hs
      by (eapply same_rest_trans; [apply iter_rest, redo_rest|apply iter_rest, undo_rest]).
    apply (f_equal tl_now) in Ht. injection Ht as _ Hd. unfold same_rest in Hs. rewrite <- Hs, Hd. by destruct (ed_state ed').
  - done.
Qed.
End history_invariant.

(** ** The editor with the drafts of the browser

    The list of drafts is a text of the local storage that the actions read and
    write; a definition of the engine is the JSON value it answers. *)

Section workspace.
Context `{TextLaws : JsonTextLaws} (peg_message : string → string).
Context `{TL : TemporalLaws DefObject} (accepts : string → bool).

Record Workspace := mkWorkspace { wk_editor : Editor; wk_drafts : Storage }.

Inductive WorkspaceEvent :=
| WAct (a : Action)
| WUndo
| WRedo
| WSaveDraft (freshId : string) (now : Z) (name : string)
| WDeleteDraft (id : string)
| WLoadDraft (id : string)
| WLoaded (id : string) (version : option nat) (answer : json)
| WUploaded (now : Z) (summary : UploadSummary)
| WUploadFailed (now : Z) (e : EngineError)
| WTested (now : Z) (status : EngineStatus).

(** What an event is for the store; the draft actions that only write the
    storage are none, an answer that is no definition at all is [IllTyped]. *)
Definition store_event (e : WorkspaceEvent) (w : Workspace) : Result (option StoreEvent) :=
  match e with
  | WAct a => Ok (Some (SAct a))
  | WUndo => Ok (Some SUndo)
  | WRedo => Ok (Some SRedo)
  | WSaveDraft _ _ _ | WDeleteDraft _ => Ok None
  | WLoadDraft id => Ok (Some (SLoadDraft id (wk_drafts w)))
  | WLoaded id version answer =>
      match zWorkflowDefinition false answer with
      | Some def => Ok (Some (SLoaded id version def))
      | None => IllTyped
      end
  | WUploaded now summary => Ok (Some (SUploaded now summary))
  | WUploadFailed now err => Ok (Some (SUploadFailed now err))
  | WTested now status => Ok (Some (STested now status))
  end.

Definition drafts_after (e : WorkspaceEvent) (w : Workspace) : Storage :=
  match e with
  | WSaveDraft freshId now name => (saveDraftAction accepts freshId now name (ed_state (wk_editor w)) (wk_drafts w)).1
  | WDeleteDraft id => deleteDraft accepts id (wk_drafts w)
  | _ => wk_drafts w
  end.

Definition workspace_step (e : WorkspaceEvent) (w : Workspace) : Result Workspace :=
  match store_event e w with
  | Ok None => Ok (mkWorkspace (wk_editor w) (drafts_after e w))
  | Ok (Some se) =>
      match editor_step peg_message se (wk_editor w) with
      | Ok ed' => Ok (mkWorkspace ed' (drafts_after e w))
      | Throws m => Throws m
      | IllTyped => IllTyped
      end
  | Throws m => Throws m
  | IllTyped => IllTyped
  end.

(** The state whose parts [saveDraft] writes. *)
Definition draft_input (name : string) (st : WorkflowState) : DraftInput :=
  mkDraftInput name (ws_definition st) (ws_layout st) (ws_edgeHandles st).

(** The editor passes values of JSON to its actions and writes no type and no
    list of steps; what it saves is an object of JS; and the engine answers
    documents that its own parser and validator accept. *)
Definition workspace_admissible (e : WorkspaceEvent) (w : Workspace) : bool :=
  match e with
  | WAct a => admissible a
  | WSaveDraft _ _ name => input_wf (draft_input name (ed_state (wk_editor w)))
  | WLoaded _ _ answer => json_wf answer && match go_accepts answer with GoOk accepted => accepted | _ => false end
  | _ => true
  end.

(** From the first start of the editor, with no drafts; an event that throws
    changes nothing. *)
Inductive workspace_reachable : Workspace → Prop :=
| workspace_start : workspace_reachable (mkWorkspace (new_editor initialState) None)
| workspace_event e w w' :
    workspace_reachable w → workspace_admissible e w = true → workspace_step e w = Ok w' → workspace_reachable w'.

(** *** The invariant *)

Definition draft_ok (d : Draft) : Prop :=
  ∀ j def, obj_get d "definition" = Some j → zWorkflowDefinition false j = Some def → steps_ok (wd_steps def).

Definition workspace_ok (w : Workspace) : Prop :=
  editor_ok (wk_editor w) ∧ Forall (λ o : DefObject, steps_ok (wd_steps o.2)) (whole (timeline (wk_editor w))) ∧
  Forall draft_ok (readRaw (wk_drafts w)).

Lemma workspace_ok_store w : workspace_ok w → store_ok (ed_state (wk_editor w)).
Proof.
  intros (_ & Hf & _). rewrite whole_after in Hf. apply Forall_app in Hf as [Hf _]. apply Forall_app in Hf as [_ Hf].
  by apply Forall_cons in Hf as [? _].
Qed.

Lemma loaded_draft_ok id s st st' : Forall draft_ok (readRaw s) → loadDraft id s st = Some (Ok st') → store_ok st'.
Proof.
  intros Hd. unfold loadDraft, getDraft. destruct (List.find (has_id id) (readRaw s)) as [d|] eqn:E; [|done].
  apply find_some in E as [Hin _]. apply list_elem_of_In in Hin. rewrite Forall_forall in Hd. specialize (Hd d Hin).
  intros Hl. injection Hl as Hl. destruct (obj_get d "definition") as [j|] eqn:Ej; [|done].
  repeat case_match; try done. injection Hl as <-. unfold store_ok. simpl. by eapply Hd.
Qed.

(** What the engine accepted has steps of known types. *)
Lemma accepted_ok answer def :
  json_wf answer = true → go_accepts answer = GoOk true → zWorkflowDefinition false answer = Some def →
  steps_ok (wd_steps def).
Proof.
  intros Hw Ha Hz. destruct answer as [| | | | |o]; try done. pose proof Hz as Hz'. simpl in Hz'. inv_binds.
  match goal with H : req (z_array (zStep false)) o "steps" = Some _ |- _ => unfold req in H end.
  destruct (obj_get o "steps") as [[| | | |l|]|] eqn:El; try done.
  eapply (decoded_ok o l); [done|done|done|]. intros so t Hin Ht. by eapply accepted_types.
Qed.

Lemma saved_drafts_ok freshId now name st s :
  input_wf (draft_input name st) = true → store_ok st → Forall draft_ok (readRaw s) →
  Forall draft_ok (readRaw (saveDraftAction accepts freshId now name st s).1).
Proof.
  intros Hin Hok Hs. unfold saveDraftAction. fold (draft_input name st).
  pose proof (saveDraft_cases accepts freshId now (draft_input name st) s Hin) as Hc.
  destruct (saveDraft accepts freshId now (draft_input name st) s) as [s' [d| | |]]; simpl; [|by destruct Hc as [-> _]|by destruct Hc as [-> _]|by subst s'].
  destruct Hc as (-> & -> & _). apply Forall_app. split; [done|]. constructor; [|constructor].
  intros j def Hj Hz. destruct (draft_obj_get freshId (js_trim (di_name (draft_input name st))) now (draft_input name st)) as (_ & Hg & _).
  rewrite Hg in Hj. injection Hj as <-. unfold input_wf in Hin. bool_hyps. by eapply rewritten_ok.
Qed.

Lemma deleted_drafts_ok id s : Forall draft_ok (readRaw s) → Forall draft_ok (readRaw (deleteDraft accepts id s)).
Proof.
  intros Hs. unfold deleteDraft. set (kept := List.filter _ _).
  assert (Forall stored_draft kept ∧ Forall draft_ok kept) as [Hst Hok].
  { split; apply Forall_forall; intros d [Hd _]%filter_elem; [|by apply (proj1 (Forall_forall _ _) Hs)].
    by apply (proj1 (Forall_forall _ _) (readRaw_stored s)). }
  pose proof (writeRaw_read accepts kept s Hst) as Hw. destruct (writeRaw accepts kept s) as [s' []]; simpl; by rewrite Hw.
Qed.

Lemma performed_ok e w se st' :
  workspace_ok w → workspace_admissible e w = true → store_event e w = Ok (Some se) →
  perform_event peg_message se (ed_state (wk_editor w)) = Ok st' → steps_ok (wd_steps (ws_definition st')).
Proof.
  intros Hok Ha Hse Hp. pose proof (workspace_ok_store w Hok) as Hst. destruct Hok as (_ & _ & Hd).
  destruct e; simpl in Hse; simplify_eq; simpl in Ha, Hp; simplify_eq; try done.
  - by eapply (perform_ok peg_message a).
  - destruct (loadDraft id (wk_drafts w) (ed_state (wk_editor w))) as [r|] eqn:E; simplify_eq; [|done].
    by apply (loaded_draft_ok id (wk_drafts w) (ed_state (wk_editor w))).
  - destruct (zWorkflowDefinition false answer) as [def|] eqn:E; simplify_eq. simpl in Hp. simplify_eq.
    apply andb_true_iff in Ha as [Hj Ha]. destruct (go_accepts answer) as [[]| |] eqn:Eg; try done.
    unfold load_done. destruct (extractEmbeddedModeller def). simpl. by eapply accepted_ok.
  - unfold upload_failed. by repeat case_match.
Qed.

Lemma workspace_step_ok e w w' :
  workspace_admissible e w = true → workspace_step e w = Ok w' → workspace_ok w → workspace_ok w'.
Proof.
  intros Ha Hs Hok. pose proof (workspace_ok_store w Hok) as Hst.
  assert (Forall draft_ok (readRaw (drafts_after e w))) as Hd.
  { destruct Hok as (_ & _ & Hd). destruct e; try done; [by apply saved_drafts_ok|by apply deleted_drafts_ok]. }
  unfold workspace_step in Hs. destruct (store_event e w) as [[se|]| |] eqn:Ese; try done.
  - destruct (editor_step peg_message se (wk_editor w)) as [ed'| |] eqn:Ee; try done. injection Hs as <-.
    pose proof Hok as (He & Hf & _). split_and!; [by eapply editor_step_ok| |done]. simpl.
    eapply (step_line_Forall peg_message (λ d, steps_ok (wd_steps d))); [done|done| |done].
    intros st' Hp. by eapply performed_ok.
  - injection Hs as <-. destruct Hok as (He & Hf & _). by split_and!.
Qed.

Lemma workspace_reachable_ok w : workspace_reachable w → workspace_ok w.
Proof.
  induction 1 as [|e w w' _ IH Ha Hs]; [|by eapply workspace_step_ok].
  split_and!; [apply new_editor_ok| |constructor]. simpl. rewrite new_editor_whole. by repeat constructor.
Qed.

End workspace.

Arguments Workspace {_}.

(** ** What undo does not restore *)

Section untracked.
Context `{TextOps : JsonText} (peg_message : string → string).
Context `{TL : TemporalLaws DefObject}.

(** Undoing one edit puts the old definition under everything else the edit set. *)
Lemma undo_edit e ed ed' :
  ref_made ed → is_edit e = true → editor_step peg_message e ed = Ok ed' → makes_object e (ed_state ed) = true →
  ed_state (undo ed') = with_definition (ws_definition (ed_state ed)) (ed_state ed').
Proof.
  intros Hm He Hs Ho. pose proof (step_refines peg_message e ed ed' Hm Hs) as Ht.
  assert (op_of e ed ed' = TlEdit (tracked ed')) as Hop by (destruct e; try done; unfold op_of; by rewrite Ho).
  rewrite Hop in Ht. pose proof (undo_refines ed') as Hu. rewrite Ht in Hu. simpl in Hu. rewrite rev_app_distr in Hu. simpl in Hu.
  apply (f_equal tl_now) in Hu. injection Hu as _ Hd. pose proof (undo_rest ed') as Hr. unfold same_rest in Hr.
  rewrite <- Hr. by rewrite Hd.
Qed.

(** An edit that leaves the workflow clean (an upload, New, an import, a load
    from the engine or a draft) can be undone: the definition before it comes
    back with the layout, the source and the clean flag of the other workflow,
    even when it was unsaved, and restoring a draft then replaces it without
    asking. *)
Theorem undone_replacement_is_clean e ed ed' id name panel s :
  ref_made ed → is_edit e = true → editor_step peg_message e ed = Ok ed' → makes_object e (ed_state ed) = true →
  ws_dirty (ed_state ed') = false →
  let st := ed_state (undo ed') in
  ws_definition st = ws_definition (ed_state ed) ∧ ws_layout st = ws_layout (ed_state ed') ∧
  ws_source st = ws_source (ed_state ed') ∧ ws_dirty st = false ∧
  handleRestore id name false (mkDesk panel st s) = handleRestore id name true (mkDesk panel st s).
Proof.
  intros Hm He Hs Ho Hd st. unfold st. rewrite (undo_edit e ed ed' Hm He Hs Ho).
  split_and!; try done. unfold handleRestore. simpl. by rewrite Hd.
Qed.
End untracked.

(** ** The shortcut *)

(** Only Ctrl or Cmd with Z, without Alt, outside fields and dialogs, moves in
    the history: back without Shift, forward with it; and it undoes exactly
    what the timeline says. *)
Theorem shortcut_moves `{JsonText} `{TL : TemporalLaws DefObject} m ev ed :
  (∀ e, handleHistory ev = Some e →
     (k_ctrl ev = true ∨ k_meta ev = true) ∧ k_alt ev = false ∧ k_in_field ev = false ∧ k_dialog_open ev = false ∧
     (k_key ev = "z" ∨ k_key ev = "Z") ∧
     ∃ ed', editor_step m e ed = Ok ed' ∧
            timeline ed' = timeline_step 100 (if k_shift ev then TlRedo else TlUndo) (timeline ed)) ∧
  (handleHistory ev = None →
     (k_ctrl ev || k_meta ev)%bool = false ∨ k_alt ev = true ∨ k_in_field ev = true ∨ k_dialog_open ev = true ∨
     (k_key ev ≠ "z" ∧ k_key ev ≠ "Z")).
Proof.
  assert (∀ s, str_map ascii_lower s = "z" → s = "z" ∨ s = "Z") as Hz.
  { intros [|c [|c' s]]; try done. intros [= Hc].
    pose proof (ascii_forallb (λ c, implb (Ascii.eqb (ascii_lower c) "z") (Ascii.eqb c "z" || Ascii.eqb c "Z"))
      ltac:(vm_compute; reflexivity) c) as Hb. simpl in Hb. rewrite Hc in Hb. simpl in Hb.
    apply orb_true_iff in Hb as [->%Ascii.eqb_eq| ->%Ascii.eqb_eq]; auto. }
  unfold handleHistory. split.
  - intros e He. destruct (k_meta ev), (k_ctrl ev), (k_alt ev); simpl in He; try done;
    (destruct (String.eqb_spec (str_map ascii_lower (k_key ev)) "z") as [Hk|]; simpl in He; [|done];
     destruct (k_in_field ev); [done|]; destruct (k_dialog_open ev); [done|]; injection He as <-;
     split_and!; auto; destruct (k_shift ev); eexists; split; try reflexivity; [apply redo_refines|apply undo_refines]).
  - destruct (k_meta ev), (k_ctrl ev), (k_alt ev); simpl; auto;
    (destruct (String.eqb_spec (str_map ascii_lower (k_key ev)) "z") as [Hk|Hk]; simpl;
      [destruct (k_in_field ev), (k_dialog_open ev); auto; done|];
      intros _; right; right; right; right; split; intros Heq; apply Hk; by rewrite Heq).
Qed.

(** Loading from the engine sets what [SLoaded] sets once it is answered. *)
Lemma loadFromEngine_loads `{JsonText} fetch id version between st st' :
  loadFromEngine fetch id version between st = Ok st' → ∃ def, st' = load_done id version def (between st).
Proof.
  unfold loadFromEngine. destruct (match version with Some _ => _ | None => _ end) as [[j|]|]; try done.
  destruct (zWorkflowDefinition false j) as [def|]; [|done]. unfold load_done. intros Hl. exists def.
  destruct (extractEmbeddedModeller def). by injection Hl as <-.
Qed.

(** ** An implementation of the undo library *)

#[export] Instance list_temporal {D} : TemporalLibrary D := {
  Temporal := list D * list D;
  pastStates := fst;
  futureStates := snd;
  temporal_init := ([], []);
  temporal_set o p c t :=
    if to_equality o p c then t
    else ((if Nat.leb (to_limit o) (length t.1) then tail t.1 else t.1) ++ [p], []);
  temporal_undo c t :=
    match rev t.1 with [] => (t, None) | d :: l => ((rev l, t.2 ++ [c]), Some d) end;
  temporal_redo c t :=
    match rev t.2 with [] => (t, None) | d :: l => ((t.1 ++ [c], rev l), Some d) end
}.

#[export] Instance list_temporal_laws {D} : TemporalLaws D list_temporal.
Proof.
  split; simpl; try done.
  - by intros o p c t ->.
  - by intros o p c t ->.
  - by intros o p c t ->.
  - intros c [p f] Hp. simpl in *. by subst p.
  - intros c [p f] l d Hp. simpl in *. subst p. rewrite rev_app_distr. simpl. by rewrite rev_involutive.
  - intros c [p f] Hp. simpl in *. by subst f.
  - intros c [p f] l d Hp. simpl in *. subst f. rewrite rev_app_distr. simpl. by rewrite rev_involutive.
Qed.

(** ** Witnesses *)

(** Adding a step, moving it, renaming it and uploading the workflow: three definitions. *)
Definition sample_edits : list StoreEvent :=
  [SAct (AAdd (mkTemplate WAIT None None)); SAct (ALayout "wait" (mkPos (num_of_Z 1) (num_of_Z 2)));
   SAct (ARename "wait" "pause"); SAct (ARename "pause" "pause"); SUploaded 5 (mkUploadSummary "w" (num_of_Z 4))].

Lemma initial_editor_reachable : editor_reachable (λ s, s) (new_editor initialState).
Proof. constructor. Qed.

Lemma run_reachable `{JsonText} `{TemporalLibrary DefObject} m es ed ed' :
  editor_reachable m ed → run_editor m es ed = Ok ed' → editor_reachable m ed'.
Proof.
  revert ed. induction es as [|e es IH]; intros ed Hr Hrun; simpl in Hrun; [by simplify_eq|].
  destruct (editor_step m e ed) as [ed1| |] eqn:E; [|by apply (IH ed)|done]. apply (IH ed1); [|done]. by apply (editor_event m e ed).
Qed.

(** A definition of the engine. *)
Definition engine_answer : json := def_json tiny_def.

(** A draft of an edited workflow is saved, a definition of the engine is loaded
    and undone, and the draft is restored: three definitions, and one draft. *)
Definition sample_day : list WorkspaceEvent :=
  [WAct (AAdd (mkTemplate WAIT None None)); WSaveDraft "d-1" 7 "mine"; WLoaded "orders" None engine_answer; WUndo;
   WAct (ARename "wait" "pause"); WLoadDraft "d-1"].

Fixpoint run_day (es : list WorkspaceEvent) (w : Workspace) : option Workspace :=
  match es with
  | [] => Some w
  | e :: es =>
      if workspace_admissible e w
      then match workspace_step (λ s, s) (λ _, true) e w with Ok w' => run_day es w' | _ => None end
      else None
  end.

Lemma run_day_reachable es w w' :
  workspace_reachable (λ s, s) (λ _, true) w → run_day es w = Some w' → workspace_reachable (λ s, s) (λ _, true) w'.
Proof.
  revert w. induction es as [|e es IH]; intros w Hr Hd; simpl in Hd; [by simplify_eq|].
  destruct (workspace_admissible e w) eqn:Ea; [|done].
  destruct (workspace_step (λ s, s) (λ _, true) e w) as [w1| |] eqn:E; try done. apply (IH w1); [|done].
  by apply (workspace_event _ _ e w).
Qed.


(** After the edits and one undo: two definitions before, one after, and a new
    step cuts that one off. *)
Lemma history_refines_timeline_witness :
  ∃ ed ed', run_editor (λ s, s) (sample_edits ++ [SUndo]) (new_editor initialState) = Ok ed ∧
    length (tl_before (timeline ed)) = 2 ∧ length (tl_after (timeline ed)) = 1 ∧
    editor_step (λ s, s) (SAct (AAdd (mkTemplate END_ None None))) ed = Ok ed' ∧
    timeline ed' = timeline_step 100 (TlEdit (tracked ed')) (timeline ed).
Proof.
  destruct (run_editor (λ s, s) (sample_edits ++ [SUndo]) (new_editor initialState)) as [ed| |] eqn:E; [|vm_compute in E; discriminate E..].
  destruct (editor_step (λ s, s) (SAct (AAdd (mkTemplate END_ None None))) ed) as [ed'| |] eqn:E';
    [|exfalso; vm_compute in E; injection E as <-; vm_compute in E'; discriminate E'..].
  pose proof (run_reachable _ _ _ _ initial_editor_reachable E) as Hr. exists ed, ed'. split; [reflexivity|].
  assert (length (tl_before (timeline ed)) = 2 ∧ length (tl_after (timeline ed)) = 1) as [H1 H2]
    by (vm_compute in E; injection E as <-; split; reflexivity).
  split; [exact H1|]. split; [exact H2|]. split; [exact E'|].
  destruct (history_refines_timeline (λ s, s) ed Hr) as (_ & _ & _ & H). exact (H _ _ E').
Defined.

Lemma undo_redo_roundtrip_witness :
  ∃ ed', run_editor (λ s, s) sample_edits (new_editor initialState) = Ok ed' ∧
    wd_steps (ws_definition (ed_state (Nat.iter 3 undo ed'))) = [] ∧
    step_ids (ws_definition (ed_state (Nat.iter 3 redo (Nat.iter 3 undo ed')))) = ["pause"].
Proof.
  destruct (run_editor (λ s, s) sample_edits (new_editor initialState)) as [ed'| |] eqn:E; [|vm_compute in E; discriminate E..].
  exists ed'. split; [reflexivity|].
  assert (ed_next ed' = 4) as Hn by (vm_compute in E; injection E as <-; reflexivity).
  pose proof (undo_redo_roundtrip (λ s, s) sample_edits (new_editor initialState) ed' initial_editor_reachable eq_refl E) as H.
  cbv zeta in H. rewrite Hn in H. change (4 - ed_next (new_editor initialState)) with 3 in H. destruct (H ltac:(lia)) as (H1 & _ & H3 & _). split.
  - apply (f_equal snd) in H1. unfold tracked in H1. cbn [snd] in H1. rewrite H1. reflexivity.
  - rewrite H3. vm_compute in E. injection E as <-. reflexivity.
Defined.

Lemma undone_replacement_is_clean_witness :
  ∃ ed', editor_step (λ s, s) (SAct ANew) (new_editor (edit tiny_def initialState)) = Ok ed' ∧
    ws_definition (ed_state (undo ed')) = tiny_def ∧ ws_dirty (ed_state (undo ed')) = false.
Proof.
  eexists. split; [reflexivity|].
  destruct (undone_replacement_is_clean (λ s, s) (SAct ANew) (new_editor (edit tiny_def initialState)) _
    EmptyString EmptyString no_panel None (Nat.lt_0_succ 0) eq_refl eq_refl eq_refl eq_refl) as (H1 & _ & _ & H2 & _).
  split; [exact H1|exact H2].
Defined.

Lemma shortcut_moves_witness :
  ∃ ed', editor_step (λ s, s) SUndo (new_editor initialState) = Ok ed' ∧
    timeline ed' = timeline_step 100 TlUndo (timeline (new_editor initialState)).
Proof.
  destruct (shortcut_moves (λ s, s) (mkKey false true false false "Z" false false) (new_editor initialState)) as [H _].
  destruct (H SUndo eq_refl) as (_ & _ & _ & _ & _ & ed' & H1 & H2). exists ed'. split; [exact H1|exact H2].
Defined.
