(* ===== verification/Persist.v ===== *)
(** * The state the browser keeps (workflow-modeller/src/store/workflowStore.ts, [persist])

    Every [set] of the store, undo and redo included, writes a part of the
    state to the browser's storage; the editor starts with what it finds
    there.  The storage is a cell of zustand's [persist], a class with its
    documented behaviour. *)

From S2P Require Import Prelude JsObject Types Graph Validate Schema ImportExport Store StoreInv Drafts Engine History.

(** ** What the browser keeps *)

(** The storage of [persist]: one cell, with the part of the state and the
    version it was written with. *)
Class PersistLibrary := {
  Cell : Type;
  cell_empty : Cell;
  persist_write : json → Z → Cell → Cell;
  persist_read : Cell → option (json * Z)
}.

Class PersistLaws (P : PersistLibrary) := {
  read_empty : persist_read cell_empty = None;
  read_write : ∀ j v c, json_wf j = true → persist_read (persist_write j v c) = Some (j, v)
}.

Definition source_json (s : Source) : json :=
  JObj match s with
       | SrcNew => [("kind", JStr "new")]
       | SrcFile name => ("kind", JStr "file") :: ofield "name" JStr name
       | SrcEngine id v => [("kind", JStr "engine"); ("definitionId", JStr id); ("version", JNum v)]
       end.

(** [partialize] of [persist] *)
Definition kept_json (st : WorkflowState) : json :=
  JObj [("definition", def_json (ws_definition st)); ("layout", layout_json (ws_layout st));
        ("edgeHandles", JObj (ws_edgeHandles st));
        ("engine", JObj [("baseUrl", JStr (ec_baseUrl (ws_engine st))); ("authHeader", JStr (ec_authHeader (ws_engine st)))]);
        ("source", source_json (ws_source st))].

Definition PERSIST_VERSION : Z := 1.

Definition migrate (persisted : json) (fromVersion : Z) : option json :=
  if negb (Z.eqb fromVersion 1) then None else Some persisted.

(** The engine member as it is after a start: an object from the storage has no
    [status], whatever its type says. *)
Record KeptEngine := mkKeptEngine {
  ke_baseUrl : string;
  ke_authHeader : string;
  ke_status : option EngineStatus;
  ke_lastCheckedAt : option Z
}.

Record StartState := mkStart {
  ss_definition : WorkflowDefinition;
  ss_layout : Layout;
  ss_edgeHandles : EdgeHandles;
  ss_selection : Selection;
  ss_validation : Validation;
  ss_dirty : bool;
  ss_importWarnings : list string;
  ss_engine : KeptEngine;
  ss_source : Source
}.

Definition start_of (st : WorkflowState) : StartState :=
  let e := ws_engine st in
  mkStart (ws_definition st) (ws_layout st) (ws_edgeHandles st) (ws_selection st) (ws_validation st) (ws_dirty st)
    (ws_importWarnings st) (mkKeptEngine (ec_baseUrl e) (ec_authHeader e) (Some (ec_status e)) (ec_lastCheckedAt e))
    (ws_source st).

Definition read_source (j : json) : option Source :=
  match j with
  | JObj o =>
      match obj_get o "kind" with
      | Some (JStr k) =>
          if String.eqb k "new" then Some SrcNew
          else if String.eqb k "file" then SrcFile <$> opt z_string o "name"
          else if String.eqb k "engine" then
            id ← req z_string o "definitionId"; v ← req z_number o "version"; Some (SrcEngine id v)
          else None
      | _ => None
      end
  | _ => None
  end.

Definition read_engine (j : json) : option KeptEngine :=
  match j with
  | JObj o =>
      if forallb (λ k, includes ["baseUrl"; "authHeader"] k) (obj_keys o)
      then b ← req z_string o "baseUrl"; h ← req z_string o "authHeader"; Some (mkKeptEngine b h None None)
      else None
  | _ => None
  end.

Definition kept_keys : list string := ["definition"; "layout"; "edgeHandles"; "engine"; "source"].

(** A member of the stored object, or the one of the initial state. *)
Definition member {A} (f : json → option A) (k : string) (initial : A) (o : obj json) : option A :=
  match obj_get o k with Some j => f j | None => Some initial end.

(** [{ ...currentState, ...persistedState }]; a stored object with members the
    store does not write, or of other types, is [IllTyped]. *)
Definition merge_state (persisted : option json) : Result StartState :=
  let init := start_of initialState in
  match persisted with
  | Some (JObj o) =>
      if negb (forallb (λ k, includes kept_keys k) (obj_keys o)) then IllTyped
      else match
        (d ← member (zWorkflowDefinition false) "definition" (ss_definition init) o;
         l ← member (z_record read_pos) "layout" (ss_layout init) o;
         h ← member (λ j, match j with JObj h => Some h | _ => None end) "edgeHandles" (ss_edgeHandles init) o;
         e ← member read_engine "engine" (ss_engine init) o;
         s ← member read_source "source" (ss_source init) o;
         Some (mkStart d l h (ss_selection init) (ss_validation init) (ss_dirty init) (ss_importWarnings init) e s))
      with Some st => Ok st | None => IllTyped end
  | _ => Ok init
  end.

Section kept.
Context `{PersistLibrary}.

(** The state the editor starts in. *)
Definition hydrate (c : Cell) : Result StartState :=
  match persist_read c with
  | None => Ok (start_of initialState)
  | Some (j, v) => merge_state (if Z.eqb v PERSIST_VERSION then Some j else migrate j v)
  end.
End kept.

(** The text beside the engine's dot in the toolbar; [undefined] in a template. *)
Definition status_str (s : option EngineStatus) : string :=
  match s with
  | Some StUnknown => "unknown" | Some StOk => "ok" | Some StUnreachable => "unreachable"
  | Some StUnauthorized => "unauthorized" | Some StError => "error" | None => "undefined"
  end.

Definition engine_title (e : KeptEngine) : string :=
  "Engine: " ⊕ ke_baseUrl e ⊕ " (" ⊕ status_str (ke_status e) ⊕ ")".

(** ** The editor with its storage *)

Section session.
Context `{TextOps : JsonText} (peg_message : string → string).
Context `{TL : TemporalLaws DefObject} `{PL : PersistLaws}.

(** Whether the event gets as far as a [set]. *)
Definition calls_set (e : StoreEvent) (ed : Editor) : bool :=
  match e with
  | SAct (AImport text _) | SAct (AApply text) => match importJson text with ImportOk _ _ => true | ImportErr _ => false end
  | SLoadDraft id s => match loadDraft id s (ed_state ed) with Some _ => true | None => false end
  | SUndo => match pastStates (ed_temporal ed) with [] => false | _ => true end
  | SRedo => match futureStates (ed_temporal ed) with [] => false | _ => true end
  | _ => true
  end.

(** Every [set] is written; an action that throws writes nothing. *)
Definition session_step (x : Editor * Cell) (e : StoreEvent) : option (Editor * Cell) :=
  match editor_step peg_message e x.1 with
  | Ok ed' => Some (ed', if calls_set e x.1 then persist_write (kept_json (ed_state ed')) PERSIST_VERSION x.2 else x.2)
  | Throws _ => Some x
  | IllTyped => None
  end.

Fixpoint run_session (es : list StoreEvent) (x : Editor * Cell) : option (Editor * Cell) :=
  match es with
  | [] => Some x
  | e :: es => x' ← session_step x e; run_session es x'
  end.

Lemma no_set_same e ed ed' :
  editor_step peg_message e ed = Ok ed' → calls_set e ed = false → ed_state ed' = ed_state ed.
Proof.
  intros Hs Hc. destruct e as [[]|id s| | | | | |]; try done; simpl in Hc; unfold editor_step in Hs; simpl in Hs.
  - unfold importFromJson in Hs. destruct (importJson text); [done|]. by injection Hs as <-.
  - unfold applyDefinitionFromJson in Hs. destruct (importJson text); [done|]. by injection Hs as <-.
  - destruct (loadDraft id s (ed_state ed)); [done|]. by injection Hs as <-.
  - injection Hs as <-. unfold undo. destruct (pastStates (ed_temporal ed)) eqn:E; [|done]. by rewrite undo_none.
  - injection Hs as <-. unfold redo. destruct (futureStates (ed_temporal ed)) eqn:E; [|done]. by rewrite redo_none.
Qed.

Definition cell_ok (x : Editor * Cell) : Prop :=
  (∃ c, x.2 = persist_write (kept_json (ed_state x.1)) PERSIST_VERSION c) ∨
  (x.2 = cell_empty ∧ ed_state x.1 = initialState).

Lemma session_cell es x x' : cell_ok x → run_session es x = Some x' → cell_ok x'.
Proof.
  revert x. induction es as [|e es IH]; intros x Hx Hr; simpl in Hr; [by simplify_eq|].
  apply bind_Some in Hr as (x1 & Hs & Hr). apply (IH x1); [|done]. unfold session_step in Hs.
  destruct (editor_step peg_message e x.1) as [ed'| |] eqn:E; simplify_eq; [|done].
  destruct (calls_set e x.1) eqn:Ec; [left; by eexists|]. unfold cell_ok in *. simpl.
  by rewrite (no_set_same e _ _ E Ec).
Qed.

(** What a state needs to survive as JSON. *)
Definition keepable (st : WorkflowState) : bool :=
  def_schema false (ws_definition st) && obj_wf (ws_layout st) && negb (obj_has (ws_layout st) "__proto__") &&
  input_wf (mkDraftInput EmptyString (ws_definition st) (ws_layout st) (ws_edgeHandles st)).

(** A state as it is after a restart. *)
Definition restarted (st : WorkflowState) : StartState :=
  mkStart (ws_definition st) (ws_layout st) (ws_edgeHandles st) SelNone (mkValidation None []) false []
    (mkKeptEngine (ec_baseUrl (ws_engine st)) (ec_authHeader (ws_engine st)) None None) (ws_source st).

Lemma kept_json_wf st : keepable st = true → json_wf (kept_json st) = true.
Proof.
  unfold keepable, input_wf. intros Hk. apply andb_true_iff in Hk as [_ Hk]. cbn [di_definition di_layout di_edgeHandles] in Hk.
  apply andb_true_iff in Hk as [[H1 H2]%andb_true_iff H3]. unfold kept_json. cbn [json_wf fst snd forallb fmap list_fmap] in *.
  rewrite H1, H2, H3. by destruct (ws_source st) as [|[?|]|].
Qed.

Lemma read_source_json s : read_source (source_json s) = Some s.
Proof. by destruct s as [|[?|]|]. Qed.

Lemma merge_kept st : keepable st = true → merge_state (Some (kept_json st)) = Ok (restarted st).
Proof.
  unfold keepable. intros Hk. apply andb_true_iff in Hk as [[[Hd Hw]%andb_true_iff Hp]%andb_true_iff _].
  unfold merge_state, kept_json. set (o := [_; _; _; _; _] : obj json).
  assert (forallb (λ k, includes kept_keys k) (obj_keys o) = true) as -> by reflexivity. cbn [negb].
  unfold member. assert (obj_get o "definition" = Some (def_json (ws_definition st))) as -> by reflexivity.
  assert (obj_get o "layout" = Some (record_json pos_json (ws_layout st))) as -> by reflexivity.
  assert (obj_get o "edgeHandles" = Some (JObj (ws_edgeHandles st))) as -> by reflexivity.
  assert (obj_get o "engine" = Some (JObj [("baseUrl", JStr (ec_baseUrl (ws_engine st)));
    ("authHeader", JStr (ec_authHeader (ws_engine st)))])) as -> by reflexivity.
  assert (obj_get o "source" = Some (source_json (ws_source st))) as -> by reflexivity. clear o.
  rewrite (def_roundtrip false _ Hd), no_proto_record; [|done|by intros []].
  cbn [mbind option_bind]. by rewrite read_source_json.
Qed.

(** C7: closing the editor and starting it again, at any moment and after any
    run of actions, undos and redos, gives back the definition, the layout,
    the edge handles, the engine's address and header and the source as they
    were; the unsaved-changes flag, the selection and the diagnostics are
    those of a new editor, and the engine has no status at all.  A state
    written by another version of the editor is ignored. *)
Theorem restart_restores es ed c :
  run_session es (new_editor initialState, cell_empty) = Some (ed, c) → keepable (ed_state ed) = true →
  (hydrate c = Ok (restarted (ed_state ed)) ∨ ed_state ed = initialState ∧ hydrate c = Ok (start_of initialState)) ∧
  engine_title (ss_engine (restarted (ed_state ed))) =
    "Engine: " ⊕ ec_baseUrl (ws_engine (ed_state ed)) ⊕ " (undefined)" ∧
  (∀ j v c', json_wf j = true → v ≠ PERSIST_VERSION → hydrate (persist_write j v c') = Ok (start_of initialState)).
Proof.
  intros Hr Hk. split_and!; [|done|].
  - assert (cell_ok (new_editor initialState, cell_empty)) as H0 by (right; done).
    destruct (session_cell es _ _ H0 Hr) as [[c' Hc]|[Hc Hs]]; simpl in *; subst c.
    + left. unfold hydrate. rewrite read_write by (by apply kept_json_wf). rewrite Z.eqb_refl. by apply merge_kept.
    + right. split; [done|]. unfold hydrate. by rewrite read_empty.
  - intros j v c' Hj Hv. unfold hydrate. rewrite read_write by done. destruct (Z.eqb_spec v PERSIST_VERSION); [done|].
    unfold migrate. by destruct (Z.eqb_spec v 1).
Qed.
End session.

(** ** An implementation of the storage *)

#[export] Instance option_cell : PersistLibrary := {
  Cell := option (json * Z);
  cell_empty := None;
  persist_write j v _ := Some (j, v);
  persist_read c := c
}.

#[export] Instance option_cell_laws : PersistLaws option_cell.
Proof. by split. Qed.

Lemma restart_restores_witness :
  ∃ ed c, run_session (λ s, s) (sample_edits ++ [SUndo]) (new_editor initialState, cell_empty) = Some (ed, c) ∧
    ws_source (ed_state ed) = SrcEngine "w" (num_of_Z 4) ∧ hydrate c = Ok (restarted (ed_state ed)).
Proof.
  destruct (run_session (λ s, s) (sample_edits ++ [SUndo]) (new_editor initialState, cell_empty)) as [[ed c]|] eqn:E;
    [|vm_compute in E; discriminate E].
  exists ed, c. split; [reflexivity|].
  assert (keepable (ed_state ed) = true ∧ ws_source (ed_state ed) = SrcEngine "w" (num_of_Z 4)) as [Hk Hs]
    by (vm_compute in E; injection E as <- <-; split; reflexivity).
  split; [exact Hs|]. destruct (restart_restores (λ s, s) (sample_edits ++ [SUndo]) ed c E Hk) as [[H|[H _]] _]; [exact H|].
  rewrite H in Hs. discriminate Hs.
Defined.
