(* ===== verification/Panels.v ===== *)
(** * The import, export and settings dialogs
    (workflow-modeller/src/panels/ImportDialog.tsx, ExportDialog.tsx, SettingsDialog.tsx)

    Each dialog is its state, its handlers over the store and its controls.
    [platform.openJson], [saveJson] and [copyText] are the environment: their
    outcome is an argument of the handler that awaits them. *)

From S2P Require Import Prelude JsObject Types Schema Peg ImportExport Store Engine.

(** ** The name of an exported file *)

Module Slug.

(** [[a-z0-9]] *)
Definition slug_char (c : ascii) : bool := in_range "a" "z" c || is_digit c.

(** [.replace(/[^a-z0-9]+/g, '-')]; the flag says that the run under way has its dash. *)
Fixpoint dash_runs (dashed : bool) (l : list ascii) : list ascii :=
  match l with
  | [] => []
  | c :: l =>
      if slug_char c then c :: dash_runs false l
      else if dashed then dash_runs true l else "-"%char :: dash_runs true l
  end.

Fixpoint drop_dashes (l : list ascii) : list ascii :=
  match l with
  | c :: l' => if Ascii.eqb c "-" then drop_dashes l' else l
  | [] => []
  end.

(** [.replace(/^-+|-+$/g, '')] *)
Definition trim_dashes (l : list ascii) : list ascii := rev (drop_dashes (rev (drop_dashes l))).

Definition slug (s : string) : string :=
  let r := string_of_list_ascii (trim_dashes (dash_runs false (list_ascii_of_string (str_map ascii_lower s)))) in
  if truthy_str r then r else "workflow".

(** ** A reference: the words of a text, joined by dashes *)

Definition starts (l : list ascii) : bool := match l with c :: _ => slug_char c | [] => false end.

Fixpoint words (l : list ascii) : list (list ascii) :=
  match l with
  | [] => []
  | c :: l' =>
      if slug_char c
      then match words l' with
           | w :: ws => if starts l' then (c :: w) :: ws else [c] :: w :: ws
           | [] => [[c]]
           end
      else words l'
  end.

Fixpoint join_words (ws : list (list ascii)) : list ascii :=
  match ws with
  | [] => []
  | [w] => w
  | w :: ws => w ++ "-"%char :: join_words ws
  end.

Definition slug_word (w : list ascii) : Prop := w ≠ [] ∧ Forall (λ c, slug_char c = true) w.

Lemma slug_char_facts c :
  slug_char c = true → Ascii.eqb c "-" = false ∧ ascii_lower c = c.
Proof.
  intros Hc. pose proof (ascii_forallb (λ c, negb (slug_char c) || (negb (Ascii.eqb c "-") && Ascii.eqb (ascii_lower c) c))%bool
    ltac:(vm_compute; reflexivity) c) as H. simpl in H. rewrite Hc in H. simpl in H.
  apply andb_true_iff in H as [H1 H2]. by apply negb_true_iff in H1; apply Ascii.eqb_eq in H2.
Qed.

Lemma words_spec l : Forall slug_word (words l).
Proof.
  induction l as [|c l IH]; simpl; [constructor|]. destruct (slug_char c) eqn:Ec; [|done].
  destruct (words l) as [|w ws]; [by repeat constructor|]. destruct (starts l); [|constructor; [by repeat constructor|done]].
  apply Forall_cons in IH as [[_ Hw] Hws]. constructor; [|done]. split; [done|]. by constructor.
Qed.

Lemma words_start c l : slug_char c = true → words (c :: l) ≠ [].
Proof. simpl. intros ->. by repeat case_match. Qed.

(** After a dash, the text is its words and perhaps one dash more. *)
Lemma dash_runs_words l :
  ∃ t, (t = [] ∨ t = ["-"%char] ∧ words l ≠ []) ∧ dash_runs true l = join_words (words l) ++ t.
Proof.
  induction l as [|c l (t & Ht & IH)]; [exists []; eauto|]. destruct (slug_char c) eqn:Ec.
  2:{ exists t. simpl. by rewrite Ec. }
  destruct l as [|c' l]; [exists []; simpl; rewrite Ec; eauto|].
  destruct (slug_char c') eqn:Ec'.
  - assert (dash_runs true (c :: c' :: l) = c :: dash_runs true (c' :: l)) as -> by (simpl; by rewrite Ec, Ec').
    rewrite IH. pose proof (words_start c' l Ec') as Hne. destruct (words (c' :: l)) as [|w ws] eqn:Ew; [done|].
    assert (words (c :: c' :: l) = (c :: w) :: ws) as ->.
    { change (words (c :: c' :: l)) with
        (if slug_char c then match words (c' :: l) with w :: ws => if starts (c' :: l) then (c :: w) :: ws else [c] :: w :: ws
         | [] => [[c]] end else words (c' :: l)). rewrite Ec, Ew. simpl. by rewrite Ec'. }
    exists t. split; [naive_solver|]. by destruct ws.
  - assert (dash_runs true (c :: c' :: l) = c :: "-"%char :: dash_runs true (c' :: l)) as -> by (simpl; by rewrite Ec, Ec').
    rewrite IH. assert (words (c :: c' :: l) = [c] :: words (c' :: l)) as ->.
    { simpl. rewrite Ec, Ec'. by destruct (words l). }
    destruct (words (c' :: l)) as [|w ws] eqn:Ew.
    + destruct Ht as [->|[-> ?]]; [|done]. exists ["-"%char]. simpl. eauto.
    + exists t. split; [naive_solver|]. done.
Qed.

Lemma dash_runs_lead l : dash_runs false l = dash_runs true l ∨ dash_runs false l = "-"%char :: dash_runs true l.
Proof. destruct l as [|c l]; simpl; [by left|]. destruct (slug_char c); [by left|by right]. Qed.

Lemma join_head ws : Forall slug_word ws → ws ≠ [] → ∃ c l, join_words ws = c :: l ∧ slug_char c = true.
Proof.
  intros Hws Hne. destruct ws as [|w ws]; [done|]. apply Forall_cons in Hws as [[Hw Hc] _].
  destruct w as [|c w]; [done|]. apply Forall_cons in Hc as [Hc _]. destruct ws; simpl; eauto.
Qed.

Lemma join_last ws : Forall slug_word ws → ws ≠ [] → ∃ c l, rev (join_words ws) = c :: l ∧ slug_char c = true.
Proof.
  induction 1 as [|w ws [Hw Hc] Hws IH]; [done|]. intros _. destruct ws as [|w' ws].
  - simpl. destruct (rev w) as [|c l] eqn:E; [by apply (f_equal (@rev ascii)) in E; rewrite rev_involutive in E|].
    exists c, l. split; [done|]. rewrite Forall_forall in Hc. apply Hc. apply list_elem_of_In, in_rev. rewrite E. by left.
  - destruct IH as (c & l & E & ?); [done|]. exists c. change (join_words (w :: w' :: ws)) with (w ++ "-"%char :: join_words (w' :: ws)).
    rewrite rev_app_distr. change (rev ("-"%char :: join_words (w' :: ws))) with (rev (join_words (w' :: ws)) ++ ["-"%char]).
    rewrite E. simpl. eauto.
Qed.

Lemma trim_words l : trim_dashes (dash_runs false l) = join_words (words l).
Proof.
  pose proof (words_spec l) as Hw. destruct (dash_runs_words l) as (t & Ht & E).
  assert (drop_dashes (dash_runs false l) = join_words (words l) ++ t) as Hd.
  { assert (drop_dashes (dash_runs false l) = drop_dashes (dash_runs true l)) as ->
      by (by destruct (dash_runs_lead l) as [-> | ->]).
    rewrite E. destruct (words l) as [|w ws] eqn:Ew; [by destruct Ht as [->|[_ ?]]|].
    destruct (join_head (w :: ws)) as (c & l' & -> & Hc); [done..|]. simpl. by rewrite (proj1 (slug_char_facts c Hc)). }
  unfold trim_dashes. rewrite Hd, rev_app_distr.
  destruct (words l) as [|w ws] eqn:Ew; [by destruct Ht as [->|[_ ?]]|].
  destruct (join_last (w :: ws)) as (c & l' & Er & Hc); [done..|].
  assert (drop_dashes (rev t ++ rev (join_words (w :: ws))) = rev (join_words (w :: ws))) as ->; [|apply rev_involutive].
  rewrite Er. assert (drop_dashes (rev t ++ c :: l') = drop_dashes (c :: l')) as -> by (by destruct Ht as [->|[-> _]]).
  simpl. by rewrite (proj1 (slug_char_facts c Hc)).
Qed.

Lemma words_app w l : slug_word w → words (w ++ "-"%char :: l) = w :: words l.
Proof.
  intros [Hne Hw]. induction Hw as [|c w Hc Hw IH]; [done|]. destruct w as [|c' w].
  - simpl. rewrite Hc. by destruct (words l).
  - specialize (IH ltac:(done)). apply Forall_cons in Hw as [Hc' _].
    change ((c :: c' :: w) ++ "-"%char :: l) with (c :: ((c' :: w) ++ "-"%char :: l)). cbn [words].
    rewrite Hc. cbn [app starts] in IH |- *. rewrite IH. by rewrite Hc'.
Qed.

Lemma words_word w : slug_word w → words w = [w].
Proof.
  intros [Hne Hw]. induction Hw as [|c w Hc Hw IH]; [done|]. destruct w as [|c' w]; simpl; rewrite Hc; [done|].
  specialize (IH ltac:(done)). apply Forall_cons in Hw as [Hc' _]. simpl in IH. rewrite IH, Hc'. done.
Qed.

Lemma words_join ws : Forall slug_word ws → words (join_words ws) = ws.
Proof.
  induction 1 as [|w ws Hw Hws IH]; [done|]. destruct ws as [|w' ws]; [by apply words_word|].
  change (join_words (w :: w' :: ws)) with (w ++ "-"%char :: join_words (w' :: ws)). by rewrite words_app, IH.
Qed.
End Slug.

Import Slug.

Lemma lower_slug_list l :
  Forall (λ c, slug_char c = true ∨ c = "-"%char) l →
  list_ascii_of_string (str_map ascii_lower (string_of_list_ascii l)) = l.
Proof.
  induction 1 as [|c l Hc _ IH]; simpl; [done|]. rewrite IH. f_equal.
  destruct Hc as [Hc | ->]; [by apply slug_char_facts|done].
Qed.

Lemma join_chars ws : Forall slug_word ws → Forall (λ c, slug_char c = true ∨ c = "-"%char) (join_words ws).
Proof.
  induction 1 as [|w ws [_ Hw] _ IH]; [constructor|].
  assert (Forall (λ c, slug_char c = true ∨ c = "-"%char) w) as Hw' by (eapply Forall_impl; [exact Hw|]; auto).
  destruct ws as [|w' ws]; [done|]. change (join_words (w :: w' :: ws)) with (w ++ "-"%char :: join_words (w' :: ws)).
  apply Forall_app. split; [done|]. constructor; [by right|done].
Qed.

Definition name_words (s : string) : list (list ascii) := words (list_ascii_of_string (str_map ascii_lower s)).

Lemma slug_words s :
  slug s = match name_words s with [] => "workflow" | ws => string_of_list_ascii (join_words ws) end.
Proof.
  unfold slug. rewrite trim_words. fold (name_words s). pose proof (words_spec (list_ascii_of_string (str_map ascii_lower s))) as Hw.
  fold (name_words s) in Hw. destruct (name_words s) as [|w ws]; [done|].
  destruct (join_head (w :: ws)) as (c & l & -> & _); done.
Qed.

(** The lower-case words of a name, joined by single dashes. *)
Lemma slug_fixed ws : Forall slug_word ws → ws ≠ [] → slug (string_of_list_ascii (join_words ws)) = string_of_list_ascii (join_words ws).
Proof.
  intros Hws Hne. rewrite slug_words. unfold name_words. rewrite lower_slug_list by (by apply join_chars).
  rewrite words_join by done. by destruct ws.
Qed.

(** The file name of an export: the words of the workflow's name (its runs of
    letters and digits, in lower case) joined by single dashes, [workflow] when
    there are none.  It is never empty, has no other character, starts and ends
    with a letter or digit, and a name that is one already is left alone. *)
Theorem slug_correct s :
  slug s = match name_words s with [] => "workflow" | ws => string_of_list_ascii (join_words ws) end ∧
  Forall (λ c, slug_char c = true ∨ c = "-"%char) (list_ascii_of_string (slug s)) ∧
  (∃ c l, list_ascii_of_string (slug s) = c :: l ∧ slug_char c = true) ∧
  (∃ c l, rev (list_ascii_of_string (slug s)) = c :: l ∧ slug_char c = true) ∧
  slug (slug s) = slug s.
Proof.
  assert (∃ ws, Forall slug_word ws ∧ ws ≠ [] ∧ slug s = string_of_list_ascii (join_words ws)) as (ws & Hws & Hne & Es).
  { rewrite slug_words. pose proof (words_spec (list_ascii_of_string (str_map ascii_lower s))) as Hw. fold (name_words s) in Hw.
    destruct (name_words s) as [|w ws]; [|by exists (w :: ws)].
    exists [list_ascii_of_string "workflow"]. split_and!; [|done|done]. repeat constructor; done. }
  split; [apply slug_words|]. rewrite Es, list_ascii_of_string_of_list_ascii.
  split_and!; [by apply join_chars|by apply join_head|by apply join_last|by apply slug_fixed].
Qed.

(** ** The import dialog *)

Record ImportDialog := mkImportDialog {
  im_open : bool;
  im_text : string;
  im_fileName : option string;
  im_localErrors : list string;
  im_reading : bool
}.

Definition no_import : ImportDialog := mkImportDialog false EmptyString None [] false.

(** What [platform.openJson] comes to. *)
Inductive OpenedFile := FileCancelled | FileRead (name text : string) | FileFailed (message : string).

Definition handleOpenFile (outcome : OpenedFile) (d : ImportDialog) : ImportDialog :=
  match outcome with
  | FileCancelled => mkImportDialog (im_open d) (im_text d) (im_fileName d) [] false
  | FileRead name text => mkImportDialog (im_open d) text (Some name) [] false
  | FileFailed message => mkImportDialog (im_open d) (im_text d) (im_fileName d) [message] false
  end.

(** What the dialog tells the application: [onImported] and [onError]. *)
Inductive ImportReport := Imported (warnings : list string) | ImportRefused (errors : list string).

Definition import_enabled (d : ImportDialog) : bool := negb (im_reading d) && truthy_str (js_trim (im_text d)).

Definition handleSubmit `{JsonText} (d : ImportDialog) (st : WorkflowState) :
    ImportDialog * WorkflowState * ImportReport :=
  let name := if truthy_ostr (im_fileName d) then im_fileName d else None in
  let '(st', result) := importFromJson (im_text d) name st in
  match result with
  | ImportErr errors =>
      (mkImportDialog (im_open d) (im_text d) (im_fileName d) errors (im_reading d), st', ImportRefused errors)
  | ImportOk _ warnings =>
      (mkImportDialog false EmptyString None [] (im_reading d), st', Imported warnings)
  end.

(** ** The export dialog *)

Inductive SaveOutcome := Saved | DownloadStarted | SaveCancelled | SaveFailed (message : string).

Record ExportDialog := mkExportDialog {
  ex_open : bool;
  ex_includeLayout : bool;
  ex_text : string;              (* the memo on open and includeLayout *)
  ex_copied : bool;
  ex_saving : bool;
  ex_message : string;
  ex_error : string
}.

Section export.
Context `{JsonText}.

Definition no_export : ExportDialog := mkExportDialog false true EmptyString false false EmptyString EmptyString.

(** [open] becomes true: the effect clears the notes, the memo reads the store. *)
Definition open_export (st : WorkflowState) (d : ExportDialog) : ExportDialog :=
  mkExportDialog true (ex_includeLayout d) (exportToJson (ex_includeLayout d) st) false (ex_saving d) EmptyString EmptyString.

Definition toggle_layout (include : bool) (st : WorkflowState) (d : ExportDialog) : ExportDialog :=
  mkExportDialog (ex_open d) include
    (if Bool.eqb include (ex_includeLayout d) then ex_text d else exportToJson include st)
    (ex_copied d) (ex_saving d) (ex_message d) (ex_error d).

(** [handleCopy]: the text put on the clipboard, and the dialog after it. *)
Definition handleCopy (failure : option string) (d : ExportDialog) : option string * ExportDialog :=
  match failure with
  | None => (Some (ex_text d), mkExportDialog (ex_open d) (ex_includeLayout d) (ex_text d) true (ex_saving d) (ex_message d) EmptyString)
  | Some e => (None, mkExportDialog (ex_open d) (ex_includeLayout d) (ex_text d) (ex_copied d) (ex_saving d) (ex_message d) e)
  end.

(** [handleSave]: the file offered to the platform, and the dialog after it. *)
Definition export_file (st : WorkflowState) (d : ExportDialog) : string * string :=
  (slug (wd_name (ws_definition st)) ⊕ ".json", ex_text d).

Definition handleSave (outcome : SaveOutcome) (d : ExportDialog) : ExportDialog :=
  mkExportDialog (ex_open d) (ex_includeLayout d) (ex_text d) (ex_copied d) false
    (match outcome with Saved => "File saved." | DownloadStarted => "Download started." | _ => EmptyString end)
    (match outcome with SaveFailed message => message | _ => EmptyString end).
End export.

(** ** The settings dialog *)

Record SettingsDialog := mkSettings {
  se_baseUrl : string;
  se_authHeader : string;
  se_testing : bool;
  se_result : option EngineStatus
}.

(** The fields are read from the store when the component is mounted. *)
Definition mount_settings (st : WorkflowState) : SettingsDialog :=
  mkSettings (ec_baseUrl (ws_engine st)) (ec_authHeader (ws_engine st)) false None.

Definition store_settings (d : SettingsDialog) (st : WorkflowState) : WorkflowState :=
  setEngineConnection (Some (strip_slashes (se_baseUrl d))) (Some (se_authHeader d)) None None st.

(** [save()]; the dialog closes. *)
Definition save_settings (d : SettingsDialog) (st : WorkflowState) : WorkflowState := store_settings d st.

(** [test()] *)
Definition test_settings `{JsonText} (fetch : Request → Response + string) (between : WorkflowState → WorkflowState)
    (now : Z) (d : SettingsDialog) (st : WorkflowState) : SettingsDialog * WorkflowState :=
  let '(st', status) := testEngineConnection fetch between now (store_settings d st) in
  (mkSettings (se_baseUrl d) (se_authHeader d) false (Some status), st').

(** ** Properties *)

(** Submitting the import dialog: a text that is refused leaves the store and
    the dialog's text alone and shows and reports the reasons; an accepted one
    replaces the workflow by the definition read, with its embedded positions
    and handles and no unsaved changes, and closes and empties the dialog. *)
Theorem import_submitted `{JsonText} d st :
  let '(d', st', report) := handleSubmit d st in
  match importJson (im_text d) with
  | ImportErr errors =>
      st' = st ∧ im_open d' = im_open d ∧ im_text d' = im_text d ∧ im_localErrors d' = errors ∧ report = ImportRefused errors
  | ImportOk def warnings =>
      ws_definition st' = def ∧ (ws_layout st', ws_edgeHandles st') = extractEmbeddedModeller def ∧ ws_dirty st' = false ∧
      ws_engine st' = ws_engine st ∧ ws_importWarnings st' = warnings ∧
      d' = mkImportDialog false EmptyString None [] (im_reading d) ∧ report = Imported warnings
  end.
Proof.
  unfold handleSubmit, importFromJson. destruct (importJson (im_text d)) as [def warnings|errors]; [|done].
  destruct (extractEmbeddedModeller def) as [layout handles]. done.
Qed.

(** The text of the export dialog, with the positions included, imported into
    any store: the steps, the positions and (when there are any) the handles
    are those of the exporting store. *)
Theorem export_then_import `{JsonTextLaws} st st0 d name :
  let def := embedLayout (ws_definition st) (ws_layout st) (ws_edgeHandles st) in
  def_schema true def = true → json_wf (def_json def) = true →
  obj_wf (ws_layout st) = true → "__proto__" ∉ obj_keys (ws_layout st) → ex_includeLayout d = true →
  let text := ex_text (open_export st d) in
  let '(d', st', report) := handleSubmit (mkImportDialog true text name [] false) st0 in
  im_open d' = false ∧ wd_steps (ws_definition st') = wd_steps (ws_definition st) ∧
  wd_id (ws_definition st') = wd_id (ws_definition st) ∧ wd_name (ws_definition st') = wd_name (ws_definition st) ∧
  ws_layout st' = ws_layout st ∧ (ws_edgeHandles st ≠ [] → ws_edgeHandles st' = ws_edgeHandles st).
Proof.
  intros def Hs Hw Hl Hp Hi. unfold open_export, handleSubmit, importFromJson. rewrite Hi. cbn [ex_text im_text im_fileName].
  unfold exportToJson. rewrite (import_exported (ws_definition st) true) by done. cbv beta iota zeta. fold def.
  destruct (embed_extract_roundtrip (ws_definition st) (ws_layout st) (ws_edgeHandles st) Hl Hp) as (E1 & E2 & E3).
  fold def in E1, E2, E3. destruct (extractEmbeddedModeller def) as [layout handles]. by split_and!.
Qed.

Lemma str_rev_append_app s acc :
  list_ascii_of_string (str_rev_append s acc) = rev (list_ascii_of_string s) ++ list_ascii_of_string acc.
Proof.
  revert acc. induction s as [|c s IH]; intros acc; simpl; [done|]. rewrite IH. simpl. by rewrite <- app_assoc.
Qed.

Lemma str_rev_list s : list_ascii_of_string (str_rev s) = rev (list_ascii_of_string s).
Proof. unfold str_rev. by rewrite str_rev_append_app, app_nil_r. Qed.

Lemma str_rev_rev s : str_rev (str_rev s) = s.
Proof.
  rewrite <- (string_of_list_ascii_of_string (str_rev (str_rev s))), !str_rev_list, rev_involutive.
  apply string_of_list_ascii_of_string.
Qed.

Lemma drop_slashes_idem s : drop_slashes (drop_slashes s) = drop_slashes s.
Proof. induction s as [|c s IH]; simpl; [done|]. destruct (Ascii.eqb c "/") eqn:E; [done|]. simpl. by rewrite E. Qed.

Lemma strip_slashes_idem s : strip_slashes (strip_slashes s) = strip_slashes s.
Proof. unfold strip_slashes. by rewrite str_rev_rev, drop_slashes_idem. Qed.

(** Testing stores what is typed first, so the verdict shown is the one for the
    address and the header on display, the address in the form requests use
    it; it is also the status of the store. *)
Theorem settings_tested `{JsonText} fetch between now d st :
  let '(d', st') := test_settings fetch between now d st in
  se_result d' = Some (testConnection fetch (mkConfig (strip_slashes (se_baseUrl d)) (Some (se_authHeader d)))) ∧
  Some (ec_status (ws_engine st')) = se_result d' ∧ ec_lastCheckedAt (ws_engine st') = Some now ∧
  strip_slashes (strip_slashes (se_baseUrl d)) = strip_slashes (se_baseUrl d) ∧ se_testing d' = false.
Proof. simpl. split_and!; try done. apply strip_slashes_idem. Qed.

(** Saving another address keeps the verdict of the last one: the status of the
    connection goes on being shown for an engine that was never asked. *)
Theorem saved_settings_keep_status d st :
  let st' := save_settings d st in
  ec_baseUrl (ws_engine st') = strip_slashes (se_baseUrl d) ∧ ec_authHeader (ws_engine st') = se_authHeader d ∧
  ec_status (ws_engine st') = ec_status (ws_engine st) ∧ ec_lastCheckedAt (ws_engine st') = ec_lastCheckedAt (ws_engine st) ∧
  ws_definition st' = ws_definition st ∧ ws_dirty st' = ws_dirty st.
Proof. done. Qed.

(** ** Witnesses *)

Lemma export_then_import_witness :
  let st := setLayout "e" (mkPos (num_of_Z 5) (num_of_Z 7)) (edit tiny_def initialState) in
  let '(d', st', report) := handleSubmit (mkImportDialog true (ex_text (open_export st no_export)) None [] false) initialState in
  im_open d' = false ∧ wd_steps (ws_definition st') = wd_steps tiny_def ∧ ws_layout st' = ws_layout st.
Proof.
  intros st. pose proof (export_then_import st initialState no_export None) as He. cbv zeta in He.
  destruct (handleSubmit _ _) as [[d' st'] report] eqn:E.
  destruct He as (H1 & H2 & _ & _ & H3 & _); [vm_compute; reflexivity..|apply includes_false; vm_compute; reflexivity|reflexivity|].
  split; [exact H1|]. split; [exact H2|exact H3].
Defined.
