(* ===== verification/Platform.v ===== *)
(** * The platform adapters (workflow-modeller/src/platform/contracts.ts, web.ts, desktop.ts)

    What the dialogs ask of the platform is the class [Platform] with the
    contract the interface documents.  The desktop adapter calls the file and
    dialog plugins of Tauri, a class of operations here; the answer of a
    picker, which the user gives, is an argument.  The web adapter drives the
    document: the life of the file input is a machine over the events of the
    browser, a download leaves a link, an object URL and a timer. *)

From S2P Require Import Prelude JsObject Types Schema ImportExport Store Engine Panels.

(** ** The contract *)

Class Platform (W : Type) := {
  has_file : W → string → string → Prop;                 (* a file of this name holds the text *)
  opens : W → OpenedFile → Prop;                         (* what [openJson] can come to *)
  saves : string → string → W → W → SaveOutcome → Prop   (* [saveJson(name, text)] *)
}.

(** A text that is read is the text of a file; [saved] is said only when the
    file is on the disk; a cancelled picker does nothing. *)
Class PlatformLaws (W : Type) (P : Platform W) := {
  open_reads : ∀ w name text, opens w (FileRead name text) → has_file w name text;
  saved_is_there : ∀ name text w w', saves name text w w' Saved → ∃ n, has_file w' n text;
  cancelled_is_nothing : ∀ name text w w', saves name text w w' SaveCancelled → w' = w
}.

(** ** The desktop *)

Module Desktop.

(** The plugins: a call gives its value or the message it rejects with. *)
Class Tauri := {
  Fs : Type;
  basename : string → string + string;
  readTextFile : Fs → string → string + string;
  writeTextFile : Fs → string → string → Fs * option string
}.

Class TauriLaws (T : Tauri) := {
  write_read : ∀ fs path text fs', writeTextFile fs path text = (fs', None) → readTextFile fs' path = inl text;
  write_named : ∀ fs path text fs', writeTextFile fs path text = (fs', None) → ∃ name, basename path = inl name
}.

Section desktop.
Context `{Tauri}.

(** [picked]: the answer of the dialog, a path, null, or its error. *)
Definition openJson (picked : option string + string) (fs : Fs) : OpenedFile :=
  match picked with
  | inr e => FileFailed e
  | inl None => FileCancelled
  | inl (Some path) =>
      match basename path with
      | inr e => FileFailed e
      | inl name =>
          match readTextFile fs path with
          | inr e => FileFailed e
          | inl text => FileRead name text
          end
      end
  end.

(** The dialog starts at [name]; what is picked there is [picked]. *)
Definition saveJson (picked : string → option string + string) (name text : string) (fs : Fs) : Fs * SaveOutcome :=
  match picked name with
  | inr e => (fs, SaveFailed e)
  | inl None => (fs, SaveCancelled)
  | inl (Some path) =>
      match writeTextFile fs path text with
      | (fs', Some e) => (fs', SaveFailed e)
      | (fs', None) => (fs', Saved)
      end
  end.

#[global] Instance desktop : Platform Fs := {
  has_file fs name text := ∃ path, basename path = inl name ∧ readTextFile fs path = inl text;
  opens fs o := ∃ picked, openJson picked fs = o;
  saves name text fs fs' o := ∃ picked, saveJson picked name text fs = (fs', o)
}.
End desktop.

#[global] Instance desktop_laws `{TauriLaws} : PlatformLaws Fs desktop.
Proof.
  split; simpl.
  - intros fs name text [[[path|]|] Hp]; simpl in Hp; [|done|done].
    destruct (basename path) eqn:Eb; [|done]. destruct (readTextFile fs path) eqn:Er; [|done]. simplify_eq. eauto.
  - intros name text fs fs' [picked Hp]. unfold saveJson in Hp. destruct (picked name) as [[path|]|]; [|done|done].
    destruct (writeTextFile fs path text) as [fs1 [e|]] eqn:Ew; simplify_eq.
    destruct (write_named _ _ _ _ Ew) as [n Hn]. apply write_read in Ew. eauto.
  - intros name text fs fs' [picked Hp]. unfold saveJson in Hp. destruct (picked name) as [[path|]|]; simplify_eq; [|done].
    destruct (writeTextFile fs path text) as [fs1 [e|]]; simplify_eq.
Qed.
End Desktop.

(** ** The browser *)

Module Web.

(** *** Opening a file *)

(** The file input of one call of [openJson], and the promise returned. *)
Record Picker := mkPicker {
  pk_attached : bool;                   (* the input is in the document *)
  pk_on_cancel : bool;                  (* the listeners, each of them [once] *)
  pk_on_change : bool;
  pk_reading : option string;           (* the file whose [text()] is awaited *)
  pk_promise : option OpenedFile
}.

Inductive PickerEvent :=
| PCancel
| PChange (file : option string)        (* [input.files?.[0]], by its name *)
| PText (r : string + string).          (* [file.text()] is fulfilled or rejected *)

Definition open_picker : Picker := mkPicker true true true None None.

(** Only the first [resolve] or [reject] counts. *)
Definition settle (o : OpenedFile) (p : Picker) : Picker :=
  mkPicker (pk_attached p) (pk_on_cancel p) (pk_on_change p) (pk_reading p)
    (match pk_promise p with Some o' => Some o' | None => Some o end).

Definition on_cancel (p : Picker) : Picker :=
  if pk_on_cancel p then settle FileCancelled (mkPicker false false (pk_on_change p) (pk_reading p) (pk_promise p)) else p.

Definition on_change (file : option string) (p : Picker) : Picker :=
  if pk_on_change p then
    let p' := mkPicker false (pk_on_cancel p) false file (pk_promise p) in
    match file with Some _ => p' | None => settle FileCancelled p' end
  else p.

Definition on_text (r : string + string) (p : Picker) : Picker :=
  match pk_reading p with
  | Some name =>
      settle (match r with inl text => FileRead name text | inr e => FileFailed e end)
        (mkPicker (pk_attached p) (pk_on_cancel p) (pk_on_change p) None (pk_promise p))
  | None => p
  end.

Definition picker_step (p : Picker) (e : PickerEvent) : Picker :=
  match e with PCancel => on_cancel p | PChange file => on_change file p | PText r => on_text r p end.

Definition run_picker (es : list PickerEvent) : Picker := fold_left picker_step es open_picker.

(** *** Saving a file *)

Record Page := mkPage {
  pg_links : list string;               (* the [href]s of the links in the document *)
  pg_urls : list string;                (* the object URLs not yet revoked *)
  pg_timers : list string;              (* the timeouts that will revoke one *)
  pg_downloads : list (string * string)
}.

Definition no_page : Page := mkPage [] [] [] [].

(** [url] is what [createObjectURL] returns, [failure] what [click] throws. *)
Definition saveJson (url : string) (failure : option string) (name text : string) (pg : Page) : Page * SaveOutcome :=
  let appended := pg_links pg ++ [url] in
  let outcome := match failure with None => DownloadStarted | Some e => SaveFailed e end in
  (mkPage (take (length appended - 1) appended) (url :: pg_urls pg) (pg_timers pg ++ [url])
     (match failure with None => pg_downloads pg ++ [(name, text)] | Some _ => pg_downloads pg end), outcome).

(** The first timeout fires. *)
Definition timer_fires (pg : Page) : Page :=
  match pg_timers pg with
  | [] => pg
  | url :: l => mkPage (pg_links pg) (List.filter (λ u, negb (String.eqb u url)) (pg_urls pg)) l (pg_downloads pg)
  end.

Inductive PageEvent := Download (url : string) (failure : option string) (name text : string) | Timer.

Definition page_step (pg : Page) (e : PageEvent) : Page :=
  match e with
  | Download url failure name text => (saveJson url failure name text pg).1
  | Timer => timer_fires pg
  end.

(** The browser as a platform: the files the user can pick, and the page. *)
#[global] Instance web : Platform (list (string * string) * Page) := {
  has_file w name text := (name, text) ∈ w.1;
  opens w o := ∃ es, pk_promise (run_picker es) = Some o ∧
    ∀ l name text l', es = l ++ PChange (Some name) :: l' → PText (inl text) ∈ l' → (name, text) ∈ w.1;
  saves name text w w' o := w'.1 = w.1 ∧ ∃ url failure, saveJson url failure name text w.2 = (w'.2, o)
}.
End Web.

(** ** Properties of the file input *)

Section picker.
Import Web.

Definition is_cancel (e : PickerEvent) : bool := match e with PCancel => true | _ => false end.
Definition is_change (e : PickerEvent) : bool := match e with PChange _ => true | _ => false end.

(** The user chose the file [name] and reading it gave [r] later on. *)
Definition read_after (es : list PickerEvent) (name : string) (r : string + string) : Prop :=
  ∃ l l', es = l ++ PChange (Some name) :: l' ∧ PText r ∈ l'.

Lemma read_after_more es e name r : read_after es name r → read_after (es ++ [e]) name r.
Proof. intros (l & l' & -> & Hr). exists l, (l' ++ [e]). split; [by rewrite <- app_assoc|set_solver]. Qed.

Record picker_ok (es : list PickerEvent) (p : Picker) : Prop := {
  po_attached : pk_attached p = negb (existsb is_cancel es || existsb is_change es);
  po_cancel : pk_on_cancel p = negb (existsb is_cancel es);
  po_change : pk_on_change p = negb (existsb is_change es);
  po_reading : ∀ name, pk_reading p = Some name → ∃ l l', es = l ++ PChange (Some name) :: l';
  po_read : ∀ name text, pk_promise p = Some (FileRead name text) → read_after es name (inl text);
  po_cancelled : existsb is_cancel es = true → is_Some (pk_promise p);
  po_changed : existsb is_change es = true → is_Some (pk_promise p) ∨ is_Some (pk_reading p)
}.

Lemma run_picker_snoc es e : run_picker (es ++ [e]) = picker_step (run_picker es) e.
Proof. unfold run_picker. by rewrite fold_left_app. Qed.

Lemma run_picker_ok es : picker_ok es (run_picker es).
Proof.
  induction es as [|e es IH] using rev_ind; [by split|]. rewrite run_picker_snoc.
  destruct IH as [Ha Hc Hg Hr Hd Hx Hy]. set (p := run_picker es) in *.
  assert (∀ f, existsb f (es ++ [e]) = (existsb f es || f e)%bool) as Hex
    by (intros f; rewrite existsb_app; simpl; by rewrite orb_false_r).
  assert (∀ name, pk_reading p = Some name → ∃ l l', es ++ [e] = l ++ PChange (Some name) :: l') as Hr'.
  { intros name (l & l' & ->)%Hr. exists l, (l' ++ [e]). by rewrite <- app_assoc. }
  assert (∀ name text, pk_promise p = Some (FileRead name text) → read_after (es ++ [e]) name (inl text)) as Hd'
    by eauto using read_after_more.
  destruct e as [|file|r]; simpl picker_step.
  - unfold on_cancel. destruct (pk_on_cancel p) eqn:Eo.
    + split; simpl; rewrite ?Hex; simpl; rewrite ?orb_true_r, ?orb_false_r; try done.
      * destruct (pk_promise p); [|done]. intros; simplify_eq; eauto.
      * intros _. by destruct (pk_promise p).
      * intros _. left. by destruct (pk_promise p).
    + symmetry in Hc. apply negb_false_iff in Hc. rewrite Hc in *. split; rewrite ?Hex, ?Hc; simpl; rewrite ?orb_false_r; auto.
  - unfold on_change. destruct (pk_on_change p) eqn:Eo.
    + destruct file as [name|]; split; simpl; rewrite ?Hex; simpl; rewrite ?orb_true_r, ?orb_false_r; try done; eauto.
      * intros n [= <-]. by exists es, [].
      * destruct (pk_promise p); [|done]. intros; simplify_eq; eauto.
      * intros _. by destruct (pk_promise p).
      * intros _. left. by destruct (pk_promise p).
    + symmetry in Hg. apply negb_false_iff in Hg. rewrite Hg in *. rewrite orb_true_r in Ha.
      split; rewrite ?Hex, ?Hg; simpl; rewrite ?orb_false_r, ?orb_true_r; auto.
  - unfold on_text. destruct (pk_reading p) as [name|] eqn:Er.
    + split; simpl; rewrite ?Hex; simpl; rewrite ?orb_false_r; try done.
      * intros n t. destruct (pk_promise p) as [o|]; [intros; simplify_eq; eauto|]. destruct r as [t'|]; intros; simplify_eq.
        destruct (Hr n eq_refl) as (l & l' & ->). exists l, (l' ++ [PText (inl t)]). split; [by rewrite <- app_assoc|set_solver].
      * intros _. by destruct (pk_promise p).
      * intros _. left. by destruct (pk_promise p).
    + split; rewrite ?Hex, ?Er; simpl; rewrite ?orb_false_r; auto.
Qed.

Lemma picker_keeps p e o : pk_promise p = Some o → pk_promise (picker_step p e) = Some o.
Proof. intros Hp. destruct e; simpl; unfold on_cancel, on_change, on_text; repeat case_match; simpl; by rewrite ?Hp. Qed.

(** In whatever order the browser reports, the input leaves the document with
    the first cancel or change; the promise settles once and for all, with a
    file's text only when the user chose that file and it was read; and it is
    settled when the picker was cancelled, nothing was chosen, or the chosen
    file could be read or not. *)
Theorem picker_settles es :
  let p := run_picker es in
  (pk_attached p = true ↔ existsb is_cancel es = false ∧ existsb is_change es = false) ∧
  (∀ o es', pk_promise p = Some o → pk_promise (run_picker (es ++ es')) = Some o) ∧
  (∀ name text, pk_promise p = Some (FileRead name text) → read_after es name (inl text)) ∧
  (existsb is_cancel es = true → is_Some (pk_promise p)) ∧
  (existsb is_change es = true → ∀ r, is_Some (pk_promise (run_picker (es ++ [PText r])))).
Proof.
  intros p. destruct (run_picker_ok es) as [Ha Hc Hg Hr Hd Hx Hy]. fold p in Ha, Hc, Hg, Hr, Hd, Hx, Hy. split_and!; [|auto..|].
  - rewrite Ha, negb_true_iff, orb_false_iff. done.
  - intros o es' Ho. unfold run_picker. rewrite fold_left_app. fold (run_picker es). fold p. revert Ho. clear. generalize p as q.
    induction es' as [|e es' IH]; intros q Hq; simpl; [done|]. by apply IH, picker_keeps.
  - intros He r. rewrite run_picker_snoc. fold p. destruct (Hy He) as [[o Ho]|[name Hn]].
    + exists o. by apply picker_keeps.
    + simpl. unfold on_text. rewrite Hn. simpl. by destruct (pk_promise p).
Qed.

#[global] Instance web_laws : PlatformLaws _ web.
Proof.
  split; simpl.
  - intros w name text (es & Hp & Hw). destruct (po_read _ _ (run_picker_ok es) _ _ Hp) as (l & l' & He & Ht). by eapply Hw.
  - intros name text w w' (_ & url & failure & Hs). unfold saveJson in Hs. destruct failure; simplify_eq.
  - intros name text w w' (_ & url & failure & Hs). unfold saveJson in Hs. destruct failure; simplify_eq.
Qed.
End picker.

(** ** Downloads *)

Section downloads.
Import Web.

Definition page_ok (pg : Page) : Prop := pg_links pg = [] ∧ ∀ u, u ∈ pg_urls pg → u ∈ pg_timers pg.

Lemma page_step_ok pg e : page_ok pg → page_ok (page_step pg e).
Proof.
  unfold page_ok. intros [Hl Hu]. destruct e as [url failure name text|]; simpl.
  - rewrite Hl. simpl. split; [done|]. set_solver.
  - unfold timer_fires. destruct (pg_timers pg) as [|url l] eqn:Et; [by rewrite Et|]. simpl. split; [done|].
    intros u [Hin Hne]%list_elem_of_In%filter_In. apply list_elem_of_In, Hu in Hin. apply negb_true_iff, String.eqb_neq in Hne. set_solver.
Qed.

(** Whatever is downloaded, and whether the click throws, no link stays in the
    document and every object URL is revoked once its timer has fired; a
    download is never reported as saved or cancelled. *)
Theorem downloads_clean_up es :
  let pg := fold_left page_step es no_page in
  pg_links pg = [] ∧ pg_urls (Nat.iter (length (pg_timers pg)) timer_fires pg) = [] ∧
  (∀ url failure name text, (saveJson url failure name text pg).2 ≠ Saved ∧
     (saveJson url failure name text pg).2 ≠ SaveCancelled).
Proof.
  intros pg. assert (page_ok pg) as Hok.
  { unfold pg. assert (page_ok no_page) as H0 by (split; [done|set_solver]). revert H0. generalize no_page as q.
    induction es as [|e es IH]; intros q Hq; simpl; [done|]. by apply IH, page_step_ok. }
  split_and!; [apply Hok| |intros url [e|] name text; by split].
  assert (∀ n q, page_ok q → page_ok (Nat.iter n timer_fires q) ∧
    length (pg_timers (Nat.iter n timer_fires q)) = length (pg_timers q) - n) as Hn.
  { induction n as [|n IH]; intros q Hq; [simpl; split; [done|lia]|]. rewrite Nat.iter_succ. destruct (IH q Hq) as [H1 H2].
    split; [exact (page_step_ok _ Timer H1)|]. unfold timer_fires at 1.
    destruct (pg_timers (Nat.iter n timer_fires q)) as [|x l] eqn:E; simpl in *; rewrite ?E; simpl; lia. }
  destruct (Hn (length (pg_timers pg)) pg Hok) as [[_ Hu] Hl]. rewrite Nat.sub_diag in Hl. apply nil_length_inv in Hl.
  destruct (pg_urls (Nat.iter _ _ _)) as [|u l]; [done|]. exfalso. specialize (Hu u ltac:(set_solver)). rewrite Hl in Hu. set_solver.
Qed.
End downloads.

(** ** The dialogs over the contract *)

Section dialogs.
Context {W : Type} `{PlatformLaws W}.

(** On every platform that keeps the contract, the import dialog shows only a
    text that was there before or that a file holds, under the file's name,
    and the export dialog says that the file is saved only when a file holds
    the exported text. *)
Theorem dialogs_tell_the_truth w w' o name im ex outcome :
  opens w o → saves name (ex_text ex) w w' outcome →
  (im_text (handleOpenFile o im) = im_text im ∧ im_fileName (handleOpenFile o im) = im_fileName im ∨
   ∃ n, im_fileName (handleOpenFile o im) = Some n ∧ has_file w n (im_text (handleOpenFile o im))) ∧
  (ex_message (handleSave outcome ex) = "File saved." → ∃ n, has_file w' n (ex_text ex)) ∧
  (outcome = SaveCancelled → w' = w ∧ ex_error (handleSave outcome ex) = EmptyString).
Proof.
  intros Ho Hs. split_and!.
  - destruct o as [|n t|]; simpl; [by left| |by left]. right. exists n. split; [done|]. by apply open_reads.
  - destruct outcome; simpl; try done. intros _. by eapply saved_is_there.
  - intros ->. split; [|done]. by eapply cancelled_is_nothing.
Qed.
End dialogs.

(** ** A file saved on the desktop and opened again *)

(** On the desktop a workflow exported to a file and imported from it, in any
    store, has the steps, the id, the name and the positions it had. *)
Theorem desktop_file_roundtrip `{JsonTextLaws} `{Desktop.TauriLaws} st st0 d im picked name path fs fs' :
  let def := embedLayout (ws_definition st) (ws_layout st) (ws_edgeHandles st) in
  def_schema true def = true → json_wf (def_json def) = true →
  obj_wf (ws_layout st) = true → "__proto__" ∉ obj_keys (ws_layout st) → ex_includeLayout d = true →
  picked name = inl (Some path) →
  Desktop.saveJson picked name (ex_text (open_export st d)) fs = (fs', Saved) →
  let im' := handleOpenFile (Desktop.openJson (inl (Some path)) fs') (mkImportDialog true im None [] true) in
  let '(d', st', report) := handleSubmit im' st0 in
  im_open d' = false ∧ wd_steps (ws_definition st') = wd_steps (ws_definition st) ∧
  wd_id (ws_definition st') = wd_id (ws_definition st) ∧ wd_name (ws_definition st') = wd_name (ws_definition st) ∧
  ws_layout st' = ws_layout st.
Proof.
  intros def Hs Hw Hl Hp Hi Hpick Hsave. unfold Desktop.saveJson in Hsave. rewrite Hpick in Hsave.
  destruct (Desktop.writeTextFile fs path _) as [fs1 [e|]] eqn:Ew; simplify_eq.
  destruct (Desktop.write_named _ _ _ _ Ew) as [n Hn]. apply Desktop.write_read in Ew.
  unfold Desktop.openJson. rewrite Hn, Ew. cbn [handleOpenFile im_open].
  pose proof (export_then_import st st0 d (Some n) Hs Hw Hl Hp Hi) as He.
  cbv zeta in He |- *. destruct (handleSubmit _ _) as [[d' st'] report]. naive_solver.
Qed.

(** ** Witnesses *)

(** Files in a map from paths; a path is its own name, and the empty one cannot be written. *)
#[export] Instance map_tauri : Desktop.Tauri := {
  Desktop.Fs := gmap string string;
  Desktop.basename path := inl path;
  Desktop.readTextFile fs path := match fs !! path with Some text => inl text | None => inr "not found" end;
  Desktop.writeTextFile fs path text := if truthy_str path then (<[path := text]> fs, None) else (fs, Some "no path")
}.

#[export] Instance map_tauri_laws : Desktop.TauriLaws map_tauri.
Proof.
  split; simpl.
  - intros fs path text fs'. destruct (truthy_str path); [|done]. intros [= <-]. by rewrite lookup_insert_eq.
  - eauto.
Qed.

Definition saved_store : WorkflowState := setLayout "e" (mkPos (num_of_Z 5) (num_of_Z 7)) (edit tiny_def initialState).

Lemma dialogs_tell_the_truth_witness :
  let ex := open_export saved_store no_export in
  let fs : @Desktop.Fs map_tauri := (<["a.json" := ex_text ex]> ∅ : gmap string string) in
  ∃ n, has_file fs n (ex_text ex).
Proof.
  intros ex fs. pose (fs0 := (∅ : gmap string string) : @Desktop.Fs map_tauri).
  assert (saves "w.json" (ex_text ex) fs0 fs Saved) as Hs by (exists (λ _, inl (Some "a.json")); reflexivity).
  assert (opens fs0 FileCancelled) as Ho by (exists (inl None); reflexivity).
  apply (dialogs_tell_the_truth fs0 fs FileCancelled "w.json" no_import ex Saved Ho Hs). reflexivity.
Defined.

Lemma desktop_file_roundtrip_witness :
  let text := ex_text (open_export saved_store no_export) in
  let fs' : gmap string string := <["/tmp/w.json" := text]> ∅ in
  let im' := handleOpenFile (Desktop.openJson (inl (Some "/tmp/w.json")) fs') (mkImportDialog true EmptyString None [] true) in
  let '(d', st', report) := handleSubmit im' initialState in
  im_open d' = false ∧ wd_steps (ws_definition st') = wd_steps tiny_def.
Proof.
  intros text fs' im'. destruct (handleSubmit im' initialState) as [[d' st'] report] eqn:E.
  pose proof (desktop_file_roundtrip saved_store initialState no_export EmptyString (λ _, inl (Some "/tmp/w.json")) "w.json"
    "/tmp/w.json" ∅ fs') as H. cbv zeta in H. unfold im' in E. rewrite E in H.
  destruct H as (H1 & H2 & _); [vm_compute; reflexivity..|apply includes_false; vm_compute; reflexivity|reflexivity|reflexivity|reflexivity|].
  split; [exact H1|exact H2].
Defined.
