(* ===== verification/Toolbar.v ===== *)
(** * The toolbar (workflow-modeller/src/panels/Toolbar.tsx)

    The buttons that change the store, over the confirmation dialogs of
    [useDialogs]: a click that asks for a confirmation waits for its promise,
    and the handler goes on when the promise is resolved.  An upload is split
    at its [await]. *)

From S2P Require Import Prelude JsObject Types Graph Validate ImportExport Store Engine Dialogs.

(** ** Buttons *)

Definition blocksExport (st : WorkflowState) : bool := Nat.ltb 0 (vs_errors (useValidationSummary st)).

Definition blockingDiag (st : WorkflowState) : option Diagnostic :=
  List.find (λ d, bool_decide (d_severity d = SevError)) (vs_diagnostics (useValidationSummary st)).

(** ** The handlers *)

Inductive Ask := AskNew | AskUpload.

(** The request [confirm(message)] makes. *)
Definition confirm_request : Dialogs.Request := Dialogs.mkRequest KConfirm EmptyString (λ _, None).

Record Toolbar := mkToolbar {
  tb_dialog : DialogState;
  tb_waiting : list (nat * Ask);             (* handlers at their [await confirm(...)] *)
  tb_uploading : bool;
  tb_inflight : nat;                         (* uploads under way *)
  tb_reports : list (jsnum + string)         (* calls of onUploadResult: the version or the message *)
}.

Definition no_toolbar : Toolbar := mkToolbar no_dialog [] false 0 [].

(** Outcomes of [uploadToEngine]. *)
Inductive UploadOutcome :=
| UpDone (summary : UploadSummary)
| UpRejected (e : EngineError)
| UpOther (message : string).        (* another error *)

Abbreviation Bench := (Toolbar * WorkflowState)%type.

(** What a handler does once its confirmation is answered. *)
Definition resume_ask (ask : Ask) (confirmed : bool) (b : Bench) : Bench :=
  let '(t, st) := b in
  if negb confirmed then b
  else match ask with
       | AskNew => (t, newWorkflow st)
       | AskUpload => (mkToolbar (tb_dialog t) (tb_waiting t) true (S (tb_inflight t)) (tb_reports t), st)
       end.

Definition is_Some_b {A} (o : option A) : bool := match o with Some _ => true | None => false end.

(** A promise of the dialog is resolved: its handler goes on. *)
Definition resume (b : Bench) (resolved : nat * option string) : Bench :=
  let '(t, st) := b in
  match List.find (λ w, Nat.eqb w.1 resolved.1) (tb_waiting t) with
  | Some (i, ask) =>
      let t' := mkToolbar (tb_dialog t) (List.filter (λ w, negb (Nat.eqb w.1 i)) (tb_waiting t)) (tb_uploading t)
                  (tb_inflight t) (tb_reports t) in
      resume_ask ask (is_Some_b resolved.2) (t', st)
  | None => b
  end.

(** A step of the dialog and the handlers it wakes. *)
Definition dialog_run (e : DialogEvent) (b : Bench) : Bench :=
  let '(t, st) := b in
  let d := dialog_step e (tb_dialog t) in
  fold_left resume (drop (length (ds_log (tb_dialog t))) (ds_log d))
    (mkToolbar d (tb_waiting t) (tb_uploading t) (tb_inflight t) (tb_reports t), st).

(** [await confirm(...)] *)
Definition await_confirm (ask : Ask) (b : Bench) : Bench :=
  let '(t, st) := b in
  dialog_run (Show confirm_request)
    (mkToolbar (tb_dialog t) (tb_waiting t ++ [(ds_calls (tb_dialog t), ask)]) (tb_uploading t) (tb_inflight t)
       (tb_reports t), st).

Definition handleNewWorkflow (b : Bench) : Bench :=
  let '(t, st) := b in
  if (Nat.eqb (length (wd_steps (ws_definition st))) 0 && negb (ws_dirty st))%bool then (t, newWorkflow st)
  else await_confirm AskNew b.

Definition handleUpload (b : Bench) : Bench :=
  let '(t, st) := b in if tb_uploading t then b else await_confirm AskUpload b.

(** The rest of [handleUpload], after [uploadToEngine]. *)
Definition upload_end (now : Z) (o : UploadOutcome) (b : Bench) : Bench :=
  let '(t, st) := b in
  let '(st', report) :=
    match o with
    | UpDone summary => (upload_done now summary st, inl (us_version summary))
    | UpRejected e => (upload_failed now e st, inr (ee_message e))
    | UpOther message => (with_engine (with_status StError (ec_lastCheckedAt (ws_engine st)) (ws_engine st)) st, inr message)
    end in
  (mkToolbar (tb_dialog t) (tb_waiting t) false (tb_inflight t - 1) (tb_reports t ++ [report]), st').

Inductive ToolbarEvent :=
| TNew
| TUpload
| TValidate (now : Z)
| TDialog (e : DialogEvent)             (* typing, Cancel, OK in the open dialog *)
| TUploaded (now : Z) (o : UploadOutcome)
| TStore (change : WorkflowState → WorkflowState).

Definition toolbar_step (peg_message : string → string) (b : Bench) (e : ToolbarEvent) : Bench :=
  match e with
  | TNew => handleNewWorkflow b
  | TUpload => if (blocksExport b.2 || tb_uploading b.1)%bool then b else handleUpload b
  | TValidate now => (b.1, runValidation peg_message now b.2)
  | TDialog (Show _) | TDialog Unmount => b        (* only the handlers ask; the toolbar stays mounted *)
  | TDialog e => dialog_run e b
  | TUploaded now o => if Nat.ltb 0 (tb_inflight b.1) then upload_end now o b else b
  | TStore f => (b.1, f b.2)
  end.

Definition run_toolbar (peg_message : string → string) (es : list ToolbarEvent) (b : Bench) : Bench :=
  fold_left (toolbar_step peg_message) es b.

(** ** The invariant *)

(** The handlers that wait are waiting for the open dialog; one that waits to
    upload means that nothing is being uploaded, and one upload is under way
    exactly while the button says so. *)
Definition toolbar_ok (t : Toolbar) : Prop :=
  dialog_ok (tb_dialog t) ∧ (tb_waiting t).*1 = waiting (tb_dialog t) ∧
  tb_inflight t = (if tb_uploading t then 1 else 0) ∧
  (AskUpload ∈ (tb_waiting t).*2 → tb_uploading t = false).

(** The ways a user answers: nothing is resolved, or the open promise is. *)
Lemma answer_cases e s :
  match e with Show _ => False | _ => True end →
  (ds_log (dialog_step e s) = ds_log s ∧ waiting (dialog_step e s) = waiting s) ∨
  (∃ id v, waiting s = [id] ∧ ds_log (dialog_step e s) = ds_log s ++ [(id, v)] ∧ waiting (dialog_step e s) = []).
Proof.
  assert (∀ w, (ds_log (finish w s) = ds_log s ∧ waiting (finish w s) = waiting s) ∨
    (∃ id v, waiting s = [id] ∧ ds_log (finish w s) = ds_log s ++ [(id, v)] ∧ waiting (finish w s) = [])) as Hf.
  { intros w. unfold finish, waiting. simpl. destruct (ds_pending s) as [[id r]|]; [right; eauto|left]. by rewrite app_nil_r. }
  destruct e; cbn [dialog_step]; intros He; [done| | apply Hf | |apply Hf].
  - left. unfold waiting. by destruct (ds_pending s) as [[id r]|] eqn:E; simpl; rewrite ?E.
  - destruct (ds_pending s) as [[id r]|] eqn:E; [|by left]. case_match; [by left|].
    destruct (rq_validate r (ds_typed s)) as [c|]; [|apply Hf]. destruct (truthy_str c); [|apply Hf].
    left. unfold waiting. simpl. by rewrite E.
Qed.

Lemma waiting_lt s id : dialog_ok s → id ∈ waiting s → id < ds_calls s.
Proof.
  unfold dialog_ok. intros Hs Hin. assert (id ∈ seq 0 (ds_calls s)) as Hq by (rewrite <- Hs; apply elem_of_app; by right).
  apply elem_of_seq in Hq. lia.
Qed.

Lemma drop_log (l : list (nat * option string)) m : drop (length l) (l ++ m) = m.
Proof. by rewrite drop_app_length. Qed.

Lemma dialog_run_ok e b :
  match e with Show _ => False | _ => True end → toolbar_ok b.1 → toolbar_ok (dialog_run e b).1.
Proof.
  destruct b as [t st]. intros He (Hd & Hw & Hi & Hu). unfold dialog_run. simpl in *.
  pose proof (dialog_step_ok e (tb_dialog t) Hd) as Hd'.
  destruct (answer_cases e (tb_dialog t) He) as [[-> Hw']|(id & v & Hw1 & -> & Hw')].
  - rewrite drop_ge by done. simpl. unfold toolbar_ok. simpl. by rewrite Hw'.
  - rewrite drop_log. simpl. rewrite Hw1 in Hw. destruct (tb_waiting t) as [|[i ask] [|? ?]]; simplify_eq/=.
    rewrite Nat.eqb_refl. simpl. rewrite Nat.eqb_refl. simpl. destruct v as [v|]; simpl.
    + destruct ask; simpl; unfold toolbar_ok; simpl; rewrite ?Hw'.
      * split_and!; try done. set_solver.
      * rewrite (Hu ltac:(set_solver)) in Hi. rewrite Hi. split_and!; try done. set_solver.
    + unfold toolbar_ok. simpl. rewrite Hw'. split_and!; try done. set_solver.
Qed.

Lemma await_ok ask b :
  toolbar_ok b.1 → (ask = AskUpload → tb_uploading b.1 = false) → toolbar_ok (await_confirm ask b).1.
Proof.
  destruct b as [t st]. simpl. intros (Hd & Hw & Hi & Hu) Ha. unfold dialog_run. simpl.
  pose proof (dialog_step_ok (Show confirm_request) (tb_dialog t) Hd) as Hd'. simpl in Hd'. unfold show in *.
  destruct (ds_pending (tb_dialog t)) as [[id r]|] eqn:E; simpl.
  - rewrite drop_log. simpl. assert (waiting (tb_dialog t) = [id]) as Hwid by (unfold waiting; by rewrite E).
    rewrite Hwid in Hw. destruct (tb_waiting t) as [|[i ask'] [|? ?]]; simplify_eq/=.
    pose proof (waiting_lt (tb_dialog t) id Hd) as Hlt. rewrite Hwid in Hlt. specialize (Hlt ltac:(set_solver)).
    destruct (Nat.eqb_spec id (ds_calls (tb_dialog t))); [lia|]. simpl. rewrite Nat.eqb_refl. simpl.
    destruct (Nat.eqb_spec id (ds_calls (tb_dialog t))); [lia|]. simpl. rewrite Nat.eqb_refl. simpl.
    by split_and!.
  - rewrite drop_ge by done. simpl. unfold toolbar_ok. simpl. unfold waiting in *. simpl. rewrite E in Hw.
    apply fmap_nil_inv in Hw. rewrite Hw in *. simpl. split_and!; try done. intros [Heq|H0]%elem_of_cons; [|set_solver]. by apply Ha.
Qed.

Lemma toolbar_step_ok m b e : toolbar_ok b.1 → toolbar_ok (toolbar_step m b e).1.
Proof.
  intros Hb. destruct e as [| |now|e|now o|f]; simpl; try done.
  - unfold handleNewWorkflow. destruct b as [t st]. case_match; [done|]. by apply await_ok.
  - destruct (blocksExport b.2 || tb_uploading b.1)%bool eqn:E; [done|]. apply orb_false_iff in E as [_ E].
    destruct b as [t st]. cbn [fst] in E. unfold handleUpload. rewrite E. by apply await_ok.
  - by destruct e; try apply dialog_run_ok.
  - destruct (Nat.ltb_spec 0 (tb_inflight b.1)) as [Hlt|]; [|done]. destruct b as [t st]. destruct Hb as (Hd & Hw & Hi & Hu).
    unfold upload_end. simpl in *. assert (tb_inflight t = 1) as H1 by (destruct (tb_uploading t); lia).
    destruct o; simpl; rewrite H1; unfold toolbar_ok; simpl; split_and!; done.
Qed.

Lemma run_toolbar_ok m es b : toolbar_ok b.1 → toolbar_ok (run_toolbar m es b).1.
Proof. unfold run_toolbar. revert b. induction es as [|e es IH]; intros b Hb; simpl; [done|]. by apply IH, toolbar_step_ok. Qed.

(** ** Properties *)

(** However the buttons and the dialogs are clicked, at most one upload is
    under way, the button says so, and no handler waits for ever: the waiting
    ones are exactly those of the dialog that is open. *)
Theorem one_upload_at_a_time m es st :
  let t := (run_toolbar m es (no_toolbar, st)).1 in
  tb_inflight t ≤ 1 ∧ (tb_inflight t = 1 ↔ tb_uploading t = true) ∧ (tb_waiting t).*1 = waiting (tb_dialog t).
Proof.
  intros t. assert (toolbar_ok t) as (_ & Hw & Hi & _).
  { apply run_toolbar_ok. unfold toolbar_ok, dialog_ok. by simpl. }
  rewrite Hi. destruct (tb_uploading t); split_and!; try done; lia.
Qed.

(** Resolving a promise with null changes nothing. *)
Lemma resume_null b i : (resume b (i, None)).2 = b.2.
Proof. destruct b as [t st]. unfold resume. by destruct (List.find _ _) as [[j ask]|]. Qed.

Lemma await_store ask b : (await_confirm ask b).2 = b.2.
Proof.
  destruct b as [t st]. simpl. unfold dialog_run. simpl. unfold show. destruct (ds_pending (tb_dialog t)) as [[id r]|]; simpl.
  - rewrite drop_log. cbn [fold_left]. apply (resume_null (_, st)).
  - by rewrite drop_ge.
Qed.

(** Nothing is thrown away unasked: clicking New on a workflow with steps or
    unsaved changes leaves the store alone, and of all that can happen in a
    dialog only OK in the one New opened empties it, keeping the connection. *)
Theorem new_workflow_asks m b :
  toolbar_ok b.1 →
  ((wd_steps (ws_definition b.2) ≠ [] ∨ ws_dirty b.2 = true) → (toolbar_step m b TNew).2 = b.2) ∧
  (∀ e, (toolbar_step m b (TDialog e)).2 ≠ b.2 →
     e = Submit ∧ (∃ id, tb_waiting b.1 = [(id, AskNew)]) ∧
     (toolbar_step m b (TDialog e)).2 = newWorkflow b.2 ∧ ws_engine (newWorkflow b.2) = ws_engine b.2).
Proof.
  destruct b as [t st]. intros (Hd & Hw & _). split.
  - simpl. intros Hu. destruct (wd_steps (ws_definition st)) as [|s0 l] eqn:E; simpl.
    + destruct Hu as [?| ->]; [done|]. apply (await_store AskNew (t, st)).
    + apply (await_store AskNew (t, st)).
  - intros e Hne. assert (e = Submit) as ->.
    { destruct e; simpl in Hne; try done; exfalso; apply Hne; unfold dialog_run; simpl.
      - destruct (ds_pending (tb_dialog t)) as [[id r]|]; simpl; by rewrite drop_ge.
      - rewrite drop_log. destruct (ds_pending (tb_dialog t)) as [[id r]|]; [|done]. cbn [fold_left]. apply (resume_null (_, st)). }
    split; [done|]. cbn [toolbar_step] in *. unfold dialog_run in *. set (d := dialog_step Submit (tb_dialog t)) in *.
    destruct (answer_cases Submit (tb_dialog t) I) as [[El _]|(id & v & Hw1 & El & _)]; fold d in El; rewrite El in *.
    + by rewrite drop_ge in Hne.
    + rewrite drop_log in *. cbn [fold_left] in *. simpl in Hw. rewrite Hw1 in Hw.
      destruct (tb_waiting t) as [|[i ask] [|? ?]] eqn:Et; simplify_eq/=. rewrite Nat.eqb_refl in *. simpl in *.
      rewrite ?Nat.eqb_refl in *. simpl in *. destruct v as [v|]; simpl in *; [|done]. destruct ask; simpl in *; [|done]. eauto.
Qed.

Lemma blocksExport_false st :
  blocksExport st = false ↔ Forall (λ d, d_severity d ≠ SevError) (v_diagnostics (ws_validation st)).
Proof.
  unfold blocksExport. simpl. rewrite Nat.ltb_ge. unfold count_severity. rewrite Forall_forall.
  destruct (List.filter _ _) as [|d l] eqn:E; simpl.
  - split; [|lia]. intros _ d Hd Hs. assert (d ∈ @nil Diagnostic) as Hin; [|set_solver]. rewrite <- E.
    apply list_elem_of_In, filter_In. split; [by apply list_elem_of_In|]. by apply bool_decide_eq_true.
  - split; [lia|]. intros Hall. exfalso. assert (d ∈ d :: l) as Hin by set_solver. rewrite <- E in Hin.
    apply list_elem_of_In, filter_In in Hin as [Hin Hs]. apply bool_decide_eq_true in Hs. apply (Hall d); [by apply list_elem_of_In|done].
Qed.

(** Export and upload are offered after a validation exactly when it found no
    error, and the tooltip names the first one otherwise.  A rejection by the
    engine closes them for a workflow the editor finds nothing wrong with,
    until it is validated again. *)
Theorem export_gate m now st :
  (blocksExport (runValidation m now st) = false ↔ Forall (λ d, d_severity d ≠ SevError) (validate m (ws_definition st))) ∧
  (blocksExport st = true ↔ is_Some (blockingDiag st)) ∧
  (∀ e, ee_kind e = KHttp → is_4xx (ee_status e) = true → blocksExport (upload_failed now e st) = true) ∧
  (∀ e, ee_kind e ≠ KHttp ∨ is_4xx (ee_status e) = false → blocksExport (upload_failed now e st) = blocksExport st).
Proof.
  split_and!.
  - apply blocksExport_false.
  - rewrite <- not_false_iff_true, blocksExport_false. unfold blockingDiag. simpl. split.
    + intros Hn. destruct (List.find _ _) as [d|] eqn:E; [eauto|]. exfalso. apply Hn, Forall_forall. intros d Hd Hs.
      apply list_elem_of_In in Hd. pose proof (find_none _ _ E d Hd) as Hf. by rewrite bool_decide_eq_false in Hf.
    + intros [d Hd]. apply find_some in Hd as [Hin Hs]. apply bool_decide_eq_true in Hs. rewrite Forall_forall.
      intros Hall. by apply (Hall d); [apply list_elem_of_In|].
  - intros e Hk He. apply not_false_iff_true. rewrite blocksExport_false. unfold upload_failed.
    rewrite bool_decide_eq_true_2, He by done. simpl. rewrite Forall_app. intros [_ Hd]. by apply Forall_cons in Hd as [? _].
  - intros e He. unfold upload_failed. destruct (bool_decide_reflect (ee_kind e = KHttp)), (is_4xx (ee_status e)); simpl;
      by try (destruct He; congruence); case_match.
Qed.

(** A workflow started while another is being uploaded takes over its version
    and its source when the upload is answered. *)
Theorem new_workflow_gets_upload m now summary st :
  blocksExport st = false → ws_dirty st = true →
  let '(t, st') := run_toolbar m [TUpload; TDialog Submit; TNew; TDialog Submit; TUploaded now (UpDone summary)] (no_toolbar, st) in
  wd_steps (ws_definition st') = [] ∧ wd_version (ws_definition st') = Some (us_version summary) ∧
  ws_source st' = SrcEngine (us_id summary) (us_version summary) ∧ tb_reports t = [inl (us_version summary)].
Proof.
  intros Hb Hd. unfold run_toolbar. cbn [fold_left]. unfold toolbar_step at 5. simpl. rewrite Hb. simpl.
  unfold handleNewWorkflow. simpl. rewrite Hd, andb_false_r. simpl. done.
Qed.

(** ** Witnesses *)

Lemma new_workflow_asks_witness :
  (toolbar_step (λ s, s) (no_toolbar, edit tiny_def initialState) TNew).2 = edit tiny_def initialState.
Proof.
  apply (new_workflow_asks (λ s, s) (no_toolbar, edit tiny_def initialState)); [|right; reflexivity].
  unfold toolbar_ok, dialog_ok. by simpl.
Defined.

Lemma new_workflow_gets_upload_witness :
  let '(t, st') := run_toolbar (λ s, s)
    [TUpload; TDialog Submit; TNew; TDialog Submit; TUploaded 5 (UpDone (mkUploadSummary "w" (num_of_Z 4)))]
    (no_toolbar, edit tiny_def initialState) in
  wd_steps (ws_definition st') = [] ∧ wd_version (ws_definition st') = Some (num_of_Z 4).
Proof.
  destruct (run_toolbar _ _ _) as [t st'] eqn:E.
  pose proof (new_workflow_gets_upload (λ s, s) 5 (mkUploadSummary "w" (num_of_Z 4)) (edit tiny_def initialState)
    eq_refl eq_refl) as H. rewrite E in H. destruct H as (H1 & H2 & _). split; [exact H1|exact H2].
Defined.
