(* ===== verification/App.v ===== *)
(** * The application shell (workflow-modeller/src/App.tsx, panels/Banner.tsx)

    The state of [App], the calls its children make, the drag of the
    inspector's edge and the timer of a banner.  Every render of [App] makes a
    new [onDismiss], so the effect of [Banner] starts its timer again. *)

From S2P Require Import Prelude JsObject Types Graph ImportExport Store Engine Drafts DraftsDialog Panels EngineBrowser.

Open Scope Z_scope.

Record BannerState := mkBanner {
  bn_tone : Tone;
  bn_messages : list string;
  bn_floating : bool;
  bn_autoDismissMs : option Z
}.

Inductive View := VCanvas | VJson.

Inductive Dialog := DlgImport | DlgExport | DlgSettings | DlgBrowser | DlgDrafts.

#[export] Instance View_eq_dec : EqDecision View.
Proof. solve_decision. Defined.
#[export] Instance Dialog_eq_dec : EqDecision Dialog.
Proof. solve_decision. Defined.

Record App := mkApp {
  ap_open : list Dialog;                    (* the dialogs whose open flag is set *)
  ap_deleteTarget : option StepId;
  ap_banner : option BannerState;
  ap_sidebarOpen : bool;
  ap_view : View;
  ap_inspectorWidth : Z;
  ap_drag : option (Z * Z);                 (* dragRef: startX, startWidth *)
  ap_now : Z;                               (* ms *)
  ap_timer : option Z                       (* when the timer of the banner fires *)
}.

Definition initial_app : App := mkApp [] None None true VCanvas 320 None 0 None.

(** [if (!autoDismissMs || messages.length === 0) return;] *)
Definition dismiss_after (b : option BannerState) : option Z :=
  match b with
  | Some b =>
      match bn_autoDismissMs b, bn_messages b with
      | Some ms, _ :: _ => if ms =? 0 then None else Some ms
      | _, _ => None
      end
  | None => None
  end.

(** A render: the effect of [Banner] clears its timer and starts another. *)
Definition render (a : App) : App :=
  mkApp (ap_open a) (ap_deleteTarget a) (ap_banner a) (ap_sidebarOpen a) (ap_view a) (ap_inspectorWidth a) (ap_drag a)
    (ap_now a) (match dismiss_after (ap_banner a) with Some ms => Some (ap_now a + ms) | None => None end).

Definition set_banner (b : option BannerState) (a : App) : App :=
  match ap_banner a, b with
  | None, None => a                         (* null again: no render *)
  | _, _ => render (mkApp (ap_open a) (ap_deleteTarget a) b (ap_sidebarOpen a) (ap_view a) (ap_inspectorWidth a) (ap_drag a)
                      (ap_now a) (ap_timer a))
  end.

Definition set_dialog (d : Dialog) (open : bool) (a : App) : App :=
  if Bool.eqb (bool_decide (d ∈ ap_open a)) open then a
  else render (mkApp (if open then d :: ap_open a else List.filter (λ d', negb (bool_decide (d' = d))) (ap_open a))
         (ap_deleteTarget a) (ap_banner a) (ap_sidebarOpen a) (ap_view a) (ap_inspectorWidth a) (ap_drag a) (ap_now a) (ap_timer a)).

Definition set_delete (t : option StepId) (a : App) : App :=
  if bool_decide (t = ap_deleteTarget a) then a
  else render (mkApp (ap_open a) t (ap_banner a) (ap_sidebarOpen a) (ap_view a) (ap_inspectorWidth a) (ap_drag a)
         (ap_now a) (ap_timer a)).

Definition toggle_sidebar (a : App) : App :=
  render (mkApp (ap_open a) (ap_deleteTarget a) (ap_banner a) (negb (ap_sidebarOpen a)) (ap_view a) (ap_inspectorWidth a)
    (ap_drag a) (ap_now a) (ap_timer a)).

Definition set_view (v : View) (a : App) : App :=
  if bool_decide (v = ap_view a) then a
  else render (mkApp (ap_open a) (ap_deleteTarget a) (ap_banner a) (ap_sidebarOpen a) v (ap_inspectorWidth a) (ap_drag a)
         (ap_now a) (ap_timer a)).

(** ** The edge of the inspector *)

Definition set_drag (d : option (Z * Z)) (a : App) : App :=
  mkApp (ap_open a) (ap_deleteTarget a) (ap_banner a) (ap_sidebarOpen a) (ap_view a) (ap_inspectorWidth a) d
    (ap_now a) (ap_timer a).

Definition handleResizeStart (x : Z) (a : App) : App := set_drag (Some (x, ap_inspectorWidth a)) a.

Definition onMove (x : Z) (a : App) : App :=
  match ap_drag a with
  | None => a
  | Some (startX, startWidth) =>
      let width := Z.max 200 (startWidth + (startX - x)) in
      if width =? ap_inspectorWidth a then a
      else render (mkApp (ap_open a) (ap_deleteTarget a) (ap_banner a) (ap_sidebarOpen a) (ap_view a) width (ap_drag a)
             (ap_now a) (ap_timer a))
  end.

Definition onUp (a : App) : App := set_drag None a.

(** ** What the children report *)

Definition onUploadResult (ok : bool) (message : string) : App → App :=
  set_banner (Some (mkBanner (if ok then ToneInfo else ToneError) [message] false None)).

Definition onImportReport (r : ImportReport) : App → App :=
  match r with
  | Imported [] => set_banner None
  | Imported warnings => set_banner (Some (mkBanner ToneWarning warnings false None))
  | ImportRefused errors => set_banner (Some (mkBanner ToneError errors false None))
  end.

Definition onLoaded : App → App :=
  set_banner (Some (mkBanner ToneInfo ["Loaded definition from engine."] true (Some 3000))).

Definition onMessage (m : Tone * string) : App → App :=
  let info := match m.1 with ToneInfo => true | _ => false end in
  set_banner (Some (mkBanner m.1 [m.2] info (if info then Some 3000 else None))).

(** Time passes; a timer that is due dismisses the banner. *)
Definition wait (dt : Z) (a : App) : App :=
  let later now a := mkApp (ap_open a) (ap_deleteTarget a) (ap_banner a) (ap_sidebarOpen a) (ap_view a)
                       (ap_inspectorWidth a) (ap_drag a) now (ap_timer a) in
  match ap_timer a with
  | Some t => if t <=? ap_now a + dt then later (ap_now a + dt) (set_banner None (later t a)) else later (ap_now a + dt) a
  | None => later (ap_now a + dt) a
  end.

Inductive AppEvent :=
| AOpen (d : Dialog)
| AClose (d : Dialog)
| ADelete (t : option StepId)
| AUploadResult (ok : bool) (message : string)
| AImportReport (r : ImportReport)
| ALoaded
| AMessage (m : Tone * string)
| ADismiss
| ASidebar
| AView (v : View)
| AResizeStart (x : Z)
| AMove (x : Z)
| AUp
| AWait (dt : nat).

Definition app_step (a : App) (e : AppEvent) : App :=
  match e with
  | AOpen d => set_dialog d true a
  | AClose d => set_dialog d false a
  | ADelete t => set_delete t a
  | AUploadResult ok m => onUploadResult ok m a
  | AImportReport r => onImportReport r a
  | ALoaded => onLoaded a
  | AMessage m => onMessage m a
  | ADismiss => set_banner None a
  | ASidebar => toggle_sidebar a
  | AView v => set_view v a
  | AResizeStart x => handleResizeStart x a
  | AMove x => onMove x a
  | AUp => onUp a
  | AWait dt => wait (Z.of_nat dt) a
  end.

Definition run_app (es : list AppEvent) (a : App) : App := fold_left app_step es a.

(** ** The invariant *)

(** The timer runs exactly while a banner that goes by itself is shown, for at
    most its time; the inspector is never narrower than 200. *)
Definition app_ok (a : App) : Prop :=
  match ap_timer a with
  | Some t => ∃ ms, dismiss_after (ap_banner a) = Some ms ∧ ap_now a < t ≤ ap_now a + ms
  | None => dismiss_after (ap_banner a) = None
  end ∧
  200 ≤ ap_inspectorWidth a ∧
  match ap_banner a with Some b => match bn_autoDismissMs b with Some ms => 0 ≤ ms | None => True end | None => True end.

Lemma dismiss_after_pos b ms :
  match b with Some b => match bn_autoDismissMs b with Some ms => 0 ≤ ms | None => True end | None => True end →
  dismiss_after b = Some ms → 0 < ms.
Proof.
  unfold dismiss_after. intros Hb Hd. destruct b as [b|]; [|done]. destruct (bn_autoDismissMs b) as [n|]; [|done].
  destruct (bn_messages b); [done|]. destruct (Z.eqb_spec n 0); [done|]. simplify_eq. lia.
Qed.

Lemma render_ok a :
  200 ≤ ap_inspectorWidth a →
  match ap_banner a with Some b => match bn_autoDismissMs b with Some ms => 0 ≤ ms | None => True end | None => True end →
  app_ok (render a).
Proof.
  intros Hw Hb. split_and!; [|done|done]. simpl. destruct (dismiss_after (ap_banner a)) as [ms|] eqn:E; [|done].
  exists ms. split; [done|]. pose proof (dismiss_after_pos _ _ Hb E). lia.
Qed.

Lemma set_banner_ok b a :
  app_ok a → match b with Some b => match bn_autoDismissMs b with Some ms => 0 ≤ ms | None => True end | None => True end →
  app_ok (set_banner b a).
Proof. intros Ha Hb. unfold set_banner. destruct (ap_banner a) eqn:E, b; try done; apply render_ok; (done || apply Ha). Qed.

Lemma set_drag_ok d a : app_ok a → app_ok (set_drag d a).
Proof. done. Qed.

Lemma wait_ok dt a : 0 ≤ dt → app_ok a → app_ok (wait dt a).
Proof.
  intros Hdt (Ht & Hw & Hb). unfold wait. destruct (ap_timer a) as [t|] eqn:Et.
  - destruct Ht as (ms & Hms & Hlt). destruct (Z.leb_spec t (ap_now a + dt)).
    + unfold set_banner. simpl. destruct (ap_banner a) as [b|]; [|done]. done.
    + unfold app_ok. simpl. rewrite ?Et. split_and!; [|done|done]. exists ms. split; [done|lia].
  - unfold app_ok. simpl. rewrite ?Et. done.
Qed.

Lemma app_step_ok a e : app_ok a → app_ok (app_step a e).
Proof.
  intros Ha. pose proof Ha as (_ & Hw & Hb). destruct e; cbn [app_step].
  - unfold set_dialog. destruct (Bool.eqb _ _); [done|by apply render_ok].
  - unfold set_dialog. destruct (Bool.eqb _ _); [done|by apply render_ok].
  - unfold set_delete. destruct (bool_decide _); [done|by apply render_ok].
  - by apply set_banner_ok.
  - destruct r as [[|w ws]|]; by apply set_banner_ok.
  - by apply set_banner_ok.
  - apply set_banner_ok; [done|]. by destruct m as [[] s].
  - by apply set_banner_ok.
  - by apply render_ok.
  - unfold set_view. destruct (bool_decide _); [done|by apply render_ok].
  - done.
  - unfold onMove. destruct (ap_drag a) as [[x0 w0]|]; [|done]. destruct (_ =? _); [done|]. apply render_ok; simpl; [lia|done].
  - done.
  - apply wait_ok; [lia|done].
Qed.

Lemma run_app_ok es a : app_ok a → app_ok (run_app es a).
Proof. unfold run_app. revert a. induction es as [|e es IH]; intros a Ha; simpl; [done|]. by apply IH, app_step_ok. Qed.

(** ** Properties *)

(** Banners come and go as they should, in every state the shell can reach: one
    that is not meant to go by itself stays however long nothing happens; one
    that is goes within its time; and a new one always gets its full three
    seconds, whatever timer its predecessor had running. *)
Theorem banner_timing es :
  let a := run_app es initial_app in
  (∀ dt, dismiss_after (ap_banner a) = None → ap_banner (wait dt a) = ap_banner a) ∧
  (∀ ms, dismiss_after (ap_banner a) = Some ms → ap_banner (wait ms a) = None) ∧
  (∀ dt, dt < 3000 → ap_banner (wait dt (onLoaded a)) = ap_banner (onLoaded a)).
Proof.
  intros a. assert (app_ok a) as (Ht & _ & Hb) by (apply run_app_ok; by vm_compute). split_and!.
  - intros dt Hd. unfold wait. destruct (ap_timer a) as [t|]; [|done]. destruct Ht as (ms & Hms & _). congruence.
  - intros ms Hms. unfold wait. destruct (ap_timer a) as [t|]; [|congruence]. destruct Ht as (ms' & Hms' & Hle).
    replace ms' with ms in * by congruence. destruct (Z.leb_spec t (ap_now a + ms)); [|lia].
    unfold set_banner. simpl. by destruct (ap_banner a).
  - intros dt Hdt. unfold onLoaded, set_banner. destruct (ap_banner a); simpl; unfold wait; simpl;
      (destruct (Z.leb_spec (ap_now a + 3000) (ap_now a + dt)); [lia|done]).
Qed.

Definition is_move (e : AppEvent) : bool := match e with AMove _ | AWait _ => true | _ => false end.

Lemma wait_frame dt a : ap_inspectorWidth (wait dt a) = ap_inspectorWidth a ∧ ap_drag (wait dt a) = ap_drag a.
Proof. unfold wait, set_banner. destruct (ap_timer a); [|done]. case_match; [|done]. simpl. by destruct (ap_banner a). Qed.

Lemma drag_run es a x0 w0 :
  forallb is_move es = true → ap_drag a = Some (x0, w0) → ap_drag (run_app es a) = Some (x0, w0).
Proof.
  unfold run_app. revert a. induction es as [|e es IH]; intros a He Hd; simpl in *; [done|].
  apply andb_true_iff in He as [He Hes]. apply IH; [done|]. destruct e; try done; simpl.
  - unfold onMove. rewrite Hd. case_match; [done|]. done.
  - by rewrite (proj2 (wait_frame _ _)).
Qed.

(** The inspector is never narrower than 200, and while its edge is dragged its
    width depends on where the pointer is, not on the way it took. *)
Theorem inspector_width es x0 x moves :
  let a := run_app es initial_app in
  200 ≤ ap_inspectorWidth a ∧
  (forallb is_move moves = true →
   ap_inspectorWidth (run_app (AResizeStart x0 :: moves ++ [AMove x]) a) = Z.max 200 (ap_inspectorWidth a + (x0 - x))).
Proof.
  intros a. split; [apply (run_app_ok es initial_app); by vm_compute|]. intros Hm. unfold run_app. simpl.
  rewrite fold_left_app. simpl. set (a' := fold_left app_step moves _).
  assert (ap_drag a' = Some (x0, ap_inspectorWidth a)) as Hd by (by apply (drag_run moves)).
  unfold onMove. rewrite Hd. destruct (Z.eqb_spec (Z.max 200 (ap_inspectorWidth a + (x0 - x))) (ap_inspectorWidth a')); done.
Qed.
