(* ===== verification/ValidationPanel.v ===== *)
(** * The validation panel (workflow-modeller/src/panels/ValidationPanel.tsx)

    What the panel shows of the last validation and what a click on a line
    does.  Moving the viewport to the step is left to the canvas library. *)

From S2P Require Import Prelude JsObject Types Validate Store.

Definition VISIBLE_LIMIT : nat := 50.

Definition code_str (c : DiagnosticCode) : string :=
  match c with
  | ID_FORMAT => "ID_FORMAT" | NAME_REQUIRED => "NAME_REQUIRED" | STEPS_NONEMPTY => "STEPS_NONEMPTY"
  | STEP_ID_UNIQUE => "STEP_ID_UNIQUE" | STEP_ID_REQUIRED => "STEP_ID_REQUIRED" | STEP_TYPE_VALID => "STEP_TYPE_VALID"
  | NEXT_WORKFLOW_CONSISTENCY => "NEXT_WORKFLOW_CONSISTENCY" | DECISION_HAS_BRANCHES => "DECISION_HAS_BRANCHES"
  | TRANSFORMATION_HAS_NEXT => "TRANSFORMATION_HAS_NEXT" | TRANSFORMATION_HAS_ENTRIES => "TRANSFORMATION_HAS_ENTRIES"
  | WAIT_HAS_NEXT => "WAIT_HAS_NEXT" | PARALLEL_MIN_BRANCHES => "PARALLEL_MIN_BRANCHES"
  | PARALLEL_HAS_JOIN => "PARALLEL_HAS_JOIN" | JOIN_HAS_NEXT => "JOIN_HAS_NEXT" | REF_RESOLVES => "REF_RESOLVES"
  | ALL_REACHABLE => "ALL_REACHABLE" | END_REACHABLE => "END_REACHABLE" | BOUNDARY_TYPE => "BOUNDARY_TYPE"
  | BOUNDARY_DURATION => "BOUNDARY_DURATION" | BOUNDARY_TARGET_RESOLVES => "BOUNDARY_TARGET_RESOLVES"
  | BOUNDARY_PARENT_SUPPORTS => "BOUNDARY_PARENT_SUPPORTS" | NO_NESTED_PARALLEL => "NO_NESTED_PARALLEL"
  | DECISION_EXPR_SYNTAX => "DECISION_EXPR_SYNTAX" | DECISION_EXPR_NON_BOOLEAN => "DECISION_EXPR_NON_BOOLEAN"
  | DECISION_EXPR_UNKNOWN_IDENT => "DECISION_EXPR_UNKNOWN_IDENT" | DECISION_EXPR_REFS => "DECISION_EXPR_REFS"
  | TRANSFORMATION_EXPR_SYNTAX => "TRANSFORMATION_EXPR_SYNTAX" | UNKNOWN_FIELDS_PRESENT => "UNKNOWN_FIELDS_PRESENT"
  | GRAPH_CYCLE => "GRAPH_CYCLE" | DECISION_TABLE_HAS_RULES => "DECISION_TABLE_HAS_RULES"
  | DECISION_TABLE_HAS_NEXT => "DECISION_TABLE_HAS_NEXT"
  | DECISION_TABLE_HIT_POLICY_UNKNOWN => "DECISION_TABLE_HIT_POLICY_UNKNOWN"
  | DECISION_TABLE_AGGREGATOR_ON_NON_C => "DECISION_TABLE_AGGREGATOR_ON_NON_C"
  | DECISION_TABLE_LEGACY_THEN => "DECISION_TABLE_LEGACY_THEN"
  | DECISION_TABLE_LEGACY_DEFAULT_NEXT_STEP => "DECISION_TABLE_LEGACY_DEFAULT_NEXT_STEP"
  | DECISION_TABLE_UNREACHABLE_RULE => "DECISION_TABLE_UNREACHABLE_RULE" | DT_CELL_EXPR_SYNTAX => "DT_CELL_EXPR_SYNTAX"
  | DT_CELL_EXPR_NON_BOOLEAN => "DT_CELL_EXPR_NON_BOOLEAN" | DT_CELL_EXPR_UNKNOWN_IDENT => "DT_CELL_EXPR_UNKNOWN_IDENT"
  | DT_OUTPUT_EXPR_SYNTAX => "DT_OUTPUT_EXPR_SYNTAX" | STEP_FIELD_INVALID => "STEP_FIELD_INVALID"
  end.

Definition diagnosticKey (d : Diagnostic) (i : nat) : string :=
  js_join "|" [code_str (d_code d); default "root" (d_nodeId d); default EmptyString (d_field d);
               default EmptyString (d_branchKey d);
               match d_boundaryIndex d with Some n => str_of_nat n | None => EmptyString end; str_of_nat i].

Record DiagnosticRow := mkRow {
  rw_key : string;
  rw_code : string;
  rw_node : option StepId;
  rw_message : string;
  rw_disabled : bool
}.

Definition row (p : nat * Diagnostic) : DiagnosticRow :=
  let d := p.2 in
  mkRow (diagnosticKey d p.1) (code_str (d_code d)) (if truthy_ostr (d_nodeId d) then d_nodeId d else None) (d_message d)
    (negb (truthy_ostr (d_nodeId d))).

Record DiagnosticGroup := mkGroup { gr_title : string; gr_rows : list DiagnosticRow; gr_more : option nat }.

Definition renderGroup (title : string) (items : list Diagnostic) : option DiagnosticGroup :=
  match items with
  | [] => None
  | _ => Some (mkGroup title (row <$> indexed (take VISIBLE_LIMIT items))
                 (if Nat.ltb VISIBLE_LIMIT (length items) then Some (length items - VISIBLE_LIMIT) else None))
  end.

Definition errorEntries (ds : list Diagnostic) : list Diagnostic := List.filter (λ d, bool_decide (d_severity d = SevError)) ds.
Definition warningEntries (ds : list Diagnostic) : list Diagnostic := List.filter (λ d, bool_decide (d_severity d = SevWarning)) ds.

Record ValidationView := mkView {
  vv_errors : nat;
  vv_warnings : nat;
  vv_passed : bool;                      (* "Workflow passed every validation rule." *)
  vv_groups : list DiagnosticGroup
}.

Definition ValidationPanel (collapsed : bool) (st : WorkflowState) : ValidationView :=
  let s := useValidationSummary st in
  let ds := vs_diagnostics s in
  mkView (vs_errors s) (vs_warnings s)
    (negb collapsed && match ds with [] => true | _ => false end &&
     match vs_lastRunAt s with Some _ => true | None => false end)
    (if collapsed then []
     else option_list (renderGroup "Errors" (errorEntries ds)) ++ option_list (renderGroup "Warnings" (warningEntries ds))).

(** [focus(d)]: the selection; a line without a step does nothing. *)
Definition focus (d : Diagnostic) (st : WorkflowState) : WorkflowState :=
  match d_nodeId d with
  | Some id => if truthy_str id then select (SelStep id) st else st
  | None => st
  end.

(** ** Properties *)

Lemma diagnosticKey_tail d i : ∃ x, diagnosticKey d i = x ⊕ String "|" (str_of_nat i).
Proof.
  unfold diagnosticKey, js_join. cbn [String.concat]. eexists. rewrite <- !str_app_assoc. rewrite str_app_assoc. reflexivity.
Qed.

Lemma diagnosticKey_inj d d' i j : diagnosticKey d i = diagnosticKey d' j → i = j.
Proof.
  destruct (diagnosticKey_tail d i) as [x ->], (diagnosticKey_tail d' j) as [y ->]. intros Hk.
  apply tail_inj in Hk as [_ Hk]; [by apply str_of_nat_inj|by apply str_of_nat_chars..].
Qed.

Lemma row_keys_distinct (l : list Diagnostic) : NoDup (rw_key <$> (row <$> indexed l)).
Proof.
  apply NoDup_alt. intros i j k. unfold indexed. rewrite !list_lookup_fmap, !list_lookup_imap.
  destruct (l !! i) as [d|], (l !! j) as [d'|]; simpl; try done. intros [= <-] [= Hk]. symmetry. by eapply diagnosticKey_inj.
Qed.

Lemma group_complete title items g :
  renderGroup title items = Some g →
  length (gr_rows g) + default 0 (gr_more g) = length items ∧ NoDup (rw_key <$> gr_rows g) ∧
  (∀ i d, items !! i = Some d → i < VISIBLE_LIMIT →
     ∃ r, gr_rows g !! i = Some r ∧ rw_message r = d_message d ∧ rw_code r = code_str (d_code d)).
Proof.
  unfold renderGroup. destruct items as [|d0 items]; [done|]. remember (d0 :: items) as l. intros [= <-]. cbn [gr_rows gr_more].
  split_and!.
  - rewrite length_fmap. unfold indexed. rewrite length_imap, length_take.
    destruct (Nat.ltb_spec VISIBLE_LIMIT (length l)); cbn [from_option id]; lia.
  - apply row_keys_distinct.
  - intros i d Hi Hlt. exists (row (i, d)). split; [|done]. unfold indexed.
    by rewrite list_lookup_fmap, list_lookup_imap, lookup_take_lt, Hi by done.
Qed.

Lemma group_exists title items : items ≠ [] → is_Some (renderGroup title items).
Proof. destruct items; [done|]. by eexists. Qed.

(** The open panel accounts for every diagnostic of the last run: each group
    lists its first fifty in order, counts the rest, agrees with the number in
    the header and gives every line a key of its own; and a workflow is called
    sound exactly when it was checked and nothing at all was found. *)
Theorem panel_accounts st :
  let v := ValidationPanel false st in
  let ds := v_diagnostics (ws_validation st) in
  (∀ title items, (title, items) = ("Errors", errorEntries ds) ∨ (title, items) = ("Warnings", warningEntries ds) → items ≠ [] →
     ∃ g, g ∈ vv_groups v ∧ gr_title g = title ∧ length (gr_rows g) + default 0 (gr_more g) = length items ∧
       NoDup (rw_key <$> gr_rows g) ∧
       (∀ i d, items !! i = Some d → i < VISIBLE_LIMIT →
          ∃ r, gr_rows g !! i = Some r ∧ rw_message r = d_message d ∧ rw_code r = code_str (d_code d))) ∧
  vv_errors v = length (errorEntries ds) ∧ vv_warnings v = length (warningEntries ds) ∧
  (vv_passed v = true ↔ ds = [] ∧ is_Some (v_lastRunAt (ws_validation st))).
Proof.
  intros v ds. split_and!; [|done|done|].
  - intros title items Hti Hne. destruct (group_exists title items Hne) as [g Hg].
    destruct (group_complete _ _ _ Hg) as (? & ? & ?). exists g. split_and!; try done.
    + unfold v, ValidationPanel. cbn [vv_groups]. destruct Hti as [[= -> ->]|[= -> ->]]; fold ds in Hg |- *; simpl in Hg |- *;
        fold ds; rewrite Hg; set_solver.
    + unfold renderGroup in Hg. destruct items; [done|]. by simplify_eq.
  - unfold v, ValidationPanel. simpl. fold ds. destruct ds, (v_lastRunAt (ws_validation st)); simpl; naive_solver.
Qed.

(** Clicking a line selects the step it is about, and nothing else. *)
Theorem focus_selects d st :
  ws_definition (focus d st) = ws_definition st ∧ ws_validation (focus d st) = ws_validation st ∧
  ws_dirty (focus d st) = ws_dirty st ∧
  (rw_disabled (row (0, d)) = false → ∃ id, d_nodeId d = Some id ∧ ws_selection (focus d st) = SelStep id).
Proof.
  unfold focus, row. simpl. destruct (d_nodeId d) as [id|]; simpl; [|naive_solver]. destruct (truthy_str id); simpl; naive_solver.
Qed.
