(* ===== verification/Inspector.v ===== *)
(** * The inspector and the palette
    (workflow-modeller/src/panels/PropertyPanel.tsx, Palette.tsx)

    Which form the inspector shows, the fields of the workflow itself, and the
    step types the palette offers. *)

From S2P Require Import Prelude JsObject Types Graph Rename RenameValid Validate Schema ImportExport Store StoreProps StoreInv Forms.

(** ** The palette *)

Inductive PaletteShape := ShRect | ShCircle | ShDiamond | ShDiamondSm.

Definition STEP_META (t : StepType) : string * string * PaletteShape :=
  match t with
  | SERVICE_TASK => ("Service Task", "--step-service-task", ShRect)
  | USER_TASK => ("User Task", "--step-user-task", ShRect)
  | DECISION => ("Decision", "--step-decision", ShDiamond)
  | DECISION_TABLE => ("Decision Table", "--step-decision-table", ShRect)
  | TRANSFORMATION => ("Transformation", "--step-transformation", ShRect)
  | WAIT => ("Wait", "--step-wait", ShCircle)
  | PARALLEL_GATEWAY => ("Parallel Gateway", "--step-parallel-gateway", ShDiamondSm)
  | JOIN_GATEWAY => ("Join Gateway", "--step-join-gateway", ShDiamondSm)
  | END_ => ("End", "--step-end", ShRect)
  end.

Definition STEP_TYPES : list StepType :=
  [SERVICE_TASK; USER_TASK; DECISION; DECISION_TABLE; TRANSFORMATION; WAIT; PARALLEL_GATEWAY; JOIN_GATEWAY; END_].

(** A click on an entry. *)
Definition palette_click (t : StepType) (st : WorkflowState) : option (WorkflowState * StepId) :=
  addStep (mkTemplate t None None) st.

(** ** The inspector *)

(** The step whose form is shown; the fields of the workflow otherwise. *)
Definition inspected (st : WorkflowState) : option Step :=
  match ws_selection st with
  | SelStep id => List.find (λ s, String.eqb (step_id s) id) (wd_steps (ws_definition st))
  | _ => None
  end.

Definition panel_heading (st : WorkflowState) : string :=
  match inspected st with Some step => "Step · " ⊕ step_type step | None => "Workflow" end.

(** ** The fields of the workflow *)

Definition no_patch : DefPatch := mkPatch None None None None None None None None [].

(** [v || undefined] *)
Definition text_or_undefined (v : string) : option string := if truthy_str v then Some v else None.

Inductive DefinitionField :=
| FieldId (v : string)
| FieldName (v : string)
| FieldDescription (v : string)
| FieldAutoStart (checked : bool)
| FieldNextWorkflow (v : string)
| FieldEntryStep (v : string).

(** What committing a field does; the picker of the entry step does nothing. *)
Definition commit_field (f : DefinitionField) (st : WorkflowState) : WorkflowState :=
  match f with
  | FieldId v => setDefinitionMeta (mkPatch (Some v) None None None None None None None []) st
  | FieldName v => setDefinitionMeta (mkPatch None None (Some v) None None None None None []) st
  | FieldDescription v => setDefinitionMeta (mkPatch None None None (Some (text_or_undefined v)) None None None None []) st
  | FieldAutoStart c =>
      setDefinitionMeta (mkPatch None None None None (Some (if c then Some true else None)) None None None []) st
  | FieldNextWorkflow v => setDefinitionMeta (mkPatch None None None None None (Some (text_or_undefined v)) None None []) st
  | FieldEntryStep _ => st
  end.

(** What the fields show. *)
Definition field_values (d : WorkflowDefinition) : string * string * string * bool * string * option StepId :=
  (wd_id d, wd_name d, default EmptyString (wd_description d), default false (wd_autoStartNextWorkflow d),
   default EmptyString (wd_nextWorkflowId d), step_id <$> head (wd_steps d)).

(** ** Properties *)

Lemma find_renamed o n l l' s :
  Forall2 (renamed_step o n) l l' → n ∉ step_id <$> l → List.find (λ s, String.eqb (step_id s) o) l = Some s →
  ∃ s', List.find (λ s, String.eqb (step_id s) n) l' = Some s' ∧ renamed_step o n s s'.
Proof.
  induction 1 as [|x x' l l' Hx Hl IH]; [done|]. rewrite fmap_cons, not_elem_of_cons. intros [Hne Hn]. simpl.
  pose proof Hx as [Hid _]. rewrite Hid. destruct (String.eqb_spec (step_id x) o) as [<-|Ho].
  - intros [= <-]. rewrite remap_old, String.eqb_refl. eauto.
  - rewrite remap_ne by done. destruct (String.eqb_spec (step_id x) n); [done|]. by apply IH.
Qed.

(** A rename in the inspector does not lose its place: the form shown
    afterwards is that of the renamed step. *)
Theorem rename_keeps_panel step newId st :
  store_ok st → inspected st = Some step → js_trim newId ≠ EmptyString →
  js_trim newId ∉ step_ids (ws_definition st) →
  ∃ st' s', handleRename step newId st = Ok (st', None) ∧ inspected st' = Some s' ∧
    step_id s' = js_trim newId ∧ step_type s' = step_type step.
Proof.
  intros Hok Hi Hne Hn. unfold inspected in Hi. destruct (ws_selection st) as [|id|]; [done| |done].
  assert (step_id step = id) as Hid by (apply find_some in Hi as [_ Hi]; by apply String.eqb_eq).
  assert (step_id step ∈ step_ids (ws_definition st)) as Hin.
  { apply find_some in Hi as [Hi _]. unfold step_ids. by apply list_elem_of_fmap_2, list_elem_of_In. }
  unfold handleRename. destruct (String.eqb_spec (js_trim newId) EmptyString); [done|].
  destruct (String.eqb_spec (js_trim newId) (step_id step)) as [E|Hnid]; [congruence|]. simpl.
  destruct (renameStep_cases (step_id step) (js_trim newId) st Hok ltac:(done)) as [(_ & l & Hl & ->)|[? _]]; [|done].
  destruct (find_renamed _ _ _ _ step Hl Hn) as (s' & Hs' & Hr); [by rewrite Hid|].
  eexists _, s'. split; [done|]. unfold inspected. simpl. split; [done|].
  destruct Hr as (Hid' & Hty & _). by rewrite Hid', remap_old.
Qed.

(** The form of an END step loses it: after a rename the selection still names
    the old id, and the inspector shows the workflow. *)
Theorem end_rename_loses_panel step v st :
  store_ok st → inspected st = Some step → v ∉ step_ids (ws_definition st) →
  ∃ st', end_form_rename step v st = Ok st' ∧ v ∈ step_ids (ws_definition st') ∧
    inspected st' = None ∧ panel_heading st' = "Workflow".
Proof.
  intros Hok Hi Hn. pose proof Hi as Hi'. unfold inspected in Hi. destruct (ws_selection st) as [|id|] eqn:Es; [done| |done].
  assert (step_id step = id) as Hid by (apply find_some in Hi as [_ Hi]; by apply String.eqb_eq).
  assert (step_id step ∈ step_ids (ws_definition st)) as Hin.
  { apply find_some in Hi as [Hi _]. unfold step_ids. by apply list_elem_of_fmap_2, list_elem_of_In. }
  unfold end_form_rename. destruct (String.eqb_spec v (step_id step)) as [|Hv]; [congruence|].
  destruct (renameStep_cases (step_id step) v st Hok ltac:(done)) as [(_ & l & Hl & ->)|[? _]]; [|done].
  eexists. split; [done|].
  assert (step_id <$> l = remap (step_id step) v <$> step_ids (ws_definition st)) as Hids by (by apply renamed_ids).
  split.
  - unfold step_ids at 1. simpl. rewrite Hids. rewrite <- (remap_old (step_id step) v) at 1. by apply list_elem_of_fmap_2.
  - assert (inspected (edit (with_steps l (ws_definition st)) st) = None) as Hnone.
    { unfold inspected. simpl. rewrite Es. destruct (List.find _ l) as [s'|] eqn:Ef; [|done]. exfalso.
      apply find_some in Ef as [Hin' He]. apply String.eqb_eq in He.
      assert (step_id s' ∈ step_id <$> l) as Hm by (by apply list_elem_of_fmap_2, list_elem_of_In).
      rewrite Hids in Hm. apply list_elem_of_fmap in Hm as (x & Hx & _). rewrite He, <- Hid in Hx.
      destruct (decide (x = step_id step)) as [->|Hxo]; [rewrite remap_old in Hx; congruence|].
      rewrite remap_ne in Hx by done. congruence. }
    unfold panel_heading. by rewrite Hnone.
Qed.

(** Committing a field of the workflow changes that member and marks the
    workflow changed; what the field then shows is what was committed, an empty
    text and an unticked box standing for a missing member.  The entry step
    cannot be chosen: its picker has no effect. *)
Theorem definition_fields f st :
  let d := ws_definition st in
  let d' := ws_definition (commit_field f st) in
  wd_steps d' = wd_steps d ∧ wd_version d' = wd_version d ∧ wd_metadata d' = wd_metadata d ∧ wd_extra d' = wd_extra d ∧
  match f with
  | FieldEntryStep _ => commit_field f st = st
  | _ => ws_dirty (commit_field f st) = true
  end ∧
  field_values d' =
  match f, field_values d with
  | FieldId v, (_, b, c, e, g, h) => (v, b, c, e, g, h)
  | FieldName v, (a, _, c, e, g, h) => (a, v, c, e, g, h)
  | FieldDescription v, (a, b, _, e, g, h) => (a, b, v, e, g, h)
  | FieldAutoStart v, (a, b, c, _, g, h) => (a, b, c, v, g, h)
  | FieldNextWorkflow v, (a, b, c, e, _, h) => (a, b, c, e, v, h)
  | FieldEntryStep _, shown => shown
  end.
Proof.
  destruct f as [v|v|v|c|v|v]; simpl; split_and!; try done; unfold field_values; simpl; unfold text_or_undefined.
  - destruct v; done.
  - destruct c; done.
  - destruct v; done.
Qed.

(** The palette offers every type of step once, and a click appends one of
    that type under a fresh id. *)
Theorem palette_complete t st :
  NoDup STEP_TYPES ∧ t ∈ STEP_TYPES ∧
  ∃ st' s, palette_click t st = Some (st', step_id s) ∧ step_type s = step_type_str t ∧
    step_id s ∉ step_ids (ws_definition st) ∧
    wd_steps (ws_definition st') = wd_steps (ws_definition st) ++ [s] ∧ ws_dirty st' = true.
Proof.
  split; [by apply (bool_decide_unpack (NoDup STEP_TYPES)); vm_compute|]. split; [destruct t; set_solver|].
  destruct (addStep_spec (mkTemplate t None None) st) as (st' & s & Ha & Hid & Hty & ->). eauto 10.
Qed.

(** ** Witnesses *)

Definition viewing_end : WorkflowState := select (SelStep "done") (edit order_def initialState).

Lemma rename_keeps_panel_witness :
  ∃ st' s', handleRename (EndStep (common "done" "Done")) " finished " viewing_end = Ok (st', None) ∧
    inspected st' = Some s' ∧ step_id s' = "finished".
Proof.
  destruct (rename_keeps_panel (EndStep (common "done" "Done")) " finished " viewing_end) as (st' & s' & H1 & H2 & H3 & _).
  - unfold store_ok, steps_ok. repeat constructor.
  - reflexivity.
  - vm_compute. discriminate.
  - apply includes_false. vm_compute. reflexivity.
  - exists st', s'. split; [exact H1|]. split; [exact H2|exact H3].
Defined.

Lemma end_rename_loses_panel_witness :
  ∃ st', end_form_rename (EndStep (common "done" "Done")) "finished" viewing_end = Ok st' ∧ inspected st' = None.
Proof.
  destruct (end_rename_loses_panel (EndStep (common "done" "Done")) "finished" viewing_end) as (st' & H1 & _ & H2 & _).
  - unfold store_ok, steps_ok. repeat constructor.
  - reflexivity.
  - apply includes_false. vm_compute. reflexivity.
  - exists st'. split; [exact H1|exact H2].
Defined.
