(* ===== verification/Transport.v ===== *)
(** * The gRPC transport and the metrics of the SDK
    (workflow-sdk-node/src/client/grpc.ts, client/rest.ts, metrics/metrics.ts)

    [callUnary] as the sequence of what happens to it: the abort of the signal
    and the reply of the stub, some of it while the stub is being called.  The
    stub itself and prom-client are outside; a gauge is the number it holds. *)

From S2P Require Import Prelude JsObject ImportExport Callback.

(** ** A unary call *)

Module Unary.
Section unary.
Context {T E : Type}.

Inductive Outcome := Resolved (res : T) | Rejected (err : E) | RejectedReason.

Record Call := mkCall {
  uc_started : bool;               (* the stub was called *)
  uc_aborted : bool;               (* signal.aborted *)
  uc_listening : bool;             (* the abort listener is registered *)
  uc_call : bool;                  (* [call] is assigned *)
  uc_cancels : nat;                (* calls of call.cancel() *)
  uc_promise : option Outcome
}.

Inductive Event := Abort | Reply (r : T + E).

(** A promise is settled by the first [resolve] or [reject]. *)
Definition settle (o : Outcome) (c : Call) : Call :=
  mkCall (uc_started c) (uc_aborted c) (uc_listening c) (uc_call c) (uc_cancels c)
    (match uc_promise c with Some p => Some p | None => Some o end).

Definition unlisten (c : Call) : Call :=
  mkCall (uc_started c) (uc_aborted c) false (uc_call c) (uc_cancels c) (uc_promise c).

Definition cancel (c : Call) : Call :=
  mkCall (uc_started c) (uc_aborted c) (uc_listening c) (uc_call c) (S (uc_cancels c)) (uc_promise c).

(** The [abort] listener, registered with [once]. *)
Definition on_abort (c : Call) : Call :=
  settle RejectedReason (unlisten (if uc_call c then cancel c else c)).

Definition event (c : Call) (e : Event) : Call :=
  match e with
  | Abort =>
      if uc_aborted c then c
      else let c := mkCall (uc_started c) true (uc_listening c) (uc_call c) (uc_cancels c) (uc_promise c) in
           if uc_listening c then on_abort c else c
  | Reply (inl res) => settle (Resolved res) (unlisten c)
  | Reply (inr err) => settle (Rejected err) (unlisten c)
  end.

(** The executor of the promise: [during] happens inside the call of the stub,
    which returns the call or throws. *)
Definition start (aborted : bool) (during : list Event) (throws : option E) : Call :=
  if aborted then mkCall false true false false 0 (Some RejectedReason)
  else
    let c := fold_left event during (mkCall true false true false 0 None) in
    match throws with
    | Some err => settle (Rejected err) (unlisten c)
    | None =>
        let c := mkCall (uc_started c) (uc_aborted c) (uc_listening c) true (uc_cancels c) (uc_promise c) in
        if uc_aborted c then cancel c else c
    end.

Definition callUnary (aborted : bool) (during : list Event) (throws : option E) (after : list Event) : Call :=
  fold_left event after (start aborted during throws).

(** ** A reference: the first thing that happens decides *)

Definition event_outcome (e : Event) : Outcome :=
  match e with Abort => RejectedReason | Reply (inl res) => Resolved res | Reply (inr err) => Rejected err end.

Definition first_outcome (aborted : bool) (during : list Event) (throws : option E) (after : list Event) : option Outcome :=
  if aborted then Some RejectedReason
  else match during, throws, after with
       | e :: _, _, _ => Some (event_outcome e)
       | [], Some err, _ => Some (Rejected err)
       | [], None, e :: _ => Some (event_outcome e)
       | [], None, [] => None
       end.

Definition is_abort (e : Event) : bool := match e with Abort => true | Reply _ => false end.

(** When the call is cancelled: the stub returned it and the signal was aborted
    meanwhile, even after a reply, or it is aborted before anything else
    happens. *)
Definition cancelled (aborted : bool) (during : list Event) (throws : option E) (after : list Event) : bool :=
  match aborted, throws with
  | false, None => existsb is_abort during || match during, after with [], Abort :: _ => true | _, _ => false end
  | _, _ => false
  end.

(** The listener is there exactly while the promise is pending. *)
Definition tidy (c : Call) : Prop :=
  (uc_listening c = true ↔ uc_promise c = None) ∧ (uc_aborted c = true → uc_listening c = false).

Lemma event_tidy c e : tidy c → tidy (event c e).
Proof.
  intros [Ht Ha]. destruct e as [|[res|err]]; simpl.
  - destruct (uc_aborted c) eqn:Eab; [split; [done|rewrite Eab; exact Ha]|]. destruct (uc_listening c) eqn:El; simpl.
    + split; simpl; destruct (uc_call c); simpl; by destruct (uc_promise c).
    + split; simpl; by rewrite ?El.
  - split; simpl; [by destruct (uc_promise c)|done].
  - split; simpl; [by destruct (uc_promise c)|done].
Qed.

Lemma events_tidy es c : tidy c → tidy (fold_left event es c).
Proof. revert c. induction es as [|e es IH]; intros c Hc; simpl; [done|]. by apply IH, event_tidy. Qed.

Lemma start_tidy aborted during throws : tidy (start aborted during throws).
Proof.
  unfold start. destruct aborted; [by split|].
  assert (tidy (fold_left event during (mkCall true false true false 0 None))) as [Ht Ha] by (by apply events_tidy).
  destruct throws as [err|].
  - split; simpl; [|done]. by destruct (uc_promise _).
  - simpl. by destruct (uc_aborted _) eqn:Eab; split; simpl; rewrite ?Eab.
Qed.

(** A settled promise keeps its value, a pending one takes that of the event. *)
Lemma event_promise c e :
  tidy c → uc_promise (event c e) = match uc_promise c with Some p => Some p | None => Some (event_outcome e) end.
Proof.
  intros [Ht Ha]. destruct e as [|[res|err]]; simpl; [|done|done].
  destruct (uc_listening c) eqn:El.
  - rewrite (proj1 Ht eq_refl). destruct (uc_aborted c); [naive_solver|]. simpl. by destruct (uc_call c).
  - destruct (uc_promise c) eqn:Ep; [by destruct (uc_aborted c); simpl; rewrite ?El|naive_solver].
Qed.

Lemma events_promise es c :
  tidy c →
  uc_promise (fold_left event es c) =
  match uc_promise c with Some p => Some p | None => event_outcome <$> head es end.
Proof.
  revert c. induction es as [|e es IH]; intros c Hc; simpl; [by destruct (uc_promise c)|].
  rewrite IH by (by apply event_tidy). rewrite event_promise by done. by destruct (uc_promise c).
Qed.

Lemma events_aborted es c : uc_aborted (fold_left event es c) = uc_aborted c || existsb is_abort es.
Proof.
  revert c. induction es as [|e es IH]; intros c; simpl; [by rewrite orb_false_r|]. rewrite IH. destruct e as [|[res|err]]; simpl; [|done|done].
  destruct (uc_aborted c) eqn:Eab; [by rewrite Eab|]. destruct (uc_listening c); simpl; [|done]. by destruct (uc_call c).
Qed.

(** While the stub is being called there is nothing to cancel yet. *)
Lemma calling_events es c :
  uc_call c = false → uc_call (fold_left event es c) = false ∧ uc_cancels (fold_left event es c) = uc_cancels c.
Proof.
  revert c. induction es as [|e es IH]; intros c Hc; simpl; [done|].
  assert (uc_call (event c e) = false ∧ uc_cancels (event c e) = uc_cancels c) as [Hc' <-]; [|by apply IH].
  destruct e as [|[res|err]]; simpl; [|done|done]. destruct (uc_aborted c); [done|]. destruct (uc_listening c); simpl; [|done]. by rewrite Hc.
Qed.

Lemma deaf_events es c : uc_listening c = false → uc_cancels (fold_left event es c) = uc_cancels c.
Proof.
  revert c. induction es as [|e es IH]; intros c Hl; simpl; [done|]. destruct e as [|[res|err]]; simpl.
  - destruct (uc_aborted c); [by apply IH|]. rewrite Hl. by rewrite IH.
  - by rewrite IH.
  - by rewrite IH.
Qed.

Lemma started_events es c : uc_started (fold_left event es c) = uc_started c.
Proof.
  revert c. induction es as [|e es IH]; intros c; simpl; [done|]. rewrite IH. destruct e as [|[res|err]]; simpl; [|done|done].
  destruct (uc_aborted c); [done|]. destruct (uc_listening c); [|done]. simpl. by destruct (uc_call c).
Qed.
Lemma call_cancels aborted during throws after :
  uc_cancels (callUnary aborted during throws after) = if cancelled aborted during throws after then 1 else 0.
Proof.
  unfold callUnary, start, cancelled. destruct aborted; [by rewrite deaf_events|].
  set (c := fold_left event during _). assert (tidy c) as [Hl Ha] by (by apply events_tidy).
  destruct (calling_events during (mkCall true false true false 0 None) eq_refl) as [_ Hk]. fold c in Hk. cbn [uc_cancels] in Hk.
  destruct throws as [err|]; [by rewrite deaf_events|].
  assert (uc_aborted c = existsb is_abort during) as Hab by (unfold c; by rewrite events_aborted).
  cbn [uc_aborted]. rewrite <- Hab. destruct (uc_aborted c) eqn:Eab; cbn [orb].
  { rewrite deaf_events; [cbn; by rewrite Hk|by apply Ha]. }
  destruct during as [|e during].
  - destruct after as [|[|[res|err]] after]; cbn [fold_left]; [done|..]; by rewrite deaf_events.
  - rewrite deaf_events; [done|]. cbn [uc_listening]. destruct (uc_listening c) eqn:El; [|done].
    exfalso. pose proof (proj1 Hl eq_refl) as Ep. unfold c in Ep. by rewrite events_promise in Ep.
Qed.
End unary.
Arguments Call : clear implicits.
Arguments Event : clear implicits.
Arguments Outcome : clear implicits.

(** C33: a unary call settles with the first thing that happens to it, the abort of
    the signal, the reply or the exception of the stub, in whatever order and
    at whatever time they come; the abort listener is gone exactly when it has
    settled.  An aborted signal keeps the stub from being called at all.  The
    call is cancelled at most once: exactly when the stub has returned it and
    the signal was aborted while the stub was called, before or after a reply,
    or is aborted before any reply. *)
Theorem call_settles_once {T E} aborted (during : list (Event T E)) throws after :
  let c := callUnary aborted during throws after in
  uc_promise c = first_outcome aborted during throws after ∧
  (uc_listening c = true ↔ uc_promise c = None) ∧
  uc_started c = negb aborted ∧
  uc_cancels c = if cancelled aborted during throws after then 1 else 0.
Proof.
  intros c. pose proof (start_tidy aborted during throws) as Hst.
  assert (tidy c) as Hc by (by apply events_tidy).
  split_and!; [|by destruct Hc| |apply call_cancels].
  - unfold c, callUnary. rewrite events_promise by done. unfold start, first_outcome. destruct aborted; [done|].
    assert (tidy (mkCall true false true false 0 None : Call T E)) as H0 by done.
    pose proof (events_promise during _ H0) as Hd. cbn [uc_promise] in Hd.
    destruct throws as [err|]; simpl; [rewrite Hd; by destruct during|].
    destruct (uc_aborted _); simpl; rewrite Hd; destruct during; simpl; by destruct after.
  - unfold c, callUnary. rewrite started_events. unfold start. destruct aborted; [done|].
    destruct throws; simpl; [by rewrite started_events|]. destruct (uc_aborted _); simpl; by rewrite started_events.
Qed.

(** An abort during the call of the stub after its reply cancels a call that
    has resolved; one during a call that throws cancels nothing. *)
Example late_cancels :
  let replied := callUnary (E := unit) false [Reply (inl 7); Abort] None [] in
  let threw := callUnary (T := nat) false [Abort] (Some tt) [] in
  uc_promise replied = Some (Resolved 7) ∧ uc_cancels replied = 1 ∧
  uc_promise threw = Some RejectedReason ∧ uc_cancels threw = 0.
Proof. by vm_compute. Qed.
End Unary.

(** ** Requests and jobs *)

Record PollJobsRequest := mkPoll {
  pj_workerId : string;
  pj_jobTypes : list string;
  pj_maxJobs : Z;
  pj_leaseSeconds : option Z
}.

Record RestRequest := mkRest { rr_url : string; rr_body : json }.

(** [baseUrl.replace(/\/$/, '')]: one slash. *)
Fixpoint drop_last_slash (s : string) : string :=
  match s with
  | EmptyString => EmptyString
  | String c EmptyString => if Ascii.eqb c "/" then EmptyString else s
  | String c s' => String c (drop_last_slash s')
  end.

(** [JSON.stringify] leaves out members that are undefined. *)
Definition member (k : string) (v : option json) : obj json := match v with Some j => [(k, j)] | None => [] end.

Section rest.
Context (baseUrl : string).

Definition rest_url (path : string) : string := drop_last_slash baseUrl ⊕ path.

Definition rest_pollJobs (req : PollJobsRequest) : RestRequest :=
  mkRest (rest_url "/v1/jobs/poll")
    (JObj (("workerId", JStr (pj_workerId req)) :: ("jobTypes", JArr (JStr <$> pj_jobTypes req)) ::
           ("maxJobs", JNum (num_of_Z (pj_maxJobs req))) ::
           member "leaseSeconds" (JNum ∘ num_of_Z <$> pj_leaseSeconds req))).

Definition rest_heartbeat (jobId workerId : string) (leaseSeconds : Z) : RestRequest :=
  mkRest (rest_url ("/v1/jobs/" ⊕ jobId ⊕ "/heartbeat"))
    (JObj [("workerId", JStr workerId); ("leaseSeconds", JNum (num_of_Z leaseSeconds))]).

Definition rest_completeJob (jobId workerId : string) (variables : option (obj json)) : RestRequest :=
  mkRest (rest_url ("/v1/jobs/" ⊕ jobId ⊕ "/complete"))
    (JObj (("workerId", JStr workerId) :: member "variables" (JObj <$> variables))).

Definition rest_failJob (jobId workerId errorMessage : string) (retryable : bool) : RestRequest :=
  mkRest (rest_url ("/v1/jobs/" ⊕ jobId ⊕ "/fail"))
    (JObj [("workerId", JStr workerId); ("errorMessage", JStr errorMessage); ("retryable", JBool retryable)]).
End rest.

(** What [pollJobs] makes of an answer: its status and [jobs]. *)
Definition rest_poll_result (answer : (nat * option (list Job)) + string) : list Job + string :=
  match answer with
  | inl (status, jobs) =>
      if (Nat.leb 200 status && Nat.leb status 299)%bool then inl (default [] jobs)
      else inr ("pollJobs: engine returned " ⊕ str_of_nat status)
  | inr e => inr e
  end.

(** *** The gRPC side *)

Record ProtoPoll := mkProtoPoll { pp_workerId : string; pp_jobTypes : list string; pp_maxJobs : Z; pp_leaseSeconds : Z }.

Definition grpc_pollJobs (req : PollJobsRequest) : ProtoPoll :=
  mkProtoPoll (pj_workerId req) (pj_jobTypes req) (pj_maxJobs req) (default 0%Z (pj_leaseSeconds req)).

(** A job of the generated stubs; the lease end is a [Date], in ms. *)
Record ProtoJob := mkProtoJob {
  pr_id : string;
  pr_jobType : string;
  pr_instanceId : string;
  pr_stepExecutionId : string;
  pr_retriesRemaining : Z;
  pr_variables : option (obj json);
  pr_lockExpiresAt : option Z
}.

Section grpc.
(** [Date.prototype.toISOString] *)
Context (toISOString : Z → string).

Definition protoJobToSDK (p : ProtoJob) : Job :=
  mkJob (pr_id p) (pr_jobType p) (pr_instanceId p) (pr_stepExecutionId p) (pr_retriesRemaining p) (pr_variables p)
    (toISOString <$> pr_lockExpiresAt p).

Definition grpc_poll_result (jobs : option (list ProtoJob)) : list Job := protoJobToSDK <$> default [] jobs.
End grpc.

(** The two transports hand out the same jobs: what the engine offers, sent as
    JSON with ISO lease ends over REST and as messages over gRPC, is read alike,
    and the lease the worker asks for is the engine's default in both when it
    names none. *)
Theorem transports_agree (toISOString : Z → string) (offered : list ProtoJob) baseUrl req :
  rest_poll_result (inl (200, Some ((λ p, mkJob (pr_id p) (pr_jobType p) (pr_instanceId p) (pr_stepExecutionId p)
                                             (pr_retriesRemaining p) (pr_variables p) (toISOString <$> pr_lockExpiresAt p)) <$> offered)))
  = inl (grpc_poll_result toISOString (Some offered)) ∧
  (∀ o, rr_body (rest_pollJobs baseUrl req) = JObj o →
     obj_get o "workerId" = Some (JStr (pp_workerId (grpc_pollJobs req))) ∧
     obj_get o "jobTypes" = Some (JArr (JStr <$> pp_jobTypes (grpc_pollJobs req))) ∧
     default (JNum (num_of_Z 0)) (obj_get o "leaseSeconds") = JNum (num_of_Z (pp_leaseSeconds (grpc_pollJobs req)))).
Proof.
  split; [done|]. intros o [= <-]. split_and!; try done. simpl. by destruct (pj_leaseSeconds req).
Qed.

(** ** Callback metrics *)

Module Metrics.

Inductive Dispatch := Polling | Kafka_.
Inductive CallbackKind := CbComplete | CbFail.

#[export] Instance Dispatch_eq_dec : EqDecision Dispatch.
Proof. solve_decision. Defined.
#[export] Instance CallbackKind_eq_dec : EqDecision CallbackKind.
Proof. solve_decision. Defined.

Abbreviation Labels := (Dispatch * CallbackKind)%type.

(** [key.split(':')] of the keys gives the labels back. *)
Definition label_key (l : Labels) : string :=
  (match l.1 with Polling => "polling" | Kafka_ => "kafka" end) ⊕ ":" ⊕
  (match l.2 with CbComplete => "complete" | CbFail => "fail" end).

(** [pending]: for each key the callbacks started, by token; the gauge counts
    what [inc] and [dec] made of it. *)
Record State := mkState {
  mt_pending : list (Labels * nat * Z);      (* labels, token, started at *)
  mt_seen : list Labels;                     (* the keys of the outer map *)
  mt_gauge : list (Labels * Z);              (* every inc and dec, oldest first *)
  mt_tokens : nat                            (* symbols made *)
}.

Definition empty : State := mkState [] [] [] 0.

Definition gauge_value (l : Labels) (s : State) : Z :=
  fold_right (λ p v, if bool_decide (p.1 = l) then p.2 + v else v)%Z 0%Z (mt_gauge s).

(** [trackCallback(dispatch, callback)]; its result is the token. *)
Definition trackCallback (l : Labels) (now : Z) (s : State) : State * nat :=
  (mkState (mt_pending s ++ [(l, mt_tokens s, now)])
     (if bool_decide (l ∈ mt_seen s) then mt_seen s else mt_seen s ++ [l])
     (mt_gauge s ++ [(l, 1%Z)]) (S (mt_tokens s)), mt_tokens s).

(** The function [trackCallback] returns. *)
Definition finish (l : Labels) (token : nat) (s : State) : State :=
  mkState (List.filter (λ p, negb (bool_decide (p.1 = (l, token)))) (mt_pending s)) (mt_seen s)
    (mt_gauge s ++ [(l, (-1)%Z)]) (mt_tokens s).

Definition starts (l : Labels) (s : State) : list Z :=
  omap (λ p : Labels * nat * Z, if bool_decide (p.1.1 = l) then Some p.2 else None) (mt_pending s).

(** [collect]: the age of the oldest callback of every key, in ms. *)
Definition oldest (now : Z) (l : Labels) (s : State) : option Z :=
  if bool_decide (l ∈ mt_seen s)
  then Some match starts l s with [] => 0%Z | t :: ts => (now - fold_left Z.min ts t)%Z end
  else None.

Inductive Event := Track (l : Labels) (now : Z) | Finish (l : Labels) (token : nat).

Definition step (s : State) (e : Event) : State :=
  match e with Track l now => (trackCallback l now s).1 | Finish l t => finish l t s end.

(** [deliver] calls the function it got once, in its [finally]: a token is
    finished while it is pending. *)
Inductive reachable : State → Prop :=
| reach_empty : reachable empty
| reach_track s l now : reachable s → reachable (step s (Track l now))
| reach_finish s l t now : reachable s → (l, t, now) ∈ mt_pending s → reachable (step s (Finish l t)).

Lemma gauge_snoc (g : list (Labels * Z)) (l : Labels) v (l' : Labels) :
  fold_right (λ p w, if bool_decide (p.1 = l') then p.2 + w else w)%Z 0%Z (g ++ [(l, v)]) =
  (fold_right (λ p w, if bool_decide (p.1 = l') then p.2 + w else w)%Z 0%Z g + if bool_decide (l = l') then v else 0)%Z.
Proof. induction g as [|[k w] g IH]; simpl; [destruct (bool_decide (l = l')); lia|].
  rewrite IH. destruct (bool_decide (k = l')); lia.
Qed.

Definition pending_ok (s : State) : Prop :=
  NoDup (mt_pending s).*1 ∧ (∀ l t now, (l, t, now) ∈ mt_pending s → t < mt_tokens s ∧ l ∈ mt_seen s) ∧
  (∀ l, gauge_value l s = Z.of_nat (length (starts l s))).

Lemma starts_filter (ps : list (Labels * nat * Z)) l t now l' :
  NoDup ps.*1 → (l, t, now) ∈ ps →
  length (omap (λ p : Labels * nat * Z, if bool_decide (p.1.1 = l') then Some p.2 else None) ps) =
  length (omap (λ p : Labels * nat * Z, if bool_decide (p.1.1 = l') then Some p.2 else None)
            (List.filter (λ p, negb (bool_decide (p.1 = (l, t)))) ps)) + (if bool_decide (l = l') then 1 else 0).
Proof.
  induction ps as [|[[k u] w] ps IH]; [set_solver|]. rewrite fmap_cons, NoDup_cons. intros [Hn Hnd] Hin. simpl in Hn.
  apply elem_of_cons in Hin as [Heq|Hin].
  - simplify_eq. cbn [List.filter fst]. rewrite bool_decide_eq_true_2 by done. simpl negb. cbv iota.
    assert (List.filter (λ p : Labels * nat * Z, negb (bool_decide (p.1 = (k, u)))) ps = ps) as ->.
    { apply List.forallb_filter_id, forallb_forall. intros p Hp. apply negb_true_iff, bool_decide_eq_false. intros Hk.
      apply Hn. rewrite <- Hk. apply list_elem_of_In in Hp. by apply (list_elem_of_fmap_2 fst). }
    csimpl. destruct (bool_decide (k = l')); csimpl; lia.
  - cbn [List.filter fst]. rewrite bool_decide_eq_false_2 by (intros Hk; apply Hn; rewrite Hk; by apply (list_elem_of_fmap_2 fst _ (l, t, now))).
    simpl negb. cbv iota. csimpl. destruct (bool_decide (k = l')); csimpl; rewrite IH by done; lia.
Qed.

Lemma reachable_ok s : reachable s → pending_ok s.
Proof.
  induction 1 as [|s l now _ (Hnd & Hb & Hg)|s l t now _ (Hnd & Hb & Hg) Hin].
  - split_and!; [constructor|set_solver|done].
  - split_and!; simpl.
    + rewrite fmap_app. apply NoDup_app. split_and!; [done| |apply NoDup_singleton]. simpl. intros [k u] Hk Hin.
      apply list_elem_of_singleton in Hin. simplify_eq. apply list_elem_of_fmap in Hk as ([[k' u'] w] & Hk & Hin). simpl in Hk. simplify_eq.
      apply Hb in Hin as [? _]. lia.
    + intros k u w [Hin|Hin]%elem_of_app.
      * apply Hb in Hin as [? ?]. split; [lia|]. case_bool_decide; set_solver.
      * apply list_elem_of_singleton in Hin. simplify_eq. split; [lia|]. case_bool_decide; set_solver.
    + intros k. unfold gauge_value, starts. simpl. rewrite gauge_snoc, omap_app, length_app. unfold gauge_value, starts in Hg. rewrite Hg.
      simpl. destruct (bool_decide (l = k)); simpl; lia.
  - split_and!; simpl.
    + eapply sublist_NoDup; [exact Hnd|]. clear. induction (mt_pending s) as [|p ps IH]; simpl; [done|].
      destruct (negb _); simpl; by constructor.
    + intros k u w [Hk _]%list_elem_of_In%filter_In. apply Hb with (now := w). by apply list_elem_of_In.
    + intros k. unfold gauge_value, starts in *. simpl. rewrite gauge_snoc, Hg, (starts_filter _ l t now k) by done.
      destruct (bool_decide (l = k)); lia.
Qed.

Lemma fold_min_spec ts t : fold_left Z.min ts t ∈ t :: ts ∧ ∀ x, x ∈ t :: ts → (fold_left Z.min ts t <= x)%Z.
Proof.
  revert t. induction ts as [|u ts IH]; intros t; simpl; [set_solver|]. destruct (IH (Z.min t u)) as [Hm Hle]. split.
  - apply elem_of_cons in Hm as [->|Hm]; [|set_solver]. destruct (Z.min_dec t u) as [-> | ->]; set_solver.
  - pose proof (Hle (Z.min t u) ltac:(set_solver)) as H0. intros x [->|[->|Hx]%elem_of_cons]%elem_of_cons; [lia|lia|].
    apply Hle. set_solver.
Qed.

Lemma starts_elem l s t0 : t0 ∈ starts l s ↔ ∃ t, (l, t, t0) ∈ mt_pending s.
Proof.
  unfold starts. rewrite list_elem_of_omap. split.
  - intros ([[k t] w] & Hin & Hk). simpl in Hk. case_bool_decide; simplify_eq. eauto.
  - intros [t Hin]. exists (l, t, t0). split; [done|]. simpl. by rewrite bool_decide_eq_true_2.
Qed.

(** However deliveries overlap, the pending gauge of a label is the number of
    its callbacks that are not acknowledged, never negative, and the age
    reported is that of the oldest of them, zero when there is none. *)
Theorem callback_gauges s l now :
  reachable s →
  gauge_value l s = Z.of_nat (length (starts l s)) ∧ (0 <= gauge_value l s)%Z ∧
  (∀ t t0, (l, t, t0) ∈ mt_pending s →
     ∃ age t1, oldest now l s = Some age ∧ (now - t0 <= age)%Z ∧ t1 ∈ starts l s ∧ age = (now - t1)%Z) ∧
  (starts l s = [] → ∀ age, oldest now l s = Some age → age = 0%Z).
Proof.
  intros Hr. destruct (reachable_ok s Hr) as (_ & Hb & Hg). split_and!; [done|rewrite Hg; lia| |].
  - intros t t0 Hin. destruct (Hb _ _ _ Hin) as [_ Hl]. unfold oldest. rewrite bool_decide_eq_true_2 by done.
    assert (t0 ∈ starts l s) as Hs by (apply starts_elem; eauto). destruct (starts l s) as [|u us] eqn:Eu; [set_solver|].
    destruct (fold_min_spec us u) as [Hm Hle]. eexists _, _. split; [done|]. split; [|split; [exact Hm|done]].
    specialize (Hle t0 Hs). lia.
  - intros He age. unfold oldest. rewrite He. case_bool_decide; naive_solver.
Qed.

(** Calling the function twice would take the gauge below the truth. *)
Lemma finish_twice l now :
  let '(s, t) := trackCallback l now empty in gauge_value l (finish l t (finish l t s)) = (-1)%Z.
Proof. destruct l as [[] []]; reflexivity. Qed.

Lemma callback_gauges_witness :
  let l := (Polling, CbComplete) in
  let s := step (step (step empty (Track l 10)) (Track l 30)) (Finish l 0) in
  gauge_value l s = 1%Z ∧ oldest 100 l s = Some 70%Z.
Proof.
  intros l s. assert (reachable s) as Hr.
  { apply (reach_finish _ l 0 10); [apply reach_track, reach_track, reach_empty|]. apply list_elem_of_In. left. reflexivity. }
  destruct (callback_gauges s l 100 Hr) as (Hg & _ & Ho & _). split; [exact Hg|]. reflexivity.
Defined.
End Metrics.
