(* ===== verification/Report.v ===== *)
(** * The verdict of a load test (perf/lib/report.js)

    The script reads the evidence of a run, refuses it when anything is missing
    or malformed, and gives the verdict.  The parsed files are JSON values; a
    line of the k6 output that is not JSON is [None].  Rates and the comparison
    with a baseline are in floating point: a result is the double next to the
    exact one, the even one of two; overflow and underflow are left out. *)

From stdpp Require Import sorting.
From S2P Require Import Prelude JsObject Types ImportExport Peg Duration DraftsDialog Cursor.

(** ** Checks: a value, or the message of the error thrown *)

Definition Chk (A : Type) : Type := A + string.

#[export] Instance chk_ret : MRet Chk := λ A a, inl a.
#[export] Instance chk_bind : MBind Chk := λ A B f m, match m with inl a => f a | inr e => inr e end.

Definition requireThat (condition : bool) (message : string) : Chk unit := if condition then inl tt else inr message.

(** [v.k]: a member read of null or undefined throws. *)
Definition get (v : option json) (k : string) : Chk (option json) :=
  match v with
  | None | Some JNull => inr "Cannot read properties"
  | Some (JObj o) => inl (obj_get o k)
  | Some _ => inl None
  end.

(** [v?.k] *)
Definition get_opt (v : option json) (k : string) : option json :=
  match v with Some (JObj o) => obj_get o k | _ => None end.

Definition truthy (v : option json) : bool := match v with Some j => truthy_json j | None => false end.

Definition is_str (v : option json) (s : string) : bool := match v with Some (JStr t) => String.eqb s t | _ => false end.

(** [number(value, name)] *)
Definition number (v : option json) (name : string) : Chk jsnum :=
  match v with
  | Some (JNum n) => if (0 <=? mant n)%Z then inl n else inr ("invalid " ⊕ name)
  | _ => inr ("invalid " ⊕ name)
  end.

Definition num_zero (n : jsnum) : bool := (mant n =? 0)%Z.

(** [Object.entries(v || {})] *)
Definition entries_of (v : option json) : obj json := if truthy v then entries (default JNull v) else [].

Fixpoint each {A B} (f : B → A → Chk B) (acc : B) (l : list A) : Chk B :=
  match l with
  | [] => inl acc
  | a :: l => acc' ← f acc a; each f acc' l
  end.

(** ** Floating point *)

(** The double next to [p / q], the even one of two. *)
Definition round_ratio (p q : Z) : jsnum :=
  if (p =? 0)%Z then JsNum 0 0
  else
    let a := Z.abs p in
    let s := (Z.log2 a - Z.log2 q - 53)%Z in
    let s := if (2 ^ 53 * q * 2 ^ Z.max 0 s <=? a * 2 ^ Z.max 0 (- s))%Z then (s + 1)%Z else s in
    let num := (a * 2 ^ Z.max 0 (- s))%Z in
    let den := (q * 2 ^ Z.max 0 s)%Z in
    let low := (num / den)%Z in
    let m := match (2 * (num - low * den) ?= den)%Z with
             | Lt => low
             | Gt => (low + 1)%Z
             | Eq => if Z.even low then low else (low + 1)%Z
             end in
    JsNum (Z.sgn p * m) s.

Definition scale (n : jsnum) (e : Z) : jsnum := JsNum (mant n) (expo n + e).

Definition num_sub (a b : jsnum) : jsnum :=
  let e := Z.min (expo a) (expo b) in
  scale (round_ratio (mant a * 2 ^ (expo a - e) - mant b * 2 ^ (expo b - e)) 1) e.

Definition num_mul (a b : jsnum) : jsnum := scale (round_ratio (mant a * mant b) 1) (expo a + expo b).

Definition num_div (a b : jsnum) : jsnum :=
  scale (round_ratio (mant a * Z.sgn (mant b)) (Z.abs (mant b))) (expo a - expo b).

Definition num_abs (a : jsnum) : jsnum := JsNum (Z.abs (mant a)) (expo a).

Definition num_lt (a b : jsnum) : bool := match num_compare a b with Lt => true | _ => false end.

(** [0.1] is not a tenth, and [0.1 * 3] not [0.3]. *)
Example binary_fractions :
  num_compare (num_mul (round_ratio 1 10) (num_of_Z 3)) (round_ratio 3 10) = Gt ∧
  num_compare (num_div (num_of_Z 1) (num_of_Z 3)) (JsNum 6004799503160661 (-54)) = Eq ∧
  num_compare (num_sub (round_ratio 3 10) (round_ratio 1 10)) (round_ratio 2 10) = Lt.
Proof. by vm_compute. Qed.

(** ** Samples *)

Definition PHASES : list string := ["ramp-up"; "steady-state"; "ramp-down"].
Definition OPERATIONS : list string :=
  ["workflow.start"; "workflow.poll"; "workflow.list"; "workflow.history"; "workflow.cancel"; "workflow.signal";
   "workflow.task_complete"].

Record Bucket := mkBucket {
  bk_phase : string;
  bk_operation : string;
  bk_values : list jsnum;
  bk_errorSamples : nat;
  bk_errors : nat
}.

Definition bucket_key (b : Bucket) : string := bk_phase b ⊕ "/" ⊕ bk_operation b.

Definition initial_buckets : list Bucket :=
  PHASES ≫= λ phase, (λ operation, mkBucket phase operation [] 0 0) <$> OPERATIONS.

(** The text of a tag in a template literal; k6 tags are texts. *)
Definition tag_text (v : option json) : string := match v with Some (JStr s) => s | _ => "undefined" end.

Definition update_bucket (key : string) (f : Bucket → Bucket) (bs : list Bucket) : list Bucket :=
  (λ b, if String.eqb (bucket_key b) key then f b else b) <$> bs.

Definition num_is (n : jsnum) (z : Z) : bool := match num_compare n (num_of_Z z) with Eq => true | _ => false end.

(** One line of the output. *)
Definition sample (transport latencyMetric errorMetric : string) (bs : list Bucket) (event : json) : Chk (list Bucket) :=
  _ ← get (Some event) "type";
  let metric := get_opt (Some event) "metric" in
  if (negb (is_str (get_opt (Some event) "type") "Point") ||
      negb (is_str metric latencyMetric || is_str metric errorMetric))%bool then inl bs
  else
    let data := get_opt (Some event) "data" in
    let tags := get_opt data "tags" in
    let key := tag_text (get_opt tags "phase") ⊕ "/" ⊕ tag_text (get_opt tags "operation") in
    if negb (existsb (λ b, String.eqb (bucket_key b) key) bs) then inl bs
    else
      let operation := tag_text (get_opt tags "operation") in
      _ ← (if String.eqb transport "rest"
           then requireThat (is_str (get_opt tags "name") operation && is_str (get_opt tags "url") operation)
                  ("ungrouped REST request metrics: " ⊕ operation)
           else inl tt);
      value ← number (get_opt data "value") (tag_text metric ⊕ " sample");
      if is_str metric latencyMetric
      then inl (update_bucket key (λ b, mkBucket (bk_phase b) (bk_operation b) (bk_values b ++ [value])
                                          (bk_errorSamples b) (bk_errors b)) bs)
      else
        _ ← requireThat (num_is value 0 || num_is value 1) "error sample must be 0 or 1";
        inl (update_bucket key (λ b, mkBucket (bk_phase b) (bk_operation b) (bk_values b) (S (bk_errorSamples b))
                                       (bk_errors b + if num_is value 1 then 1 else 0)) bs).

(** The lines; a malformed one invalidates the report. *)
Definition samples (transport latencyMetric errorMetric : string) (lines : list (option json)) : Chk (list Bucket) :=
  each (λ bs line, match line with
                   | Some event => sample transport latencyMetric errorMetric bs event
                   | None => inr "Unexpected token"
                   end) initial_buckets lines.

(** ** Rows *)

Definition num_le (a b : jsnum) : Prop := num_compare a b ≠ Gt.

#[export] Instance num_le_dec : RelDecision num_le.
Proof. intros a b. unfold num_le. apply _. Defined.

(** [percentile(values, percent)] of sorted values: the value of rank
    [ceil(length * percent / 100)]. *)
Definition percentile (values : list jsnum) (percent : nat) : option jsnum :=
  values !! ((length values * percent + 99) / 100 - 1).

Record PhaseRow := mkPhaseRow {
  ph_phase : string;
  ph_operation : string;
  ph_count : nat;
  ph_rate : jsnum;
  ph_errors : nat;
  ph_errorRate : option jsnum;
  ph_p50 : option jsnum;
  ph_p95 : option jsnum;
  ph_p99 : option jsnum
}.

Definition phase_row (durations : string → jsnum) (b : Bucket) : Chk PhaseRow :=
  _ ← requireThat (Nat.eqb (bk_errorSamples b) (length (bk_values b)))
        ("missing error/latency samples: " ⊕ bk_phase b ⊕ "/" ⊕ bk_operation b);
  let values := merge_sort num_le (bk_values b) in
  let count := num_of_Z (Z.of_nat (length values)) in
  inl (mkPhaseRow (bk_phase b) (bk_operation b) (length values) (num_div count (durations (bk_phase b))) (bk_errors b)
         (if Nat.eqb (length values) 0 then None else Some (num_div (num_of_Z (Z.of_nat (bk_errors b))) count))
         (percentile values 50) (percentile values 95) (percentile values 99)).

Definition phase_rows (durations : string → jsnum) (bs : list Bucket) : Chk (list PhaseRow) :=
  rows ← each (λ acc b, r ← phase_row durations b; inl (acc ++ [r])) [] bs;
  inl (List.filter (λ r, Nat.ltb 0 (ph_count r)) rows).

Definition requiredOps (loanChain : bool) : list string :=
  if loanChain then ["workflow.start"; "workflow.poll"; "workflow.list"; "workflow.task_complete"]
  else ["workflow.start"; "workflow.poll"; "workflow.list"; "workflow.history"].

Definition steady_present (bs : list Bucket) (operation : string) : Chk unit :=
  requireThat (existsb (λ b, String.eqb (bucket_key b) ("steady-state/" ⊕ operation) && Nat.ltb 0 (length (bk_values b))) bs)
    ("missing steady-state metric: " ⊕ operation).

(** ** The gate *)

(** A threshold of k6's summary: [true] is a breach; otherwise [ok] says. *)
Definition breached (result : json) : option bool :=
  match result with
  | JBool b => Some b
  | _ => match get_opt (Some result) "ok" with Some (JBool ok) => Some (negb ok) | _ => None end
  end.

Definition breaches (metrics : obj json) : Chk (list (string * string)) :=
  each (λ acc m,
    thresholds ← get (Some m.2) "thresholds";
    each (λ acc t,
      match breached t.2 with
      | Some failed => inl (if failed then acc ++ [(m.1, t.1)] else acc)
      | None => inr ("invalid threshold: " ⊕ m.1)
      end) acc (entries_of thresholds)) [] metrics.

(** [metric.values || metric] *)
Definition metric_values (m : option json) : option json :=
  let v := get_opt m "values" in if truthy v then v else m.

Definition FAILURE_KINDS : list string := ["engine_error"; "engine_timeout"; "engine_unresponsive"; "generator_side"].

Definition unfinishedNames (loanChain : bool) : list string :=
  if loanChain then ["chain_app_unfinished_after_steady_state"; "chain_disb_unfinished_after_steady_state"]
  else ["workflows_unfinished_after_steady_state"].

(** The count of a counter metric. *)
Definition counter (metrics : obj json) (missing metric name : string) : Chk jsnum :=
  _ ← requireThat (truthy (obj_get metrics metric)) (missing ⊕ name);
  number (get_opt (metric_values (obj_get metrics metric)) "count") name.

Definition failure_count (metrics : obj json) (kind : string) : Chk (string * jsnum) :=
  n ← counter metrics "missing failure metric: " ("failure_kind_" ⊕ kind) kind; inl (kind, n).

Definition STATUSES : list string := ["COMPLETED"; "FAILED"; "CANCELLED"; "ACTIVE"; "WAITING"].

(** One outcome: an id of its own and a known status. *)
Definition outcome (ids : list string) (item : json) : Chk (list string) :=
  _ ← (match item with JNull => inr "Cannot read properties" | _ => inl tt end);
  match get_opt (Some item) "id" with
  | Some (JStr id) =>
      _ ← requireThat (truthy_str id && negb (includes ids id)) "invalid/duplicate outcome id";
      _ ← requireThat (existsb (is_str (get_opt (Some item) "status")) STATUSES) "invalid outcome status";
      inl (ids ++ [id])
  | _ => inr "invalid/duplicate outcome id"
  end.

Definition completed (item : json) : bool := is_str (get_opt (Some item) "status") "COMPLETED".

Record Evidence := mkEvidence {
  ev_current : json;                   (* summary.json *)
  ev_summary : json;                   (* k6-summary-export.json *)
  ev_host : json;                      (* host-stats.json *)
  ev_outcomes : json;                  (* workflow-outcomes.json *)
  ev_lines : list (option json);       (* k6-output.json, without blank lines *)
  ev_baseline : option json            (* the summary of the run to compare with *)
}.

(** The texts of [gateFailures]. *)
Inductive GateFailure :=
| GThresholds                              (* k6 thresholds breached *)
| GChecks                                  (* k6 checks failed *)
| GKind (kind : string) (count : jsnum)    (* a failure kind and its count *)
| GUnfinished (counts : list jsnum)        (* unfinished workflows, by metric *)
| GOutcomes                                (* unexpected workflow outcomes (all must be COMPLETED) *)
| GPending                                 (* pending chained workflows *)
| GSaturated                               (* load generator saturated *)
| GRegression                              (* regression exceeds variance band *)
| GExecution.                              (* k6 execution failed *)

Definition when (b : bool) (g : GateFailure) : list GateFailure := if b then [g] else [].

(** The verdict of the comparison. *)
Inductive Trend := Regressed | Improved | WithinNoise.

Record Verdict := mkVerdict {
  vd_pass : bool;                      (* result; the exit code is 0 exactly for it *)
  vd_comparison : option Trend;
  vd_rows : list PhaseRow;
  vd_failures : list (string * jsnum);
  vd_gateFailures : list GateFailure
}.

(** The gates on k6's summary: thresholds, checks, failures by kind, workflows
    left unfinished. *)
Definition summary_gates (metrics : obj json) (loanChain : bool) : Chk (list GateFailure * list (string * jsnum)) :=
  broken ← breaches metrics;
  let checks := metric_values (obj_get metrics "checks") in
  _ ← requireThat (truthy checks) "missing k6 checks";
  fails ← number (get_opt checks "fails") "failed checks";
  _ ← number (get_opt checks "passes") "passed checks";
  failures ← each (λ acc kind, f ← failure_count metrics kind; inl (acc ++ [f])) [] FAILURE_KINDS;
  unfinished ← each (λ acc name, n ← counter metrics "missing outcome metric: " name name; inl (acc ++ [n]))
                 [] (unfinishedNames loanChain);
  inl (when (negb (Nat.eqb (length broken) 0)) GThresholds ++
       when (negb (num_zero fails)) GChecks ++
       (failures ≫= λ f, when (negb (num_zero f.2)) (GKind f.1 f.2)) ++
       when (existsb (λ n, negb (num_zero n)) unfinished) (GUnfinished unfinished), failures).

(** The gates on the outcomes of the workflows. *)
Definition outcome_gates (outcomes : json) : Chk (list GateFailure) :=
  match get_opt (Some outcomes) "instances" with
  | Some (JArr (item :: items)) =>
      _ ← each outcome [] (item :: items);
      pending ← number (get_opt (Some outcomes) "pendingChains") "pending chains";
      inl (when (negb (forallb completed (item :: items))) GOutcomes ++
           when (negb (num_zero pending)) GPending)
  | _ => inr "missing workflow outcomes"
  end.

(** [v?.length], as a condition *)
Definition has_length (v : option json) : bool :=
  match v with
  | Some (JArr l) => negb (Nat.eqb (length l) 0)
  | Some (JStr s) => truthy_str s
  | Some (JObj o) => truthy (obj_get o "length")
  | _ => false
  end.

(** The gates on the load generator's host. *)
Definition host_gates (host : json) : Chk (list GateFailure) :=
  let summary := get_opt (Some host) "summary" in
  match get_opt (Some host) "samples" with
  | Some (JArr (s :: ss)) =>
      _ ← requireThat (truthy summary) "missing host samples";
      _ ← requireThat (match get_opt summary "sampleCount" with
                       | Some (JNum n) => num_is n (Z.of_nat (length (s :: ss)))
                       | _ => false
                       end) "host sample count mismatch";
      _ ← number (get_opt summary "k6CpuPctPeak") "generator CPU";
      match get_opt summary "generatorLikelySaturated" with
      | Some (JBool saturated) =>
          _ ← requireThat (negb (has_length (get_opt (Some host) "errors"))) "host sampling failed";
          inl (when saturated GSaturated)
      | _ => inr "missing generator saturation assessment"
      end
  | _ => inr "missing host samples"
  end.

Definition scenario_name (current : json) : option json := get_opt (get_opt (Some current) "scenario") "name".

Definition is_loan_chain (current : json) : bool :=
  match scenario_name current with Some (JStr s) => String.prefix "loan-chain-full" s | _ => false end.

(** [/^(\d+(?:\.\d+)?)(ms|s|m|h)$/]: the digits before and after the point, and
    the unit *)
Definition duration_parts (s : string) : option (string * string * string) :=
  let '(whole, rest) := span is_digit s in
  let '(fraction, unit_) :=
    match rest with
    | String c rest' =>
        if Ascii.eqb c "." then let '(f, u) := span is_digit rest' in (Some f, u) else (None, rest)
    | EmptyString => (None, rest)
    end in
  if truthy_str whole && match fraction with Some f => truthy_str f | None => true end &&
     includes ["ms"; "s"; "m"; "h"] unit_
  then Some (whole, default EmptyString fraction, unit_) else None.

(** [{ ms: 0.001, s: 1, m: 60, h: 3600 }[unit]] *)
Definition unit_seconds (unit_ : string) : jsnum :=
  if String.eqb unit_ "ms" then round_ratio 1 1000
  else if String.eqb unit_ "m" then num_of_Z 60 else if String.eqb unit_ "h" then num_of_Z 3600 else num_of_Z 1.

Definition seconds (current : json) (member_ : string) : Chk jsnum :=
  match get_opt (get_opt (get_opt (Some current) "scenario") "config") member_ with
  | Some (JStr s) =>
      match duration_parts s with
      | Some (whole, fraction, unit_) =>
          let digits := round_ratio (digits_value (whole ⊕ fraction)) (10 ^ Z.of_nat (String.length fraction)) in
          let result := num_mul digits (unit_seconds unit_) in
          _ ← requireThat (num_lt (num_of_Z 0) result) "phase duration must be positive"; inl result
      | None => inr ("invalid phase duration: " ⊕ s)
      end
  | _ => inr "invalid phase duration"
  end.

(** ** The comparison with a baseline *)

Section comparison.
Context `{JsonText}.

(** [a === b] of what two files hold: two lists or objects are never the same. *)
Definition same_value (a b : option json) : bool :=
  match a, b with
  | None, None | Some JNull, Some JNull => true
  | Some (JBool x), Some (JBool y) => Bool.eqb x y
  | Some (JNum x), Some (JNum y) => match num_compare x y with Eq => true | _ => false end
  | Some (JStr x), Some (JStr y) => String.eqb x y
  | _, _ => false
  end.

(** [JSON.stringify(a) === JSON.stringify(b)], where [undefined] has no text. *)
Definition same_text (a b : option json) : bool :=
  match a, b with
  | None, None => true
  | Some x, Some y => String.eqb (JSON_stringify x) (JSON_stringify y)
  | _, _ => false
  end.

(** [{ name: v.name, config: v.config }], as it is written. *)
Definition scenario_part (v : option json) : json :=
  JObj (omap (λ k, (λ x, (k, x)) <$> get_opt v k) ["name"; "config"]).

Definition compatible (base current : json) : Chk unit :=
  _ ← get (Some base) "schemaVersion";
  _ ← requireThat (is_str (get_opt (Some base) "schemaVersion") "2.0" && is_str (get_opt (Some base) "result") "pass")
        "baseline must be a passing v2 report";
  _ ← each (λ _ key,
        let comparable := if String.eqb key "scenario" then Some (scenario_part (get_opt (Some current) "scenario"))
                          else get_opt (Some current) key in
        let prior := if String.eqb key "scenario" then Some (scenario_part (get_opt (Some base) "scenario"))
                     else get_opt (Some base) key in
        requireThat (bool_decide (comparable ≠ None) && same_text prior comparable) ("baseline differs: " ⊕ key))
      tt ["harnessSha"; "thresholds"; "scenario"; "host"; "generator"];
  each (λ _ key,
        requireThat (same_value (get_opt (get_opt (Some base) "engine") key) (get_opt (get_opt (Some current) "engine") key))
          ("baseline differs: engine." ⊕ key))
    tt ["transport"; "dispatchMode"; "workerReplicas"].

(** [v > 0], with what JavaScript makes of other values than numbers: a list of
    one value is its text. *)
Fixpoint positive (listed : bool) (v : json) : bool :=
  match v with
  | JNum n => (0 <? mant n)%Z
  | JStr s =>
      match js_Number s with
      | Some (m, _) => (0 <? m)%Z
      | None => includes ["Infinity"; "+Infinity"] (js_trim s)
      end
  | JBool b => b && negb listed
  | JArr [x] => positive true x
  | _ => false
  end.

Definition positive_member (v : json) (k : string) : bool :=
  match get_opt (Some v) k with Some x => positive false x | None => false end.

Inductive Metric := P95 | Throughput | ErrorRate.

Definition metric_key (m : Metric) : string :=
  match m with P95 => "p95Ms" | Throughput => "rate" | ErrorRate => "errorRate" end.

(** [row[key]], [null] counting as 0 *)
Definition row_value (m : Metric) (row : PhaseRow) : jsnum :=
  match m with
  | P95 => default (num_of_Z 0) (ph_p95 row)
  | Throughput => ph_rate row
  | ErrorRate => default (num_of_Z 0) (ph_errorRate row)
  end.

(** The percentage beyond which a metric is flagged. *)
Definition band (m : Metric) : option Z := match m with P95 => Some 15%Z | Throughput => Some 10%Z | ErrorRate => None end.

(** [100 * delta / base] *)
Definition deltaPct (base value : jsnum) : jsnum := num_div (num_mul (num_of_Z 100) (num_sub value base)) base.

Definition flagged (m : Metric) (base value : jsnum) : bool :=
  match band m with
  | Some pct => negb (num_zero base) && num_lt (num_of_Z pct) (num_abs (deltaPct base value))
  | None => num_lt (round_ratio 5 10000) (num_abs (num_sub value base))
  end.

(** [delta * direction > 0] *)
Definition got_worse (m : Metric) (base value : jsnum) : bool :=
  let delta := num_sub value base in
  match m with Throughput => num_lt delta (num_of_Z 0) | _ => num_lt (num_of_Z 0) delta end.

(** The flags of one metric of one row, after those before it: worse, better. *)
Definition compare_metric (base : json) (row : PhaseRow) (acc : bool * bool) (m : Metric) : Chk (bool * bool) :=
  b ← number (get_opt (Some base) (metric_key m)) ("baseline " ⊕ metric_key m);
  let v := row_value m row in
  inl (if flagged m b v then if got_worse m b v then (true, acc.2) else (acc.1, true) else acc).

(** [metrics.find(p => p.phase === row.phase && p.operation === row.operation)] *)
Fixpoint find_metrics (metrics : list json) (row : PhaseRow) : Chk (option json) :=
  match metrics with
  | [] => inl None
  | p :: metrics =>
      phase ← get (Some p) "phase";
      if is_str phase (ph_phase row) && is_str (get_opt (Some p) "operation") (ph_operation row) then inl (Some p)
      else find_metrics metrics row
  end.

Definition compare_row (metrics : list json) (acc : bool * bool) (row : PhaseRow) : Chk (bool * bool) :=
  found ← find_metrics metrics row;
  match found with
  | Some base =>
      _ ← requireThat (positive_member base "count" && positive_member base "p95Ms" && positive_member base "rate")
            ("baseline missing " ⊕ ph_operation row);
      each (compare_metric base row) acc [P95; Throughput; ErrorRate]
  | None => inr ("baseline missing " ⊕ ph_operation row)
  end.

Definition steady (row : PhaseRow) : bool := String.eqb (ph_phase row) "steady-state".

(** [worse ? "regressed" : better ? "improved" : "within-noise"] *)
Definition trend (flags : bool * bool) : Trend := if flags.1 then Regressed else if flags.2 then Improved else WithinNoise.

Definition comparison (current baseline : json) (rows : list PhaseRow) : Chk Trend :=
  _ ← compatible baseline current;
  match get_opt (Some baseline) "phaseMetrics" with
  | Some (JArr metrics) =>
      flags ← each (compare_row metrics) (false, false) (List.filter steady rows);
      inl (trend flags)
  | _ => inr "baseline missing phase metrics"
  end.

(** [main], from the parsed evidence to the verdict. *)
Definition main (e : Evidence) : Chk Verdict :=
  let current := Some (ev_current e) in
  _ ← requireThat (is_str (get_opt current "schemaVersion") "2.0" && truthy (get_opt current "harnessSha"))
        "missing current harness identity";
  let transport := get_opt (get_opt current "engine") "transport" in
  _ ← requireThat (is_str transport "rest" || is_str transport "grpc") "invalid transport";
  let mode := get_opt (get_opt current "engine") "dispatchMode" in
  _ ← requireThat (is_str mode "polling" || is_str mode "kafka_outbox") "invalid dispatch mode";
  let metrics := entries_of (get_opt (Some (ev_summary e)) "metrics") in
  _ ← requireThat (negb (Nat.eqb (length metrics) 0)) "missing k6 metrics";
  up ← seconds (ev_current e) "rampUp";
  middle ← seconds (ev_current e) "steady";
  down ← seconds (ev_current e) "rampDown";
  let durations (phase : string) :=
    if String.eqb phase "ramp-up" then up else if String.eqb phase "steady-state" then middle else down in
  let rest := is_str transport "rest" in
  bs ← samples (if rest then "rest" else "grpc") (if rest then "http_req_duration" else "grpc_req_duration")
         (if rest then "http_req_failed" else "grpc_error_rate") (ev_lines e);
  _ ← requireThat (negb (Nat.eqb (length (ev_lines e)) 0)) "empty k6 output";
  _ ← match scenario_name (ev_current e) with Some (JStr _) => inl tt | _ => inr "Cannot read properties" end;
  _ ← each (λ _ op, steady_present bs op) tt (requiredOps (is_loan_chain (ev_current e)));
  rows ← phase_rows durations bs;
  gates ← summary_gates metrics (is_loan_chain (ev_current e));
  out ← outcome_gates (ev_outcomes e);
  host ← host_gates (ev_host e);
  verdict ← match ev_baseline e with
          | Some baseline => t ← comparison (ev_current e) baseline rows; inl (Some t)
          | None => inl None
          end;
  let gateFailures := gates.1 ++ out ++ host ++
    when (match verdict with Some Regressed => true | _ => false end) GRegression ++
    when (negb (is_str (get_opt current "result") "pass")) GExecution in
  inl (mkVerdict (Nat.eqb (length gateFailures) 0) verdict rows gates.2 gateFailures).
End comparison.

(** ** Lemmas: checks *)

Lemma chk_bind_inl {A B} (m : Chk A) (f : A → Chk B) b : m ≫= f = inl b ↔ ∃ a, m = inl a ∧ f a = inl b.
Proof. destruct m; simpl; [|naive_solver]. split; [eauto|]. by intros (? & [= <-] & ?). Qed.

Lemma requireThat_inl c m u : requireThat c m = inl u ↔ c = true.
Proof. destruct u. by destruct c. Qed.

Ltac chk :=
  repeat match goal with
  | H : _ ≫= _ = inl _ |- _ => apply chk_bind_inl in H as (? & ? & H)
  | H : requireThat _ _ = inl _ |- _ => apply requireThat_inl in H
  end.

(** A loop that only adds: every element had its turn, and what it made of the
    accumulator is part of the result. *)
Lemma each_elem {A B} (R : B → B → Prop) `{!PreOrder R} (f : B → A → Chk B) l acc acc' :
  (∀ x a y, f x a = inl y → R x y) → each f acc l = inl acc' →
  R acc acc' ∧ ∀ a, a ∈ l → ∃ x y, f x a = inl y ∧ R y acc'.
Proof.
  intros Hf. revert acc. induction l as [|a l IH]; intros acc He; simpl in He.
  - simplify_eq. split; [done|]. set_solver.
  - chk. destruct (IH _ He) as [Hr Hl]. split; [by etransitivity; [eapply Hf|]|].
    intros a' [->|Ha]%elem_of_cons; eauto.
Qed.

Lemma each_inv {A B} (P : B → Prop) (f : B → A → Chk B) l acc acc' :
  (∀ x a y, f x a = inl y → P x → P y) → each f acc l = inl acc' → P acc → P acc'.
Proof.
  intros Hf. revert acc. induction l as [|a l IH]; intros acc He Hp; simpl in He; [by simplify_eq|].
  chk. eauto.
Qed.

Lemma each_map {A B} (g : A → Chk B) l acc acc' :
  each (λ acc a, r ← g a; inl (acc ++ [r])) acc l = inl acc' →
  ∃ rs, acc' = acc ++ rs ∧ Forall2 (λ a r, g a = inl r) l rs.
Proof.
  revert acc. induction l as [|a l IH]; intros acc He; simpl in He.
  - simplify_eq. exists []. split; [by rewrite app_nil_r|constructor].
  - chk. simplify_eq. destruct (IH _ He) as (rs & -> & Hrs). exists (x0 :: rs). split; [by rewrite <- app_assoc|]. by constructor.
Qed.

Lemma when_nil b g : when b g = [] ↔ b = false.
Proof. by destruct b. Qed.

(** ** Lemmas: the gates *)

Lemma breaches_spec metrics bs :
  breaches metrics = inl bs →
  ∀ m, m ∈ metrics → ∃ thresholds, get (Some m.2) "thresholds" = inl thresholds ∧
    ∀ t, t ∈ entries_of thresholds → ∃ failed, breached t.2 = Some failed ∧ (failed = true → (m.1, t.1) ∈ bs).
Proof.
  intros Hb m Hm. unfold breaches in Hb. set (inner := λ (m : string * json) acc (t : string * json),
    match breached t.2 with Some failed => inl (if failed : bool then acc ++ [(m.1, t.1)] else acc) | None => inr ("invalid threshold: " ⊕ m.1) end).
  assert (∀ m (x : list (string * string)) t y, inner m x t = inl y → x `prefix_of` y) as Hin.
  { intros m' x t y Hi. unfold inner in Hi. destruct (breached t.2) as [[]|]; simplify_eq; [by eexists|done]. }
  apply (each_elem prefix) in Hb as [_ Hall].
  - destruct (Hall m Hm) as (x & y & Hf & Hy). chk. exists x0. split; [done|]. intros t Ht.
    apply (each_elem prefix) in Hf as [_ Hts]; [|intros; by eapply (Hin m)].
    destruct (Hts t Ht) as (x1 & y1 & Hf1 & Hy1). destruct (breached t.2) as [failed|]; [|done]. exists failed. split; [done|].
    intros ->. simplify_eq. eapply elem_of_prefix; [eapply elem_of_prefix; [|exact Hy1]|exact Hy]. set_solver.
  - intros x a y Hf. chk. apply (each_elem prefix) in Hf as [? _]; [done|]. intros; by eapply (Hin a).
Qed.

(** A summary that closes no gate: no threshold is breached, no check failed,
    every kind of failure was counted and counts nothing, and no workflow was
    left unfinished. *)
Definition clean_summary (metrics : obj json) (loan : bool) : Prop :=
  (∀ m, m ∈ metrics → ∃ thresholds, get (Some m.2) "thresholds" = inl thresholds ∧
     ∀ t, t ∈ entries_of thresholds → breached t.2 = Some false) ∧
  (∃ n, get_opt (metric_values (obj_get metrics "checks")) "fails" = Some (JNum n) ∧ num_zero n = true) ∧
  (∀ kind, kind ∈ FAILURE_KINDS → ∃ n, failure_count metrics kind = inl (kind, n) ∧ num_zero n = true) ∧
  (∀ name, name ∈ unfinishedNames loan → ∃ n, counter metrics "missing outcome metric: " name name = inl n ∧ num_zero n = true).

Lemma summary_gates_clean metrics loan failures :
  summary_gates metrics loan = inl ([], failures) → clean_summary metrics loan.
Proof.
  unfold summary_gates. intros (broken & Hbroken & Hs)%chk_bind_inl. apply chk_bind_inl in Hs as (_ & _ & Hs).
  apply chk_bind_inl in Hs as (fails & Hfails & Hs). apply chk_bind_inl in Hs as (_ & _ & Hs).
  apply chk_bind_inl in Hs as (fs & Hfs & Hs). apply chk_bind_inl in Hs as (un & Hun & Hs).
  injection Hs as Hg <-. apply app_nil in Hg as [Gbr Hg]. apply app_nil in Hg as [Gck Hg]. apply app_nil in Hg as [Gfk Gun].
  rewrite when_nil in Gbr, Gck, Gun. split_and!.
  - intros m Hm. destruct (breaches_spec _ _ Hbroken m Hm) as (th & Hth & Hall). exists th. split; [done|]. intros t Ht.
    destruct (Hall t Ht) as ([] & Hb & Hin); [|done]. specialize (Hin eq_refl). destruct broken; [set_solver|done].
  - unfold number in Hfails. destruct (get_opt _ "fails") as [[]|]; try done. case_match; [|done]. simplify_eq.
    eexists. split; [done|]. by apply negb_false_iff in Gck.
  - intros kind Hk. apply each_map in Hfs as (rs & -> & Hrs). apply list_elem_of_lookup in Hk as [i Hi].
    destruct (Forall2_lookup_l _ _ _ _ _ Hrs Hi) as ([k n] & Hn & Hc). pose proof Hc as Hc'.
    unfold failure_count in Hc'. apply chk_bind_inl in Hc' as (n' & _ & [= -> ->]). exists n. split; [done|].
    destruct (num_zero n) eqn:Ez; [done|]. exfalso. apply elem_of_nil with (GKind k n). rewrite <- Gfk.
    apply list_elem_of_bind. exists (k, n). simpl. rewrite Ez. simpl. split; [set_solver|]. by eapply list_elem_of_lookup_2.
  - intros name Hk. apply each_map in Hun as (rs & -> & Hrs). apply list_elem_of_lookup in Hk as [i Hi].
    destruct (Forall2_lookup_l _ _ _ _ _ Hrs Hi) as (n & Hn & Hc). exists n. split; [done|].
    destruct (num_zero n) eqn:Ez; [done|]. exfalso. apply not_true_iff_false in Gun. apply Gun. apply existsb_exists.
    exists n. split; [|by rewrite Ez]. apply list_elem_of_In. by eapply list_elem_of_lookup_2.
Qed.

(** Outcomes that close no gate: there are some, each with an id of its own,
    and all of them COMPLETED. *)
Definition clean_outcomes (outcomes : json) : Prop :=
  ∃ items, get_opt (Some outcomes) "instances" = Some (JArr items) ∧ items ≠ [] ∧ Forall (λ i, completed i = true) items ∧
    ∃ ids, NoDup ids ∧ Forall2 (λ i id, get_opt (Some i) "id" = Some (JStr id)) items ids.

Lemma outcome_ids items ids ids' :
  each outcome ids items = inl ids' → NoDup ids →
  ∃ new, ids' = ids ++ new ∧ NoDup ids' ∧ Forall2 (λ i id, get_opt (Some i) "id" = Some (JStr id)) items new.
Proof.
  revert ids. induction items as [|i items IH]; intros ids He Hnd; simpl in He.
  - simplify_eq. exists []. rewrite app_nil_r. split_and!; [done|done|constructor].
  - apply chk_bind_inl in He as (ids1 & Ho & He). unfold outcome in Ho. apply chk_bind_inl in Ho as (_ & _ & Ho).
    destruct (get_opt (Some i) "id") as [[]|] eqn:Eid; try done. apply chk_bind_inl in Ho as (? & Hr & Ho).
    apply chk_bind_inl in Ho as (_ & _ & [= <-]). apply requireThat_inl, andb_true_iff in Hr as [_ Hn].
    apply negb_true_iff, includes_false in Hn.
    destruct (IH _ He) as (new & -> & Hnd' & Hf).
    { apply NoDup_app. split_and!; [done| |apply NoDup_singleton]. intros y Hy ->%list_elem_of_singleton. done. }
    exists (s :: new). split_and!; [by rewrite <- app_assoc|done|]. by constructor.
Qed.

Lemma outcome_gates_clean outcomes : outcome_gates outcomes = inl [] → clean_outcomes outcomes.
Proof.
  unfold outcome_gates, clean_outcomes. destruct (get_opt (Some outcomes) "instances") as [[]|]; try done.
  destruct l as [|i is_]; [done|]. intros (ids & Hids & Ho)%chk_bind_inl. apply chk_bind_inl in Ho as (n & _ & [= Hg]).
  apply app_nil in Hg as [Hc _]. rewrite when_nil in Hc. apply negb_false_iff in Hc.
  destruct (outcome_ids _ _ _ Hids (NoDup_nil_2)) as (new & -> & Hnd & Hf). exists (i :: is_).
  split_and!; [done|done| |by exists new]. change (forallb completed (i :: is_) = true) in Hc.
  apply Forall_forall. rewrite forallb_forall in Hc. intros x Hx. by apply Hc, list_elem_of_In.
Qed.

(** ** Lemmas: samples and rows *)

Definition bucket_ok (b : Bucket) : Prop := bk_errors b ≤ bk_errorSamples b.

Lemma update_ok key f bs :
  (∀ b, bucket_ok b → bucket_ok (f b)) → Forall bucket_ok bs → Forall bucket_ok (update_bucket key f bs).
Proof. intros Hf Hb. unfold update_bucket. apply Forall_fmap. eapply Forall_impl; [exact Hb|]. intros b Hok. simpl. case_match; auto. Qed.

Lemma sample_ok tr lm em bs ev bs' : sample tr lm em bs ev = inl bs' → Forall bucket_ok bs → Forall bucket_ok bs'.
Proof.
  unfold sample. intros (? & _ & Hs)%chk_bind_inl Hb. repeat (case_match; [by simplify_eq|]).
  apply chk_bind_inl in Hs as (_ & _ & Hs). apply chk_bind_inl in Hs as (v & _ & Hs). case_match.
  - simplify_eq. by apply update_ok.
  - apply chk_bind_inl in Hs as (_ & _ & [= <-]). apply update_ok; [|done]. unfold bucket_ok. simpl. intros b Hbb. case_match; lia.
Qed.

Lemma samples_ok tr lm em lines bs : samples tr lm em lines = inl bs → Forall bucket_ok bs.
Proof.
  intros Hs. eapply (each_inv (Forall bucket_ok)); [|exact Hs|].
  - intros x a y Hf Hx. destruct a as [ev|]; [|done]. by eapply sample_ok.
  - by vm_compute; repeat constructor.
Qed.

Lemma num_le_at e a b :
  (e ≤ expo a)%Z → (e ≤ expo b)%Z → num_le a b ↔ (mant a * 2 ^ (expo a - e) <= mant b * 2 ^ (expo b - e))%Z.
Proof. intros Ha Hb. unfold num_le. rewrite (num_compare_at e) by done. done. Qed.

#[export] Instance num_le_preorder : PreOrder num_le.
Proof.
  split.
  - intros a. rewrite (num_le_at (expo a)) by lia. lia.
  - intros a b c. set (e := Z.min (expo a) (Z.min (expo b) (expo c))). rewrite !(num_le_at e) by lia. lia.
Qed.

#[export] Instance num_le_total : Total num_le.
Proof. intros a b. set (e := Z.min (expo a) (expo b)). rewrite !(num_le_at e) by lia. lia. Qed.

(** The rank of a percentile. *)
Definition rank (n percent : nat) : nat := (n * percent + 99) / 100.

Lemma rank_bounds n p : 0 < n → 0 < p → p ≤ 100 → 0 < rank n p ≤ n ∧ n * p ≤ 100 * rank n p ∧ 100 * (rank n p - 1) < n * p.
Proof.
  intros Hn Hp Hp'. unfold rank. pose proof (Nat.div_mod_eq (n * p + 99) 100). pose proof (Nat.mod_upper_bound (n * p + 99) 100). nia.
Qed.

Lemma rank_mono n p q : p ≤ q → rank n p ≤ rank n q.
Proof. intros Hpq. unfold rank. apply Nat.Div0.div_le_mono. nia. Qed.

Lemma sorted_lookup_le l i j a b :
  StronglySorted num_le l → l !! i = Some a → l !! j = Some b → i ≤ j → num_le a b.
Proof.
  intros Hs. revert i j. induction Hs as [|x l Hl IH Hx]; intros i j Hi Hj Hle; [done|].
  destruct i as [|i], j as [|j]; simpl in *; simplify_eq; try lia; [reflexivity| |by eapply (IH i j); [done|done|lia]].
  rewrite Forall_forall in Hx. apply Hx. by eapply list_elem_of_lookup_2.
Qed.

Lemma filter_keeps_all {A} (P : A → Prop) `{!∀ x, Decision (P x)} l : Forall P l → filter P l = l.
Proof. induction 1; [done|]. by rewrite filter_cons_True, IHForall. Qed.

Lemma filter_none {A} (P : A → Prop) `{!∀ x, Decision (P x)} l : Forall (λ x, ¬ P x) l → filter P l = [].
Proof. induction 1; [done|]. by rewrite filter_cons_False. Qed.

(** In a sorted list at least [k + 1] values are not above the [k]-th and at
    most [k] are below it. *)
Lemma rank_counts l k v :
  StronglySorted num_le l → l !! k = Some v →
  S k ≤ length (filter (λ x, num_le x v) l) ∧ length (filter (λ x, ¬ num_le v x) l) ≤ k.
Proof.
  intros Hs Hk. assert (k < length l) as Hlt by (by eapply lookup_lt_Some). split.
  - rewrite <- (take_drop (S k) l), filter_app, length_app, filter_keeps_all; [rewrite length_take; lia|].
    apply Forall_forall. intros x (i & Hi)%list_elem_of_lookup. apply lookup_take_Some in Hi as [Hi Hik].
    eapply (sorted_lookup_le l i k); [done..|lia].
  - rewrite <- (take_drop k l), filter_app, length_app, (filter_none _ (drop k l)).
    + simpl. rewrite Nat.add_0_r. etransitivity; [apply length_filter|]. rewrite length_take. lia.
    + apply Forall_forall. intros x (i & Hi)%list_elem_of_lookup. rewrite lookup_drop in Hi. intros Hn. apply Hn.
      eapply (sorted_lookup_le l k (k + i)); [done..|lia].
Qed.

Lemma percentile_Some l p : 0 < length l → 0 < p → p ≤ 100 → ∃ v, percentile l p = Some v ∧ l !! (rank (length l) p - 1) = Some v.
Proof.
  intros Hl Hp Hp'. destruct (rank_bounds (length l) p Hl Hp Hp') as [Hr _].
  destruct (lookup_lt_is_Some_2 l (rank (length l) p - 1)) as [v Hv]; [lia|]. by exists v.
Qed.

Lemma sorted_values l : StronglySorted num_le (merge_sort num_le l).
Proof. apply (StronglySorted_merge_sort num_le). Qed.

Lemma phase_row_spec durations b r :
  phase_row durations b = inl r → bucket_ok b →
  ph_count r = length (bk_values b) ∧ ph_errors r ≤ ph_count r ∧
  (0 < ph_count r → ∃ a b c, ph_p50 r = Some a ∧ ph_p95 r = Some b ∧ ph_p99 r = Some c ∧ num_le a b ∧ num_le b c).
Proof.
  unfold phase_row. intros (? & He & [= <-])%chk_bind_inl Hok. apply requireThat_inl, Nat.eqb_eq in He. simpl.
  rewrite (Permutation_length (merge_sort_Permutation num_le (bk_values b))). split_and!; [done|unfold bucket_ok in Hok; lia|].
  intros Hpos. set (l := merge_sort num_le (bk_values b)).
  assert (0 < length l) as Hl by (unfold l; by rewrite (Permutation_length (merge_sort_Permutation num_le (bk_values b)))).
  destruct (percentile_Some l 50 Hl) as (a & Ea & La); [lia..|]. destruct (percentile_Some l 95 Hl) as (b' & Eb & Lb); [lia..|].
  destruct (percentile_Some l 99 Hl) as (c & Ec & Lc); [lia..|]. exists a, b', c. split_and!; [done|done|done| |].
  - eapply (sorted_lookup_le l); [apply sorted_values|exact La|exact Lb|]. pose proof (rank_mono (length l) 50 95). lia.
  - eapply (sorted_lookup_le l); [apply sorted_values|exact Lb|exact Lc|]. pose proof (rank_mono (length l) 95 99). lia.
Qed.

(** ** Lemmas: the comparison *)

Section compared.
Context `{JsonText}.

(** No metric of a row is flagged for getting worse. *)
Definition no_worse (base : json) (row : PhaseRow) : Prop :=
  ∀ m, ∃ b, get_opt (Some base) (metric_key m) = Some (JNum b) ∧
    (got_worse m b (row_value m row) = true → flagged m b (row_value m row) = false).

Definition flags_le (a b : bool * bool) : Prop := a.1 = true → b.1 = true.

#[local] Instance flags_preorder : PreOrder flags_le.
Proof. split; unfold flags_le; [by intros ?|naive_solver]. Qed.

Lemma number_inl v name n : number v name = inl n → v = Some (JNum n).
Proof. unfold number. repeat case_match; naive_solver. Qed.

Lemma compare_metric_keeps base row acc m acc' : compare_metric base row acc m = inl acc' → flags_le acc acc'.
Proof. unfold compare_metric, flags_le. intros (b & _ & [= <-])%chk_bind_inl. by repeat case_match. Qed.

Lemma compare_metric_worse base row acc m acc' :
  compare_metric base row acc m = inl acc' → acc'.1 = false →
  ∃ b, get_opt (Some base) (metric_key m) = Some (JNum b) ∧
    (got_worse m b (row_value m row) = true → flagged m b (row_value m row) = false).
Proof.
  unfold compare_metric. intros (b & Hb%number_inl & [= <-])%chk_bind_inl Hw. exists b. split; [done|]. intros Hg.
  rewrite Hg in Hw. by destruct (flagged m b _).
Qed.

Lemma find_metrics_spec metrics row base : find_metrics metrics row = inl (Some base) →
  base ∈ metrics ∧ is_str (get_opt (Some base) "phase") (ph_phase row) = true ∧
  is_str (get_opt (Some base) "operation") (ph_operation row) = true.
Proof.
  induction metrics as [|p metrics IH]; simpl; [done|]. intros (phase & Hp & Hf)%chk_bind_inl.
  destruct (_ && _) eqn:Eb; [|destruct (IH Hf) as (? & ? & ?); split_and!; [by right|done..]].
  injection Hf as <-. apply andb_true_iff in Eb as [Hph Hop]. split_and!; [by left| |done].
  destruct p; simpl in Hp; try (injection Hp as <-; done). done.
Qed.

Lemma compare_row_spec metrics acc row acc' : compare_row metrics acc row = inl acc' →
  flags_le acc acc' ∧
  (acc'.1 = false → ∃ base, base ∈ metrics ∧ is_str (get_opt (Some base) "phase") (ph_phase row) = true ∧
     is_str (get_opt (Some base) "operation") (ph_operation row) = true ∧ no_worse base row).
Proof.
  unfold compare_row. intros ([base|] & Hf & Hc)%chk_bind_inl; [|done]. apply chk_bind_inl in Hc as (_ & _ & Hc).
  apply (each_elem flags_le) in Hc as [Hle Hall]; [|intros; by eapply compare_metric_keeps]. split; [done|]. intros Hw.
  destruct (find_metrics_spec _ _ _ Hf) as (? & ? & ?). exists base. split_and!; [done..|]. intros m.
  destruct (Hall m) as (x & y & Hm & Hy); [destruct m; set_solver|]. eapply compare_metric_worse; [exact Hm|].
  apply not_true_iff_false. intros Ht. specialize (Hy Ht). congruence.
Qed.

Lemma comparison_not_regressed current baseline rows t :
  comparison current baseline rows = inl t → t ≠ Regressed →
  compatible baseline current = inl tt ∧ ∃ metrics, get_opt (Some baseline) "phaseMetrics" = Some (JArr metrics) ∧
    ∀ row, row ∈ rows → steady row = true →
      ∃ base, base ∈ metrics ∧ is_str (get_opt (Some base) "phase") (ph_phase row) = true ∧
        is_str (get_opt (Some base) "operation") (ph_operation row) = true ∧ no_worse base row.
Proof.
  unfold comparison. intros ([] & Hc & Hm)%chk_bind_inl Ht. split; [done|].
  destruct (get_opt (Some baseline) "phaseMetrics") as [[| | | |metrics|]|]; try done. exists metrics. split; [done|].
  apply chk_bind_inl in Hm as (flags & Hf & [= <-]). intros row Hin Hst.
  apply (each_elem flags_le) in Hf as [_ Hall]; [|intros x a y Ha; by apply compare_row_spec in Ha as [? _]].
  destruct (Hall row) as (x & y & Hr & Hy); [by apply list_elem_of_In, filter_In; rewrite <- list_elem_of_In|].
  apply compare_row_spec in Hr as [_ Hr]. apply Hr. apply not_true_iff_false. intros Hw. specialize (Hy Hw).
  unfold trend in Ht. by rewrite Hy in Ht.
Qed.

(** What [main] read, when it gave a verdict. *)
Lemma main_inv e v :
  main e = inl v →
  ∃ durations tr lm em bs gates out host,
    samples tr lm em (ev_lines e) = inl bs ∧ ev_lines e ≠ [] ∧
    (∀ op, op ∈ requiredOps (is_loan_chain (ev_current e)) → ∃ u, steady_present bs op = inl u) ∧
    phase_rows durations bs = inl (vd_rows v) ∧
    summary_gates (entries_of (get_opt (Some (ev_summary e)) "metrics")) (is_loan_chain (ev_current e)) = inl gates ∧
    outcome_gates (ev_outcomes e) = inl out ∧ host_gates (ev_host e) = inl host ∧
    match ev_baseline e with
    | Some baseline => ∃ t, comparison (ev_current e) baseline (vd_rows v) = inl t ∧ vd_comparison v = Some t
    | None => vd_comparison v = None
    end ∧
    vd_gateFailures v = gates.1 ++ out ++ host ++
      when (match vd_comparison v with Some Regressed => true | _ => false end) GRegression ++
      when (negb (is_str (get_opt (Some (ev_current e)) "result") "pass")) GExecution ∧
    vd_pass v = Nat.eqb (length (vd_gateFailures v)) 0.
Proof.
  unfold main. intros Hm. do 4 (apply chk_bind_inl in Hm as (? & _ & Hm)).
  do 3 (apply chk_bind_inl in Hm as (? & _ & Hm)).
  apply chk_bind_inl in Hm as (bs & Hbs & Hm). apply chk_bind_inl in Hm as (? & Hl & Hm).
  apply chk_bind_inl in Hm as (? & _ & Hm). apply chk_bind_inl in Hm as (? & Hops & Hm).
  apply chk_bind_inl in Hm as (rows & Hrows & Hm). apply chk_bind_inl in Hm as (gates & Hg & Hm).
  apply chk_bind_inl in Hm as (out & Ho & Hm). apply chk_bind_inl in Hm as (host & Hh & Hm).
  apply chk_bind_inl in Hm as (verdict & Hw & [= <-]).
  eexists _, _, _, _, bs, gates, out, host. split_and!; try done.
  - apply requireThat_inl in Hl. by destruct (ev_lines e).
  - apply (each_elem (λ _ _ : unit, True)) in Hops as [_ Hops]; [|done]. intros op Hop. destruct (Hops op Hop) as (? & y & Hy & _). eauto.
  - destruct (ev_baseline e); [|by injection Hw as <-]. apply chk_bind_inl in Hw as (t & Ht & [= <-]). eauto.
Qed.
End compared.

(** C32: a load test passes only on clean evidence: no threshold breached, no check
    failed, every kind of failure counted and at zero, no workflow unfinished,
    every workflow of the run listed once and COMPLETED, k6 itself successful,
    and, when there is a baseline, it is of a comparable run that has every
    operation of the steady state and none of its latency, throughput and error
    rate is flagged for getting worse; and a verdict is a pass exactly when
    there is nothing to report. *)
Theorem pass_means_clean `{JsonText} e v :
  main e = inl v →
  (vd_pass v = true ↔ vd_gateFailures v = []) ∧
  (vd_pass v = true →
     clean_summary (entries_of (get_opt (Some (ev_summary e)) "metrics")) (is_loan_chain (ev_current e)) ∧
     clean_outcomes (ev_outcomes e) ∧
     (∀ baseline, ev_baseline e = Some baseline →
        compatible baseline (ev_current e) = inl tt ∧
        ∃ metrics, get_opt (Some baseline) "phaseMetrics" = Some (JArr metrics) ∧
          ∀ row, row ∈ vd_rows v → steady row = true →
            ∃ base, base ∈ metrics ∧ is_str (get_opt (Some base) "phase") (ph_phase row) = true ∧
              is_str (get_opt (Some base) "operation") (ph_operation row) = true ∧ no_worse base row) ∧
     is_str (get_opt (Some (ev_current e)) "result") "pass" = true).
Proof.
  intros Hm. destruct (main_inv e v Hm) as (ds & tr & lm & em & bs & [gs fs] & out & host & _ & _ & _ & _ & Hg & Ho & Hh & Hw & Ef & Ep).
  assert (vd_pass v = true ↔ vd_gateFailures v = []) as Hiff by (rewrite Ep, Nat.eqb_eq; by destruct (vd_gateFailures v)).
  split; [done|]. intros Hp. apply Hiff in Hp. rewrite Hp in Ef. symmetry in Ef. simpl in Ef.
  apply app_nil in Ef as [-> Ef]. apply app_nil in Ef as [-> Ef]. apply app_nil in Ef as [_ Ef]. apply app_nil in Ef as [Er Ex].
  rewrite when_nil in Er, Ex. split_and!; [by eapply summary_gates_clean|by apply outcome_gates_clean| |by apply negb_false_iff].
  intros baseline Hb. rewrite Hb in Hw. destruct Hw as (t & Ht & Hv). eapply comparison_not_regressed; [exact Ht|].
  intros ->. by rewrite Hv in Er.
Qed.

(** The numbers of a report are meaningful: every line has samples, no more
    errors than samples, and percentiles in order; and every operation the
    scenario must exercise has samples in the steady state. *)
Theorem report_rows `{JsonText} e v :
  main e = inl v →
  Forall (λ r, 0 < ph_count r ∧ ph_errors r ≤ ph_count r ∧
    ∃ a b c, ph_p50 r = Some a ∧ ph_p95 r = Some b ∧ ph_p99 r = Some c ∧ num_le a b ∧ num_le b c) (vd_rows v) ∧
  (∀ op, op ∈ requiredOps (is_loan_chain (ev_current e)) →
     ∃ r, r ∈ vd_rows v ∧ ph_phase r ⊕ "/" ⊕ ph_operation r = "steady-state/" ⊕ op).
Proof.
  intros Hm. destruct (main_inv e v Hm) as (ds & tr & lm & em & bs & gs & out & host & Hs & _ & Hops & Hrows & _).
  pose proof (samples_ok _ _ _ _ _ Hs) as Hok. unfold phase_rows in Hrows. apply chk_bind_inl in Hrows as (rows & Hr & [= <-]).
  apply each_map in Hr as (rs & -> & Hrs). simpl. split.
  - apply Forall_forall. intros r [Hin Hpos]%list_elem_of_In%filter_In. apply Nat.ltb_lt in Hpos. split; [done|].
    apply list_elem_of_In, list_elem_of_lookup in Hin as [i Hi]. destruct (Forall2_lookup_r _ _ _ _ _ Hrs Hi) as (b & Hb & Hrow).
    rewrite Forall_forall in Hok. destruct (phase_row_spec _ b r Hrow) as (_ & ? & Hp); [apply Hok; by eapply list_elem_of_lookup_2|]. eauto.
  - intros op Hop. destruct (Hops op Hop) as [u Hu]. unfold steady_present in Hu. apply requireThat_inl, existsb_exists in Hu as (b & Hin & Hb).
    apply andb_true_iff in Hb as [Hk Hl]. apply String.eqb_eq in Hk. apply Nat.ltb_lt in Hl.
    apply list_elem_of_In, list_elem_of_lookup in Hin as [i Hi]. destruct (Forall2_lookup_l _ _ _ _ _ Hrs Hi) as (r & Hr & Hrow).
    exists r. rewrite Forall_forall in Hok. destruct (phase_row_spec _ b r Hrow) as (Hc & _); [apply Hok; by eapply list_elem_of_lookup_2|].
    split.
    + apply list_elem_of_In, filter_In. split; [apply list_elem_of_In; by eapply list_elem_of_lookup_2|]. apply Nat.ltb_lt. lia.
    + unfold phase_row in Hrow. apply chk_bind_inl in Hrow as (_ & _ & [= <-]). exact Hk.
Qed.

(** A percentile is one of the samples, at least that share of the samples is
    not above it, and less than that share is below it. *)
Theorem percentile_nearest_rank values p :
  values ≠ [] → 0 < p → p ≤ 100 →
  let l := merge_sort num_le values in
  ∃ v, percentile l p = Some v ∧ v ∈ values ∧
    length values * p ≤ 100 * length (filter (λ x, num_le x v) values) ∧
    100 * length (filter (λ x, ¬ num_le v x) values) < length values * p.
Proof.
  intros Hne Hp Hp' l. pose proof (merge_sort_Permutation num_le values) as Hperm. fold l in Hperm.
  assert (0 < length l) as Hl by (rewrite (Permutation_length Hperm); by destruct values; [|simpl; lia]).
  destruct (percentile_Some l p Hl Hp Hp') as (v & Hv & Hk). exists v. split; [done|].
  destruct (rank_counts l _ v (sorted_values values) Hk) as [H1 H2].
  destruct (rank_bounds (length l) p Hl Hp Hp') as (Hr & Hge & Hlt). split_and!.
  - rewrite <- Hperm. by eapply list_elem_of_lookup_2.
  - rewrite <- Hperm at 2. rewrite <- (Permutation_length Hperm). nia.
  - rewrite <- Hperm at 1. rewrite <- (Permutation_length Hperm). nia.
Qed.

(** ** Witnesses *)

Definition point (metric operation : string) (value : Z) : option json :=
  Some (JObj [("type", JStr "Point"); ("metric", JStr metric);
    ("data", JObj [("value", JNum (num_of_Z value));
      ("tags", JObj [("phase", JStr "steady-state"); ("operation", JStr operation); ("name", JStr operation); ("url", JStr operation)])])]).

Definition zero_counter (name : string) : string * json := (name, JObj [("count", JNum (num_of_Z 0))]).

Definition run_summary (rows : list json) : json :=
  JObj [("schemaVersion", JStr "2.0"); ("harnessSha", JStr "abc"); ("result", JStr "pass"); ("thresholds", JStr "p95<500");
    ("host", JStr "ci"); ("generator", JStr "k6");
    ("engine", JObj [("transport", JStr "rest"); ("dispatchMode", JStr "polling"); ("workerReplicas", JNum (num_of_Z 2))]);
    ("scenario", JObj [("name", JStr "thousand-concurrent");
       ("config", JObj [("rampUp", JStr "2m"); ("steady", JStr "10m"); ("rampDown", JStr "0.5h")])]);
    ("phaseMetrics", JArr rows)].

(** A run to compare with: one sample per operation in ten minutes. *)
Definition baseline_run (p95 : Z) : json :=
  run_summary ((λ op, JObj [("phase", JStr "steady-state"); ("operation", JStr op); ("count", JNum (num_of_Z 1));
      ("rate", JNum (round_ratio 1 600)); ("errorRate", JNum (num_of_Z 0)); ("p95Ms", JNum (num_of_Z p95))]) <$>
    requiredOps false).

Definition evidence (baseline : option json) : Evidence :=
  mkEvidence (run_summary [])
    (JObj [("metrics", JObj ([("checks", JObj [("fails", JNum (num_of_Z 0)); ("passes", JNum (num_of_Z 8));
                                             ("thresholds", JObj [("rate==1", JBool false)])])] ++
       (zero_counter <$> ((λ k, "failure_kind_" ⊕ k) <$> FAILURE_KINDS)) ++
       [zero_counter "workflows_unfinished_after_steady_state"]))])
    (JObj [("summary", JObj [("sampleCount", JNum (num_of_Z 1)); ("k6CpuPctPeak", JNum (num_of_Z 40));
                            ("generatorLikelySaturated", JBool false)]); ("samples", JArr [JObj []])])
    (JObj [("instances", JArr [JObj [("id", JStr "i-1"); ("status", JStr "COMPLETED")]]); ("pendingChains", JNum (num_of_Z 0))])
    (["workflow.start"; "workflow.poll"; "workflow.list"; "workflow.history"] ≫= λ op,
       [point "http_req_duration" op 12; point "http_req_failed" op 0])
    baseline.

(** The slowest twentieth at 12 ms: against 11 ms within the band, against 10 ms
    a regression, against 20 ms an improvement. *)
Example trends :
  (λ p95, match main (evidence (Some (baseline_run p95))) with inl v => vd_comparison v | inr _ => None end) <$> [10; 11; 20]%Z =
  [Some Regressed; Some WithinNoise; Some Improved].
Proof. by vm_compute. Qed.

Lemma pass_means_clean_witness :
  ∃ v, main (evidence (Some (baseline_run 11))) = inl v ∧ vd_pass v = true ∧ clean_outcomes (ev_outcomes (evidence None)) ∧
    ∃ row base, row ∈ vd_rows v ∧ no_worse base row.
Proof.
  destruct (main (evidence (Some (baseline_run 11)))) as [v|m] eqn:E; [|by vm_compute in E]. exists v. split; [reflexivity|].
  pose proof (pass_means_clean _ v E) as [_ H]. vm_compute in E. injection E as <-. split; [reflexivity|].
  destruct (H eq_refl) as (_ & Ho & Hb & _). split; [exact Ho|].
  destruct (Hb _ eq_refl) as (_ & metrics & _ & Hrows). eexists. edestruct Hrows as (base & _ & _ & _ & Hn); [left|reflexivity|].
  exists base. split; [left|exact Hn].
Defined.

Lemma report_rows_witness :
  ∃ v, main (evidence None) = inl v ∧ length (vd_rows v) = 4 ∧ Forall (λ r, ph_errors r ≤ ph_count r) (vd_rows v).
Proof.
  destruct (main (evidence None)) as [v|m] eqn:E; [|by vm_compute in E]. exists v. split; [reflexivity|].
  destruct (report_rows (evidence None) v E) as [H _]. vm_compute in E. injection E as <-. split; [reflexivity|].
  eapply Forall_impl; [exact H|]. intros r (_ & Hr & _). exact Hr.
Defined.

Lemma percentile_nearest_rank_witness :
  ∃ v, percentile (merge_sort num_le (num_of_Z <$> [30%Z; 10%Z; 20%Z])) 50 = Some v ∧ v ∈ num_of_Z <$> [30%Z; 10%Z; 20%Z].
Proof.
  destruct (percentile_nearest_rank (num_of_Z <$> [30%Z; 10%Z; 20%Z]) 50) as (v & H1 & H2 & _); [discriminate|lia|lia|].
  exists v. split; [exact H1|exact H2].
Defined.
