(* ===== verification/LoadTest.v ===== *)
(** * The k6 scenarios (perf/scenarios, perf/lib/client.js, grpc-client.js)

    One iteration of a virtual user, the side scenario that completes user
    tasks, and the counts of the teardown.  The scenarios exist twice, over REST
    and over gRPC; [Wire] is what they need of a response, with an instance for
    each: whether it passes its check, under which kind a failure counts, and
    what reading its body comes to, which throws when the body is not what it
    should be.  What the engine answers, and when, is a list of rounds. *)

From S2P Require Import Prelude JsObject ImportExport.

Inductive FailKind := EngineError | EngineTimeout | EngineUnresponsive | GeneratorSide.

#[export] Instance FailKind_eq_dec : EqDecision FailKind.
Proof. solve_decision. Defined.

Inductive Operation := OpStart | OpPoll | OpHistory | OpList | OpTaskComplete.

Inductive Status := Active | Waiting | Completed | Failed_ | Cancelled | OtherStatus.

#[export] Instance Status_eq_dec : EqDecision Status.
Proof. solve_decision. Defined.

Definition isTerminal (s : Status) : bool := match s with Completed | Failed_ | Cancelled => true | _ => false end.

(** What a scenario does with a response; [None] where reading its body throws. *)
Class Wire (Res : Type) := {
  res_ok : Operation → Res → bool;              (* the [check] on it *)
  classify : Res → bool → option FailKind;      (* [deadlineExpired] *)
  res_id : Res → option (option json);          (* the id of a started instance *)
  res_status : Res → option Status;             (* of a polled instance *)
  res_waits : string → Res → option bool        (* whether it waits at a step *)
}.

(** [v.k]: a [TypeError] of [null] and [undefined]. *)
Definition member (v : option json) (k : string) : option (option json) :=
  match v with
  | None | Some JNull => None
  | Some (JObj o) => Some (obj_get o k)
  | Some _ => Some None
  end.

(** [(v || []).indexOf(x) !== -1], which a string has too. *)
Definition indexOf_found (v : option json) (x : string) : option bool :=
  match v with
  | None => Some false
  | Some (JArr l) => Some (existsb (λ e, match e with JStr y => String.eqb x y | _ => false end) l)
  | Some (JStr y) => Some (if truthy_str y then match String.index 0 x y with Some _ => true | None => false end else false)
  | Some v => if truthy_json v then None else Some false
  end.

(** ** REST: the status and the error code of k6 *)

Record RestRes := mkRestRes { rt_status : Z; rt_error_code : Z; rt_body : string }.

Definition expected_status (op : Operation) : Z :=
  match op with OpStart => 201 | OpTaskComplete => 204 | _ => 200 end%Z.

Definition classifyFailure (res : RestRes) (iterationDeadlineExpired : bool) : option FailKind :=
  if iterationDeadlineExpired then Some EngineUnresponsive
  else if (1100 <=? rt_error_code res)%Z && (rt_error_code res <? 1300)%Z then Some GeneratorSide
  else if (rt_error_code res =? 1050)%Z then Some EngineTimeout
  else if (500 <=? rt_status res)%Z then Some EngineError
  else if (rt_status res =? 429)%Z || (rt_status res =? 503)%Z then Some EngineError
  else None.

Definition rest_status (v : option json) : Status :=
  match v with
  | Some (JStr s) =>
      if String.eqb s "ACTIVE" then Active else if String.eqb s "WAITING" then Waiting
      else if String.eqb s "COMPLETED" then Completed else if String.eqb s "FAILED" then Failed_
      else if String.eqb s "CANCELLED" then Cancelled else OtherStatus
  | _ => OtherStatus
  end.

(** [JSON.parse(res.body)] *)
Definition rest_body `{JsonText} (res : RestRes) : option json :=
  match JSON_parse (rt_body res) with inl v => Some v | inr _ => None end.

#[export] Instance rest_wire `{JsonText} : Wire RestRes := {|
  res_ok op res := (rt_status res =? expected_status op)%Z;
  classify := classifyFailure;
  res_id res := body ← rest_body res; member (Some body) "id";
  res_status res := body ← rest_body res; rest_status <$> member (Some body) "status";
  res_waits task res := body ← rest_body res; steps ← member (Some body) "currentStepIds"; indexOf_found steps task
|}.

(** ** gRPC: the status code *)

Definition StatusOK : nat := 0.
Definition StatusDeadlineExceeded : nat := 4.
Definition StatusUnavailable : nat := 14.

Record GrpcRes := mkGrpcRes { gp_status : nat; gp_message : option json }.

(** [ok] of the client's answers *)
Definition grpc_ok (res : GrpcRes) : bool := Nat.eqb (gp_status res) StatusOK.

Definition classifyGrpcFailure (res : GrpcRes) (deadlineExpired : bool) : option FailKind :=
  if deadlineExpired then Some EngineUnresponsive
  else if Nat.eqb (gp_status res) StatusDeadlineExceeded then Some EngineTimeout
  else if Nat.eqb (gp_status res) StatusUnavailable then Some EngineUnresponsive
  else if negb (grpc_ok res) then Some EngineError
  else None.

(** The names of the status in JSON, or [OtherStatus]. *)
Definition grpc_status (v : option json) : Status :=
  match v with
  | Some (JStr s) =>
      if String.eqb s "INSTANCE_STATUS_ACTIVE" then Active else if String.eqb s "INSTANCE_STATUS_WAITING" then Waiting
      else if String.eqb s "INSTANCE_STATUS_COMPLETED" then Completed else if String.eqb s "INSTANCE_STATUS_FAILED" then Failed_
      else if String.eqb s "INSTANCE_STATUS_CANCELLED" then Cancelled else OtherStatus
  | _ => OtherStatus
  end.

#[export] Instance grpc_wire : Wire GrpcRes := {|
  res_ok _ := grpc_ok;
  classify := classifyGrpcFailure;
  res_id res := instance ← member (gp_message res) "instance"; member instance "id";
  res_status res := instance ← member (gp_message res) "instance"; grpc_status <$> member instance "status";
  res_waits task res :=
    instance ← member (gp_message res) "instance"; steps ← member instance "currentStepIds"; indexOf_found steps task
|}.

(** ** What an iteration leaves behind *)

Record Trace := mkTrace {
  tr_checks : list (Operation * bool);      (* the outcomes of [check] on responses *)
  tr_outcome : list bool;                   (* of the check [workflow outcome: COMPLETED] *)
  tr_kinds : list FailKind;                 (* increments of the failure counters *)
  tr_started : nat;
  tr_completed : nat;                       (* chain_app_completed *)
  tr_tasks : nat                            (* user tasks completed *)
}.

Definition no_trace : Trace := mkTrace [] [] [] 0 0 0.

Definition add_check (op : Operation) (ok : bool) (t : Trace) : Trace :=
  mkTrace (tr_checks t ++ [(op, ok)]) (tr_outcome t) (tr_kinds t) (tr_started t) (tr_completed t) (tr_tasks t).
Definition add_outcome (ok : bool) (t : Trace) : Trace :=
  mkTrace (tr_checks t) (tr_outcome t ++ [ok]) (tr_kinds t) (tr_started t) (tr_completed t) (tr_tasks t).
Definition add_kind (k : option FailKind) (t : Trace) : Trace :=
  mkTrace (tr_checks t) (tr_outcome t) (tr_kinds t ++ option_list k) (tr_started t) (tr_completed t) (tr_tasks t).
Definition add_started (t : Trace) : Trace :=
  mkTrace (tr_checks t) (tr_outcome t) (tr_kinds t) (S (tr_started t)) (tr_completed t) (tr_tasks t).
Definition add_completed (t : Trace) : Trace :=
  mkTrace (tr_checks t) (tr_outcome t) (tr_kinds t) (tr_started t) (S (tr_completed t)) (tr_tasks t).
Definition add_task (t : Trace) : Trace :=
  mkTrace (tr_checks t) (tr_outcome t) (tr_kinds t) (tr_started t) (tr_completed t) (S (tr_tasks t)).

Definition APP_USER_TASK_ID : string := "manual-review-task".
Definition DISB_USER_TASK_ID : string := "senior-approval-task".

(** [(currentStepIds || []).indexOf(task) !== -1] *)
Definition waits_at (task : string) (steps : option (list string)) : bool :=
  existsb (String.eqb task) (default [] steps).

Section scenario.
Context {Res : Type} `{Wire Res}.

(** [if (!check(res, ...)) recordFailure(res, false)] *)
Definition checked (op : Operation) (res : Res) (t : Trace) : Trace :=
  let t := add_check op (res_ok op res) t in
  if res_ok op res then t else add_kind (classify res false) t.

(** ** One iteration of thousand-concurrent *)

(** A round of the poll loop: the clock when it begins, and the response. *)
Record Round := mkRound { rd_now : Z; rd_res : Res }.

Inductive LoopEnd := Terminal | Deadline | Threw | StillPolling.

Fixpoint poll_loop (deadline : Z) (rounds : list Round) (t : Trace) : Trace * LoopEnd :=
  match rounds with
  | [] => (t, StillPolling)
  | r :: rounds =>
      if negb (rd_now r <? deadline)%Z then (t, Deadline)
      else
        let t := checked OpPoll (rd_res r) t in
        if negb (res_ok OpPoll (rd_res r)) then poll_loop deadline rounds t
        else match res_status (rd_res r) with
             | None => (t, Threw)
             | Some status =>
                 if isTerminal status
                 then let completed := bool_decide (status = Completed) in
                      let t := add_outcome completed t in
                      (if completed then t else add_kind (Some EngineError) t, Terminal)
                 else poll_loop deadline rounds t
             end
  end.

(** An iteration ends by itself or by an exception nothing catches. *)
Inductive Ran := Finished (t : Trace) | Uncaught (t : Trace).

Definition ran_trace (r : Ran) : Trace := match r with Finished t | Uncaught t => t end.

(** The body of the default function; the history and, every tenth time, the
    list follow the loop.  [None] while the loop has not ended. *)
Definition iteration (start : Res) (now : Z) (rounds : list Round) (history : Res) (list_ : option Res) : option Ran :=
  let t := checked OpStart start no_trace in
  if negb (res_ok OpStart start) then Some (Finished t)
  else match res_id start with
  | None => Some (Uncaught t)
  | Some _ =>
      match poll_loop (now + 60 * 1000) rounds t with
      | (_, StillPolling) => None
      | (t, Threw) => Some (Uncaught t)
      | (t, e) =>
          let t := match e with Terminal => t | _ => add_kind (Some EngineUnresponsive) t end in
          let t := checked OpHistory history t in
          Some (Finished match list_ with Some res => checked OpList res t | None => t end)
      end
  end.

(** ** One iteration of the loan chain *)

(** A round with the user task: what completing the manual review comes to. *)
Record ChainRound := mkChainRound { cr_now : Z; cr_res : Res; cr_complete : Res }.

Fixpoint chain_loop (deadline : Z) (rounds : list ChainRound) (taskDone : bool) (t : Trace) : Trace * LoopEnd :=
  match rounds with
  | [] => (t, StillPolling)
  | r :: rounds =>
      if negb (cr_now r <? deadline)%Z then (t, Deadline)
      else
        let t := checked OpPoll (cr_res r) t in
        if negb (res_ok OpPoll (cr_res r)) then chain_loop deadline rounds taskDone t
        else match res_status (cr_res r) with
             | None => (t, Threw)
             | Some status =>
                 if isTerminal status
                 then (if bool_decide (status = Completed) then add_completed t else t, Terminal)
                 else match if taskDone then Some false else res_waits APP_USER_TASK_ID (cr_res r) with
                      | None => (t, Threw)
                      | Some true =>
                          let ok := res_ok OpTaskComplete (cr_complete r) in
                          let t := checked OpTaskComplete (cr_complete r) t in
                          chain_loop deadline rounds ok (if ok then add_task t else t)
                      | Some false => chain_loop deadline rounds taskDone t
                      end
             end
  end.

Definition chainLoad (start : Res) (now : Z) (rounds : list ChainRound) : option Ran :=
  let t := checked OpStart start no_trace in
  if negb (res_ok OpStart start) then Some (Finished t)
  else
    let t := add_started t in
    match res_id start with
    | None => Some (Uncaught t)
    | Some _ =>
        match chain_loop (now + 120 * 1000) rounds false t with
        | (_, StillPolling) => None
        | (t, Threw) => Some (Uncaught t)
        | (t, Terminal) => Some (Finished t)
        | (t, Deadline) => Some (Finished (add_kind (Some EngineUnresponsive) t))
        end
    end.
End scenario.
Arguments Round : clear implicits.
Arguments ChainRound : clear implicits.

(** ** Listing and completing: what the scenarios ask of the engine *)

Record Listed := mkListed { li_id : string; li_steps : option (list string); li_key : option string }.

Record ListOpts := mkListOpts { lo_definition : option string; lo_status : Status; lo_page : nat; lo_size : nat }.

Record Remote (Res W : Type) := mkRemote {
  re_list : W → ListOpts → Res * list Listed;      (* [items || []] *)
  re_complete : W → string → string → Res * W      (* an instance and the id of its step *)
}.
Arguments re_list {Res W}.
Arguments re_complete {Res W}.

Section teardown.
Context {Res : Type} `{Wire Res} {W : Type} (remote : Remote Res W).

(** The loop over the pages of one status; a page that is refused throws. *)
Fixpoint count_pages (more : nat → bool) (counts : Listed → bool) (definition : option string) (status : Status)
    (size : nat) (w : W) (fuel page acc : nat) : option (nat + Res) :=
  match fuel with
  | 0 => None
  | S fuel =>
      let '(res, items) := re_list remote w (mkListOpts definition status page size) in
      if negb (res_ok OpList res) then Some (inr res)
      else
        let acc := acc + length (List.filter counts items) in
        if more (length items) then count_pages more counts definition status size w fuel (S page) acc
        else Some (inl acc)
  end.

(** Both statuses, one after the other. *)
Definition count_open (more : nat → bool) (counts : Listed → bool) (definition : option string) (w : W) (fuel : nat) :
    option (nat + Res) :=
  match count_pages more counts definition Active 200 w fuel 0 0 with
  | Some (inl n) => count_pages more counts definition Waiting 200 w fuel 0 n
  | r => r
  end.

(** thousand-concurrent counts the instances of its own run. *)
Definition unfinished (runPrefix : string) (w : W) (fuel : nat) : option (nat + Res) :=
  count_open (λ n, Nat.eqb n 200) (λ i, String.prefix runPrefix (default EmptyString (li_key i))) None w fuel.

Definition countNonTerminal (definitionId : string) (w : W) (fuel : nat) : option (nat + Res) :=
  count_open (λ n, negb (Nat.ltb n 200)) (λ _, true) (Some definitionId) w fuel.

(** The inner loop of [findAndCompleteSeniorTasks]. *)
Fixpoint complete_items (items : list Listed) (w : W) (t : Trace) (completed : nat) : W * Trace * nat :=
  match items with
  | [] => (w, t, completed)
  | inst :: items =>
      if negb (waits_at DISB_USER_TASK_ID (li_steps inst)) then complete_items items w t completed
      else
        let '(res, w) := re_complete remote w (li_id inst) DISB_USER_TASK_ID in
        let ok := res_ok OpTaskComplete res in
        let t := checked OpTaskComplete res t in
        complete_items items w (if ok then add_task t else t) (if ok then S completed else completed)
  end.

(** [pages] are the pages still allowed, [pageLimit - page]. *)
Fixpoint find_pages (disb : string) (pages page : nat) (w : W) (t : Trace) (completed : nat) : W * Trace * nat :=
  match pages with
  | 0 => (w, t, completed)
  | S pages =>
      let '(res, items) := re_list remote w (mkListOpts (Some disb) Waiting page 100) in
      let t := checked OpList res t in
      if negb (res_ok OpList res) then (w, t, completed)
      else if Nat.eqb (length items) 0 then (w, t, completed)
      else
        let '(w, t, completed) := complete_items items w t completed in
        if Nat.ltb (length items) 100 then (w, t, completed)
        else find_pages disb pages (S page) w t completed
  end.

Definition findAndCompleteSeniorTasks (disb : string) (pageLimit : nat) (w : W) (t : Trace) : W * Trace * nat :=
  find_pages disb pageLimit 0 w t 0.

Definition TEARDOWN_SETTLE_SEC : nat := 30.
Definition TEARDOWN_DRAIN_PASSES : nat := 120.

(** The drain of the teardown: [nows] are the clock's answers, one per pass.  A
    count that throws ends the teardown. *)
Fixpoint drain (app disb : string) (fuel : nat) (settleUntil : Z) (nows : list Z) (w : W) (t : Trace) :
    option (W * Trace + Res) :=
  match nows with
  | [] => Some (inl (w, t))
  | now :: nows =>
      let '(w, t, _) := findAndCompleteSeniorTasks disb 20 w t in
      if negb (settleUntil <=? now)%Z then drain app disb fuel settleUntil nows w t
      else
        match countNonTerminal app w fuel with
        | None => None
        | Some (inr res) => Some (inr res)
        | Some (inl (S _)) => drain app disb fuel settleUntil nows w t
        | Some (inl 0) =>
            match countNonTerminal disb w fuel with
            | None => None
            | Some (inr res) => Some (inr res)
            | Some (inl (S _)) => drain app disb fuel settleUntil nows w t
            | Some (inl 0) => Some (inl (w, t))
            end
        end
  end.

(** What is added to the two unfinished counters. *)
Definition chain_teardown (app disb : string) (fuel : nat) (start : Z) (nows : list Z) (w : W) :
    option (nat * nat + Res) :=
  match drain app disb fuel (start + Z.of_nat TEARDOWN_SETTLE_SEC * 1000) nows w no_trace with
  | None => None
  | Some (inr res) => Some (inr res)
  | Some (inl (w, t)) =>
      match countNonTerminal app w fuel, countNonTerminal disb w fuel with
      | Some (inl a), Some (inl d) => Some (inl (a, d))
      | Some (inr res), _ | Some (inl _), Some (inr res) => Some (inr res)
      | _, _ => None
      end
  end.
End teardown.

(** ** Lemmas *)

Section lemmas.
Context {Res : Type} `{Wire Res}.

Lemma checked_kinds op res t : tr_kinds t `sublist_of` tr_kinds (checked op res t).
Proof. unfold checked. destruct (res_ok op res); simpl; [done|]. by apply sublist_inserts_r. Qed.

Lemma checked_outcome op res t : tr_outcome (checked op res t) = tr_outcome t.
Proof. unfold checked. by destruct (res_ok op res). Qed.

Lemma checked_kind op res t k : k ∈ tr_kinds t → k ∈ tr_kinds (checked op res t).
Proof. intros Hk. eapply elem_of_sublist; [exact Hk|apply checked_kinds]. Qed.

(** The round that ends the loop: the clock has reached the deadline, or an
    accepted poll has a terminal status or cannot be read. *)
Definition decisive (deadline : Z) (r : Round Res) : bool :=
  negb (rd_now r <? deadline)%Z ||
  res_ok OpPoll (rd_res r) && match res_status (rd_res r) with Some s => isTerminal s | None => true end.

Definition verdict (deadline : Z) (r : Round Res) (t : Trace) : Trace * LoopEnd :=
  if negb (rd_now r <? deadline)%Z then (t, Deadline)
  else match res_status (rd_res r) with
       | None => (t, Threw)
       | Some Completed => (add_outcome true t, Terminal)
       | Some _ => (add_kind (Some EngineError) (add_outcome false t), Terminal)
       end.

Lemma poll_loop_decided deadline rounds t r :
  List.find (decisive deadline) rounds = Some r → tr_outcome t = [] →
  ∃ t', tr_outcome t' = [] ∧ poll_loop deadline rounds t = verdict deadline r t'.
Proof.
  revert t. induction rounds as [|r' rounds IH]; intros t Hf Ho; [done|]. cbn [List.find] in Hf. cbn [poll_loop].
  destruct (decisive deadline r') eqn:Ed; unfold decisive in Ed.
  - injection Hf as ->. unfold verdict. destruct (rd_now r <? deadline)%Z; cbn [negb orb] in *; [|by exists t].
    apply andb_true_iff in Ed as [-> Hs]. exists (checked OpPoll (rd_res r) t). rewrite checked_outcome. split; [done|].
    cbn [negb]. destruct (res_status (rd_res r)) as [[]|]; try done; by rewrite bool_decide_eq_false_2.
  - apply orb_false_iff in Ed as [-> Ed]. destruct (res_ok OpPoll (rd_res r')); cbn [negb andb] in *; [|apply IH; [done|by rewrite checked_outcome]].
    destruct (res_status (rd_res r')); [|done]. rewrite Ed. apply IH; [done|by rewrite checked_outcome].
Qed.

(** There is one at the latest when the clock reaches the deadline. *)
Lemma decided deadline rounds :
  Exists (λ r, (deadline ≤ rd_now r)%Z) rounds → ∃ r, List.find (decisive deadline) rounds = Some r.
Proof.
  intros Hd. induction Hd as [r rounds Hr|r rounds Hr [r' IH]]; cbn [List.find].
  - unfold decisive. rewrite (proj2 (Z.ltb_ge _ _) Hr). by exists r.
  - destruct (decisive deadline r); eauto.
Qed.

(** The history and the list only add checks and failures. *)
Lemma after_loop_keeps history (list_ : option Res) t :
  let t' := match list_ with Some res => checked OpList res (checked OpHistory history t) | None => checked OpHistory history t end in
  tr_outcome t' = tr_outcome t ∧ ∀ k, k ∈ tr_kinds t → k ∈ tr_kinds t'.
Proof. destruct list_; simpl; rewrite ?checked_outcome; split; auto using checked_kind. Qed.
End lemmas.

(** ** Properties *)

(** C37: an iteration of thousand-concurrent, over either wire, once the clock has
    passed its minute: it has ended, and what becomes of a workflow whose start
    was accepted is decided by the first poll that has a terminal status, cannot
    be read or comes too late.  COMPLETED passes the check of the outcome;
    another terminal status fails it and adds to the engine's failures; the
    deadline adds to the unresponsive ones.  Only a body that cannot be read,
    of the start or of that poll, throws and leaves the workflow without an
    outcome. *)
Theorem iteration_accounted {Res} `{Wire Res} start now rounds history list_ :
  Exists (λ r, (now + 60 * 1000 ≤ rd_now r)%Z) rounds → res_ok OpStart start = true →
  match res_id start with
  | None => iteration start now rounds history list_ = Some (Uncaught (add_check OpStart true no_trace))
  | Some _ =>
      ∃ r t, List.find (decisive (now + 60 * 1000)) rounds = Some r ∧
        if (now + 60 * 1000 <=? rd_now r)%Z
        then iteration start now rounds history list_ = Some (Finished t) ∧ tr_outcome t = [] ∧ EngineUnresponsive ∈ tr_kinds t
        else match res_status (rd_res r) with
             | None => iteration start now rounds history list_ = Some (Uncaught t) ∧ tr_outcome t = []
             | Some Completed => iteration start now rounds history list_ = Some (Finished t) ∧ tr_outcome t = [true]
             | Some _ => iteration start now rounds history list_ = Some (Finished t) ∧ tr_outcome t = [false] ∧ EngineError ∈ tr_kinds t
             end
  end.
Proof.
  intros [r Hr]%decided Hs. unfold iteration. rewrite Hs. cbn [negb].
  destruct (res_id start); [|unfold checked; by rewrite Hs].
  destruct (poll_loop_decided _ _ (checked OpStart start no_trace) _ Hr) as (t1 & Ho & ->); [by rewrite checked_outcome|].
  exists r. unfold verdict. rewrite Z.leb_antisym.
  destruct (rd_now r <? now + 60 * 1000)%Z; cbn [negb].
  - destruct (res_status (rd_res r)) as [[]|]; (eexists; split; [done|]); (split; [done|]);
      lazymatch goal with |- context [checked OpHistory history ?t] => destruct (after_loop_keeps history list_ t) as [-> Hk] | _ => idtac end;
      cbn [tr_outcome add_outcome add_kind] in *; rewrite Ho; try done;
      (split; [done|]; apply Hk; cbn; set_solver).
  - eexists. split; [done|]. split; [done|].
    destruct (after_loop_keeps history list_ (add_kind (Some EngineUnresponsive) t1)) as [-> Hk]. split; [exact Ho|]. apply Hk. cbn. set_solver.
Qed.

(** A polled body that is no JSON leaves every check passed and every counter
    alone. *)
Theorem unreadable_uncounted {Res} `{Wire Res} start now r rounds history list_ :
  res_ok OpStart start = true → res_id start ≠ None → (rd_now r < now + 60 * 1000)%Z →
  res_ok OpPoll (rd_res r) = true → res_status (rd_res r) = None →
  ∃ t, iteration start now (r :: rounds) history list_ = Some (Uncaught t) ∧
    tr_kinds t = [] ∧ tr_outcome t = [] ∧ Forall (λ c, c.2 = true) (tr_checks t).
Proof.
  intros Hs Hi Hn Hp Hst. unfold iteration, checked. rewrite Hs. cbn [negb]. destruct (res_id start); [|done].
  cbn [poll_loop]. rewrite (proj2 (Z.ltb_lt _ _) Hn). unfold checked. rewrite Hp, Hst. cbn. eexists. split; [done|].
  split_and!; repeat constructor.
Qed.

(** A poll that is refused, one still under way, and the one that decides. *)
Definition polled (code : nat) (status : string) : GrpcRes :=
  mkGrpcRes code (Some (JObj [("instance", JObj [("id", JStr "i"); ("status", JStr status)])])).

Lemma iteration_accounted_witness :
  ∃ t, iteration (polled 0 "INSTANCE_STATUS_ACTIVE") 1000
      [mkRound 1200 (polled 14 EmptyString); mkRound 1400 (polled 0 "INSTANCE_STATUS_WAITING");
       mkRound 1600 (polled 0 "INSTANCE_STATUS_FAILED"); mkRound 61000 (polled 0 "INSTANCE_STATUS_FAILED")]
      (mkGrpcRes 0 None) None = Some (Finished t) ∧ tr_outcome t = [false] ∧ EngineError ∈ tr_kinds t.
Proof.
  pose proof (iteration_accounted (polled 0 "INSTANCE_STATUS_ACTIVE") 1000
      [mkRound 1200 (polled 14 EmptyString); mkRound 1400 (polled 0 "INSTANCE_STATUS_WAITING");
       mkRound 1600 (polled 0 "INSTANCE_STATUS_FAILED"); mkRound 61000 (polled 0 "INSTANCE_STATUS_FAILED")]
      (mkGrpcRes 0 None) None) as Hi.
  destruct Hi as (r & t & Hr & Ht); [apply Exists_cons_tl, Exists_cons_tl, Exists_cons_tl, Exists_cons_hd; simpl; lia|reflexivity|].
  exists t. injection Hr as <-. exact Ht.
Defined.

Lemma unreadable_uncounted_witness :
  ∃ t, iteration (polled 0 "INSTANCE_STATUS_ACTIVE") 0 [mkRound 1 (mkGrpcRes 0 None)] (mkGrpcRes 0 None) None = Some (Uncaught t) ∧
    tr_kinds t = [].
Proof.
  destruct (unreadable_uncounted (polled 0 "INSTANCE_STATUS_ACTIVE") 0 (mkRound 1 (mkGrpcRes 0 None)) [] (mkGrpcRes 0 None) None)
    as (t & Ht & Hk & _); [reflexivity|discriminate|reflexivity|reflexivity|reflexivity|].
  exists t. split; [exact Ht|exact Hk].
Defined.

(** Over gRPC every response that fails its check is counted under a kind; over
    REST a client error such as 404 fails its check and is counted nowhere. *)
Theorem failures_classified op :
  (∀ res : GrpcRes, res_ok op res = false → is_Some (classify res false)) ∧
  (∀ res : RestRes, (rt_status res =? expected_status op)%Z = false → classifyFailure res false = None ↔
     ¬ (1100 ≤ rt_error_code res < 1300)%Z ∧ rt_error_code res ≠ 1050%Z ∧ (rt_status res < 500)%Z ∧ rt_status res ≠ 429%Z).
Proof.
  split.
  - intros [s m] Ho. simpl in *. unfold classifyGrpcFailure. rewrite Ho. simpl. repeat case_match; eauto.
  - intros [s c b] _. simpl. unfold classifyFailure. simpl.
    destruct (Z.leb_spec 1100 c), (Z.ltb_spec c 1300), (Z.eqb_spec c 1050), (Z.leb_spec 500 s), (Z.eqb_spec s 429),
      (Z.eqb_spec s 503); simpl; split; intros Hx; first [discriminate Hx|reflexivity|exfalso; lia|lia].
Qed.

Lemma chain_loop_tasks {Res} `{Wire Res} deadline rounds done_ t :
  tr_tasks (chain_loop deadline rounds done_ t).1 ≤ tr_tasks t + (if done_ then 0 else 1).
Proof.
  assert (∀ op res t, tr_tasks (checked op res t) = tr_tasks t) as Hc by (intros; unfold checked; by case_match).
  revert done_ t. induction rounds as [|r rounds IH]; intros d t; simpl; [lia|].
  destruct (cr_now r <? deadline)%Z; simpl; [|lia]. destruct (res_ok OpPoll (cr_res r)); simpl; [|etransitivity; [apply IH|]; rewrite Hc; lia].
  destruct (res_status (cr_res r)) as [status|]; simpl; [|rewrite Hc; lia].
  destruct (isTerminal status); simpl; [case_bool_decide; simpl; rewrite Hc; lia|].
  destruct d; simpl; [etransitivity; [apply IH|]; rewrite Hc; lia|].
  destruct (res_waits APP_USER_TASK_ID (cr_res r)) as [[]|]; simpl; [|etransitivity; [apply IH|]; rewrite Hc; lia|rewrite Hc; lia].
  destruct (res_ok OpTaskComplete (cr_complete r)); (etransitivity; [apply IH|]); simpl; rewrite !Hc; lia.
Qed.

(** An iteration of the loan chain completes the review at most once. *)
Theorem review_completed_once {Res} `{Wire Res} start now rounds r :
  chainLoad start now rounds = Some r → tr_tasks (ran_trace r) ≤ 1.
Proof.
  unfold chainLoad. assert (tr_tasks (checked OpStart start no_trace) = 0) as H0 by (unfold checked; by case_match).
  destruct (res_ok OpStart start); simpl; [|intros [= <-]; simpl; lia]. destruct (res_id start); [|intros [= <-]; simpl; lia].
  pose proof (chain_loop_tasks (now + 120 * 1000) rounds false (add_started (checked OpStart start no_trace))) as Hl.
  destruct (chain_loop _ _ _ _) as [t' []]; simpl in *; intros; simplify_eq; simpl; lia.
Qed.

(** But it does not mind how the application ended: one that FAILED at the first
    poll leaves every check passed and every failure counter alone. *)
Theorem chain_failure_uncounted {Res} `{Wire Res} start now r rounds :
  res_ok OpStart start = true → res_id start ≠ None → (cr_now r < now + 120 * 1000)%Z → res_ok OpPoll (cr_res r) = true →
  res_status (cr_res r) = Some Failed_ →
  ∃ t, chainLoad start now (r :: rounds) = Some (Finished t) ∧ tr_kinds t = [] ∧ Forall (λ c, c.2 = true) (tr_checks t) ∧
    tr_started t = 1 ∧ tr_completed t = 0.
Proof.
  intros Hs Hi Hn Hp Hst. unfold chainLoad, checked. rewrite Hs. cbn [negb]. destruct (res_id start); [|done].
  cbn [chain_loop]. rewrite (proj2 (Z.ltb_lt _ _) Hn). unfold checked. rewrite Hp, Hst. cbn. eexists. split; [done|].
  split_and!; repeat constructor.
Qed.

Lemma chain_failure_uncounted_witness :
  ∃ t, chainLoad (polled 0 "INSTANCE_STATUS_ACTIVE") 0 [mkChainRound 250 (polled 0 "INSTANCE_STATUS_FAILED") (mkGrpcRes 0 None)] =
      Some (Finished t) ∧ tr_kinds t = [] ∧ Forall (λ c, c.2 = true) (tr_checks t) ∧ tr_started t = 1 ∧ tr_completed t = 0.
Proof. by apply chain_failure_uncounted. Defined.

(** ** An engine with a queue

    What the drain is measured against: the applications are done, a list of
    disbursements waits at the senior approval, and completing one lets it run to
    its end at once.  Every answer is accepted. *)

Section queue.
Context {Res : Type} `{Wire Res} (list_res done_res : Res) (disb : string).

Definition queue : Remote Res (list Listed) := {|
  re_list w o :=
    (list_res,
     if bool_decide (lo_definition o = Some disb ∧ lo_status o = Waiting)
     then take (lo_size o) (drop (lo_page o * lo_size o) w) else []);
  re_complete w id _ := (done_res, List.filter (λ i, negb (String.eqb (li_id i) id)) w)
|}.

(** Waiting disbursements: distinct, and each at the senior approval. *)
Definition waiting_at_approval (w : list Listed) : Prop :=
  NoDup (li_id <$> w) ∧ Forall (λ i, waits_at DISB_USER_TASK_ID (li_steps i) = true) w.

Lemma waiting_sublist w w' : w' `sublist_of` w → waiting_at_approval w → waiting_at_approval w'.
Proof.
  intros Hs [Hn Hf]. split; [eapply sublist_NoDup; [exact Hn|by apply fmap_sublist]|].
  rewrite Forall_forall in Hf |- *. intros i Hi. apply Hf. eapply elem_of_sublist; eauto.
Qed.

Lemma complete_items_sublist items w t n : (complete_items queue items w t n).1.1 `sublist_of` w.
Proof.
  revert w t n. induction items as [|i items IH]; intros w t n; simpl; [done|].
  destruct (waits_at _ _); simpl; [|apply IH]. etransitivity; [apply IH|]. apply filter_sublist.
Qed.

Lemma find_pages_step pages page w t n :
  res_ok OpList list_res = true →
  find_pages queue disb (S pages) page w t n =
  let items := take 100 (drop (page * 100) w) in
  let t := checked OpList list_res t in
  if Nat.eqb (length items) 0 then (w, t, n)
  else
    let '(w, t, n) := complete_items queue items w t n in
    if Nat.ltb (length items) 100 then (w, t, n) else find_pages queue disb pages (S page) w t n.
Proof. intros Hl. cbn [find_pages queue re_list lo_definition lo_status lo_size lo_page]. by rewrite Hl, bool_decide_eq_true_2. Qed.

Lemma find_pages_sublist pages page w t n :
  res_ok OpList list_res = true → (find_pages queue disb pages page w t n).1.1 `sublist_of` w.
Proof.
  intros Hl. revert page w t n. induction pages as [|pages IH]; intros page w t n; [done|].
  rewrite find_pages_step by done. cbv zeta. destruct (Nat.eqb _ 0); [done|].
  pose proof (complete_items_sublist (take 100 (drop (page * 100) w)) w (checked OpList list_res t) n) as Hs.
  destruct (complete_items queue _ _ _ _) as [[w1 t1] n1]. simpl in Hs.
  destruct (Nat.ltb _ 100); [done|]. etransitivity; [apply IH|done].
Qed.

(** Completing the items at the head of the queue takes exactly them off it. *)
Lemma complete_items_head items rest t n :
  res_ok OpTaskComplete done_res = true → waiting_at_approval (items ++ rest) →
  ∃ t', complete_items queue items (items ++ rest) t n = (rest, t', length items + n).
Proof.
  intros Hd. revert t n. induction items as [|i items IH]; intros t n Hw; [by exists t|].
  simpl. destruct Hw as [Hn Hf]. inversion_clear Hf as [|? ? Hi Hf']. rewrite Hi. simpl.
  rewrite String.eqb_refl. simpl. inversion_clear Hn as [|? ? Hni Hn'].
  assert (List.filter (λ j, negb (String.eqb (li_id j) (li_id i))) (items ++ rest) = items ++ rest) as ->.
  { apply forallb_filter_id. apply forallb_forall. intros j Hj. apply list_elem_of_In in Hj.
    apply negb_true_iff, String.eqb_neq. intros E. apply Hni. rewrite <- E. by apply list_elem_of_fmap_2. }
  rewrite Hd. destruct (IH (add_task (checked OpTaskComplete done_res t)) (S n)) as [t' ->]; [done|].
  exists t'. f_equal. lia.
Qed.
End queue.

Lemma filter_take_drop {A} (f : A → bool) n (l : list A) :
  length (List.filter f (take n l)) + length (List.filter f (drop n l)) = length (List.filter f l).
Proof. by rewrite <- length_app, <- List.filter_app, take_drop. Qed.

(** Paging through a listing that holds still counts all of it, whichever way the
    scenario recognises the last page. *)
Lemma count_pages_complete {Res} `{Wire Res} {W} (remote : Remote Res W) more counts definition status size w l fuel page acc :
  0 < size → (∀ n, n ≤ size → more n = Nat.eqb n size) →
  (∀ p, ∃ res, re_list remote w (mkListOpts definition status p size) = (res, take size (drop (p * size) l)) ∧ res_ok OpList res = true) →
  length l < (S fuel + page) * size →
  count_pages remote more counts definition status size w (S fuel) page acc =
  Some (inl (acc + length (List.filter counts (drop (page * size) l)))).
Proof.
  intros Hs Hm Hl. revert page acc. induction fuel as [|fuel IH]; intros page acc Hf; cbn [count_pages];
    destruct (Hl page) as (res & -> & ->); cbn [negb]; rewrite Hm by (rewrite length_take; lia);
    rewrite length_take, length_drop; destruct (Nat.eqb_spec (size `min` (length l - page * size)) size) as [E|E].
  - nia.
  - rewrite firstn_all2 by (rewrite length_drop; lia). done.
  - cbn [count_pages] in IH. rewrite IH by lia. do 2 f_equal.
    rewrite <- (filter_take_drop counts size (drop (page * size) l)), drop_drop.
    replace (page * size + size) with (S page * size) by lia. lia.
  - rewrite firstn_all2 by (rewrite length_drop; lia). done.
Qed.

Section drained.
Context {Res : Type} `{Wire Res} (list_res done_res : Res) (app disb : string).
Context (Hlist : res_ok OpList list_res = true) (Hdone : res_ok OpTaskComplete done_res = true) (Happ : app ≠ disb).

#[local] Notation Q := (queue list_res done_res disb).

(** The first page of a pass is always completed in full. *)
Lemma first_page pages w t n :
  waiting_at_approval w →
  ∃ t', find_pages Q disb (S pages) 0 w t n =
    if Nat.ltb (length w) 100 then ([], t', length w + n) else find_pages Q disb pages 1 (drop 100 w) t' (100 + n).
Proof.
  intros Hw. rewrite find_pages_step by done. cbv zeta. rewrite Nat.mul_0_l, drop_0, length_take.
  destruct (Nat.eqb_spec (100 `min` length w) 0) as [E|E].
  - destruct w; [|simpl in E; lia]. by eexists.
  - destruct (complete_items_head list_res done_res disb (take 100 w) (drop 100 w) (checked OpList list_res t) n Hdone)
      as [t' Ht]; [by rewrite take_drop|]. rewrite take_drop in Ht. rewrite Ht, length_take. exists t'. destruct (Nat.ltb_spec (length w) 100), (Nat.ltb_spec (100 `min` length w) 100); try lia.
    + rewrite skipn_all2, Nat.min_r by lia. done.
    + by rewrite Nat.min_l by lia.
Qed.

Lemma pass_progress w t :
  waiting_at_approval w →
  (findAndCompleteSeniorTasks Q disb 20 w t).1.1 `sublist_of` drop 100 w.
Proof.
  intros Hw. unfold findAndCompleteSeniorTasks. destruct (first_page 19 w t 0 Hw) as [t' ->].
  destruct (Nat.ltb_spec (length w) 100); [by rewrite skipn_all2 by lia|]. by apply find_pages_sublist.
Qed.

Lemma count_queue w fuel :
  0 < fuel → length w < fuel * 200 →
  countNonTerminal Q app w fuel = Some (inl 0) ∧ countNonTerminal Q disb w fuel = Some (inl (length w)).
Proof.
  intros Hf Hw. destruct fuel as [|fuel]; [lia|]. unfold countNonTerminal, count_open.
  assert (∀ n, n ≤ 200 → negb (Nat.ltb n 200) = Nat.eqb n 200) as Hm
    by (intros n Hn; destruct (Nat.ltb_spec n 200), (Nat.eqb_spec n 200); simpl; lia || done).
  assert (∀ d st acc, Some d ≠ Some disb ∨ st ≠ Waiting →
    count_pages Q (λ n, negb (Nat.ltb n 200)) (λ _, true) (Some d) st 200 w (S fuel) 0 acc = Some (inl acc)) as Hno.
  { intros d st acc Hd. rewrite (count_pages_complete Q _ _ _ _ _ _ []); [by rewrite drop_nil, Nat.add_0_r|lia|done| |simpl; lia].
    intros p. exists list_res. rewrite drop_nil, take_nil. split; [|done]. cbn. rewrite bool_decide_eq_false_2; [done|]. naive_solver. }
  rewrite !Hno by (naive_solver congruence). split; [done|].
  rewrite (count_pages_complete Q _ _ _ _ _ _ w); [|lia|done| |lia].
  - cbn. rewrite forallb_filter_id; [done|]. by apply forallb_forall.
  - intros p. exists list_res. split; [|done]. cbn. by rewrite bool_decide_eq_true_2.
Qed.

Lemma drain_queue fuel settle nows w t :
  0 < fuel → length w < fuel * 200 → waiting_at_approval w →
  ∃ w' t', drain Q app disb fuel settle nows w t = Some (inl (w', t')) ∧ w' `sublist_of` w ∧
    length w' ≤ length w - 100 * length nows.
Proof.
  intros Hf. revert w t. induction nows as [|now nows IH]; intros w t Hl Hw.
  - exists w, t. split_and!; [done|done|simpl; lia].
  - cbn [drain length]. pose proof (pass_progress w t Hw) as Hp.
    destruct (findAndCompleteSeniorTasks Q disb 20 w t) as [[w1 t1] n1]. cbn in Hp.
    assert (w1 `sublist_of` w) as Hs by (etransitivity; [exact Hp|apply sublist_drop]).
    assert (length w1 ≤ length w - 100) as Hn by (rewrite <- length_drop; by apply sublist_length).
    destruct (IH w1 t1) as (w' & t' & HIH & Hsub & Hlen); [lia|by eapply waiting_sublist|].
    destruct (count_queue w1 fuel) as [-> ->]; [done|lia|].
    destruct (settle <=? now)%Z; cbn [negb]; [destruct (length w1) eqn:Ew|].
    + exists w1, t1. split_and!; [done|done|lia].
    + exists w', t'. split_and!; [exact HIH|by etransitivity|lia].
    + exists w', t'. split_and!; [exact HIH|by etransitivity|lia].
Qed.
End drained.

(** The teardown of thousand-concurrent counts exactly the open instances of its
    own run, however many pages they fill, when the listing holds still. *)
Theorem unfinished_complete {Res} `{Wire Res} {W} (remote : Remote Res W) runPrefix w la lw fuel :
  (∀ p, ∃ res, re_list remote w (mkListOpts None Active p 200) = (res, take 200 (drop (p * 200) la)) ∧ res_ok OpList res = true) →
  (∀ p, ∃ res, re_list remote w (mkListOpts None Waiting p 200) = (res, take 200 (drop (p * 200) lw)) ∧ res_ok OpList res = true) →
  length la < fuel * 200 → length lw < fuel * 200 →
  unfinished remote runPrefix w fuel =
  Some (inl (length (List.filter (λ i, String.prefix runPrefix (default EmptyString (li_key i))) (la ++ lw)))).
Proof.
  intros Ha Hw Hla Hlw. destruct fuel as [|fuel]; [lia|]. unfold unfinished, count_open.
  rewrite (count_pages_complete remote _ _ _ _ _ _ la) by (auto; lia).
  rewrite (count_pages_complete remote _ _ _ _ _ _ lw) by (auto; lia).
  by rewrite List.filter_app, length_app.
Qed.

Definition two_runs : list Listed :=
  [mkListed "1" None (Some "perf-r-vu1"); mkListed "2" None (Some "perf-old-vu1"); mkListed "3" None None].

Lemma unfinished_complete_witness :
  unfinished (mkRemote GrpcRes unit (λ _ o, (mkGrpcRes 0 None, take 200 (drop (lo_page o * 200) two_runs))) (λ w _ _, (mkGrpcRes 0 None, w)))
    "perf-r-" tt 1 = Some (inl 2).
Proof.
  apply (unfinished_complete (mkRemote GrpcRes unit (λ _ o, (mkGrpcRes 0 None, take 200 (drop (lo_page o * 200) two_runs))) (λ w _ _, (mkGrpcRes 0 None, w)))
    "perf-r-" tt two_runs two_runs 1); try (simpl; lia); intros p; by exists (mkGrpcRes 0 None).
Defined.

(** The passes of the loan chain's teardown drain the queue: whatever waits at
    the senior approval, up to a hundred tasks a pass, is completed, and both
    unfinished counters come out at zero. *)
Theorem teardown_drains {Res} `{Wire Res} list_res done_res app disb fuel start nows w :
  res_ok OpList list_res = true → res_ok OpTaskComplete done_res = true → app ≠ disb →
  0 < fuel → length w < fuel * 200 → waiting_at_approval w → length w ≤ 100 * length nows →
  chain_teardown (queue list_res done_res disb) app disb fuel start nows w = Some (inl (0, 0)).
Proof.
  intros Hl Hd Ha Hf Hw Hq Hn. unfold chain_teardown.
  destruct (drain_queue list_res done_res app disb Hl Hd Ha fuel (start + Z.of_nat TEARDOWN_SETTLE_SEC * 1000) nows w no_trace)
    as (w' & t' & -> & _ & Hlen); [done..|].
  destruct (count_queue list_res done_res app disb Hl Ha w' fuel) as [-> ->]; [done|lia|]. do 3 f_equal. lia.
Qed.

Definition approvals (n : nat) : list Listed :=
  (λ k, mkListed (str_of_nat k) (Some [DISB_USER_TASK_ID]) None) <$> seq 0 n.

Lemma approvals_waiting n : waiting_at_approval (approvals n).
Proof.
  split; unfold approvals; [|by apply Forall_fmap, Forall_forall]. rewrite <- list_fmap_compose.
  apply NoDup_fmap_2; [|apply NoDup_seq]. intros a b E. by apply str_of_nat_inj.
Qed.

Lemma teardown_drains_witness :
  chain_teardown (queue (mkGrpcRes 0 None) (mkGrpcRes 0 None) "disb") "app" "disb" 2 0 [1000; 2000]%Z (approvals 150) = Some (inl (0, 0)).
Proof. apply teardown_drains; try done; try (simpl; lia). apply approvals_waiting. Defined.

(** But a pass does not complete all it could: the tasks of the first page leave
    the listing, so the second page skips as many, and of up to two hundred tasks
    exactly one hundred are completed. *)
Theorem pass_skips_shifted_page {Res} `{Wire Res} list_res done_res disb w t pages :
  res_ok OpList list_res = true → res_ok OpTaskComplete done_res = true →
  waiting_at_approval w → 100 ≤ length w ≤ 200 →
  ∃ t', findAndCompleteSeniorTasks (queue list_res done_res disb) disb (S (S pages)) w t = (drop 100 w, t', 100).
Proof.
  intros Hl Hd Hw Hn. unfold findAndCompleteSeniorTasks.
  destruct (first_page list_res done_res disb Hl Hd (S pages) w t 0 Hw) as [t' ->].
  destruct (Nat.ltb_spec (length w) 100); [lia|]. rewrite find_pages_step by done. cbv zeta.
  rewrite drop_drop, (skipn_all2 w) by lia. by eexists.
Qed.

Lemma pass_skips_shifted_page_witness :
  ∃ t', findAndCompleteSeniorTasks (queue (mkGrpcRes 0 None) (mkGrpcRes 0 None) "disb") "disb" 20 (approvals 150) no_trace =
    (drop 100 (approvals 150), t', 100).
Proof. apply (pass_skips_shifted_page (mkGrpcRes 0 None) (mkGrpcRes 0 None) "disb" (approvals 150) no_trace 18); try done; [apply approvals_waiting|simpl; lia]. Defined.

(** ** The scenarios over gRPC

    thousand-concurrent-grpc.js and loan-chain-full-grpc.js are the same loops at
    the other wire. *)

Definition grpc_iteration : GrpcRes → Z → list (Round GrpcRes) → GrpcRes → option GrpcRes → option Ran := iteration.

Definition grpc_unfinished {W} : Remote GrpcRes W → string → W → nat → option (nat + GrpcRes) := unfinished.

Definition grpc_chainLoad : GrpcRes → Z → list (ChainRound GrpcRes) → option Ran := chainLoad.

Definition grpc_findAndCompleteSeniorTasks {W} : Remote GrpcRes W → string → nat → W → Trace → W * Trace * nat :=
  findAndCompleteSeniorTasks.

Definition grpc_chain_teardown {W} : Remote GrpcRes W → string → string → nat → Z → list Z → W → option (nat * nat + GrpcRes) :=
  chain_teardown.

Definition grpc_countNonTerminal {W} : Remote GrpcRes W → string → W → nat → option (nat + GrpcRes) := countNonTerminal.
