(* ===== verification/ListViews.v ===== *)
(** * What the list pages of the Monitor show

    (workflow-monitor/src/routes/ProcessInstancesRoute.tsx, IncidentsRoute.tsx,
    OverviewRoute.tsx.)  The screens as functions of their queries and of the
    location: the texts, the links and the buttons with their state, without the
    markup.  A query is what the query library keeps for the key of the current
    location. *)

From S2P Require Import Prelude JsObject Peg Schema ImportExport Utc Cursor Paging Instances InstancesProps Context Incidents IncidentsProps Overview OverviewProps UrlParams ListFilters SavedFilters Routes RoutesProps Timeline.

#[local] Arguments String.append !_ _ / : simpl nomatch.

(** ** Queries *)

Record QueryState (A : Type) := mkQueryState {
  q_data : option A;
  q_error : option FetchError;      (* of the last fetch *)
  q_paused : bool;                  (* [fetchStatus === "paused"] *)
  q_updatedAt : Z                   (* [dataUpdatedAt]; 0 without data *)
}.
Arguments mkQueryState {_}.
Arguments q_data {_}.
Arguments q_error {_}.
Arguments q_paused {_}.
Arguments q_updatedAt {_}.

Definition isError {A} (q : QueryState A) : bool := match q_error q with Some _ => true | None => false end.
Definition hasData {A} (q : QueryState A) : bool := match q_data q with Some _ => true | None => false end.
Definition isPending {A} (q : QueryState A) : bool := negb (isError q) && negb (hasData q).

Definition message_of (e : FetchError) : string := match e with FilterError m | LoadError m => m end.
Definition is_FilterError (e : option FetchError) : bool := match e with Some (FilterError _) => true | _ => false end.

Inductive Screen (V : Type) := Loading | Shown (v : V).
Arguments Loading {_}.
Arguments Shown {_}.

(** ** The two lists *)

(** The parts both list pages have. *)
Record ListCard (Row : Type) := mkCard {
  lc_alert : option string;          (* in the form of the filters *)
  lc_age : option Z;                 (* [DataFreshness] *)
  lc_retry : option string;          (* the message above the Retry button *)
  lc_stale : bool;
  lc_rows : option (list Row);       (* the table, or the text for an empty list *)
  lc_hasCursor : bool;               (* Newest and Previous *)
  lc_next : bool                     (* Next *)
}.
Arguments mkCard {_}.
Arguments lc_alert {_}.
Arguments lc_age {_}.
Arguments lc_retry {_}.
Arguments lc_stale {_}.
Arguments lc_rows {_}.
Arguments lc_hasCursor {_}.
Arguments lc_next {_}.

Abbreviation ListData Item := (list Item * option string)%type.

(** [filterError || error instanceof FilterError ? filterError ?? error?.message : null] *)
Definition filter_alert (filterError : option string) (error : option FetchError) : option string :=
  if truthy_ostr filterError || is_FilterError error
  then Some (default (default EmptyString (message_of <$> error)) filterError) else None.

Section lists.
Context `{Utf8Text}.

Definition list_card {Item Row} (row : Z → Item → Row) (now : Z) (search : string) (filterError : option string)
    (q : QueryState (ListData Item)) : Screen (ListCard Row) :=
  if isPending q then Loading
  else Shown {|
    lc_alert := filter_alert filterError (q_error q);
    lc_age := data_age now (q_updatedAt q);
    lc_retry := if isError q && negb (hasData q) && negb (is_FilterError (q_error q))
                then message_of <$> q_error q else None;
    lc_stale := (isError q || q_paused q) && hasData q;
    lc_rows := match q_data q with
               | Some ([], _) => None
               | Some (items, _) => Some (row (q_updatedAt q) <$> items)
               | None => Some []
               end;
    lc_hasCursor := hasCursor search;
    lc_next := truthy_ostr (q_data q ≫= snd)
  |}.

Record InstanceLine := mkInstanceLine {
  vi_href : string;
  vi_id : string;
  vi_definition : string;
  vi_class : string;
  vi_status : string;
  vi_businessKey : string;
  vi_started : string;
  vi_elapsed : string
}.

Definition instance_line (observedAt : Z) (i : ProcessInstanceListItem) : InstanceLine :=
  mkInstanceLine (instance_path (pi_id i)) (pi_id i) (pi_definitionId i) ("rm-status--" ⊕ toLowerCase (pi_status i))
    (pi_status i) (default "None" (pi_businessKey i)) (toISOString (pi_startedAt i))
    (elapsedTime (Some (pi_startedAt i)) (Some <$> pi_completedAt i) observedAt).

Definition instances_screen (now : Z) (search : string) (p : ListPage) (q : QueryState (ListData ProcessInstanceListItem)) :
    Screen (ListCard InstanceLine) :=
  list_card instance_line now search (lp_filterError p) q.

Record IncidentLine := mkIncidentLine {
  vn_href : string;
  vn_id : string;
  vn_definition : string;
  vn_step : string;
  vn_jobType : string;
  vn_occurred : string;
  vn_attempt : string;
  vn_latest : string             (* after the word Latest *)
}.

Definition attempt_text (historical : bool) : string :=
  if historical then "Historical failure" else "Latest failed attempt".

Definition definition_text (i : IncidentListItem) : string := il_definitionName i ⊕ " v" ⊕ pretty (il_definitionVersion i).

Definition job_type (i : IncidentListItem) : string := default "Not applicable" (ij_type <$> il_job i).

Definition incident_line (_ : Z) (i : IncidentListItem) : IncidentLine :=
  mkIncidentLine (incident_path (il_id i)) (il_id i) (definition_text i) (il_stepId i) (job_type i)
    (default EmptyString (toISOString <$> il_occurredAt i)) (attempt_text (il_historical i))
    (la_status (il_latestAttempt i)).

Definition incidents_screen (now : Z) (search : string) (filterError : option string)
    (q : QueryState (ListData IncidentListItem)) : Screen (ListCard IncidentLine) :=
  list_card incident_line now search filterError q.

(** The value of a date-time field, and what editing it writes back. *)
Definition field_value (stored : string) : string :=
  match rev (list_ascii_of_string stored) with
  | "Z"%char :: l => string_of_list_ascii (rev l)
  | _ => stored
  end.

(** ** One incident *)

Record IncidentView := mkIncidentView {
  nv_heading : string;
  nv_stale : bool;
  nv_attempt : string;
  nv_latest : string * string;         (* the text and the link *)
  nv_class : string;
  nv_status : string;
  nv_definition : string;
  nv_step : string;
  nv_stepType : string;
  nv_attemptNumber : Z;
  nv_occurred : string;
  nv_errorDetails : string;
  nv_businessKey : string;
  nv_jobType : string;
  nv_jobStatus : option string;
  nv_instance : string * string        (* the text and the link *)
}.

Inductive DetailScreen := DetailLoading | DetailFailed | DetailShown (v : IncidentView).

Definition incident_screen (q : QueryState IncidentDetail) : DetailScreen :=
  match q_data q with
  | None => if isError q then DetailFailed else DetailLoading
  | Some d =>
      let i := id_item d in
      let '(instance, status, businessKey) := id_instance d in
      let path := processInstancePath instance (il_stepId i) in
      DetailShown (mkIncidentView ("Incident " ⊕ il_id i) (isError q || q_paused q) (attempt_text (il_historical i))
        ("Latest attempt " ⊕ pretty (la_attemptNumber (il_latestAttempt i)) ⊕ ": " ⊕ la_status (il_latestAttempt i), path)
        ("rm-status--" ⊕ toLowerCase status) status (definition_text i) (il_stepId i) (il_stepType i) (il_attemptNumber i)
        (default EmptyString (toISOString <$> il_occurredAt i)) (default "Not recorded" (id_errorDetails d))
        (default "None" businessKey) (job_type i) (ij_status <$> il_job i) ("Process Instance " ⊕ instance, path))
  end.

(** ** The overview *)

(** A count with the link it opens. *)
Record Cell := mkCell { ce_count : nat; ce_href : string }.

Record DefinitionLine := mkDefinitionLine {
  vd_name : string;
  vd_definitionId : string;
  vd_version : string;
  vd_active : Cell;
  vd_waiting : Cell;
  vd_failed : Cell;
  vd_inspect : string          (* the location its button pushes *)
}.

Record StepLine := mkStepLine { vs_step : string; vs_instances : Cell; vs_aged : Cell; vs_unavailable : nat }.

Record CountsCard (Line : Type) := mkCounts {
  cc_loading : bool;
  cc_alert : option string;
  cc_observed : option string;
  cc_body : option (string + list Line);     (* the text for no rows, or the rows *)
  cc_first : bool;
  cc_next : bool
}.
Arguments mkCounts {_}.

Definition counts_alert {A} (stale : string) (q : QueryState A) : option string :=
  if isError q || q_paused q
  then Some ((if hasData q then stale else EmptyString) ⊕ default "Waiting for connection." (message_of <$> q_error q))
  else None.

Definition counts_card {A Line} (stale empty : string) (line : Observation A → A → Line) (cursor : option string)
    (q : QueryState (Observation A)) : CountsCard Line :=
  mkCounts (isPending q) (counts_alert stale q) ((λ o, toISOString (ob_observedAt o)) <$> q_data q)
    ((λ o, match ob_items o with [] => inl empty | items => inr (line o <$> items) end) <$> q_data q)
    (truthy_ostr cursor) (truthy_ostr (q_data q ≫= ob_nextCursor)).

Definition definition_line (search : string) (_ : Observation DefinitionCount) (c : DefinitionCount) : DefinitionLine :=
  let version := pretty (dc_definitionVersion c) in
  let cell status n := mkCell n (instanceLink (dc_definitionId c) version [status] None None) in
  mkDefinitionLine (dc_name c) (dc_definitionId c) version (cell "ACTIVE" (dc_active c)) (cell "WAITING" (dc_waiting c))
    (cell "FAILED" (dc_failed c))
    (updateLocation search [("definitionId", Some (dc_definitionId c)); ("definitionVersion", Some version); ("stepCursor", None)]).

Definition step_line (definitionId version : string) (o : Observation StepCount) (c : StepCount) : StepLine :=
  let link := instanceLink definitionId version ["ACTIVE"; "WAITING"] (Some (sc_stepId c)) in
  mkStepLine (sc_stepId c) (mkCell (sc_instances c) (link None))
    (mkCell (sc_aged c) (link (toISOString <$> ob_stepStartedBefore o))) (sc_ageUnavailable c).

Definition definitions_card (search : string) (q : QueryState (Observation DefinitionCount)) : CountsCard DefinitionLine :=
  let ps := params_parse search in
  counts_card "Stale workflow counts. "
    (if truthy_str (text_of "workflow" ps) then "No workflows match your search." else "No retained instances.")
    (definition_line search) (params_get "cursor" ps) q.

(** [None]: the text that asks for a version to be selected. *)
Definition steps_card (search : string) (q : QueryState (Observation StepCount)) : option (CountsCard StepLine) :=
  let ps := params_parse search in
  let definitionId := text_of "definitionId" ps in
  let version := text_of "definitionVersion" ps in
  if truthy_str definitionId && truthy_str version
  then Some (counts_card "Stale step counts. " "No current steps." (step_line definitionId version) (params_get "stepCursor" ps) q)
  else None.
End lists.
Arguments mkCounts {_}.
Arguments cc_loading {_}.
Arguments cc_alert {_}.
Arguments cc_observed {_}.
Arguments cc_body {_}.
Arguments cc_first {_}.
Arguments cc_next {_}.

(** ** The page of instances in time *)

Inductive ListEvent :=
| LEdit (f : InstanceFilters)          (* a field of the form *)
| LApply
| LNavigate (search : string).         (* Next, Newest, Previous, a saved filter, a link *)

(** [useEffect(() => setFilters(filtersFromSearch(search)), [search])] *)
Definition at_search `{Utf8Text} (search : string) (s : ListPage * string) : ListPage * string :=
  let '(p, old) := s in
  (if String.eqb search old then p
   else mkListPage (lp_lookupId p) (lp_lookupError p) (filtersFromSearch search) (lp_filterError p), search).

Definition page_event `{Utf8Text} (s : ListPage * string) (e : ListEvent) : ListPage * string :=
  let '(p, search) := s in
  match e with
  | LEdit f => (mkListPage (lp_lookupId p) (lp_lookupError p) f (lp_filterError p), search)
  | LApply =>
      match applyFilters p with
      | (p, Some target) => at_search (lo_search (location_of target)) (p, search)
      | (p, None) => (p, search)
      end
  | LNavigate search' => at_search search' s
  end.

(** ** Properties *)

(** No list page is silent: it loads, or shows the rows of its query with the
    page turned by the API's cursor, or says why there are none.  Data whose last
    fetch failed or waits for the network are marked stale, an error without
    data offers a retry, and where polling has stopped the form says so. *)
Theorem list_card_complete `{Utf8Text} {Item Row} (row : Z → Item → Row) now search filterError q :
  match list_card row now search filterError q with
  | Loading => q_data q = None ∧ q_error q = None
  | Shown v =>
      (∀ items next, q_data q = Some (items, next) →
         default [] (lc_rows v) = row (q_updatedAt q) <$> items ∧ (lc_rows v = None ↔ items = []) ∧
         (lc_next v = true ↔ ∃ c, next = Some c ∧ c ≠ EmptyString)) ∧
      (lc_stale v = true ↔ is_Some (q_data q) ∧ (is_Some (q_error q) ∨ q_paused q = true)) ∧
      (∀ m, lc_retry v = Some m ↔ q_data q = None ∧ q_error q = Some (LoadError m)) ∧
      (q_data q = None → is_Some (lc_retry v) ∨ is_Some (lc_alert v)) ∧
      (refetchInterval 5000 (q_error q) = None → is_Some (lc_alert v))
  end.
Proof.
  unfold list_card, isPending, isError, hasData, filter_alert.
  destruct q as [[[items next]|] [[m|m]|] [] t]; cbn; rewrite ?orb_true_r; cbn; try done;
    (split_and!; [intros items' next' [=]; subst; destruct items', next' as [[|]|]; cbn; split_and!| | | |]); try naive_solver.
Qed.

(** The cells of the overview. *)
Definition definition_cells (l : DefinitionLine) : list Cell := [vd_active l; vd_waiting l; vd_failed l].

(** Clicking through the list a link opens. *)
Definition opened `{JsonText} `{Sha256} `{Utf8Text} `{DateText} `{Postgres} (db : Database) (href : string) :
    option (list ProcessInstanceListItem) :=
  browse (instances_at db) moveToCursor (S (length (db_instances db))) (lo_search (location_of href)).

Lemma counts_rows {A Line} (line : A → Line) (items : list A) (empty : string) (rows : list Line) l :
  match items with [] => inl empty | y :: ys => inr (line y :: (line <$> ys)) end = inr rows → l ∈ rows →
  ∃ c, c ∈ items ∧ l = line c.
Proof.
  destruct items as [|c cs]; [done|]. intros [= <-] Hl. change (l ∈ line <$> (c :: cs)) in Hl.
  apply list_elem_of_fmap_1 in Hl as (c' & -> & Hc'). eauto.
Qed.

(** C8: every number of the overview page opens as many instances as it says,
    over tables with distinct ids, versions of 32 bits, no empty names and start
    times of whole milliseconds: the three counts of every workflow version;
    and, when the page names the version to inspect by its plain decimal text,
    for every step of that version the count of its instances and, if the age
    cutoff is a whole number of milliseconds, the count of those above the
    threshold. *)
Theorem overview_numbers_open `{J : JsonText} `{!JsonTextLaws J} `{Sha256} `{U : Utf8Text} `{!Utf8Laws U}
    `{D : DateText} `{!DateTextLaws D} `{P : Postgres} `{!PostgresLaws P} `{SqlText} sn now search :
  listed_tables (sn_db sn) →
  let answer {A} (o : Observation A) := mkQueryState (Some o) None false now in
  let opens cell := ∃ items, opened (sn_db sn) (ce_href cell) = Some items ∧ length items = ce_count cell in
  (∀ dq definitions_ rows line cell, definitions sn now dq = inr definitions_ →
     cc_body (definitions_card search (answer definitions_)) = Some (inr rows) → line ∈ rows → cell ∈ definition_cells line →
     opens cell) ∧
  (∀ sq steps_ (version : Z) card rows line, steps sn now sq = inr steps_ →
     oq_definitionId sq = Some (QText (text_of "definitionId" (params_parse search))) →
     oq_definitionVersion sq = Some (QText (text_of "definitionVersion" (params_parse search))) →
     text_of "definitionVersion" (params_parse search) = pretty version →
     steps_card search (answer steps_) = Some card → cc_body card = Some (inr rows) → line ∈ rows →
     opens (vs_instances line) ∧
     ∀ age, positiveInteger (oq_minStepAgeSeconds sq) 1800 2147483647 "Minimum step age" = inr age →
       whole_ms (now - age * 1000000)%Z → opens (vs_aged line)).
Proof.
  intros Ht answer opens. split.
  - intros dq definitions_ rows line cell Hd Hb Hl Hc. cbn in Hb. injection Hb as Hb.
    destruct (counts_rows _ _ _ _ _ Hb Hl) as (c & Hin & ->).
    assert (∃ status, (status, ce_count cell) ∈ [("ACTIVE", dc_active c); ("WAITING", dc_waiting c); ("FAILED", dc_failed c)] ∧
      ce_href cell = instanceLink (dc_definitionId c) (pretty (dc_definitionVersion c)) [status] None None) as (status & Hst & Hh).
    { unfold definition_cells, definition_line in Hc. cbn in Hc. rewrite !elem_of_cons, elem_of_nil in Hc.
      destruct Hc as [->|[->|[->|[]]]]; eexists; (split; [|reflexivity]); cbn; set_solver. }
    unfold opens. rewrite Hh. by apply (overview_status_links sn now dq definitions_ c status (ce_count cell)).
  - intros sq steps_ version card rows line Hs Hid Hver Ev Hcard Hb Hl. unfold steps_card in Hcard. destruct (_ && _); [|done].
    injection Hcard as <-. cbn in Hb. injection Hb as Hb. rewrite Ev in Hb, Hver.
    set (line_of := step_line (text_of "definitionId" (params_parse search)) (pretty version) steps_) in *.
    destruct (counts_rows _ _ _ _ _ Hb Hl) as (c & Hin & ->).
    destruct (overview_step_links sn now sq steps_ c _ version Ht Hs Hin Hid Hver) as [Hi Ha].
    split; [exact Hi|]. intros age Hage Hms. by apply (Ha age).
Qed.

(** The rows of a list lead where they say: the link of a row opens the page of
    its instance, or of its incident, and both links of an incident select its
    step on the page of its instance.  The exceptions are ids that are empty or
    that the browser resolves as a path. *)
Theorem rows_open `{U : Utf8Text} `{!Utf8Laws U} t (i : ProcessInstanceListItem) (n : IncidentListItem) (d : IncidentDetail) q v :
  let id := (id_instance d).1.1 in
  (pi_id i ∉ [EmptyString; "."; ".."] → app_view (location_of (vi_href (instance_line t i))) = ProcessInstance (pi_id i) EmptyString) ∧
  (il_id n ∉ [EmptyString; "."; ".."] → app_view (location_of (vn_href (incident_line t n))) = IncidentPage (il_id n)) ∧
  (id ∉ [EmptyString; "."; ".."] → q_data q = Some d → incident_screen q = DetailShown v →
   ∃ search, app_view (location_of (nv_instance v).2) = ProcessInstance id search ∧ (nv_latest v).2 = (nv_instance v).2 ∧
     params_get "stepId" (params_parse search) = Some (il_stepId (id_item d))).
Proof.
  intros id. split_and!.
  - apply (links_open _ EmptyString).
  - apply (links_open _ EmptyString).
  - intros Hid Hd Hv. unfold incident_screen in Hv. rewrite Hd in Hv. unfold id in *.
    destruct (id_instance d) as [[instance status] key]. injection Hv as <-.
    destruct (links_open instance (il_stepId (id_item d))) as (_ & _ & Hl). destruct (Hl Hid) as (search & H1 & H2).
    by exists search.
Qed.

(** ** The form and the location *)

Section form.
Context `{U : Utf8Text} `{!Utf8Laws U}.

(** Applying the form goes to the location that reads back as the form, with no
    message left; a range that is refused stays on the page with its message; and
    whatever else changes the location fills the form from it. *)
Theorem form_follows_location p search :
  let '(p', search') := page_event (p, search) LApply in
  (timeRangeError (f_from (lp_filters p)) (f_to (lp_filters p)) = None →
     filtersFromSearch search' = lp_filters p ∧ lp_filters p' = lp_filters p ∧ lp_filterError p' = None) ∧
  (∀ m, timeRangeError (f_from (lp_filters p)) (f_to (lp_filters p)) = Some m →
     search' = search ∧ lp_filters p' = lp_filters p ∧ lp_filterError p' = Some m) ∧
  (∀ search2, search2 ≠ search → lp_filters (page_event (p, search) (LNavigate search2)).1 = filtersFromSearch search2).
Proof.
  unfold page_event. destruct (applyFilters p) as [p1 target] eqn:Ea.
  assert (∀ search2, search2 ≠ search → lp_filters (at_search search2 (p, search)).1 = filtersFromSearch search2) as Hn.
  { intros search2 Hne. unfold at_search. by apply String.eqb_neq in Hne as ->. }
  pose proof Ea as Eb. unfold applyFilters in Ea. destruct (timeRangeError _ _) as [m|].
  - injection Ea as <- <-. split_and!; [done|by intros ? [= <-]|exact Hn].
  - destruct target as [target|]; [|done]. destruct (filters_roundtrip p p1 target Eb) as (He & Hf & _).
    injection Ea as <- Et. unfold at_search. cbn [lp_filters lp_filterError] in *.
    destruct (String.eqb _ search); (split_and!; [|done|exact Hn]); cbn; by rewrite ?Hf.
Qed.

(** But the message of a refused range outlives it: it stays in the form after
    the location, and with it the form, has changed to a valid one. *)
Theorem filter_error_outlives_search p search search2 m now q v :
  timeRangeError (f_from (lp_filters p)) (f_to (lp_filters p)) = Some m → search2 ≠ search →
  let '(p', s') := page_event (page_event (p, search) LApply) (LNavigate search2) in
  instances_screen now s' p' q = Shown v → s' = search2 ∧ lp_filters p' = filtersFromSearch search2 ∧ lc_alert v = Some m.
Proof.
  intros Hm Hne. unfold page_event, applyFilters. rewrite Hm. unfold at_search. apply String.eqb_neq in Hne as ->.
  unfold instances_screen, list_card. destruct (isPending q); [done|]. intros [= <-]. split_and!; [done|done|]. cbn.
  unfold filter_alert, truthy_ostr. assert (truthy_str m = true) as ->; [|done].
  unfold timeRangeError in Hm. destruct (first_bad_time _) as [e|] eqn:Ef.
  - injection Hm as <-. cbn in Ef. repeat case_match; simplify_eq; done.
  - by destruct (_ && _ && _); simplify_eq.
Qed.
End form.

(** ** Witnesses *)

#[local] Existing Instances model_postgres model_postgres_laws utc_dates utc_dates_laws.

#[local] Instance view_hash : Sha256 := {| sha256_base64url := λ s, s |}.

#[local] Instance view_lower : SqlText := {| sql_lower := λ s, s |}.

Lemma overview_numbers_open_witness :
  ∃ items, opened (sn_db overview_sample) (instanceLink "order" "1" ["ACTIVE"; "WAITING"] (Some "pay") None) = Some items ∧
    length items = 2.
Proof.
  destruct (steps overview_sample 1709210096789000 step_query) as [e|ss] eqn:Es; [vm_compute in Es; discriminate Es|].
  destruct (overview_numbers_open overview_sample 1709210096789000 "?definitionId=order&definitionVersion=1" sample_tables) as [_ H].
  pose proof (λ card rows line, H step_query ss 1%Z card rows line Es) as H'. clear H. vm_compute in Es. injection Es as <-.
  edestruct H' as [Hi _];
    [vm_compute; reflexivity|vm_compute; reflexivity|vm_compute; reflexivity|vm_compute; reflexivity|vm_compute; reflexivity|left|].
  exact Hi.
Defined.

Lemma filter_error_outlives_search_witness :
  let p := mkListPage EmptyString None
    (mkInstanceFilters EmptyString EmptyString EmptyString EmptyString EmptyString "2024-03-01T00:00:00Z" [] "2024-02-01T00:00:00Z") None in
  ∃ p', page_event (page_event (p, EmptyString) LApply) (LNavigate "?status=FAILED") = (p', "?status=FAILED") ∧
    timeRangeError (f_from (lp_filters p')) (f_to (lp_filters p')) = None ∧
    ∃ v, instances_screen 0 "?status=FAILED" p' (mkQueryState (Some ([], None)) None false 1) = Shown v ∧
      lc_alert v = Some "From must be earlier than To (UTC).".
Proof.
  intros p. pose proof (filter_error_outlives_search p EmptyString "?status=FAILED" "From must be earlier than To (UTC)." 0
    (mkQueryState (Some ([], None)) None false 1)) as H.
  destruct (page_event (page_event (p, EmptyString) LApply) (LNavigate "?status=FAILED")) as [p' s'] eqn:E.
  assert (s' = "?status=FAILED") as -> by (vm_compute in E; by injection E).
  exists p'. split; [reflexivity|]. split; [vm_compute in E; injection E as <-; reflexivity|].
  destruct (instances_screen 0 "?status=FAILED" p' (mkQueryState (Some ([], None)) None false 1)) as [|v] eqn:Ev; [discriminate Ev|].
  exists v. split; [reflexivity|]. apply (H v); [vm_compute; reflexivity|discriminate|reflexivity].
Defined.
