(* ===== verification/MonitorApi.v ===== *)
(** * From the Monitor API to the pages

    (workflow-monitor-bff controllers; workflow-monitor routes/listFilters.ts,
    ProcessInstanceRoute.tsx.)  What the API answers over HTTP, what the pages
    make of it, and what they show then: the answers of the queries go through
    the status codes into the state of a query and onto the screen.  How the
    framework renders an exception and what the query library keeps of a fetch are
    parameters with their documented laws. *)

From S2P Require Import Prelude JsObject Peg Schema ImportExport Utc Cursor Paging Instances Context Incidents Overview Variables UrlParams ListFilters SavedFilters Routes InstancePage Timeline ListViews.

#[local] Arguments String.append !_ _ / : simpl nomatch.

(** ** Answers *)

(** The body of an exception by its status and message. *)
Class NestErrors := { error_body : Z → string → json }.

Class NestErrorsLaws (N : NestErrors) := {
  error_body_message m : ∃ o, error_body 400 m = JObj o ∧ obj_get o "message" = Some (JStr m)
}.

Definition nest_errors : NestErrors := {|
  error_body status m := JObj [("message", JStr m); ("statusCode", JNum (num_of_Z status))]
|}.

Lemma nest_errors_laws : NestErrorsLaws nest_errors.
Proof. split. intros m. by eexists. Qed.

(** A success with its data, or an error status with its body. *)
Inductive Answer (A : Type) := Answered (data : A) | Refused (status : Z) (body : json).
Arguments Answered {_}.
Arguments Refused {_}.

Section answers.
Context `{NestErrors}.

(** A [BadRequestException] is a 400, an error nobody catches a 500. *)
Definition list_answer {Item} (r : ListResult Item) : Answer (ListData Item) :=
  match r with
  | Page items next => Answered (items, next)
  | BadRequest m => Refused 400 (error_body 400 m)
  | DatabaseError | InternalError => Refused 500 (error_body 500 "Internal server error")
  end.

Definition response_answer {A} (r : Response A) : Answer A :=
  match r with
  | Ok a => Answered a
  | NotFound m => Refused 404 (error_body 404 m)
  | Unavailable503 => Refused 503 (error_body 503 "unavailable")
  end.

Definition get_instance `{Postgres} (sn : Snapshot) (id : string) : Response ProcessInstanceDetail :=
  or_not_found "Process Instance not found" (detail sn id).

Definition get_incident `{Postgres} (sn : Snapshot) (id : string) : Response IncidentDetail :=
  or_not_found "Incident not found" (incident_detail sn id).
End answers.

(** ** Queries of the pages *)

(** [fetchList]; an error status is never a success. *)
Definition fetched {A} (label : string) (a : Answer A) : FetchError + A :=
  match a with
  | Answered d => inr d
  | Refused status body => match fetchList status body label with inl e => inl e | inr _ => inl (LoadError EmptyString) end
  end.

(** [getIncidentDetail] *)
Definition fetched_incident (a : Answer IncidentDetail) : FetchError + IncidentDetail :=
  match a with Answered d => inr d | Refused _ _ => inl (LoadError "Unable to load Incident") end.

(** What the query library makes of the outcome of a fetch: a success replaces
    the data, a failure keeps them. *)
Class QueryLibrary := { settled : ∀ {A}, QueryState A → Z → FetchError + A → QueryState A }.

Class QueryLibraryLaws (L : QueryLibrary) := {
  settled_success {A} (q : QueryState A) now d : settled q now (inr d) = mkQueryState (Some d) None false now;
  settled_failure {A} (q : QueryState A) now e : settled q now (inl e) = mkQueryState (q_data q) (Some e) false (q_updatedAt q)
}.

Definition query_library : QueryLibrary := {|
  settled A q now r :=
    match r with
    | inr d => mkQueryState (Some d) None false now
    | inl e => mkQueryState (q_data q) (Some e) false (q_updatedAt q)
    end
|}.

Lemma query_library_laws : QueryLibraryLaws query_library.
Proof. by split. Qed.

(** A query before its first fetch. *)
Definition no_query {A} : QueryState A := mkQueryState None None false 0.

Definition settle `{QueryLibrary} {A} (q : QueryState A) (r : Z * (FetchError + A)) : QueryState A := settled q r.1 r.2.

(** ** The page of one instance *)

(** [getProcessInstanceDetail]; an error status is never a success. *)
Definition fetched_instance (a : Answer ProcessInstanceDetail) : PageError + ProcessInstanceDetail :=
  match a with
  | Answered d => getProcessInstanceDetail 200 d
  | Refused status _ => match getProcessInstanceDetail status tt with inl e => inl e | inr _ => inl (LoadFailed EmptyString) end
  end.

(** What the head of the page says. *)
Record InstanceHeader := mkInstanceHeader {
  iv_heading : string;
  iv_stale : bool;
  iv_class : string;
  iv_status : string;
  iv_businessKey : string
}.

Definition instance_header (stale : bool) (d : ProcessInstanceDetail) : InstanceHeader :=
  let i := pd_instance d in
  mkInstanceHeader ("Process Instance " ⊕ pi_id i) stale ("rm-status--" ⊕ toLowerCase (pi_status i)) (pi_status i)
    (default "None" (pi_businessKey i)).

(** ** Properties *)

Section shown.
Context `{Utf8Text} `{Postgres} `{N : NestErrors} `{!NestErrorsLaws N} `{L : QueryLibrary} `{!QueryLibraryLaws L}.

Lemma fetched_list {Item} label (r : ListResult Item) :
  fetched label (list_answer r) =
  match r with
  | Page items next => inr (items, next)
  | BadRequest m => inl (FilterError m)
  | _ => inl (LoadError ("Unable to load " ⊕ label ⊕ ". Check the Monitor API connection and try again."))
  end.
Proof using NestErrorsLaws0.
  destruct r as [m| | |]; try done. simpl. destruct (error_body_message m) as (o & -> & Ho). unfold fetchList. simpl.
  by rewrite Ho.
Qed.

(** From the tables to the screen.  A list page that asks for the first time
    shows exactly what the API found, with Next when there is more; filters, page
    sizes and cursors the API refuses are reported in the form in the API's words
    and are not asked for again; and when the database fails the page offers a
    retry and goes on polling. *)
Theorem list_shown {Item Row} (row : Z → Item → Row) label now t search r :
  let q := settle no_query (t, fetched label (list_answer r)) in
  match list_card row now search None q, r with
  | Shown v, Page items next =>
      default [] (lc_rows v) = row t <$> items ∧ lc_next v = truthy_ostr next ∧ lc_alert v = None ∧ lc_retry v = None ∧
      lc_stale v = false ∧ refetchInterval 5000 (q_error q) = Some 5000%Z
  | Shown v, BadRequest m =>
      lc_rows v = Some [] ∧ lc_alert v = Some m ∧ lc_retry v = None ∧ refetchInterval 5000 (q_error q) = None
  | Shown v, (DatabaseError | InternalError) =>
      lc_rows v = Some [] ∧ lc_alert v = None ∧
      lc_retry v = Some ("Unable to load " ⊕ label ⊕ ". Check the Monitor API connection and try again.") ∧
      refetchInterval 5000 (q_error q) = Some 5000%Z
  | Loading, _ => False
  end.
Proof using NestErrorsLaws0 QueryLibraryLaws0.
  intros q. unfold q, settle. rewrite fetched_list.
  destruct r as [m| | |items next]; cbn; rewrite ?settled_success, ?settled_failure; cbn; try done. by destruct items, next.
Qed.

Definition ref_integrity (sn : Snapshot) : Prop :=
  ∀ r, r ∈ db_instances (sn_db sn) → ∃ d, d ∈ sn_definitions sn ∧ df_id d = ir_definition_id r ∧ df_version d = ir_definition_version r.

Lemma find_is_Some {A} (f : A → bool) l : is_Some (List.find f l) ↔ ∃ x, x ∈ l ∧ f x = true.
Proof.
  split.
  - intros [x Hx]. apply List.find_some in Hx as [Hin Hf]. exists x. by rewrite list_elem_of_In.
  - intros (x & Hin & Hf). destruct (List.find f l) as [y|] eqn:E; [by eexists|].
    apply list_elem_of_In, (List.find_none _ _ E) in Hin. congruence.
Qed.

(** The page of an instance says that it does not exist exactly when it does not;
    otherwise it shows the instance of that id. *)
Theorem instance_page_found sn id :
  ref_integrity sn →
  let screen := match fetched_instance (response_answer (get_instance sn id)) with
                | inr d => page_shown (Some d) None
                | inl e => page_shown None (Some e)
                end in
  (screen = SError "Process Instance not found" "Check the Instance ID and try again." ↔
     ∀ r, r ∈ db_instances (sn_db sn) → ir_id r ≠ id) ∧
  (∀ r, r ∈ db_instances (sn_db sn) → ir_id r = id →
     ∃ d, screen = SDetail d ∧ iv_heading (instance_header false d) = "Process Instance " ⊕ id).
Proof using Type.
  intros Hri screen. unfold screen, get_instance, detail.
  destruct (List.find (λ r, String.eqb (ir_id r) id) (db_instances (sn_db sn))) as [row|] eqn:E.
  - apply List.find_some in E as [Hin Hid]. apply String.eqb_eq in Hid. apply list_elem_of_In in Hin.
    destruct (Hri row Hin) as (d & Hd & Hdi & Hdv).
    assert (is_Some (List.find (λ d, String.eqb (df_id d) (ir_definition_id row) && (df_version d =? ir_definition_version row)%Z)
      (sn_definitions sn))) as [d' Hd'].
    { apply find_is_Some. exists d. split; [done|]. by rewrite Hdi, Hdv, String.eqb_refl, Z.eqb_refl. }
    cbn [mbind option_bind]. rewrite Hd'. cbn. split.
    + split; [done|]. intros Hn. by apply Hn in Hin.
    + intros. eexists. split; [reflexivity|]. cbn. by rewrite Hid.
  - cbn. assert (∀ r, r ∈ db_instances (sn_db sn) → ir_id r ≠ id) as Hn.
    { intros r Hr Hid. apply list_elem_of_In in Hr. apply (List.find_none _ _ E) in Hr. by rewrite Hid, String.eqb_refl in Hr. }
    split; [done|]. intros r Hr Hid. by apply Hn in Hr.
Qed.
End shown.

(** However the fetches of a query go, the page shows the answer of the last one
    that succeeded, with its time, and marks it stale exactly when a later one
    failed. *)
Theorem rows_of_last_success `{Utf8Text} `{L : QueryLibrary} `{!QueryLibraryLaws L} {Item Row} (row : Z → Item → Row) now search filterError t d before after :
  Forall (λ r : Z * (FetchError + ListData Item), is_Some (match r.2 with inl e => Some e | inr _ => None end)) after →
  let q := foldl settle no_query (before ++ (t, inr d) :: after) in
  ∃ v, list_card row now search filterError q = Shown v ∧ default [] (lc_rows v) = row t <$> d.1 ∧
    lc_next v = truthy_ostr d.2 ∧ (lc_stale v = true ↔ after ≠ []) ∧ lc_retry v = None.
Proof.
  intros Hf q. assert (∃ e, q = mkQueryState (Some d) e false t ∧ (is_Some e ↔ after ≠ [])) as (e & -> & He).
  { unfold q. rewrite foldl_app. cbn [foldl]. unfold settle at 2. cbn [fst snd]. rewrite settled_success. clear q. revert Hf. induction after as [|[t' [e|d']] after IH] using rev_ind.
    - intros _. exists None. split; [done|]. split; [by intros []|done].
    - intros [Hf _]%Forall_app. destruct (IH Hf) as (e0 & Hq & _). rewrite foldl_app, Hq. exists (Some e).
      split; [apply settled_failure|]. split; [|by eexists]. intros _ E. by destruct after.
    - intros [_ Hx]%Forall_app. inversion_clear Hx as [|? ? Hs]. by destruct Hs. }
  unfold list_card, isPending, isError, hasData. cbn. destruct d as [items next], e as [e|]; cbn; eexists; (split; [reflexivity|]); cbn.
  - split_and!; [by destruct items|done| |done]. split; [|done]. intros _. apply He. by eexists.
  - split_and!; [by destruct items|done| |done]. split; [done|]. intros Hn. by apply He in Hn as [].
Qed.

(** ** Witnesses *)

#[local] Existing Instances nest_errors nest_errors_laws query_library query_library_laws model_postgres.

Lemma list_shown_witness :
  match list_card instance_line 0 "?status=OLD" None (settle no_query (1%Z, fetched "Process Instances"
          (list_answer (BadRequest "Invalid status" : ListResult ProcessInstanceListItem)))) with
  | Shown v => lc_alert v = Some "Invalid status" ∧ lc_retry v = None
  | Loading => False
  end.
Proof.
  pose proof (list_shown instance_line "Process Instances" 0 1 "?status=OLD" (BadRequest "Invalid status")) as H.
  cbv zeta in H. destruct (list_card _ _ _ _ _) as [|v]; [exact H|]. destruct H as (_ & Ha & Hr & _). split; [exact Ha|exact Hr].
Defined.

Definition one_instance : Snapshot :=
  mkSnapshot (mkDatabase [mkInstanceRow "i1" "order" 1 "ACTIVE" ["pay"] 0 None None None JNull] []) [] [] []
    [mkDefinitionRow "order" 1 "Order" []].

Lemma instance_page_found_witness :
  ∃ d, match fetched_instance (response_answer (get_instance one_instance "i1")) with
       | inr d => page_shown (Some d) None
       | inl e => page_shown None (Some e)
       end = SDetail d ∧ iv_heading (instance_header false d) = "Process Instance i1".
Proof.
  destruct (instance_page_found one_instance "i1") as [_ H].
  - intros r Hr. apply list_elem_of_In in Hr. destruct Hr as [<-|[]]. eexists. split; [left|split; reflexivity].
  - apply (H (mkInstanceRow "i1" "order" 1 "ACTIVE" ["pay"] 0 None None None JNull)); [left|reflexivity].
Defined.

Lemma rows_of_last_success_witness :
  ∃ v, list_card (λ t (n : nat), (t, n)) 9 EmptyString None
      (foldl settle no_query [(1%Z, inr ([1], None)); (2%Z, inr ([7; 8], None)); (3%Z, inl (LoadError "down"))]) = Shown v ∧
    default [] (lc_rows v) = [(2%Z, 7); (2%Z, 8)] ∧ (lc_stale v = true ↔ [(3%Z, inl (LoadError "down") : FetchError + ListData nat)] ≠ []).
Proof.
  destruct (rows_of_last_success (λ t (n : nat), (t, n)) 9 EmptyString None 2 ([7; 8], None) [(1%Z, inr ([1], None))]
    [(3%Z, inl (LoadError "down"))]) as (v & Hv & Hr & _ & Hs & _).
  - repeat constructor. by eexists.
  - exists v. split; [exact Hv|]. split; [exact Hr|exact Hs].
Defined.
