(* ===== verification/InstancePanels.v ===== *)
(** * The panels of the page of an instance

    (workflow-monitor/src/ExecutionContextPanel.tsx and
    process-variables/VariableSnapshotInspector.tsx.)  What the panels show of the
    contexts and of the recorded variables the API answers, without the markup. *)

From S2P Require Import Prelude JsObject Peg Schema ImportExport Utc Cursor Paging Instances Context Executions Overview Variables ListFilters SavedFilters Comparison Timeline ListViews.

#[local] Arguments String.append !_ _ / : simpl nomatch.

(** ** The execution context *)

Definition reasons (r : Reason) : string :=
  match r with
  | Signal => "Waiting for a signal"
  | UserTask => "Waiting for task completion"
  | JobAvailable => "Job available for acquisition"
  | JobLocked => "Job locked by worker"
  | Unavailable => "Wait reason unavailable"
  end.

Record JobBox := mkJobBox {
  jb_job : string;
  jb_created : string;
  jb_retries : Z;
  jb_worker : string;
  jb_locked : string;
  jb_expires : string;
  jb_expired : bool           (* the words about the lease *)
}.

Record TaskBox := mkTaskBox { tb_task : string; tb_assignee : string; tb_group : string }.

Record TimerText := mkTimerText { tt_id : string; tt_fireAt : string; tt_target : string; tt_interrupting : bool; tt_passed : bool }.

Record ContextArticle := mkArticle {
  ca_step : string;
  ca_reason : string;
  ca_status : string;
  ca_note : option string;
  ca_entered : option (string * Z);     (* the time and the seconds since *)
  ca_job : option JobBox;
  ca_task : option TaskBox;
  ca_timers : list TimerText;
  ca_truncated : bool
}.

Definition recorded_time (t : option Z) : string := default "Not recorded" ((λ t, toISOString (js_date t)) <$> t).

Definition job_box (observed : Z) (j : JobRow) : JobBox :=
  mkJobBox (jr_id j ⊕ " (" ⊕ jr_job_type j ⊕ ")") (toISOString (js_date (jr_created_at j))) (jr_retries_remaining j)
    (default "Not recorded" (jr_worker_id j)) (recorded_time (jr_locked_at j)) (recorded_time (jr_lock_expires_at j))
    (match jr_lock_expires_at j with Some t => passed observed (js_date t) | None => false end).

Definition task_box (t : UserTaskRow) : TaskBox :=
  mkTaskBox (ut_id t) (default "Unassigned" (ut_assignee t)) (default "Unassigned" (ut_assignee_group t)).

Definition timer_text (observed : Z) (t : TimerRow) : TimerText :=
  mkTimerText (tm_id t) (toISOString (js_date (tm_fire_at t))) (tm_target_step_id t) (tm_interrupting t)
    (passed observed (js_date (tm_fire_at t))).

Definition article (observed : Z) (c : ExecutionContext) : ContextArticle :=
  mkArticle (ec_stepId c) (reasons (ec_reason c)) (default "Not recorded" (er_status <$> ec_execution c))
    (match ec_unavailableReason c with Some m => if truthy_str m then Some m else None | None => None end)
    (match ec_execution c with
     | Some e =>
         if String.eqb (er_status e) "RUNNING" && negb (bool_decide (ec_reason c = Unavailable))
         then Some (toISOString (js_date (er_started_at e)), seconds_elapsed observed (js_date (er_started_at e))) else None
     | None => None
     end)
    (job_box observed <$> ec_job c) (task_box <$> ec_task c) (timer_text observed <$> ec_timers c) (ec_timersTruncated c).

(** The articles; without any the panel says so. *)
Definition ExecutionContextPanel (contexts : list ExecutionContext) (observed : Z) (selectedStepId : option string) :
    list ContextArticle :=
  article observed <$> visible_contexts contexts selectedStepId.

(** ** Recorded variables *)

Inductive DocumentView := DocText (text : string) | DocTable (label : string) (rows : list (string * string * string)).

Definition VariableDocumentView `{JsonText} (label : string) (document : VariableDocument) : DocumentView :=
  match document with
  | NotRecorded => DocText (label ⊕ ": Not recorded")
  | ContentTooLarge n => DocText (label ⊕ ": Content too large (" ⊕ pretty (Z.of_nat n) ⊕ " bytes).")
  | Present value _ => DocTable label (variable_rows value)
  end.

Record InspectorView := mkInspector {
  iw_label : string;
  iw_class : string;
  iw_input : string;
  iw_output : string;
  iw_button : option string;           (* Collapse or Expand *)
  iw_loading : bool;
  iw_error : option string;            (* with the retry button *)
  iw_documents : list DocumentView
}.

Definition availability (b : bool) : string := if b then "Available" else "Not recorded".

(** [enabled] of the query of the snapshots *)
Definition snapshots_enabled (expanded : bool) (x : StepExecutionListItem) : bool :=
  expanded && (si_hasInputSnapshot x || si_hasOutputSnapshot x).

Definition step_label (stepName : option string) (x : StepExecutionListItem) : string :=
  match js_trim <$> stepName with Some n => if truthy_str n then n else si_stepId x | None => si_stepId x end.

Definition VariableSnapshotInspector `{JsonText} (stepName : option string) (expanded : bool) (x : StepExecutionListItem)
    (q : QueryState RecordedVariables) : InspectorView :=
  let hasSnapshots := si_hasInputSnapshot x || si_hasOutputSnapshot x in
  mkInspector (step_label stepName x) ("rm-status--" ⊕ toLowerCase (si_status x))
    (availability (si_hasInputSnapshot x)) (availability (si_hasOutputSnapshot x))
    (if hasSnapshots then Some (if expanded then "Collapse" else "Expand") else None)
    (expanded && hasSnapshots && isPending q)
    (if expanded && isError q
     then Some (if hasData q then "Stale Variable Snapshot data" else "Unable to load Variable Snapshots.") else None)
    (match q_data q with
     | Some d => if expanded then [VariableDocumentView "Recorded Input" (rv_recordedInput d);
                                   VariableDocumentView "Recorded Output" (rv_recordedOutput d)] else []
     | None => []
     end).

(** ** Properties *)

#[local] Arguments toISOString : simpl never.
#[local] Arguments seconds_elapsed : simpl never.

Ltac evidence :=
  split_and!; split; intros Hx;
  first [discriminate | by left | by right | by destruct Hx as [Hx|Hx] | by destruct Hx | eexists; reflexivity | reflexivity].

(** The panel shows the evidence of the reason and nothing else: the job exactly
    for a job that is available or locked, the task exactly for a user task, the
    time since the step was entered exactly when there is a reason, and a note
    exactly when there is none. *)
Theorem article_evidence observed row :
  let c := context_of row in
  let a := article observed c in
  (is_Some (ca_job a) ↔ ec_reason c = JobAvailable ∨ ec_reason c = JobLocked) ∧
  (is_Some (ca_task a) ↔ ec_reason c = UserTask) ∧
  (is_Some (ca_entered a) ↔ ec_reason c ≠ Unavailable) ∧
  (is_Some (ca_note a) ↔ ec_reason c = Unavailable) ∧
  length (ca_timers a) ≤ 100.
Proof.
  intros c a. assert (length (ca_timers a) ≤ 100) as Hl.
  { unfold a, c, context_of. destruct (classify row). cbn [article ca_timers ec_timers]. rewrite length_fmap, length_take. lia. }
  enough ((is_Some (ca_job a) ↔ ec_reason c = JobAvailable ∨ ec_reason c = JobLocked) ∧
    (is_Some (ca_task a) ↔ ec_reason c = UserTask) ∧ (is_Some (ca_entered a) ↔ ec_reason c ≠ Unavailable) ∧
    (is_Some (ca_note a) ↔ ec_reason c = Unavailable)) as (? & ? & ? & ?) by done.
  clear Hl. unfold a, c, article, context_of, classify, row_is, is_running. clear a c.
  generalize (job_box observed), (timer_text observed), task_box. intros box text task.
  destruct (_ || _ || _); [destruct (cr_execution row) as [e|]; cbn; rewrite ?andb_false_r; evidence|].
  destruct (cr_execution row) as [e|]; [|cbn; evidence].
  destruct (String.eqb (er_status e) "RUNNING") eqn:Er; [|cbn; rewrite Er; evidence].
  destruct (String.eqb_spec (er_step_type e) "WAIT") as [->|]; [|destruct (String.eqb_spec (er_step_type e) "USER_TASK") as [->|];
    [|destruct (String.eqb (er_step_type e) "SERVICE_TASK")]].
  all: destruct (cr_job row) as [j|]; [destruct (String.eqb (jr_status j) "LOCKED")|]; destruct (cr_task row); cbn; rewrite ?Er; cbn; evidence.
Qed.

Lemma context_step `{Postgres} sn instanceId s : ec_stepId (context_of (context_row sn instanceId s)) = s.
Proof. unfold context_of. destruct (classify _). simpl. unfold context_row. by case_match. Qed.

Lemma filter_image {A B} (F : B → A) (key : A → B) (g : B → bool) l :
  (∀ s, key (F s) = s) → key <$> List.filter (λ c, g (key c)) (F <$> l) = List.filter g l.
Proof.
  intros Hk. induction l as [|x l IH]; [done|]. rewrite fmap_cons. cbn [List.filter]. rewrite Hk.
  destruct (g x); [|done]. by rewrite fmap_cons, Hk, IH.
Qed.

(** The panel lists the current steps of an instance in their order, one article
    each; when a step is selected, the articles of that step. *)
Theorem panel_steps `{Postgres} sn instanceId stepIds observed selected :
  ca_step <$> ExecutionContextPanel (readExecutionContext sn instanceId stepIds) observed selected =
  match selected with
  | Some s => if truthy_str s then List.filter (String.eqb s) stepIds else stepIds
  | None => stepIds
  end.
Proof.
  unfold ExecutionContextPanel, readExecutionContext, visible_contexts. rewrite <- list_fmap_compose.
  set (g := λ s, negb (truthy_ostr selected) || match selected with Some s' => String.eqb s' s | None => false end).
  rewrite (List.filter_ext _ (λ c, g (ec_stepId c))).
  2: { intros c. unfold g. f_equal. destruct selected as [s|]; [|by case_bool_decide].
       destruct (String.eqb_spec s (ec_stepId c)) as [->|]; case_bool_decide; congruence. }
  etransitivity; [apply (filter_image (λ s, context_of (context_row sn instanceId s)) ec_stepId g), context_step|].
  assert (∀ l : list string, List.filter (λ _, true) l = l) as Hall by (intros l; apply forallb_filter_id, forallb_forall; done).
  unfold g. destruct selected as [s|]; cbn [truthy_ostr]; [|apply Hall]. by destruct (truthy_str s); cbn [negb orb]; [|apply Hall].
Qed.

(** A recorded document is shown whole: its table has a row for every variable,
    in order, whose text reads back as the value; what is not recorded or too
    large is said in words. *)
Theorem document_shown `{J : JsonText} `{!JsonTextLaws J} label (o : obj json) size :
  Forall (λ p, json_wf p.2 = true) o →
  ∃ rows, VariableDocumentView label (Present (JObj o) size) = DocTable label rows ∧
    Forall2 (λ row p, row.1.1 = p.1 ∧ JSON_parse row.1.2 = inl p.2 ∧ row.2 = jsonType p.2) rows o.
Proof.
  intros Hw. eexists. split; [reflexivity|]. unfold variable_rows. rewrite Forall2_fmap_l. apply Forall2_same_length_lookup_2; [done|].
  intros i x y Hx Hy. rewrite Hx in Hy. injection Hy as <-. simpl. split_and!; [done| |done].
  apply parse_stringify. rewrite Forall_forall in Hw. apply Hw. by eapply list_elem_of_lookup_2.
Qed.

Lemma document_shown_witness :
  ∃ rows, VariableDocumentView (H := model_text) "Recorded Input" (Present (JObj [("a", JBool true)]) 10) = DocTable "Recorded Input" rows ∧
    Forall2 (λ row p, row.1.1 = p.1 ∧ JSON_parse (JsonText := model_text) row.1.2 = inl p.2 ∧ row.2 = jsonType p.2) rows [("a", JBool true)].
Proof. apply (document_shown (J := model_text)). repeat constructor. Defined.

(** The inspector fetches only what there is to show, and is never silent: when it
    is expanded and something was recorded, it loads, shows both documents, or
    says that it could not. *)
Theorem inspector_complete `{JsonText} stepName expanded x q :
  let v := VariableSnapshotInspector stepName expanded x q in
  (snapshots_enabled expanded x = true → iw_loading v = true ∨ length (iw_documents v) = 2 ∨ is_Some (iw_error v)) ∧
  (iw_button v = None ↔ iw_input v = "Not recorded" ∧ iw_output v = "Not recorded") ∧
  (expanded = false → iw_documents v = [] ∧ iw_loading v = false ∧ iw_error v = None).
Proof.
  unfold VariableSnapshotInspector, snapshots_enabled, isPending, isError, hasData. cbn.
  split_and!.
  - intros [-> Hs]%andb_true_iff. rewrite Hs. destruct (q_data q); [by right; left|]. destruct (q_error q); [right; right; by eexists|by left].
  - destruct (si_hasInputSnapshot x), (si_hasOutputSnapshot x); cbn; naive_solver.
  - intros ->. by destruct (q_data q).
Qed.
