(* ===== verification/InstanceView.v ===== *)
(** * What the page of a process instance shows
    (workflow-monitor/src/routes/ProcessInstanceRoute.tsx, ExecutionTimeline.tsx,
    DataFreshness.tsx)

    The page as a function of its state (InstancePage.v) and of its three queries:
    the tabs, the diagram (Diagram.v), the context panel and the snapshot
    inspectors (InstancePanels.v), the table and the timeline of step executions,
    the links to incidents and the buttons that are enabled.  Class names and
    fixed headings are left out; the percentages of the bars are exact. *)

From Stdlib Require Import QArith Qminmax.
From stdpp Require Import sorting.
From S2P Require Import Prelude JsObject Peg Types Graph Schema ImportExport Utc Cursor Paging Conditions Instances InstancesProps Context Executions Incidents IncidentsProps Variables UrlParams ListFilters SavedFilters Routes RoutesProps InstancePage InstancePageProps Comparison Diagram Timeline ListViews MonitorApi InstancePanels.

#[local] Arguments String.append !_ _ / : simpl nomatch.
#[local] Open Scope nat_scope.

(** ** Parts *)

(** [DataFreshness]: nothing before the first update. *)
Definition DataFreshness (label : string) (now updatedAt : Z) : option string :=
  (λ age, label ⊕ " updated " ⊕ toISOString updatedAt ⊕ " (" ⊕ pretty age ⊕ "s ago)") <$> data_age now updatedAt.

(** [isError || fetchStatus === "paused"] *)
Definition query_stale {A} (q : QueryState A) : bool := isError q || q_paused q.

(** The note under a query that is stale. *)
Definition stale_note {A} (staleText failedText : string) (q : QueryState A) : option string :=
  if query_stale q then Some (if hasData q then staleText else failedText) else None.

(** The steps of the definition in the answer. *)
Definition detail_steps (d : ProcessInstanceDetail) : list DiagramStep :=
  match obj_get (pd_definition d) "steps" with
  | Some (JArr l) => l ≫= λ j, match j with JObj o => [diagram_step o] | _ => [] end
  | _ => []
  end.

Definition detail_overlay (d : ProcessInstanceDetail) : Overlay :=
  mkOverlay (pd_currentTokenStepIds d) (pd_failedStepId d) (pd_latestByStep d).

(** [detail.definition.steps.find((step) => step.id === id)?.name] *)
Definition step_name (d : ProcessInstanceDetail) (id : option string) : option string :=
  ds_name <$> List.find (λ s, bool_decide (Some (ds_id s) = id)) (detail_steps d).

(** ** The table *)

Record TableLine := mkTableLine {
  tl_current : bool;
  tl_id : string;
  tl_step : string;
  tl_type : string;
  tl_attempt : Z;
  tl_status : string;
  tl_started : string;
  tl_ended : string;
  tl_failure : FailureCell;
  tl_input : string;
  tl_output : string
}.

Definition recorded (b : bool) : string := if b then "Recorded" else "Not recorded".

Definition table_line (d : ProcessInstanceDetail) (selectedStepId : option string) (x : StepExecutionListItem) : TableLine :=
  mkTableLine (bool_decide (Some (si_stepId x) = selectedStepId)) (si_id x) (si_stepId x) (si_stepType x) (si_attemptNumber x)
    (si_status x) (toISOString (si_startedAt x)) (default "In progress" (toISOString <$> si_endedAt x)) (failure_cell d x)
    (recorded (si_hasInputSnapshot x)) (recorded (si_hasOutputSnapshot x)).

(** ** The timeline *)

(** [`${duration / 1000}`] of whole milliseconds. *)
Definition seconds_text (ms : Z) : string :=
  let r := (ms mod 1000)%Z in
  pretty (ms / 1000)%Z ⊕
  (if (r =? 0)%Z then EmptyString
   else if (r mod 100 =? 0)%Z then "." ⊕ pretty (r / 100)%Z
   else if (r mod 10 =? 0)%Z then "." ⊕ pad 2 (r / 10)%Z
   else "." ⊕ pad 3 r).

Record TimelineLine := mkTimelineLine {
  tn_id : string;                        (* inspected by the button *)
  tn_step : string;
  tn_attempt : Z;
  tn_status : string;
  tn_started : string;
  tn_ended : string;
  tn_class : string;
  tn_duration : option (string * bool);  (* in seconds, and whether it is still elapsing *)
  tn_margin : Q;
  tn_width : Q
}.

Definition timeline_line (observedAt : Z) (active : bool) (l : list StepExecutionListItem) (x : StepExecutionListItem) :
    TimelineLine :=
  let percent := λ n, Qmake (100 * n)%Z (Z.to_pos (span observedAt active l)) in
  mkTimelineLine (si_id x) (si_stepId x) (si_attemptNumber x) (si_status x) (toISOString (si_startedAt x))
    (match si_endedAt x with
     | Some e => toISOString e
     | None => match finish observedAt active x with None => "End not recorded" | Some _ => toISOString observedAt end
     end)
    ("rm-timeline-bar rm-status--" ⊕ toLowerCase (si_status x))
    ((λ n, (seconds_text n, bool_decide (si_endedAt x = None))) <$> duration observedAt active x)
    (percent (bar observedAt active l x).1) (Qmax (3 # 10) (percent (bar observedAt active l x).2)).

Record TimelineView := mkTimelineView {
  tv_note : string;
  tv_lines : list TimelineLine          (* without any: No Step Executions recorded. *)
}.

Definition ExecutionTimeline (observedAt : Z) (active partial : bool) (executions : list StepExecutionListItem) : TimelineView :=
  let sorted := sorted_executions executions in
  mkTimelineView (if partial then "Loaded history page only; use the page controls for other attempts."
                  else "All recorded step attempts are loaded.")
    (timeline_line observedAt active sorted <$> sorted).

(** ** The page *)

Inductive HistoryContent :=
| TableOf (lines : list TableLine)      (* without any: No Step Executions recorded. *)
| TimelineOf (t : TimelineView).

Record HistoryPanel := mkHistoryPanel {
  hp_content : HistoryContent;
  hp_inspected : option (string * InspectorView * option string);  (* the execution, its inspector, the link *)
  hp_newest : bool;                      (* the buttons that are enabled *)
  hp_previous : bool;
  hp_next : bool
}.

Record StepBanner := mkStepBanner { sb_name : string; sb_link : option string }.

Section view.
Context `{JsonText} `{Utf8Text} `{Coordinates}.

Record OverviewView := mkOverviewView {
  ow_diagram : option DiagramView;
  ow_context : option (list ContextArticle);
  ow_fresh : option string;
  ow_banner : option StepBanner;
  ow_loading : bool;
  ow_note : option string;
  ow_pressed : HistoryView;
  ow_history : option HistoryPanel
}.

Record VariablesView := mkVariablesView {
  vv_loading : bool;
  vv_fresh : option string;
  vv_note : option string;
  vv_rows : option (list (string * string * string));
  vv_tooLarge : option string;
  vv_executionsLoading : bool;
  vv_executionsFresh : option string;
  vv_executionsNote : option string;
  vv_snapshots : list InspectorView
}.

Inductive InstanceScreen :=
| InstanceLoading
| InstanceError (heading hint : string)
| InstanceOverview (header : InstanceHeader) (fresh : option string) (view : OverviewView)
| InstanceVariables (header : InstanceHeader) (fresh : option string) (view : VariablesView).

(** The queries of the page, the moment it is shown, the state of the diagram, and
    of the inspector of an execution: whether it is expanded, and its query. *)
Record PageInputs := mkInputs {
  in_now : Z;
  in_detail : option ProcessInstanceDetail;
  in_error : option PageError;
  in_paused : bool;
  in_detailAt : Z;
  in_observedAt : option Z;
  in_executions : QueryState (ListData StepExecutionListItem);
  in_variables : QueryState VariableDocument;
  in_diagram : DiagramState;
  in_inspectors : StepExecutionListItem → bool * QueryState RecordedVariables
}.

Definition inspector (i : PageInputs) (d : ProcessInstanceDetail) (x : StepExecutionListItem) : InspectorView :=
  let '(expanded, q) := in_inspectors i x in
  VariableSnapshotInspector (step_name d (Some (si_stepId x))) expanded x q.

(** The banner of the selected step. *)
Definition step_banner (d : ProcessInstanceDetail) (selected : option string) : option StepBanner :=
  match step_name d selected with
  | Some name =>
      if truthy_str name
      then Some (mkStepBanner name ((λ x, incident_path (ss_executionId x)) <$> selectedFailedExecution d selected)) else None
  | None => None
  end.

Definition inspected_panel (i : PageInputs) (d : ProcessInstanceDetail) (x : StepExecutionListItem) :
    string * InspectorView * option string :=
  (si_id x, inspector i d x,
   if String.eqb (si_status x) "FAILED" && negb (String.eqb (pi_status (pd_instance d)) "CANCELLED")
   then Some (incident_path (si_id x)) else None).

Definition history_panel (i : PageInputs) (p : PageState) (d : ProcessInstanceDetail) (data : ListData StepExecutionListItem) :
    HistoryPanel :=
  mkHistoryPanel
    (match pg_historyView p with
     | HTimeline =>
         TimelineOf (ExecutionTimeline (q_updatedAt (in_executions i)) (is_live (pi_status (pd_instance d))) (partial p data.2) data.1)
     | HTable => TableOf (table_line d (pg_selectedStepId p) <$> data.1)
     end)
    (match pg_historyView p with
     | HTimeline => inspected_panel i d <$> inspectedExecution data.1 (pg_inspected p)
     | HTable => None
     end)
    (bool_decide (pg_cursor p ≠ None)) (bool_decide (pg_history p ≠ [])) (truthy_ostr data.2).

Definition overview_view (i : PageInputs) (p : PageState) (d : ProcessInstanceDetail) : OverviewView :=
  let executions := in_executions i in
  mkOverviewView
    (ExecutionDiagram (detail_overlay d) (pg_selectedStepId p) true (in_diagram i))
    ((λ observed, ExecutionContextPanel (pd_executionContext d) observed (pg_selectedStepId p)) <$> in_observedAt i)
    (DataFreshness "Step Executions" (in_now i) (q_updatedAt executions))
    (step_banner d (pg_selectedStepId p))
    (isPending executions)
    (stale_note "Stale Step Execution data" "Unable to load Step Executions." executions)
    (pg_historyView p)
    (history_panel i p d <$> q_data executions).

Definition variables_view (i : PageInputs) (d : ProcessInstanceDetail) : VariablesView :=
  let executions := in_executions i in
  let variables := in_variables i in
  mkVariablesView (isPending variables) (DataFreshness "Current Variables" (in_now i) (q_updatedAt variables))
    (stale_note "Stale Current Variable data" "Unable to load Current Variables." variables)
    (match q_data variables with Some (Present value _) => Some (variable_rows value) | _ => None end)
    (match q_data variables with
     | Some (ContentTooLarge n) => Some ("Current Variables content is too large (" ⊕ str_of_nat n ⊕ " bytes).")
     | _ => None
     end)
    (isPending executions) (DataFreshness "Step Executions" (in_now i) (q_updatedAt executions))
    (stale_note "Stale Step Execution data" "Unable to load Step Executions." executions)
    (match q_data executions with Some data => inspector i d <$> data.1 | None => [] end).

Definition instance_screen (i : PageInputs) (p : PageState) : InstanceScreen :=
  match page_shown (in_detail i) (in_error i) with
  | SLoading => InstanceLoading
  | SError heading hint => InstanceError heading hint
  | SDetail d =>
      let header := instance_header (bool_decide (is_Some (in_error i)) || in_paused i) d in
      let fresh := DataFreshness "Status and diagram" (in_now i) (in_detailAt i) in
      match pg_detailView p with
      | VOverview => InstanceOverview header fresh (overview_view i p d)
      | VVariables => InstanceVariables header fresh (variables_view i d)
      end
  end.

(** The clicks a screen offers. *)
Definition history_clicks (h : HistoryPanel) : list PageAction :=
  (match hp_content h with TimelineOf t => (λ l, AInspect (tn_step l) (tn_id l)) <$> tv_lines t | TableOf _ => [] end) ++
  (if hp_newest h then [ANewest] else []) ++ (if hp_previous h then [APrevious] else []) ++ (if hp_next h then [ANext] else []).

Definition offered (s : InstanceScreen) : list PageAction :=
  match s with
  | InstanceOverview _ _ v =>
      [ADetailView VOverview; ADetailView VVariables; AHistoryView HTable; AHistoryView HTimeline] ++
      (match ow_diagram v with Some w => (λ n, ASelectStep (nw_step n)) <$> dw_nodes w | None => [] end) ++
      (match ow_banner v with Some _ => [AClearStep] | None => [] end) ++
      (match ow_history v with Some h => history_clicks h | None => [] end)
  | InstanceVariables _ _ _ => [ADetailView VOverview; ADetailView VVariables]
  | _ => []
  end.

(** The links to incidents of a screen. *)
Definition history_links (h : HistoryPanel) : list string :=
  (match hp_content h with
   | TableOf lines => lines ≫= λ l, match tl_failure l with FLink id => [incident_path id] | _ => [] end
   | TimelineOf _ => []
   end) ++
  (match hp_inspected h with Some (_, _, Some href) => [href] | _ => [] end).

Definition incident_hrefs (s : InstanceScreen) : list string :=
  match s with
  | InstanceOverview _ _ v =>
      (match ow_banner v with Some b => option_list (sb_link b) | None => [] end) ++
      (match ow_history v with Some h => history_links h | None => [] end)
  | _ => []
  end.
End view.

(** ** Properties *)

Section props.
Context `{J : JsonText} `{U : Utf8Text} `{C : Coordinates}.

Definition is_page_button (a : PageAction) : bool := match a with ANewest | APrevious | ANext => true | _ => false end.

Lemma page_clicks i p d data a : is_page_button a = true →
  a ∈ history_clicks (history_panel i p d data) ↔
  match a with
  | ANewest => pg_cursor p ≠ None
  | APrevious => pg_history p ≠ []
  | _ => truthy_ostr data.2 = true
  end.
Proof.
  intros Ha. unfold history_clicks, history_panel. cbn [hp_content hp_newest hp_previous hp_next].
  assert (∀ l : list TimelineLine, a ∉ (λ l, AInspect (tn_step l) (tn_id l)) <$> l) as Hno
    by (intros l (x & -> & _)%list_elem_of_fmap; done).
  assert (a ∉ match (match pg_historyView p with
    | HTimeline => TimelineOf (ExecutionTimeline (q_updatedAt (in_executions i)) (is_live (pi_status (pd_instance d))) (partial p data.2) data.1)
    | HTable => TableOf (table_line d (pg_selectedStepId p) <$> data.1) end) with
    | TimelineOf t => (λ l, AInspect (tn_step l) (tn_id l)) <$> tv_lines t | TableOf _ => [] end) as Hno'
    by (destruct (pg_historyView p); [apply not_elem_of_nil|apply Hno]).
  rewrite !elem_of_app. destruct a; try done; repeat case_bool_decide; destruct (truthy_ostr data.2);
    rewrite ?list_elem_of_singleton, ?elem_of_nil; naive_solver.
Qed.

(** An action of the pages is offered only by the history of the overview. *)
Lemma offered_page i p a : is_page_button a = true →
  a ∈ offered (instance_screen i p) ↔
  ∃ d data, in_detail i = Some d ∧ pg_detailView p = VOverview ∧ q_data (in_executions i) = Some data ∧
    a ∈ history_clicks (history_panel i p d data).
Proof.
  intros Ha. unfold instance_screen, page_shown. destruct (in_detail i) as [d|].
  - destruct (pg_detailView p).
    + cbn [offered overview_view ow_diagram ow_banner ow_history]. rewrite !elem_of_app.
      assert (a ∉ [ADetailView VOverview; ADetailView VVariables; AHistoryView HTable; AHistoryView HTimeline]) as H1
        by (rewrite !not_elem_of_cons; destruct a; try done; split_and!; first [discriminate|apply not_elem_of_nil]).
      assert (∀ o : option DiagramView, a ∉ match o with Some w => (λ n, ASelectStep (nw_step n)) <$> dw_nodes w | None => [] end) as H2
        by (intros [w|]; [intros (x & -> & _)%list_elem_of_fmap; done|apply not_elem_of_nil]).
      assert (∀ o : option StepBanner, a ∉ match o with Some _ => [AClearStep] | None => [] end) as H3
        by (intros [b|]; [intros ->%list_elem_of_singleton; done|apply not_elem_of_nil]).
      destruct (q_data (in_executions i)) as [data|]; cbn [fmap option_fmap option_map].
      * split; [|intros (d' & data' & [= <-] & _ & [= <-] & Hc); auto].
        intros [Hc|[Hc|[Hc|Hc]]]; [by destruct H1|by destruct (H2 _ Hc)|by destruct (H3 _ Hc)|]. by exists d, data.
      * split; [|by intros (? & ? & _ & _ & [=] & _)].
        intros [Hc|[Hc|[Hc|Hc]]]; [by destruct H1|by destruct (H2 _ Hc)|by destruct (H3 _ Hc)|by apply elem_of_nil in Hc].
    + split; [|by intros (? & ? & _ & [=] & _)]. cbn [offered]. rewrite !elem_of_cons. intros [->|[->|Hc]]; try done. by apply elem_of_nil in Hc.
  - split; [|by intros (? & ? & [=] & _)]. destruct (in_error i) as [[]|]; intros Hc; by apply elem_of_nil in Hc.
Qed.

End props.

(** The buttons of the pages say what they do: Newest, Previous and Next are
    enabled exactly when a click moves to another page of the executions. *)
Theorem pages_offered `{J : JsonText} `{U : Utf8Text} `{C : Coordinates} (i : PageInputs) p a :
  is_page_button a = true → is_Some (in_detail i) →
  a ∈ offered (instance_screen i p) ↔ page_step (snd <$> q_data (in_executions i)) a p ≠ p.
Proof.
  intros Ha [d Hd]. rewrite (offered_page i p a Ha). split.
  - intros (d' & data & _ & Hv & Hq & Hc). rewrite (page_clicks i p d' data a Ha) in Hc. rewrite Hq. cbn [fmap option_fmap option_map].
    destruct p as [sel cur hist hv ins dv], data as [items next]. cbn [pg_detailView] in Hv. subst dv.
    destruct a; try done; cbn [page_step pg_detailView pg_cursor pg_history snd] in *.
    + destruct cur as [c|]; [|done]. intros [=].
    + destruct hist as [|c h]; [done|]. intros E%(f_equal (λ q, length (pg_history q))). cbn [with_cursor_history pg_history] in E.
      rewrite removelast_firstn_len, length_firstn in E. cbn [length pred] in E. lia.
    + destruct next as [n|]; [|done]. cbn [truthy_ostr] in Hc. rewrite Hc. intros E%(f_equal (λ q, length (pg_history q))).
      cbn [with_cursor_history pg_history] in E. rewrite length_app in E. cbn [length] in E. lia.
  - intros Hne. exists d. destruct (q_data (in_executions i)) as [data|]; cbn [fmap option_fmap option_map] in Hne.
    2: { destruct a; try done; cbn [page_step] in Hne; by destruct (pg_detailView p). }
    exists data. split; [done|]. destruct (pg_detailView p) eqn:Ev; [|by destruct a; try done; cbn [page_step] in Hne; rewrite Ev in Hne].
    split; [done|]. split; [done|]. apply (page_clicks i p d data a Ha).
    destruct a; try done; cbn [page_step] in Hne; rewrite Ev in Hne.
    + by destruct (pg_cursor p).
    + by destruct (pg_history p).
    + destruct data.2 as [n|]; [|done]. cbn [truthy_ostr]. by destruct (truthy_str n).
Qed.

(** ** Links *)

Section links.
Context `{J : JsonText} `{U : Utf8Text} `{!Utf8Laws U} `{C : Coordinates} `{P : Postgres}.
Context (sn : Snapshot) (instanceId : string) (d : ProcessInstanceDetail).
Context (Hpk : primary_keys sn) (Hd : detail sn instanceId = Some d).
Context (Hids : ∀ e, e ∈ db_executions (sn_db sn) → er_id e ∉ [EmptyString; "."; ".."]).

(** An execution of the instance, as the API lists it. *)
Definition listed (x : StepExecutionListItem) : Prop :=
  ∃ e, e ∈ db_executions (sn_db sn) ∧ er_instance_id e = instanceId ∧ x = execution_item e.

(** A link that opens the page of an incident that exists. *)
Definition opens_incident (href : string) : Prop :=
  ∃ id inc, href = incident_path id ∧ app_view (location_of href) = IncidentPage id ∧ incident_detail sn id = Some inc.

Lemma incident_opens e inc : e ∈ db_executions (sn_db sn) → incident_detail sn (er_id e) = Some inc →
  opens_incident (incident_path (er_id e)).
Proof using Hids Utf8Laws0.
  intros He Hinc. exists (er_id e), inc. split; [done|]. split; [|done].
  destruct (link_opens (er_id e) None (Hids e He)) as [_ H]. cbn in H. by rewrite str_app_nil_r in H.
Qed.

Lemma failed_opens x : listed x →
  String.eqb (si_status x) "FAILED" && negb (String.eqb (pi_status (pd_instance d)) "CANCELLED") = true →
  opens_incident (incident_path (si_id x)).
Proof using Hpk Hd Hids Utf8Laws0.
  intros (e & He & Hi & ->) [Hst%String.eqb_eq Hc%negb_true_iff%String.eqb_neq]%andb_true_iff. cbn [execution_item si_status si_id] in *.
  destruct (proj2 (incident_exists sn Hpk instanceId d e Hd He Hi) (conj Hst Hc)) as [inc Hinc]. by eapply incident_opens.
Qed.

Lemma selected_opens selected x : selectedFailedExecution d selected = Some x →
  opens_incident (incident_path (ss_executionId x)).
Proof using Hpk Hd Hids Utf8Laws0.
  intros Hx. assert (∃ e, x = summary e ∧ e ∈ latest_by_step sn instanceId ∧ er_status e = "FAILED" ∧ pi_status (pd_instance d) ≠ "CANCELLED")
    as (e & -> & He & Hst & Hc).
  { unfold selectedFailedExecution in Hx. destruct (String.eqb_spec (pi_status (pd_instance d)) "CANCELLED") as [|Hc]; [done|].
    cbn [negb] in Hx. apply List.find_some in Hx as [Hx Hb]. apply andb_true_iff in Hb as [_ Hst%String.eqb_eq].
    pose proof Hd as Hd'. unfold detail in Hd'. destruct (List.find _ _); [|done]. cbn [mbind option_bind] in Hd'.
    destruct (List.find _ _); [|done]. injection Hd' as Hd'. rewrite <- Hd' in Hx. cbn [pd_latestByStep] in Hx.
    apply list_elem_of_In, list_elem_of_fmap in Hx as (e & -> & He). exists e. by split_and!. }
  apply latest_by_step_in, latest_execution_in in He as (He & Hi & _). cbn [summary ss_executionId].
  destruct (proj2 (incident_exists sn Hpk instanceId d e Hd He Hi) (conj Hst Hc)) as [inc Hinc]. by eapply incident_opens.
Qed.

Lemma banner_opens selected b href : step_banner d selected = Some b → sb_link b = Some href → opens_incident href.
Proof using Hpk Hd Hids Utf8Laws0.
  unfold step_banner. destruct (step_name d selected) as [name|]; [|done]. destruct (truthy_str name); [|done]. intros [= <-].
  cbn [sb_link]. destruct (selectedFailedExecution d selected) as [x|] eqn:Ex; [|done]. intros [= <-]. by eapply selected_opens.
Qed.

Lemma history_opens i p data href : Forall listed data.1 → href ∈ history_links (history_panel i p d data) → opens_incident href.
Proof using Hpk Hd Hids Utf8Laws0.
  intros Hl. rewrite Forall_forall in Hl. unfold history_links, history_panel. cbn [hp_content hp_inspected].
  destruct (pg_historyView p); rewrite elem_of_app.
  - intros [Hh|Hh]; [|by apply elem_of_nil in Hh]. apply list_elem_of_bind in Hh as (line & Hh & Hline).
    apply list_elem_of_fmap in Hline as (x & -> & Hx). cbn [table_line tl_failure] in Hh. unfold failure_cell in Hh.
    destruct (String.eqb (si_status x) "FAILED" && negb (String.eqb (pi_status (pd_instance d)) "CANCELLED")) eqn:E.
    + apply list_elem_of_singleton in Hh as ->. apply failed_opens; auto.
    + destruct (si_hasFailure x); by apply elem_of_nil in Hh.
  - intros [Hh|Hh]; [by apply elem_of_nil in Hh|]. destruct (inspectedExecution data.1 (pg_inspected p)) as [x|] eqn:Ei; [|by apply elem_of_nil in Hh].
    cbn [fmap option_fmap option_map inspected_panel] in Hh. apply List.find_some in Ei as [Hx%list_elem_of_In _].
    destruct (String.eqb (si_status x) "FAILED" && negb (String.eqb (pi_status (pd_instance d)) "CANCELLED")) eqn:E;
      [|by apply elem_of_nil in Hh]. apply list_elem_of_singleton in Hh as ->. apply failed_opens; auto.
Qed.
End links.

(** C12: every link of the page leads somewhere: the links of the banner, of the table
    and of the inspected execution open the page of an incident that exists; and
    the table links every execution it lists that has an incident. *)
Theorem screen_links_open `{J : JsonText} `{U : Utf8Text} `{!Utf8Laws U} `{C : Coordinates} `{P : Postgres}
    sn instanceId d (i : PageInputs) p :
  primary_keys sn → detail sn instanceId = Some d → in_detail i = Some d →
  (∀ e, e ∈ db_executions (sn_db sn) → er_id e ∉ [EmptyString; "."; ".."]) →
  (∀ data, q_data (in_executions i) = Some data → Forall (listed sn instanceId) data.1) →
  (∀ href, href ∈ incident_hrefs (instance_screen i p) → opens_incident sn href) ∧
  (∀ data x, q_data (in_executions i) = Some data → x ∈ data.1 → pg_detailView p = VOverview → pg_historyView p = HTable →
     is_Some (incident_detail sn (si_id x)) → incident_path (si_id x) ∈ incident_hrefs (instance_screen i p)).
Proof.
  intros Hpk Hd Hi Hids Hl. unfold instance_screen, page_shown. rewrite Hi. split.
  - intros href. destruct (pg_detailView p); [|intros Hh; by apply elem_of_nil in Hh].
    cbn [incident_hrefs overview_view ow_banner ow_history]. rewrite elem_of_app. intros [Hh|Hh].
    + destruct (step_banner d (pg_selectedStepId p)) as [b|] eqn:Eb; [|by apply elem_of_nil in Hh].
      destruct (sb_link b) as [h|] eqn:El; [|by apply elem_of_nil in Hh]. apply list_elem_of_singleton in Hh as ->.
      eapply banner_opens; eauto.
    + destruct (q_data (in_executions i)) as [data|] eqn:Eq; [|by apply elem_of_nil in Hh].
      apply (history_opens sn instanceId d Hpk Hd Hids i p data href); [by apply Hl|exact Hh].
  - intros data x Hq Hx -> Hv Hinc. specialize (Hl data Hq). rewrite Forall_forall in Hl. destruct (Hl x Hx) as (e & He & Hei & Ex).
    cbn [incident_hrefs overview_view ow_banner ow_history]. rewrite Hq, elem_of_app. right. cbn [fmap option_fmap option_map].
    unfold history_links, history_panel. cbn [hp_content]. rewrite Hv, elem_of_app. left. apply list_elem_of_bind.
    exists (table_line d (pg_selectedStepId p) x). split; [|by apply list_elem_of_fmap_2]. cbn [table_line tl_failure].
    destruct (proj1 (incident_links_exact sn instanceId d Hpk Hd) e He Hei) as [_ Hf].
    rewrite Ex in Hinc |- *. rewrite (Hf Hinc). by left.
Qed.

(** ** The timeline *)

(** Inspecting an attempt of the timeline shows that attempt: its snapshots, with
    its step selected. *)
Theorem inspect_shows `{J : JsonText} `{U : Utf8Text} `{C : Coordinates} (i : PageInputs) p d data step id :
  in_detail i = Some d → q_data (in_executions i) = Some data → NoDup (si_id <$> data.1) →
  AInspect step id ∈ offered (instance_screen i p) →
  let p' := page_step (snd <$> q_data (in_executions i)) (AInspect step id) p in
  ∃ header fresh v h x, instance_screen i p' = InstanceOverview header fresh v ∧ ow_history v = Some h ∧
    x ∈ data.1 ∧ si_id x = id ∧ si_stepId x = step ∧ pg_selectedStepId p' = Some step ∧
    hp_inspected h = Some (inspected_panel i d x).
Proof.
  intros Hd Hq Hnd. unfold instance_screen at 1, page_shown. rewrite Hd.
  destruct (pg_detailView p) eqn:Ev; [|cbn [offered]; rewrite !elem_of_cons; intros [[=]|[[=]|Hc]]; by apply elem_of_nil in Hc].
  cbn [offered overview_view ow_diagram ow_banner ow_history]. rewrite Hq. cbn [fmap option_fmap option_map].
  rewrite !elem_of_app. intros [Hc|[Hc|[Hc|Hc]]].
  { apply list_elem_of_In in Hc. destruct Hc as [[=]|[[=]|[[=]|[[=]|[]]]]]. }
  { case_match; [|by apply elem_of_nil in Hc]. apply list_elem_of_fmap in Hc as (? & [=] & _). }
  { case_match; [|by apply elem_of_nil in Hc]. by apply list_elem_of_singleton in Hc. }
  unfold history_clicks, history_panel in Hc. cbn [hp_content hp_newest hp_previous hp_next] in Hc. rewrite !elem_of_app in Hc.
  destruct Hc as [Hc|[Hc|[Hc|Hc]]]; [|case_match; [by apply list_elem_of_singleton in Hc|by apply elem_of_nil in Hc]..].
  destruct (pg_historyView p) eqn:Eh; [by apply elem_of_nil in Hc|]. cbn [ExecutionTimeline tv_lines] in Hc.
  apply list_elem_of_fmap in Hc as (line & [= -> ->] & Hl). apply list_elem_of_fmap in Hl as (x & -> & Hx).
  unfold sorted_executions in Hx. rewrite (merge_sort_Permutation earlier) in Hx. cbn [timeline_line tn_step tn_id].
  assert (inspectedExecution data.1 (Some (si_id x)) = Some x) as Hi.
  { unfold inspectedExecution. destruct (List.find _ _) as [y|] eqn:Ef.
    - apply List.find_some in Ef as [Hy%list_elem_of_In [= Ey]%bool_decide_eq_true]. f_equal. by apply (key_unique si_id data.1).
    - apply list_elem_of_In in Hx. apply (List.find_none _ _ Ef) in Hx. by rewrite bool_decide_eq_true_2 in Hx. }
  cbn [page_step]. rewrite Ev, Eh. unfold instance_screen, page_shown. rewrite Hd.
  eexists _, _, _, _, x. split; [reflexivity|]. cbn [overview_view ow_history]. rewrite Hq. cbn [fmap option_fmap option_map].
  split; [reflexivity|]. split_and!; [done..|]. unfold history_panel. cbn [pg_historyView hp_inspected pg_inspected]. by rewrite Hi.
Qed.

(** The bars of the timeline stay on their track: none starts left of it, each can
    be seen, and none that ended, or is observed, after it started reaches more
    than the least width beyond the right end. *)
Theorem timeline_percentages observedAt active partial l line :
  line ∈ tv_lines (ExecutionTimeline observedAt active partial l) →
  (∀ x f, x ∈ l → finish observedAt active x = Some f → (si_startedAt x ≤ f)%Z) →
  (0 <= tn_margin line)%Q ∧ (3 # 10 <= tn_width line)%Q ∧ (tn_margin line + tn_width line <= 100 + (3 # 10))%Q.
Proof.
  cbn [ExecutionTimeline tv_lines]. set (sorted := sorted_executions l).
  assert (∀ x, x ∈ sorted ↔ x ∈ l) as Hs by (intros x; unfold sorted, sorted_executions; by rewrite (merge_sort_Permutation earlier)).
  intros (x & -> & Hx)%list_elem_of_fmap Hf. destruct (timeline_bars observedAt active sorted) as (_ & _ & Hb). specialize (Hb x Hx).
  unfold timeline_line. cbn [tn_margin tn_width]. destruct (bar observedAt active sorted x) as [o n]. cbn [fst snd].
  destruct Hb as (Ho & Hn & Hle). specialize (Hle ltac:(intros f; apply Hf; by apply Hs)).
  assert (1 ≤ span observedAt active sorted)%Z as Hspan by (unfold span; lia).
  revert Hle Hspan. generalize (span observedAt active sorted). intros k Hle Hk.
  assert (Z.pos (Z.to_pos k) = k) as Ek by lia. split; [unfold Qle; cbn [Qnum Qden]; lia|]. split; [apply Q.le_max_l|].
  destruct (Q.max_spec (3 # 10) (Qmake (100 * n) (Z.to_pos k))) as [[_ E]|[_ E]]; rewrite E;
    unfold Qle, Qplus; cbn [Qnum Qden]; rewrite ?Pos2Z.inj_mul, ?Ek; nia.
Qed.

(** ** Witnesses *)

#[local] Existing Instances model_postgres model_postgres_laws whole_coordinates.

(** The page of the sample instance, once everything is loaded. *)
Definition sample_inputs (d : ProcessInstanceDetail) : PageInputs :=
  mkInputs 9000 (Some d) None false 8000 (Some 8000%Z)
    (mkQueryState (Some (execution_item <$> List.filter (λ e, String.eqb (er_instance_id e) "i") (db_executions (sn_db (incident_sample None))), None))
       None false 8000)
    (mkQueryState None None false 0) (mount_diagram (detail_steps d)) (λ _, (true, mkQueryState None None false 0)).

Definition sample_detail : ProcessInstanceDetail :=
  default (mkDetail [] (list_item (mkInstanceRow "i" "order" 1 "FAILED" ["pay"] 0 None None None JNull)) [] [] None []) (detail (incident_sample None) "i").

Lemma sample_listed data : q_data (in_executions (sample_inputs sample_detail)) = Some data →
  Forall (listed (incident_sample None) "i") data.1.
Proof.
  intros E. cbn [sample_inputs in_executions q_data] in E. apply Some_inj in E as <-. cbn [fst]. rewrite Forall_forall.
  intros x (e & -> & He)%list_elem_of_fmap. apply list_elem_of_In, List.filter_In in He as [He Hi].
  exists e. apply list_elem_of_In in He. apply String.eqb_eq in Hi. by split_and!.
Qed.

Lemma screen_links_open_witness :
  incident_path "e2" ∈ incident_hrefs (instance_screen (sample_inputs sample_detail) (mount_page EmptyString)) ∧
  opens_incident (incident_sample None) (incident_path "e2").
Proof.
  assert (incident_path "e2" ∈ incident_hrefs (instance_screen (sample_inputs sample_detail) (mount_page EmptyString))) as Hin
    by (apply (bool_decide_unpack _); vm_compute; exact I).
  split; [exact Hin|].
  refine (proj1 (screen_links_open (incident_sample None) "i" sample_detail (sample_inputs sample_detail) (mount_page EmptyString)
    (incident_sample_keys None) _ _ _ sample_listed) _ Hin).
  - vm_compute. reflexivity.
  - reflexivity.
  - intros e He. apply list_elem_of_In in He. apply (bool_decide_unpack _).
    repeat (destruct He as [<-|He]; [vm_compute; exact I|]). destruct He.
Defined.

Lemma pages_offered_witness :
  ANext ∉ offered (instance_screen (sample_inputs sample_detail) (mount_page EmptyString)).
Proof.
  intros H. apply (pages_offered (sample_inputs sample_detail) (mount_page EmptyString) ANext eq_refl) in H; [|by eexists].
  by apply H.
Defined.

(** The page with the timeline, and the click on the second attempt. *)
Definition timeline_page : PageState := page_step (Some None) (AHistoryView HTimeline) (mount_page EmptyString).

Lemma inspect_shows_witness :
  ∃ header fresh v h x, instance_screen (sample_inputs sample_detail) (page_step (Some None) (AInspect "pay" "e2") timeline_page)
      = InstanceOverview header fresh v ∧ ow_history v = Some h ∧ si_id x = "e2" ∧
    hp_inspected h = Some (inspected_panel (sample_inputs sample_detail) sample_detail x).
Proof.
  destruct (inspect_shows (sample_inputs sample_detail) timeline_page sample_detail
    (default ([], None) (q_data (in_executions (sample_inputs sample_detail)))) "pay" "e2") as (header & fresh & v & h & x & H1 & H2 & _ & H3 & _ & _ & H4).
  - reflexivity.
  - reflexivity.
  - apply (bool_decide_unpack _). vm_compute. exact I.
  - apply list_elem_of_In. vm_compute. tauto.
  - exists header, fresh, v, h, x. split; [exact H1|]. split; [exact H2|]. split; [exact H3|exact H4].
Defined.

Lemma timeline_percentages_witness :
  ∃ line, line ∈ tv_lines (ExecutionTimeline 1709210099000 true false (execution_item <$> db_executions sample_executions)) ∧
    (tn_margin line + tn_width line <= 100 + (3 # 10))%Q.
Proof.
  eexists. assert (Hin : timeline_line 1709210099000 true (sorted_executions (execution_item <$> db_executions sample_executions))
      (execution_item (sample_execution "e1" "i" 1709210096788000)) ∈ tv_lines (ExecutionTimeline 1709210099000 true false (execution_item <$> db_executions sample_executions))).
  { apply list_elem_of_fmap_2. unfold sorted_executions. rewrite (merge_sort_Permutation earlier). by left. }
  split; [exact Hin|]. refine (proj2 (proj2 (timeline_percentages 1709210099000 true false _ _ Hin _))).
  intros x f Hx. apply list_elem_of_In in Hx. repeat (destruct Hx as [<-|Hx]; [vm_compute; try congruence; intros [= <-]; discriminate|]). destruct Hx.
Defined.
