(* ===== verification/Drift.v ===== *)
(** * The drift guard (workflow-modeller/scripts/drift-check.ts)

    The script runs the editor's validator and the engine's one on a fixture
    and reports a drift when the editor accepts what the engine rejects.  The
    file system and the processes it starts are the class [DriftEnv]; its laws
    say that the runner prints the verdict of [GoDefinition.v]
    (workflow-engine/cmd/validate-fixture/main.go). *)

From S2P Require Import Prelude JsObject Types Graph Rename Validate WellFormed ValidateProps Schema ImportExport Store Engine Instances SavedFiltersProps GoDefinition.

(** ** The script *)

Record GoVerdict := mkGoVerdict { gv_accepted : bool; gv_error : option string }.

Record TsVerdict := mkTsVerdict { tv_accepted : bool; tv_diagnostics : list Diagnostic }.

Record FixtureDriftResult := mkDrift {
  fd_fixture : string;
  fd_ts : TsVerdict;
  fd_go : GoVerdict;
  fd_drift : bool
}.

(** What the script asks of the system: a call gives a value or throws. *)
Class DriftEnv := {
  readFileSync : string → string + string;
  go_version : option nat;                        (* the status of [go version]; None when it cannot be started *)
  mkdtemp : string;                               (* the directory made for the binary *)
  go_build : string → option string;              (* the output of a build that failed *)
  execFileSync : string → string → string + string;
  readdirSync : string → option (list string)     (* None: the directory does not exist *)
}.

Section script.
Context `{JsonText} `{DriftEnv} (peg_message : string → string).

Definition isGoAvailable : bool := match go_version with Some 0 => true | _ => false end.

(** [cachedBinary] is the state; the flag says whether a build was started. *)
Definition compileGoRunner (cached : option string) : option string * bool * (string + string) :=
  match cached with
  | Some binary => (cached, false, inl binary)
  | None =>
      let out := mkdtemp ⊕ "/validate-fixture" in
      match go_build out with
      | Some output => (None, true, inr ("go build failed: " ⊕ output))
      | None => (Some out, true, inl out)
      end
  end.

(** The cast of the parsed answer; another shape is no verdict. *)
Definition read_verdict (j : json) : option GoVerdict :=
  match j with
  | JObj o => a ← req z_boolean o "accepted"; e ← opt z_string o "error"; Some (mkGoVerdict a e)
  | _ => None
  end.

(** [None]: the runner printed something else. *)
Definition runGoValidator (fixturePath : string) (cached : option string) :
    option string * option (GoVerdict + string) :=
  let '(cached', _, binary) := compileGoRunner cached in
  (cached',
   match binary with
   | inr e => Some (inr e)
   | inl binary =>
       match execFileSync binary fixturePath with
       | inr e => Some (inr e)
       | inl stdout =>
           match JSON_parse stdout with
           | inr e => Some (inr e)
           | inl j => inl <$> read_verdict j
           end
       end
   end).

Definition runTsValidator (fixturePath : string) : TsVerdict + string :=
  match readFileSync fixturePath with
  | inr e => inr e
  | inl raw =>
      match JSON_parse raw with
      | inr e => inr e
      | inl j =>
          match safeParse j with
          | inr issues =>
              inl (mkTsVerdict false ((λ i, diag STEP_TYPE_VALID SevError (issue_message i) None None) <$> issues))
          | inl def =>
              let diagnostics := validate peg_message def in
              inl (mkTsVerdict (Nat.eqb (count_severity SevError diagnostics) 0) diagnostics)
          end
      end
  end.

Definition checkFixture (fixturePath : string) (cached : option string) :
    option string * option (FixtureDriftResult + string) :=
  match runTsValidator fixturePath with
  | inr e => (cached, Some (inr e))
  | inl ts =>
      let '(cached', go) := runGoValidator fixturePath cached in
      (cached',
       match go with
       | None => None
       | Some (inr e) => Some (inr e)
       | Some (inl go) => Some (inl (mkDrift fixturePath ts go (tv_accepted ts && negb (gv_accepted go))))
       end)
  end.

(** [f.endsWith('.json')] *)
Definition is_json_file (f : string) : bool := String.prefix (str_rev ".json") (str_rev f).

Definition listFixtures (fixtureRoot subdir : string) : list string :=
  let dir := fixtureRoot ⊕ "/" ⊕ subdir in
  match readdirSync dir with
  | None => []
  | Some entries => (λ f, dir ⊕ "/" ⊕ f) <$> sort_texts (List.filter is_json_file entries)
  end.
End script.

(** The runner is built when it can be and prints what the engine says of the file. *)
Class DriftLaws (T : JsonText) (D : DriftEnv) := {
  go_message : json → string;
  builds : ∀ out, go_build out = None;
  prints : ∀ binary path text j,
    readFileSync path = inl text → JSON_parse text = inl j →
    match go_accepts j with
    | GoOk true => execFileSync binary path = inl (JSON_stringify (JObj [("accepted", JBool true)]))
    | GoOk false | GoErr =>
        execFileSync binary path =
        inl (JSON_stringify (JObj [("accepted", JBool false); ("error", JStr (go_message j))]))
    | GoUndescribed => True
    end
}.

(** ** The editor and the engine *)

(** The definitions of which the editor sends exactly what it declares. *)
Definition sendable (d : WorkflowDefinition) : bool :=
  def_schema true d && json_wf (def_json d) && def_wf d && declared_only d.

(** What the engine demands beyond the editor. *)
Definition engine_extra (d : WorkflowDefinition) : bool := ints_ok d && forallb (negb ∘ missing_job) (wd_steps d).

Lemma no_missing_job d :
  (wd_steps d ≫= λ s, complain (missing_job s) (GJobType (step_id s))) = [] ↔ forallb (negb ∘ missing_job) (wd_steps d) = true.
Proof.
  induction (wd_steps d) as [|s l IH]; [done|]. cbn [mbind list_bind forallb]. unfold compose at 1. destruct (missing_job s); simpl; [by split|apply IH].
Qed.

Lemma engine_verdict d :
  well_formed d → sendable d = true →
  go_accepts (def_json d) =
  if ints_ok d then GoOk (forallb (negb ∘ missing_job) (wd_steps d)) else GoErr.
Proof.
  unfold sendable. intros Hd Hs. apply andb_true_iff in Hs as [[_ Hw]%andb_true_iff Hdecl].
  unfold go_accepts. rewrite go_parse_json by done. destruct (ints_ok d); [|done]. cbn [go_bind].
  rewrite validate_well_formed by done. f_equal. pose proof (no_missing_job d) as [H1 H2].
  destruct (forallb _ _); [by rewrite H2|]. destruct (_ ≫= _); [|done]. by specialize (H1 eq_refl).
Qed.

Lemma engine_described d : sendable d = true → (∃ b, go_accepts (def_json d) = GoOk b) ∨ go_accepts (def_json d) = GoErr.
Proof.
  unfold sendable. intros [_ Hdecl]%andb_true_iff. unfold go_accepts. rewrite go_parse_json by done.
  destruct (ints_ok d); [left; eauto|by right].
Qed.

Lemma count_errors ds : Nat.eqb (count_severity SevError ds) 0 = error_free ds.
Proof.
  unfold count_severity, error_free. induction ds as [|d ds IH]; [done|]. simpl. unfold is_error at 1.
  destruct (bool_decide (d_severity d = SevError)); simpl; [done|apply IH].
Qed.

Section drift.
Context {T : JsonText} `{!JsonTextLaws T} {D : DriftEnv} `{!DriftLaws T D} (peg_message : string → string).

Lemma ts_verdict path d :
  readFileSync path = inl (JSON_stringify (def_json d)) → sendable d = true →
  runTsValidator peg_message path = inl (mkTsVerdict (error_free (validate peg_message d)) (validate peg_message d)).
Proof.
  unfold sendable. intros Hr Hs. apply andb_true_iff in Hs as [[[Hsch Hj]%andb_true_iff _]%andb_true_iff _].
  unfold runTsValidator. rewrite Hr, parse_stringify by done. pose proof (safeParse_schema (def_json d)) as Hp.
  rewrite (def_roundtrip true d Hsch) in Hp. destruct (safeParse (def_json d)); simplify_eq. by rewrite count_errors.
Qed.

Lemma compiles cached : ∃ cached' flag binary, compileGoRunner cached = (cached', flag, inl binary).
Proof. unfold compileGoRunner. destruct cached as [b|]; [eauto|]. rewrite builds. eauto. Qed.

Lemma go_verdict path d cached :
  readFileSync path = inl (JSON_stringify (def_json d)) → sendable d = true → well_formed d →
  ∃ cached' e, runGoValidator path cached = (cached', Some (inl (mkGoVerdict (engine_extra d) e))).
Proof.
  intros Hr Hs Hd. pose proof (engine_verdict d Hd Hs) as Hv.
  assert (json_wf (def_json d) = true) as Hj by (unfold sendable in Hs; bool_hyps; done).
  unfold runGoValidator. destruct (compiles cached) as (cached' & flag & binary & ->).
  exists cached'. pose proof (prints binary path _ _ Hr (parse_stringify _ Hj)) as Hp. rewrite Hv in Hp. unfold engine_extra.
  destruct (ints_ok d); cbn [andb].
  - destruct (forallb _ _); rewrite Hp, parse_stringify by done; eauto.
  - rewrite Hp, parse_stringify by done. eauto.
Qed.

(** C2: on a file the editor wrote, of a definition without undeclared members,
    the guard gives a result, the editor's verdict is well-formedness, and it
    reports a drift exactly when the definition is well formed but a service
    task has no job type or the version or a retry count is no 64-bit integer:
    apart from those the engine accepts every workflow the editor accepts. *)
Theorem drift_exact path d cached :
  readFileSync path = inl (JSON_stringify (def_json d)) → sendable d = true →
  ∃ cached' r, checkFixture peg_message path cached = (cached', Some (inl r)) ∧
    (tv_accepted (fd_ts r) = true ↔ well_formed d) ∧
    (well_formed d → gv_accepted (fd_go r) = engine_extra d) ∧
    (fd_drift r = true ↔ well_formed d ∧ engine_extra d = false).
Proof.
  intros Hr Hs. unfold checkFixture. rewrite (ts_verdict path d Hr Hs).
  pose proof (validate_correct peg_message d) as Hc. destruct (error_free (validate peg_message d)) eqn:He.
  - assert (well_formed d) as Hd by (by apply Hc). destruct (go_verdict path d cached Hr Hs Hd) as (cached' & e & ->).
    eexists cached', _. split; [reflexivity|]. cbn [fd_ts fd_go fd_drift tv_accepted gv_accepted andb]. split_and!; [done|done|].
    rewrite negb_true_iff. tauto.
  - assert (¬ well_formed d) as Hd by (rewrite <- Hc; done).
    assert (json_wf (def_json d) = true) as Hj by (unfold sendable in Hs; bool_hyps; done).
    assert (∃ cached' v, runGoValidator path cached = (cached', Some (inl v))) as (cached' & v & ->).
    { unfold runGoValidator. destruct (compiles cached) as (cached' & flag & binary & ->). exists cached'.
      pose proof (prints binary path _ _ Hr (parse_stringify _ Hj)) as Hp.
      destruct (engine_described d Hs) as [[[] Hg]|Hg]; rewrite Hg in Hp; rewrite Hp, parse_stringify by done; eauto. }
    eexists cached', _. split; [reflexivity|]. cbn [fd_ts fd_drift tv_accepted andb]. split_and!; [done|done|]. split; [done|tauto].
Qed.

(** The runner is built once: after it was, no check starts a build again. *)
Theorem built_once path cached cached' r :
  checkFixture peg_message path cached = (cached', Some (inl r)) →
  is_Some cached' ∧ ∀ path2, (compileGoRunner cached').1.2 = false ∧ (checkFixture peg_message path2 cached').1 = cached'.
Proof.
  unfold checkFixture, runGoValidator. destruct (runTsValidator peg_message path); [|done].
  assert (∀ b path2, (checkFixture peg_message path2 (Some b)).1 = Some b) as Hb.
  { intros b path2. unfold checkFixture, runGoValidator. destruct (runTsValidator peg_message path2); [|done]. done. }
  unfold compileGoRunner. destruct cached as [b|].
  - intros Heq. injection Heq as <- _. split; [eauto|]. intros path2. split; [done|]. apply Hb.
  - rewrite builds. intros Heq. injection Heq as <- _. split; [eauto|]. intros path2. split; [done|]. apply Hb.
Qed.
End drift.

(** The fixtures of a directory, sorted, JSON files only. *)
Theorem fixtures_listed `{DriftEnv} root subdir entries :
  readdirSync (root ⊕ "/" ⊕ subdir) = Some entries →
  (∀ p, p ∈ listFixtures root subdir ↔ ∃ f, f ∈ entries ∧ is_json_file f = true ∧ p = (root ⊕ "/" ⊕ subdir) ⊕ "/" ⊕ f) ∧
  length (listFixtures root subdir) = length (List.filter is_json_file entries).
Proof.
  intros He. unfold listFixtures. rewrite He. split.
  - intros p. rewrite list_elem_of_fmap.
    assert (∀ f, f ∈ sort_texts (List.filter is_json_file entries) ↔ f ∈ entries ∧ is_json_file f = true) as Hf.
    { intros f. rewrite sort_texts_perm, list_elem_of_In, filter_In, <- list_elem_of_In. done. }
    setoid_rewrite Hf. naive_solver.
  - rewrite length_fmap. by rewrite sort_texts_perm.
Qed.

(** ** Drifts *)

Definition drift_step : Step := ServiceTaskStep (common "charge" "Charge") (Some "end") None None None None.

(** A service task without a job type, a version that is no integer, a member
    the engine does not know. *)
Definition without_job : WorkflowDefinition :=
  mkDef "orders" None "Orders" None None None [drift_step; EndStep (common "end" "End")] None [].
Definition half_version : WorkflowDefinition :=
  mkDef "orders" (Some (JsNum 3 (-1))) "Orders" None None None [EndStep (common "end" "End")] None [].
Definition with_owner : WorkflowDefinition :=
  mkDef "orders" None "Orders" None None None [EndStep (common "end" "End")] None [("owner", JStr "billing")].

Lemma well_formed_checked d : error_free (validate (λ s, s) d) = true → well_formed d.
Proof. apply validate_correct. Qed.

(** Each of them is accepted by the schema and has no error in the editor; the
    engine refuses the first as invalid and does not parse the others. *)
Theorem drifts_exist :
  Forall (λ d, def_schema true d = true ∧ well_formed d) [without_job; half_version; with_owner] ∧
  go_accepts (def_json without_job) = GoOk false ∧
  go_accepts (def_json half_version) = GoErr ∧ go_accepts (def_json with_owner) = GoErr.
Proof.
  split; [|split_and!; vm_compute; reflexivity].
  repeat apply Forall_cons_2; [..|apply Forall_nil_2]; (split; [vm_compute; reflexivity|]);
    apply well_formed_checked; vm_compute; reflexivity.
Qed.

(** ** Uploading (workflow-engine/internal/api/rest/definitions.go) *)

Section uploading.
Context `{JsonText}.
Context (repo_upload : GoDefinition → json + string).     (* the repository: the summary, or its error *)
Context (problem : nat → string → string).                (* the body of an error answer *)

(** [Upload], on a JSON body; [None] where the decoder is not described. *)
Definition Upload (body : string) : option Response :=
  let bad := Some (mkResponse 400 "Bad Request" (problem 400 body)) in
  match JSON_parse body with
  | inr _ => bad
  | inl j =>
      match go_parse j with
      | GoUndescribed => None
      | GoErr => bad
      | GoOk def =>
          match Validate def with
          | _ :: _ => bad
          | [] =>
              match repo_upload def with
              | inr e => Some (mkResponse 500 "Internal Server Error" (problem 500 e))
              | inl summary => Some (mkResponse 201 "Created" (JSON_stringify summary))
              end
          end
      end
  end.
End uploading.

(** Well-formedness does not look at the metadata. *)
Lemma reachable_steps d d' x : wd_steps d' = wd_steps d → reachable d x → reachable d' x.
Proof.
  intros Hs. induction 1 as [s rest Hr|x y _ IH (s & Hin & Hf) Hne]; [eapply reachable_entry; by rewrite Hs|].
  eapply reachable_step; [done| |done]. exists s. by rewrite Hs.
Qed.

Lemma inside_steps d d' p j x : wd_steps d' = wd_steps d → inside d' p j x → inside d p j x.
Proof.
  intros Hs. induction 1 as [x Hx Hn Hj|x y _ IH (s & Hin & Hf) Hne Hj]; [by apply inside_branch|].
  eapply inside_step; [done| |done|done]. exists s. by rewrite <- Hs.
Qed.

Lemma embedded_well_formed d layout handles : well_formed d → well_formed (embedLayout d layout handles).
Proof.
  set (d' := embedLayout d layout handles). assert (wd_steps d' = wd_steps d) as Hs by reflexivity.
  intros [H1 H2 H3 H4 H5 H6 H7 H8 H9 H10 H11 H12 H13 H14 H15 H16 H17]. split; try done.
  - intros x Hx. apply (reachable_steps d); [done|]. by apply H15.
  - intros c p j s Hp Hin Hi. apply (H17 c p j); [done|done|]. by apply (inside_steps d d').
Qed.

Section upload_verdict.
Context `{JsonTextLaws}.
Context (repo_upload : GoDefinition → json + string) (problem : nat → string → string).
Context (fetch : Request → Response + string).

(** The engine at the other end answers a posted definition as its handler does. *)
Hypothesis engine_answers : ∀ r body response,
  rq_method r = "POST" → rq_body r = Some body → Upload repo_upload problem body = Some response → fetch r = inl response.
(** Its repository works. *)
Context (version : jsnum).
Hypothesis repo_works : ∀ def,
  repo_upload def = inl (JObj [("id", JStr (gd_id def)); ("version", JNum version)]).

(** Uploading a workflow the editor finds no error in, without undeclared
    members: it is stored under the version the engine gave it exactly when
    every service task has a job type and the numbers are 64-bit integers.
    Otherwise the engine answers 400, nothing is marked as saved, and the
    rejection is among the errors that block the next upload. *)
Theorem upload_verdict now st :
  let d := embedLayout (ws_definition st) (ws_layout st) (ws_edgeHandles st) in
  well_formed (ws_definition st) → sendable d = true →
  let '(st', out) := uploadToEngine fetch (λ s, s) now st in
  if engine_extra d
  then out = Some (inl version) ∧ ws_dirty st' = false ∧ ws_source st' = SrcEngine (wd_id d) version ∧
       ec_status (ws_engine st') = StOk
  else (∃ e, out = Some (inr e) ∧ ee_status e = 400 ∧ ee_kind e = KHttp) ∧ ws_dirty st' = ws_dirty st ∧
       ws_definition st' = ws_definition st ∧ count_severity SevError (v_diagnostics (ws_validation st')) ≠ 0.
Proof.
  intros d Hd Hs. apply (embedded_well_formed _ (ws_layout st) (ws_edgeHandles st)) in Hd. fold d in Hd.
  pose proof (engine_verdict d Hd Hs) as Hv.
  assert (json_wf (def_json d) = true) as Hj by (unfold sendable in Hs; bool_hyps; done).
  assert (Upload repo_upload problem (JSON_stringify (def_json d)) = Some
    (if engine_extra d then mkResponse 201 "Created" (JSON_stringify (JObj [("id", JStr (wd_id d)); ("version", JNum version)]))
     else mkResponse 400 "Bad Request" (problem 400 (JSON_stringify (def_json d))))) as Hu.
  { clearbody d. unfold Upload, engine_extra. rewrite parse_stringify by done. unfold go_accepts in Hv.
    assert (declared_only d = true) as Hdecl by (unfold sendable in Hs; bool_hyps; done). rewrite go_parse_json in * by done.
    destruct (ints_ok d); [|done]. cbn [go_bind andb] in *.
    destruct (Validate (go_of_def d)); injection Hv as Hv; rewrite <- Hv; [|done]. by rewrite repo_works. }
  unfold uploadToEngine. fold d. unfold upload, request. erewrite engine_answers; [|reflexivity|reflexivity|exact Hu].
  destruct (engine_extra d); cbn [rs_text rs_status rs_statusText response_ok Nat.leb andb negb].
  - destruct (String.eqb_spec (JSON_stringify (JObj [("id", JStr (wd_id d)); ("version", JNum version)])) EmptyString) as [He|_];
      [by apply stringify_nonempty in He|]. by rewrite parse_stringify.
  - split_and!; [by eexists|done|done|]. unfold upload_failed. cbn [ee_kind ee_status].
    rewrite bool_decide_eq_true_2 by done. change (is_4xx 400) with true.
    cbn [andb with_engine with_validation ws_validation v_diagnostics]. unfold count_severity. rewrite List.filter_app, length_app.
    cbn [List.filter d_severity diag]. rewrite bool_decide_eq_true_2 by done. cbn [length]. lia.
Qed.
End upload_verdict.

(** ** Witnesses *)

Section witness.
Context (files : string → string + string).

Definition sample_env : DriftEnv := {|
  readFileSync := files;
  go_version := Some 0;
  mkdtemp := "/tmp/wm-drift-1";
  go_build := λ _, None;
  execFileSync := λ _ path,
    match files path with
    | inr e => inr e
    | inl text =>
        match JSON_parse text with
        | inr e => inr e
        | inl j =>
            inl (JSON_stringify (JObj match go_accepts j with
                                      | GoOk true => [("accepted", JBool true)]
                                      | _ => [("accepted", JBool false); ("error", JStr "rejected")]
                                      end))
        end
    end;
  readdirSync := λ _, Some ["b.json"; "notes.txt"; "a.json"]
|}.

Definition sample_env_laws : @DriftLaws _ sample_env.
Proof.
  refine (Build_DriftLaws _ sample_env (λ _, "rejected") (λ _, eq_refl) _).
  intros binary path text j Hr Hp. simpl in *. rewrite Hr, Hp. by destruct (go_accepts j) as [[]| |].
Defined.
End witness.

Definition fixture_files (path : string) : string + string :=
  if String.eqb path "ok.json" then inl (JSON_stringify (def_json tiny_def))
  else if String.eqb path "bad.json" then inl (JSON_stringify (def_json without_job)) else inr "ENOENT".

Lemma drift_exact_witness :
  ∃ cached r, @checkFixture _ (sample_env fixture_files) (λ s, s) "bad.json" None = (cached, Some (inl r)) ∧ fd_drift r = true.
Proof.
  destruct (@drift_exact _ _ (sample_env fixture_files) (sample_env_laws fixture_files) (λ s, s) "bad.json" without_job None
    eq_refl ltac:(vm_compute; reflexivity)) as (cached & r & H1 & _ & _ & H2).
  exists cached, r. split; [exact H1|]. apply H2. split; [|vm_compute; reflexivity].
  apply well_formed_checked. vm_compute. reflexivity.
Defined.

Lemma built_once_witness :
  (@compileGoRunner (sample_env fixture_files) (Some "/tmp/wm-drift-1/validate-fixture")).1.2 = false.
Proof.
  destruct (@checkFixture _ (sample_env fixture_files) (λ s, s) "ok.json" (Some "/tmp/wm-drift-1/validate-fixture")) as [c r] eqn:E.
  assert (c = Some "/tmp/wm-drift-1/validate-fixture" ∧ ∃ v, r = Some (inl v)) as [-> [v ->]]
    by (vm_compute in E; injection E as <- <-; eauto).
  apply (@built_once _ (sample_env fixture_files) (sample_env_laws fixture_files) (λ s, s) _ _ _ _ E). exact "ok.json".
Defined.

Lemma upload_verdict_witness :
  let repo := λ def : GoDefinition, inl (JObj [("id", JStr (gd_id def)); ("version", JNum (num_of_Z 3))]) in
  let fetch := λ r, match rq_body r with
                    | Some body => match Upload repo (λ _ _, "refused") body with Some x => inl x | None => inr "undescribed" end
                    | None => inr "no body"
                    end in
  let '(st', out) := uploadToEngine fetch (λ s, s) 5%Z (edit tiny_def initialState) in
  out = Some (inl (num_of_Z 3)) ∧ ws_dirty st' = false.
Proof.
  intros repo fetch.
  pose proof (upload_verdict repo (λ _ _, "refused") fetch
    ltac:(intros r body response _ Hb Hu; unfold fetch; rewrite Hb, Hu; reflexivity) (num_of_Z 3) ltac:(reflexivity) 5%Z
    (edit tiny_def initialState) ltac:(apply well_formed_checked; vm_compute; reflexivity) ltac:(vm_compute; reflexivity)) as H.
  destruct (uploadToEngine fetch (λ s, s) 5%Z (edit tiny_def initialState)) as [st' out].
  change (engine_extra _) with true in H. destruct H as (H1 & H2 & _). split; [exact H1|exact H2].
Defined.

Lemma fixtures_listed_witness :
  length (@listFixtures (sample_env fixture_files) "tests/fixtures" "valid") = 2.
Proof.
  apply (@fixtures_listed (sample_env fixture_files) "tests/fixtures" "valid" ["b.json"; "notes.txt"; "a.json"]). reflexivity.
Defined.
